(* ===== verification/_CoqProject ===== *)
-Q . S2P
Prelude.v
Array.v
Queue.v
Bitmap.v
Coremap.v
Kheap.v
AddrSpace.v
Thread.v
ThreadInv.v
Uio.v
Lhd.v
Vnode.v
Sfs.v
SfsFile.v
SfsIo.v
SfsDir.v
SfsRef.v
Vfs.v
VfsRef.v
VfsTable.v
Device.v
Console.v
VfsWorld.v
Conc.v
CatLock.v
Stoplight.v
StoplightInv.v
Proc.v
Exec.v
Syscall.v
Mksfs.v
Malloc.v
Printf.v
Mem.v
Emu.v
EmuInv.v
EmuIo.v
Menu.v
