(* ===== verification/Prelude.v ===== *)
(** * OS/161: a verification development

    OS/161 is a teaching operating system for a MIPS machine: a kernel
    ([src/kern]), a C library ([src/lib]) and user programs ([src/bin],
    [src/sbin], [src/testbin]).  This development translates parts of it into
    Rocq functions and proves what these functions do.  A definition has the
    name of the C function it translates.

    ** How C is written down

    This file has the shared vocabulary.  [exec] is the result of running code:
    [Done], or [Halt] with the way the machine stopped (a failed [assert], a
    [panic], an access the C standard leaves undefined, a wait nothing ends, or
    the end of the fuel of a loop).  [ret] is the result of a C function that
    returns 0 or an error number; [try!] is the idiom "if (result) return
    result".  Integers are [Z] with the wrap-around of their type written out
    ([u32], [u16], [s32]), and [int] stops with [Undefined] where signed
    arithmetic overflows.  [rd] and [wr] access objects with bounds.  [mem n]
    says whether a [kmalloc] of [n] bytes succeeds, and the theorems hold for
    every [mem]; within one call of an operation requests of one size succeed or
    fail together, and each step of the thread system has a [mem] of its own.
    A call that never returns to its caller is [Halt Blocked].  [post m Q] says that [Q] holds of the result of [m]
    if it is [Done]; its rules are in the hint database [post].

    ** The kernel, file by file

    - [Array], [Queue], [Bitmap] ([kern/lib]): resizable arrays, ring buffers
      and bitmaps refine lists and sets.
    - [Coremap] ([kern/vm/coremap.c]): the page allocator is first-fit.
      [Kheap] ([kern/lib/kheap.c]): [kmalloc] and [kfree] refine a set of
      disjoint blocks, over the interface [PageAlloc] that [Coremap] implements.
    - [AddrSpace] ([kern/vm]): address spaces, the fault handler and the TLB.
      [touch] is an access of a program: a hit in the TLB or a call of [vm_fault].
    - [Thread], [ThreadInv] ([kern/thread]): threads, the scheduler, semaphores,
      locks and condition variables as one state machine.  A stretch of code
      that runs without giving up the processor is one step; the theorems are
      invariants of every reachable state.  [sem_destroy] is two steps, its test
      and its [kfree]s, and locks and semaphores may be freed at any time;
      [no_lost_wakeup] alone asks that none is freed that threads still use, and
      [sem_destroy_race] shows why.  [thread_fork] is one step; interrupts before
      its [splhigh] are left out.
    - [Uio] ([kern/userprog/uio.c], [kern/lib/copyinout.c]): moving data between
      the kernel and user memory, for every pointer a user may pass.
    - [Lhd] ([kern/dev/lamebus/lhd.c]): the disk driver; [BlockDev] is what the
      filesystem needs of it.
    - [Vnode]: the vnode interface as a type class with its laws.  [Sfs],
      [SfsFile], [SfsIo], [SfsDir], [SfsRef] ([kern/fs/sfs]): the filesystem.
      Files refine byte sequences, directories refine maps from names to inodes,
      and SFS implements the vnode interface.  [Device]
      ([kern/fs/vfs/device.c]) implements it for devices.
    - [Vfs], [VfsRef], [VfsTable] ([kern/fs/vfs]): the VFS layer over any
      implementation of the interface: paths, the device table, and the
      reference counts of vnodes in every history of calls.  [VfsWorld] puts
      the implementations together.
    - [Console] ([kern/dev/generic/console.c], [kern/dev/lamebus/lser.c]): the
      console and the serial driver under it.
    - [Emu], [EmuInv], [EmuIo] ([kern/dev/lamebus/emu.c]): the driver of the
      emulator card, which gives access to files of the machine the simulator
      runs on, and the filesystem on top of it, another implementation of the
      vnode interface.  What the card does is a parameter.
    - [Conc]: a language for concurrent kernel code in which every access to
      shared memory is a step, with a rule for invariants, one for the absence
      of deadlock and one for termination.  [CatLock] ([kern/asst1/catlock.c]),
      [Stoplight] with its proof in [StoplightInv] ([kern/asst1/stoplight.c]) and
      [Proc] ([sys_waitpid], [sys__exit]) are programs in it.
    - [Exec] ([kern/userprog], [sys_execv]): loading programs and their
      arguments.
    - [Syscall] ([kern/arch/mips/mips/syscall.c], [trap.c]): traps, the system
      call convention, and [read], [write] and [fork], composed from the trap
      handler down to the serial port and the memory of the process.
    - [Menu] ([kern/main/menu.c], [kern/lib/kgets.c]): the prompt of the kernel,
      from the keys that are pressed to the functions that are called.

    ** The C library and the programs

    - [Mem] and [Printf] ([lib/libc], shared with the kernel): [memmove] and its
      like; [snprintf] over the state machine that formats, and [atoi].
    - [Malloc] ([lib/libc/malloc.c]): the allocator of user programs, over the
      documented behaviour of [sbrk].
    - [Mksfs] ([sbin/mksfs]): the program that makes a filesystem.

    ** What the theorems show

    - Data structures refine their specifications: arrays are lists, queues are
      FIFOs, directories are maps from names to inodes, files are sequences of
      bytes, the two heaps are sets of blocks that lie apart.
    - Isolation: an address space that is copied shares no page with the
      original, a write to a file changes no other file, the TLB maps only pages
      of the current address space, and a program of no more pages than the TLB
      has entries never lacks one.
    - Invariants of all reachable states: a thread is in exactly one of the
      places where threads wait, a wakeup is not lost (as long as nothing is
      freed that is in use), a lock has one owner,
      every vnode has as many references as there are holders; two cars in the
      intersection are in different regions.  Whatever the emulator card
      answers, the filesystem on it keeps its tables and releases its lock.
    - Composition: a filesystem made by [mksfs] mounts and satisfies the
      invariant from which the theorems on files and directories start; an
      executable in such a file is loaded as its headers say; a [write] system
      call sends the bytes of the buffer, newlines as carriage return and line
      feed, to the serial port; [fork] gives two processes with equal memory, if
      there are pages for the second; the emulator filesystem is
      configured at boot and found under its name by the VFS layer, and what is
      written to a file of it is read back; a line typed at the prompt has the
      effect of its commands, though it is cut into words in place.
    - Termination and progress: loops have fuel and the theorems show that it is
      enough; parents and children that wait for each other finish in every
      schedule; the cats and mice can always finish, and the cars can always get
      through the intersection.

    - Errors have their cause: a write to a file falls short only when every block
      of the disk is in use or the file has its largest size, [malloc] gives NULL
      only when [sbrk] refuses, [as_copy] and [load_elf] give [ENOMEM] only
      without memory or without enough contiguous pages.

    The theorems on SFS are about a disk that carries out every transfer
    ([reliable], a part of the invariant [fs_inv]); what the code does with an
    error of the device, which is to pass it on, is in the definitions only.  The
    reference counts ([VfsRef], [SfsRef]) do not need this.

    ** Interfaces

    A component is proved against a class of what it calls: [PageAlloc] (pages
    for the heap), [BlockDev] (a disk for the filesystem), [Vnodes] with
    [VnodesOk] (files and devices for the VFS layer), [Syscalls] and [Traps]
    (the kernel behind the trap handler), [Sbrk] (the kernel behind [malloc]),
    [Sink] (the reader of formatted text), [EmuCard] with [EmuCardOk] (the card
    behind the emulator filesystem, and what it does when it works), [Commands]
    with [CommandsOk] (what the commands of the menu call).  The instances are the components
    themselves; hardware and the kernel functions that are not in the sources
    are parameters with the laws their documentation states.

    ** Bounds and fuel

    A loop without a structural bound has fuel, computed from the state where
    that is possible: a search of the heap has one unit for every 8 bytes, a
    loop over a vector one for every element, a copy one for every byte.  The
    retry loop of SFS has the ten retries of the code, and so has closing a file of
    the emulator; its read and write loops have one unit for every byte.  [Fuel] is a [Halt], so
    a theorem that ends in [Done] includes that the fuel is enough.  Disks have
    less than 2^22 blocks, so that offsets fit the signed type of the code.

    ** Findings

    Where the code does not do what it means to, the definition does what the
    code does, and a theorem or an example shows it.  Among them: [sys_write]
    and [sys_read] follow user pointers without a check and leak a reference to
    the console in every call; [sys_execv] reads its arguments after it has
    replaced the memory they are in; [free] rejects an empty block at the top of
    the heap; [printf] pads on the right with zeros and does not know [%X]; [fork]
    succeeds without an address space for the child; a car from the south that
    does not turn right writes outside of [region], and a car that turns right
    may look at the stack of a thread that is gone.

    ** Not modelled

    Assembly code (its effect is part of the states); random numbers, which are
    arguments; [catsem.c], which has no solution in it; the bus, the clock and
    screen drivers (registers only); configuration code that is generated; the
    order of the calls in [main.c]; output for people
    ([kprintf]), which changes no other state; most loops over strings, which are
    lists here ([strtok_r], [strcmp] and [strchr] are in [Menu]); the tests and the programs in [bin], most of which call system
    calls that this kernel does not have; [dumbvm.c], which the configuration
    with virtual memory replaces.  An interrupt is taken only where the code
    lets it: between the steps of [Thread] and [Conc], and in the waits of
    [Console] and [Lhd]. *)

From Stdlib Require Import ZArith Lia Bool.
From stdpp Require Import base list numbers gmap strings.

#[global] Open Scope Z_scope.

(** ** Error numbers ([kern/include/kern/errno.h]) *)

Inductive errno : Set :=
| EINVAL | EFAULT | ENAMETOOLONG | ENOMEM | EIO | ENOENT | ENOTDIR | EISDIR
| EEXIST | EXDEV | EAGAIN | ESPIPE | EUNIMP | ENXIO | ENODEV | EBUSY | EIOCTL
| ENOTEMPTY | ERANGE | ENOSPC | EMFILE | ENFILE | ENOSYS | ENOEXEC | E2BIG
| EBADF.

Definition errno_code (e : errno) : Z :=
  match e with
  | EINVAL => 1 | EFAULT => 2 | ENAMETOOLONG => 3 | ENOMEM => 4 | EIO => 5
  | ENOENT => 6 | ENOTDIR => 7 | EISDIR => 8 | EEXIST => 9 | EXDEV => 10
  | EAGAIN => 11 | ESPIPE => 12 | EUNIMP => 13 | ENXIO => 14 | ENODEV => 15
  | EBUSY => 16 | EIOCTL => 17 | ENOTEMPTY => 18 | ERANGE => 19 | ENOSPC => 20
  | EMFILE => 21 | ENFILE => 22 | ENOSYS => 23 | ENOEXEC => 24 | E2BIG => 25
  | EBADF => 26
  end.

#[global] Instance errno_eq_dec : EqDecision errno.
Proof. solve_decision. Defined.

(** A C function that returns 0 or an error number, with its out-parameters
    as the payload of the success case. *)
Inductive ret (A : Type) : Type :=
| Ok (a : A)
| Err (e : errno).
Arguments Ok {A} a.
Arguments Err {A} e.

(** ** Executions

    Kernel code either finishes or stops the machine: a failed [assert], an
    explicit [panic], an access the C standard leaves undefined, a wait that
    nothing ends, or, for loops run on fuel, no more fuel. *)

Inductive fault : Set := Assertion | Panic | Undefined | Blocked | Fuel.

Inductive exec (A : Type) : Type :=
| Done (a : A)
| Halt (f : fault).
Arguments Done {A} a.
Arguments Halt {A} f.

#[global] Instance exec_ret : MRet exec := fun A a => Done a.
#[global] Instance exec_bind : MBind exec := fun A B f m =>
  match m with Done a => f a | Halt x => Halt x end.
#[global] Instance exec_fmap : FMap exec := fun A B f m =>
  match m with Done a => Done (f a) | Halt x => Halt x end.

(** [assert(b); k] *)
Definition assert {A} (b : bool) (k : exec A) : exec A :=
  if b then k else Halt Assertion.

Declare Scope kern_scope.
Delimit Scope kern_scope with kern.
#[global] Open Scope kern_scope.

Notation "'assert!' b ; k" := (assert b k)
  (at level 20, b at level 100, k at level 200, right associativity,
   format "'assert!'  b ; '//' k") : kern_scope.

(** Reading a finished execution backwards. *)
Lemma bind_Done {A B} (m : exec A) (f : A -> exec B) b :
  m ≫= f = Done b -> exists a, m = Done a /\ f a = Done b.
Proof. destruct m as [a|]; [|done]. intros E. by exists a. Qed.

Lemma assert_Done {A} (c : bool) (m : exec A) x : assert c m = Done x -> c = true /\ m = Done x.
Proof. by destruct c. Qed.

(** [result = m; if (result) return result; k] for a call [m] that updates the
    state: on error the updated state is returned with the error. *)
Definition on_ok {St A B} (m : exec (St * ret A)) (k : St -> A -> exec (St * ret B))
  : exec (St * ret B) :=
  match m with
  | Done (s, Ok a) => k s a
  | Done (s, Err e) => Done (s, Err e)
  | Halt f => Halt f
  end.

Notation "'try!' s , x <- m ; k" := (on_ok m (fun s x => k))
  (at level 20, s name, x name, m at level 100, k at level 200,
   right associativity, format "'try!'  s ,  x  <-  m ; '//' k") : kern_scope.

Notation "'try!' ' p , x <- m ; k" := (on_ok m (fun p x => k))
  (at level 20, p strict pattern, x name, m at level 100, k at level 200,
   right associativity, format "'try!'  ' p ,  x  <-  m ; '//' k") : kern_scope.

(** ** Machine integers (MIPS32: [int], [unsigned], [size_t], pointers are
    32 bits wide) *)

Definition u32 (z : Z) : Z := z mod 2 ^ 32.
Definition u16 (z : Z) : Z := z mod 2 ^ 16.
Definition INT_MAX : Z := 2 ^ 31 - 1.
Definition INT_MIN : Z := - 2 ^ 31.

(** Signed arithmetic: overflow is undefined behaviour. *)
Definition int (z : Z) : exec Z :=
  if (INT_MIN <=? z) && (z <=? INT_MAX) then Done z else Halt Undefined.

(** Conversion of an unsigned word to [int] (two's complement). *)
Definition s32 (z : Z) : Z :=
  let w := u32 z in if w <? 2 ^ 31 then w else w - 2 ^ 32.

(** [DIVROUNDUP] and [ROUNDUP] of [kern/include/lib.h], on [unsigned]. *)
Definition DIVROUNDUP (a b : Z) : Z := u32 (u32 (a + b) - 1) / b.
Definition ROUNDUP (a b : Z) : Z := u32 (DIVROUNDUP a b * b).

(** ** Memory cells *)

Section cells.
Context {A : Type}.

(** [a[i]] and [a[i] = x] on an object of [length l] elements. *)
Definition rd (l : list A) (i : Z) : exec A :=
  if 0 <=? i then
    match l !! Z.to_nat i with Some x => Done x | None => Halt Undefined end
  else Halt Undefined.

Definition wr (l : list A) (i : Z) (x : A) : exec (list A) :=
  if (0 <=? i) && (i <? Z.of_nat (length l)) then Done (<[Z.to_nat i := x]> l)
  else Halt Undefined.

End cells.

(** [for (i = i0; i < i0 + n; i++) body(i)] *)
Fixpoint for_n {St : Type} (n : nat) (i : Z) (body : Z -> St -> exec St) (s : St)
  : exec St :=
  match n with
  | O => Done s
  | S n' => mbind (for_n n' (i + 1) body) (body i s)
  end.

(** [for (i = i0; i < hi; i++) body(i)], [hi] fixed on entry. *)
Definition for_range {St : Type} (i0 hi : Z) (body : Z -> St -> exec St) (s : St)
  : exec St := for_n (Z.to_nat (hi - i0)) i0 body s.

(** ** Shared lemmas and automation *)

Create HintDb kern.

Lemma rd_Done {A} (l : list A) (i : Z) (x : A) :
  0 <= i -> l !! Z.to_nat i = Some x -> rd l i = Done x.
Proof. intros H E. unfold rd. rewrite E. by destruct (Z.leb_spec 0 i); [|lia]. Qed.

Lemma rd_inv {A} (l : list A) (i : Z) (x : A) :
  rd l i = Done x -> 0 <= i < Z.of_nat (length l) /\ l !! Z.to_nat i = Some x.
Proof.
  unfold rd. destruct (Z.leb_spec 0 i); [|done].
  destruct (l !! Z.to_nat i) eqn:E; [|done]. intros [= ->].
  apply lookup_lt_Some in E as ?. split; [lia|done].
Qed.

Lemma wr_Done {A} (l : list A) (i : Z) (x : A) :
  0 <= i < Z.of_nat (length l) -> wr l i x = Done (<[Z.to_nat i := x]> l).
Proof.
  intros H. unfold wr.
  destruct (Z.leb_spec 0 i); [|lia]. by destruct (Z.ltb_spec i (Z.of_nat (length l))); [|lia].
Qed.

Lemma wr_inv {A} (l l' : list A) (i : Z) (x : A) :
  wr l i x = Done l' ->
  0 <= i < Z.of_nat (length l) /\ l' = <[Z.to_nat i := x]> l.
Proof.
  unfold wr. destruct (Z.leb_spec 0 i), (Z.ltb_spec i (Z.of_nat (length l))); simpl; try done.
  intros [= <-]. done.
Qed.

(** Reading back after a write. *)
Lemma rd_wr {A} (l l' : list A) (i j : Z) (x : A) :
  wr l i x = Done l' -> rd l' j = if decide (j = i) then Done x else rd l j.
Proof.
  intros [Hi ->]%wr_inv. destruct (decide (j = i)) as [->|Hne].
  - apply rd_Done; [lia|]. apply list_lookup_insert_eq. lia.
  - unfold rd. destruct (Z.leb_spec 0 j); [|done].
    by rewrite list_lookup_insert_ne by lia.
Qed.

Lemma rd_lt {A} (l : list A) (i : Z) :
  0 <= i < Z.of_nat (length l) -> exists x, rd l i = Done x.
Proof.
  intros Hi. destruct (lookup_lt_is_Some_2 l (Z.to_nat i)) as [x Hx]; [lia|].
  exists x. apply rd_Done; [lia|done].
Qed.

Lemma wr_lt {A} (l : list A) (i : Z) (x : A) :
  0 <= i < Z.of_nat (length l) ->
  exists l', wr l i x = Done l' /\ length l' = length l.
Proof. intros Hi. rewrite wr_Done by done. eexists. split; [done|]. apply length_insert. Qed.

Lemma int_Done (z : Z) : INT_MIN <= z <= INT_MAX -> int z = Done z.
Proof.
  intros. unfold int.
  destruct (Z.leb_spec INT_MIN z), (Z.leb_spec z INT_MAX); simpl; lia || done.
Qed.

Lemma int_inv (z z' : Z) : int z = Done z' -> z' = z /\ INT_MIN <= z <= INT_MAX.
Proof.
  unfold int. destruct (Z.leb_spec INT_MIN z), (Z.leb_spec z INT_MAX); simpl; try done.
  by intros [= ->].
Qed.

Lemma u32_small (z : Z) : 0 <= z < 2 ^ 32 -> u32 z = z.
Proof. apply Z.mod_small. Qed.

Lemma s32_small (z : Z) : 0 <= z < 2 ^ 31 -> s32 z = z.
Proof.
  intros Hz. unfold s32. rewrite u32_small by lia. by rewrite (proj2 (Z.ltb_lt z _)) by lia.
Qed.

Lemma u32_range (z : Z) : 0 <= u32 z < 2 ^ 32.
Proof. apply Z.mod_pos_bound. lia. Qed.

#[export] Hint Resolve u32_range : kern.

(** Words of [n] bits. *)
Section bits.
Context (n : Z) (Hn : 0 <= n).

Lemma bits_bound w : 0 <= w -> (forall k, n <= k -> Z.testbit w k = false) -> w < 2 ^ n.
Proof using Hn.
  intros H0 Hb. destruct (Z.lt_ge_cases w (2 ^ n)) as [|Hge]; [done|]. exfalso.
  assert (0 < 2 ^ n) by lia.
  assert (n <= Z.log2 w) as Hl by (apply Z.log2_le_pow2; lia).
  specialize (Hb (Z.log2 w) Hl). rewrite Z.bit_log2 in Hb by lia. done.
Qed.

Lemma bits_high w k : 0 <= w < 2 ^ n -> n <= k -> Z.testbit w k = false.
Proof using Hn.
  intros H Hk. destruct (Z.eq_dec w 0) as [->|]; [apply Z.bits_0|].
  apply Z.bits_above_log2; [lia|]. apply Z.log2_lt_pow2; [lia|].
  apply Z.lt_le_trans with (2 ^ n); [lia|]. apply Z.pow_le_mono_r; lia.
Qed.

Lemma bits_set w j : 0 <= w < 2 ^ n -> 0 <= j < n -> 0 <= Z.lor w (2 ^ j) < 2 ^ n.
Proof using Hn.
  intros Hw Hj. assert (0 <= Z.lor w (2 ^ j)) as H0.
  { apply Z.lor_nonneg. split; [lia|apply Z.pow_nonneg; lia]. }
  split; [done|]. apply bits_bound; [done|]. intros k Hk.
  rewrite Z.lor_spec, bits_high, Z.pow2_bits_eqb by lia. by destruct (Z.eqb_spec j k); [lia|].
Qed.

Lemma bits_clear w x : 0 <= w < 2 ^ n -> 0 <= Z.ldiff w x < 2 ^ n.
Proof using Hn.
  intros Hw. assert (0 <= Z.ldiff w x) as H0 by (apply Z.ldiff_nonneg; lia).
  split; [done|]. apply bits_bound; [done|]. intros k Hk. by rewrite Z.ldiff_spec, bits_high.
Qed.

Lemma bits_all w : 0 <= w < 2 ^ n -> (forall k, 0 <= k < n -> Z.testbit w k = true) -> w = Z.ones n.
Proof using Hn.
  intros Hw Hb. apply Z.bits_inj'. intros k Hk. destruct (Z.lt_ge_cases k n).
  - rewrite Hb, Z.ones_spec_low by lia. done.
  - rewrite bits_high, Z.ones_spec_high by lia. done.
Qed.

End bits.

Lemma land_pow2 w j : 0 <= j -> (Z.land w (2 ^ j) =? 0) = negb (Z.testbit w j).
Proof.
  intros Hj. destruct (Z.testbit w j) eqn:E; simpl.
  - apply Z.eqb_neq. intros H0.
    assert (Z.testbit (Z.land w (2 ^ j)) j = false) as Hb by (rewrite H0; apply Z.bits_0).
    rewrite Z.land_spec, E, Z.pow2_bits_true in Hb by lia. done.
  - apply Z.eqb_eq, Z.bits_inj_0. intros k. rewrite Z.land_spec, Z.pow2_bits_eqb by lia.
    destruct (Z.eqb_spec j k) as [->|]; [by rewrite E|apply andb_false_r].
Qed.

Lemma ldiff_pow2 w j k : 0 <= j ->
  Z.testbit (Z.ldiff w (2 ^ j)) k = Z.testbit w k && negb (j =? k).
Proof. intros. by rewrite Z.ldiff_spec, Z.pow2_bits_eqb by lia. Qed.

Lemma lor_pow2 w j k : 0 <= j -> Z.testbit (Z.lor w (2 ^ j)) k = Z.testbit w k || (j =? k).
Proof. intros. by rewrite Z.lor_spec, Z.pow2_bits_eqb by lia. Qed.

(** Rule for counted loops: an invariant indexed by the loop counter. *)
Lemma for_n_ind {St : Type} (I : Z -> St -> Prop) (body : Z -> St -> exec St) n i s :
  I i s ->
  (forall j s, i <= j < i + Z.of_nat n -> I j s ->
     exists s', body j s = Done s' /\ I (j + 1) s') ->
  exists s', for_n n i body s = Done s' /\ I (i + Z.of_nat n) s'.
Proof.
  revert i s; induction n as [|n IH]; intros i s HI Hstep; simpl.
  - exists s. split; [done|]. by replace (i + Z.of_nat 0) with i by lia.
  - destruct (Hstep i s) as (s1 & -> & H1); [lia|done|]. simpl.
    destruct (IH (i + 1) s1 H1) as (s' & E & H').
    { intros j t Hj. apply Hstep. lia. }
    exists s'. split; [done|].
    by replace (i + Z.of_nat (S n)) with (i + 1 + Z.of_nat n) by lia.
Qed.

Lemma for_range_ind {St : Type} (I : Z -> St -> Prop) (body : Z -> St -> exec St) i0 hi s :
  i0 <= hi ->
  I i0 s ->
  (forall j s, i0 <= j < hi -> I j s -> exists s', body j s = Done s' /\ I (j + 1) s') ->
  exists s', for_range i0 hi body s = Done s' /\ I hi s'.
Proof.
  intros Hle H0 Hstep. unfold for_range.
  destruct (for_n_ind I body (Z.to_nat (hi - i0)) i0 s H0) as (s' & E & H').
  { intros j t Hj. apply Hstep. lia. }
  exists s'. split; [done|]. by replace hi with (i0 + Z.of_nat (Z.to_nat (hi - i0))) by lia.
Qed.

(** Partial correctness: what holds of the result if the execution finishes. *)
Definition post {A} (m : exec A) (Q : A -> Prop) : Prop := forall a, m = Done a -> Q a.

Lemma post_Done {A} (a : A) (Q : A -> Prop) : Q a -> post (Done a) Q.
Proof. by intros H b [= <-]. Qed.

Lemma post_Halt {A} f (Q : A -> Prop) : post (Halt f) Q.
Proof. done. Qed.

Lemma post_bind {A B} (m : exec A) (f : A -> exec B) (Q : B -> Prop) :
  post m (fun a => post (f a) Q) -> post (m ≫= f) Q.
Proof. intros H b (a & E & Eb)%bind_Done. by apply (H a E b). Qed.

Lemma post_assert {A} (c : bool) (m : exec A) (Q : A -> Prop) :
  (c = true -> post m Q) -> post (assert c m) Q.
Proof. intros H b [Hc E]%assert_Done. by apply H. Qed.

Lemma post_mono {A} (m : exec A) (Q Q' : A -> Prop) :
  post m Q -> (forall a, Q a -> Q' a) -> post m Q'.
Proof. unfold post. eauto. Qed.

(** A property of the result that needs nothing of the calls before. *)
Lemma post_any {A B} (m : exec A) (f : A -> exec B) (Q : B -> Prop) :
  (forall a, post (f a) Q) -> post (m ≫= f) Q.
Proof. intros H. apply post_bind. intros a _. apply H. Qed.

Lemma post_for {St : Type} (I : St -> Prop) (body : Z -> St -> exec St) i0 hi s :
  I s -> (forall j s, I s -> post (body j s) I) -> post (for_range i0 hi body s) I.
Proof.
  unfold for_range. generalize (Z.to_nat (hi - i0)) as n. intros n. revert i0 s.
  induction n as [|n IH]; intros i s Hs Hb; simpl; [by apply post_Done|].
  apply post_bind. eapply post_mono; [by apply Hb|]. intros s' Hs'. by apply IH.
Qed.

(** What must hold after the first part of [on_ok]. *)
Definition ok_post {St A B} (k : St -> A -> exec (St * ret B)) (Q : St * ret B -> Prop) (p : St * ret A) : Prop :=
  match snd p with Ok a => post (k (fst p) a) Q | Err e => Q (fst p, Err e) end.

Lemma ok_post_Ok {St A B} (k : St -> A -> exec (St * ret B)) Q s a : post (k s a) Q -> ok_post k Q (s, Ok a).
Proof. done. Qed.
Lemma ok_post_Err {St A B} (k : St -> A -> exec (St * ret B)) (Q : St * ret B -> Prop) s e :
  Q (s, Err e) -> ok_post k Q (s, Err e).
Proof. done. Qed.

Lemma post_on_ok {St A B} (m : exec (St * ret A)) (k : St -> A -> exec (St * ret B)) (Q : St * ret B -> Prop) :
  post m (ok_post k Q) -> post (on_ok m k) Q.
Proof.
  intros H b. destruct m as [[s [a|e]]|]; simpl; [|intros [= <-]|done].
  - by apply (H (s, Ok a)).
  - by apply (H (s, Err e)).
Qed.

(** Follow the control flow of a partial-correctness goal: calls for which the
    database [post] has a specification use it, others say nothing. *)
Create HintDb post.
Ltac vc_step :=
  lazymatch goal with
  | |- post (Done _) _ => apply post_Done
  | |- post (Halt _) _ => apply post_Halt
  | |- post (assert _ _) _ => apply post_assert; intros ?
  | |- post (on_ok _ _) _ => apply post_on_ok
  | |- post (mbind _ (match _ with _ => _ end)) _ => apply post_bind
  | |- post (mbind _ (mbind _ _)) _ => apply post_bind
  | |- post (mbind _ (assert _ _)) _ => apply post_bind
  | |- post (mbind _ _) _ =>
      first [ apply post_bind; eapply post_mono; [solve [eauto 2 with post nocore]|]; intros ? ?
            | apply post_any; intros ? ]
  | |- post (match ?x with _ => _ end) _ => destruct x eqn:?
  | |- ok_post _ _ (_, Ok _) => apply ok_post_Ok
  | |- ok_post _ _ (_, Err _) => apply ok_post_Err
  | |- ok_post _ _ (_, ?r) => destruct r; [apply ok_post_Ok|apply ok_post_Err]
  | |- ok_post _ _ ?p => destruct p as [? [?|?]]; [apply ok_post_Ok|apply ok_post_Err]
  | |- post _ (ok_post _ _) =>
      first [eapply post_mono; [solve [eauto 2 with post nocore]|]; intros ? ? | intros ? _]
  | |- post _ (fun _ => post _ _) =>
      first [eapply post_mono; [solve [eauto 2 with post nocore]|]; intros ? ? | intros ? _]
  | |- post _ _ => eapply post_mono; [solve [eauto 2 with post nocore]|]; intros ? ?
  end.
Ltac vc := repeat (vc_step; cbn beta iota).

(** [lia] with division and remainder. *)
Ltac zlia := Z.div_mod_to_equations; lia.

(** One step of the execution monad, without unfolding anything else. *)
Ltac run :=
  cbn beta iota delta [mbind exec_bind mret exec_ret fmap exec_fmap on_ok assert andb orb negb].

(** Case analysis on boolean comparisons in the goal. *)
Ltac case_bool :=
  match goal with
  | |- context [Z.leb ?a ?b] => destruct (Z.leb_spec a b)
  | |- context [Z.ltb ?a ?b] => destruct (Z.ltb_spec a b)
  | |- context [Z.eqb ?a ?b] => destruct (Z.eqb_spec a b)
  | |- context [Z.gtb ?a ?b] => rewrite (Z.gtb_ltb a b)
  | |- context [Z.geb ?a ?b] => rewrite (Z.geb_leb a b)
  end; try lia; cbn beta iota delta [andb orb negb].

(** Case analysis on boolean comparisons in a hypothesis. *)
Ltac case_bool_in H :=
  match type of H with
  | context [Z.leb ?a ?b] => destruct (Z.leb_spec a b)
  | context [Z.ltb ?a ?b] => destruct (Z.ltb_spec a b)
  | context [Z.eqb ?a ?b] => destruct (Z.eqb_spec a b)
  | context [Z.gtb ?a ?b] => rewrite (Z.gtb_ltb a b) in H
  | context [Z.geb ?a ?b] => rewrite (Z.geb_leb a b) in H
  end; try lia; cbn beta iota delta [andb orb negb] in H.

(** [memmove(l + dst, l + src, n * sizeof(cell))] within one object: the result
    the C library promises for possibly overlapping regions. *)
Definition move {A} (l : list A) (dst src n : Z) : exec (list A) :=
  if (0 <=? dst) && (0 <=? src) && (0 <=? n)
     && (dst + n <=? Z.of_nat (length l)) && (src + n <=? Z.of_nat (length l)) then
    Done (take (Z.to_nat dst) l ++ take (Z.to_nat n) (drop (Z.to_nat src) l)
          ++ drop (Z.to_nat (dst + n)) l)
  else Halt Undefined.

Lemma move_Done {A} (l : list A) (dst src n : Z) :
  0 <= dst -> 0 <= src -> 0 <= n ->
  dst + n <= Z.of_nat (length l) -> src + n <= Z.of_nat (length l) ->
  move l dst src n =
  Done (take (Z.to_nat dst) l ++ take (Z.to_nat n) (drop (Z.to_nat src) l)
        ++ drop (Z.to_nat (dst + n)) l).
Proof. intros. unfold move. repeat case_bool. done. Qed.
