(* ===== verification/Array.v ===== *)
(** * Resizeable arrays of pointers ([kern/lib/array.c])

    The thread system keeps its sleepers and zombies in such arrays, the VFS
    layer its device table and SFS its table of loaded vnodes.  A cell of the
    backing store is [None] until it is first written: [array_setsize] hands
    out indeterminate elements.  [mem bytes] says whether the [kmalloc] call
    of an operation succeeds. *)

From stdpp Require Import base list numbers.
From S2P Require Import Prelude.

Module Array.
Section array.
Context {P : Type}.

Record array : Type := mk_array {
  num : Z;
  max : Z;
  v : option (list (option P))
}.

Definition array_create (mem : Z -> bool) : option array :=
  if mem 12 then Some (mk_array 0 0 None) else None.

Definition array_getnum (a : array) : Z := num a.

Definition array_getguy (a : array) (index : Z) : exec (option P) :=
  assert! num a <=? max a;
  assert! (0 <=? index) && (index <? num a);
  match v a with
  | Some l => rd l index
  | None => Halt Undefined
  end.

(** [while (nguys > newmax) newmax = (newmax+1)*2;] *)
Fixpoint array_newmax (fuel : nat) (newmax nguys : Z) : exec Z :=
  if nguys >? newmax then
    match fuel with
    | O => Halt Fuel
    | S f => m1 ← int (newmax + 1); m2 ← int (m1 * 2); array_newmax f m2 nguys
    end
  else Done newmax.

#[local] Arguments array_newmax : simpl never.

(** Doubling from a non-negative [int] overflows or stops in 32 rounds. *)
Definition array_fuel : nat := 32.

Definition array_preallocate (mem : Z -> bool) (a : array) (nguys : Z)
  : exec (array * ret unit) :=
  assert! (0 <=? num a) && (num a <=? max a);
  newmax ← array_newmax array_fuel (max a) nguys;
  let bytes := u32 (newmax * 4) in
  if mem bytes then
    newv ← for_range 0 (num a)
             (fun i nv =>
                match v a with
                | Some l => x ← rd l i; wr nv i x
                | None => Halt Undefined
                end)
             (replicate (Z.to_nat (bytes / 4)) None);
    Done (mk_array (num a) newmax (Some newv), Ok tt)
  else Done (a, Err ENOMEM).

Definition array_setsize (mem : Z -> bool) (a : array) (nguys : Z)
  : exec (array * ret unit) :=
  assert! (0 <=? num a) && (num a <=? max a);
  if nguys >? max a then
    try! a1, _u <- array_preallocate mem a nguys;
    Done (mk_array nguys (max a1) (v a1), Ok tt)
  else if (nguys =? 0) && (max a >? 16) then
    assert! match v a with Some _ => true | None => false end;
    Done (mk_array nguys 0 None, Ok tt)
  else Done (mk_array nguys (max a) (v a), Ok tt).

Definition array_setguy (a : array) (index : Z) (ptr : P) : exec array :=
  assert! num a <=? max a;
  assert! (0 <=? index) && (index <? num a);
  match v a with
  | Some l => l' ← wr l index (Some ptr); Done (mk_array (num a) (max a) (Some l'))
  | None => Halt Undefined
  end.

Definition array_add (mem : Z -> bool) (a : array) (guy : P)
  : exec (array * ret unit) :=
  let ix := num a in
  n ← int (ix + 1);
  try! a1, _u <- array_setsize mem a n;
  match v a1 with
  | Some l => l' ← wr l ix (Some guy); Done (mk_array (num a1) (max a1) (Some l'), Ok tt)
  | None => Halt Undefined
  end.

Definition array_remove (a : array) (index : Z) : exec array :=
  assert! num a <=? max a;
  assert! (0 <=? index) && (index <? num a);
  let nmove := num a - (index + 1) in
  match v a with
  | Some l => l' ← move l index (index + 1) nmove; Done (mk_array (num a - 1) (max a) (Some l'))
  | None => Halt Undefined
  end.

(** ** Well-formedness and the abstract list *)

Definition store (a : array) : list (option P) := default [] (v a).

(** [max] stays below 2^30 elements, so that [max * sizeof(void * )] fits a
    [size_t]. *)
Definition array_wf (a : array) : Prop :=
  0 <= num a <= max a /\ max a < 2 ^ 30 /\
  Z.of_nat (length (store a)) = max a /\ (v a = None -> max a = 0).

(** The visible elements. *)
Definition contents (a : array) : list (option P) := take (Z.to_nat (num a)) (store a).

(** Requests of up to 2^28 elements are served without overflow. *)
Definition array_limit : Z := 2 ^ 28.

Lemma contents_length a : array_wf a -> Z.of_nat (length (contents a)) = num a.
Proof. intros (?&?&?&?). unfold contents. rewrite length_take. lia. Qed.

Lemma array_newmax_eq fuel m n :
  array_newmax fuel m n =
  if n >? m then
    match fuel with
    | O => Halt Fuel
    | S f => m1 ← int (m + 1); m2 ← int (m1 * 2); array_newmax f m2 n
    end
  else Done m.
Proof. by destruct fuel. Qed.

Lemma array_newmax_spec fuel m n :
  0 <= m -> n <= array_limit -> 2 ^ 29 <= (m + 2) * 2 ^ Z.of_nat fuel ->
  exists m', array_newmax fuel m n = Done m' /\ Z.max m n <= m' /\ m' <= Z.max m (2 * n).
Proof.
  unfold array_limit. revert m; induction fuel as [|f IH]; intros m Hm Hn Hf.
  - rewrite array_newmax_eq, Z.gtb_ltb. simpl in Hf. case_bool. exists m. split; [done|lia].
  - rewrite array_newmax_eq, Z.gtb_ltb. case_bool.
    + rewrite int_Done by (unfold INT_MIN, INT_MAX; lia). simpl.
      rewrite int_Done by (unfold INT_MIN, INT_MAX; lia). simpl.
      destruct (IH ((m + 1) * 2)) as (m' & -> & ? & ?); [lia|lia| |].
      { rewrite Nat2Z.inj_succ, Z.pow_succ_r in Hf by lia. lia. }
      exists m'. split; [done|lia].
    + exists m. split; [done|lia].
Qed.

Lemma array_newmax_ok m n :
  0 <= m -> n <= array_limit ->
  exists m', array_newmax array_fuel m n = Done m' /\
    Z.max m n <= m' /\ m' <= Z.max m (2 * n).
Proof. intros. apply array_newmax_spec; [done|done|]. unfold array_fuel. lia. Qed.

(** Contents survive reallocation; room for [n] elements is guaranteed. *)
Lemma array_preallocate_spec mem a n :
  array_wf a -> n <= array_limit ->
  exists a' r, array_preallocate mem a n = Done (a', r) /\ array_wf a' /\
    contents a' = contents a /\ num a' = num a /\
    match r with
    | Ok _ => n <= max a' /\ max a <= max a' /\ v a' <> None
    | Err e => e = ENOMEM /\ a' = a
    end.
Proof.
  intros Hwf Hn. pose proof Hwf as ([Hn0 Hn1] & Hm & Hlen & Hnull).
  unfold array_preallocate, assert. repeat case_bool.
  destruct (array_newmax_ok (max a) n) as (m' & -> & Hlo & Hhi); [lia|done|]. simpl.
  unfold array_limit in *.
  rewrite u32_small by lia.
  destruct (mem (m' * 4)).
  2:{ eexists _, _. split; [reflexivity|]. done. }
  rewrite Z.div_mul by lia.
  destruct (for_range_ind
    (fun i nv => length nv = Z.to_nat m' /\ take (Z.to_nat i) nv = take (Z.to_nat i) (store a))
    (fun i nv => match v a with
                 | Some l => x ← rd l i; wr nv i x
                 | None => Halt Undefined end)
    0 (num a) (replicate (Z.to_nat m') None)) as (nv & -> & Hnv & Htk).
  - lia.
  - rewrite length_replicate. split; [done|]. by rewrite !take_0.
  - intros j nv Hj [Hl Ht]. unfold store in *.
    destruct (v a) as [l|]; [|specialize (Hnull eq_refl); lia]. simpl in *.
    destruct (lookup_lt_is_Some_2 l (Z.to_nat j)) as [x Hx]; [lia|].
    rewrite (rd_Done _ _ x) by (done || lia). simpl.
    rewrite wr_Done by lia. eexists; split; [done|]. rewrite length_insert. split; [done|].
    replace (Z.to_nat (j + 1)) with (S (Z.to_nat j)) by lia.
    rewrite (take_S_r _ _ x) by (apply list_lookup_insert_eq; lia).
    rewrite (take_S_r l _ x) by done.
    rewrite take_insert_ge by lia. by rewrite Ht.
  - simpl. eexists _, _. split; [reflexivity|]. split_and!; simpl; try done; try lia.
    unfold array_wf, store; simpl. repeat split; try lia; done.
Qed.

Lemma array_setsize_spec mem a n :
  array_wf a -> 0 <= n <= array_limit ->
  exists a' r, array_setsize mem a n = Done (a', r) /\ array_wf a' /\
    match r with
    | Ok _ => num a' = n /\ (n <> 0 -> v a' <> None) /\
              take (Z.to_nat n) (contents a) = take (Z.to_nat (num a)) (contents a')
    | Err e => e = ENOMEM /\ a' = a /\ max a < n
    end.
Proof.
  intros Hwf Hn. pose proof Hwf as ([Hn0 Hn1] & Hm & Hlen & Hnull).
  unfold array_setsize, assert. do 2 case_bool.
  rewrite (Z.gtb_ltb n). destruct (Z.ltb_spec (max a) n).
  - destruct (array_preallocate_spec mem a n) as (a' & r & -> & Hwf' & Hc & Hnum & Hr);
      [done|lia|]. simpl.
    destruct r as [u|e].
    + eexists _, _. split; [reflexivity|]. destruct Hr as (Hx & Hy & Hv).
      destruct Hwf' as ([? ?] & ? & Hl & ?).
      split; [unfold array_wf, store in *; simpl; repeat split; lia || done|].
      split_and!; simpl; [done|done|]. unfold contents, store in *; simpl.
      rewrite <- Hc, !take_take, Hnum. f_equal. lia.
    + destruct Hr as [-> ->]. eexists _, _. split; [reflexivity|]. split_and!; [done..|lia].
  - destruct ((n =? 0) && (max a >? 16)) eqn:Efree.
    + apply andb_prop in Efree as [->%Z.eqb_eq Hbig]. rewrite Z.gtb_ltb in Hbig.
      apply Z.ltb_lt in Hbig.
      destruct (v a) eqn:Ev; [|specialize (Hnull eq_refl); lia]. simpl.
      eexists _, _. split; [reflexivity|]. split.
      { unfold array_wf, store; simpl. repeat split; lia || done. }
      split_and!; simpl; [done|done|]. unfold contents, store; simpl.
      by rewrite take_0, !take_nil.
    + eexists _, _. split; [reflexivity|]. split.
      { unfold array_wf, store in *; simpl. repeat split; lia || done. }
      split_and!; simpl; [done| |].
      * intros ? E. specialize (Hnull E). lia.
      * unfold contents, store; simpl. by rewrite !take_take, Nat.min_comm.
Qed.

Lemma array_add_spec mem a p :
  array_wf a -> num a < array_limit ->
  exists a' r, array_add mem a p = Done (a', r) /\ array_wf a' /\
    match r with
    | Ok _ => contents a' = contents a ++ [Some p]
    | Err e => e = ENOMEM /\ a' = a /\ num a = max a
    end.
Proof.
  intros Hwf Hlim. pose proof Hwf as ([Hn0 Hn1] & Hm & Hlen & Hnull).
  unfold array_add. unfold array_limit in *.
  rewrite int_Done by (unfold INT_MIN, INT_MAX; lia). simpl.
  destruct (array_setsize_spec mem a (num a + 1)) as (a1 & r & -> & Hwf1 & Hr);
    [done|unfold array_limit; lia|]. simpl.
  destruct r as [u|e].
  2:{ destruct Hr as (-> & -> & ?). eexists _, _. split; [reflexivity|]. split_and!; [done..|lia]. }
  destruct Hr as (Hnum & Hv & Htk).
  pose proof Hwf1 as ([? ?] & ? & Hl1 & ?).
  unfold contents, store in *. destruct (v a1) as [l|] eqn:Ev; [|exfalso; apply Hv; [lia|done]].
  simpl in *. rewrite wr_Done by lia. simpl. eexists _, _. split; [reflexivity|]. split.
  { unfold array_wf, store; simpl. rewrite length_insert. repeat split; lia || done. }
  simpl. rewrite Hnum. replace (Z.to_nat (num a + 1)) with (S (Z.to_nat (num a))) by lia.
  rewrite (take_S_r _ _ (Some p)) by (apply list_lookup_insert_eq; lia).
  rewrite take_insert_ge by lia. f_equal.
  rewrite !take_take, Hnum in Htk.
  rewrite Nat.min_r, Nat.min_l in Htk by lia. done.
Qed.

Lemma array_remove_spec a i :
  array_wf a -> 0 <= i < num a ->
  exists a', array_remove a i = Done a' /\ array_wf a' /\ max a' = max a /\
    contents a' = delete (Z.to_nat i) (contents a).
Proof.
  intros Hwf Hi. pose proof Hwf as ([Hn0 Hn1] & Hm & Hlen & Hnull).
  unfold array_remove, assert. repeat case_bool.
  unfold contents, store in *. destruct (v a) as [l|] eqn:Ev; [|specialize (Hnull eq_refl); lia].
  simpl in *. rewrite move_Done by lia. simpl. eexists. split; [reflexivity|].
  assert (length (take (Z.to_nat i) l) = Z.to_nat i) as Ht by (rewrite length_take; lia).
  split.
  { unfold array_wf, store; simpl. rewrite !length_app, !length_take, !length_drop.
    repeat split; lia || done. }
  simpl. split; [done|]. rewrite delete_take_drop, take_take, Nat.min_l by lia.
  rewrite take_app, Ht, take_take, Nat.min_r by lia.
  f_equal. rewrite take_app, length_take, length_drop.
  rewrite <- take_drop_commute || idtac.
  replace (Z.to_nat (num a - 1) - Z.to_nat i)%nat with (Z.to_nat (num a - (i + 1))) by lia.
  rewrite take_take, Nat.min_id.
  replace (Z.to_nat (num a - (i + 1)) -
    (Z.to_nat (num a - (i + 1)) `min` (length l - Z.to_nat (i + 1))))%nat with 0%nat by lia.
  rewrite take_0, app_nil_r, take_drop_commute. f_equal; f_equal; lia.
Qed.

Lemma array_getguy_spec a i :
  array_wf a -> 0 <= i < num a ->
  exists c, array_getguy a i = Done c /\ contents a !! Z.to_nat i = Some c.
Proof.
  intros Hwf Hi. pose proof Hwf as ([Hn0 Hn1] & Hm & Hlen & Hnull).
  unfold array_getguy, assert. repeat case_bool.
  unfold contents, store in *. destruct (v a) as [l|] eqn:Ev; [|specialize (Hnull eq_refl); lia].
  simpl in *. destruct (lookup_lt_is_Some_2 l (Z.to_nat i)) as [c Hc]; [lia|].
  exists c. rewrite (rd_Done _ _ c) by (done || lia). split; [done|].
  by rewrite lookup_take_lt by lia.
Qed.

Lemma array_setguy_spec a i p :
  array_wf a -> 0 <= i < num a ->
  exists a', array_setguy a i p = Done a' /\ array_wf a' /\
    contents a' = <[Z.to_nat i := Some p]> (contents a).
Proof.
  intros Hwf Hi. pose proof Hwf as ([Hn0 Hn1] & Hm & Hlen & Hnull).
  unfold array_setguy, assert. repeat case_bool.
  unfold contents, store in *. destruct (v a) as [l|] eqn:Ev; [|specialize (Hnull eq_refl); lia].
  simpl in *. rewrite wr_Done by lia. simpl. eexists. split; [done|]. split.
  { unfold array_wf, store; simpl. rewrite length_insert. repeat split; lia || done. }
  simpl. by rewrite take_insert_lt by lia.
Qed.

(** ** The array as a list

    Operations of the interface, with what a caller observes. *)

Inductive array_op : Type :=
| OAdd (p : P)
| ORemove (i : Z)
| OSet (i : Z) (p : P)
| OGet (i : Z)
| OSetsize (n : Z)
| OPreallocate (n : Z).

Inductive obs : Type :=
| VUnit
| VCell (c : option P)
| VErr (e : errno).

Definition obs_of (r : ret unit) : obs :=
  match r with Ok _ => VUnit | Err e => VErr e end.

Definition array_step (mem : Z -> bool) (op : array_op) (a : array) : exec (array * obs) :=
  match op with
  | OAdd p => '(a', r) ← array_add mem a p; Done (a', obs_of r)
  | ORemove i => a' ← array_remove a i; Done (a', VUnit)
  | OSet i p => a' ← array_setguy a i p; Done (a', VUnit)
  | OGet i => c ← array_getguy a i; Done (a, VCell c)
  | OSetsize n => '(a', r) ← array_setsize mem a n; Done (a', obs_of r)
  | OPreallocate n => '(a', r) ← array_preallocate mem a n; Done (a', obs_of r)
  end.

(** What [array.h] promises, on lists.  New elements of [array_setsize] are
    arbitrary; only the three allocating operations can fail, and then change
    nothing. *)
Inductive list_step : array_op -> list (option P) -> obs -> list (option P) -> Prop :=
| LAdd p l : list_step (OAdd p) l VUnit (l ++ [Some p])
| LRemove i l : list_step (ORemove i) l VUnit (delete (Z.to_nat i) l)
| LSet i p l : list_step (OSet i p) l VUnit (<[Z.to_nat i := Some p]> l)
| LGet i c l : l !! Z.to_nat i = Some c -> list_step (OGet i) l (VCell c) l
| LSetsize n l l' :
    Z.of_nat (length l') = n -> take (Z.to_nat n) l = take (length l) l' ->
    list_step (OSetsize n) l VUnit l'
| LPreallocate n l : list_step (OPreallocate n) l VUnit l
| LNomem op l :
    match op with OAdd _ | OSetsize _ | OPreallocate _ => True | _ => False end ->
    list_step op l (VErr ENOMEM) l.

(** What a caller must respect: indices in range, sizes within the limit. *)
Definition op_pre (op : array_op) (l : list (option P)) : Prop :=
  match op with
  | OAdd _ => Z.of_nat (length l) < array_limit
  | ORemove i | OSet i _ | OGet i => 0 <= i < Z.of_nat (length l)
  | OSetsize n => 0 <= n <= array_limit
  | OPreallocate n => n <= array_limit
  end.

(** Every operation of [array.c], called within its precondition on a
    well-formed array, finishes without a failed assertion or an access outside
    the backing store, keeps the array well-formed, and its effect and result
    are those of the list operation [array.h] documents. *)
Theorem array_refines_list mem op a :
  array_wf a -> op_pre op (contents a) ->
  exists a' o, array_step mem op a = Done (a', o) /\ array_wf a' /\
    list_step op (contents a) o (contents a').
Proof.
  intros Hwf Hpre. pose proof (contents_length a Hwf) as Hlen.
  destruct op as [p|i|i p|i|n|n]; simpl in *; rewrite ?Hlen in Hpre.
  - destruct (array_add_spec mem a p Hwf Hpre) as (a' & r & -> & Hwf' & Hr).
    eexists _, _. split; [reflexivity|]. split; [done|].
    destruct r; [rewrite Hr; constructor|]. destruct Hr as (-> & -> & _). by constructor.
  - destruct (array_remove_spec a i Hwf Hpre) as (a' & -> & Hwf' & _ & Hc).
    eexists _, _. split; [reflexivity|]. split; [done|]. rewrite Hc. constructor.
  - destruct (array_setguy_spec a i p Hwf Hpre) as (a' & -> & Hwf' & Hc).
    eexists _, _. split; [reflexivity|]. split; [done|]. rewrite Hc. constructor.
  - destruct (array_getguy_spec a i Hwf Hpre) as (c & -> & Hc).
    eexists _, _. split; [reflexivity|]. split; [done|]. by constructor.
  - destruct (array_setsize_spec mem a n Hwf Hpre) as (a' & r & -> & Hwf' & Hr).
    eexists _, _. split; [reflexivity|]. split; [done|].
    destruct r; [|destruct Hr as (-> & -> & _); by constructor].
    destruct Hr as (Hn & _ & Ht). constructor; [by rewrite contents_length|].
    rewrite Ht. f_equal. lia.
  - destruct (array_preallocate_spec mem a n Hwf Hpre) as (a' & r & -> & Hwf' & Hc & _ & Hr).
    eexists _, _. split; [reflexivity|]. split; [done|]. rewrite Hc.
    destruct r; [constructor|]. destruct Hr as (-> & _). by constructor.
Qed.

(** Successive [array_add]s, stopping at the first error. *)
Fixpoint array_add_all (mem : Z -> bool) (a : array) (ps : list P) : exec (array * ret unit) :=
  match ps with
  | [] => Done (a, Ok tt)
  | p :: ps' => try! a1, _u <- array_add mem a p; array_add_all mem a1 ps'
  end.

Lemma array_add_room mem a p :
  array_wf a -> num a < max a -> num a < array_limit ->
  exists a', array_add mem a p = Done (a', Ok tt) /\ array_wf a' /\
    max a' = max a /\ num a' = num a + 1 /\ contents a' = contents a ++ [Some p].
Proof.
  intros Hwf Hroom Hlim.
  destruct (array_add_spec mem a p Hwf Hlim) as (a' & r & E & Hwf' & Hr).
  destruct r as [[]|]; [|destruct Hr as (_ & _ & ?); lia].
  exists a'. split_and!; try done.
  - unfold array_add, array_setsize, assert in E. pose proof Hwf as ([? ?] & ?).
    unfold array_limit in *.
    rewrite int_Done in E by (unfold INT_MIN, INT_MAX; lia). simpl in E.
    repeat case_bool_in E. destruct (v a); [|done].
    simpl in E. destruct (wr l (num a) (Some p)); [|done]. simpl in E. by injection E as <-.
  - pose proof (contents_length a Hwf). pose proof (contents_length a' Hwf').
    rewrite Hr, length_app in *. simpl in *. lia.
Qed.

(** Preallocation is a reservation: once [array_preallocate a n] has
    succeeded, adding elements up to a total of [n] never fails, even if every
    later [kmalloc] does, and appends exactly those elements. *)
Theorem array_preallocate_reserves mem mem' a a1 n ps :
  array_wf a -> n <= array_limit ->
  array_preallocate mem a n = Done (a1, Ok tt) ->
  num a + Z.of_nat (length ps) <= n ->
  exists a2, array_add_all mem' a1 ps = Done (a2, Ok tt) /\ array_wf a2 /\
    contents a2 = contents a ++ map Some ps.
Proof.
  intros Hwf Hn E Hps.
  destruct (array_preallocate_spec mem a n Hwf Hn) as (a1' & r & E' & Hwf1 & Hc & Hnum & Hr).
  rewrite E in E'. injection E' as <- <-. destruct Hr as (Hmax & _).
  rewrite <- Hc. assert (num a1 + Z.of_nat (length ps) <= max a1) as Hroom by lia.
  assert (num a1 + Z.of_nat (length ps) <= array_limit) as Hlim by lia.
  clear -Hwf1 Hroom Hlim. revert a1 Hwf1 Hroom Hlim; induction ps as [|p ps IH]; intros a1 Hwf Hroom Hlim.
  - exists a1. by rewrite app_nil_r.
  - simpl in *. destruct (array_add_room mem' a1 p) as (a2 & -> & Hwf2 & Hm & Hn & Hc); [done|lia|lia|].
    simpl. destruct (IH a2) as (a3 & -> & Hwf3 & Hc3); [done|lia|lia|].
    exists a3. split_and!; [done..|]. by rewrite Hc3, Hc, <- app_assoc.
Qed.

End array.
End Array.

Import Array.

Lemma array_refines_list_witness :
  exists a' o,
    array_step (fun _ => false) (OSet 1 9) (mk_array 2 4 (Some [Some 5; Some 6; None; None]))
      = Done (a', o) /\
    list_step (OSet 1 9) [Some 5; Some 6] o (contents a').
Proof.
  destruct (array_refines_list (fun _ => false) (OSet 1 9)
              (mk_array 2 4 (Some [Some 5; Some 6; None; None]))) as (a' & o & E & _ & H).
  - unfold array_wf; simpl. lia || (repeat split; lia || done).
  - simpl. lia.
  - exists a', o. by split.
Defined.

Lemma array_preallocate_reserves_witness :
  exists a2, array_add_all (fun _ => false)
    (mk_array 0 2 (Some [None; None])) [7; 8] = Done (a2, Ok tt) /\
    contents a2 = [Some 7; Some 8].
Proof.
  destruct (array_preallocate_reserves (fun _ => true) (fun _ => false)
    (mk_array 0 0 None) (mk_array 0 2 (Some [None; None])) 2 [7; 8]) as (a2 & E & _ & H).
  - unfold array_wf; simpl. repeat split; lia || done.
  - unfold array_limit. lia.
  - reflexivity.
  - simpl. lia.
  - by exists a2.
Defined.
