(* ===== verification/Queue.v ===== *)
(** * Ring-buffer queue of pointers ([kern/lib/queue.c])

    The scheduler's run queue is such a queue.  A queue of [size] cells holds
    at most [size - 1] elements: [nextread = nextwrite] means empty.  When it
    is full, [q_addtail] doubles it through [q_grow], which refills the new
    buffer with [q_addtail]; the recursion is cut by fuel, and two levels are
    proved enough.  [mem bytes] says whether [kmalloc] succeeds. *)

From stdpp Require Import base list numbers.
From S2P Require Import Prelude.

Module Queue.
Section queue.
Context {P : Type}.

Record queue : Type := mk_queue {
  size : Z;
  nextwrite : Z;
  nextread : Z;
  data : list (option P)
}.

(** [while (nsize < targetsize) { nsize *= 2; assert(nsize > 0); }] *)
Fixpoint q_newsize (fuel : nat) (nsize targetsize : Z) : exec Z :=
  if nsize <? targetsize then
    match fuel with
    | O => Halt Fuel
    | S f => n ← int (nsize * 2); assert! 0 <? n; q_newsize f n targetsize
    end
  else Done nsize.

(** [for (i=onr; i!=onw; i = (i+1)%osize)] copying into the grown queue. *)
Fixpoint q_refill (fuel : nat) (addtail : queue -> option P -> exec (queue * ret unit))
    (q : queue) (olddata : list (option P)) (i onw osize : Z) : exec queue :=
  if i =? onw then Done q
  else
    match fuel with
    | O => Halt Fuel
    | S f =>
        x ← rd olddata i;
        '(q1, r) ← addtail q x;
        assert! match r with Ok _ => true | Err _ => false end;
        i1 ← int (i + 1);
        q_refill f addtail q1 olddata (Z.rem i1 osize) onw osize
    end.

Definition q_newsize_fuel : nat := 32.

Definition q_grow (addtail : queue -> option P -> exec (queue * ret unit))
    (mem : Z -> bool) (q : queue) (targetsize : Z) : exec (queue * ret unit) :=
  nsize ← q_newsize q_newsize_fuel (size q) targetsize;
  let bytes := u32 (nsize * 4) in
  if mem bytes then
    q1 ← q_refill (length (data q)) addtail
           (mk_queue nsize 0 0 (replicate (Z.to_nat (bytes / 4)) None))
           (data q) (nextread q) (nextwrite q) (size q);
    Done (q1, Ok tt)
  else Done (q, Err ENOMEM).

Definition q_create (mem : Z -> bool) (size : Z) : option queue :=
  if mem 16 then
    let bytes := u32 (size * 4) in
    if mem bytes then Some (mk_queue size 0 0 (replicate (Z.to_nat (bytes / 4)) None))
    else None
  else None.

Definition q_empty (q : queue) : bool := nextwrite q =? nextread q.

(** [q->data[q->nextwrite] = ptr; q->nextwrite = nextnext; return 0;] *)
Definition q_store (q : queue) (ptr : option P) (nextnext : Z) : exec (queue * ret unit) :=
  d ← wr (data q) (nextwrite q) ptr;
  Done (mk_queue (size q) nextnext (nextread q) d, Ok tt).

Fixpoint q_addtail_fuel (fuel : nat) (mem : Z -> bool) (q : queue) (ptr : option P)
  : exec (queue * ret unit) :=
  match fuel with
  | O => Halt Fuel
  | S f =>
      assert! 0 <? size q;
      n1 ← int (nextwrite q + 1);
      let nextnext := Z.rem n1 (size q) in
      if nextnext =? nextread q then
        target ← int (size q + 1);
        try! q1, _u <- q_grow (q_addtail_fuel f mem) mem q target;
        n2 ← int (nextwrite q1 + 1);
        q_store q1 ptr (Z.rem n2 (size q1))
      else q_store q ptr nextnext
  end.

Definition q_addtail := q_addtail_fuel 2.

Definition q_preallocate (mem : Z -> bool) (q : queue) (n : Z) : exec (queue * ret unit) :=
  assert! 0 <? size q;
  if n >? size q then q_grow (q_addtail mem) mem q n else Done (q, Ok tt).

Definition q_remhead (q : queue) : exec (queue * option P) :=
  assert! 0 <? size q;
  assert! negb (q_empty q);
  ret ← rd (data q) (nextread q);
  n ← int (nextread q + 1);
  Done (mk_queue (size q) (nextwrite q) (Z.rem n (size q)) (data q), ret).

Definition q_destroy (q : queue) : exec unit := assert! q_empty q; Done tt.

Definition q_getstart (q : queue) : Z := nextread q.
Definition q_getend (q : queue) : Z := nextwrite q.
Definition q_getsize (q : queue) : Z := size q.
Definition q_getguy (q : queue) (index : Z) : exec (option P) :=
  assert! (0 <=? index) && (index <? size q);
  rd (data q) index.

(** ** Invariant and abstraction *)

Definition q_wf (q : queue) : Prop :=
  0 < size q < 2 ^ 30 /\ 0 <= nextread q < size q /\ 0 <= nextwrite q < size q /\
  Z.of_nat (length (data q)) = size q.

Definition count (q : queue) : Z := (nextwrite q - nextread q) mod size q.

Definition slot (q : queue) (k : nat) : option P :=
  default None (data q !! Z.to_nat ((nextread q + Z.of_nat k) mod size q)).

(** The queued elements, head first. *)
Definition contents (q : queue) : list (option P) := slot q <$> seq 0 (Z.to_nat (count q)).

Definition q_limit : Z := 2 ^ 28.

#[local] Arguments q_newsize : simpl never.
#[local] Arguments q_refill : simpl never.

Lemma count_range q : q_wf q -> 0 <= count q < size q.
Proof. intros (?&?&?&?). unfold count. apply Z.mod_pos_bound. lia. Qed.

Lemma q_contents_length q : q_wf q -> Z.of_nat (length (contents q)) = count q.
Proof.
  intros H. pose proof (count_range q H). unfold contents. rewrite length_fmap, length_seq. lia.
Qed.

Lemma empty_contents q : q_wf q -> q_empty q = true <-> contents q = [].
Proof.
  intros Hwf. pose proof (q_contents_length q Hwf) as Hl. pose proof Hwf as (?&?&?&?).
  unfold q_empty. rewrite Z.eqb_eq. split; intros Heq.
  - apply nil_length_inv. unfold count in Hl. rewrite Heq, Z.sub_diag, Z.mod_0_l in Hl by lia. lia.
  - rewrite Heq in Hl. simpl in Hl. unfold count in Hl. symmetry in Hl.
    apply Z.mod_divide in Hl as [k Hk]; [|lia].
    destruct (Z.lt_trichotomy k 0) as [?|[->|?]]; nia.
Qed.

Lemma q_newsize_eq fuel n t :
  q_newsize fuel n t =
  if n <? t then
    match fuel with
    | O => Halt Fuel
    | S f => m ← int (n * 2); assert! 0 <? m; q_newsize f m t
    end
  else Done n.
Proof. by destruct fuel. Qed.

Lemma q_newsize_spec fuel n t :
  0 < n -> t <= q_limit -> q_limit <= n * 2 ^ Z.of_nat fuel ->
  exists m, q_newsize fuel n t = Done m /\ Z.max n t <= m <= Z.max n (2 * t - 1).
Proof.
  unfold q_limit. revert n; induction fuel as [|f IH]; intros n Hn Ht Hf.
  - rewrite q_newsize_eq. simpl in Hf. case_bool. exists n. split; [done|lia].
  - rewrite q_newsize_eq. case_bool.
    + rewrite int_Done by (unfold INT_MIN, INT_MAX; lia). run. unfold assert. case_bool.
      destruct (IH (n * 2)) as (m & -> & ?); [lia|lia| |].
      { rewrite Nat2Z.inj_succ, Z.pow_succ_r in Hf by lia. lia. }
      exists m. split; [done|lia].
    + exists n. split; [done|lia].
Qed.

Lemma rem_succ i n : 0 <= i < n -> Z.rem (i + 1) n = (i + 1) mod n.
Proof. intros. apply Z.rem_mod_nonneg; lia. Qed.

(** Storing an element in a queue that is not full. *)
Lemma q_store_spec q c :
  q_wf q -> count q + 1 < size q ->
  exists q', q_store q c ((nextwrite q + 1) mod size q) = Done (q', Ok tt) /\ q_wf q' /\
    size q' = size q /\ contents q' = contents q ++ [c].
Proof.
  intros Hwf Hroom. pose proof (count_range q Hwf) as Hc. pose proof Hwf as (Hs & Hr & Hw & Hl).
  unfold q_store. rewrite wr_Done by lia. simpl. eexists. split; [reflexivity|].
  pose proof (Z.mod_pos_bound (nextwrite q + 1) (size q) ltac:(lia)).
  split; [unfold q_wf; simpl; rewrite length_insert; repeat split; lia|].
  split; [done|].
  assert ((nextread q + count q) mod size q = nextwrite q) as Hend.
  { unfold count. rewrite Zplus_mod_idemp_r. replace (nextread q + _) with (nextwrite q) by lia.
    apply Z.mod_small. lia. }
  assert (count (mk_queue (size q) ((nextwrite q + 1) mod size q) (nextread q)
            (<[Z.to_nat (nextwrite q):=c]> (data q))) = count q + 1) as Hcount.
  { unfold count in *; simpl. rewrite Zminus_mod_idemp_l.
    replace (nextwrite q + 1 - nextread q) with ((nextwrite q - nextread q) + 1) by lia.
    rewrite <- Zplus_mod_idemp_l. apply Z.mod_small. lia. }
  unfold contents at 1. rewrite Hcount.
  replace (Z.to_nat (count q + 1)) with (S (Z.to_nat (count q))) by lia.
  rewrite seq_S, fmap_app. simpl. f_equal.
  - unfold contents. apply list_fmap_ext. intros k x Hk. apply lookup_seq in Hk as [-> Hk].
    unfold slot; simpl. rewrite list_lookup_insert_ne; [done|].
    intros Heq. apply Z2Nat.inj in Heq; [|lia|apply Z.mod_pos_bound; lia].
    rewrite <- Hend in Heq.
    rewrite <- (Z.mod_small (count q) (size q)) in Heq at 1 by lia.
    rewrite Zplus_mod_idemp_r in Heq.
    assert ((nextread q + count q - (nextread q + Z.of_nat k)) mod size q = 0) as Hz.
    { rewrite Zminus_mod, Heq, Z.sub_diag. by apply Z.mod_0_l; lia. }
    replace (nextread q + count q - (nextread q + Z.of_nat k)) with (count q - Z.of_nat k) in Hz by lia.
    rewrite Z.mod_small in Hz by lia. lia.
  - unfold slot; simpl. rewrite Z2Nat.id by lia. rewrite Hend.
    by rewrite list_lookup_insert_eq by lia.
Qed.

Lemma full_iff q :
  q_wf q -> ((nextwrite q + 1) mod size q =? nextread q) = (count q =? size q - 1).
Proof.
  intros Hwf. pose proof (count_range q Hwf). pose proof Hwf as (Hs & Hr & Hw & Hl).
  unfold count in *.
  apply eq_true_iff_eq. rewrite !Z.eqb_eq. split; intros E.
  - rewrite <- E, Zminus_mod_idemp_r.
    replace (nextwrite q - (nextwrite q + 1)) with (-1) by lia.
    rewrite <- (Z_mod_plus_full (-1) 1 (size q)), Z.mod_small; lia.
  - assert ((nextwrite q + 1 - nextread q) mod size q = 0) as Hz.
    { replace (nextwrite q + 1 - nextread q) with ((nextwrite q - nextread q) + 1) by lia.
      rewrite <- Zplus_mod_idemp_l, E. replace (size q - 1 + 1) with (size q) by lia.
      apply Z_mod_same_full. }
    destruct (Z.eq_dec (nextwrite q + 1) (size q)) as [Heq|Hne].
    + rewrite Heq, Z_mod_same_full. rewrite Heq in Hz.
      rewrite <- (Z_mod_plus_full _ (-1)) in Hz.
      destruct (Z.eq_dec (nextread q) 0); [done|].
      replace (size q - nextread q + -1 * size q) with (- nextread q) in Hz by lia.
      rewrite Z.mod_opp_l_nz in Hz; rewrite ?Z.mod_small in * by lia; lia.
    + rewrite Z.mod_small by lia.
      apply Z.mod_divide in Hz as [k Hk]; [|lia].
      destruct (Z.lt_trichotomy k 0) as [?|[->|?]]; nia.
Qed.

(** No allocation happens while the queue is not full. *)
Lemma q_addtail_room f mem q c :
  q_wf q -> count q + 1 < size q ->
  exists q', q_addtail_fuel (S f) mem q c = Done (q', Ok tt) /\ q_wf q' /\
    size q' = size q /\ contents q' = contents q ++ [c].
Proof.
  intros Hwf Hroom. pose proof Hwf as (Hs & Hr & Hw & Hl).
  cbn [q_addtail_fuel]. unfold assert. case_bool.
  rewrite (int_Done (nextwrite q + 1)) by (unfold INT_MIN, INT_MAX; lia). run. rewrite rem_succ by lia.
  rewrite full_iff by done. case_bool. by apply q_store_spec.
Qed.

Lemma q_refill_eq fuel add (q : queue) old i onw osize :
  q_refill fuel add q old i onw osize =
  if i =? onw then Done q
  else
    match fuel with
    | O => Halt Fuel
    | S f =>
        x ← rd old i;
        '(q1, r) ← add q x;
        assert! match r with Ok _ => true | Err _ => false end;
        i1 ← int (i + 1);
        q_refill f add q1 old (Z.rem i1 osize) onw osize
    end.
Proof. by destruct fuel. Qed.

Lemma slot_drop q k :
  q_wf q -> (k < Z.to_nat (count q))%nat ->
  drop k (contents q) = slot q k :: drop (S k) (contents q).
Proof.
  intros Hwf Hk. apply drop_S. unfold contents. rewrite list_lookup_fmap.
  by rewrite lookup_seq_lt by done.
Qed.

(** The refill loop copies the rest of the old queue, in order. *)
Lemma q_refill_spec f mem old q k fuel :
  q_wf old -> q_wf q -> (k <= Z.to_nat (count old))%nat ->
  (Z.to_nat (count old) - k <= fuel)%nat ->
  count q = Z.of_nat k -> count old < size q - 1 ->
  exists q', q_refill fuel (q_addtail_fuel (S f) mem) q (data old)
      ((nextread old + Z.of_nat k) mod size old) (nextwrite old) (size old) = Done q' /\
    q_wf q' /\ size q' = size q /\ contents q' = contents q ++ drop k (contents old).
Proof.
  intros Hold. pose proof (count_range old Hold) as Hc. pose proof Hold as (Hs & Hr & Hw & Hl).
  revert q k; induction fuel as [|fuel IH]; intros q k Hwf Hk Hfuel Hq Hsz.
  all: rewrite q_refill_eq.
  all: pose proof (q_contents_length old Hold) as Hcl.
  all: assert (k = Z.to_nat (count old) -> (nextread old + Z.of_nat k) mod size old = nextwrite old) as Hend
    by (intros ->; rewrite Z2Nat.id by lia; unfold count; rewrite Zplus_mod_idemp_r;
        replace (nextread old + _) with (nextwrite old) by lia; apply Z.mod_small; lia).
  - assert (k = Z.to_nat (count old)) as Ek by lia. rewrite Hend, Z.eqb_refl by done.
    exists q. split_and!; [done..|]. rewrite drop_ge by lia. by rewrite app_nil_r.
  - destruct (decide (k = Z.to_nat (count old))) as [Ek|Hne].
    + rewrite Hend, Z.eqb_refl by done.
      exists q. split_and!; [done..|]. rewrite drop_ge by lia. by rewrite app_nil_r.
    + pose proof (Z.mod_pos_bound (nextread old + Z.of_nat k) (size old) ltac:(lia)) as Hi.
      destruct (Z.eqb_spec ((nextread old + Z.of_nat k) mod size old) (nextwrite old)) as [E|_].
      { exfalso. assert (count old = Z.of_nat k) as Hx; [|lia].
        unfold count. rewrite <- E, Zminus_mod_idemp_l.
        replace (nextread old + Z.of_nat k - nextread old) with (Z.of_nat k) by lia.
        apply Z.mod_small. lia. }
      destruct (lookup_lt_is_Some_2 (data old)
        (Z.to_nat ((nextread old + Z.of_nat k) mod size old))) as [x Hx]; [lia|].
      rewrite (rd_Done _ _ x) by (done || lia). simpl.
      destruct (q_addtail_room f mem q x) as (q1 & E1 & Hwf1 & Hs1 & Hc1); [done|lia|].
      simpl in E1. rewrite E1. simpl. rewrite int_Done by (unfold INT_MIN, INT_MAX; lia). run.
      rewrite rem_succ, Zplus_mod_idemp_l by lia.
      replace (nextread old + Z.of_nat k + 1) with (nextread old + Z.of_nat (S k)) by lia.
      destruct (IH q1 (S k)) as (q' & E' & Hwf' & Hs' & Hc'); [done|lia|lia| |lia|].
      { rewrite <- q_contents_length by done. rewrite Hc1, length_app, Nat2Z.inj_add.
        rewrite q_contents_length by done. simpl. lia. }
      exists q'. split; [exact E'|]. split_and!; [done|lia|].
      rewrite Hc', Hc1, <- app_assoc, (slot_drop old k) by (done || lia).
      unfold slot. by rewrite Hx.
Qed.

Lemma q_grow_spec f mem q t :
  q_wf q -> size q < t -> t <= q_limit ->
  exists q' r, q_grow (q_addtail_fuel (S f) mem) mem q t = Done (q', r) /\ q_wf q' /\
    contents q' = contents q /\
    match r with
    | Ok _ => t <= size q' <= Z.max (size q) (2 * t - 1)
    | Err e => e = ENOMEM /\ q' = q
    end.
Proof.
  intros Hwf Ht Hlim. pose proof (count_range q Hwf) as Hc. pose proof Hwf as (Hs & Hr & Hw & Hl).
  unfold q_grow.
  destruct (q_newsize_spec q_newsize_fuel (size q) t) as (n & -> & Hn1);
    [lia|done|unfold q_limit, q_newsize_fuel; lia|].
  unfold q_limit in *. run. rewrite u32_small by lia.
  destruct (mem (n * 4)); [|by eexists _, _].
  rewrite Z.div_mul by lia.
  assert (q_wf (mk_queue n 0 0 (replicate (Z.to_nat n) None))) as Hwf0.
  { unfold q_wf; simpl. rewrite length_replicate. repeat split; lia. }
  destruct (q_refill_spec f mem q (mk_queue n 0 0 (replicate (Z.to_nat n) None)) 0
              (length (data q))) as (q' & E & Hwf' & Hs' & Hc'); [done|done|lia|lia| | |].
  - unfold count; simpl. rewrite Z.mod_0_l; lia.
  - simpl. lia.
  - rewrite Z.add_0_r, Z.mod_small in E by lia. rewrite E. simpl.
    eexists _, _. split; [reflexivity|]. split_and!; [done| |simpl in Hs'; lia..].
    rewrite Hc', drop_0. unfold contents at 1, count; simpl.
    done.
Qed.

Lemma q_addtail_spec mem q c :
  q_wf q -> size q < q_limit ->
  exists q' r, q_addtail mem q c = Done (q', r) /\ q_wf q' /\
    match r with
    | Ok _ => contents q' = contents q ++ [c] /\
              size q <= size q' <= Z.max (size q) (2 * count q + 3)
    | Err e => e = ENOMEM /\ q' = q /\ count q = size q - 1
    end.
Proof.
  intros Hwf Hlim. pose proof (count_range q Hwf) as Hc. pose proof Hwf as (Hs & Hr & Hw & Hl).
  unfold q_addtail.
  destruct (Z.eq_dec (count q) (size q - 1)) as [Hfull|Hroom].
  2:{ destruct (q_addtail_room 1 mem q c) as (q' & -> & ? & ? & ?); [done|lia|].
      eexists _, _. split; [done|]. split_and!; [done|done|lia|lia]. }
  unfold q_limit in *. remember 1%nat as one eqn:Hone.
  replace 2%nat with (S one) by (subst; done). cbn [q_addtail_fuel]. unfold assert. case_bool.
  rewrite (int_Done (nextwrite q + 1)) by (unfold INT_MIN, INT_MAX; lia). run.
  rewrite rem_succ, full_iff by done. case_bool.
  rewrite int_Done by (unfold INT_MIN, INT_MAX; lia). run.
  subst one. destruct (q_grow_spec 0 mem q (size q + 1)) as (q1 & r & -> & Hwf1 & Hc1 & Hr1);
    [done|lia|unfold q_limit; lia|].
  destruct r as [u|err]; simpl.
  2:{ destruct Hr1 as (-> & ->). by eexists _, _. }
  pose proof Hwf1 as (? & ? & ? & ?).
  rewrite int_Done by (unfold INT_MIN, INT_MAX; lia). run. rewrite rem_succ by lia.
  destruct (q_store_spec q1 c) as (q' & -> & Hwf' & Hs' & Hc'); [done| |].
  { rewrite <- q_contents_length, Hc1, q_contents_length by done. lia. }
  eexists _, _. split; [reflexivity|]. split; [done|].
  split_and!; [by rewrite Hc', Hc1|lia|lia].
Qed.

(** With memory enough it does not fail. *)
Lemma q_addtail_enough mem q c q' e : (forall b, mem b = true) -> q_addtail mem q c <> Done (q', Err e).
Proof.
  intros Hm. unfold q_addtail. remember 1%nat as one eqn:Hone. replace 2%nat with (S one) by (subst; done). cbn [q_addtail_fuel].
  unfold assert, q_grow, q_store, mbind, exec_bind. repeat case_match; simplify_eq; rewrite ?Hm in *; try done.
  run. by repeat case_match.
Qed.

Lemma q_preallocate_spec mem q n :
  q_wf q -> n <= q_limit ->
  exists q' r, q_preallocate mem q n = Done (q', r) /\ q_wf q' /\ contents q' = contents q /\
    match r with
    | Ok _ => Z.max n (size q) <= size q' <= Z.max (size q) (2 * n - 1)
    | Err e => e = ENOMEM /\ q' = q
    end.
Proof.
  intros Hwf Hn. pose proof Hwf as (Hs & _). unfold q_preallocate, assert. case_bool.
  rewrite Z.gtb_ltb. destruct (Z.ltb_spec (size q) n).
  - unfold q_addtail. destruct (q_grow_spec 1 mem q n) as (q' & r & -> & ? & ? & Hr); [done..|].
    eexists _, _. split; [reflexivity|]. split_and!; [done..|]. destruct r; [lia|done].
  - eexists _, _. split; [done|]. split_and!; (done || lia).
Qed.

(** The element [q_getguy] finds at [q_getstart] is the head. *)
Lemma q_first_spec q c l : q_wf q -> contents q = c :: l -> q_getguy q (q_getstart q) = Done c.
Proof.
  intros Hwf Hc. pose proof (count_range q Hwf) as Hcr. pose proof Hwf as (Hs & Hr & Hw & Hl).
  pose proof (q_contents_length q Hwf) as Hlen. rewrite Hc in Hlen. simpl in Hlen.
  unfold contents in Hc. rewrite <- Hlen in Hc.
  replace (Z.to_nat (Z.of_nat (S (length l)))) with (S (length l)) in Hc by lia. simpl in Hc. injection Hc as Hhd _.
  unfold slot in Hhd. rewrite Z.add_0_r, Z.mod_small in Hhd by lia.
  destruct (lookup_lt_is_Some_2 (data q) (Z.to_nat (nextread q))) as [x Hx]; [lia|].
  unfold q_getguy, q_getstart, assert. do 2 case_bool. simpl. rewrite Hx in Hhd. simpl in Hhd. subst x.
  unfold rd. case_bool. by rewrite Hx.
Qed.

Lemma q_remhead_spec q c l :
  q_wf q -> contents q = c :: l ->
  exists q', q_remhead q = Done (q', c) /\ q_wf q' /\ size q' = size q /\ contents q' = l.
Proof.
  intros Hwf Hc. pose proof (count_range q Hwf) as Hcr. pose proof Hwf as (Hs & Hr & Hw & Hl).
  pose proof (q_contents_length q Hwf) as Hlen. rewrite Hc in Hlen. simpl in Hlen.
  unfold q_remhead, assert. case_bool.
  destruct (q_empty q) eqn:Ee; [apply empty_contents in Ee; [congruence|done]|]. simpl.
  assert (slot q 0 = c /\ slot q <$> seq 1 (length l) = l) as [Hhd Htl].
  { unfold contents in Hc. rewrite <- Hlen in Hc.
    replace (Z.to_nat (Z.of_nat (S (length l)))) with (S (length l)) in Hc by lia.
    simpl in Hc. by injection Hc. }
  unfold slot in Hhd. rewrite Z.add_0_r, Z.mod_small in Hhd by lia.
  destruct (lookup_lt_is_Some_2 (data q) (Z.to_nat (nextread q))) as [x Hx]; [lia|].
  rewrite Hx in Hhd. simpl in Hhd. subst x.
  rewrite (rd_Done _ _ c) by (done || lia). simpl.
  rewrite int_Done by (unfold INT_MIN, INT_MAX; lia). run. rewrite rem_succ by lia.
  eexists. split; [reflexivity|].
  pose proof (Z.mod_pos_bound (nextread q + 1) (size q) ltac:(lia)).
  split; [unfold q_wf; simpl; repeat split; lia|]. split; [done|].
  unfold contents at 1, count at 1; simpl. rewrite Zminus_mod_idemp_r.
  assert ((nextwrite q - (nextread q + 1)) mod size q = Z.of_nat (length l)) as ->.
  { replace (nextwrite q - (nextread q + 1)) with (nextwrite q - nextread q - 1) by lia.
    rewrite <- Zminus_mod_idemp_l. fold (count q). rewrite Z.mod_small; lia. }
  rewrite Nat2Z.id. rewrite <- Htl at 2. rewrite <- (fmap_S_seq 0 (length l)) , <- list_fmap_compose.
  apply list_fmap_ext. intros k y _. unfold slot; simpl.
  rewrite Zplus_mod_idemp_l.
  by replace (nextread q + 1 + Z.of_nat y) with (nextread q + Z.of_nat (S y)) by lia.
Qed.

(** ** The queue as a FIFO list *)

Inductive q_op : Type :=
| QAddtail (c : option P)
| QRemhead
| QEmpty
| QPreallocate (n : Z).

Inductive q_obs : Type :=
| QUnit
| QCell (c : option P)
| QBool (b : bool)
| QErr (e : errno).

Definition q_obs_of (r : ret unit) : q_obs :=
  match r with Ok _ => QUnit | Err e => QErr e end.

Definition q_step (mem : Z -> bool) (op : q_op) (q : queue) : exec (queue * q_obs) :=
  match op with
  | QAddtail c => '(q', r) ← q_addtail mem q c; Done (q', q_obs_of r)
  | QRemhead => '(q', c) ← q_remhead q; Done (q', QCell c)
  | QEmpty => Done (q, QBool (q_empty q))
  | QPreallocate n => '(q', r) ← q_preallocate mem q n; Done (q', q_obs_of r)
  end.

Inductive fifo_step : q_op -> list (option P) -> q_obs -> list (option P) -> Prop :=
| FAddtail c l : fifo_step (QAddtail c) l QUnit (l ++ [c])
| FRemhead c l : fifo_step QRemhead (c :: l) (QCell c) l
| FEmpty l : fifo_step QEmpty l (QBool (match l with [] => true | _ => false end)) l
| FPreallocate n l : fifo_step (QPreallocate n) l QUnit l
| FNomem op l :
    match op with QAddtail _ | QPreallocate _ => True | _ => False end ->
    fifo_step op l (QErr ENOMEM) l.

(** [q_remhead] panics on an empty queue; sizes stay within the limit. *)
Definition q_pre (op : q_op) (q : queue) : Prop :=
  match op with
  | QAddtail _ => size q < q_limit
  | QRemhead => contents q <> []
  | QEmpty => True
  | QPreallocate n => n <= q_limit
  end.

(** The ring buffer implements a first-in first-out queue: within its
    precondition every operation finishes (including the mutual recursion
    of [q_grow] and [q_addtail]), touches only its buffer, keeps the ring
    well-formed, and acts on the queued elements as the FIFO operation; a
    failed extension reports ENOMEM and loses nothing. *)
Theorem queue_refines_fifo mem op q :
  q_wf q -> q_pre op q ->
  exists q' o, q_step mem op q = Done (q', o) /\ q_wf q' /\
    fifo_step op (contents q) o (contents q').
Proof.
  intros Hwf Hpre. destruct op as [c| | |n]; simpl in *.
  - destruct (q_addtail_spec mem q c Hwf Hpre) as (q' & r & -> & Hwf' & Hr).
    eexists _, _. split; [reflexivity|]. split; [done|].
    destruct r; [destruct Hr as [-> _]; constructor|]. destruct Hr as (-> & -> & _). by constructor.
  - destruct (contents q) as [|c l] eqn:Ec; [done|].
    destruct (q_remhead_spec q c l Hwf Ec) as (q' & -> & Hwf' & _ & Hc).
    eexists _, _. split; [reflexivity|]. split; [done|]. rewrite Hc. constructor.
  - eexists _, _. split; [reflexivity|]. split; [done|].
    assert (q_empty q = match contents q with [] => true | _ => false end) as ->; [|constructor].
    pose proof (empty_contents q Hwf). destruct (q_empty q), (contents q); naive_solver.
  - destruct (q_preallocate_spec mem q n Hwf Hpre) as (q' & r & -> & Hwf' & Hc & Hr).
    eexists _, _. split; [reflexivity|]. split; [done|]. rewrite Hc.
    destruct r; [constructor|]. destruct Hr as (-> & _). by constructor.
Qed.

End queue.
End Queue.

Import Queue.

Lemma queue_refines_fifo_witness :
  exists q' o,
    q_step (fun _ => true) (QAddtail (Some 7)) (mk_queue 2 0 1 [None; Some 5]) = Done (q', o) /\
    fifo_step (QAddtail (Some 7)) [Some 5] o (contents q').
Proof.
  destruct (queue_refines_fifo (fun _ => true) (QAddtail (Some 7)) (mk_queue 2 0 1 [None; Some 5]))
    as (q' & o & E & _ & H).
  - unfold q_wf; simpl. lia.
  - simpl. unfold q_limit. lia.
  - exists q', o. by split.
Defined.
