(* ===== verification/Bitmap.v ===== *)
(** * Fixed-size bitmaps ([kern/lib/bitmap.c])

    SFS keeps its free-block map in a bitmap.  The bits are stored in bytes
    ([WORD_TYPE] is [unsigned char]); bits past [nbits] in the last byte are
    marked in use on creation so that [bitmap_alloc] never returns them. *)

From stdpp Require Import base list numbers.
From S2P Require Import Prelude.

Module Bitmap.

Definition BITS_PER_WORD : Z := 8.
Definition WORD_ALLBITS : Z := 255.

Record bitmap : Type := mk_bitmap {
  nbits : Z;
  v : list Z
}.

(** [(WORD_TYPE)1 << j] *)
Definition bitmask (j : Z) : Z := Z.land (Z.shiftl 1 j) WORD_ALLBITS.

Definition bitmap_create (mem : Z -> bool) (nbits : Z) : exec (option bitmap) :=
  let words := DIVROUNDUP nbits BITS_PER_WORD in
  if negb (mem 8) then Done None
  else if negb (mem words) then Done None
  else
    let v0 := replicate (Z.to_nat words) 0 in
    if nbits / BITS_PER_WORD <? words then
      let ix := words - 1 in
      let overbits := u32 (nbits - u32 (ix * BITS_PER_WORD)) in
      assert! nbits / BITS_PER_WORD =? u32 (words - 1);
      assert! (0 <? overbits) && (overbits <? BITS_PER_WORD);
      v1 ← for_range overbits BITS_PER_WORD
             (fun j v => w ← rd v ix; wr v ix (Z.lor w (bitmask j))) v0;
      Done (Some (mk_bitmap nbits v1))
    else Done (Some (mk_bitmap nbits v0)).

Definition bitmap_getdata (b : bitmap) : list Z := v b.

(** The inner loop of [bitmap_alloc]: first clear bit of a byte. *)
Fixpoint find_offset (n : nat) (offset w : Z) : option Z :=
  match n with
  | O => None
  | S n' =>
      if Z.land w (bitmask offset) =? 0 then Some offset
      else find_offset n' (offset + 1) w
  end.

(** The outer loop, from word [ix], [n] words to go. *)
Fixpoint bitmap_alloc_loop (n : nat) (ix : Z) (b : bitmap) : exec (bitmap * ret Z) :=
  match n with
  | O => Done (b, Err ENOSPC)
  | S n' =>
      w ← rd (v b) ix;
      if negb (w =? WORD_ALLBITS) then
        match find_offset (Z.to_nat BITS_PER_WORD) 0 w with
        | Some offset =>
            v' ← wr (v b) ix (Z.lor w (bitmask offset));
            let index := u32 (u32 (ix * BITS_PER_WORD) + offset) in
            assert! index <? nbits b;
            Done (mk_bitmap (nbits b) v', Ok index)
        | None => Halt Assertion
        end
      else bitmap_alloc_loop n' (ix + 1) b
  end.

Definition bitmap_alloc (b : bitmap) : exec (bitmap * ret Z) :=
  bitmap_alloc_loop (Z.to_nat (DIVROUNDUP (nbits b) BITS_PER_WORD)) 0 b.

Definition bitmap_translate (bitno : Z) : Z * Z :=
  (bitno / BITS_PER_WORD, bitmask (bitno mod BITS_PER_WORD)).

Definition bitmap_mark (b : bitmap) (index : Z) : exec bitmap :=
  assert! index <? nbits b;
  let '(ix, mask) := bitmap_translate index in
  w ← rd (v b) ix;
  assert! Z.land w mask =? 0;
  v' ← wr (v b) ix (Z.lor w mask);
  Done (mk_bitmap (nbits b) v').

Definition bitmap_unmark (b : bitmap) (index : Z) : exec bitmap :=
  assert! index <? nbits b;
  let '(ix, mask) := bitmap_translate index in
  w ← rd (v b) ix;
  assert! negb (Z.land w mask =? 0);
  v' ← wr (v b) ix (Z.land w (Z.lnot mask));
  Done (mk_bitmap (nbits b) v').

Definition bitmap_isset (b : bitmap) (index : Z) : exec Z :=
  let '(ix, mask) := bitmap_translate index in
  w ← rd (v b) ix;
  Done (Z.land w mask).

(** ** Abstraction: the set of marked bits *)

Definition bit (b : bitmap) (i : Z) : bool :=
  match v b !! Z.to_nat (i / 8) with
  | Some w => Z.testbit w (i mod 8)
  | None => true
  end.

Definition words (b : bitmap) : Z := DIVROUNDUP (nbits b) BITS_PER_WORD.

Definition bitmap_wf (b : bitmap) : Prop :=
  0 <= nbits b <= 2 ^ 32 - 8 /\
  Z.of_nat (length (v b)) = words b /\
  Forall (fun w => 0 <= w < 256) (v b) /\
  (forall i, nbits b <= i < 8 * words b -> bit b i = true).

Lemma words_eq n : 0 <= n <= 2 ^ 32 - 8 -> DIVROUNDUP n BITS_PER_WORD = (n + 7) / 8.
Proof.
  intros. unfold DIVROUNDUP, BITS_PER_WORD.
  destruct (Z.eq_dec n (2 ^ 32 - 8)) as [->|]; [done|].
  rewrite (u32_small (n + 8)), u32_small by lia. f_equal. lia.
Qed.

Lemma words_bounds n : 0 <= n <= 2 ^ 32 - 8 ->
  n <= 8 * DIVROUNDUP n BITS_PER_WORD < n + 8.
Proof. intros. rewrite words_eq by done. zlia. Qed.

Lemma bitmask_eq j : 0 <= j < 8 -> bitmask j = 2 ^ j.
Proof.
  intros. unfold bitmask, WORD_ALLBITS. rewrite Z.shiftl_1_l.
  change 255 with (Z.ones 8). rewrite Z.land_ones by lia. apply Z.mod_small.
  split; [lia|]. apply Z.pow_lt_mono_r; lia.
Qed.

Lemma land_mask w j : 0 <= j < 8 ->
  (Z.land w (bitmask j) =? 0) = negb (Z.testbit w j).
Proof.
  intros. rewrite bitmask_eq by done. apply land_pow2; lia.
Qed.

Lemma set_bit w j k : 0 <= j < 8 ->
  Z.testbit (Z.lor w (bitmask j)) k = Z.testbit w k || (j =? k).
Proof. intros. rewrite bitmask_eq, Z.lor_spec, Z.pow2_bits_eqb by lia. done. Qed.

Lemma clear_bit w j k : 0 <= j < 8 -> 0 <= k ->
  Z.testbit (Z.land w (Z.lnot (bitmask j))) k = Z.testbit w k && negb (j =? k).
Proof.
  intros. rewrite bitmask_eq, Z.land_spec, Z.lnot_spec, Z.pow2_bits_eqb by lia. done.
Qed.

(** A byte stays a byte. *)
Lemma set_byte w j : 0 <= w < 256 -> 0 <= j < 8 -> 0 <= Z.lor w (bitmask j) < 256.
Proof. intros Hw Hj. rewrite bitmask_eq by done. apply (bits_set 8); lia. Qed.

Lemma clear_byte w j : 0 <= w < 256 -> 0 <= j < 8 ->
  0 <= Z.land w (Z.lnot (bitmask j)) < 256.
Proof. intros Hw Hj. rewrite <- Z.ldiff_land. apply (bits_clear 8); lia. Qed.

(** Replacing one byte changes the bits of that byte only. *)
Lemma bit_insert b n ix w' k :
  0 <= ix < Z.of_nat (length (v b)) -> 0 <= k ->
  bit (mk_bitmap n (<[Z.to_nat ix := w']> (v b))) k =
  if k / 8 =? ix then Z.testbit w' (k mod 8) else bit b k.
Proof.
  intros Hix Hk. unfold bit; simpl. case_bool.
  - subst ix. by rewrite list_lookup_insert_eq by lia.
  - rewrite list_lookup_insert_ne; [done|]. pose proof (Z.div_pos k 8). lia.
Qed.

Lemma bit_word b k w : v b !! Z.to_nat (k / 8) = Some w -> bit b k = Z.testbit w (k mod 8).
Proof. unfold bit. by intros ->. Qed.

Lemma wf_word b ix :
  bitmap_wf b -> 0 <= ix < words b ->
  exists w, v b !! Z.to_nat ix = Some w /\ rd (v b) ix = Done w /\ 0 <= w < 256.
Proof.
  intros (? & Hl & Hb & _) Hix.
  destruct (lookup_lt_is_Some_2 (v b) (Z.to_nat ix)) as [w Hw]; [lia|].
  exists w. split_and!; [done|by apply rd_Done; [lia|]|..].
  all: rewrite Forall_lookup in Hb; apply Hb in Hw; lia.
Qed.

Lemma find_offset_spec n off w :
  0 <= off -> off + Z.of_nat n <= 8 ->
  match find_offset n off w with
  | Some o => off <= o < off + Z.of_nat n /\ Z.testbit w o = false /\
              forall k, off <= k < o -> Z.testbit w k = true
  | None => forall k, off <= k < off + Z.of_nat n -> Z.testbit w k = true
  end.
Proof.
  revert off; induction n as [|n IH]; intros off H0 H8; simpl; [intros; lia|].
  rewrite land_mask by lia. destruct (Z.testbit w off) eqn:E; simpl.
  - specialize (IH (off + 1) ltac:(lia) ltac:(lia)).
    destruct (find_offset n (off + 1) w) as [o|].
    + destruct IH as (? & ? & IH). split_and!; [lia|lia|done|].
      intros k Hk. destruct (Z.eq_dec k off) as [->|]; [done|apply IH; lia].
    + intros k Hk. destruct (Z.eq_dec k off) as [->|]; [done|apply IH; lia].
  - split_and!; [lia|lia|done|intros; lia].
Qed.

Lemma allbits w : 0 <= w < 256 -> (forall k, 0 <= k < 8 -> Z.testbit w k = true) ->
  w = WORD_ALLBITS.
Proof.
  intros Hw Hb. change WORD_ALLBITS with (Z.ones 8). by apply (bits_all 8); [lia|..].
Qed.

Lemma allbits_bit k : 0 <= k < 8 -> Z.testbit WORD_ALLBITS k = true.
Proof. intros. change WORD_ALLBITS with (Z.ones 8). by rewrite Z.ones_spec_low by lia. Qed.

(** Setting or clearing one in-range bit keeps the map well-formed. *)
Lemma wf_update b ix w w' :
  bitmap_wf b -> 0 <= ix < words b -> v b !! Z.to_nat ix = Some w -> 0 <= w' < 256 ->
  (forall j, 0 <= j < 8 -> nbits b <= 8 * ix + j -> Z.testbit w' j = true) ->
  bitmap_wf (mk_bitmap (nbits b) (<[Z.to_nat ix := w']> (v b))).
Proof.
  intros (Hn & Hl & Hb & Hover) Hix Hw Hw' Hbits. unfold bitmap_wf, words in *; simpl.
  split; [done|]. split; [by rewrite length_insert|]. split.
  { apply Forall_insert; [done|lia]. }
  intros i Hi. rewrite bit_insert by lia. case_bool; [|by apply Hover].
  subst ix. apply Hbits; [apply Z.mod_pos_bound; lia|].
  rewrite <- Z.div_mod by lia. lia.
Qed.

(** Specification of the bitmap operations on the set of marked bits. *)
Definition only_bit_set (b b' : bitmap) (i : Z) : Prop :=
  nbits b' = nbits b /\ forall k, 0 <= k -> bit b' k = (k =? i) || bit b k.

Definition only_bit_cleared (b b' : bitmap) (i : Z) : Prop :=
  nbits b' = nbits b /\ forall k, 0 <= k -> bit b' k = negb (k =? i) && bit b k.

Lemma div_mod_eq8 k i : k / 8 = i / 8 -> (k mod 8 =? i mod 8) = (k =? i).
Proof.
  intros. apply eq_true_iff_eq. rewrite !Z.eqb_eq. split; intros; [|congruence].
  rewrite (Z.div_mod k 8), (Z.div_mod i 8); lia.
Qed.

Lemma set_bit_spec b i w :
  bitmap_wf b -> 0 <= i < nbits b -> v b !! Z.to_nat (i / 8) = Some w ->
  let b' := mk_bitmap (nbits b) (<[Z.to_nat (i / 8) := Z.lor w (bitmask (i mod 8))]> (v b)) in
  bitmap_wf b' /\ only_bit_set b b' i.
Proof.
  intros Hwf Hi Hw. pose proof Hwf as (Hn & Hl & Hb & Hover).
  pose proof (words_bounds (nbits b) ltac:(lia)) as Hwb. fold (words b) in Hwb.
  assert (0 <= i / 8 < words b) as Hix by zlia.
  pose proof (Z.mod_pos_bound i 8 ltac:(lia)) as Hm.
  rewrite Forall_lookup in Hb. pose proof (Hb _ _ Hw) as Hwr. simpl. split.
  - apply (wf_update b (i / 8) w); [done..|apply set_byte; lia|].
    intros j Hj Hge. rewrite set_bit by done.
    rewrite <- (Hover (8 * (i / 8) + j)) by lia. rewrite (bit_word _ _ w).
    + replace ((8 * (i / 8) + j) mod 8) with j by zlia.
      replace (i mod 8 =? j) with false; [by rewrite orb_false_r|].
      symmetry. apply Z.eqb_neq. zlia.
    + by replace ((8 * (i / 8) + j) / 8) with (i / 8) by zlia.
  - split; [done|]. intros k Hk. rewrite bit_insert by lia. case_bool.
    + rewrite set_bit by done. rewrite (Z.eqb_sym (i mod 8)), div_mod_eq8 by done.
      rewrite (bit_word b k w) by congruence. apply orb_comm.
    + by destruct (Z.eqb_spec k i); [congruence|].
Qed.

Lemma clear_bit_spec b i w :
  bitmap_wf b -> 0 <= i < nbits b -> v b !! Z.to_nat (i / 8) = Some w ->
  let b' := mk_bitmap (nbits b)
              (<[Z.to_nat (i / 8) := Z.land w (Z.lnot (bitmask (i mod 8)))]> (v b)) in
  bitmap_wf b' /\ only_bit_cleared b b' i.
Proof.
  intros Hwf Hi Hw. pose proof Hwf as (Hn & Hl & Hb & Hover).
  pose proof (words_bounds (nbits b) ltac:(lia)) as Hwb. fold (words b) in Hwb.
  assert (0 <= i / 8 < words b) as Hix by zlia.
  pose proof (Z.mod_pos_bound i 8 ltac:(lia)) as Hm.
  rewrite Forall_lookup in Hb. pose proof (Hb _ _ Hw) as Hwr. simpl. split.
  - apply (wf_update b (i / 8) w); [done..|apply clear_byte; lia|].
    intros j Hj Hge. rewrite clear_bit by lia.
    assert (Z.testbit w j = true) as ->.
    { rewrite <- (Hover (8 * (i / 8) + j)) by lia. rewrite (bit_word _ _ w).
      - by replace ((8 * (i / 8) + j) mod 8) with j by zlia.
      - by replace ((8 * (i / 8) + j) / 8) with (i / 8) by zlia. }
    simpl. apply negb_true_iff, Z.eqb_neq. zlia.
  - split; [done|]. intros k Hk. pose proof (Z.mod_pos_bound k 8 ltac:(lia)).
    rewrite bit_insert by lia. case_bool.
    + rewrite clear_bit by lia. rewrite (Z.eqb_sym (i mod 8)), div_mod_eq8 by done.
      rewrite (bit_word b k w) by congruence. apply andb_comm.
    + by destruct (Z.eqb_spec k i); [congruence|].
Qed.

Lemma bitmap_alloc_loop_spec n ix b :
  bitmap_wf b -> 0 <= ix -> ix + Z.of_nat n = words b ->
  (forall k, 0 <= k < 8 * ix -> bit b k = true) ->
  exists b' r, bitmap_alloc_loop n ix b = Done (b', r) /\ bitmap_wf b' /\
    match r with
    | Ok i => 0 <= i < nbits b /\ bit b i = false /\ only_bit_set b b' i /\
              (forall k, 0 <= k < i -> bit b k = true)
    | Err e => e = ENOSPC /\ b' = b /\ forall k, 0 <= k < 8 * words b -> bit b k = true
    end.
Proof.
  intros Hwf. pose proof Hwf as (Hn & Hl & Hb & Hover).
  pose proof (words_bounds (nbits b) ltac:(lia)) as Hwb. fold (words b) in Hwb.
  revert ix; induction n as [|n IH]; intros ix H0 Hix Hlow; cbn [bitmap_alloc_loop].
  - eexists _, _. split; [reflexivity|]. split_and!; [done..|].
    intros k Hk. apply Hlow. lia.
  - destruct (wf_word b ix) as (w & Hw & -> & Hwr); [done|lia|]. run.
    case_bool.
    + subst w. apply IH; [lia|lia|]. intros k Hk. destruct (Z.lt_ge_cases k (8 * ix)); [apply Hlow; lia|].
      rewrite (bit_word _ _ WORD_ALLBITS); [apply allbits_bit, Z.mod_pos_bound; lia|].
      by replace (k / 8) with ix by zlia.
    + pose proof (find_offset_spec (Z.to_nat BITS_PER_WORD) 0 w ltac:(lia)
        ltac:(unfold BITS_PER_WORD; lia)) as Hf.
      change (Z.of_nat (Z.to_nat BITS_PER_WORD)) with 8 in Hf.
      destruct (find_offset (Z.to_nat BITS_PER_WORD) 0 w) as [o|].
      2:{ exfalso. by apply n0, allbits. }
      destruct Hf as (Ho & Hclr & Hset). rewrite wr_Done by lia. run.
      unfold BITS_PER_WORD. rewrite (u32_small (ix * 8)), u32_small by lia.
      set (i := ix * 8 + o).
      assert (i / 8 = ix) as Hdiv by (subst i; zlia). assert (i mod 8 = o) as Hmod by (subst i; zlia).
      assert (bit b i = false) as Hbit by (rewrite (bit_word _ _ w) by (by rewrite Hdiv); by rewrite Hmod).
      assert (i < nbits b) as Hlt.
      { destruct (Z.lt_ge_cases i (nbits b)) as [|Hge]; [done|]. rewrite Hover in Hbit; [done|].
        subst i. lia. }
      unfold assert. case_bool. eexists _, _. split; [reflexivity|].
      destruct (set_bit_spec b i w) as [Hwf' Honly]; [done|subst i; lia|by rewrite Hdiv|].
      rewrite Hdiv, Hmod in *. split_and!; try done; [subst i; lia|].
      intros k Hk. destruct (Z.lt_ge_cases k (8 * ix)); [apply Hlow; lia|].
      rewrite (bit_word _ _ w) by (by replace (k / 8) with ix by (subst i; zlia)).
      apply Hset. subst i. zlia.
Qed.

Lemma bitmap_alloc_spec b :
  bitmap_wf b ->
  exists b' r, bitmap_alloc b = Done (b', r) /\ bitmap_wf b' /\
    match r with
    | Ok i => 0 <= i < nbits b /\ bit b i = false /\ only_bit_set b b' i /\
              (forall k, 0 <= k < i -> bit b k = true)
    | Err e => e = ENOSPC /\ b' = b /\ forall k, 0 <= k < nbits b -> bit b k = true
    end.
Proof.
  intros Hwf. pose proof Hwf as (Hn & Hl & _). unfold bitmap_alloc. fold (words b).
  destruct (bitmap_alloc_loop_spec (Z.to_nat (words b)) 0 b) as (b' & r & E & Hwf' & Hr);
    [done|lia|lia|intros; lia|].
  exists b', r. split; [done|]. split; [done|]. destruct r; [done|].
  destruct Hr as (-> & -> & Hall). split_and!; [done..|]. intros k Hk. apply Hall.
  pose proof (words_bounds (nbits b) ltac:(lia)). fold (words b) in *. lia.
Qed.

(** [bitmap_alloc] on a well-formed map never trips an assertion: it
    returns the lowest clear bit below [nbits] and sets that bit only, or,
    exactly when every bit is set, ENOSPC with the map unchanged. *)
Theorem bitmap_alloc_correct b :
  bitmap_wf b ->
  exists b' r, bitmap_alloc b = Done (b', r) /\ bitmap_wf b' /\
    match r with
    | Ok i => 0 <= i < nbits b /\ bit b i = false /\ only_bit_set b b' i /\
              (forall k, 0 <= k < i -> bit b k = true)
    | Err e => e = ENOSPC /\ b' = b /\ forall k, 0 <= k < nbits b -> bit b k = true
    end.
Proof. apply bitmap_alloc_spec. Qed.

Lemma bitmap_mark_unmark_spec b i :
  bitmap_wf b -> 0 <= i < nbits b ->
  (exists x, bitmap_isset b i = Done x /\ (x =? 0) = negb (bit b i)) /\
  (if bit b i
   then bitmap_mark b i = Halt Assertion /\
        exists b', bitmap_unmark b i = Done b' /\ bitmap_wf b' /\ only_bit_cleared b b' i
   else bitmap_unmark b i = Halt Assertion /\
        exists b', bitmap_mark b i = Done b' /\ bitmap_wf b' /\ only_bit_set b b' i).
Proof.
  intros Hwf Hi. pose proof Hwf as (Hn & Hl & _).
  pose proof (words_bounds (nbits b) ltac:(lia)) as Hwb. fold (words b) in Hwb.
  pose proof (Z.mod_pos_bound i 8 ltac:(lia)) as Hm.
  destruct (wf_word b (i / 8)) as (w & Hw & Hrd & Hwr); [done|zlia|].
  unfold bitmap_isset, bitmap_mark, bitmap_unmark, bitmap_translate, BITS_PER_WORD.
  rewrite Hrd. run. rewrite land_mask, (bit_word b i w) by done. split.
  { eexists. split; [done|]. by rewrite land_mask. }
  case_bool.
  destruct (Z.testbit w (i mod 8)); simpl; (split; [done|]).
  - rewrite wr_Done by zlia. run. eexists. split; [reflexivity|]. by apply clear_bit_spec.
  - rewrite wr_Done by zlia. run. eexists. split; [reflexivity|]. by apply set_bit_spec.
Qed.

(** [bitmap_mark] sets exactly one clear bit, [bitmap_unmark] clears exactly
    one set bit, and [bitmap_isset] reads the bit; each is defined on every
    bit below [nbits] that is in the state its assertion asks for. *)
Theorem bitmap_mark_unmark_correct b i :
  bitmap_wf b -> 0 <= i < nbits b ->
  (exists x, bitmap_isset b i = Done x /\ (x =? 0) = negb (bit b i)) /\
  (if bit b i
   then bitmap_mark b i = Halt Assertion /\
        exists b', bitmap_unmark b i = Done b' /\ bitmap_wf b' /\ only_bit_cleared b b' i
   else bitmap_unmark b i = Halt Assertion /\
        exists b', bitmap_mark b i = Done b' /\ bitmap_wf b' /\ only_bit_set b b' i).
Proof. apply bitmap_mark_unmark_spec. Qed.

Lemma bitmap_create_spec mem n :
  0 <= n <= 2 ^ 32 - 8 ->
  exists o, bitmap_create mem n = Done o /\
    match o with
    | Some b => nbits b = n /\ bitmap_wf b /\ forall k, 0 <= k < n -> bit b k = false
    | None => mem 8 = false \/ mem (DIVROUNDUP n BITS_PER_WORD) = false
    end.
Proof.
  intros Hn. unfold bitmap_create. pose proof (words_bounds n Hn) as Hwb.
  set (ws := DIVROUNDUP n BITS_PER_WORD) in *. unfold BITS_PER_WORD.
  destruct (mem 8); [|by eexists; split; [done|left]]. simpl.
  destruct (mem ws); [|by eexists; split; [done|right]]. simpl.
  assert (forall k, 0 <= k < n -> bit (mk_bitmap n (replicate (Z.to_nat ws) 0)) k = false) as Hclr.
  { intros k Hk. unfold bit; simpl. rewrite lookup_replicate_2 by zlia. apply Z.bits_0. }
  case_bool.
  2:{ eexists. split; [done|]. split_and!; [done| |done].
      unfold bitmap_wf, words; simpl. fold ws. split; [lia|]. rewrite length_replicate.
      split; [lia|]. split; [apply Forall_replicate; lia|]. intros i Hi. exfalso. zlia. }
  rewrite (u32_small ((ws - 1) * 8)), (u32_small (n - (ws - 1) * 8)), (u32_small (ws - 1)) by zlia.
  unfold assert. do 3 (case_bool; try (exfalso; zlia)).
  set (over := n - (ws - 1) * 8) in *.
  destruct (for_range_ind
    (fun j l => length l = Z.to_nat ws /\ Forall (fun w => 0 <= w < 256) l /\
       forall k, 0 <= k < 8 * ws -> bit (mk_bitmap n l) k = (n <=? k) && (k <? (ws - 1) * 8 + j))
    (fun j v => w ← rd v (ws - 1); wr v (ws - 1) (Z.lor w (bitmask j)))
    over 8 (replicate (Z.to_nat ws) 0)) as (l & -> & Hlen & Hbytes & Hbits).
  - lia.
  - rewrite length_replicate. split; [done|]. split; [apply Forall_replicate; lia|].
    intros k Hk. unfold bit; simpl. rewrite lookup_replicate_2 by zlia. rewrite Z.bits_0.
    symmetry. apply andb_false_iff. rewrite Z.leb_gt, Z.ltb_ge. lia.
  - intros j l Hj (Hlen & Hbytes & Hbits).
    destruct (lookup_lt_is_Some_2 l (Z.to_nat (ws - 1))) as [w Hw]; [lia|].
    rewrite (rd_Done _ _ w) by (done || lia). run. rewrite wr_Done by lia.
    eexists. split; [done|]. rewrite length_insert. split; [done|].
    rewrite Forall_lookup in Hbytes. pose proof (Hbytes _ _ Hw).
    split; [apply Forall_insert; [by rewrite Forall_lookup|apply set_byte; lia]|].
    intros k Hk. change l with (v (mk_bitmap n l)) at 1. rewrite bit_insert by (simpl; lia).
    pose proof (Z.mod_pos_bound k 8 ltac:(lia)).
    destruct (Z.eqb_spec (k / 8) (ws - 1)) as [Hdiv|Hdiv].
    + rewrite set_bit by lia.
      assert (Z.testbit w (k mod 8) = bit (mk_bitmap n l) k) as ->.
      { unfold bit; simpl. by rewrite Hdiv, Hw. }
      rewrite Hbits by done. repeat case_bool; try done; exfalso; zlia.
    + rewrite Hbits by done. repeat case_bool; try done; exfalso; zlia.
  - run. eexists. split; [reflexivity|]. split_and!; [done| |].
    + unfold bitmap_wf, words; simpl. fold ws. split; [lia|]. split; [lia|]. split; [done|].
      intros i Hi. rewrite Hbits by lia. repeat case_bool; done.
    + intros k Hk. rewrite Hbits by lia. by case_bool.
Qed.

(** [bitmap_create] yields a well-formed map of [n] clear bits (whose
    leftover bits in the last byte are marked), or NULL when [kmalloc] fails. *)
Theorem bitmap_create_correct mem n :
  0 <= n <= 2 ^ 32 - 8 ->
  exists o, bitmap_create mem n = Done o /\
    match o with
    | Some b => nbits b = n /\ bitmap_wf b /\ forall k, 0 <= k < n -> bit b k = false
    | None => mem 8 = false \/ mem (DIVROUNDUP n BITS_PER_WORD) = false
    end.
Proof. apply bitmap_create_spec. Qed.

End Bitmap.

Import Bitmap.

(** A 10-bit map with bits 0, 1 and 3 in use. *)
Definition ex_map : bitmap := mk_bitmap 10 [11; 252].

Lemma ex_map_wf : bitmap_wf ex_map.
Proof.
  unfold bitmap_wf. split; [unfold ex_map; simpl; lia|]. split; [reflexivity|].
  split; [repeat constructor; lia|]. intros i. change (8 * words ex_map) with 16. simpl. intros Hi.
  assert (i = 10 \/ i = 11 \/ i = 12 \/ i = 13 \/ i = 14 \/ i = 15) as Hc by lia.
  repeat destruct Hc as [->|Hc]; [reflexivity..|subst; reflexivity].
Qed.

Lemma bitmap_alloc_correct_witness :
  exists b', bitmap_alloc ex_map = Done (b', Ok 2) /\ bitmap_wf b'.
Proof.
  destruct (bitmap_alloc_correct ex_map ex_map_wf) as (b' & r & E & Hwf & _).
  exists b'. split; [|done]. vm_compute in E |- *. injection E as <- <-. reflexivity.
Defined.

Lemma bitmap_mark_unmark_correct_witness :
  bitmap_mark ex_map 3 = Halt Assertion /\
  exists b', bitmap_unmark ex_map 3 = Done b' /\ bit b' 3 = false.
Proof.
  destruct (bitmap_mark_unmark_correct ex_map 3 ex_map_wf) as [_ H]; [simpl; lia|].
  change (bit ex_map 3) with true in H. destruct H as (Hm & b' & E & _ & _ & Hb).
  split; [exact Hm|]. exists b'. split; [exact E|]. by rewrite Hb.
Defined.

Lemma bitmap_create_correct_witness :
  exists b, bitmap_create (fun _ => true) 10 = Done (Some b) /\ bitmap_wf b.
Proof.
  destruct (bitmap_create_correct (fun _ => true) 10 ltac:(lia)) as (o & E & H).
  destruct o as [b|]; [|destruct H as [H|H]; discriminate H].
  exists b. split; [exact E|apply H].
Defined.
