(* ===== verification/Coremap.v ===== *)
(** * Physical page allocation ([kern/vm/coremap.c], [kern/arch/mips/mips/ram.c],
      [alloc_kpages]/[free_kpages] of [kern/vm/vm.c])

    At boot [ram_bootstrap] finds the range of physical memory; [cm_bootstrap]
    takes it over with [ram_getsize], puts the coremap array at its bottom and
    manages the pages above it: entry [i] describes the page at
    [freepaddr + i * PAGE_SIZE].  The first entry of an allocated run records
    the run's length. *)

From stdpp Require Import base list numbers.
From S2P Require Import Prelude.

Definition PAGE_SIZE : Z := 4096.
Definition PAGE_FRAME : Z := 0xfffff000.
Definition MIPS_KSEG0 : Z := 0x80000000.
Definition USERTOP : Z := MIPS_KSEG0.
Definition USERSTACK : Z := USERTOP.
Definition PADDR_TO_KVADDR (paddr : Z) : Z := u32 (paddr + MIPS_KSEG0).
Definition KVADDR_TO_PADDR (vaddr : Z) : Z := u32 (vaddr - MIPS_KSEG0).

(** Masking with [PAGE_FRAME] rounds an address down to its page. *)
Lemma page_frame x : 0 <= x < 2 ^ 32 -> Z.land x PAGE_FRAME = x / PAGE_SIZE * PAGE_SIZE.
Proof.
  intros Hx. change PAGE_FRAME with (Z.ldiff (Z.ones 32) (Z.ones 12)).
  assert (Z.land x (Z.ldiff (Z.ones 32) (Z.ones 12)) = Z.ldiff x (Z.ones 12)) as ->.
  { rewrite <- (Z.mod_small x (2 ^ 32)) at 2 by done. rewrite <- Z.land_ones by lia.
    apply Z.bits_inj'. intros k _. rewrite !Z.land_spec, !Z.ldiff_spec, Z.land_spec.
    by rewrite andb_assoc. }
  rewrite Z.ldiff_ones_r, Z.shiftr_div_pow2, Z.shiftl_mul_pow2 by lia. done.
Qed.

(** ** What the page allocator promises to the kernel heap

    [pa_block s va n]: the [n] pages at [va] are handed out.  Allocation adds
    one block and freeing removes one, every other block being left alone; that
    freed pages become available again is not promised. *)
Class PageAlloc (St : Type) : Type := {
  pa_alloc : St -> Z -> exec (St * Z);
  pa_free : St -> Z -> exec St;
  pa_inv : St -> Prop;
  pa_block : St -> Z -> Z -> Prop
}.

Class PageAllocOk (St : Type) `{PageAlloc St} : Prop := {
  pa_alloc_ok s n : pa_inv s -> 0 <= n ->
    exists s' va, pa_alloc s n = Done (s', va) /\ pa_inv s' /\
      (va <> 0 -> 0 < n /\ forall m, ~ pa_block s va m) /\
      (forall a m, pa_block s' a m <-> pa_block s a m \/ va <> 0 /\ a = va /\ m = n);
  pa_free_ok s va n : pa_inv s -> pa_block s va n ->
    exists s', pa_free s va = Done s' /\ pa_inv s' /\
      forall a m, pa_block s' a m <-> pa_block s a m /\ a <> va;
  pa_block_range s va n : pa_inv s -> pa_block s va n ->
    0 < n /\ va mod PAGE_SIZE = 0 /\ MIPS_KSEG0 < va /\ va + n * PAGE_SIZE <= 0xa0000000;
  pa_disjoint s a n b m : pa_inv s -> pa_block s a n -> pa_block s b m ->
    a = b /\ n = m \/ a + n * PAGE_SIZE <= b \/ b + m * PAGE_SIZE <= a
}.

Module Ram.

Record ram : Type := mk_ram { firstpaddr : Z; lastpaddr : Z }.

Definition ram_bootstrap (mips_ramsize firstfree : Z) : ram :=
  let ramsize := if mips_ramsize >? 508 * 1024 * 1024 then 508 * 1024 * 1024 else mips_ramsize in
  mk_ram (u32 (firstfree - MIPS_KSEG0)) ramsize.

Definition ram_stealmem (r : ram) (npages : Z) : ram * Z :=
  let size := u32 (npages * PAGE_SIZE) in
  if u32 (firstpaddr r + size) >? lastpaddr r then (r, 0)
  else (mk_ram (u32 (firstpaddr r + size)) (lastpaddr r), firstpaddr r).

Definition ram_getsize (r : ram) : ram * (Z * Z) :=
  (mk_ram 0 0, (firstpaddr r, lastpaddr r)).

End Ram.

Module Coremap.

Record cm_entry : Type := mk_entry {
  p_addr : Z;
  v_addr : Z;
  free : Z;
  length : Z
}.

Definition set_free (x : Z) (e : cm_entry) : cm_entry :=
  mk_entry (p_addr e) (v_addr e) x (length e).
Definition set_length (x : Z) (e : cm_entry) : cm_entry :=
  mk_entry (p_addr e) (v_addr e) (free e) x.

Record cm_state : Type := mk_cm {
  coremap : list cm_entry;
  cm_end : Z;
  freepaddr : Z;
  coremap_ready : bool
}.

Definition sizeof_cm_entry : Z := 16.

(** One round of the initialisation loop. *)
Definition cm_init_entry (freepaddr i : Z) : cm_entry :=
  let pa := u32 (freepaddr + u32 (i * PAGE_SIZE)) in
  mk_entry pa (PADDR_TO_KVADDR pa) 1 0.

Definition cm_bootstrap (r : Ram.ram) : exec (Ram.ram * cm_state) :=
  let '(r', (firstpaddr, lastpaddr)) := Ram.ram_getsize r in
  assert! Z.land firstpaddr PAGE_FRAME =? firstpaddr;
  assert! Z.land lastpaddr PAGE_FRAME =? lastpaddr;
  let num_pages := u32 (lastpaddr - firstpaddr) / PAGE_SIZE in
  let cm_size := ROUNDUP (u32 (num_pages * sizeof_cm_entry)) PAGE_SIZE in
  let freepaddr := u32 (firstpaddr + cm_size) in
  assert! freepaddr <? lastpaddr;
  let cm_end := u32 (lastpaddr - freepaddr) / PAGE_SIZE in
  if PADDR_TO_KVADDR firstpaddr =? 0 then Halt Panic
  else
    let cm := (fun i => cm_init_entry freepaddr (Z.of_nat i)) <$> seq 0 (Z.to_nat cm_end) in
    Done (r', mk_cm cm cm_end freepaddr true).

(** [coremap[i].free = x] and [coremap[i].length = x]. *)
Definition put_free (i x : Z) (cm : list cm_entry) : exec (list cm_entry) :=
  e ← rd cm i; wr cm i (set_free x e).
Definition put_length (i x : Z) (cm : list cm_entry) : exec (list cm_entry) :=
  e ← rd cm i; wr cm i (set_length x e).

(** The scan of [cm_getppages] from entry [i], [n] entries to go. *)
Fixpoint cm_scan (n : nat) (i free_count block_start npages : Z) (cm : list cm_entry)
  : exec (list cm_entry * Z) :=
  match n with
  | O => Done (cm, 0)
  | S n' =>
      e ← rd cm i;
      if negb (free e =? 0) then
        let free_count := free_count + 1 in
        let block_start := if free_count =? 1 then i else block_start in
        if free_count =? npages then
          cm1 ← put_length block_start npages cm;
          cm2 ← for_range block_start (i + 1) (fun j => put_free j 0) cm1;
          b ← rd cm2 block_start;
          Done (cm2, p_addr b)
        else cm_scan n' (i + 1) free_count block_start npages cm
      else cm_scan n' (i + 1) 0 block_start npages cm
  end.

Definition cm_getppages (s : cm_state) (npages : Z) : exec (cm_state * Z) :=
  assert! coremap_ready s;
  '(cm, pa) ← cm_scan (Z.to_nat (cm_end s)) 0 0 0 npages (coremap s);
  Done (mk_cm cm (cm_end s) (freepaddr s) (coremap_ready s), pa).

(** [for (i = cm_index; i < coremap[cm_index].length; i++)]: only [free]
    fields change, so the bound is the length on entry. *)
Definition cm_freekpages (s : cm_state) (addr : Z) : exec cm_state :=
  let p_address := KVADDR_TO_PADDR addr in
  let cm_index := s32 (u32 (p_address - freepaddr s) / PAGE_SIZE) in
  assert! u32 cm_index <? cm_end s;
  e ← rd (coremap s) cm_index;
  assert! 0 <? length e;
  cm1 ← for_range cm_index (length e) (fun i => put_free i 1) (coremap s);
  cm2 ← put_length cm_index 0 cm1;
  Done (mk_cm cm2 (cm_end s) (freepaddr s) (coremap_ready s)).

(** [alloc_kpages] and [free_kpages] of [vm.c]. *)
Definition alloc_kpages (s : cm_state) (npages : Z) : exec (cm_state * Z) :=
  '(s', pa) ← cm_getppages s npages;
  Done (s', if pa =? 0 then 0 else PADDR_TO_KVADDR pa).

Definition free_kpages (s : cm_state) (addr : Z) : exec cm_state := cm_freekpages s addr.

(** ** Well-formedness *)

(** Pages are numbered from [freepaddr], below the 512M of kseg0. *)
Definition cm_wf (s : cm_state) : Prop :=
  coremap_ready s = true /\
  0 < freepaddr s /\ freepaddr s mod PAGE_SIZE = 0 /\
  0 <= cm_end s /\ freepaddr s + cm_end s * PAGE_SIZE <= 2 ^ 29 /\
  Z.of_nat (List.length (coremap s)) = cm_end s /\
  forall i e, coremap s !! i = Some e ->
    p_addr e = freepaddr s + Z.of_nat i * PAGE_SIZE /\ (free e = 0 \/ free e = 1).

Definition page_free (cm : list cm_entry) (i : Z) : bool :=
  match cm !! Z.to_nat i with Some e => negb (free e =? 0) | None => false end.

(** Entries [lo .. hi-1] are all free. *)
Definition run_free (cm : list cm_entry) (lo hi : Z) : Prop :=
  forall j, lo <= j < hi -> page_free cm j = true.

(** Entries [lo .. hi-1] get their [free] field set to [x]. *)
Definition free_range (lo hi x : Z) (cm : list cm_entry) : list cm_entry :=
  imap (fun j e => if (lo <=? Z.of_nat j) && (Z.of_nat j <? hi) then set_free x e else e) cm.

(** The effect of a successful allocation of [np] pages at entry [b]. *)
Definition occupy (b np : Z) (cm : list cm_entry) : list cm_entry :=
  free_range b (b + np) 0 (alter (set_length np) (Z.to_nat b) cm).

(** The effect of freeing the run that starts at entry [b]: only entries up to
    the run's length, counted from 0, become free. *)
Definition release (b len : Z) (cm : list cm_entry) : list cm_entry :=
  alter (set_length 0) (Z.to_nat b) (free_range b len 1 cm).

Lemma free_range_length lo hi x cm : List.length (free_range lo hi x cm) = List.length cm.
Proof. apply length_imap. Qed.

Lemma free_range_lookup lo hi x cm j :
  free_range lo hi x cm !! j =
  (fun e => if (lo <=? Z.of_nat j) && (Z.of_nat j <? hi) then set_free x e else e) <$> cm !! j.
Proof. apply list_lookup_imap. Qed.

Lemma put_length_spec i x cm :
  0 <= i < Z.of_nat (List.length cm) ->
  put_length i x cm = Done (alter (set_length x) (Z.to_nat i) cm).
Proof.
  intros Hi. unfold put_length.
  destruct (lookup_lt_is_Some_2 cm (Z.to_nat i)) as [e He]; [lia|].
  rewrite (rd_Done _ _ e) by (done || lia). run. rewrite wr_Done by done.
  f_equal. apply list_eq. intros j. destruct (decide (j = Z.to_nat i)) as [->|].
  - rewrite list_lookup_insert_eq by lia. by rewrite list_lookup_alter_eq, He.
  - by rewrite list_lookup_insert_ne, list_lookup_alter_ne by done.
Qed.

Lemma put_free_range_spec lo hi x cm :
  0 <= lo -> hi <= Z.of_nat (List.length cm) ->
  for_range lo hi (fun j => put_free j x) cm = Done (free_range lo hi x cm).
Proof.
  intros Hlo Hhi. destruct (Z.le_gt_cases lo hi) as [Hle|Hgt].
  - destruct (for_range_ind (fun i c => c = free_range lo i x cm)
      (fun j => put_free j x) lo hi cm) as (c & -> & ->); [done| | |done].
    + apply list_eq. intros j. rewrite free_range_lookup.
      destruct (cm !! j); simpl; [|done]. repeat case_bool; done.
    + intros j c Hj ->. unfold put_free.
      destruct (lookup_lt_is_Some_2 (free_range lo j x cm) (Z.to_nat j)) as [e He];
        [rewrite free_range_length; lia|].
      rewrite (rd_Done _ _ e) by (done || lia). run.
      rewrite wr_Done by (rewrite free_range_length; lia). eexists. split; [done|].
      apply list_eq. intros k. rewrite free_range_lookup.
      destruct (decide (k = Z.to_nat j)) as [->|Hk].
      * rewrite list_lookup_insert_eq by (rewrite free_range_length; lia).
        rewrite free_range_lookup in He. rewrite Z2Nat.id in * by lia.
        destruct (cm !! Z.to_nat j) as [e0|]; simpl in *; [|done].
        repeat case_bool_in He; repeat case_bool. by injection He as <-.
      * rewrite list_lookup_insert_ne by done. rewrite free_range_lookup.
        destruct (cm !! k); simpl; [|done]. repeat case_bool; done.
  - unfold for_range. replace (Z.to_nat (hi - lo)) with 0%nat by lia. simpl.
    f_equal. apply list_eq. intros j. rewrite free_range_lookup.
    destruct (cm !! j); simpl; [|done]. repeat case_bool; done.
Qed.

Lemma page_free_lookup cm i e :
  cm !! Z.to_nat i = Some e -> page_free cm i = negb (free e =? 0).
Proof. unfold page_free. by intros ->. Qed.

(** The scan finds the first run of [np] free pages, if any. *)
Lemma cm_scan_spec n i fc bs np cm :
  0 <= fc < np -> fc <= i -> (0 < fc -> bs = i - fc) ->
  i + Z.of_nat n = Z.of_nat (List.length cm) ->
  run_free cm (i - fc) i -> (fc < i -> page_free cm (i - fc - 1) = false) ->
  (forall k, 0 <= k -> k + np <= i -> ~ run_free cm k (k + np)) ->
  (exists b e,
     0 <= b /\ b + np <= Z.of_nat (List.length cm) /\ run_free cm b (b + np) /\
     (forall k, 0 <= k < b -> ~ run_free cm k (k + np)) /\
     cm !! Z.to_nat b = Some e /\
     cm_scan n i fc bs np cm = Done (occupy b np cm, p_addr e)) \/
  (cm_scan n i fc bs np cm = Done (cm, 0) /\
   forall k, 0 <= k -> k + np <= Z.of_nat (List.length cm) -> ~ run_free cm k (k + np)).
Proof.
  revert i fc bs; induction n as [|n IH]; intros i fc bs Hfc Hi Hbs Hn Hrun Hstop Hnone;
    cbn [cm_scan].
  - right. split; [done|]. intros k Hk1 Hk2. apply Hnone; lia.
  - destruct (lookup_lt_is_Some_2 cm (Z.to_nat i)) as [e He]; [lia|].
    rewrite (rd_Done _ _ e) by (done || lia). run.
    pose proof (page_free_lookup cm i e He) as Hpf.
    destruct (free e =? 0); simpl in Hpf.
    + apply IH; try lia.
      * intros j Hj. lia.
      * intros _. by replace (i + 1 - 0 - 1) with i by lia.
      * intros k Hk1 Hk2 Hr. destruct (Z.eq_dec (k + np) (i + 1)) as [E|].
        { specialize (Hr i ltac:(lia)). congruence. }
        apply (Hnone k); [lia|lia|done].
    + set (bs' := if fc + 1 =? 1 then i else bs).
      assert (bs' = i + 1 - (fc + 1)) as Ebs by (subst bs'; case_bool).
      clearbody bs'. subst bs'.
      assert (run_free cm (i + 1 - (fc + 1)) (i + 1)) as Hrun'.
      { intros j Hj. destruct (Z.eq_dec j i) as [->|]; [done|]. apply Hrun. lia. }
      assert (forall k, 0 <= k -> k + np <= i -> ~ run_free cm k (k + np)) as Hnone' by done.
      case_bool.
      * left. set (b := i + 1 - (fc + 1)) in *.
        destruct (lookup_lt_is_Some_2 cm (Z.to_nat b)) as [eb Heb]; [lia|].
        exists b, eb. split_and!; [lia|lia| | |done|].
        { by replace (b + np) with (i + 1) by lia. }
        { intros k Hk Hr. destruct (Z.eq_dec k (b - 1)) as [->|].
          - specialize (Hstop ltac:(lia)). specialize (Hr (b - 1) ltac:(lia)).
            replace (i - fc - 1) with (b - 1) in Hstop by lia. congruence.
          - apply (Hnone k); [lia|lia|done]. }
        rewrite put_length_spec by lia. run.
        rewrite put_free_range_spec by (rewrite ?length_alter; lia). run.
        replace (i + 1) with (b + np) by lia. fold (occupy b np cm).
        assert (occupy b np cm !! Z.to_nat b = Some (set_free 0 (set_length np eb))) as Hb.
        { unfold occupy. rewrite free_range_lookup, list_lookup_alter_eq, Heb. simpl.
          repeat case_bool. done. }
        by rewrite (rd_Done (occupy b np cm) b _ ltac:(lia) Hb).
      * apply IH; try lia; try done.
        { intros ?. replace (i + 1 - (fc + 1) - 1) with (i - fc - 1) by lia. apply Hstop. lia. }
        { intros k Hk1 Hk2 Hr. destruct (Z.eq_dec (k + np) (i + 1)) as [E|].
          - specialize (Hr (i - fc - 1) ltac:(lia)). rewrite Hstop in Hr by lia. done.
          - apply (Hnone k); [lia|lia|done]. }
Qed.

(** ** Invariant: the recorded runs are in use and disjoint *)

Definition block_at (s : cm_state) (b L : Z) : Prop :=
  0 <= b /\ 0 < L /\ exists e, coremap s !! Z.to_nat b = Some e /\ length e = L.

Definition cm_inv (s : cm_state) : Prop :=
  cm_wf s /\
  (forall b L, block_at s b L ->
     b + L <= cm_end s /\ forall j, b <= j < b + L -> page_free (coremap s) j = false) /\
  (forall b1 L1 b2 L2, block_at s b1 L1 -> block_at s b2 L2 -> b1 <> b2 ->
     b1 + L1 <= b2 \/ b2 + L2 <= b1).

Definition page_vaddr (s : cm_state) (b : Z) : Z := freepaddr s + b * PAGE_SIZE + MIPS_KSEG0.

Lemma page_free_occupy b np cm j :
  0 <= b -> 0 <= j ->
  page_free (occupy b np cm) j = page_free cm j && negb ((b <=? j) && (j <? b + np)).
Proof.
  intros Hb Hj. unfold page_free, occupy. rewrite free_range_lookup, Z2Nat.id by lia.
  destruct (decide (Z.to_nat b = Z.to_nat j)) as [E|E].
  - rewrite <- E, list_lookup_alter_eq. destruct (cm !! Z.to_nat b); simpl; [|done].
    repeat case_bool; rewrite ?andb_true_r, ?andb_false_r; done.
  - rewrite list_lookup_alter_ne by done. destruct (cm !! Z.to_nat j); simpl; [|done].
    repeat case_bool; rewrite ?andb_true_r, ?andb_false_r; done.
Qed.

Lemma page_free_release b L cm j :
  0 <= b -> 0 <= j -> j < Z.of_nat (List.length cm) ->
  page_free (release b L cm) j = page_free cm j || ((b <=? j) && (j <? L)).
Proof.
  intros Hb Hj Hlen. unfold page_free, release.
  destruct (lookup_lt_is_Some_2 cm (Z.to_nat j)) as [e He]; [lia|].
  destruct (decide (Z.to_nat b = Z.to_nat j)) as [E|E].
  - rewrite <- E in *. rewrite list_lookup_alter_eq, free_range_lookup, He. simpl.
    rewrite Z2Nat.id by lia.
    repeat case_bool; rewrite ?orb_true_r, ?orb_false_r; try done; exfalso; lia.
  - rewrite list_lookup_alter_ne, free_range_lookup, He by done. simpl. rewrite Z2Nat.id by lia.
    repeat case_bool; rewrite ?orb_true_r, ?orb_false_r; done.
Qed.

(** Only [free] and [length] fields change, and [free] stays 0 or 1. *)
Lemma occupy_entry b np cm j e' :
  occupy b np cm !! j = Some e' ->
  exists e, cm !! j = Some e /\ p_addr e' = p_addr e /\
    (free e' = free e \/ free e' = 0) /\
    length e' = if decide (j = Z.to_nat b) then np else length e.
Proof.
  unfold occupy. rewrite free_range_lookup. intros (e1 & E & ->)%fmap_Some.
  destruct (decide (j = Z.to_nat b)) as [->|].
  - rewrite list_lookup_alter_eq in E. apply fmap_Some in E as (e & He & ->).
    exists e. split; [done|]. destruct (_ && _); simpl; split_and!; auto.
  - rewrite list_lookup_alter_ne in E by done. exists e1. split; [done|].
    destruct (_ && _); simpl; split_and!; auto.
Qed.

Lemma release_entry b L cm j e' :
  release b L cm !! j = Some e' ->
  exists e, cm !! j = Some e /\ p_addr e' = p_addr e /\
    (free e' = free e \/ free e' = 1) /\
    length e' = if decide (j = Z.to_nat b) then 0 else length e.
Proof.
  unfold release. destruct (decide (j = Z.to_nat b)) as [->|].
  - rewrite list_lookup_alter_eq, free_range_lookup. intros (e1 & E & ->)%fmap_Some.
    apply fmap_Some in E as (e & He & ->). exists e. split; [done|].
    destruct (_ && _); simpl; split_and!; auto.
  - rewrite list_lookup_alter_ne by done. rewrite free_range_lookup.
    intros (e & He & ->)%fmap_Some. exists e. split; [done|].
    destruct (_ && _); simpl; split_and!; auto.
Qed.

Lemma occupy_length b np cm : List.length (occupy b np cm) = List.length cm.
Proof. unfold occupy. by rewrite free_range_length, length_alter. Qed.

Lemma release_length b L cm : List.length (release b L cm) = List.length cm.
Proof. unfold release. by rewrite length_alter, free_range_length. Qed.

Definition with_map (s : cm_state) (cm : list cm_entry) : cm_state :=
  mk_cm cm (cm_end s) (freepaddr s) (coremap_ready s).

Lemma cm_wf_occupy s b np : cm_wf s -> cm_wf (with_map s (occupy b np (coremap s))).
Proof.
  intros (? & ? & ? & ? & ? & Hl & He). unfold cm_wf; simpl. rewrite occupy_length.
  split_and!; try done. intros i e' E. apply occupy_entry in E as (e & E & -> & Hf & _).
  destruct (He _ _ E) as [-> Hf']. split; [done|]. destruct Hf as [->| ->]; auto.
Qed.

Lemma cm_wf_release s b L : cm_wf s -> cm_wf (with_map s (release b L (coremap s))).
Proof.
  intros (? & ? & ? & ? & ? & Hl & He). unfold cm_wf; simpl. rewrite release_length.
  split_and!; try done. intros i e' E. apply release_entry in E as (e & E & -> & Hf & _).
  destruct (He _ _ E) as [-> Hf']. split; [done|]. destruct Hf as [->| ->]; auto.
Qed.

Lemma block_at_occupy s b np b' L' :
  0 <= b -> block_at (with_map s (occupy b np (coremap s))) b' L' ->
  (b' = b /\ L' = np) \/ (b' <> b /\ block_at s b' L').
Proof.
  intros Hb (Hb' & HL & e' & E & <-). simpl in E.
  apply occupy_entry in E as (e & E & _ & _ & Hlen). rewrite Hlen in *.
  destruct (decide (Z.to_nat b' = Z.to_nat b)) as [Heq|].
  - left. split; [lia|done].
  - right. split; [congruence|]. split_and!; [done|done|by exists e].
Qed.

Lemma block_at_release s b L b' L' :
  0 <= b -> block_at (with_map s (release b L (coremap s))) b' L' ->
  b' <> b /\ block_at s b' L'.
Proof.
  intros Hb (Hb' & HL & e' & E & <-). simpl in E.
  apply release_entry in E as (e & E & _ & _ & Hlen). rewrite Hlen in *.
  destruct (decide (Z.to_nat b' = Z.to_nat b)) as [Heq|]; [lia|].
  split; [congruence|]. split_and!; [done|done|by exists e].
Qed.

Lemma block_at_start_used s b L : cm_inv s -> block_at s b L -> page_free (coremap s) b = false.
Proof. intros (_ & Hb & _) H. destruct (Hb _ _ H) as [_ Hu]. apply Hu. destruct H. lia. Qed.

Lemma cm_inv_occupy s b np :
  cm_inv s -> 0 <= b -> 0 < np -> b + np <= cm_end s ->
  run_free (coremap s) b (b + np) ->
  cm_inv (with_map s (occupy b np (coremap s))).
Proof.
  intros Hinv Hb Hnp Hend Hrun. pose proof Hinv as (Hwf & Hblk & Hdis).
  assert (forall b' L', block_at s b' L' -> b' + L' <= b \/ b + np <= b') as Hsep.
  { intros b' L' H'. destruct (Hblk _ _ H') as [_ Hu]. pose proof H' as (? & ? & _).
    destruct (Z.le_gt_cases (b' + L') b), (Z.le_gt_cases (b + np) b'); auto. exfalso.
    specialize (Hu (Z.max b b') ltac:(lia)). specialize (Hrun (Z.max b b') ltac:(lia)).
    congruence. }
  split_and!; [by apply cm_wf_occupy| |].
  - intros b' L' H'. pose proof H' as (? & ? & _). apply block_at_occupy in H'; [|done]. simpl.
    destruct H' as [[-> ->]|[Hne H']].
    + split; [done|]. intros j Hj. rewrite page_free_occupy by lia.
      repeat case_bool; by rewrite andb_false_r.
    + destruct (Hblk _ _ H') as [? Hu]. split; [done|]. intros j Hj.
      rewrite page_free_occupy by lia. by rewrite Hu.
  - intros b1 L1 b2 L2 H1 H2 Hne.
    apply block_at_occupy in H1, H2; [|done..].
    destruct H1 as [[-> ->]|[? H1]], H2 as [[-> ->]|[? H2]]; [done| | |by eapply Hdis].
    + destruct (Hsep _ _ H2); auto.
    + destruct (Hsep _ _ H1); auto.
Qed.

Lemma cm_inv_release s b L :
  cm_inv s -> block_at s b L -> cm_inv (with_map s (release b L (coremap s))).
Proof.
  intros Hinv HbL. pose proof Hinv as (Hwf & Hblk & Hdis). pose proof HbL as (Hb & HL & _).
  split_and!; [by apply cm_wf_release| |].
  - intros b' L' H'. apply block_at_release in H' as [Hne H']; [|done].
    destruct (Hblk _ _ H') as [? Hu]. split; [done|]. intros j Hj. pose proof H' as (? & ? & _).
    simpl. pose proof Hwf as (_ & _ & _ & _ & _ & Hlen & _).
    rewrite page_free_release by lia. rewrite Hu by done. simpl.
    destruct (Hdis _ _ _ _ HbL H' ltac:(done)); repeat case_bool; done.
  - intros b1 L1 b2 L2 H1 H2. apply block_at_release in H1 as [_ H1], H2 as [_ H2]; [|done..].
    by apply Hdis.
Qed.

Lemma cm_pages_bound s : cm_wf s -> cm_end s < 2 ^ 17.
Proof. unfold cm_wf, PAGE_SIZE. lia. Qed.

Lemma cm_freekpages_spec s b L :
  cm_inv s -> block_at s b L ->
  cm_freekpages s (page_vaddr s b) = Done (with_map s (release b L (coremap s))).
Proof.
  intros (Hwf & Hblk & _) HbL. pose proof (Hblk _ _ HbL) as [Hend _].
  pose proof (cm_pages_bound s Hwf). pose proof Hwf as (? & ? & ? & ? & ? & Hlen & _).
  destruct HbL as (Hb & HL & e & He & Hel).
  assert (s32 (u32 (KVADDR_TO_PADDR (page_vaddr s b) - freepaddr s) / PAGE_SIZE) = b) as Hidx.
  { unfold KVADDR_TO_PADDR, page_vaddr, PAGE_SIZE, MIPS_KSEG0 in *.
    rewrite (u32_small (_ - 0x80000000)), u32_small by lia.
    replace (_ - freepaddr s) with (b * 4096) by lia. rewrite Z.div_mul by lia.
    unfold s32. rewrite u32_small by lia. case_bool; done. }
  unfold cm_freekpages. rewrite Hidx. rewrite u32_small by lia. unfold assert. case_bool.
  rewrite (rd_Done _ _ e) by (done || lia). run. rewrite Hel. case_bool.
  rewrite put_free_range_spec by lia. run.
  by rewrite put_length_spec by (rewrite free_range_length; lia).
Qed.

Lemma block_at_occupied s b np e :
  0 <= b -> 0 < np -> coremap s !! Z.to_nat b = Some e ->
  block_at (with_map s (occupy b np (coremap s))) b np.
Proof.
  intros Hb Hnp He. split_and!; [done|done|]. simpl. unfold occupy.
  rewrite free_range_lookup, list_lookup_alter_eq, He. simpl. eexists. split; [done|].
  by destruct (_ && _).
Qed.

Lemma block_at_kept s b np b' L' :
  cm_inv s -> 0 <= b -> 0 < np -> run_free (coremap s) b (b + np) ->
  block_at s b' L' -> block_at (with_map s (occupy b np (coremap s))) b' L'.
Proof.
  intros Hinv Hb Hnp Hrun H'. pose proof (block_at_start_used s b' L' Hinv H') as Hused.
  destruct H' as (? & ? & e' & He' & HL'). split_and!; [done..|]. simpl. unfold occupy.
  rewrite free_range_lookup, list_lookup_alter_ne.
  - rewrite He'. simpl. eexists. split; [done|]. by destruct (_ && _).
  - intros E. replace b' with b in Hused by lia. rewrite Hrun in Hused by lia. done.
Qed.

(** The allocation as a state transformer. *)
Lemma cm_getppages_spec s np :
  cm_inv s -> 0 < np ->
  (exists b, 0 <= b /\ b + np <= cm_end s /\ freepaddr s + b * PAGE_SIZE <> 0 /\
     run_free (coremap s) b (b + np) /\
     (forall k, 0 <= k < b -> ~ run_free (coremap s) k (k + np)) /\
     cm_inv (with_map s (occupy b np (coremap s))) /\
     block_at (with_map s (occupy b np (coremap s))) b np /\
     cm_getppages s np =
       Done (with_map s (occupy b np (coremap s)), freepaddr s + b * PAGE_SIZE)) \/
  (cm_getppages s np = Done (s, 0) /\
   forall k, 0 <= k -> k + np <= cm_end s -> ~ run_free (coremap s) k (k + np)).
Proof.
  intros Hinv Hnp. pose proof Hinv as (Hwf & Hblk & Hdis).
  pose proof Hwf as (Hready & Hfp & _ & Hend & _ & Hlen & Hent).
  unfold cm_getppages. rewrite Hready. run.
  destruct (cm_scan_spec (Z.to_nat (cm_end s)) 0 0 0 np (coremap s))
    as [(b & e & Hb & Hbn & Hrun & Hfirst & He & ->)|[-> Hnone]];
    try lia; try (by intros ? ?; lia).
  - left. exists b. destruct (Hent _ _ He) as [-> _]. rewrite Z2Nat.id by lia.
    unfold with_map at 3. rewrite Hready.
    split_and!; try (done || lia).
    + unfold PAGE_SIZE. lia.
    + apply cm_inv_occupy; (done || lia).
    + by eapply block_at_occupied.
  - right. split; [destruct s; simpl in *; by subst|]. intros k Hk1 Hk2. apply Hnone; lia.
Qed.

(** [cm_getppages] is a correct first-fit allocator of contiguous pages: for
    a positive request it returns the address of the lowest run of [np] free
    pages, marks exactly that run used, records its length and keeps every
    existing run intact and disjoint; it returns 0, changing nothing, only if
    no such run exists. *)
Theorem cm_getppages_first_fit s np :
  cm_inv s -> 0 < np ->
  exists s' pa, cm_getppages s np = Done (s', pa) /\ cm_inv s' /\
    ((exists b, 0 <= b /\ b + np <= cm_end s /\ pa = freepaddr s + b * PAGE_SIZE /\ pa <> 0 /\
        run_free (coremap s) b (b + np) /\
        (forall k, 0 <= k < b -> ~ run_free (coremap s) k (k + np)) /\
        block_at s' b np /\
        (forall b' L', block_at s b' L' -> block_at s' b' L') /\
        (forall j, 0 <= j -> page_free (coremap s') j =
           page_free (coremap s) j && negb ((b <=? j) && (j <? b + np)))) \/
     (pa = 0 /\ s' = s /\
      forall k, 0 <= k -> k + np <= cm_end s -> ~ run_free (coremap s) k (k + np))).
Proof.
  intros Hinv Hnp.
  destruct (cm_getppages_spec s np Hinv Hnp)
    as [(b & Hb & Hbn & Hpa & Hrun & Hfirst & Hinv' & Hblk & ->)|[-> Hnone]].
  - eexists _, _. split; [reflexivity|]. split; [done|]. left. exists b. split_and!; try done.
    + intros b' L'. by apply block_at_kept.
    + intros j Hj. by apply page_free_occupy.
  - eexists _, _. split; [reflexivity|]. split; [done|]. by right.
Qed.

(** What [kfree] of whole pages gives back: after [alloc_kpages s np] has
    returned the run at entry [b], [free_kpages] frees the entries from [b] to
    [np - 1] only.  The pages from entry [max b np] to [b + np - 1] stay marked
    used although no run records them, so [min b np] pages are lost for good;
    only a run at the bottom of the coremap is given back entirely. *)
Theorem alloc_free_leaks s np s1 va :
  cm_inv s -> 0 < np -> alloc_kpages s np = Done (s1, va) -> va <> 0 ->
  exists b s2, 0 <= b /\ va = page_vaddr s b /\ free_kpages s1 va = Done s2 /\ cm_inv s2 /\
    (forall L, ~ block_at s2 b L) /\
    (forall j, 0 <= j < cm_end s ->
       page_free (coremap s2) j =
       page_free (coremap s) j && negb ((Z.max b np <=? j) && (j <? b + np))).
Proof.
  intros Hinv Hnp Hall Hva. unfold alloc_kpages in Hall.
  pose proof Hinv as ((_ & Hfp & _ & Hend & Htop & Hlen & _) & _).
  destruct (cm_getppages_spec s np Hinv Hnp)
    as [(b & Hb & Hbn & Hpa & Hrun & _ & Hinv' & Hblk & E)|[E _]];
    rewrite E in Hall; simpl in Hall; [|by injection Hall].
  destruct (Z.eqb_spec (freepaddr s + b * PAGE_SIZE) 0); [done|]. injection Hall as <- Hva'.
  assert (va = page_vaddr (with_map s (occupy b np (coremap s))) b) as Eva.
  { subst va. unfold page_vaddr, PADDR_TO_KVADDR, MIPS_KSEG0, PAGE_SIZE in *. simpl.
    rewrite u32_small by lia. lia. }
  exists b. eexists. split; [done|]. split; [exact Eva|]. rewrite Eva. unfold free_kpages.
  rewrite (cm_freekpages_spec _ b np) by done.
  split; [done|]. split; [by apply cm_inv_release|]. split.
  - intros L HL. by apply block_at_release in HL as [? _].
  - intros j Hj. simpl. rewrite page_free_release by (rewrite ?occupy_length; lia).
    rewrite page_free_occupy by lia.
    destruct (page_free (coremap s) j) eqn:Ej; simpl.
    + repeat case_bool; done.
    + destruct ((b <=? j) && (j <? np)) eqn:Er; [|done]. exfalso.
      apply andb_prop in Er as [?%Z.leb_le ?%Z.ltb_lt].
      rewrite (Hrun j) in Ej by lia. done.
Qed.

Lemma ROUNDUP_page n : 0 < n -> n + PAGE_SIZE < 2 ^ 32 ->
  n <= ROUNDUP n PAGE_SIZE < n + PAGE_SIZE /\ ROUNDUP n PAGE_SIZE mod PAGE_SIZE = 0.
Proof.
  unfold ROUNDUP, DIVROUNDUP, PAGE_SIZE. intros.
  rewrite (u32_small (n + 4096)), (u32_small (n + 4096 - 1)) by lia.
  rewrite u32_small by zlia. split; [zlia|]. by rewrite Z.mod_mul by lia.
Qed.

(** The coremap the initialisation loop leaves: [n] free pages from [fp]. *)
Definition cm_fresh (fp n : Z) : cm_state :=
  mk_cm ((fun i => cm_init_entry fp (Z.of_nat i)) <$> seq 0 (Z.to_nat n)) n fp true.

Lemma cm_fresh_entry fp n i e : coremap (cm_fresh fp n) !! i = Some e ->
  e = cm_init_entry fp (Z.of_nat i) /\ (i < Z.to_nat n)%nat.
Proof.
  simpl. rewrite list_lookup_fmap. intros (k & Hk & ->)%fmap_Some.
  apply lookup_seq in Hk as [-> ?]. done.
Qed.

Lemma cm_fresh_noblock fp n b L : ~ block_at (cm_fresh fp n) b L.
Proof. intros (? & ? & e & [-> _]%cm_fresh_entry & HL). simpl in HL. lia. Qed.

Lemma cm_fresh_inv fp n : 0 < fp -> fp mod PAGE_SIZE = 0 -> 0 <= n ->
  fp + n * PAGE_SIZE <= 2 ^ 29 ->
  cm_inv (cm_fresh fp n) /\ forall j, 0 <= j < n -> page_free (coremap (cm_fresh fp n)) j = true.
Proof.
  intros Hfp Hal Hn Htop.
  assert (Z.of_nat (List.length (coremap (cm_fresh fp n))) = n) as Hlen.
  { simpl. rewrite length_fmap, length_seq. lia. }
  split.
  - split_and!; [|intros ? ? ?%cm_fresh_noblock; done|intros ? ? ? ? ?%cm_fresh_noblock; done].
    unfold cm_wf. split_and!; try done.
    intros i e [-> Hi]%cm_fresh_entry. unfold cm_init_entry; simpl. split; [|auto].
    rewrite (u32_small (_ * _)), u32_small by (unfold PAGE_SIZE in *; lia). done.
  - intros j Hj. unfold page_free.
    destruct (lookup_lt_is_Some_2 (coremap (cm_fresh fp n)) (Z.to_nat j)) as [e He]; [lia|].
    rewrite He. by apply cm_fresh_entry in He as [-> _].
Qed.

(** Boot: given a page-aligned physical range of at least two pages below
    508M, [cm_bootstrap] establishes the coremap invariant with every managed
    page free; the array it lays over the bottom of the range ends before the
    first managed page, and the managed pages end exactly at the top of RAM. *)
Theorem cm_bootstrap_correct r :
  Ram.firstpaddr r mod PAGE_SIZE = 0 -> Ram.lastpaddr r mod PAGE_SIZE = 0 ->
  0 <= Ram.firstpaddr r -> Ram.firstpaddr r + 2 * PAGE_SIZE <= Ram.lastpaddr r ->
  Ram.lastpaddr r <= 508 * 1024 * 1024 ->
  exists s, cm_bootstrap r = Done (Ram.mk_ram 0 0, s) /\ cm_inv s /\
    Ram.firstpaddr r + cm_end s * sizeof_cm_entry <= freepaddr s /\
    freepaddr s + cm_end s * PAGE_SIZE = Ram.lastpaddr r /\ 0 < cm_end s /\
    (forall j, 0 <= j < cm_end s -> page_free (coremap s) j = true) /\
    (forall b L, ~ block_at s b L).
Proof.
  destruct r as [lo hi]; simpl. intros Hlo Hhi H0 Hroom Htop.
  unfold cm_bootstrap; simpl. rewrite !page_frame by (unfold PAGE_SIZE in *; lia).
  assert (lo / PAGE_SIZE * PAGE_SIZE = lo) as -> by (unfold PAGE_SIZE in *; zlia).
  assert (hi / PAGE_SIZE * PAGE_SIZE = hi) as -> by (unfold PAGE_SIZE in *; zlia).
  unfold assert. rewrite !Z.eqb_refl. rewrite (u32_small (hi - lo)) by (unfold PAGE_SIZE in *; lia).
  set (np := (hi - lo) / PAGE_SIZE). unfold sizeof_cm_entry.
  assert (np * PAGE_SIZE = hi - lo) as Hnp by (subst np; unfold PAGE_SIZE in *; zlia).
  rewrite (u32_small (np * 16)) by (unfold PAGE_SIZE in *; lia).
  destruct (ROUNDUP_page (np * 16)) as [Hsz Hal]; [unfold PAGE_SIZE in *; lia..|].
  set (cs := ROUNDUP (np * 16) PAGE_SIZE) in *. clearbody cs np.
  rewrite (u32_small (lo + cs)) by (unfold PAGE_SIZE in *; lia).
  assert (lo + cs < hi) as Hlt by (unfold PAGE_SIZE in *; zlia).
  case_bool. rewrite (u32_small (hi - (lo + cs))) by (unfold PAGE_SIZE in *; lia).
  unfold PADDR_TO_KVADDR at 1. rewrite u32_small by (unfold PAGE_SIZE, MIPS_KSEG0 in *; lia).
  destruct (Z.eqb_spec (lo + MIPS_KSEG0) 0) as [E|_]; [unfold MIPS_KSEG0 in E; lia|].
  set (n := (hi - (lo + cs)) / PAGE_SIZE).
  assert (n * PAGE_SIZE = hi - (lo + cs)) as Hn by (subst n; unfold PAGE_SIZE in *; zlia).
  clearbody n. fold (cm_fresh (lo + cs) n).
  destruct (cm_fresh_inv (lo + cs) n) as [Hinv Hfree]; try (unfold PAGE_SIZE in *; zlia).
  eexists. split; [reflexivity|].
  split_and!; try done; simpl; try (unfold PAGE_SIZE in *; lia).
  apply cm_fresh_noblock.
Qed.

#[export] Instance coremap_page_alloc : PageAlloc cm_state := {
  pa_alloc := alloc_kpages;
  pa_free := free_kpages;
  pa_inv := cm_inv;
  pa_block s va n := exists b, va = page_vaddr s b /\ block_at s b n
}.

Lemma page_vaddr_inj s b b' : page_vaddr s b = page_vaddr s b' -> b = b'.
Proof. unfold page_vaddr, PAGE_SIZE. lia. Qed.

(** No run of zero or fewer pages is ever found. *)
Lemma cm_scan_nonpos n i fc bs np cm :
  np <= 0 -> 0 <= fc -> 0 <= i -> i + Z.of_nat n = Z.of_nat (List.length cm) ->
  cm_scan n i fc bs np cm = Done (cm, 0).
Proof.
  intros Hnp. revert i fc bs; induction n as [|n IH]; intros i fc bs Hfc Hi Hn; cbn [cm_scan]; [done|].
  destruct (rd_lt cm i) as [e ->]; [lia|]. run.
  destruct (free e =? 0); [apply IH; lia|].
  destruct (Z.eqb_spec (fc + 1) np); [lia|]. apply IH; lia.
Qed.

Lemma block_at_length s b L L' : block_at s b L -> block_at s b L' -> L = L'.
Proof. intros (_ & _ & e & E & <-) (_ & _ & e' & E' & <-). congruence. Qed.

Lemma block_at_occupy_iff s b np b' L' :
  cm_inv s -> 0 <= b -> 0 < np -> run_free (coremap s) b (b + np) -> b + np <= cm_end s ->
  block_at (with_map s (occupy b np (coremap s))) b' L' <->
  block_at s b' L' \/ (b' = b /\ L' = np).
Proof.
  intros Hinv Hb Hnp Hrun Hend. split.
  - intros [?|[_ ?]]%block_at_occupy; [by right|by left|done].
  - intros [H|[-> ->]]; [by apply block_at_kept|].
    destruct (lookup_lt_is_Some_2 (coremap s) (Z.to_nat b)) as [e He];
      [destruct Hinv as ((_ & _ & _ & _ & _ & ? & _) & _); lia|].
    by apply (block_at_occupied _ _ _ e).
Qed.

Lemma block_at_release_iff s b L b' L' :
  0 <= b -> block_at (with_map s (release b L (coremap s))) b' L' <->
  block_at s b' L' /\ b' <> b.
Proof.
  intros Hb. split; [by intros [? ?]%block_at_release|].
  intros [(Hb' & Hm & e & He & Hl) Hne]. split_and!; [done..|]. simpl. unfold release.
  rewrite list_lookup_alter_ne by lia.
  rewrite free_range_lookup, He. simpl. eexists. split; [done|]. by destruct (_ && _).
Qed.

(** *** Runs of physical pages, as the users of [cm_getppages] see them *)

Definition phys_run (s : cm_state) (pa n : Z) : Prop :=
  exists b, pa = freepaddr s + b * PAGE_SIZE /\ block_at s b n.

Definition apart (pa n pa' n' : Z) : Prop :=
  pa + n * PAGE_SIZE <= pa' \/ pa' + n' * PAGE_SIZE <= pa.

Lemma phys_run_range s pa n : cm_inv s -> phys_run s pa n ->
  0 < n /\ 0 < pa /\ pa mod PAGE_SIZE = 0 /\ pa + n * PAGE_SIZE <= 2 ^ 29.
Proof.
  intros (Hwf & Hblk & _) (b & -> & Hb). destruct (Hblk _ _ Hb) as [Hend _].
  destruct Hb as (? & ? & _). destruct Hwf as (_ & ? & Hal & ? & ? & _).
  unfold PAGE_SIZE in *. split_and!; try lia. zlia.
Qed.

Lemma phys_run_apart s pa n pa' n' : cm_inv s -> phys_run s pa n -> phys_run s pa' n' ->
  pa = pa' /\ n = n' \/ apart pa n pa' n'.
Proof.
  intros (_ & _ & Hdis) (b1 & -> & H1) (b2 & -> & H2).
  destruct (decide (b1 = b2)) as [->|Hne]; [left; eauto using block_at_length|right].
  destruct (Hdis _ _ _ _ H1 H2 Hne); [left|right]; unfold PAGE_SIZE; lia.
Qed.

(** No [n] contiguous pages are free. *)
Definition no_run (s : cm_state) (n : Z) : Prop :=
  forall k, 0 <= k -> k + n <= cm_end s -> ~ run_free (coremap s) k (k + n).

Lemma cm_getppages_run s n : cm_inv s -> 0 < n ->
  exists s' pa, cm_getppages s n = Done (s', pa) /\ cm_inv s' /\
    (pa = 0 /\ s' = s /\ no_run s n \/
     pa <> 0 /\ phys_run s' pa n /\
     forall a m, phys_run s a m -> phys_run s' a m /\ apart a m pa n).
Proof.
  intros Hinv Hn. pose proof Hinv as ((Hr & Hfp & _ & Hend & Htop & Hlen & _) & Hblk & _).
  destruct (cm_getppages_spec s n Hinv Hn)
    as [(b & Hb & Hbn & Hpa & Hrun & _ & Hinv' & Hnew & ->)|[-> Hnone]];
    (eexists _, _; split; [done|]; split; [done|]); [right|by left].
  split; [done|]. split; [by exists b|]. intros a m (b' & -> & H').
  assert (phys_run (with_map s (occupy b n (coremap s))) (freepaddr s + b' * PAGE_SIZE) m) as Hk.
  { exists b'. split; [done|]. by apply block_at_kept. }
  split; [done|]. destruct (phys_run_apart _ _ _ (freepaddr s + b * PAGE_SIZE) n Hinv' Hk)
    as [[E _]|?]; [by exists b| |done].
  assert (b' = b) as -> by (unfold PAGE_SIZE in *; lia).
  apply block_at_start_used in H'; [|done]. rewrite Hrun in H' by lia. done.
Qed.

Lemma alloc_kpages_spec s n : cm_inv s -> 0 <= n ->
  (exists b, 0 < n /\ 0 <= b /\ b + n <= cm_end s /\ run_free (coremap s) b (b + n) /\
     alloc_kpages s n = Done (with_map s (occupy b n (coremap s)), page_vaddr s b)) \/
  alloc_kpages s n = Done (s, 0).
Proof.
  intros Hinv Hn. pose proof Hinv as ((Hr & Hfp & _ & Hend & Htop & Hlen & _) & _).
  unfold alloc_kpages. destruct (Z.eq_dec n 0) as [->|].
  { right. unfold cm_getppages. rewrite Hr. run. rewrite cm_scan_nonpos by lia. run. destruct s; simpl in *; by subst. }
  destruct (cm_getppages_spec s n Hinv ltac:(lia))
    as [(b & Hb & Hbn & Hpa & Hrun & _ & _ & _ & ->)|[-> _]]; run; [left|by right].
  exists b. split_and!; [lia|lia|lia|done|].
  destruct (Z.eqb_spec (freepaddr s + b * PAGE_SIZE) 0); [done|]. do 2 f_equal.
  unfold page_vaddr, PADDR_TO_KVADDR, MIPS_KSEG0, PAGE_SIZE in *. rewrite u32_small; lia.
Qed.

(** The coremap keeps the promises of the interface. *)
#[export] Instance coremap_page_alloc_ok : PageAllocOk cm_state.
Proof.
  split; simpl.
  - intros s n Hinv Hn. pose proof Hinv as ((_ & Hfp & _) & _).
    destruct (alloc_kpages_spec s n Hinv Hn) as [(b & Hn' & Hb & Hbn & Hrun & ->)| ->].
    + assert (page_vaddr s b <> 0) by (unfold page_vaddr, PAGE_SIZE, MIPS_KSEG0; lia).
      eexists _, _. split; [done|]. split; [by apply cm_inv_occupy|]. split; [split; [done|]|].
      * intros m (b' & E%page_vaddr_inj & H'). subst b'.
        apply block_at_start_used in H'; [|done]. rewrite Hrun in H' by lia. done.
      * intros a m. setoid_rewrite block_at_occupy_iff; [|done..].
        unfold page_vaddr; simpl. naive_solver.
    + eexists _, _. split; [done|]. naive_solver.
  - intros s va n Hinv (b & -> & Hb). unfold free_kpages.
    rewrite (cm_freekpages_spec s b n) by done. eexists. split; [done|].
    split; [by apply cm_inv_release|]. intros a m. destruct Hb as [? _].
    setoid_rewrite block_at_release_iff; [|done]. split.
    + intros (b' & -> & ? & ?). split; [by exists b'|]. intros ?%(page_vaddr_inj s). done.
    + intros [(b' & -> & ?) Hne]. exists b'. split_and!; [done..|]. by intros ->.
  - intros s va n (Hwf & Hblk & _) (b & -> & Hb). destruct (Hblk _ _ Hb) as [Hend _].
    destruct Hb as (? & ? & _). destruct Hwf as (_ & ? & Hal & ? & ? & _).
    unfold page_vaddr, PAGE_SIZE, MIPS_KSEG0 in *. split_and!; try zlia.
  - intros s a n b m (Hwf & Hblk & Hdis) (b1 & -> & H1) (b2 & -> & H2).
    destruct (decide (b1 = b2)) as [->|Hne]; [left; eauto using block_at_length|right].
    destruct (Hdis _ _ _ _ H1 H2 Hne); [left|right]; unfold page_vaddr, PAGE_SIZE; lia.
Qed.

End Coremap.

Import Coremap.

(** A coremap of four free pages at physical address 0x20000. *)
Definition ex_cm : cm_state := cm_fresh 0x20000 4.

Lemma ex_cm_inv : cm_inv ex_cm.
Proof. apply cm_fresh_inv; (done || unfold PAGE_SIZE; lia). Qed.

Lemma cm_getppages_first_fit_witness :
  exists s' pa, cm_getppages ex_cm 2 = Done (s', pa) /\ cm_inv s' /\ pa = 0x20000.
Proof.
  destruct (cm_getppages_first_fit ex_cm 2 ex_cm_inv ltac:(lia)) as (s' & pa & E & Hinv & _).
  exists s', pa. split; [exact E|]. split; [exact Hinv|]. vm_compute in E. by injection E as _ <-.
Defined.

(** The same coremap with its first two pages handed out. *)
Definition ex_cm2 : cm_state := with_map ex_cm (occupy 0 2 (coremap ex_cm)).

Lemma ex_cm2_inv : cm_inv ex_cm2.
Proof.
  apply cm_inv_occupy; [apply ex_cm_inv|lia|lia|simpl; lia|].
  intros j Hj. assert (j = 0 \/ j = 1) as [->| ->] by lia; reflexivity.
Qed.

(** A page allocated at entry 2 and freed stays used. *)
Lemma alloc_free_leaks_witness :
  exists s1 va s2, alloc_kpages ex_cm2 1 = Done (s1, va) /\ free_kpages s1 va = Done s2 /\
    page_free (coremap ex_cm2) 2 = true /\ page_free (coremap s2) 2 = false.
Proof.
  destruct (alloc_free_leaks ex_cm2 1 (with_map ex_cm2 (occupy 2 1 (coremap ex_cm2)))
    0x80022000 ex_cm2_inv ltac:(lia) eq_refl ltac:(discriminate))
    as (b & s2 & _ & _ & Hfree & _).
  do 3 eexists. split; [reflexivity|]. split; [exact Hfree|]. split; [reflexivity|].
  vm_compute in Hfree. injection Hfree as <-. reflexivity.
Defined.

Lemma cm_bootstrap_correct_witness :
  exists s, cm_bootstrap (Ram.mk_ram 0x20000 0x80000) = Done (Ram.mk_ram 0 0, s) /\ cm_inv s.
Proof.
  destruct (cm_bootstrap_correct (Ram.mk_ram 0x20000 0x80000)) as (s & E & Hinv & _);
    unfold PAGE_SIZE; simpl; try (reflexivity || lia).
  by exists s.
Defined.
