(* ===== verification/Kheap.v ===== *)
(** * The kernel heap ([kern/lib/kheap.c])

    [kmalloc] and [kfree]: whole pages for large requests, and for the rest a
    pool of pages, each cut into blocks of one of eight sizes and with its own
    free list threaded through the free blocks.  The page allocator below is
    reached through the interface [PageAlloc].  Kernel memory is a function
    from addresses to 32-bit words; only the free-list links and the filling of
    freed blocks are stored in it.

    The heap runs with interrupts off ([splhigh]), so each operation is one
    atomic step; the consistency checks under [SLOW] and [SLOWER] are compiled
    out. *)

From Stdlib Require Import ZArith Lia Bool.
From stdpp Require Import base list numbers sets.
From S2P Require Import Prelude.
From S2P Require Import Coremap.

Module Kheap.

Definition NSIZES : Z := 8.
Definition sizes : list Z := [16; 32; 64; 128; 256; 512; 1024; 2048].
Definition LARGEST_SUBPAGE_SIZE : Z := 2048.
Definition INVALID_OFFSET : Z := 0xffff.

(** Pointers to pagerefs are indices into the array [pagerefs]. *)
Record pageref : Type := mk_pageref {
  next_samesize : option Z;
  next_all : option Z;
  pageaddr_and_blocktype : Z;
  freelist_offset : Z;
  nfree : Z
}.

Definition PR_PAGEADDR (pr : pageref) : Z := Z.land (pageaddr_and_blocktype pr) PAGE_FRAME.
Definition PR_BLOCKTYPE (pr : pageref) : Z := Z.land (pageaddr_and_blocktype pr) 0xfff.
Definition MKPAB (pa blk : Z) : Z := Z.lor (Z.land pa PAGE_FRAME) (Z.land blk 0xfff).

Definition NPAGEREFS : Z := 256.
Definition INUSE_WORDS : Z := 8.

Section heap.
Context {PS : Type} `{PageAlloc PS}.

Record heap : Type := mk_heap {
  pagerefs : list pageref;
  pagerefs_inuse : list Z;
  sizebases : list (option Z);
  allbase : option Z;
  word : Z -> Z;
  pages : PS
}.

Definition set_pagerefs (h : heap) x : heap :=
  mk_heap x (pagerefs_inuse h) (sizebases h) (allbase h) (word h) (pages h).
Definition set_inuse (h : heap) x : heap :=
  mk_heap (pagerefs h) x (sizebases h) (allbase h) (word h) (pages h).
Definition set_bases (h : heap) x y : heap :=
  mk_heap (pagerefs h) (pagerefs_inuse h) x y (word h) (pages h).
Definition set_word (h : heap) x : heap :=
  mk_heap (pagerefs h) (pagerefs_inuse h) (sizebases h) (allbase h) x (pages h).
Definition set_pages (h : heap) x : heap :=
  mk_heap (pagerefs h) (pagerefs_inuse h) (sizebases h) (allbase h) (word h) x.

(** [( u_int32_t * )a = x] *)
Definition store (a x : Z) (w : Z -> Z) : Z -> Z := fun b => if b =? a then x else w b.

Definition fill_deadbeef (w : Z -> Z) (ptr len : Z) : exec (Z -> Z) :=
  for_range 0 (len / 4) (fun i w => Done (store (ptr + 4 * i) 0xdeadbeef w)) w.

(** *** Allocation of pagerefs *)

(** The loop [for (k=1,j=0; k!=0; k<<=1,j++)]: the first clear bit of [w]. *)
Fixpoint find_clear (fuel : nat) (k j w : Z) : exec (option (Z * Z)) :=
  match fuel with
  | O => Halt Fuel
  | S f =>
      if k =? 0 then Done None
      else if Z.land w k =? 0 then Done (Some (j, k))
      else find_clear f (u32 (Z.shiftl k 1)) (j + 1) w
  end.

Fixpoint allocpageref_from (n : nat) (i : Z) (h : heap) : exec (heap * option Z) :=
  match n with
  | O => Done (h, None)
  | S n' =>
      w ← rd (pagerefs_inuse h) i;
      if w =? 0xffffffff then allocpageref_from n' (i + 1) h
      else
        r ← find_clear 33 1 0 w;
        match r with
        | Some (j, k) =>
            l ← wr (pagerefs_inuse h) i (Z.lor w k);
            Done (set_inuse h l, Some (i * 32 + j))
        | None => Halt Assertion
        end
  end.

Definition allocpageref (h : heap) : exec (heap * option Z) :=
  allocpageref_from (Z.to_nat INUSE_WORDS) 0 h.

Definition freepageref (h : heap) (j : Z) : exec heap :=
  assert! u32 j <? NPAGEREFS;
  let i := j / 32 in
  let k := Z.shiftl 1 (j mod 32) in
  w ← rd (pagerefs_inuse h) i;
  assert! negb (Z.land w k =? 0);
  l ← wr (pagerefs_inuse h) i (Z.ldiff w k);
  Done (set_inuse h l).

(** *** Lists of pagerefs *)

(** Enough steps for any of the lists: they hold each pageref at most once. *)
Definition list_fuel : nat := 257.

Definition set_next_samesize (x : option Z) (pr : pageref) : pageref :=
  mk_pageref x (next_all pr) (pageaddr_and_blocktype pr) (freelist_offset pr) (nfree pr).
Definition set_next_all (x : option Z) (pr : pageref) : pageref :=
  mk_pageref (next_samesize pr) x (pageaddr_and_blocktype pr) (freelist_offset pr) (nfree pr).
Definition set_free (off nf : Z) (pr : pageref) : pageref :=
  mk_pageref (next_samesize pr) (next_all pr) (pageaddr_and_blocktype pr) off nf.

(** The loop [for (guy = &base; *guy; guy = &( *guy)->next)] that unlinks [pr]:
    [guy] is [&base] when [pos] is [None], [&pagerefs[q].next] when it is
    [Some q]; [get] and [set] access the field [next]. *)
Fixpoint unlink (get : pageref -> option Z) (set : option Z -> pageref -> pageref)
    (fuel : nat) (refs : list pageref) (base pos : option Z) (pr : Z)
  : exec (list pageref * option Z) :=
  match fuel with
  | O => Halt Fuel
  | S f =>
      g ← match pos with None => Done base | Some q => get <$> rd refs q end;
      match g with
      | None => Done (refs, base)
      | Some q =>
          if q =? pr then
            p ← rd refs pr;
            match pos with
            | None => Done (refs, get p)
            | Some q' =>
                e ← rd refs q';
                refs' ← wr refs q' (set (get p) e);
                Done (refs', base)
            end
          else unlink get set f refs base (Some q) pr
      end
  end.

Definition remove_lists (h : heap) (pr blktype : Z) : exec heap :=
  assert! (0 <=? blktype) && (blktype <? NSIZES);
  sb ← rd (sizebases h) blktype;
  '(refs1, sb') ← unlink next_samesize set_next_samesize list_fuel (pagerefs h) sb None pr;
  sbs ← wr (sizebases h) blktype sb';
  '(refs2, ab) ← unlink next_all set_next_all list_fuel refs1 (allbase h) None pr;
  Done (set_bases (set_pagerefs h refs2) sbs ab).

(** *** Block types *)

Fixpoint blocktype_from (n : nat) (i sz : Z) : exec Z :=
  match n with
  | O => Halt Panic
  | S n' => x ← rd sizes i; if sz <=? x then Done i else blocktype_from n' (i + 1) sz
  end.

Definition blocktype (sz : Z) : exec Z := blocktype_from (Z.to_nat NSIZES) 0 sz.

(** *** [subpage_kmalloc] *)

(** The loop over the pages of one size, up to a page with a free block. *)
Fixpoint find_room (fuel : nat) (h : heap) (blktype : Z) (pr : option Z) : exec (option Z) :=
  match fuel with
  | O => Halt Fuel
  | S f =>
      match pr with
      | None => Done None
      | Some j =>
          p ← rd (pagerefs h) j;
          assert! PR_BLOCKTYPE p =? blktype;
          if nfree p >? 0 then Done (Some j) else find_room f h blktype (next_samesize p)
      end
  end.

(** From the label [doalloc]: take the first free block of page [j]. *)
Definition doalloc (h : heap) (j : Z) : exec (heap * Z) :=
  pr ← rd (pagerefs h) j;
  assert! freelist_offset pr <? PAGE_SIZE;
  let prpage := PR_PAGEADDR pr in
  let retptr := u32 (prpage + freelist_offset pr) in
  let fl := word h retptr in
  let nf := u16 (nfree pr - 1) in
  if negb (fl =? 0) then
    assert! nf >? 0;
    assert! u32 (fl - prpage) <? PAGE_SIZE;
    refs ← wr (pagerefs h) j (set_free (u16 (u32 (fl - prpage))) nf pr);
    Done (set_pagerefs h refs, retptr)
  else
    assert! nf =? 0;
    refs ← wr (pagerefs h) j (set_free INVALID_OFFSET nf pr);
    Done (set_pagerefs h refs, retptr).

(** Threading the free list through a fresh page: the loop's state is the
    memory and [fl]. *)
Definition thread_blocks (w : Z -> Z) (fla sz n : Z) : exec ((Z -> Z) * Z) :=
  for_range 1 n
    (fun i '(w, _) =>
       let fl := u32 (fla + u32 (i * sz)) in
       let w' := store fl (u32 (fla + u32 ((i - 1) * sz))) w in
       assert! negb (fl =? w' fl);
       Done (w', fl))
    (store fla 0 w, fla).

(** "Make a new one": a page of blocks of type [blktype], entered in both lists. *)
Definition new_page (h : heap) (blktype sz pr prpage : Z) : exec heap :=
  let nf := u16 (PAGE_SIZE / sz) in
  '(w, fl) ← thread_blocks (word h) prpage sz nf;
  let off := u16 (u32 (fl - prpage)) in
  assert! off =? u32 ((nf - 1) * sz);
  sb ← rd (sizebases h) blktype;
  refs ← wr (pagerefs h) pr (mk_pageref sb (allbase h) (MKPAB prpage blktype) off nf);
  sbs ← wr (sizebases h) blktype (Some pr);
  Done (set_bases (set_word (set_pagerefs h refs) w) sbs (Some pr)).

Definition subpage_kmalloc (h : heap) (sz : Z) : exec (heap * Z) :=
  blktype ← blocktype sz;
  sz ← rd sizes blktype;
  sb ← rd (sizebases h) blktype;
  r ← find_room list_fuel h blktype sb;
  match r with
  | Some j => doalloc h j
  | None =>
      '(h1, opr) ← allocpageref h;
      match opr with
      | None => Done (h1, 0)
      | Some pr =>
          '(s, prpage) ← pa_alloc (pages h1) 1;
          let h2 := set_pages h1 s in
          if prpage =? 0 then h3 ← freepageref h2 pr; Done (h3, 0)
          else h3 ← new_page h2 blktype sz pr prpage; doalloc h3 pr
      end
  end.

(** *** [subpage_kfree] *)

(** The loop over all pages, up to the one that holds [ptraddr]. *)
Fixpoint find_page (fuel : nat) (h : heap) (ptraddr : Z) (pr : option Z) : exec (option Z) :=
  match fuel with
  | O => Halt Fuel
  | S f =>
      match pr with
      | None => Done None
      | Some j =>
          p ← rd (pagerefs h) j;
          assert! (0 <=? PR_BLOCKTYPE p) && (PR_BLOCKTYPE p <? NSIZES);
          if (ptraddr >=? PR_PAGEADDR p) && (ptraddr <? u32 (PR_PAGEADDR p + PAGE_SIZE))
          then Done (Some j) else find_page f h ptraddr (next_all p)
      end
  end.

(** The result is the function's return value, 0 or -1. *)
Definition subpage_kfree (h : heap) (ptraddr : Z) : exec (heap * Z) :=
  r ← find_page list_fuel h ptraddr (allbase h);
  match r with
  | None => Done (h, -1)
  | Some j =>
      pr ← rd (pagerefs h) j;
      let prpage := PR_PAGEADDR pr in
      let blktype := PR_BLOCKTYPE pr in
      let offset := u32 (ptraddr - prpage) in
      sz ← rd sizes blktype;
      if (offset >=? PAGE_SIZE) || negb (offset mod sz =? 0) then Halt Panic
      else
        w ← fill_deadbeef (word h) ptraddr sz;
        let fla := u32 (prpage + offset) in
        let next := if freelist_offset pr =? INVALID_OFFSET then 0
                    else u32 (prpage + freelist_offset pr) in
        let nf := u16 (nfree pr + 1) in
        refs ← wr (pagerefs h) j (set_free (u16 offset) nf pr);
        let h1 := set_pagerefs (set_word h (store fla next w)) refs in
        assert! nf <=? PAGE_SIZE / sz;
        if nf =? PAGE_SIZE / sz then
          h2 ← remove_lists h1 j blktype;
          s ← pa_free (pages h2) prpage;
          h3 ← freepageref (set_pages h2 s) j;
          Done (h3, 0)
        else Done (h1, 0)
  end.

(** *** The interface *)

Definition kmalloc (h : heap) (sz : Z) : exec (heap * Z) :=
  if sz >=? LARGEST_SUBPAGE_SIZE then
    let npages := u32 (u32 (sz + PAGE_SIZE) - 1) / PAGE_SIZE in
    '(s, address) ← pa_alloc (pages h) npages;
    Done (set_pages h s, address)
  else subpage_kmalloc h sz.

Definition kfree (h : heap) (ptr : Z) : exec heap :=
  if ptr =? 0 then Done h
  else
    '(h1, r) ← subpage_kfree h ptr;
    if r =? 0 then Done h1
    else
      assert! ptr mod PAGE_SIZE =? 0;
      s ← pa_free (pages h1) ptr;
      Done (set_pages h1 s).

(** ** Representation *)

Arguments list_fuel : simpl never.

(** [l] are the indices along the links [nx] from [p]. *)
Fixpoint chain (nx : pageref -> option Z) (refs : list pageref) (p : option Z) (l : list Z) : Prop :=
  match l with
  | [] => p = None
  | j :: r => p = Some j /\ exists pr, rd refs j = Done pr /\ chain nx refs (nx pr) r
  end.

(** The free blocks [fl] of the page at [pg] are linked in this order. *)
Fixpoint linked (w : Z -> Z) (pg sz : Z) (fl : list Z) : Prop :=
  match fl with
  | [] => True
  | b :: r =>
      w (pg + b * sz) = (match r with [] => 0 | b' :: _ => pg + b' * sz end) /\ linked w pg sz r
  end.

Definition inuse_bit (l : list Z) (j : Z) : bool :=
  match rd l (j / 32) with Done w => Z.testbit w (j mod 32) | Halt _ => false end.

(** A page of the pool: of type [t], at [pg], with the free blocks [fl]. *)
Record page_ok (w : Z -> Z) (pr : pageref) (t sz pg : Z) (fl : list Z) : Prop := {
  po_type : PR_BLOCKTYPE pr = t;
  po_size : rd sizes t = Done sz;
  po_page : PR_PAGEADDR pr = pg;
  po_nodup : NoDup fl;
  po_range b : b ∈ fl -> 0 <= b < PAGE_SIZE / sz;
  po_nfree : nfree pr = Z.of_nat (length fl);
  po_head : freelist_offset pr = match fl with [] => INVALID_OFFSET | b :: _ => b * sz end;
  po_linked : linked w pg sz fl
}.

(** The ghost view of a heap: the pagerefs in use, most recent first, and for
    each its block type, block size, page address and free blocks. *)
Record view : Type := mk_view {
  v_refs : list Z;
  v_type : Z -> Z;
  v_size : Z -> Z;
  v_page : Z -> Z;
  v_free : Z -> list Z
}.

Record heap_rep (h : heap) (v : view) : Prop := {
  hr_refs_len : length (pagerefs h) = 256%nat;
  hr_inuse_len : length (pagerefs_inuse h) = 8%nat;
  hr_inuse_word i w : rd (pagerefs_inuse h) i = Done w -> 0 <= w < 2 ^ 32;
  hr_bases_len : length (sizebases h) = 8%nat;
  hr_nodup : NoDup (v_refs v);
  hr_range j : j ∈ v_refs v -> 0 <= j < 256;
  hr_inuse j : 0 <= j < 256 -> (inuse_bit (pagerefs_inuse h) j = true <-> j ∈ v_refs v);
  hr_all : chain next_all (pagerefs h) (allbase h) (v_refs v);
  hr_same t b : rd (sizebases h) t = Done b ->
    chain next_samesize (pagerefs h) b (filter (fun j => v_type v j = t) (v_refs v));
  hr_page j pr : j ∈ v_refs v -> rd (pagerefs h) j = Done pr ->
    page_ok (word h) pr (v_type v j) (v_size v j) (v_page v j) (v_free v j);
  hr_block j : j ∈ v_refs v -> pa_block (pages h) (v_page v j) 1;
  hr_page_inj j k : j ∈ v_refs v -> k ∈ v_refs v -> v_page v j = v_page v k -> j = k;
  hr_pages : pa_inv (pages h)
}.

(** Between operations no page is entirely free: it would have been released. *)
Definition heap_ok (h : heap) (v : view) : Prop :=
  heap_rep h v /\
  forall j, j ∈ v_refs v -> Z.of_nat (length (v_free v j)) < PAGE_SIZE / v_size v j.

(** The live blocks: a used block of a pool page, or a run of pages that is not
    a pool page. *)
Definition live (ps : PS) (v : view) (a n : Z) : Prop :=
  (exists j b, j ∈ v_refs v /\ 0 <= b < PAGE_SIZE / v_size v j /\ ~ (b ∈ v_free v j) /\
     a = v_page v j + b * v_size v j /\ n = v_size v j) \/
  (exists m, pa_block ps a m /\ n = m * PAGE_SIZE /\ forall j, j ∈ v_refs v -> v_page v j <> a).

(** ** Facts about sizes, types and page addresses *)

Lemma sizes_spec t sz : rd sizes t = Done sz ->
  0 <= t < 8 /\ sz = 2 ^ (4 + t) /\ PAGE_SIZE / sz * sz = PAGE_SIZE /\ 16 <= sz <= 2048 /\
  sz mod 4 = 0 /\ 2 <= PAGE_SIZE / sz <= 256.
Proof.
  intros [Ht E]%rd_inv. simpl in Ht.
  assert (t = 0 \/ t = 1 \/ t = 2 \/ t = 3 \/ t = 4 \/ t = 5 \/ t = 6 \/ t = 7) as Hc by lia.
  unfold PAGE_SIZE.
  destruct Hc as [->|[->|[->|[->|[->|[->|[->| ->]]]]]]]; injection E as <-; vm_compute;
    split_and!; try reflexivity; discriminate.
Qed.

Lemma blocktype_spec sz : 0 <= sz <= 2048 ->
  exists t s, blocktype sz = Done t /\ rd sizes t = Done s /\ sz <= s.
Proof.
  intros Hsz. unfold blocktype, NSIZES. change (Z.to_nat 8) with 8%nat. simpl.
  repeat match goal with |- context [sz <=? ?x] =>
    destruct (Z.leb_spec sz x); [eexists _, x; split; [done|]; split; [reflexivity|done]|] end.
  lia.
Qed.

(** A page address and a block type are recovered from their packed form. *)
Lemma MKPAB_spec pg t nx na off nf : 0 <= pg < 2 ^ 32 -> pg mod PAGE_SIZE = 0 -> 0 <= t < 8 ->
  PR_PAGEADDR (mk_pageref nx na (MKPAB pg t) off nf) = pg /\
  PR_BLOCKTYPE (mk_pageref nx na (MKPAB pg t) off nf) = t.
Proof.
  intros Hpg Hal Ht. unfold PR_PAGEADDR, PR_BLOCKTYPE, MKPAB; simpl.
  change 0xfff with (Z.ones 12).
  assert (Z.land t (Z.ones 12) = t) as -> by (rewrite Z.land_ones, Z.mod_small; lia).
  rewrite !Z.land_lor_distr_l.
  assert (Z.land t PAGE_FRAME = 0) as ->.
  { rewrite page_frame by lia. rewrite Z.div_small by (unfold PAGE_SIZE; lia). done. }
  assert (Z.land pg PAGE_FRAME = pg) as ->.
  { rewrite page_frame by lia. unfold PAGE_SIZE in *. zlia. }
  rewrite page_frame by lia. rewrite !Z.land_ones by lia.
  rewrite Z.lor_0_r. split; [unfold PAGE_SIZE in *; zlia|].
  replace (pg mod 2 ^ 12) with 0 by (unfold PAGE_SIZE in Hal; change (2 ^ 12) with 4096; lia).
  rewrite Z.mod_small by lia. done.
Qed.

(** ** Chains *)

Lemma chain_ext nx refs refs' p l :
  (forall j pr, j ∈ l -> rd refs j = Done pr ->
     exists pr', rd refs' j = Done pr' /\ nx pr' = nx pr) ->
  chain nx refs p l -> chain nx refs' p l.
Proof.
  revert p; induction l as [|j l IH]; intros p Hext; simpl; [done|].
  intros (-> & pr & Hpr & Hc). split; [done|].
  destruct (Hext j pr) as (pr' & ? & E); [left|done|].
  exists pr'. split; [done|]. rewrite E. apply IH; [|done]. intros k prk Hk. apply Hext. by right.
Qed.

(** Writing one entry without changing its link. *)
Lemma chain_wr nx refs refs' p l j pr pr' :
  rd refs j = Done pr -> wr refs j pr' = Done refs' -> (j ∈ l -> nx pr' = nx pr) ->
  chain nx refs p l -> chain nx refs' p l.
Proof.
  intros Hj Hw Hnx. apply chain_ext. intros k prk Hk Hprk.
  rewrite (rd_wr _ _ _ _ _ Hw). destruct (decide (k = j)) as [->|]; [|by eauto].
  exists pr'. rewrite Hj in Hprk. injection Hprk as <-. by rewrite Hnx.
Qed.

Lemma chain_elem nx refs p l j : chain nx refs p l -> j ∈ l -> exists pr, rd refs j = Done pr.
Proof.
  revert p; induction l as [|k l IH]; intros p; simpl; [by intros _ ?%elem_of_nil|].
  intros (_ & pr & Hpr & Hc) [->|Hj]%elem_of_cons; [by exists pr|by eapply IH].
Qed.

(** Two sets of pagerefs that differ in the links [set] writes only. *)
Definition same_but (set : option Z -> pageref -> pageref) (refs refs' : list pageref) : Prop :=
  length refs' = length refs /\
  forall k e, rd refs k = Done e ->
    exists e', rd refs' k = Done e' /\ (e' = e \/ exists x, e' = set x e).

Lemma same_but_refl set refs : same_but set refs refs.
Proof. split; [done|]. intros k e ?. exists e. auto. Qed.

Section unlink.
Context (get : pageref -> option Z) (set : option Z -> pageref -> pageref).
Context (get_set : forall x e, get (set x e) = x).

Lemma unlink_spec fuel refs base pos p l1 pr l2 :
  (length l1 < fuel)%nat -> NoDup (l1 ++ pr :: l2) ->
  match pos with
  | None => base = p
  | Some q => ~ (q ∈ l1 ++ pr :: l2) /\ exists e, rd refs q = Done e /\ get e = p
  end ->
  chain get refs p (l1 ++ pr :: l2) ->
  exists refs' base' p', unlink get set fuel refs base pos pr = Done (refs', base') /\
    same_but set refs refs' /\
    chain get refs' p' (l1 ++ l2) /\
    match pos with
    | None => base' = p'
    | Some q => base' = base /\ exists e, rd refs' q = Done e /\ get e = p'
    end /\
    (forall k, ~ (k ∈ l1) -> Some k <> pos -> rd refs' k = rd refs k).
Proof.
  revert fuel pos p; induction l1 as [|j l1 IH]; intros [|fuel] pos p Hf Hnd Hpos Hc;
    simpl in Hf; try lia; cbn [unlink].
  - destruct Hc as (-> & e & He & Hc).
    destruct pos as [q|].
    + destruct Hpos as [Hq (eq & Heq & Hget)]. rewrite Heq. run. rewrite Hget, Z.eqb_refl, He.
      run. apply rd_inv in Heq as Hr. destruct Hr as [Hr _].
      destruct (wr_lt refs q (set (get e) eq)) as (refs' & Hw & Hlen); [done|].
      rewrite Hw. run. exists refs', base, (get e). split; [done|]. simpl.
      assert (q <> pr /\ ~ (q ∈ l2)) as [Hq1 Hq2].
      { simpl in Hq. rewrite elem_of_cons in Hq. naive_solver. }
      split_and!; try done.
      * split; [done|]. intros k ek Hk. rewrite (rd_wr _ _ _ _ _ Hw).
        destruct (decide (k = q)) as [->|]; [|by eauto]. eexists. split; [done|].
        rewrite Heq in Hk. injection Hk as <-. eauto.
      * by apply (chain_wr _ _ _ _ _ _ _ _ Heq Hw).
      * exists (set (get e) eq). rewrite (rd_wr _ _ _ _ _ Hw), decide_True by done. auto.
      * intros k _ Hk. rewrite (rd_wr _ _ _ _ _ Hw). by rewrite decide_False by congruence.
    + subst base. run. rewrite Z.eqb_refl, He. run. exists refs, (get e), (get e).
      split_and!; try done. apply same_but_refl.
  - destruct Hc as (-> & e & He & Hc).
    assert (match pos with None => Done base | Some q => get <$> rd refs q end = Done (Some j)) as Hg.
    { destruct pos as [q|]; [|by subst]. destruct Hpos as [_ (eq & -> & Hget)]. simpl. by f_equal. }
    rewrite Hg. run. simpl in Hnd. apply list.NoDup_cons in Hnd as [Hj Hnd].
    destruct (Z.eqb_spec j pr) as [->|Hne]; [exfalso; apply Hj; set_solver|].
    destruct (IH fuel (Some j) (get e)) as (refs' & base' & p' & -> & Hsame & Hc' & [-> (e' & He' & Hg')] & Hk);
      [lia|done| |done|].
    { split; [done|]. by exists e. }
    exists refs', base, (Some j). split; [done|]. split; [done|]. split.
    { simpl. split; [done|]. exists e'. by rewrite Hg'. }
    split.
    { destruct pos as [q|]; [|done]. destruct Hpos as [Hq (eq & Heq & Hget)]. split; [done|].
      exists eq. split; [|done]. rewrite Hk; [done| |]; simpl in Hq; rewrite elem_of_cons in Hq;
        [set_solver|]. intros [= ->]. naive_solver. }
    intros k Hkl Hkp. rewrite elem_of_cons in Hkl. apply Hk; [naive_solver|]. intros [= ->]. naive_solver.
Qed.

End unlink.

(** ** The pagerefs in use *)

Lemma find_clear_spec fuel j w : 0 <= j <= 32 -> 33 - j <= Z.of_nat fuel ->
  let r := find_clear fuel (if j <? 32 then 2 ^ j else 0) j w in
  (exists j', j <= j' < 32 /\ r = Done (Some (j', 2 ^ j')) /\ Z.testbit w j' = false) \/
  (r = Done None /\ forall k, j <= k < 32 -> Z.testbit w k = true).
Proof.
  revert j; induction fuel as [|fuel IH]; intros j Hj Hf; simpl; [lia|].
  destruct (Z.ltb_spec j 32) as [Hlt|Hge].
  - assert (0 < 2 ^ j) by lia. destruct (Z.eqb_spec (2 ^ j) 0); [lia|].
    rewrite land_pow2 by lia. destruct (Z.testbit w j) eqn:E; simpl.
    + assert (u32 (Z.shiftl (2 ^ j) 1) = if j + 1 <? 32 then 2 ^ (j + 1) else 0) as ->.
      { rewrite Z.shiftl_mul_pow2 by lia. rewrite <- Z.pow_add_r by lia. unfold u32.
        destruct (Z.ltb_spec (j + 1) 32).
        - apply Z.mod_small. split; [lia|]. apply Z.pow_lt_mono_r; lia.
        - by replace (j + 1) with 32 by lia. }
      destruct (IH (j + 1)) as [(j' & ? & ? & ?)|[-> Hall]]; [lia|lia| |].
      * left. exists j'. split_and!; try done; lia.
      * right. split; [done|]. intros k Hk. destruct (Z.eq_dec k j) as [->|]; [done|apply Hall; lia].
    + left. exists j. split_and!; try done; lia.
  - right. split; [done|]. lia.
Qed.

Definition inuse_ok (l : list Z) : Prop :=
  length l = 8%nat /\ forall i w, rd l i = Done w -> 0 <= w < 2 ^ 32.

Lemma inuse_ok_wr l l' i w : inuse_ok l -> wr l i w = Done l' -> 0 <= w < 2 ^ 32 -> inuse_ok l'.
Proof.
  intros [Hl Hw] E Hb. split.
  - apply wr_inv in E as [_ ->]. by rewrite length_insert.
  - intros i' w'. rewrite (rd_wr _ _ _ _ _ E). destruct (decide (i' = i)) as [->|]; [|apply Hw].
    by intros [= <-].
Qed.

Lemma inuse_bit_wr l l' i w k : wr l i w = Done l' ->
  inuse_bit l' k = if decide (k / 32 = i) then Z.testbit w (k mod 32) else inuse_bit l k.
Proof. intros E. unfold inuse_bit. rewrite (rd_wr _ _ _ _ _ E). by destruct (decide _). Qed.

Lemma allocpageref_from_spec n i h : inuse_ok (pagerefs_inuse h) ->
  0 <= i -> i + Z.of_nat n = 8 ->
  (exists l j, allocpageref_from n i h = Done (set_inuse h l, Some j) /\ inuse_ok l /\
     0 <= j < 256 /\ inuse_bit (pagerefs_inuse h) j = false /\
     forall k, inuse_bit l k = if decide (k = j) then true else inuse_bit (pagerefs_inuse h) k) \/
  allocpageref_from n i h = Done (h, None) /\
  forall k, 32 * i <= k < 256 -> inuse_bit (pagerefs_inuse h) k = true.
Proof.
  intros Hok. revert i; induction n as [|n IH]; intros i Hi Hn; cbn [allocpageref_from].
  { right. split; [done|]. lia. }
  destruct Hok as [Hlen Hword].
  destruct (rd_lt (pagerefs_inuse h) i) as [w Hw]; [lia|]. pose proof (Hword _ _ Hw) as Hb.
  rewrite Hw. run. destruct (Z.eqb_spec w 0xffffffff) as [->|Hne].
  - destruct (IH (i + 1)) as [?|[-> Hall]]; [lia|lia|by left|right]. split; [done|].
    intros k Hk. destruct (Z.eq_dec (k / 32) i) as [<-|]; [|apply Hall; zlia].
    unfold inuse_bit. rewrite Hw. change 0xffffffff with (Z.ones 32).
    apply Z.ones_spec_low. zlia.
  - left. destruct (find_clear_spec 33 0 w) as [(j & Hj & E & Hclear)|[E Hall]]; [lia|lia| |];
      change (if 0 <? 32 then 2 ^ 0 else 0) with 1 in E; rewrite E; run.
    + destruct (wr_lt (pagerefs_inuse h) i (Z.lor w (2 ^ j))) as (l & Hl & _); [lia|].
      rewrite Hl. run. exists l, (i * 32 + j).
      assert ((i * 32 + j) / 32 = i /\ (i * 32 + j) mod 32 = j) as [Hdiv Hmod] by zlia.
      split_and!; try done; try lia.
      * apply (inuse_ok_wr _ _ _ _ (conj Hlen Hword) Hl). by apply (bits_set 32).
      * unfold inuse_bit. by rewrite Hdiv, Hmod, Hw.
      * intros k. rewrite (inuse_bit_wr _ _ _ _ _ Hl).
        destruct (decide (k / 32 = i)) as [Hk|Hk]; [|by rewrite decide_False by (intros ->; done)].
        rewrite lor_pow2 by lia. unfold inuse_bit. rewrite Hk, Hw.
        destruct (decide (k = i * 32 + j)) as [->|Hkj];
          [rewrite Hmod, Z.eqb_refl; apply orb_true_r|].
        destruct (Z.eqb_spec j (k mod 32)); [exfalso; zlia|]. apply orb_false_r.
    + exfalso. apply Hne. change 0xffffffff with (Z.ones 32).
      apply (bits_all 32); [lia|done|]. intros k Hk. apply Hall. lia.
Qed.

Lemma freepageref_spec h j : inuse_ok (pagerefs_inuse h) -> 0 <= j < 256 ->
  inuse_bit (pagerefs_inuse h) j = true ->
  exists l, freepageref h j = Done (set_inuse h l) /\ inuse_ok l /\
    forall k, inuse_bit l k = if decide (k = j) then false else inuse_bit (pagerefs_inuse h) k.
Proof.
  intros Hok Hj Hbit. unfold freepageref, NPAGEREFS. rewrite u32_small by lia.
  destruct (Z.ltb_spec j 256); [|lia]. run. rewrite Z.shiftl_1_l.
  pose proof Hok as [Hlen Hword].
  destruct (rd_lt (pagerefs_inuse h) (j / 32)) as [w Hw]; [zlia|]. rewrite Hw. run.
  unfold inuse_bit in Hbit. rewrite Hw in Hbit.
  rewrite land_pow2, Hbit by zlia. run.
  destruct (wr_lt (pagerefs_inuse h) (j / 32) (Z.ldiff w (2 ^ (j mod 32)))) as (l & Hl & _); [zlia|].
  rewrite Hl. run. exists l. split; [done|]. split.
  - apply (inuse_ok_wr _ _ _ _ Hok Hl), bits_clear; [lia|by eapply Hword].
  - intros k. rewrite (inuse_bit_wr _ _ _ _ _ Hl).
    destruct (decide (k / 32 = j / 32)) as [Hk|Hk]; [|by rewrite decide_False by (intros ->; done)].
    rewrite ldiff_pow2 by zlia. unfold inuse_bit. rewrite Hk, Hw.
    destruct (decide (k = j)) as [->|]; [rewrite Z.eqb_refl; apply andb_false_r|].
    destruct (Z.eqb_spec (j mod 32) (k mod 32)); [exfalso; zlia|]. apply andb_true_r.
Qed.

(** ** Searching the lists *)

Lemma find_room_spec fuel h t p l : (length l < fuel)%nat ->
  chain next_samesize (pagerefs h) p l ->
  (forall j pr, j ∈ l -> rd (pagerefs h) j = Done pr -> PR_BLOCKTYPE pr = t) ->
  (exists j pr, find_room fuel h t p = Done (Some j) /\ j ∈ l /\
     rd (pagerefs h) j = Done pr /\ 0 < nfree pr) \/
  (find_room fuel h t p = Done None /\
   forall j pr, j ∈ l -> rd (pagerefs h) j = Done pr -> nfree pr <= 0).
Proof.
  revert fuel p; induction l as [|j l IH]; intros [|fuel] p Hf Hc Ht; simpl in Hf; try lia;
    cbn [find_room].
  - rewrite Hc. right. split; [done|]. by intros ? ? ?%elem_of_nil.
  - destruct Hc as (-> & pr & Hpr & Hc). rewrite Hpr. run.
    rewrite (Ht j pr), Z.eqb_refl by (done || left). rewrite Z.gtb_ltb.
    destruct (Z.ltb_spec 0 (nfree pr)) as [Hlt|Hle].
    + left. exists j, pr. split_and!; try done. left.
    + destruct (IH fuel (next_samesize pr)) as [(k & prk & -> & ? & ? & ?)|[-> Hall]]; try done.
      * lia.
      * intros k prk Hk. apply Ht. by right.
      * left. exists k, prk. split_and!; try done. by right.
      * right. split; [done|]. intros k prk [->|Hk]%elem_of_cons E; [congruence|by eapply Hall].
Qed.

(** [a] is an address on the page of [pr]. *)
Definition on_page (pr : pageref) (a : Z) : Prop := PR_PAGEADDR pr <= a < PR_PAGEADDR pr + PAGE_SIZE.

Lemma find_page_spec fuel h a p l : (length l < fuel)%nat ->
  chain next_all (pagerefs h) p l ->
  (forall j pr, j ∈ l -> rd (pagerefs h) j = Done pr ->
     0 <= PR_BLOCKTYPE pr < 8 /\ 0 <= PR_PAGEADDR pr < 2 ^ 32 - PAGE_SIZE) ->
  (exists j pr, find_page fuel h a p = Done (Some j) /\ j ∈ l /\
     rd (pagerefs h) j = Done pr /\ on_page pr a) \/
  (find_page fuel h a p = Done None /\
   forall j pr, j ∈ l -> rd (pagerefs h) j = Done pr -> ~ on_page pr a).
Proof.
  unfold on_page.
  revert fuel p; induction l as [|j l IH]; intros [|fuel] p Hf Hc Ht; simpl in Hf; try lia;
    cbn [find_page].
  - rewrite Hc. right. split; [done|]. by intros ? ? ?%elem_of_nil.
  - destruct Hc as (-> & pr & Hpr & Hc). rewrite Hpr. run.
    destruct (Ht j pr) as [Hty Hpg]; [left|done|]. unfold NSIZES.
    do 2 case_bool. rewrite u32_small by (unfold PAGE_SIZE in *; lia). rewrite Z.geb_leb.
    destruct (Z.leb_spec (PR_PAGEADDR pr) a), (Z.ltb_spec a (PR_PAGEADDR pr + PAGE_SIZE)); simpl.
    1: (left; exists j, pr; split_and!; try done; left).
    all: destruct (IH fuel (next_all pr)) as [(k & prk & -> & ? & ? & ?)|[-> Hall]]; try done;
      [lia|intros k prk Hk; apply Ht; by right|left; exists k, prk; split_and!; try (done || lia); by right|].
    all: right; split; [done|]; intros k prk [->|Hk]%elem_of_cons E; [|by eapply Hall].
    all: rewrite Hpr in E; injection E as <-; lia.
Qed.

(** ** Taking a block of a page and putting one back *)

Lemma linked_ext w w' pg sz fl :
  (forall b, b ∈ fl -> w' (pg + b * sz) = w (pg + b * sz)) -> linked w pg sz fl -> linked w' pg sz fl.
Proof.
  induction fl as [|b fl IH]; intros Hext; simpl; [done|]. intros [Hb Hl]. split.
  - rewrite Hext by left. done.
  - apply IH; [|done]. intros b' Hb'. apply Hext. by right.
Qed.

Definition page_addr (pg : Z) : Prop :=
  MIPS_KSEG0 < pg /\ pg mod PAGE_SIZE = 0 /\ pg + PAGE_SIZE <= 0xa0000000.

Lemma block_in_page sz t b : rd sizes t = Done sz -> 0 <= b < PAGE_SIZE / sz ->
  0 <= b * sz /\ b * sz + sz <= PAGE_SIZE.
Proof.
  intros (_ & _ & Hmul & Hsz & _)%sizes_spec Hb. split; [nia|].
  assert ((b + 1) * sz <= PAGE_SIZE / sz * sz) by (apply Z.mul_le_mono_nonneg_r; lia). lia.
Qed.

Lemma u16_small z : 0 <= z < 2 ^ 16 -> u16 z = z.
Proof. apply Z.mod_small. Qed.

Lemma NoDup_bounded_length (l : list Z) n :
  NoDup l -> (forall j, j ∈ l -> 0 <= j < n) -> Z.of_nat (length l) <= Z.max 0 n.
Proof.
  intros Hnd Hr. assert (l ⊆+ seqZ 0 n) as Hs%submseteq_length.
  { apply NoDup_submseteq; [done|]. intros x Hx%Hr. apply elem_of_seqZ. lia. }
  rewrite length_seqZ in Hs. lia.
Qed.

Lemma page_ok_nfree w pr t sz pg fl : page_ok w pr t sz pg fl ->
  Z.of_nat (length fl) <= PAGE_SIZE / sz <= 256.
Proof.
  intros Hp. pose proof (sizes_spec _ _ (po_size _ _ _ _ _ _ Hp)) as (_ & _ & _ & _ & _ & ?).
  pose proof (NoDup_bounded_length fl (PAGE_SIZE / sz) (po_nodup _ _ _ _ _ _ Hp)
    (po_range _ _ _ _ _ _ Hp)). lia.
Qed.

Lemma doalloc_spec h j pr t sz pg b fl :
  rd (pagerefs h) j = Done pr -> page_addr pg -> page_ok (word h) pr t sz pg (b :: fl) ->
  exists off nf refs, let pr' := set_free off nf pr in
    wr (pagerefs h) j pr' = Done refs /\
    doalloc h j = Done (set_pagerefs h refs, pg + b * sz) /\
    page_ok (word h) pr' t sz pg fl.
Proof.
  intros Hj (Hlo & _ & Hhi) Hp. pose proof (page_ok_nfree _ _ _ _ _ _ Hp) as Hn.
  destruct Hp as [Ht Hsz Hpg Hnd Hr Hnf Hoff Hlk]. simpl in Hn, Hoff, Hnf, Hlk.
  destruct Hlk as [Hw Hlk]. apply list.NoDup_cons in Hnd as [Hb Hnd].
  pose proof (Hr b ltac:(left)) as Hb0. pose proof (block_in_page _ _ _ Hsz Hb0) as Hblk.
  pose proof (sizes_spec _ _ Hsz) as (_ & _ & _ & Hsz' & _).
  unfold doalloc. rewrite Hj. run. rewrite Hoff, Hpg.
  destruct (Z.ltb_spec (b * sz) PAGE_SIZE); [|lia].
  unfold MIPS_KSEG0, PAGE_SIZE in *. rewrite (u32_small (pg + b * sz)) by lia.
  rewrite Hw, Hnf. rewrite (u16_small (_ - 1)) by lia. apply rd_inv in Hj as Hjr.
  replace (Z.of_nat (S (length fl)) - 1) with (Z.of_nat (length fl)) by lia.
  destruct fl as [|b' fl]; simpl.
  - change (Z.of_nat 0) with 0. run. destruct (wr_lt (pagerefs h) j (set_free INVALID_OFFSET 0 pr)) as (refs & Hrefs & _); [lia|].
    rewrite Hrefs. run. eexists _, _, refs. split; [done|]. split; [done|]. split; simpl; try done.
    intros b'. by intros ?%elem_of_nil.
  - pose proof (Hr b' ltac:(right; left)) as Hb0'.
    pose proof (block_in_page _ _ _ Hsz Hb0') as Hblk'. unfold PAGE_SIZE in Hblk'.
    destruct (Z.eqb_spec (pg + b' * sz) 0); [lia|]. simpl.
    rewrite (u32_small (pg + b' * sz - pg)) by lia.
    replace (pg + b' * sz - pg) with (b' * sz) by lia. rewrite (u16_small (b' * sz)) by lia.
    destruct (Z.ltb_spec (b' * sz) 4096); [|lia]. run.
    destruct (wr_lt (pagerefs h) j (set_free (b' * sz) (Z.of_nat (S (length fl))) pr))
      as (refs & Hrefs & _); [lia|].
    rewrite Hrefs. run. eexists _, _, refs. split; [done|]. split; [done|]. split; simpl; try done.
    intros b'' Hb''. apply Hr. by right.
Qed.

Section rep.
Context `{!PageAllocOk PS}.

Lemma rep_page_addr h v j : heap_rep h v -> j ∈ v_refs v -> page_addr (v_page v j).
Proof.
  intros Hr Hj. destruct (pa_block_range _ _ _ (hr_pages _ _ Hr) (hr_block _ _ Hr j Hj))
    as (_ & ? & ? & ?). unfold page_addr, PAGE_SIZE in *. split_and!; try done; lia.
Qed.

Lemma rep_pr h v j : heap_rep h v -> j ∈ v_refs v ->
  exists pr, rd (pagerefs h) j = Done pr /\
    page_ok (word h) pr (v_type v j) (v_size v j) (v_page v j) (v_free v j).
Proof.
  intros Hr Hj. destruct (chain_elem _ _ _ _ _ (hr_all _ _ Hr) Hj) as [pr Hpr].
  exists pr. split; [done|]. by eapply hr_page.
Qed.

Lemma rep_size h v j : heap_rep h v -> j ∈ v_refs v -> rd sizes (v_type v j) = Done (v_size v j).
Proof. intros Hr Hj. destruct (rep_pr h v j Hr Hj) as (pr & _ & Hp). apply Hp. Qed.

Lemma rep_refs_length h v : heap_rep h v -> (length (v_refs v) < list_fuel)%nat.
Proof.
  intros Hr. pose proof (NoDup_bounded_length _ _ (hr_nodup _ _ Hr) (hr_range _ _ Hr)).
  unfold list_fuel. lia.
Qed.

(** Blocks of pool pages, used or free, and runs of pages. *)
Definition pool_block (v : view) (j b a n : Z) : Prop :=
  j ∈ v_refs v /\ 0 <= b < PAGE_SIZE / v_size v j /\
  a = v_page v j + b * v_size v j /\ n = v_size v j.

Definition page_run (ps : PS) (v : view) (a n : Z) : Prop :=
  exists m, pa_block ps a m /\ n = m * PAGE_SIZE /\ forall j, j ∈ v_refs v -> v_page v j <> a.

Definition separate (a n a' n' : Z) : Prop := a + n <= a' \/ a' + n' <= a.

Lemma live_cases ps v a n : live ps v a n <->
  (exists j b, pool_block v j b a n /\ ~ (b ∈ v_free v j)) \/ page_run ps v a n.
Proof. unfold live, pool_block, page_run. naive_solver. Qed.

Lemma pool_block_range h v j b a n : heap_rep h v -> pool_block v j b a n ->
  0 < n /\ v_page v j <= a /\ a + n <= v_page v j + PAGE_SIZE.
Proof.
  intros Hr (Hj & Hb & -> & ->). pose proof (rep_size h v j Hr Hj) as Hs.
  pose proof (sizes_spec _ _ Hs) as (_ & _ & _ & ? & _).
  pose proof (block_in_page _ _ _ Hs Hb). lia.
Qed.

Lemma pool_pool h v j b a n j' b' a' n' : heap_rep h v ->
  pool_block v j b a n -> pool_block v j' b' a' n' -> (j = j' /\ b = b') \/ separate a n a' n'.
Proof.
  intros Hr H1 H2. pose proof (pool_block_range h v j b a n Hr H1) as R1.
  pose proof (pool_block_range h v j' b' a' n' Hr H2) as R2. unfold separate.
  destruct H1 as (Hj & Hb & -> & ->), H2 as (Hj' & Hb' & -> & ->).
  destruct (decide (j = j')) as [<-|Hne].
  { destruct (Z.lt_trichotomy b b') as [?|[->|?]]; [right|auto|right]; nia. }
  destruct (pa_disjoint _ _ _ _ _ (hr_pages _ _ Hr) (hr_block _ _ Hr j Hj) (hr_block _ _ Hr j' Hj'))
    as [[E _]|?]; [by apply (hr_page_inj _ _ Hr) in E|lia].
Qed.

Lemma pool_run h v j b a n a' n' : heap_rep h v ->
  pool_block v j b a n -> page_run (pages h) v a' n' -> separate a n a' n'.
Proof.
  intros Hr H1 (m & Hm & -> & Hne). pose proof (pool_block_range h v j b a n Hr H1) as R1.
  destruct H1 as (Hj & _). unfold separate.
  destruct (pa_disjoint _ _ _ _ _ (hr_pages _ _ Hr) (hr_block _ _ Hr j Hj) Hm) as [[E _]|?];
    [by apply Hne in E|lia].
Qed.

Lemma run_run h v a n a' n' : heap_rep h v ->
  page_run (pages h) v a n -> page_run (pages h) v a' n' ->
  0 < n /\ (a = a' /\ n = n' \/ separate a n a' n').
Proof.
  intros Hr (m & Hm & -> & _) (m' & Hm' & -> & _). unfold separate.
  destruct (pa_block_range _ _ _ (hr_pages _ _ Hr) Hm) as [? _]. split; [unfold PAGE_SIZE; lia|].
  destruct (pa_disjoint _ _ _ _ _ (hr_pages _ _ Hr) Hm Hm') as [[E ->]|?]; auto.
Qed.

Lemma separate_sym a n a' n' : separate a n a' n' -> separate a' n' a n.
Proof. unfold separate. lia. Qed.

(** Distinct live blocks do not overlap. *)
Lemma live_disjoint h v a n a' n' : heap_rep h v ->
  live (pages h) v a n -> live (pages h) v a' n' ->
  0 < n /\ (a = a' /\ n = n' \/ separate a n a' n').
Proof.
  intros Hr [(j & b & H1 & _)|H1]%live_cases [(j' & b' & H2 & _)|H2]%live_cases.
  - pose proof (pool_block_range _ _ _ _ _ _ Hr H1). split; [lia|].
    destruct (pool_pool _ _ _ _ _ _ _ _ _ _ Hr H1 H2) as [[<- <-]|?]; [left|by right].
    unfold pool_block in *. naive_solver.
  - pose proof (pool_block_range _ _ _ _ _ _ Hr H1). split; [lia|].
    right. by eapply pool_run.
  - split; [by eapply run_run|]. right. apply separate_sym. by eapply pool_run.
  - by eapply run_run.
Qed.

(** ** One page's free list changes *)

Definition upd_free (v : view) (j : Z) (fl : list Z) : view :=
  mk_view (v_refs v) (v_type v) (v_size v) (v_page v)
    (fun k => if decide (k = j) then fl else v_free v k).

Lemma rep_upd_free h v j pr off nf refs w fl :
  heap_rep h v -> j ∈ v_refs v -> rd (pagerefs h) j = Done pr ->
  wr (pagerefs h) j (set_free off nf pr) = Done refs ->
  page_ok w (set_free off nf pr) (v_type v j) (v_size v j) (v_page v j) fl ->
  (forall k b, k ∈ v_refs v -> k <> j -> b ∈ v_free v k ->
     w (v_page v k + b * v_size v k) = word h (v_page v k + b * v_size v k)) ->
  heap_rep (set_pagerefs (set_word h w) refs) (upd_free v j fl).
Proof.
  intros Hr Hj Hpr Hw Hp Hext. destruct Hr. split; simpl; try done.
  - apply wr_inv in Hw as [_ ->]. by rewrite length_insert.
  - by apply (chain_wr _ _ _ _ _ _ _ _ Hpr Hw).
  - intros t b Hb. apply (chain_wr _ _ _ _ _ _ _ _ Hpr Hw); [done|]. by apply hr_same0.
  - intros k prk Hk. rewrite (rd_wr _ _ _ _ _ Hw). destruct (decide (k = j)) as [->|Hne].
    + intros [= <-]. done.
    + intros Hprk. destruct (hr_page0 k prk Hk Hprk). split; try done.
      eapply linked_ext; [|done]. intros b Hb. by apply Hext.
Qed.

Lemma live_take h v j b fl a n :
  heap_rep h v -> j ∈ v_refs v -> v_free v j = b :: fl ->
  live (pages h) (upd_free v j fl) a n <->
  live (pages h) v a n \/ a = v_page v j + b * v_size v j /\ n = v_size v j.
Proof.
  intros Hr Hj Hf. destruct (rep_pr h v j Hr Hj) as (pr & _ & Hp). rewrite Hf in Hp.
  pose proof (po_range _ _ _ _ _ _ Hp b ltac:(left)) as Hb.
  pose proof (po_nodup _ _ _ _ _ _ Hp) as [Hbf _]%list.NoDup_cons. clear pr Hp.
  unfold live; simpl. split.
  - intros [(k & b' & Hk & Hb' & Hf' & -> & ->)|?]; [|by auto].
    destruct (decide (k = j)) as [->|]; [|by left; left; exists k, b'].
    destruct (decide (b' = b)) as [->|]; [by right|]. left; left. exists j, b'.
    rewrite Hf, elem_of_cons. split_and!; try done; naive_solver.
  - intros [[(k & b' & Hk & Hb' & Hf' & -> & ->)|?]|[-> ->]]; [left|by auto|left].
    + exists k, b'. split_and!; try done; try lia. destruct (decide (k = j)) as [->|]; [|done].
      rewrite Hf, elem_of_cons in Hf'. naive_solver.
    + exists j, b. rewrite decide_True by done. split_and!; try done; lia.
Qed.

Lemma live_put h v j b a n :
  heap_rep h v -> j ∈ v_refs v -> 0 <= b < PAGE_SIZE / v_size v j -> ~ (b ∈ v_free v j) ->
  live (pages h) (upd_free v j (b :: v_free v j)) a n <->
  live (pages h) v a n /\ a <> v_page v j + b * v_size v j.
Proof.
  intros Hr Hj Hb Hbf.
  assert (live (pages h) v (v_page v j + b * v_size v j) (v_size v j)) as Hl
    by (left; exists j, b; auto).
  split.
  - intros Hl'. assert (live (pages h) v a n) as Hla.
    { destruct Hl' as [(k & b' & Hk & Hb' & Hf' & -> & ->)|Hbig]; [left|by right].
      exists k, b'. simpl in *. split_and!; try done; try lia.
      destruct (decide (k = j)) as [->|]; [|done]. rewrite elem_of_cons in Hf'. naive_solver. }
    split; [done|]. intros ->.
    assert (pool_block v j b (v_page v j + b * v_size v j) (v_size v j)) as Hpb by done.
    pose proof (pool_block_range h v _ _ _ _ Hr Hpb).
    destruct Hl' as [(k & b' & Hk & Hb' & Hf' & E & ->)|Hrun]; simpl in *.
    + assert (pool_block v k b' (v_page v j + b * v_size v j) (v_size v k)) as Hpb' by done.
      pose proof (pool_block_range h v _ _ _ _ Hr Hpb').
      destruct (pool_pool _ _ _ _ _ _ _ _ _ _ Hr Hpb Hpb') as [[<- <-]|[?|?]]; [|lia..].
      rewrite decide_True in Hf' by done. apply Hf'. left.
    + pose proof (run_run _ _ _ _ _ _ Hr Hrun Hrun).
      destruct (pool_run _ _ _ _ _ _ _ _ Hr Hpb Hrun); lia.
  - intros [[(k & b' & Hk & Hb' & Hf' & -> & ->)|?] Hne]; [left|by right].
    exists k, b'. simpl. split_and!; try done; try lia.
    destruct (decide (k = j)) as [->|]; [|done]. rewrite elem_of_cons. naive_solver.
Qed.

(** ** A new page *)

(** [n-1, ..., 0]: the free list of a fresh page. *)
Fixpoint down (n : nat) : list Z :=
  match n with O => [] | S m => Z.of_nat m :: down m end.

Lemma down_spec n : length (down n) = n /\ NoDup (down n) /\ forall b, b ∈ down n <-> 0 <= b < Z.of_nat n.
Proof.
  induction n as [|n (IHl & IHn & IHe)]; simpl.
  - split_and!; [done|constructor|]. intros b. rewrite elem_of_nil. lia.
  - split_and!; [by f_equal| |].
    + apply list.NoDup_cons. split; [|done]. rewrite IHe. lia.
    + intros b. rewrite elem_of_cons, IHe. lia.
Qed.

Lemma thread_blocks_spec w pg t sz : rd sizes t = Done sz -> page_addr pg ->
  exists w', thread_blocks w pg sz (PAGE_SIZE / sz) = Done (w', pg + (PAGE_SIZE / sz - 1) * sz) /\
    linked w' pg sz (down (Z.to_nat (PAGE_SIZE / sz))) /\
    forall a, a < pg \/ pg + PAGE_SIZE <= a -> w' a = w a.
Proof.
  intros Hs (Hlo & _ & Hhi). pose proof (sizes_spec _ _ Hs) as (_ & _ & _ & Hsz & _ & Hn).
  unfold thread_blocks.
  match goal with |- context [for_range 1 _ ?body ?s0] =>
    destruct (for_range_ind (fun i '(w', fl) => fl = pg + (i - 1) * sz /\
      linked w' pg sz (down (Z.to_nat i)) /\
      forall a, a < pg \/ pg + PAGE_SIZE <= a -> w' a = w a) body 1 (PAGE_SIZE / sz) s0)
      as ([w' fl] & -> & -> & Hl & Hout)
  end; [lia| | |by exists w'].
  - unfold store; simpl. split_and!; [lia| |done|].
    + by rewrite Z.add_0_r, Z.eqb_refl.
    + intros a Ha. destruct (Z.eqb_spec a pg); [unfold PAGE_SIZE in *; lia|done].
  - intros i [w1 fl1] Hi (-> & Hl & Hout).
    pose proof (block_in_page sz t i Hs ltac:(lia)) as Hblk.
    pose proof (block_in_page sz t (i - 1) Hs ltac:(lia)) as Hblk'.
    unfold MIPS_KSEG0, PAGE_SIZE in *.
    rewrite (u32_small (i * sz)), (u32_small ((i - 1) * sz)) by lia.
    rewrite (u32_small (pg + i * sz)), (u32_small (pg + (i - 1) * sz)) by lia.
    unfold store at 1. rewrite Z.eqb_refl.
    destruct (Z.eqb_spec (pg + i * sz) (pg + (i - 1) * sz)); [lia|]. run.
    eexists. split; [done|]. simpl. split_and!; [f_equal; lia| |].
    + replace (Z.to_nat (i + 1)) with (S (Z.to_nat i)) by lia. simpl.
      rewrite Z2Nat.id by lia. split.
      * unfold store. rewrite Z.eqb_refl. destruct (Z.to_nat i) as [|m] eqn:E; [lia|]. simpl.
        f_equal. f_equal. lia.
      * eapply linked_ext; [|done]. intros b Hb. apply down_spec in Hb. unfold store.
        destruct (Z.eqb_spec (pg + b * sz) (pg + i * sz)); [nia|done].
    + intros a Ha. unfold store. destruct (Z.eqb_spec a (pg + i * sz)); [lia|by apply Hout].
Qed.

Definition add_page (v : view) (j t sz pg : Z) : view :=
  mk_view (j :: v_refs v)
    (fun k => if decide (k = j) then t else v_type v k)
    (fun k => if decide (k = j) then sz else v_size v k)
    (fun k => if decide (k = j) then pg else v_page v k)
    (fun k => if decide (k = j) then down (Z.to_nat (PAGE_SIZE / sz)) else v_free v k).

Lemma filter_ext_in (P Q : Z -> Prop) `{!forall x, Decision (P x), !forall x, Decision (Q x)} (l : list Z) :
  (forall x, x ∈ l -> P x <-> Q x) -> filter P l = filter Q l.
Proof.
  induction l as [|x l IH]; intros Hext; [done|].
  assert (filter P l = filter Q l) as E by (apply IH; intros; apply Hext; by right).
  pose proof (Hext x ltac:(left)). rewrite !filter_cons, E.
  destruct (decide (P x)), (decide (Q x)); tauto.
Qed.

Lemma new_page_spec h v l s pg j t sz :
  heap_rep h v -> rd sizes t = Done sz -> 0 <= j < 256 ->
  inuse_bit (pagerefs_inuse h) j = false -> inuse_ok l ->
  (forall k, inuse_bit l k = if decide (k = j) then true else inuse_bit (pagerefs_inuse h) k) ->
  pa_inv s -> page_addr pg -> (forall m, ~ pa_block (pages h) pg m) ->
  (forall a m, pa_block s a m <-> pa_block (pages h) a m \/ pg <> 0 /\ a = pg /\ m = 1) ->
  exists h', new_page (set_pages (set_inuse h l) s) t sz j pg = Done h' /\ pages h' = s /\
    heap_rep h' (add_page v j t sz pg) /\
    forall a, a < pg \/ pg + PAGE_SIZE <= a -> word h' a = word h a.
Proof.
  intros Hr Hs Hj Hclear [Hlen Hword] Hl Hinv Hpg Hfresh Hblk.
  pose proof (sizes_spec _ _ Hs) as (Ht & _ & Hmul & Hsz & _ & Hn).
  assert (~ (j ∈ v_refs v)) as Hnj.
  { intros Hin%(hr_inuse _ _ Hr); [|done]. congruence. }
  destruct (thread_blocks_spec (word h) pg t sz Hs Hpg) as (w & Hth & Hlk & Hout).
  unfold new_page; simpl. rewrite (u16_small (PAGE_SIZE / sz)) by lia. rewrite Hth. run.
  replace (pg + (PAGE_SIZE / sz - 1) * sz - pg) with ((PAGE_SIZE / sz - 1) * sz) by lia.
  pose proof (block_in_page sz t (PAGE_SIZE / sz - 1) Hs ltac:(lia)) as Hoff.
  rewrite u32_small by (unfold PAGE_SIZE in *; lia).
  rewrite (u16_small (_ * sz)) by (unfold PAGE_SIZE in *; lia). rewrite Z.eqb_refl. run.
  destruct (rd_lt (sizebases h) t) as [sb Hsb]; [rewrite (hr_bases_len _ _ Hr); lia|].
  rewrite Hsb. run. set (npr := mk_pageref _ _ _ _ _).
  destruct (wr_lt (pagerefs h) j npr) as (refs & Hrefs & Hrlen);
    [rewrite (hr_refs_len _ _ Hr); lia|]. rewrite Hrefs. run.
  destruct (wr_lt (sizebases h) t (Some j)) as (sbs & Hsbs & Hslen);
    [rewrite (hr_bases_len _ _ Hr); lia|]. rewrite Hsbs. run.
  eexists. split; [done|]. split; [done|]. split; [|done].
  assert (forall p l' nx, (forall k, k ∈ l' -> k ∈ v_refs v) ->
    chain nx (pagerefs h) p l' -> chain nx refs p l') as Hkeep.
  { intros p l' nx Hsub. apply chain_ext. intros k prk Hk Hprk. exists prk. split; [|done].
    rewrite (rd_wr _ _ _ _ _ Hrefs), decide_False; [done|]. intros ->. by apply Hnj, Hsub. }
  assert (rd refs j = Done npr) as Hnpr by (by rewrite (rd_wr _ _ _ _ _ Hrefs), decide_True).
  unfold page_addr, MIPS_KSEG0, PAGE_SIZE in Hpg.
  destruct (MKPAB_spec pg t sb (allbase h) ((PAGE_SIZE / sz - 1) * sz) (PAGE_SIZE / sz))
    as [Epg Ety]; [lia|unfold PAGE_SIZE; lia|done|].
  destruct (down_spec (Z.to_nat (PAGE_SIZE / sz))) as (Hdl & Hdn & Hde).
  assert (forall k m, k ∈ v_refs v -> pa_block (pages h) (v_page v k) m -> v_page v k <> pg) as Hpgne.
  { intros k m Hk Hm E. rewrite E in Hm. by apply Hfresh in Hm. }
  split; simpl; try done.
  - by rewrite Hrlen, (hr_refs_len _ _ Hr).
  - by rewrite Hslen, (hr_bases_len _ _ Hr).
  - apply NoDup_cons_2; [done|apply Hr].
  - intros k [->|Hk]%elem_of_cons; [done|by apply (hr_range _ _ Hr)].
  - intros k Hk. rewrite Hl, elem_of_cons. destruct (decide (k = j)) as [->|]; [by split; auto|].
    rewrite (hr_inuse _ _ Hr) by done. naive_solver.
  - split; [done|]. exists npr. split; [done|]. apply Hkeep; [done|]. apply Hr.
  - intros t' b. rewrite (rd_wr _ _ _ _ _ Hsbs), filter_cons.
    rewrite (filter_ext_in _ (fun k => v_type v k = t')).
    2: { intros x Hx. rewrite decide_False; [done|]. by intros ->. }
    assert (forall k, k ∈ filter (fun k => v_type v k = t') (v_refs v) -> k ∈ v_refs v) as Hsub
      by (by intros k [_ ?]%list_elem_of_filter).
    rewrite (decide_True (P := j = j)) by done.
    destruct (decide (t' = t)) as [->|Hne].
    + intros [= <-]. rewrite decide_True by done. simpl. split; [done|]. exists npr.
      split; [done|]. apply Hkeep; [done|]. by apply (hr_same _ _ Hr).
    + intros Hb. rewrite decide_False by congruence. apply Hkeep; [done|]. by apply (hr_same _ _ Hr).
  - intros k prk. rewrite (rd_wr _ _ _ _ _ Hrefs). destruct (decide (k = j)) as [->|Hne].
    + intros _ [= <-]. split; simpl; try done.
      * intros b Hb%Hde. lia.
      * rewrite Hdl. lia.
      * destruct (Z.to_nat (PAGE_SIZE / sz)) as [|m] eqn:E; [lia|]. simpl. f_equal. lia.
    + intros [->|Hk]%elem_of_cons Hprk; [done|]. destruct (hr_page _ _ Hr k prk Hk Hprk).
      split; try done. eapply linked_ext; [|done]. intros b Hb. apply Hout.
      pose proof (block_in_page _ _ _ po_size0 (po_range0 _ Hb)) as Hin.
      pose proof (sizes_spec _ _ po_size0) as (_ & _ & _ & Hszk & _).
      assert (pa_block s (v_page v k) 1) as B1 by (apply Hblk; left; by apply (hr_block _ _ Hr)).
      assert (pa_block s pg 1) as B2 by (apply Hblk; right; split_and!; try done; lia).
      destruct (pa_disjoint _ _ _ _ _ Hinv B1 B2) as [[E _]|?]; [|unfold PAGE_SIZE in *; lia].
      exfalso. by apply (Hpgne k 1); [|apply (hr_block _ _ Hr)|].
  - intros k Hk. apply Hblk. destruct (decide (k = j)) as [->|Hne].
    + right. split_and!; try done. lia.
    + apply elem_of_cons in Hk as [->|Hk]; [done|]. left. by apply (hr_block _ _ Hr).
  - intros k k' Hk Hk'. rewrite elem_of_cons in Hk, Hk'.
    pose proof (hr_block _ _ Hr). pose proof (hr_page_inj _ _ Hr k k').
    destruct (decide (k = j)), (decide (k' = j)); naive_solver.
Qed.

Lemma live_add_page h v s j t sz pg a n :
  heap_rep h v -> ~ (j ∈ v_refs v) -> 0 <= PAGE_SIZE / sz -> (forall m, ~ pa_block (pages h) pg m) ->
  (forall a m, pa_block s a m <-> pa_block (pages h) a m \/ pg <> 0 /\ a = pg /\ m = 1) ->
  live s (add_page v j t sz pg) a n <-> live (pages h) v a n.
Proof.
  intros Hr Hnj Hn Hfresh Hblk. unfold live; simpl. split.
  - intros [(k & b & Hk & Hb & Hf & -> & ->)|(m & [Hm|(_ & -> & ->)]%Hblk & -> & Hne)].
    + destruct (decide (k = j)) as [->|Hkj].
      { exfalso. apply Hf, down_spec. lia. }
      apply elem_of_cons in Hk as [->|Hk]; [done|]. left. by exists k, b.
    + right. exists m. split_and!; try done. intros k Hk. specialize (Hne k ltac:(by right)).
      rewrite decide_False in Hne; [done|]. by intros ->.
    + specialize (Hne j ltac:(left)). by rewrite decide_True in Hne.
  - intros [(k & b & Hk & Hb & Hf & -> & ->)|(m & Hm & -> & Hne)].
    + left. exists k, b. rewrite !decide_False by (by intros ->). split_and!; try done; try lia.
      by right.
    + right. exists m. split_and!; [by apply Hblk; left|done|].
      intros k Hk. destruct (decide (k = j)) as [->|Hkj].
      * intros ->. by apply Hfresh in Hm.
      * apply elem_of_cons in Hk as [->|Hk]; [done|by apply Hne].
Qed.

(** ** Releasing a page *)

Definition del_page (v : view) (j : Z) : view :=
  mk_view (filter (fun k => k <> j) (v_refs v)) (v_type v) (v_size v) (v_page v) (v_free v).

Lemma filter_ne_split (j : Z) l1 l2 : NoDup (l1 ++ j :: l2) ->
  filter (fun k => k <> j) (l1 ++ j :: l2) = l1 ++ l2.
Proof.
  intros (_ & Hd & (Hj & _)%list.NoDup_cons)%list.NoDup_app.
  assert (forall l : list Z, ~ (j ∈ l) -> filter (fun k => k <> j) l = l) as Hid.
  { induction l as [|k l IH]; [done|]. rewrite elem_of_cons, filter_cons. intros Hk.
    rewrite decide_True by naive_solver. f_equal. apply IH. naive_solver. }
  rewrite filter_app, filter_cons, decide_False by naive_solver. rewrite !Hid; try done.
  intros Hin. apply (Hd j Hin). left.
Qed.

Lemma filter_comm (P Q : Z -> Prop) `{!forall x, Decision (P x), !forall x, Decision (Q x)}
    (l : list Z) : filter P (filter Q l) = filter Q (filter P l).
Proof. rewrite !list_filter_filter. apply filter_ext_in. intros x _. tauto. Qed.

(** [unlink] from a list that starts at [base]. *)
Lemma unlink_base get set refs base l j :
  (forall x e, get (set x e) = x) -> (length l < list_fuel)%nat -> NoDup l ->
  chain get refs base l -> j ∈ l ->
  exists refs' base', unlink get set list_fuel refs base None j = Done (refs', base') /\
    same_but set refs refs' /\ chain get refs' base' (filter (fun k => k <> j) l) /\
    forall k, ~ (k ∈ l) -> rd refs' k = rd refs k.
Proof.
  intros Hgs Hf Hnd Hc (l1 & l2 & ->)%list_elem_of_split.
  rewrite length_app in Hf.
  destruct (unlink_spec get set Hgs list_fuel refs base None base l1 j l2)
    as (refs' & base' & p' & -> & Hsame & Hc' & -> & Hk); [lia|done|done|done|].
  exists refs', p'. split; [done|]. split; [done|]. rewrite filter_ne_split by done.
  split; [done|]. intros k Hkn. apply Hk; [|done]. intros Hk1. apply Hkn, elem_of_app. by left.
Qed.

(** The data of an entry, as opposed to its links. *)
Definition same_data (e e' : pageref) : Prop :=
  pageaddr_and_blocktype e' = pageaddr_and_blocktype e /\
  freelist_offset e' = freelist_offset e /\ nfree e' = nfree e.

Lemma page_ok_data w e e' t sz pg fl : same_data e e' -> page_ok w e t sz pg fl -> page_ok w e' t sz pg fl.
Proof.
  intros (E1 & E2 & E3) []. split; try done; unfold PR_BLOCKTYPE, PR_PAGEADDR in *; congruence.
Qed.

Lemma remove_lists_spec h v j : heap_rep h v -> j ∈ v_refs v ->
  exists refs sbs ab, remove_lists h j (v_type v j) = Done (set_bases (set_pagerefs h refs) sbs ab) /\
    length refs = 256%nat /\ length sbs = 8%nat /\
    chain next_all refs ab (v_refs (del_page v j)) /\
    (forall t b, rd sbs t = Done b ->
       chain next_samesize refs b (filter (fun k => v_type v k = t) (v_refs (del_page v j)))) /\
    (forall k e', rd refs k = Done e' -> exists e, rd (pagerefs h) k = Done e /\ same_data e e').
Proof.
  intros Hr Hj. pose proof (rep_refs_length h v Hr) as Hfuel.
  pose proof (sizes_spec _ _ (rep_size h v j Hr Hj)) as (Ht & _).
  unfold remove_lists, NSIZES. set (t := v_type v j) in *. do 2 case_bool. run.
  destruct (rd_lt (sizebases h) t) as [sb Hsb]; [rewrite (hr_bases_len _ _ Hr); lia|].
  rewrite Hsb. run.
  destruct (unlink_base next_samesize set_next_samesize (pagerefs h) sb
    (filter (fun k => v_type v k = t) (v_refs v)) j) as (refs1 & sb' & -> & [Hl1 Hs1] & Hc1 & Hk1);
    [done| |apply list.NoDup_filter, Hr|by apply (hr_same _ _ Hr)|by apply list_elem_of_filter|].
  { pose proof (length_filter (fun k => v_type v k = t) (v_refs v)). lia. }
  run. destruct (wr_lt (sizebases h) t sb') as (sbs & Hsbs & Hslen);
    [rewrite (hr_bases_len _ _ Hr); lia|]. rewrite Hsbs. run.
  destruct (unlink_base next_all set_next_all refs1 (allbase h) (v_refs v) j)
    as (refs2 & ab & -> & [Hl2 Hs2] & Hc2 & Hk2); [done|done|apply Hr| |done|].
  { eapply chain_ext; [|apply (hr_all _ _ Hr)]. intros k e Hk He.
    destruct (Hs1 k e He) as (e' & ? & [->|[x ->]]); eauto. }
  run. exists refs2, sbs, ab. split; [done|].
  assert (forall p l, chain next_samesize refs1 p l -> chain next_samesize refs2 p l) as Hto2.
  { intros p l. apply chain_ext. intros k e _ He.
    destruct (Hs2 k e He) as (e' & ? & [->|[x ->]]); eauto. }
  split_and!.
  - by rewrite Hl2, Hl1, (hr_refs_len _ _ Hr).
  - by rewrite Hslen, (hr_bases_len _ _ Hr).
  - done.
  - intros t' b. rewrite (rd_wr _ _ _ _ _ Hsbs). simpl. rewrite filter_comm.
    destruct (decide (t' = t)) as [->|Hne]; [intros [= <-]; by apply Hto2|].
    intros Hb. apply Hto2. eapply chain_ext; [|].
    + intros k e Hk He. exists e. split; [|done]. rewrite Hk1; [done|].
      intros [? _]%list_elem_of_filter. apply list_elem_of_filter in Hk as [_ [? _]%list_elem_of_filter].
      congruence.
    + rewrite filter_comm. assert (filter (fun k => v_type v k = t') (v_refs v) =
        filter (fun k => v_type v k = t') (filter (fun k => k <> j) (v_refs v))) as <-.
      { rewrite list_filter_filter. apply filter_ext_in. intros k _. split; [|tauto].
        intros E. split; [done|]. intros ->. done. }
      by apply (hr_same _ _ Hr).
  - intros k e' He'. apply rd_inv in He' as Hr'. rewrite Hl2, Hl1 in Hr'.
    destruct (rd_lt (pagerefs h) k) as [e He]; [lia|]. exists e. split; [done|].
    destruct (Hs1 k e He) as (e1 & He1 & Hor1). destruct (Hs2 k e1 He1) as (e2 & He2 & Hor2).
    assert (e' = e2) as -> by congruence.
    destruct Hor1 as [->|[x1 ->]], Hor2 as [->|[x2 ->]]; done.
Qed.

(** A free list of full length holds every block. *)
Lemma NoDup_full (l : list Z) n b :
  NoDup l -> (forall j, j ∈ l -> 0 <= j < n) -> Z.of_nat (length l) = n -> 0 <= b < n -> b ∈ l.
Proof.
  intros Hnd Hr Hlen Hb. assert (l ⊆+ seqZ 0 n) as Hs.
  { apply NoDup_submseteq; [done|]. intros x Hx%Hr. apply elem_of_seqZ. lia. }
  apply submseteq_length_Permutation in Hs; [|rewrite length_seqZ; lia].
  rewrite Hs. apply elem_of_seqZ. lia.
Qed.

(** The end of [subpage_kfree] when the whole page is free. *)
Lemma release_page_spec h v j : heap_rep h v -> j ∈ v_refs v ->
  Z.of_nat (length (v_free v j)) = PAGE_SIZE / v_size v j ->
  exists h2 s h3, remove_lists h j (v_type v j) = Done h2 /\
    pa_free (pages h2) (v_page v j) = Done s /\ freepageref (set_pages h2 s) j = Done h3 /\
    heap_rep h3 (del_page v j) /\ word h3 = word h /\
    forall a n, live (pages h3) (del_page v j) a n <-> live (pages h) v a n.
Proof.
  intros Hr Hj Hfull.
  destruct (remove_lists_spec h v j Hr Hj) as (refs & sbs & ab & -> & Hl & Hsl & Hall & Hsame & Hdata).
  set (h2 := set_bases _ _ _).
  destruct (pa_free_ok _ _ _ (hr_pages _ _ Hr) (hr_block _ _ Hr j Hj)) as (s & Hs & Hinv & Hblk).
  pose proof (hr_range _ _ Hr j Hj) as Hjr.
  destruct (freepageref_spec (set_pages h2 s) j) as (l & Hfp & [Hil Hiw] & Hbits);
    [split; apply Hr|done|by apply (hr_inuse _ _ Hr)|].
  eexists h2, s, _. split; [done|]. split; [done|]. split; [done|]. split; [|split; [done|]].
  - destruct Hr. split; simpl; try done.
    + by apply list.NoDup_filter.
    + intros k [_ Hk]%list_elem_of_filter. by apply hr_range0.
    + intros k Hk. rewrite Hbits, list_elem_of_filter. simpl.
      destruct (decide (k = j)) as [->|]; [naive_solver|]. rewrite hr_inuse0 by done. naive_solver.
    + intros k e' [_ Hk]%list_elem_of_filter He'. destruct (Hdata k e' He') as (e & He & Hd).
      eapply page_ok_data; [done|]. by apply hr_page0.
    + intros k [Hkj Hk]%list_elem_of_filter. apply Hblk. split; [by apply hr_block0|].
      intros E. by apply hr_page_inj0 in E.
    + intros k k' [_ Hk]%list_elem_of_filter [_ Hk']%list_elem_of_filter. by apply hr_page_inj0.
  - destruct (rep_pr h v j Hr Hj) as (pr & _ & Hp).
    assert (forall b, 0 <= b < PAGE_SIZE / v_size v j -> b ∈ v_free v j) as Hevery.
    { intros b Hb. apply (NoDup_full _ (PAGE_SIZE / v_size v j)); try done; apply Hp. }
    intros a n. unfold live; simpl. setoid_rewrite list_elem_of_filter. setoid_rewrite Hblk. split.
    + intros [(k & b & [Hkj Hk] & ?)|(m & [Hm Ha] & -> & Hne)]; [left; by exists k, b|right].
      exists m. split_and!; try done. intros k Hk E. destruct (decide (k = j)) as [->|]; [done|].
      by apply (Hne k).
    + intros [(k & b & Hk & Hb & Hf & -> & ->)|(m & Hm & -> & Hne)].
      * left. exists k, b. split_and!; try done; try lia. intros ->. by apply Hf, Hevery.
      * right. exists m. split_and!; try done; [by intros ->; apply (Hne j)|].
        intros k [_ Hk]. by apply Hne.
Qed.

(** ** [kmalloc] and [kfree] *)

Definition region (a n x : Z) : Prop := a <= x < a + n.

Lemma take_spec h v j b fl : heap_rep h v -> j ∈ v_refs v -> v_free v j = b :: fl ->
  exists refs, doalloc h j = Done (set_pagerefs h refs, v_page v j + b * v_size v j) /\
    heap_rep (set_pagerefs h refs) (upd_free v j fl).
Proof.
  intros Hr Hj Hf. destruct (rep_pr h v j Hr Hj) as (pr & Hpr & Hp). rewrite Hf in Hp.
  destruct (doalloc_spec h j pr _ _ _ b fl Hpr (rep_page_addr h v j Hr Hj) Hp)
    as (off & nf & refs & Hw & Hd & Hp').
  exists refs. split; [done|].
  pose proof (rep_upd_free h v j pr off nf refs (word h) fl Hr Hj Hpr Hw Hp' ltac:(done)) as Hr'.
  by destruct h.
Qed.

(** What a block handed out by [kmalloc] has: room, alignment, and no overlap
    with the live blocks [B]. *)
Definition fresh (B : Z -> Z -> Prop) (p np sz : Z) : Prop :=
  sz <= np /\ 0 < np /\ p <> 0 /\ p mod 16 = 0 /\
  forall a n, B a n -> a + n <= p \/ p + np <= a.

Lemma small_fresh h v j b a n sz : heap_rep h v -> pool_block v j b a n ->
  b ∈ v_free v j -> sz <= n -> fresh (live (pages h) v) a n sz.
Proof.
  intros Hr Hpb Hf Hsz. pose proof (pool_block_range h v j b a n Hr Hpb) as Hin.
  pose proof Hpb as (Hj & Hb & -> & ->).
  pose proof (sizes_spec _ _ (rep_size h v j Hr Hj)) as (Ht & Hpow & _ & Hsize & _).
  destruct (rep_page_addr h v j Hr Hj) as (? & Hal & ?). unfold MIPS_KSEG0, PAGE_SIZE in *.
  split_and!; try lia.
  - rewrite Hpow, Z.pow_add_r by lia. change (2 ^ 4) with 16.
    replace (v_page v j + b * (16 * 2 ^ v_type v j))
      with (v_page v j + (b * 2 ^ v_type v j) * 16) by lia.
    rewrite Z.mod_add by lia. zlia.
  - intros a n [(k & b' & H' & Hf')|H']%live_cases; apply separate_sym.
    + destruct (pool_pool _ _ _ _ _ _ _ _ _ _ Hr Hpb H') as [[<- <-]|?]; done.
    + by eapply pool_run.
Qed.

(** Every live block lies in one run of pages. *)
Lemma live_in_run h v a n : heap_rep h v -> live (pages h) v a n ->
  exists p m, pa_block (pages h) p m /\ p <= a /\ a + n <= p + m * PAGE_SIZE.
Proof.
  intros Hr [(j & b & Hpb & _)|(m & Hm & -> & _)]%live_cases.
  - pose proof (pool_block_range h v j b a n Hr Hpb). destruct Hpb as (Hj & _).
    exists (v_page v j), 1. split_and!; try lia. by apply (hr_block _ _ Hr).
  - exists a, m. split_and!; try done; lia.
Qed.

(** ** The abstract heap: the set of live blocks, with their sizes *)

Definition blocks : Type := Z -> Z -> Prop.

Definition heap_abs (h : heap) (B : blocks) : Prop :=
  exists v, heap_ok h v /\ forall a n, B a n <-> live (pages h) v a n.

Definition with_block (B : blocks) (p np : Z) : blocks := fun a n => B a n \/ a = p /\ n = np.
Definition without_block (B : blocks) (p : Z) : blocks := fun a n => B a n /\ a <> p.

(** The contents of the blocks in [B] are the same. *)
Definition kept (B : blocks) (h h' : heap) : Prop :=
  forall a n x, B a n -> a <= x < a + n -> word h' x = word h x.

(** What an allocation of [sz] bytes may do. *)
Definition alloc_post (h : heap) (B : blocks) (sz : Z) (h' : heap) (p : Z) : Prop :=
  kept B h h' /\
  (p = 0 /\ heap_abs h' B \/ exists np, fresh B p np sz /\ heap_abs h' (with_block B p np)).

Lemma rep_same h v l s : heap_rep h v -> inuse_ok l ->
  (forall k, inuse_bit l k = inuse_bit (pagerefs_inuse h) k) ->
  pa_inv s -> (forall a m, pa_block s a m <-> pa_block (pages h) a m) ->
  heap_rep (set_pages (set_inuse h l) s) v.
Proof.
  intros [] [? ?] Hl Hinv Hblk. split; simpl; try done.
  - intros k Hk. by rewrite Hl, hr_inuse0.
  - intros k Hk. by apply Hblk, hr_block0.
Qed.

Lemma live_same s s' v a n : (forall a m, pa_block s a m <-> pa_block s' a m) ->
  live s v a n <-> live s' v a n.
Proof. intros Hblk. unfold live. by setoid_rewrite Hblk. Qed.

(** Taking the first free block of page [j]. *)
Lemma take_post h0 h v B j b fl sz : heap_rep h v -> (forall a n, B a n <-> live (pages h) v a n) ->
  (forall k, k ∈ v_refs v -> k <> j -> Z.of_nat (length (v_free v k)) < PAGE_SIZE / v_size v k) ->
  kept B h0 h -> j ∈ v_refs v -> v_free v j = b :: fl -> sz <= v_size v j ->
  exists h' p, doalloc h j = Done (h', p) /\ alloc_post h0 B sz h' p.
Proof.
  intros Hr HB Hused Hkept Hj Hf Hsz.
  destruct (take_spec h v j b fl Hr Hj Hf) as (refs & -> & Hr').
  destruct (rep_pr h v j Hr Hj) as (pr & _ & Hp). pose proof (page_ok_nfree _ _ _ _ _ _ Hp) as Hn.
  assert (pool_block v j b (v_page v j + b * v_size v j) (v_size v j)) as Hpb.
  { split_and!; try done; apply Hp; rewrite Hf; left. }
  eexists _, _. split; [done|]. split; [done|]. right. exists (v_size v j). split.
  - pose proof (small_fresh h v j b _ _ sz Hr Hpb ltac:(rewrite Hf; left) Hsz) as Hfr.
    unfold fresh in *. setoid_rewrite HB. done.
  - exists (upd_free v j fl). split; [split; [done|]|].
    + intros k Hk. simpl in *. rewrite Hf in Hn. simpl in Hn.
      destruct (decide (k = j)) as [->|]; [lia|by apply Hused].
    + intros a n. simpl. rewrite (live_take h v j b fl) by done. unfold with_block. by rewrite HB.
Qed.

Lemma subpage_kmalloc_new h v B t sz j l : heap_ok h v -> (forall a n, B a n <-> live (pages h) v a n) ->
  rd sizes t = Done sz -> 0 <= j < 256 ->
  inuse_bit (pagerefs_inuse h) j = false -> inuse_ok l ->
  (forall k, inuse_bit l k = if decide (k = j) then true else inuse_bit (pagerefs_inuse h) k) ->
  exists s pg, pa_alloc (pages h) 1 = Done (s, pg) /\
    ((pg = 0 /\ exists h', freepageref (set_pages (set_inuse h l) s) j = Done h' /\
        alloc_post h B sz h' 0) \/
     (pg <> 0 /\ exists h1 h' p, new_page (set_pages (set_inuse h l) s) t sz j pg = Done h1 /\
        doalloc h1 j = Done (h', p) /\ alloc_post h B sz h' p)).
Proof.
  intros [Hr Hused] HB Hs Hj Hclear Hl Hbits.
  destruct (pa_alloc_ok (pages h) 1 (hr_pages _ _ Hr) ltac:(lia)) as (s & pg & -> & Hinv & Hnew & Hblk).
  exists s, pg. split; [done|]. destruct (Z.eq_dec pg 0) as [->|Hpg]; [left|right]; (split; [done|]).
  - destruct (freepageref_spec (set_pages (set_inuse h l) s) j) as (l' & -> & Hl' & Hbits');
      [done|done|simpl; by rewrite Hbits, decide_True|].
    assert (forall a m, pa_block s a m <-> pa_block (pages h) a m) as Hsame by naive_solver.
    eexists. split; [done|]. split; [done|]. left. split; [done|]. exists v. split; [split|].
    + apply (rep_same h v l' s); try done. intros k. rewrite Hbits'. simpl. rewrite Hbits.
      destruct (decide (k = j)) as [->|]; done.
    + done.
    + intros a n. rewrite HB. simpl. symmetry. by apply live_same.
  - destruct (Hnew Hpg) as [_ Hfresh].
    assert (pa_block s pg 1) as Hpgb by (apply Hblk; auto).
    assert (page_addr pg) as Hpa.
    { destruct (pa_block_range _ _ _ Hinv Hpgb) as (_ & ? & ? & ?).
      unfold page_addr, PAGE_SIZE in *. split_and!; try done; lia. }
    destruct (new_page_spec h v l s pg j t sz) as (h1 & Hnp & Hps & Hr1 & Hout); try done.
    pose proof (sizes_spec _ _ Hs) as (_ & _ & _ & _ & _ & Hn).
    assert (~ (j ∈ v_refs v)) as Hnj by (intros Hin%(hr_inuse _ _ Hr); [congruence|done]).
    destruct (Z.to_nat (PAGE_SIZE / sz)) as [|m] eqn:Em; [lia|].
    destruct (take_post h h1 (add_page v j t sz pg) B j (Z.of_nat m) (down m) sz)
      as (h' & p & ? & ?); try done; simpl.
    + intros a n. rewrite Hps, HB. symmetry. apply (live_add_page h); try done. lia.
    + intros k [->|Hk]%elem_of_cons Hkj; [done|]. rewrite !decide_False by done. by apply Hused.
    + intros a n x Ha Hx. apply Hout.
      destruct (live_in_run h v a n Hr) as (q & m' & Hq & ? & ?); [by apply HB|].
      destruct (pa_disjoint s q m' pg 1 Hinv) as [[-> _]|?];
        [apply Hblk; by left|done|by apply Hfresh in Hq|unfold PAGE_SIZE in *; lia].
    + left.
    + by rewrite decide_True, Em by done.
    + by rewrite decide_True by done.
    + by exists h1, h', p.
Qed.

Lemma alloc_post_weaken h B sz sz' h' p : sz <= sz' -> alloc_post h B sz' h' p -> alloc_post h B sz h' p.
Proof.
  intros Hle [? [?|(np & (? & ?) & ?)]]; split; auto. right. exists np. split; [|done].
  split; [lia|done].
Qed.

Lemma subpage_kmalloc_spec h B sz : heap_abs h B -> 0 <= sz <= 2048 ->
  exists h' p, subpage_kmalloc h sz = Done (h', p) /\ alloc_post h B sz h' p.
Proof.
  intros (v & [Hr Hused] & HB) Hsz. destruct (blocktype_spec sz Hsz) as (t & bs & Ht & Hbs & Hle).
  pose proof (sizes_spec _ _ Hbs) as (Ht8 & _ & _ & Hb & _).
  unfold subpage_kmalloc. rewrite Ht. run. rewrite Hbs. run.
  destruct (rd_lt (sizebases h) t) as [sb Hsb]; [rewrite (hr_bases_len _ _ Hr); lia|].
  rewrite Hsb. run. pose proof (rep_refs_length h v Hr) as Hfuel.
  destruct (find_room_spec list_fuel h t sb (filter (fun k => v_type v k = t) (v_refs v)))
    as [(j & pr & -> & [Hty Hj]%list_elem_of_filter & Hpr & Hnf)|[-> _]]; run.
  - pose proof (length_filter (fun k => v_type v k = t) (v_refs v)). lia.
  - by apply (hr_same _ _ Hr).
  - intros j pr [Hty Hj]%list_elem_of_filter Hpr. rewrite <- Hty. by apply (hr_page _ _ Hr j pr).
  - pose proof (hr_page _ _ Hr j pr Hj Hpr) as Hp.
    pose proof (po_nfree _ _ _ _ _ _ Hp) as Hlen.
    destruct (v_free v j) as [|b fl] eqn:Hf; [simpl in Hlen; lia|].
    apply (take_post h h v B j b fl); try done; try (by intros; apply Hused).
    pose proof (rep_size h v j Hr Hj) as Hsj. rewrite Hty, Hbs in Hsj. by injection Hsj as <-.
  - unfold allocpageref.
    destruct (allocpageref_from_spec (Z.to_nat INUSE_WORDS) 0 h)
      as [(l & j & -> & Hl & Hj & Hclear & Hbits)|[-> _]]; [split; apply Hr|done|done| |]; run.
    + destruct (subpage_kmalloc_new h v B t bs j l)
        as (s & pg & Ha & [(-> & h' & E & Hpost)|(Hpg & h1 & h' & p & E & E' & Hpost)]);
        try done; simpl; rewrite Ha; run.
      * rewrite Z.eqb_refl, E. run. eexists _, _. split; [done|]. by eapply alloc_post_weaken.
      * destruct (Z.eqb_spec pg 0); [done|]. rewrite E. run. eexists _, _. split; [done|].
        by eapply alloc_post_weaken.
    + eexists _, _. split; [done|]. split; [done|]. left. split; [done|]. by exists v.
Qed.

Lemma kmalloc_spec h B sz : heap_abs h B -> 0 <= sz < 2 ^ 32 ->
  exists h' p, kmalloc h sz = Done (h', p) /\ alloc_post h B sz h' p.
Proof.
  intros HB Hsz. unfold kmalloc, LARGEST_SUBPAGE_SIZE. rewrite Z.geb_leb.
  destruct (Z.leb_spec 2048 sz); [|apply subpage_kmalloc_spec; [done|lia]].
  destruct HB as (v & [Hr Hused] & HB).
  set (np := u32 (u32 (sz + PAGE_SIZE) - 1) / PAGE_SIZE).
  assert (0 <= np) as Hnp.
  { apply Z.div_pos; [apply u32_range|unfold PAGE_SIZE; lia]. }
  destruct (pa_alloc_ok (pages h) np (hr_pages _ _ Hr) Hnp) as (s & pg & -> & Hinv & Hnew & Hblk).
  run. eexists _, _. split; [done|]. split; [done|].
  assert (forall k, k ∈ v_refs v -> pa_block s (v_page v k) 1) as Hkeep.
  { intros k Hk. apply Hblk. left. by apply (hr_block _ _ Hr). }
  assert (heap_ok (set_pages h s) v) as Hok.
  { split; [|done]. destruct Hr. by split. }
  destruct (Z.eq_dec pg 0) as [->|Hpg]; [left|right].
  - split; [done|]. exists v. split; [done|]. intros a n. rewrite HB. simpl.
    symmetry. apply live_same. naive_solver.
  - destruct (Hnew Hpg) as [Hnp0 Hfresh]. exists (np * PAGE_SIZE).
    assert (pa_block s pg np) as Hpgb by (apply Hblk; auto).
    destruct (pa_block_range _ _ _ Hinv Hpgb) as (_ & Hal & Hlo & Hhi).
    unfold MIPS_KSEG0 in Hlo. split.
    + split_and!; try done.
      * unfold np, u32, PAGE_SIZE in Hnp0 |- *. zlia.
      * unfold PAGE_SIZE. lia.
      * unfold PAGE_SIZE in Hal. zlia.
      * intros a n (q & m' & Hq & ? & ?)%HB%live_in_run; [|done].
        destruct (pa_disjoint s q m' pg np Hinv) as [[-> _]|?];
          [apply Hblk; by left|done|by apply Hfresh in Hq|lia].
    + exists v. split; [done|]. intros a n. unfold with_block. rewrite HB, !live_cases. simpl.
      unfold page_run. setoid_rewrite Hblk. pose proof (hr_block _ _ Hr). split.
      * intros [?|[-> ->]]; [naive_solver|]. right. exists np. split_and!; auto.
        intros k Hk E. rewrite <- E in Hfresh. by apply (Hfresh 1), (hr_block _ _ Hr).
      * naive_solver.
Qed.

(** ** Freeing *)

Lemma fill_deadbeef_spec w p len : 0 <= len ->
  exists w', fill_deadbeef w p len = Done w' /\ forall x, ~ region p len x -> w' x = w x.
Proof.
  intros Hlen. unfold fill_deadbeef, region.
  match goal with |- context [for_range 0 _ ?body w] =>
    destruct (for_range_ind (fun _ w' => forall x, ~ (p <= x < p + len) -> w' x = w x)
      body 0 (len / 4) w) as (w' & -> & ?) end; [zlia|done| |by exists w'].
  intros i w1 Hi Hw1. eexists. split; [done|]. intros x Hx. unfold store.
  destruct (Z.eqb_spec x (p + 4 * i)); [zlia|by apply Hw1].
Qed.

Lemma put_spec h v j b p n pr w :
  heap_rep h v -> pool_block v j b p n -> ~ (b ∈ v_free v j) -> rd (pagerefs h) j = Done pr ->
  (forall x, ~ region p n x -> w x = word h x) ->
  w p = (match v_free v j with [] => 0 | b' :: _ => v_page v j + b' * v_size v j end) ->
  exists refs,
    wr (pagerefs h) j (set_free (b * v_size v j) (Z.of_nat (S (length (v_free v j)))) pr) = Done refs /\
    heap_rep (set_pagerefs (set_word h w) refs) (upd_free v j (b :: v_free v j)).
Proof.
  intros Hr Hpb Hbf Hpr Hout Hp. pose proof Hpb as (Hj & Hb & -> & ->).
  pose proof (hr_page _ _ Hr j pr Hj Hpr) as Hpo. apply rd_inv in Hpr as Hjr.
  destruct (wr_lt (pagerefs h) j
    (set_free (b * v_size v j) (Z.of_nat (S (length (v_free v j)))) pr)) as (refs & Hrefs & _); [lia|].
  exists refs. split; [done|].
  assert (forall k b', k ∈ v_refs v -> b' ∈ v_free v k ->
    w (v_page v k + b' * v_size v k) = word h (v_page v k + b' * v_size v k)) as Hkeep.
  { intros k b' Hk Hb'. apply Hout. unfold region.
    destruct (rep_pr h v k Hr Hk) as (prk & _ & Hpk).
    assert (pool_block v k b' (v_page v k + b' * v_size v k) (v_size v k)) as Hpb'.
    { split_and!; try done; by apply Hpk. }
    pose proof (pool_block_range _ _ _ _ _ _ Hr Hpb').
    destruct (pool_pool _ _ _ _ _ _ _ _ _ _ Hr Hpb Hpb') as [[-> ->]|[?|?]]; [done|lia|lia]. }
  eapply rep_upd_free; try done; [|by intros; apply Hkeep].
  destruct Hpo. split; simpl; try done.
  - by apply NoDup_cons_2.
  - intros b' [->|?]%elem_of_cons; [done|by apply po_range0].
  - split; [done|]. eapply linked_ext; [|done]. intros b' Hb'. by apply Hkeep.
Qed.

Lemma find_page_rep h v a : heap_rep h v ->
  (exists j pr, find_page list_fuel h a (allbase h) = Done (Some j) /\ j ∈ v_refs v /\
     rd (pagerefs h) j = Done pr /\ v_page v j <= a < v_page v j + PAGE_SIZE) \/
  (find_page list_fuel h a (allbase h) = Done None /\
   forall j, j ∈ v_refs v -> ~ (v_page v j <= a < v_page v j + PAGE_SIZE)).
Proof.
  intros Hr.
  assert (forall j pr, j ∈ v_refs v -> rd (pagerefs h) j = Done pr -> PR_PAGEADDR pr = v_page v j) as Hpg.
  { intros j pr Hj Hpr. by apply (hr_page _ _ Hr). }
  destruct (find_page_spec list_fuel h a (allbase h) (v_refs v)) as [(j & pr & -> & Hj & Hpr & Hon)|[-> Hno]].
  - by apply (rep_refs_length h).
  - apply Hr.
  - intros j pr Hj Hpr. pose proof (hr_page _ _ Hr j pr Hj Hpr) as Hp.
    rewrite (po_type _ _ _ _ _ _ Hp), (po_page _ _ _ _ _ _ Hp).
    pose proof (sizes_spec _ _ (rep_size h v j Hr Hj)) as (? & _).
    destruct (rep_page_addr h v j Hr Hj) as (? & _ & ?).
    unfold MIPS_KSEG0, PAGE_SIZE in *. lia.
  - left. exists j, pr. unfold on_page in Hon. rewrite (Hpg j pr) in Hon by done. split_and!; try done; lia.
  - right. split; [done|]. intros j Hj. destruct (rep_pr h v j Hr Hj) as (pr & Hpr & _).
    rewrite <- (Hpg j pr) by done. by apply (Hno j pr).
Qed.

Definition free_post (h : heap) (B : blocks) (p : Z) (h' : heap) : Prop :=
  kept (without_block B p) h h' /\ heap_abs h' (without_block B p).

Lemma subpage_kfree_small h v B j b p n : heap_ok h v -> (forall a n, B a n <-> live (pages h) v a n) ->
  pool_block v j b p n -> ~ (b ∈ v_free v j) ->
  exists h', subpage_kfree h p = Done (h', 0) /\ free_post h B p h'.
Proof.
  intros [Hr Hused] HB Hpb Hbf. pose proof (pool_block_range _ _ _ _ _ _ Hr Hpb) as Hrange.
  pose proof Hpb as (Hj & Hb & Ep & En).
  assert (forall a m, without_block B p a m <->
    live (pages h) (upd_free v j (b :: v_free v j)) a m) as HB1.
  { intros a m. rewrite (live_put h) by done. unfold without_block. by rewrite HB, Ep. }
  assert (forall a m, without_block B p a m -> separate a m p n) as Hsep.
  { intros a m [Ha Hap]. destruct (live_disjoint h v a m p n Hr) as (_ & [[? _]|?]); try done.
    - by apply HB.
    - apply live_cases. left. by exists j, b. }
  unfold subpage_kfree.
  destruct (find_page_rep h v p Hr) as [(k & pr & -> & Hk & Hpr & Hon)|[_ Hno]];
    [|by destruct (Hno j Hj); lia].
  assert (k = j) as ->.
  { destruct (pa_disjoint _ _ _ _ _ (hr_pages _ _ Hr) (hr_block _ _ Hr k Hk) (hr_block _ _ Hr j Hj))
      as [[E _]|?]; [by apply (hr_page_inj _ _ Hr)|lia]. }
  run. rewrite Hpr. run. pose proof (hr_page _ _ Hr j pr Hj Hpr) as Hpo.
  rewrite (po_page _ _ _ _ _ _ Hpo), (po_type _ _ _ _ _ _ Hpo), (rep_size h v j Hr Hj). run.
  pose proof (sizes_spec _ _ (rep_size h v j Hr Hj)) as (_ & _ & _ & Hsz & _ & Hn).
  destruct (rep_page_addr h v j Hr Hj) as (Hlo & _ & Hhi). unfold MIPS_KSEG0 in Hlo.
  assert (u32 (p - v_page v j) = b * v_size v j) as ->.
  { rewrite u32_small by (unfold PAGE_SIZE in *; lia). lia. }
  rewrite Z.geb_leb. destruct (Z.leb_spec PAGE_SIZE (b * v_size v j)); [lia|].
  rewrite Z.mod_mul by lia. run. rewrite <- Ep, <- En in *.
  destruct (fill_deadbeef_spec (word h) p n ltac:(lia)) as (w & -> & Hw). run.
  rewrite (u32_small p) by (unfold PAGE_SIZE in *; lia).
  pose proof (page_ok_nfree _ _ _ _ _ _ Hpo) as Hnf. specialize (Hused j Hj) as Hlt.
  rewrite <- En in *.
  rewrite (u16_small (nfree pr + 1)) by (rewrite (po_nfree _ _ _ _ _ _ Hpo); lia).
  rewrite (u16_small (b * n)) by (unfold PAGE_SIZE in *; lia).
  set (w' := store p _ w).
  assert (w' p = match v_free v j with [] => 0 | b' :: _ => v_page v j + b' * v_size v j end) as Hwp.
  { unfold w', store. rewrite Z.eqb_refl, (po_head _ _ _ _ _ _ Hpo), <- En.
    destruct (v_free v j) as [|b' fl] eqn:Ef; [done|].
    destruct (block_in_page n (v_type v j) b') as [? ?];
      [rewrite En; by apply (rep_size h)|apply Hpo; left|].
    unfold INVALID_OFFSET, PAGE_SIZE in *.
    destruct (Z.eqb_spec (b' * n) 0xffff); [lia|]. apply u32_small. lia. }
  assert (forall x, ~ region p n x -> w' x = word h x) as Hout.
  { intros x Hx. unfold w', store. destruct (Z.eqb_spec x p); [|by apply Hw].
    exfalso. apply Hx. unfold region. lia. }
  destruct (put_spec h v j b p n pr w' Hr Hpb Hbf Hpr Hout Hwp) as (refs & Hrefs & Hr1).
  rewrite (po_nfree _ _ _ _ _ _ Hpo).
  replace (Z.of_nat (length (v_free v j)) + 1) with (Z.of_nat (S (length (v_free v j)))) by lia.
  rewrite <- En in Hrefs. rewrite Hrefs. run.
  destruct (Z.leb_spec (Z.of_nat (S (length (v_free v j)))) (PAGE_SIZE / n)); [|lia]. run.
  assert (kept (without_block B p) h (set_pagerefs (set_word h w') refs)) as Hkept.
  { intros a m x Ha Hx. apply Hout. unfold region. destruct (Hsep _ _ Ha); lia. }
  destruct (Z.eqb_spec (Z.of_nat (S (length (v_free v j)))) (PAGE_SIZE / n)) as [Efull|Hnfull].
  - destruct (release_page_spec _ _ j Hr1 Hj) as (h2 & s & h3 & E2 & Es & E3 & Hr3 & Hw3 & Hl3).
    { simpl. rewrite decide_True, <- En by done. simpl. lia. }
    simpl in E2, Es. rewrite E2. run. rewrite Es. run. rewrite E3. run.
    eexists. split; [done|]. split; [unfold kept; rewrite Hw3; exact Hkept|].
    eexists. split; [split; [exact Hr3|]|].
    + simpl. intros k [Hkj Hk']%list_elem_of_filter. rewrite decide_False by done. by apply Hused.
    + intros a m. rewrite Hl3. by rewrite HB1.
  - eexists. split; [done|]. split; [done|]. eexists. split; [split; [exact Hr1|]|exact HB1].
    simpl. intros k Hk'. destruct (decide (k = j)) as [->|]; [rewrite <- En; simpl; lia|by apply Hused].
Qed.

Lemma kfree_spec h B p n : heap_abs h B -> B p n ->
  exists h', kfree h p = Done h' /\ free_post h B p h'.
Proof.
  intros (v & Hok & HB) Hp. pose proof Hok as [Hr Hused]. unfold kfree.
  destruct (live_in_run h v p n Hr) as (q & m & Hq & Hqp & _); [by apply HB|].
  destruct (pa_block_range _ _ _ (hr_pages _ _ Hr) Hq) as (_ & _ & ? & _). unfold MIPS_KSEG0 in *.
  destruct (Z.eqb_spec p 0); [lia|].
  apply HB, live_cases in Hp as [(j & b & Hpb & Hbf)|Hrun].
  - destruct (subpage_kfree_small h v B j b p n Hok HB Hpb Hbf) as (h' & -> & Hpost). run. eauto.
  - unfold subpage_kfree.
    destruct Hrun as (m' & Hm' & -> & Hne).
    destruct (pa_block_range _ _ _ (hr_pages _ _ Hr) Hm') as (Hpos & Hal & _).
    destruct (find_page_rep h v p Hr) as [(k & pr & _ & Hk & _ & Hon)|[-> _]].
    { destruct (pa_disjoint _ _ _ _ _ (hr_pages _ _ Hr) (hr_block _ _ Hr k Hk) Hm') as [[E _]|?];
        [by apply Hne in E|unfold PAGE_SIZE in *; lia]. }
    run. rewrite Hal. run.
    destruct (pa_free_ok _ _ _ (hr_pages _ _ Hr) Hm') as (s & -> & Hinv & Hblk). run.
    eexists. split; [done|]. split; [done|]. exists v. split; [split; [|done]|].
    + destruct Hr. split; simpl; try done. intros k Hk. apply Hblk. split; [by apply hr_block0|].
      by apply Hne.
    + intros a x. unfold without_block. rewrite HB, !live_cases. unfold page_run. simpl.
      setoid_rewrite Hblk. split.
      * intros [[?|(m'' & ? & ? & ?)] Ha]; [by left|right; by exists m''].
      * intros [(j & b & Hpb & Hbf)|(m'' & [? ?] & ? & ?)].
        -- split; [left; by exists j, b|]. intros ->.
           assert (page_run (pages h) v p (m' * PAGE_SIZE)) as Hrun by (by exists m').
           pose proof (pool_block_range _ _ _ _ _ _ Hr Hpb).
           destruct (pool_run _ _ _ _ _ _ _ _ Hr Hpb Hrun); unfold PAGE_SIZE in *; lia.
        -- split; [right; by exists m''|done].
Qed.

(** C3. [kmalloc] against the abstract heap, for every request size: it never
    stops the kernel; it returns NULL and changes no block, or it returns a
    16-aligned address of a block that is large enough and overlaps no live
    block, which becomes live.  The contents of the live blocks are kept, the
    free lists threaded through fresh pages notwithstanding. *)
Theorem kmalloc_refines h B sz : heap_abs h B -> 0 <= sz < 2 ^ 32 ->
  exists h' p, kmalloc h sz = Done (h', p) /\ kept B h h' /\
    (p = 0 /\ heap_abs h' B \/
     exists np, fresh B p np sz /\ heap_abs h' (with_block B p np)).
Proof. apply kmalloc_spec. Qed.

(** C13. [kfree] of a live block, small or of whole pages, removes exactly that
    block, keeps the contents of all others and never stops the kernel, whether
    or not its page becomes entirely free and is released; [kfree(NULL)] does
    nothing. *)
Theorem kfree_refines h B : heap_abs h B ->
  kfree h 0 = Done h /\
  forall p n, B p n ->
    exists h', kfree h p = Done h' /\ kept (without_block B p) h h' /\
      heap_abs h' (without_block B p).
Proof. intros HB. split; [done|]. intros p n Hp. by apply (kfree_spec h B p n). Qed.

(** Live blocks never overlap, and allocating a block and freeing it again
    brings the set of live blocks back. *)
Theorem kmalloc_kfree_roundtrip h B sz : heap_abs h B -> 0 <= sz < 2 ^ 32 ->
  (forall a n a' n', B a n -> B a' n' -> a <> a' -> separate a n a' n') /\
  exists h1 p h2, kmalloc h sz = Done (h1, p) /\ kfree h1 p = Done h2 /\
    kept B h h2 /\ heap_abs h2 B.
Proof.
  intros HB Hsz. split.
  - destruct HB as (v & [Hr _] & HB). intros a n a' n' Ha Ha' Hne. apply HB in Ha, Ha'.
    destruct (live_disjoint h v a n a' n' Hr Ha Ha') as [_ [[? _]|?]]; done.
  - destruct (kmalloc_spec h B sz HB Hsz) as (h1 & p & E & Hk & [[-> HB1]|(np & Hfr & HB1)]).
    { by exists h1, 0, h1. }
    destruct (kfree_spec h1 _ p np HB1) as (h2 & E2 & Hk2 & v & Hok2 & HB2); [by right|].
    destruct Hfr as (_ & Hnp & _ & _ & Hsep).
    assert (forall a n, B a n -> a = p -> n <= 0) as Hnop.
    { intros a n Ha ->. destruct (Hsep _ _ Ha); lia. }
    assert (forall a n, B a n -> 0 < n) as Hpos.
    { destruct HB as (v0 & [Hr0 _] & HB0). intros a n Ha%HB0. by apply (live_disjoint h v0 a n a n). }
    assert (forall a n, B a n <-> without_block (with_block B p np) p a n) as Heq.
    { intros a n. unfold without_block, with_block. split; [|naive_solver]. intros Ha.
      split; [by left|]. intros ->. pose proof (Hnop _ _ Ha eq_refl). pose proof (Hpos _ _ Ha). lia. }
    exists h1, p, h2. split; [done|]. split; [done|]. split.
    + intros a n x Ha Hx. rewrite (Hk2 a n x) by (done || by apply Heq). by apply (Hk a n).
    + exists v. split; [done|]. intros a n. by rewrite Heq, HB2.
Qed.

End rep.

End heap.

End Kheap.

Import Kheap.

#[local] Existing Instance Coremap.coremap_page_alloc.
#[local] Existing Instance Coremap.coremap_page_alloc_ok.

(** A heap at boot: no page in the pool, the coremap of [ex_cm] below. *)
Definition ex_heap : heap (PS := Coremap.cm_state) :=
  mk_heap (replicate 256 (mk_pageref None None 0 0 0)) (replicate 8 0) (replicate 8 None) None
    (fun _ => 0) ex_cm.

Lemma ex_heap_abs : heap_abs ex_heap (fun _ _ => False).
Proof.
  assert (forall a m, ~ pa_block ex_cm a m) as Hnb.
  { intros a m (b & _ & Hb). by apply Coremap.cm_fresh_noblock in Hb. }
  exists (mk_view [] (fun _ => 0) (fun _ => 0) (fun _ => 0) (fun _ => [])). split; [split|].
  - split; simpl; try done; try (by intros ? ?%elem_of_nil); try (by intros ? ? ?%elem_of_nil).
    + intros i w [_ E]%rd_inv. by apply (lookup_replicate 8 0) in E as [-> _].
    + constructor.
    + intros j Hj. rewrite elem_of_nil. unfold inuse_bit.
      destruct (rd _ (j / 32)) as [w|] eqn:E; [|done].
      apply rd_inv in E as [_ E]. apply (lookup_replicate 8 0) in E as [-> _]. by rewrite Z.bits_0.
    + intros t b [_ E]%rd_inv. by apply (lookup_replicate 8 None) in E as [-> _].
    + apply ex_cm_inv.
  - by intros j ?%elem_of_nil.
  - intros a n. split; [done|]. intros [(j & b & ?%elem_of_nil & _)|(m & ? & _)]; [done|].
    by apply (Hnb a m).
Qed.

Definition ex_ptr : Z := match kmalloc ex_heap 100 with Done (_, p) => p | Halt _ => 0 end.

Lemma kmalloc_refines_witness :
  exists h' p np, kmalloc ex_heap 100 = Done (h', p) /\ p = 0x80020f80 /\
    heap_abs h' (with_block (fun _ _ => False) p np) /\ 100 <= np.
Proof.
  destruct (kmalloc_refines ex_heap _ 100 ex_heap_abs ltac:(lia))
    as (h' & p & E & _ & Hp).
  assert (p = 0x80020f80) as ->.
  { transitivity ex_ptr; [unfold ex_ptr; by rewrite E|vm_compute; reflexivity]. }
  destruct Hp as [[H0 _]|(np & Hfr & Habs)]; [discriminate H0|].
  exists h', 0x80020f80, np. split; [exact E|]. split; [reflexivity|]. split; [exact Habs|].
  exact (proj1 Hfr).
Defined.

Lemma kfree_refines_witness :
  exists h1 h2, kmalloc ex_heap 100 = Done (h1, 0x80020f80) /\ kfree h1 0x80020f80 = Done h2.
Proof.
  destruct (kmalloc_spec ex_heap _ 100 ex_heap_abs ltac:(lia)) as (h' & p & E & _ & Hp).
  assert (p = 0x80020f80) as ->.
  { transitivity ex_ptr; [unfold ex_ptr; by rewrite E|vm_compute; reflexivity]. }
  destruct Hp as [[H0 _]|(np & Hfr & Habs)]; [discriminate H0|].
  destruct (kfree_refines h' _ Habs) as [_ Hfree].
  destruct (Hfree 0x80020f80 np) as (h2 & E2 & _); [right; split; reflexivity|].
  exists h', h2. split; [exact E|exact E2].
Defined.

Lemma kmalloc_kfree_roundtrip_witness :
  exists h1 p h2, kmalloc ex_heap 5000 = Done (h1, p) /\ kfree h1 p = Done h2 /\
    heap_abs h2 (fun _ _ => False).
Proof.
  destruct (kmalloc_kfree_roundtrip ex_heap _ 5000 ex_heap_abs ltac:(lia))
    as (_ & h1 & p & h2 & E1 & E2 & _ & Habs).
  exists h1, p, h2. split; [exact E1|]. split; [exact E2|exact Habs].
Defined.
