(* ===== verification/AddrSpace.v ===== *)
(** * Address spaces and page faults ([kern/vm/addrspace.c], [kern/vm/vm.c],
      [kern/arch/mips/mips/spl.c])

    [Spl]: the interrupt priority level.  [AddrSpace]: an address space is two
    segments and a stack, each backed by one run of physical pages of the
    coremap.  [Vm]: the fault handler that loads the TLB.  Physical memory is a
    function from addresses to bytes, which the kernel sees through kseg0. *)

From Stdlib Require Import ZArith Lia Bool.
From stdpp Require Import base list numbers.
From S2P Require Import Prelude.
From S2P Require Import Coremap.

Module Spl.

(** [curspl] and the interrupt-enable bit [CST_IEc] of the status register. *)
Record cpu : Type := mk_cpu { curspl : Z; IEc : bool }.

Definition SPL_HIGH : Z := 15.

Definition interrupts_on (c : cpu) : cpu := mk_cpu (curspl c) true.
Definition interrupts_off (c : cpu) : cpu := mk_cpu (curspl c) false.

Definition splx (c : cpu) (newspl : Z) : cpu * Z :=
  let c1 := if newspl >? 0 then interrupts_off c
            else if newspl =? 0 then interrupts_on c else c in
  (mk_cpu newspl (IEc c1), curspl c1).

Definition splhigh (c : cpu) : cpu * Z := splx c SPL_HIGH.
Definition spl0 (c : cpu) : cpu * Z := splx c 0.

(** The level and the hardware agree. *)
Definition cpu_ok (c : cpu) : Prop := 0 <= curspl c /\ IEc c = (curspl c =? 0).

Lemma splx_ok c n : 0 <= n -> cpu_ok (fst (splx c n)).
Proof. intros. unfold cpu_ok, splx; simpl. repeat (case_bool; simpl); auto. Qed.

(** [splhigh] ... [splx] leaves the processor as it was. *)
Lemma splhigh_splx c : cpu_ok c -> fst (splx (fst (splhigh c)) (snd (splhigh c))) = c.
Proof.
  destruct c as [s ie]. unfold cpu_ok; simpl. intros [H0 ->]. unfold splx; simpl.
  rewrite Z.gtb_ltb. by destruct (Z.ltb_spec 0 s), (Z.eqb_spec s 0); simpl; try lia.
Qed.

End Spl.

Module AddrSpace.

Definition DUMBVM_STACKPAGES : Z := 24.

Record addrspace : Type := mk_as {
  as_vbase1 : Z;
  as_pbase1 : Z;
  as_npages1 : Z;
  as_vbase2 : Z;
  as_pbase2 : Z;
  as_npages2 : Z;
  as_stackpbase : Z
}.

Definition sizeof_addrspace : Z := 28.

Definition set_pbase1 (as_ : addrspace) (x : Z) : addrspace :=
  mk_as (as_vbase1 as_) x (as_npages1 as_) (as_vbase2 as_) (as_pbase2 as_) (as_npages2 as_)
    (as_stackpbase as_).
Definition set_pbase2 (as_ : addrspace) (x : Z) : addrspace :=
  mk_as (as_vbase1 as_) (as_pbase1 as_) (as_npages1 as_) (as_vbase2 as_) x (as_npages2 as_)
    (as_stackpbase as_).
Definition set_stackpbase (as_ : addrspace) (x : Z) : addrspace :=
  mk_as (as_vbase1 as_) (as_pbase1 as_) (as_npages1 as_) (as_vbase2 as_) (as_pbase2 as_)
    (as_npages2 as_) x.

(** [mem n]: [kmalloc] of [n] bytes succeeds. *)
Definition as_create (mem : Z -> bool) : option addrspace :=
  if mem sizeof_addrspace then Some (mk_as 0 0 0 0 0 0 0) else None.

Definition as_define_region (as_ : addrspace) (vaddr sz : Z) : addrspace * ret unit :=
  let sz := u32 (sz + Z.land vaddr 0xfff) in
  let vaddr := Z.land vaddr PAGE_FRAME in
  let sz := Z.land (u32 (u32 (sz + PAGE_SIZE) - 1)) PAGE_FRAME in
  let npages := sz / PAGE_SIZE in
  if as_vbase1 as_ =? 0 then
    (mk_as vaddr (as_pbase1 as_) npages (as_vbase2 as_) (as_pbase2 as_) (as_npages2 as_)
       (as_stackpbase as_), Ok tt)
  else if as_vbase2 as_ =? 0 then
    (mk_as (as_vbase1 as_) (as_pbase1 as_) (as_npages1 as_) vaddr (as_pbase2 as_) npages
       (as_stackpbase as_), Ok tt)
  else (as_, Err EUNIMP).

(** Pages taken before a failure stay recorded in the address space. *)
Definition as_prepare_load (cm : Coremap.cm_state) (as_ : addrspace)
  : exec ((Coremap.cm_state * addrspace) * ret unit) :=
  assert! as_pbase1 as_ =? 0;
  assert! as_pbase2 as_ =? 0;
  assert! as_stackpbase as_ =? 0;
  '(cm1, pa1) ← Coremap.cm_getppages cm (s32 (as_npages1 as_));
  let as1 := set_pbase1 as_ pa1 in
  if pa1 =? 0 then Done ((cm1, as1), Err ENOMEM)
  else
    '(cm2, pa2) ← Coremap.cm_getppages cm1 (s32 (as_npages2 as_));
    let as2 := set_pbase2 as1 pa2 in
    if pa2 =? 0 then Done ((cm2, as2), Err ENOMEM)
    else
      '(cm3, pa3) ← Coremap.cm_getppages cm2 DUMBVM_STACKPAGES;
      let as3 := set_stackpbase as2 pa3 in
      if pa3 =? 0 then Done ((cm3, as3), Err ENOMEM)
      else Done ((cm3, as3), Ok tt).

(** [memmove(PADDR_TO_KVADDR(dst), PADDR_TO_KVADDR(src), n)] on physical memory. *)
Definition pmove (pm : Z -> Z) (dst src n : Z) : Z -> Z :=
  fun x => if (dst <=? x) && (x <? dst + n) then pm (src + (x - dst)) else pm x.

(** [as_destroy] only frees the record, so on failure the pages of the runs that
    [as_prepare_load] got stay allocated. *)
Definition as_copy (mem : Z -> bool) (cm : Coremap.cm_state) (pm : Z -> Z) (old : addrspace)
  : exec ((Coremap.cm_state * (Z -> Z)) * ret addrspace) :=
  match as_create mem with
  | None => Done ((cm, pm), Err ENOMEM)
  | Some new =>
      let new := mk_as (as_vbase1 old) (as_pbase1 new) (as_npages1 old)
                       (as_vbase2 old) (as_pbase2 new) (as_npages2 old) (as_stackpbase new) in
      '((cm1, new1), r) ← as_prepare_load cm new;
      match r with
      | Err _ => Done ((cm1, pm), Err ENOMEM)
      | Ok _ =>
          assert! negb (as_pbase1 new1 =? 0);
          assert! negb (as_pbase2 new1 =? 0);
          assert! negb (as_stackpbase new1 =? 0);
          let pm1 := pmove pm (as_pbase1 new1) (as_pbase1 old) (u32 (as_npages1 old * PAGE_SIZE)) in
          let pm2 := pmove pm1 (as_pbase2 new1) (as_pbase2 old) (u32 (as_npages2 old * PAGE_SIZE)) in
          let pm3 := pmove pm2 (as_stackpbase new1) (as_stackpbase old)
                       (DUMBVM_STACKPAGES * PAGE_SIZE) in
          Done ((cm1, pm3), Ok new1)
      end
  end.

Definition as_complete_load (as_ : addrspace) : ret unit := Ok tt.

Definition as_define_stack (as_ : addrspace) : exec (ret Z) :=
  assert! negb (as_stackpbase as_ =? 0);
  Done (Ok USERSTACK).

(** *** The TLB *)

Definition NUM_TLB : Z := 64.
Definition TLBLO_DIRTY : Z := 0x400.
Definition TLBLO_VALID : Z := 0x200.
Definition TLBHI_INVALID (entryno : Z) : Z := u32 (Z.shiftl (0x80000 + entryno) 12).
Definition TLBLO_INVALID : Z := 0.

(** Entries are pairs of the high and the low word. *)
Definition as_activate (tlb : list (Z * Z)) : exec (list (Z * Z)) :=
  for_range 0 NUM_TLB (fun i tlb => wr tlb i (TLBHI_INVALID i, TLBLO_INVALID)) tlb.

(** ** Well-formed address spaces *)

(** The three runs of physical pages that back an address space. *)
Definition as_runs (as_ : addrspace) : list (Z * Z) :=
  [(as_pbase1 as_, as_npages1 as_); (as_pbase2 as_, as_npages2 as_);
   (as_stackpbase as_, DUMBVM_STACKPAGES)].

Definition seg_ok (vbase npages : Z) : Prop :=
  0 < vbase /\ vbase mod PAGE_SIZE = 0 /\ 0 < npages /\ vbase + npages * PAGE_SIZE < 2 ^ 32.

Definition as_layout (as_ : addrspace) : Prop :=
  seg_ok (as_vbase1 as_) (as_npages1 as_) /\ seg_ok (as_vbase2 as_) (as_npages2 as_).

Definition as_ok (cm : Coremap.cm_state) (as_ : addrspace) : Prop :=
  as_layout as_ /\
  Forall (fun '(a, n) => Coremap.phys_run cm a n) (as_runs as_) /\
  as_pbase1 as_ <> as_pbase2 as_ /\ as_pbase1 as_ <> as_stackpbase as_ /\
  as_pbase2 as_ <> as_stackpbase as_.

(** Every run of [cm] is still one of [cm'], and apart from the run [(a, n)]. *)
Definition keeps (cm cm' : Coremap.cm_state) : Prop :=
  forall a n, Coremap.phys_run cm a n -> Coremap.phys_run cm' a n.
Definition new_run (cm : Coremap.cm_state) (a n : Z) : Prop :=
  forall a' n', Coremap.phys_run cm a' n' -> Coremap.apart a' n' a n.


(** For one of the runs the address space needs there are not enough contiguous
    free pages. *)
Definition no_pages (cm : Coremap.cm_state) (as_ : addrspace) : Prop :=
  Coremap.no_run cm (as_npages1 as_) \/ Coremap.no_run cm (as_npages2 as_) \/
  Coremap.no_run cm DUMBVM_STACKPAGES.

Lemma as_prepare_load_spec cm as_ : Coremap.cm_inv cm ->
  as_pbase1 as_ = 0 -> as_pbase2 as_ = 0 -> as_stackpbase as_ = 0 ->
  0 < as_npages1 as_ < 2 ^ 31 -> 0 < as_npages2 as_ < 2 ^ 31 ->
  exists cm' as' r, as_prepare_load cm as_ = Done ((cm', as'), r) /\ Coremap.cm_inv cm' /\
    keeps cm cm' /\
    (r = Err ENOMEM /\ no_pages cm' as_ \/ r = Ok tt /\ exists a1 a2 a3,
       as' = set_stackpbase (set_pbase2 (set_pbase1 as_ a1) a2) a3 /\
       a1 <> 0 /\ a2 <> 0 /\ a3 <> 0 /\
       Forall (fun '(a, n) => Coremap.phys_run cm' a n /\ new_run cm a n) (as_runs as') /\
       Coremap.apart a1 (as_npages1 as_) a2 (as_npages2 as_) /\
       Coremap.apart a1 (as_npages1 as_) a3 DUMBVM_STACKPAGES /\
       Coremap.apart a2 (as_npages2 as_) a3 DUMBVM_STACKPAGES).
Proof.
  intros Hinv E1 E2 E3 H1 H2. unfold as_prepare_load. rewrite E1, E2, E3, !Z.eqb_refl. run.
  rewrite !s32_small by lia.
  destruct (Coremap.cm_getppages_run cm (as_npages1 as_) Hinv ltac:(lia))
    as (cm1 & a1 & -> & Hinv1 & [(-> & -> & Hno)|(Ha1 & Hr1 & Hk1)]); run.
  { eexists _, _, _. split; [done|]. split; [done|]. split; [by intros ? ? ?|left].
    split; [done|]. unfold no_pages. auto. }
  destruct (Z.eqb_spec a1 0); [done|].
  destruct (Coremap.cm_getppages_run cm1 (as_npages2 as_) Hinv1 ltac:(lia))
    as (cm2 & a2 & -> & Hinv2 & [(-> & -> & Hno)|(Ha2 & Hr2 & Hk2)]); run.
  { eexists _, _, _. split; [done|]. split; [done|]. split; [by intros ? ? [? _]%Hk1|left].
    split; [done|]. unfold no_pages. auto. }
  destruct (Z.eqb_spec a2 0); [done|].
  destruct (Coremap.cm_getppages_run cm2 DUMBVM_STACKPAGES Hinv2 ltac:(done))
    as (cm3 & a3 & -> & Hinv3 & [(-> & -> & Hno)|(Ha3 & Hr3 & Hk3)]); run.
  { eexists _, _, _. split; [done|]. split; [done|].
    split; [by intros ? ? [[? _]%Hk2 _]%Hk1|left].
    split; [done|]. unfold no_pages. auto. }
  destruct (Z.eqb_spec a3 0); [done|].
  eexists _, _, _. split; [done|]. split; [done|].
  split; [by intros ? ? [[[? _]%Hk3 _]%Hk2 _]%Hk1|right]. split; [done|].
  destruct (Hk2 _ _ Hr1) as [Hr1' Hap12]. destruct (Hk3 _ _ Hr1') as [Hr1'' Hap13].
  destruct (Hk3 _ _ Hr2) as [Hr2' Hap23].
  exists a1, a2, a3. split_and!; try done. unfold as_runs; simpl.
  rewrite !list.Forall_cons. split_and!; try done; try apply list.Forall_nil.
  - by intros ? ? [_ ?]%Hk1.
  - by intros ? ? [[_ ?]%Hk2 _]%Hk1.
  - by intros ? ? [[[_ ?]%Hk3 _]%Hk2 _]%Hk1.
Qed.

Definition in_run (a n x : Z) : Prop := a <= x < a + n * PAGE_SIZE.

Lemma pmove_out pm dst src n x : ~ (dst <= x < dst + n) -> pmove pm dst src n x = pm x.
Proof. intros. unfold pmove. repeat case_bool; done. Qed.

Lemma pmove_in pm dst src n k : 0 <= k < n -> pmove pm dst src n (dst + k) = pm (src + k).
Proof. intros. unfold pmove. repeat case_bool. f_equal. lia. Qed.

End AddrSpace.

Module Vm.
Import AddrSpace.

Definition tlb_get_rr_victim (next_victim : Z) : Z * Z :=
  ((next_victim + 1) mod NUM_TLB, next_victim).

Definition getppages (r : Ram.ram) (npages : Z) : Ram.ram * Z := Ram.ram_stealmem r npages.

Inductive faulttype : Set := VM_FAULT_READ | VM_FAULT_WRITE | VM_FAULT_READONLY | VM_FAULT_OTHER.

Record vm : Type := mk_vm { tlb : list (Z * Z); cpu : Spl.cpu }.

(** The physical address of a user page: the [if] chain of [vm_fault]. *)
Definition as_translate (as_ : addrspace) (faultaddress : Z) : option Z :=
  let vbase1 := as_vbase1 as_ in
  let vtop1 := u32 (vbase1 + u32 (as_npages1 as_ * PAGE_SIZE)) in
  let vbase2 := as_vbase2 as_ in
  let vtop2 := u32 (vbase2 + u32 (as_npages2 as_ * PAGE_SIZE)) in
  let stackbase := USERSTACK - DUMBVM_STACKPAGES * PAGE_SIZE in
  let stacktop := USERSTACK in
  if (faultaddress >=? vbase1) && (faultaddress <? vtop1) then
    Some (u32 (u32 (faultaddress - vbase1) + as_pbase1 as_))
  else if (faultaddress >=? vbase2) && (faultaddress <? vtop2) then
    Some (u32 (u32 (faultaddress - vbase2) + as_pbase2 as_))
  else if (faultaddress >=? stackbase) && (faultaddress <? stacktop) then
    Some (u32 (u32 (faultaddress - stackbase) + as_stackpbase as_))
  else None.

(** "Assert that the address space has been set up properly." *)
Definition as_setup (as_ : addrspace) : bool :=
  negb (as_vbase1 as_ =? 0) && negb (as_pbase1 as_ =? 0) && negb (as_npages1 as_ =? 0) &&
  negb (as_vbase2 as_ =? 0) && negb (as_pbase2 as_ =? 0) && negb (as_npages2 as_ =? 0) &&
  negb (as_stackpbase as_ =? 0) &&
  (Z.land (as_vbase1 as_) PAGE_FRAME =? as_vbase1 as_) &&
  (Z.land (as_pbase1 as_) PAGE_FRAME =? as_pbase1 as_) &&
  (Z.land (as_vbase2 as_) PAGE_FRAME =? as_vbase2 as_) &&
  (Z.land (as_pbase2 as_) PAGE_FRAME =? as_pbase2 as_) &&
  (Z.land (as_stackpbase as_) PAGE_FRAME =? as_stackpbase as_).

(** The loop over the TLB from entry [i]: the first entry that is not valid is
    overwritten; [None] when all are valid. *)
Fixpoint tlb_load (n : nat) (i : Z) (ehi elo : Z) (t : list (Z * Z)) : exec (option (list (Z * Z))) :=
  match n with
  | O => Done None
  | S n' =>
      '(_, lo) ← rd t i;
      if negb (Z.land lo TLBLO_VALID =? 0) then tlb_load n' (i + 1) ehi elo t
      else t' ← wr t i (ehi, elo); Done (Some t')
  end.

(** [curas] is [curthread->t_vmspace]. *)
Definition vm_fault (v : vm) (curas : option addrspace) (ft : faulttype) (faultaddress : Z)
  : exec (vm * ret unit) :=
  let '(c1, spl) := Spl.splhigh (cpu v) in
  let faultaddress := Z.land faultaddress PAGE_FRAME in
  let leave (t : list (Z * Z)) (r : ret unit) := Done (mk_vm t (fst (Spl.splx c1 spl)), r) in
  match ft with
  | VM_FAULT_READONLY => Halt Panic
  | VM_FAULT_OTHER => leave (tlb v) (Err EINVAL)
  | VM_FAULT_READ | VM_FAULT_WRITE =>
      match curas with
      | None => Done (mk_vm (tlb v) c1, Err EFAULT)
      | Some as_ =>
          assert! as_setup as_;
          match as_translate as_ faultaddress with
          | None => leave (tlb v) (Err EFAULT)
          | Some paddr =>
              assert! Z.land paddr PAGE_FRAME =? paddr;
              let elo := Z.lor (Z.lor paddr TLBLO_DIRTY) TLBLO_VALID in
              r ← tlb_load (Z.to_nat NUM_TLB) 0 faultaddress elo (tlb v);
              match r with
              | Some t => leave t (Ok tt)
              | None => leave (tlb v) (Err EFAULT)
              end
          end
      end
  end.

(** ** Translation *)

(** The offset of [va] in the segment it falls into, with the segment's number. *)
Definition as_segment (as_ : addrspace) (va : Z) : option (nat * Z) :=
  if (as_vbase1 as_ <=? va) && (va <? as_vbase1 as_ + as_npages1 as_ * PAGE_SIZE) then
    Some (0%nat, va - as_vbase1 as_)
  else if (as_vbase2 as_ <=? va) && (va <? as_vbase2 as_ + as_npages2 as_ * PAGE_SIZE) then
    Some (1%nat, va - as_vbase2 as_)
  else if (USERSTACK - DUMBVM_STACKPAGES * PAGE_SIZE <=? va) && (va <? USERSTACK) then
    Some (2%nat, va - (USERSTACK - DUMBVM_STACKPAGES * PAGE_SIZE))
  else None.

Lemma as_segment_range as_ va i k : as_segment as_ va = Some (i, k) ->
  exists a n, as_runs as_ !! i = Some (a, n) /\ 0 <= k < n * PAGE_SIZE.
Proof.
  unfold as_segment. intros E. repeat case_bool_in E; try done; injection E as <- <-;
    eexists _, _; (split; [reflexivity|]); unfold DUMBVM_STACKPAGES, PAGE_SIZE in *; lia.
Qed.

Lemma as_translate_spec cm as_ va : Coremap.cm_inv cm -> as_ok cm as_ -> 0 <= va < 2 ^ 32 ->
  as_translate as_ va =
  '(i, k) ← as_segment as_ va; '(a, _) ← as_runs as_ !! i; Some (a + k).
Proof.
  intros Hinv (Hlay & Hruns & _) Hva. destruct Hlay as [(? & ? & ? & ?) (? & ? & ? & ?)].
  unfold as_runs in *. rewrite !list.Forall_cons in Hruns. destruct Hruns as (R1 & R2 & R3 & _).
  apply Coremap.phys_run_range in R1, R2, R3; [|done..].
  unfold as_translate, as_segment, DUMBVM_STACKPAGES, USERSTACK, USERTOP, MIPS_KSEG0, PAGE_SIZE in *.
  rewrite (u32_small (as_npages1 as_ * 4096)), (u32_small (as_npages2 as_ * 4096)) by lia.
  rewrite (u32_small (as_vbase1 as_ + _)), (u32_small (as_vbase2 as_ + _)) by lia.
  rewrite !Z.geb_leb. repeat case_bool; simpl; try done; f_equal;
    rewrite (u32_small (va - _)), u32_small by lia; lia.
Qed.

(** A translated address lies in one of the runs of the address space. *)
Lemma as_translate_in_run cm as_ va pa : Coremap.cm_inv cm -> as_ok cm as_ -> 0 <= va < 2 ^ 32 ->
  as_translate as_ va = Some pa -> exists a n, (a, n) ∈ as_runs as_ /\ in_run a n pa.
Proof.
  intros Hinv Hok Hva. rewrite (as_translate_spec cm) by done.
  destruct (as_segment as_ va) as [[i k]|] eqn:E; simpl; [|done].
  apply as_segment_range in E as (a & n & E & Hk). rewrite E. simpl. intros [= <-].
  exists a, n. split; [by eapply list_elem_of_lookup_2|]. unfold in_run. lia.
Qed.

(** The contents after the three copies of [as_copy]. *)
Lemma as_copy_contents pm old new i k a n a' :
  as_runs old !! i = Some (a, n) -> as_runs new !! i = Some (a', n) -> 0 <= k < n * PAGE_SIZE ->
  as_npages1 new = as_npages1 old -> as_npages2 new = as_npages2 old ->
  0 <= as_npages1 old * PAGE_SIZE < 2 ^ 32 -> 0 <= as_npages2 old * PAGE_SIZE < 2 ^ 32 ->
  (forall x y, x ∈ as_runs new -> y ∈ as_runs old -> Coremap.apart y.1 y.2 x.1 x.2) ->
  Coremap.apart (as_pbase1 new) (as_npages1 new) (as_pbase2 new) (as_npages2 new) ->
  Coremap.apart (as_pbase1 new) (as_npages1 new) (as_stackpbase new) DUMBVM_STACKPAGES ->
  Coremap.apart (as_pbase2 new) (as_npages2 new) (as_stackpbase new) DUMBVM_STACKPAGES ->
  pmove (pmove (pmove pm (as_pbase1 new) (as_pbase1 old) (u32 (as_npages1 old * PAGE_SIZE)))
    (as_pbase2 new) (as_pbase2 old) (u32 (as_npages2 old * PAGE_SIZE)))
    (as_stackpbase new) (as_stackpbase old) (DUMBVM_STACKPAGES * PAGE_SIZE) (a' + k) = pm (a + k).
Proof.
  intros Ea Ea' Hk En1 En2 Hn1 Hn2 Hap H12 H13 H23. rewrite !u32_small by done.
  pose proof (Hap (as_pbase1 new, as_npages1 new) (as_pbase2 old, as_npages2 old)
    ltac:(left) ltac:(right; left)) as X1.
  pose proof (Hap (as_pbase1 new, as_npages1 new) (as_stackpbase old, DUMBVM_STACKPAGES)
    ltac:(left) ltac:(right; right; left)) as X2.
  pose proof (Hap (as_pbase2 new, as_npages2 new) (as_stackpbase old, DUMBVM_STACKPAGES)
    ltac:(right; left) ltac:(right; right; left)) as X3.
  unfold Coremap.apart in *. simpl in *. rewrite En1, En2 in *.
  destruct i as [|[|[|i]]]; [| | |done]; unfold as_runs in *; simpl in Ea, Ea'; simplify_eq.
  - rewrite pmove_out, pmove_out, pmove_in by lia. done.
  - rewrite pmove_out, pmove_in, pmove_out by lia. done.
  - rewrite pmove_in, pmove_out, pmove_out by lia. done.
Qed.

(** Memory in the runs of [cm] is left alone by [as_copy]. *)
Lemma as_copy_kept cm pm old new a n x :
  0 <= as_npages1 old * PAGE_SIZE < 2 ^ 32 -> 0 <= as_npages2 old * PAGE_SIZE < 2 ^ 32 ->
  as_npages1 new = as_npages1 old -> as_npages2 new = as_npages2 old ->
  Forall (fun '(a', n') => new_run cm a' n') (as_runs new) ->
  Coremap.phys_run cm a n -> in_run a n x ->
  pmove (pmove (pmove pm (as_pbase1 new) (as_pbase1 old) (u32 (as_npages1 old * PAGE_SIZE)))
    (as_pbase2 new) (as_pbase2 old) (u32 (as_npages2 old * PAGE_SIZE)))
    (as_stackpbase new) (as_stackpbase old) (DUMBVM_STACKPAGES * PAGE_SIZE) x = pm x.
Proof.
  intros Hn1 Hn2 E1 E2 Hnew Hrun Hx. rewrite !u32_small by done.
  unfold as_runs in Hnew. rewrite !list.Forall_cons in Hnew. destruct Hnew as (N1 & N2 & N3 & _).
  specialize (N1 _ _ Hrun). specialize (N2 _ _ Hrun). specialize (N3 _ _ Hrun).
  unfold Coremap.apart, in_run in *. rewrite E1, E2 in *. by rewrite !pmove_out by lia.
Qed.

(** The copy of an address space. *)
Lemma as_copy_spec mem cm pm old : Coremap.cm_inv cm -> as_ok cm old ->
  exists cm' pm' r, as_copy mem cm pm old = Done ((cm', pm'), r) /\ Coremap.cm_inv cm' /\
    (forall a n, Coremap.phys_run cm a n ->
       Coremap.phys_run cm' a n /\ forall x, in_run a n x -> pm' x = pm x) /\
    match r with
    | Err e => e = ENOMEM /\ (mem sizeof_addrspace = false \/ no_pages cm' old)
    | Ok new => as_ok cm' new /\ as_ok cm' old /\
        forall va, 0 <= va < 2 ^ 32 ->
          match as_translate old va, as_translate new va with
          | Some pa, Some pa' => pm' pa' = pm pa /\
              forall a n, Coremap.phys_run cm a n -> ~ in_run a n pa'
          | None, None => True
          | _, _ => False
          end
    end.
Proof.
  intros Hinv Hok. pose proof Hok as (Hlay & Hruns & Hne).
  pose proof Hlay as [(? & ? & ? & ?) (? & ? & ? & ?)].
  unfold as_copy, as_create. destruct (mem sizeof_addrspace); simpl.
  2: { eexists _, _, _. split; [done|]. split; [done|]. split; [by intros a n|auto]. }
  set (new0 := mk_as _ _ _ _ _ _ _).
  destruct (as_prepare_load_spec cm new0) as (cm' & as' & r & E & Hinv' & Hkeep & Hr);
    [done..|unfold PAGE_SIZE in *; simpl; lia|unfold PAGE_SIZE in *; simpl; lia|].
  rewrite E. run.
  destruct Hr as [[-> Hno]|(-> & a1 & a2 & a3 & -> & Ha1 & Ha2 & Ha3 & Hall & H12 & H13 & H23)].
  { eexists _, _, _. split; [done|]. split; [done|]. split; [intros a n Hrun; auto|].
    split; [done|]. by right. }
  set (new := set_stackpbase (set_pbase2 (set_pbase1 new0 a1) a2) a3) in *.
  change (as_pbase1 new) with a1. change (as_pbase2 new) with a2.
  change (as_stackpbase new) with a3.
  destruct (Z.eqb_spec a1 0) as [|_]; [done|]. destruct (Z.eqb_spec a2 0) as [|_]; [done|].
  destruct (Z.eqb_spec a3 0) as [|_]; [done|]. run.
  assert (Forall (fun '(a, n) => new_run cm a n) (as_runs new)) as Hnew.
  { eapply Forall_impl; [|exact Hall]. intros [a n] [_ ?]. done. }
  assert (Forall (fun '(a, n) => Coremap.phys_run cm' a n) (as_runs new)) as Hphys.
  { eapply Forall_impl; [|exact Hall]. intros [a n] [? _]. done. }
  assert (as_ok cm' new) as Hoknew.
  { split; [done|]. split; [done|]. unfold Coremap.apart, DUMBVM_STACKPAGES, PAGE_SIZE in *.
    simpl in *. lia. }
  eexists _, _, _. split; [done|]. split; [done|]. split.
  { intros a n Hrun. split; [by apply Hkeep|]. intros x Hx.
    by apply (as_copy_kept cm pm old new a n x); try done; unfold PAGE_SIZE in *; simpl; lia. }
  split; [done|]. split.
  { split; [done|]. split; [|done]. eapply Forall_impl; [|exact Hruns]. intros [a n]. apply Hkeep. }
  intros va Hva. rewrite (as_translate_spec cm old), (as_translate_spec cm' new) by done.
  assert (as_segment new va = as_segment old va) as -> by done.
  destruct (as_segment old va) as [[i k]|] eqn:Eseg; simpl; [|done].
  apply as_segment_range in Eseg as (a & n & Eold & Hk). rewrite Eold. simpl.
  assert (exists a', as_runs new !! i = Some (a', n)) as [a' Enew].
  { destruct i as [|[|[|i]]]; [| | |done]; unfold as_runs in *; simpl in *; simplify_eq; eauto. }
  rewrite Enew. simpl. split.
  - apply (as_copy_contents pm old new i k a n a'); try done;
      try (unfold PAGE_SIZE in *; simpl; lia).
    intros [x1 x2] [y1 y2] Hx Hy. simpl. rewrite list.Forall_forall in Hnew, Hruns.
    apply (Hnew _ Hx), (Hruns _ Hy).
  - intros b m Hrun Hin. rewrite list.Forall_forall in Hnew.
    specialize (Hnew (a', n) ltac:(by eapply list_elem_of_lookup_2) _ _ Hrun).
    unfold Coremap.apart, in_run in *. lia.
Qed.

(** C12. [as_copy] (the memory side of [fork]): it never stops the kernel; it
    yields an address space in which every user address reads what it reads in
    the original, is mapped exactly where it is mapped there, and lies in physical
    memory that belonged to no run before; or it fails with [ENOMEM], and then
    there was no memory for the record, or as many contiguous pages as one of the
    three runs needs are not free.  Every run allocated before, the original's
    included, keeps its contents. *)
Theorem as_copy_isolates mem cm pm old : Coremap.cm_inv cm -> as_ok cm old ->
  exists cm' pm' r, as_copy mem cm pm old = Done ((cm', pm'), r) /\ Coremap.cm_inv cm' /\
    (forall a n, Coremap.phys_run cm a n ->
       Coremap.phys_run cm' a n /\ forall x, in_run a n x -> pm' x = pm x) /\
    match r with
    | Err e => e = ENOMEM /\ (mem sizeof_addrspace = false \/ no_pages cm' old)
    | Ok new => as_ok cm' new /\ as_ok cm' old /\
        forall va, 0 <= va < 2 ^ 32 ->
          match as_translate old va, as_translate new va with
          | Some pa, Some pa' => pm' pa' = pm pa /\
              forall a n, Coremap.phys_run cm a n -> ~ in_run a n pa'
          | None, None => True
          | _, _ => False
          end
    end.
Proof. apply as_copy_spec. Qed.

(** ** The TLB *)

Definition entry_valid (lo : Z) : bool := negb (Z.land lo TLBLO_VALID =? 0).

(** Every valid entry maps a page of the address space to the page that backs it. *)
Definition tlb_ok (as_ : addrspace) (t : list (Z * Z)) : Prop :=
  Z.of_nat (length t) = NUM_TLB /\
  forall i hi lo, t !! i = Some (hi, lo) -> entry_valid lo = true ->
    as_translate as_ hi = Some (Z.land lo PAGE_FRAME).

Lemma tlb_load_spec n i ehi elo t : 0 <= i -> i + Z.of_nat n = Z.of_nat (length t) ->
  (exists j hi lo, i <= j < Z.of_nat (length t) /\ t !! Z.to_nat j = Some (hi, lo) /\
     entry_valid lo = false /\
     tlb_load n i ehi elo t = Done (Some (<[Z.to_nat j := (ehi, elo)]> t))) \/
  (tlb_load n i ehi elo t = Done None /\
   forall j hi lo, i <= Z.of_nat j -> t !! j = Some (hi, lo) -> entry_valid lo = true).
Proof.
  revert i; induction n as [|n IH]; intros i Hi Hn; cbn [tlb_load].
  { right. split; [done|]. intros j hi lo Hj Hl%lookup_lt_Some. lia. }
  destruct (rd_lt t i) as [[hi lo] Hrd]; [lia|]. rewrite Hrd. run.
  fold (entry_valid lo). apply rd_inv in Hrd as [_ Hlk].
  destruct (entry_valid lo) eqn:Ev.
  - destruct (IH (i + 1)) as [(j & hi' & lo' & ? & ? & ? & ->)|[-> Hall]]; [lia|lia|left|right].
    + exists j, hi', lo'. split_and!; try done; lia.
    + split; [done|]. intros j hi' lo' Hj Hl. destruct (decide (j = Z.to_nat i)) as [->|].
      * congruence.
      * apply (Hall j hi' lo'); [lia|done].
  - left. rewrite wr_Done by lia. run. exists i, hi, lo. split_and!; try done; lia.
Qed.

(** The low word [vm_fault] writes: valid, and it names the page. *)
Lemma elo_spec pa : 0 <= pa < 2 ^ 32 -> pa mod PAGE_SIZE = 0 ->
  let elo := Z.lor (Z.lor pa TLBLO_DIRTY) TLBLO_VALID in
  entry_valid elo = true /\ Z.land elo PAGE_FRAME = pa.
Proof.
  intros Hpa Hal. simpl. unfold entry_valid, TLBLO_VALID, TLBLO_DIRTY. split.
  - change 0x200 with (2 ^ 9). rewrite land_pow2 by lia. rewrite lor_pow2 by lia.
    by rewrite orb_true_r.
  - rewrite !Z.land_lor_distr_l. rewrite (page_frame pa) by lia.
    change (Z.land 0x400 PAGE_FRAME) with 0. change (Z.land 0x200 PAGE_FRAME) with 0.
    rewrite !Z.lor_0_r. unfold PAGE_SIZE in *. zlia.
Qed.

Lemma as_setup_ok cm as_ : Coremap.cm_inv cm -> as_ok cm as_ -> as_setup as_ = true.
Proof.
  intros Hinv (Hlay & Hruns & _). destruct Hlay as [(? & ? & ? & ?) (? & ? & ? & ?)].
  unfold as_runs in Hruns. rewrite !list.Forall_cons in Hruns. destruct Hruns as (R1 & R2 & R3 & _).
  apply Coremap.phys_run_range in R1, R2, R3; [|done..].
  destruct R1 as (? & ? & ? & ?), R2 as (? & ? & ? & ?), R3 as (? & ? & ? & ?).
  unfold as_setup. unfold PAGE_SIZE, DUMBVM_STACKPAGES in *. rewrite !page_frame by lia.
  unfold PAGE_SIZE. repeat (apply andb_true_intro; split); rewrite ?negb_true_iff, ?Z.eqb_neq, ?Z.eqb_eq;
    zlia.
Qed.

(** Translation of a page address is a page address. *)
Lemma as_translate_aligned cm as_ va pa : Coremap.cm_inv cm -> as_ok cm as_ -> 0 <= va < 2 ^ 32 ->
  va mod PAGE_SIZE = 0 -> as_translate as_ va = Some pa ->
  0 <= pa < 2 ^ 32 /\ pa mod PAGE_SIZE = 0.
Proof.
  intros Hinv Hok Hva Hal Htr.
  destruct (as_translate_in_run cm as_ va pa Hinv Hok Hva Htr) as (a & n & Hin & Hpa).
  pose proof Hok as (Hlay & Hruns & _). rewrite list.Forall_forall in Hruns.
  destruct (Coremap.phys_run_range _ _ _ Hinv (Hruns _ Hin)) as (_ & ? & _ & ?).
  unfold in_run in Hpa. split; [lia|].
  rewrite (as_translate_spec cm) in Htr by done. revert Htr. unfold as_segment.
  destruct Hlay as [(? & ? & ? & ?) (? & ? & ? & ?)].
  assert (forall x m, (x, m) ∈ as_runs as_ -> x mod PAGE_SIZE = 0) as Hmod.
  { intros x m Hx. by apply (Coremap.phys_run_range _ _ _ Hinv (Hruns _ Hx)). }
  pose proof (Hmod _ _ ltac:(left)) as M1. pose proof (Hmod _ _ ltac:(right; left)) as M2.
  pose proof (Hmod _ _ ltac:(right; right; left)) as M3.
  unfold DUMBVM_STACKPAGES, USERSTACK, USERTOP, MIPS_KSEG0, PAGE_SIZE in *.
  repeat case_bool; simpl; try done; intros [= <-]; zlia.
Qed.

Lemma vm_fault_spec cm as_ v ft fa :
  Coremap.cm_inv cm -> as_ok cm as_ -> tlb_ok as_ (tlb v) -> Spl.cpu_ok (cpu v) ->
  0 <= fa < 2 ^ 32 -> ft = VM_FAULT_READ \/ ft = VM_FAULT_WRITE ->
  let page := fa / PAGE_SIZE * PAGE_SIZE in
  exists v' r, vm_fault v (Some as_) ft fa = Done (v', r) /\ cpu v' = cpu v /\
    tlb_ok as_ (tlb v') /\
    (forall i hi lo, tlb v' !! i = Some (hi, lo) -> entry_valid lo = true -> 0 <= hi < 2 ^ 32 ->
       exists a n, (a, n) ∈ as_runs as_ /\ in_run a n (Z.land lo PAGE_FRAME)) /\
    match as_translate as_ page with
    | None => r = Err EFAULT /\ tlb v' = tlb v
    | Some pa =>
        (r = Ok tt /\ exists j hi lo, tlb v !! j = Some (hi, lo) /\ entry_valid lo = false /\
           tlb v' = <[j := (page, Z.lor (Z.lor pa TLBLO_DIRTY) TLBLO_VALID)]> (tlb v)) \/
        (r = Err EFAULT /\ tlb v' = tlb v /\
         forall j hi lo, tlb v !! j = Some (hi, lo) -> entry_valid lo = true)
    end.
Proof.
  intros Hinv Hok Htlb Hcpu Hfa Hft page. pose proof Htlb as [Hlen Hmap].
  assert (0 <= page < 2 ^ 32 /\ page mod PAGE_SIZE = 0) as [Hpage Hpal].
  { subst page. unfold PAGE_SIZE. split; [zlia|]. by rewrite Z.mod_mul. }
  assert (forall t, tlb_ok as_ t -> forall i hi lo, t !! i = Some (hi, lo) ->
    entry_valid lo = true -> 0 <= hi < 2 ^ 32 ->
    exists a n, (a, n) ∈ as_runs as_ /\ in_run a n (Z.land lo PAGE_FRAME)) as Hown.
  { intros t [_ Ht] i hi lo Hl Hv Hhi. by eapply as_translate_in_run, Ht. }
  pose proof (Spl.splhigh_splx (cpu v) Hcpu) as Hspl.
  assert (vm_fault v (Some as_) ft fa = vm_fault v (Some as_) VM_FAULT_READ fa) as ->
    by (by destruct Hft as [->| ->]).
  unfold vm_fault. destruct (Spl.splhigh (cpu v)) as [c1 spl]. cbn [fst snd] in Hspl.
  rewrite (page_frame fa) by done. fold page. rewrite (as_setup_ok cm) by done. run.
  destruct (as_translate as_ page) as [pa|] eqn:Etr.
  - destruct (as_translate_aligned cm as_ page pa Hinv Hok Hpage Hpal Etr) as [Hpa Hpaal].
    rewrite page_frame by done.
    assert (pa / PAGE_SIZE * PAGE_SIZE = pa) as -> by (unfold PAGE_SIZE in *; zlia).
    rewrite Z.eqb_refl. run. destruct (elo_spec pa Hpa Hpaal) as [Hev Hef].
    set (elo := Z.lor _ _) in *.
    destruct (tlb_load_spec (Z.to_nat NUM_TLB) 0 page elo (tlb v))
      as [(j & hi & lo & Hj & Hl & Hinvalid & ->)|[-> Hall]];
      [done|unfold NUM_TLB in *; lia| |]; run; eexists _, _; (split; [reflexivity|]).
    + assert (tlb_ok as_ (<[Z.to_nat j := (page, elo)]> (tlb v))) as Hok'.
      { split; [by rewrite length_insert|]. intros i hi' lo'.
        rewrite list_lookup_insert_Some. intros [(_ & [= <- <-] & _)|[_ Hl']] Hv'.
        - by rewrite Hef.
        - by apply (Hmap i). }
      split_and!; try done; [by apply Hown|]. left. split; [done|]. by exists (Z.to_nat j), hi, lo.
    + split_and!; try done; [by apply Hown|]. right. split_and!; try done.
      intros j hi lo Hl. apply (Hall j hi lo); [lia|done].
  - eexists _, _. split; [reflexivity|]. split_and!; try done. by apply Hown.
Qed.

(** C26. Page faults: with a well-formed address space current, [vm_fault] on a
    read or write fault never stops the kernel and restores the interrupt
    level.  An address of the address space gets the first TLB entry that is
    not valid, mapping its page to the page that backs it, or [EFAULT] when all
    64 entries are valid; any other address gets [EFAULT] and leaves the TLB
    alone.  The TLB maps only pages of the address space, each into one of its
    own physical runs, before and after. *)
Theorem vm_fault_correct cm as_ v ft fa :
  Coremap.cm_inv cm -> as_ok cm as_ -> tlb_ok as_ (tlb v) -> Spl.cpu_ok (cpu v) ->
  0 <= fa < 2 ^ 32 -> ft = VM_FAULT_READ \/ ft = VM_FAULT_WRITE ->
  let page := fa / PAGE_SIZE * PAGE_SIZE in
  exists v' r, vm_fault v (Some as_) ft fa = Done (v', r) /\ cpu v' = cpu v /\
    tlb_ok as_ (tlb v') /\
    (forall i hi lo, tlb v' !! i = Some (hi, lo) -> entry_valid lo = true -> 0 <= hi < 2 ^ 32 ->
       exists a n, (a, n) ∈ as_runs as_ /\ in_run a n (Z.land lo PAGE_FRAME)) /\
    match as_translate as_ page with
    | None => r = Err EFAULT /\ tlb v' = tlb v
    | Some pa =>
        (r = Ok tt /\ exists j hi lo, tlb v !! j = Some (hi, lo) /\ entry_valid lo = false /\
           tlb v' = <[j := (page, Z.lor (Z.lor pa TLBLO_DIRTY) TLBLO_VALID)]> (tlb v)) \/
        (r = Err EFAULT /\ tlb v' = tlb v /\
         forall j hi lo, tlb v !! j = Some (hi, lo) -> entry_valid lo = true)
    end.
Proof. apply vm_fault_spec. Qed.

(** The other outcomes of [vm_fault]: a write to a read-only page panics,
    an unknown fault code gives [EINVAL], and a fault without an address space
    gives [EFAULT]; in this last case the code returns without [splx], so the
    processor is left with interrupts off, whatever its level was. *)
Theorem vm_fault_errors v as_ fa : Spl.cpu_ok (cpu v) ->
  vm_fault v as_ VM_FAULT_READONLY fa = Halt Panic /\
  vm_fault v as_ VM_FAULT_OTHER fa = Done (v, Err EINVAL) /\
  forall ft, ft = VM_FAULT_READ \/ ft = VM_FAULT_WRITE ->
    vm_fault v None ft fa = Done (mk_vm (tlb v) (Spl.mk_cpu Spl.SPL_HIGH false), Err EFAULT).
Proof.
  intros Hcpu. split; [done|]. split; [|by intros ft [->| ->]].
  pose proof (Spl.splhigh_splx (cpu v) Hcpu) as Hspl.
  unfold vm_fault. destruct (Spl.splhigh (cpu v)) as [c1 spl]. cbn [fst snd] in Hspl.
  rewrite Hspl. by destruct v.
Qed.

Lemma as_activate_spec t : Z.of_nat (length t) = NUM_TLB ->
  exists t', as_activate t = Done t' /\ (forall as_, tlb_ok as_ t') /\
    forall i hi lo, t' !! i = Some (hi, lo) ->
      entry_valid lo = false /\ hi = MIPS_KSEG0 + Z.of_nat i * PAGE_SIZE.
Proof.
  intros Hlen. unfold as_activate.
  destruct (for_range_ind (fun k t' => Z.of_nat (length t') = NUM_TLB /\
    forall i, Z.of_nat i < k -> (i < 64)%nat ->
      t' !! i = Some (TLBHI_INVALID (Z.of_nat i), TLBLO_INVALID))
    (fun i tlb => wr tlb i (TLBHI_INVALID i, TLBLO_INVALID)) 0 NUM_TLB t) as (t' & -> & Hl & Ht');
    [done|split; [done|lia]| |].
  - intros j t1 Hj [Hl1 Ht1]. unfold NUM_TLB in *. rewrite wr_Done by lia.
    eexists. split; [done|]. split; [by rewrite length_insert|]. intros i Hi Hi64.
    rewrite list_lookup_insert. case_decide as Hd.
    + destruct Hd as [<- _]. by rewrite Z2Nat.id by lia.
    + apply Ht1; [|done]. lia.
  - assert (forall i hi lo, t' !! i = Some (hi, lo) ->
      entry_valid lo = false /\ hi = MIPS_KSEG0 + Z.of_nat i * PAGE_SIZE) as Hent.
    { intros i hi lo E. apply lookup_lt_Some in E as Hi. unfold NUM_TLB in *.
      rewrite Ht' in E by lia. injection E as <- <-. split; [done|].
      unfold TLBHI_INVALID, MIPS_KSEG0, PAGE_SIZE. rewrite Z.shiftl_mul_pow2 by lia.
      rewrite u32_small by lia. lia. }
    exists t'. split; [done|]. split; [|done]. intros as_. split; [done|].
    intros i hi lo E Hv. destruct (Hent _ _ _ E) as [Hv' _]. congruence.
Qed.

(** [as_activate] empties the TLB: no entry is valid afterwards, so it is
    consistent with any address space, and its entries name 64 distinct pages
    outside user space. *)
Theorem as_activate_flushes t : Z.of_nat (length t) = NUM_TLB ->
  exists t', as_activate t = Done t' /\ (forall as_, tlb_ok as_ t') /\
    forall i hi lo, t' !! i = Some (hi, lo) ->
      entry_valid lo = false /\ hi = MIPS_KSEG0 + Z.of_nat i * PAGE_SIZE.
Proof. apply as_activate_spec. Qed.

(** *** Small programs do not run out of entries

    An entry is never replaced; only [as_activate] empties the TLB.  An address
    space with no more pages than the TLB has entries is safe. *)

Definition tlb_enough (as_ : addrspace) : bool :=
  as_npages1 as_ + as_npages2 as_ + DUMBVM_STACKPAGES <=? NUM_TLB.

(** An access at [va]: the processor finds the page in the TLB or [vm_fault] is called. *)
Definition tlb_hit (t : list (Z * Z)) (page : Z) : bool :=
  existsb (fun '(hi, lo) => (hi =? page) && entry_valid lo) t.

Definition touch (as_ : addrspace) (v : vm) (va : Z) : exec (vm * ret unit) :=
  if tlb_hit (tlb v) (Z.land va PAGE_FRAME) then Done (v, Ok tt) else vm_fault v (Some as_) VM_FAULT_READ va.

Fixpoint touch_all (as_ : addrspace) (v : vm) (l : list Z) : exec (vm * ret unit) :=
  match l with
  | [] => Done (v, Ok tt)
  | va :: l' =>
      '(v1, r) ← touch as_ v va;
      match r with Err e => Done (v1, Err e) | Ok _ => touch_all as_ v1 l' end
  end.

Definition pages_of (base n : Z) : list Z := (fun k => base + k * PAGE_SIZE) <$> seqZ 0 n.
Definition as_pages (as_ : addrspace) : list Z :=
  pages_of (as_vbase1 as_) (as_npages1 as_) ++ pages_of (as_vbase2 as_) (as_npages2 as_) ++
  pages_of (USERSTACK - DUMBVM_STACKPAGES * PAGE_SIZE) DUMBVM_STACKPAGES.

Lemma pages_of_in base n p : base <= p < base + n * PAGE_SIZE -> (p - base) mod PAGE_SIZE = 0 -> p ∈ pages_of base n.
Proof.
  intros Hp Hm. apply list_elem_of_fmap. exists ((p - base) / PAGE_SIZE).
  rewrite elem_of_seqZ. unfold PAGE_SIZE in *. zlia.
Qed.

Lemma as_pages_in cm as_ page : Coremap.cm_inv cm -> as_ok cm as_ -> 0 <= page < 2 ^ 32 -> page mod PAGE_SIZE = 0 ->
  is_Some (as_translate as_ page) -> page ∈ as_pages as_.
Proof.
  intros Hcm Hok Hp Hm [pa E]. rewrite (as_translate_spec cm) in E by done. revert E. unfold as_segment, as_pages.
  destruct Hok as [[(? & ? & ? & ?) (? & ? & ? & ?)] _]. rewrite !elem_of_app.
  assert (USERSTACK = 0x80000000) as Eu by done. rewrite Eu. unfold DUMBVM_STACKPAGES, PAGE_SIZE in *.
  repeat case_bool; simpl; intros E; try done;
    first [left; apply pages_of_in; unfold PAGE_SIZE; zlia
          |right; left; apply pages_of_in; unfold PAGE_SIZE; zlia
          |right; right; apply pages_of_in; unfold PAGE_SIZE; zlia].
Qed.

Lemma length_as_pages as_ : 0 <= as_npages1 as_ -> 0 <= as_npages2 as_ ->
  Z.of_nat (length (as_pages as_)) = as_npages1 as_ + as_npages2 as_ + DUMBVM_STACKPAGES.
Proof.
  intros. unfold as_pages, pages_of, DUMBVM_STACKPAGES. rewrite !length_app, !length_fmap, !length_seqZ. lia.
Qed.

(** The pages with a valid entry: pages of the address space, none of them twice. *)
Definition valid_pages (t : list (Z * Z)) : list Z := (filter (fun e => entry_valid (snd e) = true) t).*1.

Definition tlb_fits (as_ : addrspace) (t : list (Z * Z)) : Prop :=
  NoDup (valid_pages t) /\ Forall (fun p => p ∈ as_pages as_) (valid_pages t).

Lemma valid_pages_insert t j page elo hi lo : t !! j = Some (hi, lo) -> entry_valid lo = false -> entry_valid elo = true ->
  valid_pages (<[j := (page, elo)]> t) ≡ₚ page :: valid_pages t.
Proof.
  intros Hj Hl He. rewrite <- (take_drop_middle t j (hi, lo) Hj) at 2.
  rewrite insert_take_drop by (by eapply lookup_lt_Some). unfold valid_pages.
  rewrite !list.filter_app, !list.filter_cons. cbn [snd]. rewrite Hl, He. simpl. rewrite !fmap_app. simpl.
  symmetry. apply Permutation_middle.
Qed.

Lemma valid_pages_const t b : (forall j hi lo, t !! j = Some (hi, lo) -> entry_valid lo = b) ->
  valid_pages t = if b then t.*1 else [].
Proof.
  induction t as [|[hi lo] t IH]; intros H; [by destruct b|]. unfold valid_pages in *. rewrite list.filter_cons. cbn [snd].
  pose proof (H 0%nat hi lo eq_refl) as E. rewrite E.
  specialize (IH (fun j hi' lo' Hj => H (S j) hi' lo' Hj)). destruct b.
  - rewrite decide_True, fmap_cons by done. by rewrite IH.
  - by rewrite decide_False by done.
Qed.

Lemma valid_pages_all t : (forall j hi lo, t !! j = Some (hi, lo) -> entry_valid lo = true) -> length (valid_pages t) = length t.
Proof. intros H. rewrite (valid_pages_const t true) by done. apply length_fmap. Qed.

Lemma tlb_hit_in t page : tlb_hit t page = false -> page ∉ valid_pages t.
Proof.
  intros H Hin. apply list_elem_of_fmap in Hin as ([hi lo] & -> & [Hv Hin]%list_elem_of_filter). simpl in *.
  assert (tlb_hit t hi = true); [|congruence]. apply existsb_exists. exists (hi, lo).
  split; [by apply list_elem_of_In|]. by rewrite Z.eqb_refl.
Qed.

Lemma as_define_region_spec as_ vaddr sz :
  0 <= vaddr -> 0 < sz -> vaddr + sz + PAGE_SIZE < 2 ^ 32 ->
  let '(as', r) := as_define_region as_ vaddr sz in
  if negb (as_vbase1 as_ =? 0) && negb (as_vbase2 as_ =? 0) then as' = as_ /\ r = Err EUNIMP
  else
    r = Ok tt /\ exists base n,
      base mod PAGE_SIZE = 0 /\ base <= vaddr < base + PAGE_SIZE /\
      vaddr + sz <= base + n * PAGE_SIZE < vaddr + sz + PAGE_SIZE /\
      as' = if as_vbase1 as_ =? 0
            then mk_as base (as_pbase1 as_) n (as_vbase2 as_) (as_pbase2 as_) (as_npages2 as_)
                   (as_stackpbase as_)
            else mk_as (as_vbase1 as_) (as_pbase1 as_) (as_npages1 as_) base (as_pbase2 as_) n
                   (as_stackpbase as_).
Proof.
  intros Hv Hsz Htop. unfold as_define_region. change 0xfff with (Z.ones 12).
  rewrite Z.land_ones by lia. change (2 ^ 12) with PAGE_SIZE.
  rewrite (u32_small (sz + _)) by (unfold PAGE_SIZE in *; zlia).
  rewrite (u32_small (sz + vaddr mod PAGE_SIZE + PAGE_SIZE)) by (unfold PAGE_SIZE in *; zlia).
  rewrite (u32_small (_ - 1)) by (unfold PAGE_SIZE in *; zlia).
  rewrite !page_frame by (unfold PAGE_SIZE in *; zlia). rewrite Z.div_mul by done.
  destruct (as_vbase1 as_ =? 0); simpl; [|destruct (as_vbase2 as_ =? 0); simpl; [|done]].
  all: split; [done|]; eexists _, _; split_and!; [..|reflexivity];
    unfold PAGE_SIZE in *; zlia.
Qed.

(** [as_define_region] on a segment that does not wrap around: the first
    free slot gets the page-aligned base and the number of pages of the smallest
    run of whole pages that covers the segment; a third segment is refused with
    [EUNIMP]. *)
Theorem as_define_region_covers as_ vaddr sz :
  0 <= vaddr -> 0 < sz -> vaddr + sz + PAGE_SIZE < 2 ^ 32 ->
  let '(as', r) := as_define_region as_ vaddr sz in
  if negb (as_vbase1 as_ =? 0) && negb (as_vbase2 as_ =? 0) then as' = as_ /\ r = Err EUNIMP
  else
    r = Ok tt /\ exists base n,
      base mod PAGE_SIZE = 0 /\ base <= vaddr < base + PAGE_SIZE /\
      vaddr + sz <= base + n * PAGE_SIZE < vaddr + sz + PAGE_SIZE /\
      as' = if as_vbase1 as_ =? 0
            then mk_as base (as_pbase1 as_) n (as_vbase2 as_) (as_pbase2 as_) (as_npages2 as_)
                   (as_stackpbase as_)
            else mk_as (as_vbase1 as_) (as_pbase1 as_) (as_npages1 as_) base (as_pbase2 as_) n
                   (as_stackpbase as_).
Proof. apply as_define_region_spec. Qed.

(** One access leaves the TLB in order. *)
Lemma touch_fits cm as_ v va : Coremap.cm_inv cm -> as_ok cm as_ -> tlb_enough as_ = true -> Spl.cpu_ok (cpu v) ->
  tlb_ok as_ (tlb v) -> tlb_fits as_ (tlb v) -> 0 <= va < 2 ^ 32 -> is_Some (as_translate as_ (va / PAGE_SIZE * PAGE_SIZE)) ->
  exists v', touch as_ v va = Done (v', Ok tt) /\ cpu v' = cpu v /\ tlb_ok as_ (tlb v') /\ tlb_fits as_ (tlb v').
Proof.
  intros Hcm Hok Hen Hcpu Htlb [Hnd Hin] Hva Htr. unfold touch. rewrite page_frame by done.
  set (page := va / PAGE_SIZE * PAGE_SIZE) in *.
  assert (0 <= page < 2 ^ 32 /\ page mod PAGE_SIZE = 0) as [Hpage Hpal].
  { subst page. unfold PAGE_SIZE. split; [zlia|]. by rewrite Z.mod_mul. }
  destruct (tlb_hit (tlb v) page) eqn:Eh; [by exists v|]. apply tlb_hit_in in Eh.
  pose proof (as_pages_in cm as_ page Hcm Hok Hpage Hpal Htr) as Hp.
  destruct (vm_fault_spec cm as_ v VM_FAULT_READ va) as (v' & r & E & Ecpu & Htlb' & _ & Hr); try done; [by left|].
  fold page in Hr. destruct Htr as [pa Htr]. rewrite Htr in Hr.
  destruct (as_translate_aligned cm as_ page pa Hcm Hok Hpage Hpal Htr) as [Hpa Hpaal].
  destruct (elo_spec pa Hpa Hpaal) as [Hev _].
  destruct Hr as [(-> & j & hi & lo & Hj & Hlo & Et)|(_ & _ & Hall)].
  - exists v'. split; [done|]. split; [done|]. split; [done|]. unfold tlb_fits. rewrite Et.
    rewrite (valid_pages_insert _ _ _ _ _ _ Hj Hlo Hev). split; [by constructor|by constructor].
  - exfalso. pose proof (valid_pages_all _ Hall) as El. destruct Htlb as [Hlen _].
    assert (page :: valid_pages (tlb v) ⊆+ as_pages as_) as Hsub%submseteq_length.
    { apply NoDup_submseteq; [by constructor|]. intros x [->|Hx]%elem_of_cons; [done|].
      rewrite list.Forall_forall in Hin. by apply Hin. }
    unfold tlb_enough in Hen. apply Z.leb_le in Hen. destruct Hok as [[(? & ? & ? & ?) (? & ? & ? & ?)] _].
    pose proof (length_as_pages as_ ltac:(lia) ltac:(lia)). simpl in Hsub. lia.
Qed.

(** C30. A program whose address space, stack included, has no more pages than the TLB has
    entries never runs out of them: after [as_activate], while no other address space
    is activated, every sequence of accesses to addresses of the address space
    succeeds, each one because the page has an entry or because [vm_fault] gives it
    one; the interrupt level is what it was and the TLB maps only pages of this
    address space. *)
Theorem small_program_runs cm as_ t v l : Coremap.cm_inv cm -> as_ok cm as_ -> tlb_enough as_ = true ->
  Z.of_nat (length t) = NUM_TLB -> as_activate t = Done (tlb v) -> Spl.cpu_ok (cpu v) ->
  Forall (fun va => 0 <= va < 2 ^ 32 /\ is_Some (as_translate as_ (va / PAGE_SIZE * PAGE_SIZE))) l ->
  exists v', touch_all as_ v l = Done (v', Ok tt) /\ cpu v' = cpu v /\ tlb_ok as_ (tlb v').
Proof.
  intros Hcm Hok Hen Hlen Eact Hcpu Hl.
  destruct (as_activate_spec t Hlen) as (t' & E & Htlb & Hinv). rewrite Eact in E. injection E as <-.
  assert (tlb_fits as_ (tlb v)) as Hfit.
  { assert (valid_pages (tlb v) = []) as E; [|unfold tlb_fits; rewrite E; by split; constructor].
    apply (valid_pages_const _ false). intros j hi lo Hj. by apply (Hinv _ _ _ Hj). }
  specialize (Htlb as_). clear Eact Hinv. revert v Hcpu Htlb Hfit.
  induction Hl as [|va l [Hva Htr] _ IH]; intros v Hcpu Htlb Hfit; cbn [touch_all]; [by exists v|].
  destruct (touch_fits cm as_ v va) as (v1 & -> & Ec & Htlb1 & Hfit1); try done. run.
  destruct (IH v1) as (v' & -> & Ec' & H); try done; [by rewrite Ec|]. exists v'. split; [done|]. split; [congruence|done].
Qed.

End Vm.

Import AddrSpace Vm.

(** A booted machine of 60 pages and an address space with two segments. *)
Definition ex_cm60 : Coremap.cm_state := Coremap.cm_fresh 0x20000 60.
Definition ex_as0 : addrspace := mk_as 0x400000 0 2 0x10000000 0 1 0.

Definition ex_as : addrspace := mk_as 0x400000 0x20000 2 0x10000000 0x22000 1 0x23000.

Lemma ex_loaded : exists cm, as_prepare_load ex_cm60 ex_as0 = Done ((cm, ex_as), Ok tt) /\
  Coremap.cm_inv cm /\ as_ok cm ex_as.
Proof.
  destruct (as_prepare_load_spec ex_cm60 ex_as0)
    as (cm & as' & r & E & Hinv & _ & Hr);
    [apply Coremap.cm_fresh_inv; (done || unfold PAGE_SIZE; lia)|done|done|done|simpl; lia|simpl; lia|].
  assert (as' = ex_as /\ r = Ok tt) as [-> ->].
  { assert (match as_prepare_load ex_cm60 ex_as0 with
      | Done ((_, a), q) => a = ex_as /\ q = Ok tt | Halt _ => False end) as Hc
      by (vm_compute; split; reflexivity).
    rewrite E in Hc. exact Hc. }
  exists cm. split; [exact E|]. split; [exact Hinv|].
  destruct Hr as [[Hr _]|(_ & a1 & a2 & a3 & _ & _ & _ & _ & Hall & _)]; [discriminate Hr|].
  split; [unfold as_layout, seg_ok, PAGE_SIZE; simpl; split_and!; (reflexivity || lia)|].
  split; [|split_and!; simpl; lia].
  eapply Forall_impl; [|exact Hall]. intros [a n] [? _]. done.
Qed.

Lemma as_copy_isolates_witness :
  exists cm cm' pm' new pa', as_prepare_load ex_cm60 ex_as0 = Done ((cm, ex_as), Ok tt) /\
    as_copy (fun _ => true) cm (fun x => x mod 256) ex_as = Done ((cm', pm'), Ok new) /\
    as_translate ex_as 0x401234 = Some 0x21234 /\ as_translate new 0x401234 = Some pa' /\
    pm' pa' = 0x34 /\ ~ in_run 0x20000 2 pa'.
Proof.
  destruct ex_loaded as (cm & E0 & Hinv & Hok).
  destruct (as_copy_isolates (fun _ => true) cm (fun x => x mod 256) ex_as Hinv Hok)
    as (cm' & pm' & r & E & Hinv' & _ & Hr).
  assert (exists new, r = Ok new) as [new ->].
  { assert (match as_prepare_load ex_cm60 ex_as0 with
      | Done ((c, _), _) => match as_copy (fun _ => true) c (fun x => x mod 256) ex_as with
                            | Done (_, Ok _) => true | _ => false end
      | Halt _ => false end = true) as Hc by (vm_compute; reflexivity).
    rewrite E0, E in Hc. destruct r as [new|]; [by exists new|discriminate Hc]. }
  destruct Hr as (_ & _ & Hr). specialize (Hr 0x401234 ltac:(lia)).
  assert (as_translate ex_as 0x401234 = Some 0x21234) as Et by (vm_compute; reflexivity). rewrite Et in Hr.
  destruct (as_translate new 0x401234) as [pa'|] eqn:En; [|destruct Hr]. destruct Hr as [Hv Hnew].
  exists cm, cm', pm', new, pa'. split; [exact E0|]. split; [exact E|]. split; [exact Et|]. split; [exact En|].
  split; [rewrite Hv; reflexivity|]. apply Hnew.
  destruct Hok as (_ & Hruns & _). apply list.Forall_cons in Hruns as [H _]. exact H.
Defined.

Definition ex_tlb : list (Z * Z) := replicate 64 (0x80000000, 0).

Lemma ex_tlb_ok : tlb_ok ex_as ex_tlb.
Proof.
  split; [done|]. intros i hi lo E. apply (lookup_replicate 64) in E as [[= -> ->] _]. done.
Qed.

Lemma vm_fault_correct_witness :
  exists v' r, vm_fault (mk_vm ex_tlb (Spl.mk_cpu 0 true)) (Some ex_as) VM_FAULT_READ 0x401234
    = Done (v', r) /\ r = Ok tt /\ tlb_ok ex_as (tlb v').
Proof.
  destruct ex_loaded as (cm & _ & Hinv & Hok).
  destruct (vm_fault_correct cm ex_as (mk_vm ex_tlb (Spl.mk_cpu 0 true)) VM_FAULT_READ 0x401234
    Hinv Hok ex_tlb_ok) as (v' & r & E & _ & Hok' & _ & Hcase);
    [split; [simpl; lia|reflexivity]|lia|left; reflexivity|].
  exists v', r. split; [exact E|]. split; [|exact Hok'].
  vm_compute in E. injection E as _ <-. reflexivity.
Defined.

(** The TLB after [as_activate]. *)
Definition ex_flushed : list (Z * Z) := match as_activate ex_tlb with Done t => t | Halt _ => [] end.

Lemma small_program_runs_witness : exists v',
  touch_all ex_as (mk_vm ex_flushed (Spl.mk_cpu 0 true)) [0x401234; 0x400000; 0x10000010; 0x7ffffffc; 0x401238] = Done (v', Ok tt) /\
  tlb_ok ex_as (tlb v').
Proof.
  destruct ex_loaded as (cm & _ & Hinv & Hok).
  destruct (small_program_runs cm ex_as ex_tlb (mk_vm ex_flushed (Spl.mk_cpu 0 true))
    [0x401234; 0x400000; 0x10000010; 0x7ffffffc; 0x401238] Hinv Hok) as (v' & E & _ & H).
  - vm_compute. reflexivity.
  - reflexivity.
  - vm_compute. reflexivity.
  - split; [simpl; lia|reflexivity].
  - repeat (apply Forall_cons_2; [split; [lia|eexists; vm_compute; reflexivity]|]). apply Forall_nil_2.
  - exists v'. split; [exact E|exact H].
Defined.

Lemma vm_fault_errors_witness :
  vm_fault (mk_vm ex_tlb (Spl.mk_cpu 0 true)) None VM_FAULT_WRITE 0 =
  Done (mk_vm ex_tlb (Spl.mk_cpu 15 false), Err EFAULT).
Proof.
  apply (vm_fault_errors (mk_vm ex_tlb (Spl.mk_cpu 0 true)) None 0);
    [split; [simpl; lia|reflexivity]|right; reflexivity].
Defined.

Lemma as_activate_flushes_witness : exists t', as_activate ex_tlb = Done t' /\ tlb_ok ex_as t'.
Proof.
  destruct (as_activate_flushes ex_tlb eq_refl) as (t' & E & Hok & _).
  exists t'. split; [exact E|apply Hok].
Defined.

Lemma as_define_region_covers_witness :
  as_define_region (mk_as 0 0 0 0 0 0 0) 0x400123 5000 = (mk_as 0x400000 0 2 0 0 0 0, Ok tt) /\
  exists base n, base mod PAGE_SIZE = 0 /\ 0x400123 + 5000 <= base + n * PAGE_SIZE.
Proof.
  split; [reflexivity|].
  destruct (as_define_region_covers (mk_as 0 0 0 0 0 0 0) 0x400123 5000)
    as (_ & base & n & Hal & _ & Hc & _); [lia|lia|unfold PAGE_SIZE; lia|].
  exists base, n. split; [exact Hal|apply Hc].
Defined.
