(* ===== verification/Thread.v ===== *)
(** * Threads, the scheduler and the synchronization primitives
      ([kern/thread/thread.c], [scheduler.c], [synch.c], [hardclock.c])

    One processor runs one thread at a time.  Kernel code that touches the
    thread lists runs with interrupts off, so control can leave a thread only
    where it calls [mi_switch]; each stretch of code between two such points is
    one function here.  What a thread does when it gets the processor back is
    recorded in its pcb as a value of [resume] (in the machine: the saved kernel
    stack).  While [curthread] is NULL the processor idles in [scheduler].

    Pointers to threads, semaphores and locks are non-zero integers, 0 being
    NULL.  [mem bytes] says whether a [kmalloc] call succeeds. *)

From Stdlib Require Import ZArith Lia Bool.
From stdpp Require Import base list numbers gmap strings.
From S2P Require Import Prelude.
From S2P Require Import Array.
From S2P Require Import Queue.
From S2P Require Import AddrSpace.

Module Thread.
Import Spl.

(** Sleep addresses: the addresses of distinct objects. *)
Inductive wchan : Set := WSem (s : Z) | WLock (l : Z) | WCv (c : Z) | WLbolt.

#[export] Instance wchan_eq_dec : EqDecision wchan.
Proof. solve_decision. Defined.

(** Where a thread that left the processor continues:
    - [RStart]: at [mi_threadstart];
    - [RYield spl]: after [mi_switch] in [thread_yield];
    - [RIrq spl old_in savespl ie]: the same, called by [hardclock] from a timer
      interrupt that found [in_interrupt], [curspl] and the interrupt-enable bit
      as given;
    - [RP s spl]: after [thread_sleep] in [P];
    - [RAcquire l spl after]: after [thread_sleep] in [lock_acquire], called by
      [cv_wait] with saved level [after] if that is not [None];
    - [RWait l spl]: after [thread_sleep] in [cv_wait];
    - [RClock n spl]: after [thread_sleep] in [clocksleep], [n] seconds to go;
    - [RDead]: after [mi_switch] in [thread_exit]. *)
Inductive resume : Set :=
| RStart
| RYield (spl : Z)
| RIrq (spl old_in savespl : Z) (ie : bool)
| RP (s spl : Z)
| RAcquire (l spl : Z) (after : option Z)
| RWait (l spl : Z)
| RClock (n spl : Z)
| RDead.

Record thread : Type := mk_thread {
  pcb_ininterrupt : Z;
  pcb_resume : option resume;
  t_name : string;
  t_sleepaddr : option wchan;
  t_stack : option (list Z);
  t_vmspace : option Z;
  t_cwd : option Z;
  t_pid : Z
}.

Record process : Type := mk_process {
  me : Z;
  parent_pid : Z;
  exited : Z;
  exitcode : Z;
  exit_sem : Z
}.

Definition MAXTHREADS : Z := 200.
Definition STACK_SIZE : Z := 4096.
Definition stack_magic : list Z := [0xae; 0x11; 0xda; 0x33].

(** The globals of the thread system.  [vrefs] are the reference counts of the
    vnodes that serve as current directories. *)
Record kernel : Type := mk_kernel {
  cpu : Spl.cpu;
  in_interrupt : Z;
  curthread : option Z;
  threads : gmap Z thread;
  sleepers : Array.array (P := Z);
  zombies : Array.array (P := Z);
  runqueue : Queue.queue (P := Z);
  numthreads : Z;
  p_table : list (option process);
  sems : gmap Z Z;
  locks : gmap Z (option Z);
  lbolt_counter : Z;
  tlb : list (Z * Z);
  vrefs : gmap Z Z
}.

Definition set_cpu (k : kernel) (x : Spl.cpu) : kernel :=
  mk_kernel x (in_interrupt k) (curthread k) (threads k) (sleepers k) (zombies k) (runqueue k)
    (numthreads k) (p_table k) (sems k) (locks k) (lbolt_counter k) (tlb k) (vrefs k).
Definition set_ininterrupt (k : kernel) (x : Z) : kernel :=
  mk_kernel (cpu k) x (curthread k) (threads k) (sleepers k) (zombies k) (runqueue k)
    (numthreads k) (p_table k) (sems k) (locks k) (lbolt_counter k) (tlb k) (vrefs k).
Definition set_curthread (k : kernel) (x : option Z) : kernel :=
  mk_kernel (cpu k) (in_interrupt k) x (threads k) (sleepers k) (zombies k) (runqueue k)
    (numthreads k) (p_table k) (sems k) (locks k) (lbolt_counter k) (tlb k) (vrefs k).
Definition set_threads (k : kernel) (x : gmap Z thread) : kernel :=
  mk_kernel (cpu k) (in_interrupt k) (curthread k) x (sleepers k) (zombies k) (runqueue k)
    (numthreads k) (p_table k) (sems k) (locks k) (lbolt_counter k) (tlb k) (vrefs k).
Definition set_sleepers (k : kernel) (x : Array.array (P := Z)) : kernel :=
  mk_kernel (cpu k) (in_interrupt k) (curthread k) (threads k) x (zombies k) (runqueue k)
    (numthreads k) (p_table k) (sems k) (locks k) (lbolt_counter k) (tlb k) (vrefs k).
Definition set_zombies (k : kernel) (x : Array.array (P := Z)) : kernel :=
  mk_kernel (cpu k) (in_interrupt k) (curthread k) (threads k) (sleepers k) x (runqueue k)
    (numthreads k) (p_table k) (sems k) (locks k) (lbolt_counter k) (tlb k) (vrefs k).
Definition set_runqueue (k : kernel) (x : Queue.queue (P := Z)) : kernel :=
  mk_kernel (cpu k) (in_interrupt k) (curthread k) (threads k) (sleepers k) (zombies k) x
    (numthreads k) (p_table k) (sems k) (locks k) (lbolt_counter k) (tlb k) (vrefs k).
Definition set_numthreads (k : kernel) (x : Z) : kernel :=
  mk_kernel (cpu k) (in_interrupt k) (curthread k) (threads k) (sleepers k) (zombies k)
    (runqueue k) x (p_table k) (sems k) (locks k) (lbolt_counter k) (tlb k) (vrefs k).
Definition set_p_table (k : kernel) (x : list (option process)) : kernel :=
  mk_kernel (cpu k) (in_interrupt k) (curthread k) (threads k) (sleepers k) (zombies k)
    (runqueue k) (numthreads k) x (sems k) (locks k) (lbolt_counter k) (tlb k) (vrefs k).
Definition set_sems (k : kernel) (x : gmap Z Z) : kernel :=
  mk_kernel (cpu k) (in_interrupt k) (curthread k) (threads k) (sleepers k) (zombies k)
    (runqueue k) (numthreads k) (p_table k) x (locks k) (lbolt_counter k) (tlb k) (vrefs k).
Definition set_locks (k : kernel) (x : gmap Z (option Z)) : kernel :=
  mk_kernel (cpu k) (in_interrupt k) (curthread k) (threads k) (sleepers k) (zombies k)
    (runqueue k) (numthreads k) (p_table k) (sems k) x (lbolt_counter k) (tlb k) (vrefs k).
Definition set_lbolt (k : kernel) (x : Z) : kernel :=
  mk_kernel (cpu k) (in_interrupt k) (curthread k) (threads k) (sleepers k) (zombies k)
    (runqueue k) (numthreads k) (p_table k) (sems k) (locks k) x (tlb k) (vrefs k).
Definition set_tlb (k : kernel) (x : list (Z * Z)) : kernel :=
  mk_kernel (cpu k) (in_interrupt k) (curthread k) (threads k) (sleepers k) (zombies k)
    (runqueue k) (numthreads k) (p_table k) (sems k) (locks k) (lbolt_counter k) x (vrefs k).
Definition set_vrefs (k : kernel) (x : gmap Z Z) : kernel :=
  mk_kernel (cpu k) (in_interrupt k) (curthread k) (threads k) (sleepers k) (zombies k)
    (runqueue k) (numthreads k) (p_table k) (sems k) (locks k) (lbolt_counter k) (tlb k) x.

(** [splhigh()] and [splx(s)] *)
Definition k_splhigh (k : kernel) : kernel * Z :=
  let '(c, s) := splhigh (cpu k) in (set_cpu k c, s).
Definition k_splx (k : kernel) (s : Z) : kernel := set_cpu k (fst (splx (cpu k) s)).

Definition thread_set_resume (r : option resume) (ini : Z) (t : thread) : thread :=
  mk_thread ini r (t_name t) (t_sleepaddr t) (t_stack t) (t_vmspace t) (t_cwd t) (t_pid t).
Definition thread_set_sleepaddr (a : option wchan) (t : thread) : thread :=
  mk_thread (pcb_ininterrupt t) (pcb_resume t) (t_name t) a (t_stack t) (t_vmspace t) (t_cwd t)
    (t_pid t).
Definition thread_set_vm_cwd (vm cwd : option Z) (t : thread) : thread :=
  mk_thread (pcb_ininterrupt t) (pcb_resume t) (t_name t) (t_sleepaddr t) (t_stack t) vm cwd
    (t_pid t).

(** Dereferencing a pointer to a thread, a semaphore, a lock. *)
Definition deref {A} (m : gmap Z A) (p : Z) : exec A :=
  match m !! p with Some x => Done x | None => Halt Undefined end.

Definition cur (k : kernel) : exec Z :=
  match curthread k with Some t => Done t | None => Halt Undefined end.

Definition upd_thread (k : kernel) (t : Z) (f : thread -> thread) : exec kernel :=
  th ← deref (threads k) t; Done (set_threads k (<[t := f th]> (threads k))).

Definition is_ok {A} (r : ret A) : bool := match r with Ok _ => true | Err _ => false end.

(** ** The scheduler *)

Definition scheduler_bootstrap (mem : Z -> bool) : exec (Queue.queue (P := Z)) :=
  match Queue.q_create mem 32 with Some q => Done q | None => Halt Panic end.

Definition scheduler_preallocate (mem : Z -> bool) (k : kernel) (nthreads : Z)
  : exec (kernel * ret unit) :=
  assert! 0 <? curspl (cpu k);
  '(q, r) ← Queue.q_preallocate mem (runqueue k) nthreads;
  Done (set_runqueue k q, r).

Definition make_runnable (mem : Z -> bool) (k : kernel) (t : Z) : exec (kernel * ret unit) :=
  assert! 0 <? curspl (cpu k);
  '(q, r) ← Queue.q_addtail mem (runqueue k) (Some t);
  Done (set_runqueue k q, r).

(** [None]: the run queue is empty and the processor idles. *)
Definition scheduler (k : kernel) : exec (kernel * option Z) :=
  assert! 0 <? curspl (cpu k);
  if Queue.q_empty (runqueue k) then Done (k, None)
  else
    '(q, t) ← Queue.q_remhead (runqueue k);
    match t with
    | Some t => Done (set_runqueue k q, Some t)
    | None => Halt Undefined
    end.

Fixpoint killall_loop (fuel : nat) (q : Queue.queue (P := Z)) : exec (Queue.queue (P := Z)) :=
  if Queue.q_empty q then Done q
  else
    match fuel with
    | O => Halt Fuel
    | S f => '(q', _) ← Queue.q_remhead q; killall_loop f q'
    end.

(** A queue of [size] cells is empty after [size] removals. *)
Definition scheduler_killall (k : kernel) : exec kernel :=
  assert! 0 <? curspl (cpu k);
  q ← killall_loop (Z.to_nat (Queue.size (runqueue k))) (runqueue k);
  Done (set_runqueue k q).

Definition scheduler_shutdown (k : kernel) : exec kernel :=
  k1 ← scheduler_killall k;
  assert! 0 <? curspl (cpu k1);
  _u ← Queue.q_destroy (runqueue k1);
  Done k1.

(** ** Zombies *)

Definition thread_destroy (k : kernel) (t : Z) : exec kernel :=
  assert! negb (bool_decide (curthread k = Some t));
  th ← deref (threads k) t;
  assert! match t_vmspace th with None => true | Some _ => false end;
  assert! match t_cwd th with None => true | Some _ => false end;
  Done (set_threads k (delete t (threads k))).

Definition exorcise (mem : Z -> bool) (k : kernel) : exec kernel :=
  assert! 0 <? curspl (cpu k);
  k1 ← for_range 0 (Array.array_getnum (zombies k))
         (fun i k =>
            z ← Array.array_getguy (zombies k) i;
            match z with
            | Some z => assert! negb (bool_decide (curthread k = Some z)); thread_destroy k z
            | None => Halt Undefined
            end) k;
  '(za, r) ← Array.array_setsize mem (zombies k1) 0;
  assert! is_ok r;
  Done (set_zombies k1 za).

Definition thread_killall (mem : Z -> bool) (k : kernel) : exec kernel :=
  assert! 0 <? curspl (cpu k);
  '(sl, r) ← Array.array_setsize mem (sleepers k) 0;
  assert! is_ok r;
  Done (set_sleepers k sl).

Definition thread_panic (mem : Z -> bool) (k : kernel) : exec kernel :=
  assert! 0 <? curspl (cpu k);
  k1 ← thread_killall mem k;
  scheduler_killall k1.

(** ** Context switch *)

Inductive threadstate : Set := S_READY | S_SLEEP | S_ZOMB.

(** The magic number at the bottom of the stack. *)
Definition stack_ok (k : kernel) : exec bool :=
  match curthread k with
  | None => Done true
  | Some t =>
      th ← deref (threads k) t;
      Done (match t_stack th with None => true | Some l => bool_decide (l = stack_magic) end)
  end.

(** The end of [scheduler] and [md_switch]: the next thread gets the processor. *)
Definition dispatch (k : kernel) : exec kernel :=
  '(k1, next) ← scheduler k;
  match next with
  | None => Done k1
  | Some t =>
      th ← deref (threads k1) t;
      Done (set_ininterrupt (set_curthread k1 (Some t)) (pcb_ininterrupt th))
  end.

(** [mi_switch] up to the switch itself; the thread will continue at [r].  With
    [curthread] NULL (a timer interrupt in the idle loop) it returns at once. *)
Definition mi_switch (mem : Z -> bool) (k : kernel) (nextstate : threadstate) (r : resume)
  : exec kernel :=
  assert! 0 <? curspl (cpu k);
  ok ← stack_ok k;
  assert! ok;
  match curthread k with
  | None => Done k
  | Some t =>
      k0 ← upd_thread k t (thread_set_resume (Some r) (in_interrupt k));
      let k1 := set_curthread k0 None in
      '(k2, res) ←
        match nextstate with
        | S_READY => make_runnable mem k1 t
        | S_SLEEP =>
            '(a, res) ← Array.array_add mem (sleepers k1) t; Done (set_sleepers k1 a, res)
        | S_ZOMB =>
            '(a, res) ← Array.array_add mem (zombies k1) t; Done (set_zombies k1 a, res)
        end;
      assert! is_ok res;
      dispatch k2
  end.

(** [if (curthread->t_vmspace) as_activate(curthread->t_vmspace);] *)
Definition activate (k : kernel) : exec kernel :=
  t ← cur k;
  th ← deref (threads k) t;
  match t_vmspace th with
  | None => Done k
  | Some _ => l ← AddrSpace.as_activate (tlb k); Done (set_tlb k l)
  end.

(** The code of [mi_switch] after [md_switch], in the thread switched to. *)
Definition switched_in (mem : Z -> bool) (k : kernel) : exec kernel :=
  k1 ← exorcise mem k; activate k1.

(** ** Sleeping and waking *)

Definition thread_sleep (mem : Z -> bool) (k : kernel) (addr : wchan) (r : resume) : exec kernel :=
  assert! in_interrupt k =? 0;
  t ← cur k;
  k1 ← upd_thread k t (thread_set_sleepaddr (Some addr));
  mi_switch mem k1 S_SLEEP r.

(** The end of [thread_sleep], when the thread runs again. *)
Definition woken (mem : Z -> bool) (k : kernel) : exec kernel :=
  k1 ← switched_in mem k;
  t ← cur k1;
  upd_thread k1 t (thread_set_sleepaddr None).

(** [sleepers[i]], dereferenced. *)
Definition sleeper (k : kernel) (i : Z) : exec (Z * option wchan) :=
  t ← Array.array_getguy (sleepers k) i;
  match t with
  | Some t => th ← deref (threads k) t; Done (t, t_sleepaddr th)
  | None => Halt Undefined
  end.

Definition wake_at (mem : Z -> bool) (k : kernel) (i t : Z) : exec kernel :=
  a ← Array.array_remove (sleepers k) i;
  '(k1, res) ← make_runnable mem (set_sleepers k a) t;
  assert! is_ok res;
  Done k1.

(** The loop of [thread_wakeup] from index [i]: after a removal the same index
    is looked at again.  Each round advances [i] or shortens the array. *)
Fixpoint wakeup_loop (fuel : nat) (mem : Z -> bool) (k : kernel) (addr : wchan) (i : Z)
  : exec kernel :=
  if i <? Array.array_getnum (sleepers k) then
    match fuel with
    | O => Halt Fuel
    | S f =>
        '(t, a) ← sleeper k i;
        if bool_decide (a = Some addr) then
          k1 ← wake_at mem k i t;
          wakeup_loop f mem k1 addr i
        else wakeup_loop f mem k addr (i + 1)
    end
  else Done k.

Definition thread_wakeup (mem : Z -> bool) (k : kernel) (addr : wchan) : exec kernel :=
  assert! 0 <? curspl (cpu k);
  wakeup_loop (Z.to_nat (Array.array_getnum (sleepers k))) mem k addr 0.

Definition thread_wakeup_one (mem : Z -> bool) (k : kernel) (addr : wchan) : exec kernel :=
  assert! 0 <? curspl (cpu k);
  '(t, a) ← sleeper k 0;
  if bool_decide (a = Some addr) then wake_at mem k 0 t else Done k.

Fixpoint hassleepers_loop (n : nat) (k : kernel) (addr : wchan) (i : Z) : exec Z :=
  match n with
  | O => Done 0
  | S n' =>
      '(_, a) ← sleeper k i;
      if bool_decide (a = Some addr) then Done 1 else hassleepers_loop n' k addr (i + 1)
  end.

Definition thread_hassleepers (k : kernel) (addr : wchan) : exec Z :=
  assert! 0 <? curspl (cpu k);
  hassleepers_loop (Z.to_nat (Array.array_getnum (sleepers k))) k addr 0.

(** [thread_yield]; [r spl] is where the thread continues. *)
Definition thread_yield_to (mem : Z -> bool) (k : kernel) (r : Z -> resume) : exec kernel :=
  let '(k1, spl) := k_splhigh k in
  match curthread k1 with
  | None => k2 ← mi_switch mem k1 S_READY (r spl); Done (k_splx k2 spl)
  | Some _ => mi_switch mem k1 S_READY (r spl)
  end.

Definition thread_yield (mem : Z -> bool) (k : kernel) : exec kernel :=
  thread_yield_to mem k RYield.

(** ** Creation of semaphores and locks *)

(** [namelen] is [strlen(name)]; the result 0 is NULL. *)
Definition sem_create (mem : Z -> bool) (k : kernel) (namelen initial_count : Z)
  : exec (kernel * Z) :=
  assert! 0 <=? initial_count;
  if negb (mem 8) then Done (k, 0)
  else if negb (mem (namelen + 1)) then Done (k, 0)
  else
    let s := fresh ({[0]} ∪ dom (sems k)) in
    Done (set_sems k (<[s := initial_count]> (sems k)), s).

Definition lock_create (mem : Z -> bool) (k : kernel) (namelen : Z) : kernel * Z :=
  if negb (mem 8) then (k, 0)
  else if negb (mem (namelen + 1)) then (k, 0)
  else
    let l := fresh ({[0]} ∪ dom (locks k)) in
    (set_locks k (<[l := None]> (locks k)), l).

(** ** Creation and exit *)

(** [sem_create] is passed the address of a single [char]; [over] is the number of
    bytes [strlen] counts from there. *)
Fixpoint thread_create_loop (n : nat) (mem : Z -> bool) (k : kernel) (name : string) (over i : Z)
  : exec (kernel * option Z) :=
  match n with
  | O => Done (k, None)
  | S n' =>
      slot ← rd (p_table k) i;
      match slot with
      | Some _ => thread_create_loop n' mem k name over (i + 1)
      | None =>
          if negb (mem 20) then Done (k, None)
          else if negb (mem 40) then Done (k, None)
          else if negb (mem (Z.of_nat (String.length name) + 1)) then Done (k, None)
          else
            (* fresh addresses from [kmalloc] *)
            let t := fresh ({[0]} ∪ dom (threads k)) in
            let th := mk_thread 0 None name None None None None i in
            ppid ← match curthread k with
                   | None => Done (-1)
                   | Some c => thc ← deref (threads k) c; Done (t_pid thc)
                   end;
            '(k1, s) ← sem_create mem (set_threads k (<[t := th]> (threads k))) over 0;
            tab ← wr (p_table k1) i (Some (mk_process t ppid 0 (-1) s));
            Done (set_p_table k1 tab, Some t)
      end
  end.

Definition thread_create (mem : Z -> bool) (k : kernel) (name : string) (over : Z)
  : exec (kernel * option Z) :=
  thread_create_loop (Z.to_nat (MAXTHREADS - 1)) mem k name over 1.

Definition vop_incref (k : kernel) (v : Z) : exec kernel :=
  n ← deref (vrefs k) v; m ← int (n + 1); Done (set_vrefs k (<[v := m]> (vrefs k))).

(** The last reference goes to [VOP_RECLAIM], which consumes it. *)
Definition vop_decref (k : kernel) (v : Z) : exec kernel :=
  n ← deref (vrefs k) v;
  assert! 0 <? n;
  Done (set_vrefs k (if n >? 1 then <[v := n - 1]> (vrefs k) else delete v (vrefs k))).

(** The code after [fail:]; the entry of [p_table] is not undone. *)
Definition fork_fail (k : kernel) (s newguy : Z) (r : ret unit) : exec (kernel * ret Z) :=
  let k1 := k_splx k s in
  th ← deref (threads k1) newguy;
  k2 ← match t_cwd th with None => Done k1 | Some v => vop_decref k1 v end;
  Done (set_threads k2 (delete newguy (threads k2)),
        match r with Ok _ => Ok 0 | Err e => Err e end).

Definition thread_fork (mem : Z -> bool) (k : kernel) (name : string) (over : Z)
  : exec (kernel * ret Z) :=
  '(k1, newguy) ← thread_create mem k name over;
  match newguy with
  | None => Done (k1, Err ENOMEM)
  | Some t =>
      if negb (mem STACK_SIZE) then Done (set_threads k1 (delete t (threads k1)), Err ENOMEM)
      else
        c ← cur k1;
        thc ← deref (threads k1) c;
        k2 ← match t_cwd thc with None => Done k1 | Some v => vop_incref k1 v end;
        k3 ← upd_thread k2 t (fun th =>
               mk_thread 0 (Some RStart) (t_name th) (t_sleepaddr th) (Some stack_magic)
                 (t_vmspace th) (t_cwd thc) (t_pid th));
        let '(k4, s) := k_splhigh k3 in
        nt ← int (numthreads k4 + 1);
        '(sl, r) ← Array.array_preallocate mem (sleepers k4) nt;
        let k5 := set_sleepers k4 sl in
        if negb (is_ok r) then fork_fail k5 s t r
        else
          '(zo, r) ← Array.array_preallocate mem (zombies k5) nt;
          let k6 := set_zombies k5 zo in
          if negb (is_ok r) then fork_fail k6 s t r
          else
            '(k7, r) ← scheduler_preallocate mem k6 nt;
            if negb (is_ok r) then fork_fail k7 s t r
            else
              '(k8, r) ← make_runnable mem k7 t;
              if negb (is_ok r) then fork_fail k8 s t r
              else Done (k_splx (set_numthreads k8 nt) s, Ok t)
  end.

(** [as_destroy], which frees the address space's structure, has no effect on the
    state modelled here. *)
Definition thread_exit (mem : Z -> bool) (k : kernel) : exec kernel :=
  ok ← stack_ok k;
  assert! ok;
  let '(k1, _) := k_splhigh k in
  t ← cur k1;
  th ← deref (threads k1) t;
  k2 ← match t_cwd th with None => Done k1 | Some v => vop_decref k1 v end;
  k3 ← upd_thread k2 t (thread_set_vm_cwd None None);
  assert! 0 <? numthreads k3;
  mi_switch mem (set_numthreads k3 (numthreads k3 - 1)) S_ZOMB RDead.

(** ** Semaphores *)

(** [sem_destroy] up to [splx], and the [kfree]s after it.  Interrupts are on between
    the two, so that other threads may run there. *)
Definition sem_destroy_test (k : kernel) (sem : Z) : exec kernel :=
  assert! negb (sem =? 0);
  let '(k1, spl) := k_splhigh k in
  n ← thread_hassleepers k1 (WSem sem);
  assert! n =? 0;
  Done (k_splx k1 spl).

Definition sem_free (k : kernel) (sem : Z) : exec kernel :=
  _c ← deref (sems k) sem;
  Done (set_sems k (delete sem (sems k))).

(** The call when nothing comes in between. *)
Definition sem_destroy (k : kernel) (sem : Z) : exec kernel :=
  k1 ← sem_destroy_test k sem; sem_free k1 sem.

(** From the head of the loop [while (sem->count==0)]. *)
Definition P_loop (mem : Z -> bool) (k : kernel) (sem spl : Z) : exec kernel :=
  count ← deref (sems k) sem;
  if count =? 0 then thread_sleep mem k (WSem sem) (RP sem spl)
  else
    assert! count >? 0;
    Done (k_splx (set_sems k (<[sem := count - 1]> (sems k))) spl).

Definition P (mem : Z -> bool) (k : kernel) (sem : Z) : exec kernel :=
  if sem =? 0 then Halt Panic
  else
    assert! in_interrupt k =? 0;
    let '(k1, spl) := k_splhigh k in
    P_loop mem k1 sem spl.

Definition V (mem : Z -> bool) (k : kernel) (sem : Z) : exec kernel :=
  assert! negb (sem =? 0);
  let '(k1, spl) := k_splhigh k in
  count ← deref (sems k1) sem;
  count' ← int (count + 1);
  assert! count' >? 0;
  k2 ← thread_wakeup mem (set_sems k1 (<[sem := count']> (sems k1))) (WSem sem);
  Done (k_splx k2 spl).

(** ** Locks *)

Definition lock_destroy (k : kernel) (lock : Z) : exec kernel :=
  assert! negb (lock =? 0);
  _h ← deref (locks k) lock;
  Done (set_locks k (delete lock (locks k))).

(** Its [splhigh] and [splx] leave the level as it was. *)
Definition lock_do_i_hold (k : kernel) (lock : Z) : exec bool :=
  assert! negb (lock =? 0);
  h ← deref (locks k) lock;
  Done (bool_decide (h = curthread k)).

(** From the head of the loop [while (lock->lock_holder != NULL)]. *)
Definition acquire_loop (mem : Z -> bool) (k : kernel) (lock spl : Z) (after : option Z)
  : exec kernel :=
  h ← deref (locks k) lock;
  match h with
  | Some _ => thread_sleep mem k (WLock lock) (RAcquire lock spl after)
  | None =>
      let k1 := k_splx (set_locks k (<[lock := curthread k]> (locks k))) spl in
      Done (match after with None => k1 | Some s => k_splx k1 s end)
  end.

Definition lock_acquire (mem : Z -> bool) (k : kernel) (lock : Z) (after : option Z) : exec kernel :=
  assert! negb (lock =? 0);
  let '(k1, spl) := k_splhigh k in
  held ← lock_do_i_hold k1 lock;
  assert! negb held;
  acquire_loop mem k1 lock spl after.

Definition lock_release (mem : Z -> bool) (k : kernel) (lock : Z) : exec kernel :=
  assert! negb (lock =? 0);
  let '(k1, spl) := k_splhigh k in
  h ← deref (locks k1) lock;
  assert! bool_decide (h = curthread k1);
  k2 ← thread_wakeup mem (set_locks k1 (<[lock := None]> (locks k1))) (WLock lock);
  Done (k_splx k2 spl).

(** The second result is the global [process_lock]. *)
Definition thread_bootstrap (mem : Z -> bool) (q : Queue.queue (P := Z)) (over : Z) : exec (kernel * Z) :=
  match Array.array_create mem, Array.array_create mem with
  | Some sl, Some zo =>
      let k := mk_kernel (mk_cpu SPL_HIGH false) 0 None ∅ sl zo q 0
                 (replicate (Z.to_nat MAXTHREADS) None) ∅ ∅ 0 [] ∅ in
      '(k1, me) ← thread_create mem k "<boot/menu>" over;
      match me with
      | None => Halt Panic
      | Some t =>
          let k2 := set_numthreads (set_curthread k1 (Some t)) 1 in
          Done (lock_create mem k2 (Z.of_nat (String.length "process_lock")))
      end
  | _, _ => Halt Panic
  end.

(** ** Condition variables *)

Definition cv_wait (mem : Z -> bool) (k : kernel) (cv lock : Z) : exec kernel :=
  assert! negb (lock =? 0);
  assert! negb (cv =? 0);
  let '(k1, spl) := k_splhigh k in
  k2 ← lock_release mem k1 lock;
  thread_sleep mem k2 (WCv cv) (RWait lock spl).

(** The rest of [cv_wait], when the thread runs again. *)
Definition cv_woken (mem : Z -> bool) (k : kernel) (lock spl : Z) : exec kernel :=
  k1 ← thread_wakeup mem k (WLock lock);
  lock_acquire mem k1 lock (Some spl).

Definition cv_signal (mem : Z -> bool) (k : kernel) (cv lock : Z) : exec kernel :=
  assert! negb (lock =? 0);
  assert! negb (cv =? 0);
  let '(k1, spl) := k_splhigh k in
  held ← lock_do_i_hold k1 lock;
  assert! held;
  k2 ← thread_wakeup_one mem k1 (WCv cv);
  Done (k_splx k2 spl).

Definition cv_broadcast (mem : Z -> bool) (k : kernel) (cv lock : Z) : exec kernel :=
  assert! negb (lock =? 0);
  assert! negb (cv =? 0);
  let '(k1, spl) := k_splhigh k in
  held ← lock_do_i_hold k1 lock;
  assert! held;
  k2 ← thread_wakeup mem k1 (WCv cv);
  Done (k_splx k2 spl).

(** ** The clock *)

Definition HZ : Z := 100.

Definition hardclock (mem : Z -> bool) (k : kernel) (r : Z -> resume) : exec kernel :=
  n ← int (lbolt_counter k + 1);
  k1 ← (if n >=? HZ then thread_wakeup mem (set_lbolt k 0) WLbolt else Done (set_lbolt k n));
  thread_yield_to mem k1 r.

(** From the head of the loop [while (num_secs > 0)]. *)
Definition clock_loop (mem : Z -> bool) (k : kernel) (n spl : Z) : exec kernel :=
  if n >? 0 then thread_sleep mem k WLbolt (RClock n spl) else Done (k_splx k spl).

Definition clocksleep (mem : Z -> bool) (k : kernel) (num_secs : Z) : exec kernel :=
  let '(k1, s) := k_splhigh k in
  clock_loop mem k1 num_secs s.

(** ** Interrupts ([mips_trap] with code [EX_IRQ], [mips_interrupt]) *)

(** What the interrupting device calls: the timer's [hardclock], or the [V] with
    which a device completes an operation. *)
Inductive irq : Set := IrqTimer | IrqDevice (s : Z).

(** The end of [mips_interrupt] and of [mips_trap]: [in_interrupt] and [curspl]
    are put back, the interrupt-enable bit by the return from exception. *)
Definition irq_return (k : kernel) (old_in savespl : Z) (ie : bool) : kernel :=
  set_cpu (set_ininterrupt k old_in) (mk_cpu savespl ie).

Definition mips_interrupt (mem : Z -> bool) (k : kernel) (i : irq) : exec kernel :=
  let savespl := curspl (cpu k) in
  let ie := IEc (cpu k) in
  let old_in := in_interrupt k in
  let k1 := set_ininterrupt (set_cpu k (mk_cpu SPL_HIGH false)) 1 in
  match i with
  | IrqDevice s => k2 ← V mem k1 s; Done (irq_return k2 old_in savespl ie)
  | IrqTimer =>
      k2 ← hardclock mem k1 (fun spl => RIrq spl old_in savespl ie);
      match curthread k with
      | None => Done (irq_return k2 old_in savespl ie)
      | Some _ => Done k2
      end
  end.

(** ** A thread that was switched to continues *)

Definition run_resume (mem : Z -> bool) (k : kernel) : exec kernel :=
  t ← cur k;
  th ← deref (threads k) t;
  match pcb_resume th with
  | None => Halt Undefined
  | Some r =>
      k0 ← upd_thread k t (thread_set_resume None (pcb_ininterrupt th));
      match r with
      | RStart => k1 ← activate k0; Done (k_splx k1 0)
      | RYield spl => k1 ← switched_in mem k0; Done (k_splx k1 spl)
      | RIrq spl old_in savespl ie =>
          k1 ← switched_in mem k0; Done (irq_return (k_splx k1 spl) old_in savespl ie)
      | RP s spl => k1 ← woken mem k0; P_loop mem k1 s spl
      | RAcquire l spl after => k1 ← woken mem k0; acquire_loop mem k1 l spl after
      | RWait l spl => k1 ← woken mem k0; cv_woken mem k1 l spl
      | RClock n spl => k1 ← woken mem k0; clock_loop mem k1 (n - 1) spl
      | RDead => _k ← switched_in mem k0; Halt Panic
      end
  end.

End Thread.
