(* ===== verification/ThreadInv.v ===== *)
(** * Invariants of the thread system

    The three lists of threads (run queue, sleepers, zombies) as sequences of
    thread pointers, the specifications of the operations of [Thread] over
    them, and what holds in every reachable state: each thread is in exactly one
    place, and, as long as no semaphore or lock is freed that threads still use, no
    thread sleeps on a semaphore that is positive or a lock that is free. *)

From Stdlib Require Import ZArith Lia Bool.
From stdpp Require Import base list numbers gmap strings sets.
From S2P Require Import Prelude.
From S2P Require Import Array.
From S2P Require Import Queue.
From S2P Require Import AddrSpace.
From S2P Require Import Thread.

Module ThreadInv.
Import Spl Thread.

(** ** The thread lists *)

Record rep (k : kernel) (R S D : list Z) : Prop := {
  rp_sl_wf : Array.array_wf (sleepers k);
  rp_sl : Array.contents (sleepers k) = Some <$> S;
  rp_zo_wf : Array.array_wf (zombies k);
  rp_zo : Array.contents (zombies k) = Some <$> D;
  rp_rq_wf : Queue.q_wf (runqueue k);
  rp_rq : Queue.contents (runqueue k) = Some <$> R;
  rp_rq_size : Queue.size (runqueue k) <= 2 ^ 22
}.

(** More threads than any configuration has. *)
Definition max_threads : Z := 2 ^ 20.

Lemma rep_num_sl k R S D : rep k R S D -> Array.num (sleepers k) = Z.of_nat (length S).
Proof.
  intros Hr. rewrite <- Array.contents_length by apply Hr.
  by rewrite (rp_sl _ _ _ _ Hr), length_fmap.
Qed.

Lemma rep_num_zo k R S D : rep k R S D -> Array.num (zombies k) = Z.of_nat (length D).
Proof.
  intros Hr. rewrite <- Array.contents_length by apply Hr.
  by rewrite (rp_zo _ _ _ _ Hr), length_fmap.
Qed.

Lemma rep_count_rq k R S D : rep k R S D -> Queue.count (runqueue k) = Z.of_nat (length R).
Proof.
  intros Hr. rewrite <- Queue.q_contents_length by apply Hr.
  by rewrite (rp_rq _ _ _ _ Hr), length_fmap.
Qed.

(** The run queue has a free cell for [n] more threads. *)
Definition room (k : kernel) (n : Z) : Prop :=
  Queue.count (runqueue k) + n < Queue.size (runqueue k).

Lemma make_runnable_spec mem k t R S D : rep k R S D -> 0 < curspl (cpu k) ->
  Z.of_nat (length R) < max_threads ->
  (exists q, make_runnable mem k t = Done (set_runqueue k q, Ok tt) /\
     rep (set_runqueue k q) (R ++ [t]) S D /\ Queue.size (runqueue k) <= Queue.size q) \/
  (make_runnable mem k t = Done (k, Err ENOMEM) /\ ~ room k 1).
Proof.
  intros Hr Hspl HR. unfold make_runnable. case_bool. run.
  pose proof (rep_count_rq _ _ _ _ Hr) as Hc. unfold max_threads in HR.
  destruct (Queue.q_addtail_spec mem (runqueue k) (Some t)) as (q & r & -> & Hwf & Hq);
    [apply Hr|pose proof (rp_rq_size _ _ _ _ Hr); unfold Queue.q_limit; lia|].
  run. destruct r as [[]|e].
  - left. exists q. split; [done|]. destruct Hq as [Hcont Hsize]. destruct Hr.
    split; [|lia]. split; simpl; try done.
    + by rewrite Hcont, rp_rq0, fmap_app.
    + lia.
  - right. destruct Hq as (-> & -> & Hfull). split; [by destruct k|]. unfold room. lia.
Qed.

Lemma wake_at_spec mem k i t R S D : rep k R S D -> 0 < curspl (cpu k) ->
  S !! i = Some t -> Z.of_nat (length R) < max_threads ->
  (exists a q, wake_at mem k (Z.of_nat i) t = Done (set_runqueue (set_sleepers k a) q) /\
     rep (set_runqueue (set_sleepers k a) q) (R ++ [t]) (delete i S) D /\
     Queue.size (runqueue k) <= Queue.size q) \/
  (wake_at mem k (Z.of_nat i) t = Halt Assertion /\ ~ room k 1).
Proof.
  intros Hr Hspl Hi HR. unfold wake_at. apply lookup_lt_Some in Hi as Hlt.
  destruct (Array.array_remove_spec (sleepers k) (Z.of_nat i)) as (a & -> & Hwf & _ & Ha);
    [apply Hr|rewrite (rep_num_sl _ _ _ _ Hr); lia|]. run.
  assert (rep (set_sleepers k a) R (delete i S) D) as Hr1.
  { destruct Hr. split; simpl; try done.
    by rewrite Ha, rp_sl0, Nat2Z.id, list_fmap_delete. }
  destruct (make_runnable_spec mem (set_sleepers k a) t _ _ _ Hr1 Hspl HR)
    as [(q & -> & ? & ?)|[-> Hnr]]; run; [left; by exists a, q|by right].
Qed.

(** Is [t] asleep on [addr]? *)
Definition on (k : kernel) (addr : wchan) (t : Z) : bool :=
  match threads k !! t with
  | Some th => bool_decide (t_sleepaddr th = Some addr)
  | None => false
  end.

Definition known (k : kernel) (l : list Z) : Prop := forall t, t ∈ l -> is_Some (threads k !! t).

Lemma sleeper_spec k i t R S D : rep k R S D -> known k S -> S !! i = Some t ->
  exists th, threads k !! t = Some th /\ sleeper k (Z.of_nat i) = Done (t, t_sleepaddr th).
Proof.
  intros Hr Hk Hi. apply lookup_lt_Some in Hi as Hlt. unfold sleeper.
  destruct (Array.array_getguy_spec (sleepers k) (Z.of_nat i)) as (c & -> & Hc);
    [apply Hr|rewrite (rep_num_sl _ _ _ _ Hr); lia|]. run.
  rewrite (rp_sl _ _ _ _ Hr), Nat2Z.id, list_lookup_fmap, Hi in Hc. injection Hc as <-.
  destruct (Hk t) as [th Hth]; [by eapply list_elem_of_lookup_2|].
  exists th. split; [done|]. unfold deref. by rewrite Hth.
Qed.

Definition awake (k : kernel) (addr : wchan) (l : list Z) : list Z :=
  filter (fun t => on k addr t = true) l.
Definition asleep (k : kernel) (addr : wchan) (l : list Z) : list Z :=
  filter (fun t => on k addr t = false) l.

Lemma awake_asleep_length k addr l :
  (length (awake k addr l) + length (asleep k addr l) = length l)%nat.
Proof.
  unfold awake, asleep. induction l as [|t l IH]; [done|]. rewrite !filter_cons.
  destruct (on k addr t); simpl; lia.
Qed.

(** The loop of [thread_wakeup]: [S1] has been looked at, [S2] has not. *)
Lemma wakeup_loop_spec fuel mem k addr R S1 S2 D : rep k R (S1 ++ S2) D -> 0 < curspl (cpu k) ->
  known k (S1 ++ S2) -> (length S2 <= fuel)%nat ->
  Z.of_nat (length R + length S2) < max_threads ->
  (exists a q, wakeup_loop fuel mem k addr (Z.of_nat (length S1))
       = Done (set_runqueue (set_sleepers k a) q) /\
     rep (set_runqueue (set_sleepers k a) q) (R ++ awake k addr S2) (S1 ++ asleep k addr S2) D) \/
  (wakeup_loop fuel mem k addr (Z.of_nat (length S1)) = Halt Assertion /\
   ~ room k (Z.of_nat (length (awake k addr S2)))).
Proof.
  revert k R S1 fuel; induction S2 as [|t S2 IH]; intros k R S1 fuel Hr Hspl Hk Hf Hmax.
  - assert (wakeup_loop fuel mem k addr (Z.of_nat (length S1)) = Done k) as ->.
    { destruct fuel; cbn [wakeup_loop]; unfold Array.array_getnum; rewrite (rep_num_sl _ _ _ _ Hr);
        rewrite length_app; simpl; case_bool; done. }
    left. exists (sleepers k), (runqueue k). simpl. rewrite !app_nil_r in *.
    replace (set_runqueue (set_sleepers k (sleepers k)) (runqueue k)) with k by (by destruct k).
    done.
  - destruct fuel as [|fuel]; [simpl in Hf; lia|]. cbn [wakeup_loop]. simpl in Hf, Hmax.
    assert ((S1 ++ t :: S2) !! length S1 = Some t) as Hi by (by apply list_lookup_middle).
    unfold Array.array_getnum. rewrite (rep_num_sl _ _ _ _ Hr), length_app. simpl. case_bool.
    destruct (sleeper_spec k _ t _ _ _ Hr Hk Hi) as (th & Hth & ->). run.
    unfold awake, asleep. rewrite !filter_cons.
    assert (on k addr t = bool_decide (t_sleepaddr th = Some addr)) as Eon by (unfold on; by rewrite Hth).
    rewrite Eon. destruct (bool_decide (t_sleepaddr th = Some addr)) eqn:Eb; simpl.
    + destruct (wake_at_spec mem k _ t _ _ _ Hr Hspl Hi) as [(a & q & -> & Hr1 & Hsize)|[-> Hnr]];
        [lia| |].
      2: { right. split; [done|]. unfold room in *. simpl. lia. }
      run. rewrite delete_middle in Hr1.
      destruct (IH (set_runqueue (set_sleepers k a) q) (R ++ [t]) S1 fuel) as [(a' & q' & E & Hr2)|[E Hnr]];
        try done.
      * intros t' Ht'. apply Hk. set_solver.
      * lia.
      * rewrite length_app. simpl. lia.
      * left. exists a', q'. rewrite E. split; [done|]. by rewrite <- app_assoc in Hr2.
      * right. rewrite E. split; [done|]. unfold room in *. simpl in *.
        pose proof (rep_count_rq _ _ _ _ Hr1) as C1. pose proof (rep_count_rq _ _ _ _ Hr) as C0.
        rewrite length_app in C1. simpl in C1. unfold awake in Hnr.
        change (on (set_runqueue (set_sleepers k a) q) addr) with (on k addr) in Hnr. lia.
    + replace (Z.of_nat (length S1) + 1) with (Z.of_nat (length (S1 ++ [t])))
        by (rewrite length_app; simpl; lia).
      replace (S1 ++ t :: S2) with ((S1 ++ [t]) ++ S2) in * by (by rewrite <- app_assoc).
      destruct (IH k R (S1 ++ [t]) fuel) as [(a' & q' & E & Hr2)|[E Hnr]]; try done; try lia.
      * left. exists a', q'. rewrite E. split; [done|]. by rewrite <- app_assoc in Hr2.
      * right. by rewrite E.
Qed.

(** [thread_wakeup]: the threads asleep on [addr] go to the tail of the run
    queue, in order; it stops the kernel only if the run queue cannot take them
    without more memory. *)
Lemma thread_wakeup_spec mem k addr R S D : rep k R S D -> 0 < curspl (cpu k) ->
  known k S -> Z.of_nat (length R + length S) < max_threads ->
  (exists a q, thread_wakeup mem k addr = Done (set_runqueue (set_sleepers k a) q) /\
     rep (set_runqueue (set_sleepers k a) q) (R ++ awake k addr S) (asleep k addr S) D) \/
  (thread_wakeup mem k addr = Halt Assertion /\ ~ room k (Z.of_nat (length (awake k addr S)))).
Proof.
  intros Hr Hspl Hk Hmax. unfold thread_wakeup. case_bool. run.
  unfold Array.array_getnum. rewrite (rep_num_sl _ _ _ _ Hr), Nat2Z.id.
  by apply (wakeup_loop_spec (length S) mem k addr R [] S D).
Qed.

(** ** Context switches *)

(** What an operation on the lists leaves alone. *)
Record frame (k k' : kernel) : Prop := {
  fr_cpu : cpu k' = cpu k;
  fr_numthreads : numthreads k' = numthreads k;
  fr_p_table : p_table k' = p_table k;
  fr_sems : sems k' = sems k;
  fr_locks : locks k' = locks k;
  fr_lbolt : lbolt_counter k' = lbolt_counter k;
  fr_vrefs : vrefs k' = vrefs k
}.

#[export] Instance frame_preorder : PreOrder frame.
Proof.
  split.
  - intros k. by split.
  - intros k1 k2 k3 [] []. split; congruence.
Qed.

(** The magic number of a thread's stack is in place. *)
Definition magic (th : thread) : Prop := t_stack th = None \/ t_stack th = Some stack_magic.

(** A thread ready to be destroyed. *)
Definition clean (th : thread) : Prop := t_vmspace th = None /\ t_cwd th = None.

Lemma exorcise_spec mem k R S D : rep k R S D -> 0 < curspl (cpu k) -> NoDup D ->
  (forall t, t ∈ D -> Some t <> curthread k /\ exists th, threads k !! t = Some th /\ clean th) ->
  exists m zo, exorcise mem k = Done (set_zombies (set_threads k m) zo) /\
    rep (set_zombies (set_threads k m) zo) R S [] /\
    forall t, m !! t = if decide (t ∈ D) then None else threads k !! t.
Proof.
  intros Hr Hspl Hnd HD. unfold exorcise. case_bool. run. unfold Array.array_getnum.
  rewrite (rep_num_zo _ _ _ _ Hr).
  match goal with |- context [for_range 0 _ ?body k] =>
    destruct (for_range_ind (fun i k' => exists m, k' = set_threads k m /\
      forall t, m !! t = if decide (t ∈ take (Z.to_nat i) D) then None else threads k !! t)
      body 0 (Z.of_nat (length D)) k) as (k' & -> & m & -> & Hm) end; [lia| | |].
  - exists (threads k). split; [by destruct k|]. done.
  - intros i k' Hi (m & -> & Hm). simpl.
    destruct (Array.array_getguy_spec (zombies k) i) as (c & -> & Hc);
      [apply Hr|rewrite (rep_num_zo _ _ _ _ Hr); lia|]. run.
    rewrite (rp_zo _ _ _ _ Hr), list_lookup_fmap in Hc. apply fmap_Some in Hc as (z & Hz & ->).
    destruct (HD z) as [Hcur (th & Hth & Hv & Hcwd)]; [by eapply list_elem_of_lookup_2|].
    assert (bool_decide (curthread k = Some z) = false) as Hne by (apply bool_decide_eq_false; congruence).
    unfold thread_destroy; simpl. rewrite Hne. simpl.
    assert (~ (z ∈ take (Z.to_nat i) D)) as Hnz.
    { intros (j & Hj)%list_elem_of_lookup. apply lookup_take_Some in Hj as [Hj Hlt].
      pose proof (NoDup_lookup D j (Z.to_nat i) z Hnd Hj Hz). lia. }
    unfold deref. rewrite Hm, decide_False, Hth by done. run. rewrite Hv, Hcwd. run.
    eexists. split; [done|]. exists (delete z m). split; [done|]. intros t.
    replace (Z.to_nat (i + 1)) with (Datatypes.S (Z.to_nat i)) by lia.
    rewrite (take_S_r _ _ z) by done. rewrite lookup_delete, Hm.
    destruct (decide (z = t)) as [->|Hzt]; [by rewrite decide_True by set_solver|].
    destruct (decide (t ∈ take (Z.to_nat i) D)); [by rewrite decide_True by set_solver|].
    rewrite decide_False; [done|]. set_solver.
  - rewrite Nat2Z.id, firstn_all in Hm. run.
    destruct (Array.array_setsize_spec mem (zombies k) 0) as (zo & r & E & Hwf & Hr0);
      [apply Hr|unfold Array.array_limit; lia|]. simpl. rewrite E. run.
    assert (Array.num (zombies k) = Z.of_nat (length D)) as Hnum by (by eapply rep_num_zo).
    destruct r as [[]|e].
    + simpl. exists m, zo. split; [done|]. split; [|done]. destruct Hr. split; simpl; try done.
      destruct Hr0 as (Hn0 & _). apply nil_length_inv.
      pose proof (Array.contents_length zo Hwf). lia.
    + destruct Hr0 as (_ & -> & Hmax). destruct Hwf as (? & _). lia.
Qed.

Definition stash (st : threadstate) (t : Z) (R S D : list Z) : list Z * list Z * list Z :=
  match st with
  | S_READY => (R ++ [t], S, D)
  | S_SLEEP => (R, S ++ [t], D)
  | S_ZOMB => (R, S, D ++ [t])
  end.

(** Who runs after the run queue was [R], and what is left of it. *)
Definition chosen (R : list Z) : option Z := head R.

Lemma dispatch_spec k R S D : rep k R S D -> 0 < curspl (cpu k) -> known k R ->
  exists k', dispatch k = Done k' /\ frame k k' /\ threads k' = threads k /\ tlb k' = tlb k /\
    rep k' (tail R) S D /\
    match R with
    | [] => k' = k
    | t :: _ => curthread k' = Some t /\
        forall th, threads k !! t = Some th -> in_interrupt k' = pcb_ininterrupt th
    end.
Proof.
  intros Hr Hspl Hk. unfold dispatch, scheduler. case_bool. run.
  destruct R as [|t R].
  - assert (Queue.q_empty (runqueue k) = true) as ->.
    { apply Queue.empty_contents; [apply Hr|]. by rewrite (rp_rq _ _ _ _ Hr). }
    run. exists k. split_and!; try done.
  - destruct (Queue.q_empty (runqueue k)) eqn:Ee.
    { apply Queue.empty_contents in Ee; [|apply Hr]. by rewrite (rp_rq _ _ _ _ Hr) in Ee. }
    destruct (Queue.q_remhead_spec (runqueue k) (Some t) (Some <$> R)) as (q & -> & Hwf & Hsz & Hc);
      [apply Hr|apply Hr|]. run. simpl.
    destruct (Hk t) as [th Hth]; [left|]. unfold deref. rewrite Hth. run.
    eexists. split; [done|]. split; [by split|]. split; [done|]. split; [done|]. split.
    + destruct Hr. split; simpl; try done. lia.
    + split; [done|]. simpl. congruence.
Qed.

Lemma mi_switch_spec mem k st r t th R S D : rep k R S D -> 0 < curspl (cpu k) ->
  curthread k = Some t -> threads k !! t = Some th -> magic th -> known k R ->
  Z.of_nat (length R) < max_threads -> Z.of_nat (length S) < max_threads ->
  Z.of_nat (length D) < max_threads ->
  let '(R', S', D') := stash st t R S D in
  let m := <[t := thread_set_resume (Some r) (in_interrupt k) th]> (threads k) in
  (exists k', mi_switch mem k st r = Done k' /\ frame k k' /\ threads k' = m /\ tlb k' = tlb k /\
     rep k' (tail R') S' D' /\
     match R' with
     | [] => curthread k' = None /\ in_interrupt k' = in_interrupt k
     | n :: _ => curthread k' = Some n /\
         forall th', m !! n = Some th' -> in_interrupt k' = pcb_ininterrupt th'
     end) \/
  (mi_switch mem k st r = Halt Assertion /\
   match st with
   | S_READY => ~ room k 1
   | S_SLEEP => Array.num (sleepers k) = Array.max (sleepers k)
   | S_ZOMB => Array.num (zombies k) = Array.max (zombies k)
   end).
Proof.
  intros Hr Hspl Hcur Hth Hmag Hk HR HS HD.
  destruct (stash st t R S D) as [[R' S'] D'] eqn:Est. intros m.
  unfold mi_switch, stack_ok. rewrite Hcur. case_bool. run. unfold deref, upd_thread.
  rewrite Hth. run.
  assert (match t_stack th with None => true | Some l => bool_decide (l = stack_magic) end = true) as ->.
  { destruct Hmag as [-> | ->]; [done|]. by apply bool_decide_eq_true. }
  unfold deref. rewrite Hth. run. fold m.
  set (k1 := set_curthread (set_threads k m) None).
  assert (rep k1 R S D) as Hr1 by (destruct Hr; by split).
  assert (known k1 R) as Hk1.
  { intros x Hx. simpl. unfold m. rewrite lookup_insert_is_Some'. right. by apply Hk. }
  assert (known k1 R') as Hk1'.
  { intros x Hx. destruct st; simpl in Est; injection Est as <- <- <-; try by apply Hk1.
    apply elem_of_app in Hx as [Hx|Hx%list_elem_of_singleton]; [by apply Hk1|subst x].
    simpl. unfold m. rewrite lookup_insert_is_Some'. by left. }
  assert (forall k2, rep k2 R' S' D' -> frame k1 k2 -> threads k2 = m -> tlb k2 = tlb k ->
    curthread k2 = None -> in_interrupt k2 = in_interrupt k ->
    exists k', dispatch k2 = Done k' /\ frame k k' /\ threads k' = m /\ tlb k' = tlb k /\
      rep k' (tail R') S' D' /\
      match R' with
      | [] => curthread k' = None /\ in_interrupt k' = in_interrupt k
      | n :: _ => curthread k' = Some n /\
          forall th', m !! n = Some th' -> in_interrupt k' = pcb_ininterrupt th'
      end) as Hfin.
  { intros k2 Hr2 Hf Hm Htlb Hc Hi.
    destruct (dispatch_spec k2 R' S' D' Hr2) as (k' & -> & Hf' & Hth' & Htlb' & Hr' & Hcase).
    - by rewrite (fr_cpu _ _ Hf).
    - intros x Hx. rewrite Hm. by apply Hk1'.
    - exists k'. split; [done|]. split; [etrans; [|done]; by destruct Hf; split|].
      split; [congruence|]. split; [congruence|]. split; [done|].
      destruct R'; [by rewrite Hcase|]. destruct Hcase as [? Hini]. split; [done|].
      intros th' E. apply Hini. by rewrite Hm. }
  destruct st; simpl in Est; injection Est as <- <- <-; run.
  - destruct (make_runnable_spec mem k1 t R S D Hr1 Hspl HR) as [(q & -> & Hr2 & _)|[-> Hnr]]; run;
      [left|by right]. by apply Hfin.
  - destruct (Array.array_add_spec mem (sleepers k1) t) as (a & res & -> & Hwf & Ha);
      [apply Hr1|rewrite (rep_num_sl _ _ _ _ Hr1); unfold max_threads, Array.array_limit in *; lia|].
    run. destruct res as [[]|e]; simpl.
    + left. apply Hfin; try done. destruct Hr1. split; simpl in *; try done.
      by rewrite Ha, rp_sl0, fmap_app.
    + right. split; [done|]. by destruct Ha as (_ & _ & ?).
  - destruct (Array.array_add_spec mem (zombies k1) t) as (a & res & -> & Hwf & Ha);
      [apply Hr1|rewrite (rep_num_zo _ _ _ _ Hr1); unfold max_threads, Array.array_limit in *; lia|].
    run. destruct res as [[]|e]; simpl.
    + left. apply Hfin; try done. destruct Hr1. split; simpl in *; try done.
      by rewrite Ha, rp_zo0, fmap_app.
    + right. split; [done|]. by destruct Ha as (_ & _ & ?).
Qed.

(** ** The invariant *)

Definition cl (k : kernel) : list Z := option_list (curthread k).

(** A thread asleep on [a] will continue in the operation that put it to sleep. *)
Definition waits (a : wchan) (r : resume) : Prop :=
  match a, r with
  | WSem s, RP s' _ => s = s'
  | WLock l, RAcquire l' _ _ => l = l'
  | WCv _, RWait _ _ => True
  | WLbolt, RClock _ _ => True
  | _, _ => False
  end.

(** The saved levels are levels, and no dead thread is to be resumed. *)
Definition resume_ok (r : resume) : Prop :=
  match r with
  | RStart => True
  | RYield spl | RP _ spl | RWait _ spl | RClock _ spl => 0 <= spl
  | RIrq spl _ savespl _ => 0 <= spl /\ 0 <= savespl
  | RAcquire _ spl after => 0 <= spl /\ match after with None => True | Some s => 0 <= s end
  | RDead => False
  end.

(** The thread part: every thread is in exactly one place. *)
Record tinv (k : kernel) (R S D : list Z) : Prop := {
  ti_rep : rep k R S D;
  ti_nodup : NoDup (cl k ++ R ++ S ++ D);
  ti_dom t : is_Some (threads k !! t) <-> t ∈ cl k ++ R ++ S ++ D;
  ti_bound : Z.of_nat (length (cl k ++ R ++ S ++ D)) < max_threads;
  ti_magic t th : threads k !! t = Some th -> magic th;
  ti_clean t th : t ∈ D -> threads k !! t = Some th -> clean th;
  ti_ready t th : t ∈ R -> threads k !! t = Some th ->
    exists r, pcb_resume th = Some r /\ resume_ok r;
  ti_sleep t th : t ∈ S -> threads k !! t = Some th ->
    exists a r, t_sleepaddr th = Some a /\ pcb_resume th = Some r /\ waits a r /\ resume_ok r;
  ti_cur t th r : curthread k = Some t -> threads k !! t = Some th -> pcb_resume th = Some r ->
    resume_ok r;
  ti_spl : 0 <= curspl (cpu k);
  ti_off : (forall t th, curthread k = Some t -> threads k !! t = Some th -> pcb_resume th <> None) ->
    0 < curspl (cpu k)
}.

Section wild.

(** The semaphores and locks that may have been freed while threads slept on them;
    their memory may be in use for new ones. *)
Variable W : wchan -> Prop.

(** The synchronization part: whoever sleeps on another semaphore or lock has reason to. *)
Record sinv (k : kernel) (S : list Z) : Prop := {
  si_sem t s : t ∈ S -> on k (WSem s) t = true -> ~ W (WSem s) -> sems k !! s = Some 0;
  si_lock t l : t ∈ S -> on k (WLock l) t = true -> ~ W (WLock l) -> exists h, locks k !! l = Some (Some h);
  si_count s c : sems k !! s = Some c -> 0 <= c
}.

Definition counted (k : kernel) (R S : list Z) : Prop :=
  numthreads k = Z.of_nat (length (cl k ++ R ++ S)).

Definition good (k : kernel) : Prop :=
  exists R S D, tinv k R S D /\ sinv k S /\ counted k R S.

(** *** Consequences *)

Lemma ti_known_R k R S D : tinv k R S D -> known k R.
Proof. intros Ht t Hin. apply (ti_dom _ _ _ _ Ht). set_solver. Qed.
Lemma ti_known_S k R S D : tinv k R S D -> known k S.
Proof. intros Ht t Hin. apply (ti_dom _ _ _ _ Ht). set_solver. Qed.

Lemma ti_lengths k R S D : tinv k R S D ->
  Z.of_nat (length R + length S) < max_threads /\ Z.of_nat (length D) < max_threads.
Proof. intros Ht. pose proof (ti_bound _ _ _ _ Ht) as Hb. rewrite !length_app in Hb. lia. Qed.

Lemma ti_cur_not k R S D t : tinv k R S D -> curthread k = Some t ->
  ~ (t ∈ R) /\ ~ (t ∈ S) /\ ~ (t ∈ D) /\ is_Some (threads k !! t).
Proof.
  intros Ht Hc. pose proof (ti_nodup _ _ _ _ Ht) as Hnd. unfold cl in Hnd. rewrite Hc in Hnd.
  simpl in Hnd. apply list.NoDup_cons in Hnd as [Hn _].
  split_and!; [set_solver..|]. apply (ti_dom _ _ _ _ Ht). unfold cl. rewrite Hc. set_solver.
Qed.

(** The invariant does not see semaphores, locks, the process table, vnode
    reference counts, the thread count, the TLB and the clock. *)
Lemma tinv_same k k' R S D : tinv k R S D ->
  sleepers k' = sleepers k -> zombies k' = zombies k -> runqueue k' = runqueue k ->
  curthread k' = curthread k -> threads k' = threads k -> cpu k' = cpu k ->
  tinv k' R S D.
Proof.
  intros [] E1 E2 E3 E4 E5 E6. unfold cl in *.
  split; unfold cl; rewrite ?E4, ?E5, ?E6; try done.
  destruct ti_rep0. split; rewrite ?E1, ?E2, ?E3; done.
Qed.

Lemma tinv_splx k R S D s t th : tinv k R S D -> 0 <= s ->
  curthread k = Some t -> threads k !! t = Some th -> pcb_resume th = None ->
  tinv (k_splx k s) R S D.
Proof.
  intros [] Hs Hc Hth Hres. split; try done; [by destruct ti_rep0|].
  simpl. intros Hp. exfalso. by apply (Hp t th).
Qed.

(** Updating the current thread. *)
Lemma tinv_upd_cur k R S D t th th' : tinv k R S D -> curthread k = Some t ->
  threads k !! t = Some th -> magic th' ->
  (forall r, pcb_resume th' = Some r -> resume_ok r) -> 0 < curspl (cpu k) ->
  tinv (set_threads k (<[t := th']> (threads k))) R S D.
Proof.
  intros Ht Hc Hth Hmag Hres Hspl. destruct (ti_cur_not _ _ _ _ _ Ht Hc) as (HR & HS & HD & _).
  destruct Ht. split; simpl; try done.
  - by destruct ti_rep0.
  - intros x. rewrite lookup_insert_is_Some', ti_dom0. unfold cl; simpl. rewrite Hc. set_solver.
  - intros x thx. rewrite lookup_insert. case_decide; [by intros [= <-]|apply ti_magic0].
  - intros x thx Hx. rewrite lookup_insert_ne by (intros ->; done). by apply ti_clean0.
  - intros x thx Hx. rewrite lookup_insert_ne by (intros ->; done). by apply ti_ready0.
  - intros x thx Hx. rewrite lookup_insert_ne by (intros ->; done). by apply ti_sleep0.
  - intros x thx r Hx. rewrite Hc in Hx. injection Hx as <-. rewrite lookup_insert_eq.
    intros [= <-]. apply Hres.
Qed.

(** *** Waking *)

Lemma awake_asleep_perm k a l : l ≡ₚ awake k a l ++ asleep k a l.
Proof.
  unfold awake, asleep. induction l as [|t l IH]; [done|]. rewrite !filter_cons.
  destruct (on k a t); simpl.
  - by constructor.
  - rewrite <- Permutation_middle. by constructor.
Qed.

(** Moving threads from the sleepers to the run queue. *)
Lemma tinv_move k R S D R' S' sl q : tinv k R S D ->
  rep (set_runqueue (set_sleepers k sl) q) R' S' D -> R' ++ S' ≡ₚ R ++ S ->
  (forall t, t ∈ S' -> t ∈ S) -> tinv (set_runqueue (set_sleepers k sl) q) R' S' D.
Proof.
  intros Ht Hr Hp Hsub.
  assert (cl k ++ R' ++ S' ++ D ≡ₚ cl k ++ R ++ S ++ D) as Hp'.
  { by rewrite (app_assoc R'), (app_assoc R), Hp. }
  destruct Ht. split; try done; simpl.
  - unfold cl in *; simpl. by rewrite Hp'.
  - intros t. unfold cl in *; simpl. rewrite Hp'. apply ti_dom0.
  - unfold cl in *; simpl. by rewrite Hp'.
  - intros t th Hin Hth. assert (t ∈ R ++ S) as [HR|HS]%elem_of_app by (rewrite <- Hp; set_solver).
    + by apply (ti_ready0 t).
    + destruct (ti_sleep0 t th HS Hth) as (? & r & _ & ? & _ & ?). by exists r.
  - intros t th Hin. by apply ti_sleep0, Hsub.
Qed.

Lemma tinv_wakeup mem k a R S D k' : tinv k R S D -> 0 < curspl (cpu k) ->
  thread_wakeup mem k a = Done k' ->
  exists sl q, k' = set_runqueue (set_sleepers k sl) q /\
    tinv k' (R ++ awake k a S) (asleep k a S) D.
Proof.
  intros Ht Hspl E. destruct (ti_lengths _ _ _ _ Ht) as [Hlen _].
  destruct (thread_wakeup_spec mem k a R S D) as [(sl & q & E' & Hr)|[E' _]];
    [apply Ht|done|by eapply ti_known_S|done| |congruence].
  rewrite E in E'. injection E' as ->. exists sl, q. split; [done|].
  apply (tinv_move k R S D); try done.
  - by rewrite <- app_assoc, <- (awake_asleep_perm k a S).
  - by intros t [_ ?]%list_elem_of_filter.
Qed.

Lemma sinv_wakeup k S sl q a : sinv k S -> sinv (set_runqueue (set_sleepers k sl) q) (asleep k a S).
Proof.
  intros []. split; simpl; try done.
  - intros t s [_ Hin]%list_elem_of_filter. by apply si_sem0.
  - intros t l [_ Hin]%list_elem_of_filter. by apply si_lock0.
Qed.

Lemma counted_wakeup k R S sl q a : counted k R S ->
  counted (set_runqueue (set_sleepers k sl) q) (R ++ awake k a S) (asleep k a S).
Proof.
  unfold counted, cl; simpl. intros ->. rewrite !length_app.
  pose proof (awake_asleep_length k a S). lia.
Qed.

(** *** Switching *)

Lemma tinv_switch mem k st r R S D t th k' : tinv k R S D -> 0 < curspl (cpu k) ->
  curthread k = Some t -> threads k !! t = Some th ->
  match st with
  | S_READY => resume_ok r
  | S_SLEEP => resume_ok r /\ exists a, t_sleepaddr th = Some a /\ waits a r
  | S_ZOMB => clean th
  end ->
  mi_switch mem k st r = Done k' ->
  let '(R', S', D') := stash st t R S D in
  tinv k' (tail R') S' D' /\ frame k k' /\ cl k' = option_list (head R') /\
  threads k' = <[t := thread_set_resume (Some r) (in_interrupt k) th]> (threads k).
Proof.
  intros Ht Hspl Hc Hth Hside E. destruct (ti_lengths _ _ _ _ Ht) as [HRS HD].
  pose proof (mi_switch_spec mem k st r t th R S D (ti_rep _ _ _ _ Ht) Hspl Hc Hth
    (ti_magic _ _ _ _ Ht t th Hth) (ti_known_R _ _ _ _ Ht) ltac:(lia) ltac:(lia) HD) as Hspec.
  destruct (ti_cur_not _ _ _ _ _ Ht Hc) as (HnR & HnS & HnD & _).
  destruct (stash st t R S D) as [[R' S'] D'] eqn:Est.
  destruct Hspec as [(k1 & E1 & Hf & Hm & _ & Hrep & Hcase)|[E1 _]]; [|congruence].
  rewrite E in E1. injection E1 as <-.
  assert (cl k' = option_list (head R')) as Hcl.
  { unfold cl. destruct R'; destruct Hcase as [-> _]; done. }
  assert (cl k' ++ tail R' ++ S' ++ D' ≡ₚ cl k ++ R ++ S ++ D) as Hp.
  { rewrite Hcl. unfold cl. rewrite Hc. simpl.
    assert (option_list (head R') ++ tail R' = R') as HR' by (by destruct R').
    rewrite app_assoc, HR'. destruct st; simpl in Est; injection Est as <- <- <-.
    - rewrite <- app_assoc. simpl. by rewrite <- Permutation_middle.
    - rewrite <- app_assoc. simpl. by rewrite (app_assoc R S), <- Permutation_middle, <- app_assoc.
    - rewrite (app_assoc S D), (app_assoc R). by rewrite <- Permutation_cons_append. }
  split; [|done]. destruct Ht. split.
  - done.
  - by rewrite Hp.
  - intros x. rewrite Hm, lookup_insert_is_Some', ti_dom0, Hp.
    unfold cl. rewrite Hc. simpl. set_solver.
  - by rewrite Hp.
  - intros x thx. rewrite Hm, lookup_insert. case_decide; [|apply ti_magic0].
    intros [= <-]. by apply (ti_magic0 t th).
  - intros x thx Hx. rewrite Hm, lookup_insert. case_decide as Hd.
    + subst x. intros [= <-]. destruct st; simpl in Est; injection Est as <- <- <-; done.
    + intros Hthx. apply (ti_clean0 x thx); [|done].
      destruct st; simpl in Est; injection Est as <- <- <-; set_solver.
  - intros x thx Hx. rewrite Hm, lookup_insert. case_decide as Hd.
    + subst x. intros [= <-]. exists r. split; [done|].
      destruct st; simpl in Est; injection Est as <- <- <-; [done|by destruct Hside|].
      exfalso. apply HnR. destruct R; simpl in Hx; set_solver.
    + intros Hthx. apply (ti_ready0 x thx); [|done].
      destruct st; simpl in Est; injection Est as <- <- <-; destruct R; simpl in Hx; set_solver.
  - intros x thx Hx. rewrite Hm, lookup_insert. case_decide as Hd.
    + subst x. intros [= <-]. destruct st; simpl in Est; injection Est as <- <- <-; try done.
      destruct Hside as (Hres & a & Ha & Hw). exists a, r. done.
    + intros Hthx. apply (ti_sleep0 x thx); [|done].
      destruct st; simpl in Est; injection Est as <- <- <-; set_solver.
  - intros x thx rx Hx. rewrite Hm, lookup_insert. case_decide as Hd.
    + subst x. intros [= <-]. simpl. intros [= <-].
      assert (R' <> [] /\ head R' = Some t) as [_ Hhd].
      { unfold cl in Hcl. rewrite Hx in Hcl. destruct R' as [|n R']; [done|]. simpl in Hcl.
        injection Hcl as <-. done. }
      destruct st; simpl in Est; injection Est as <- <- <-; [done|by destruct Hside|].
      exfalso. apply HnR. destruct R; simpl in Hhd; [done|]. injection Hhd as <-. left.
    + intros Hthx. assert (x ∈ R') as HxR.
      { unfold cl in Hcl. rewrite Hx in Hcl. destruct R' as [|n R']; [done|]. simpl in Hcl.
        injection Hcl as <-. left. }
      assert (x ∈ R) as HxR0.
      { destruct st; simpl in Est; injection Est as <- <- <-; set_solver. }
      destruct (ti_ready0 x thx HxR0 Hthx) as (r0 & Hr0 & ?). intros E0. congruence.
  - rewrite (fr_cpu _ _ Hf). lia.
  - rewrite (fr_cpu _ _ Hf). lia.
Qed.

Lemma tinv_switched_in mem k R S D t k' : tinv k R S D -> 0 < curspl (cpu k) ->
  curthread k = Some t -> switched_in mem k = Done k' ->
  tinv k' R S [] /\ frame k k' /\ curthread k' = curthread k /\
  forall x, ~ (x ∈ D) -> threads k' !! x = threads k !! x.
Proof.
  intros Ht Hspl Hc E. destruct (ti_cur_not _ _ _ _ _ Ht Hc) as (_ & _ & HnD & _).
  pose proof (ti_nodup _ _ _ _ Ht) as Hnd.
  destruct (exorcise_spec mem k R S D) as (m & zo & E1 & Hr & Hm); [apply Ht|done| | |].
  { apply list.NoDup_app in Hnd as (_ & _ & (_ & _ & (_ & _ & ?)%list.NoDup_app)%list.NoDup_app). done. }
  { intros x Hx. split; [congruence|].
    destruct (proj2 (ti_dom _ _ _ _ Ht x)) as [th Hth]; [set_solver|].
    exists th. split; [done|]. by apply (ti_clean _ _ _ _ Ht x). }
  unfold switched_in in E. rewrite E1 in E. cbn [mbind exec_bind] in E.
  assert (tinv (set_zombies (set_threads k m) zo) R S []) as Ht1.
  { rewrite !app_assoc in Hnd. apply list.NoDup_app in Hnd as (Hnd & Hdis & _).
    assert (forall x, x ∈ cl k ++ R ++ S -> ~ (x ∈ D)) as Hout.
    { intros x Hx HxD. apply (Hdis x); [|done]. by rewrite <- !app_assoc. }
    destruct Ht. split; simpl; try done.
    - unfold cl; simpl. rewrite app_nil_r, app_assoc. done.
    - intros x. rewrite Hm. unfold cl in *; simpl. rewrite app_nil_r. case_decide as Hx.
      + split; [by intros []|]. intros Hin. by apply Hout in Hin.
      + rewrite ti_dom0. set_solver.
    - unfold cl in *; simpl. rewrite app_nil_r. rewrite !length_app in *. lia.
    - intros x th. rewrite Hm. case_decide; [done|]. apply ti_magic0.
    - intros x th Hx. by apply elem_of_nil in Hx.
    - intros x th Hx. rewrite Hm. case_decide; [done|]. by apply ti_ready0.
    - intros x th Hx. rewrite Hm. case_decide; [done|]. by apply ti_sleep0.
    - intros x th r Hx. rewrite Hm. case_decide; [done|]. by apply ti_cur0. }
  assert (exists l, k' = set_tlb (set_zombies (set_threads k m) zo) l) as [l ->].
  { unfold activate, cur in E. simpl in E. rewrite Hc in E. cbn [mbind exec_bind] in E.
    unfold deref in E. destruct (m !! t) as [th|]; [|done]. cbn [mbind exec_bind] in E.
    destruct (t_vmspace th).
    - destruct (AddrSpace.as_activate (tlb k)) as [l|]; [|done]. cbn in E. injection E as <-. eauto.
    - injection E as <-. exists (tlb k). by destruct k. }
  split; [by eapply tinv_same|]. split; [by split|]. split; [done|].
  intros x Hx. simpl. rewrite Hm. by rewrite decide_False.
Qed.

(** ** Operations of the running thread *)

Definition running (k : kernel) (t : Z) : Prop :=
  curthread k = Some t /\ exists th, threads k !! t = Some th /\ pcb_resume th = None.

(** In a critical section, interrupts off. *)
Record crit (k : kernel) (R S D : list Z) : Prop := {
  cr_tinv : tinv k R S D;
  cr_counted : counted k R S;
  cr_spl : 0 < curspl (cpu k)
}.

(** The same thread goes on, at the same level. *)
Definition goes_on (k k' : kernel) : Prop :=
  curthread k' = curthread k /\ threads k' = threads k /\ cpu k' = cpu k.

Lemma goes_on_running k k' t : goes_on k k' -> running k t -> running k' t.
Proof. intros (E1 & E2 & _). unfold running. by rewrite E1, E2. Qed.

Lemma crit_same k k' R S D : crit k R S D ->
  sleepers k' = sleepers k -> zombies k' = zombies k -> runqueue k' = runqueue k ->
  curthread k' = curthread k -> threads k' = threads k -> cpu k' = cpu k ->
  numthreads k' = numthreads k -> crit k' R S D.
Proof.
  intros [] E1 E2 E3 E4 E5 E6 E7. split.
  - by eapply tinv_same.
  - unfold counted, cl in *. congruence.
  - by rewrite E6.
Qed.

Lemma sinv_mono k k' S S' : sinv k S -> sems k' = sems k -> locks k' = locks k ->
  (forall t a, t ∈ S' -> on k' a t = true -> t ∈ S /\ on k a t = true) -> sinv k' S'.
Proof.
  intros [] E1 E2 Hon. split; rewrite ?E1, ?E2; try done.
  - intros t s Hin H. apply Hon in H as [? ?]; [|done]. by apply (si_sem0 t).
  - intros t l Hin H. apply Hon in H as [? ?]; [|done]. by apply (si_lock0 t).
Qed.

Lemma crit_enter k R S D : tinv k R S D -> counted k R S ->
  crit (fst (k_splhigh k)) R S D /\ 0 <= snd (k_splhigh k).
Proof.
  intros Ht Hn. split; [|apply Ht]. split; try done.
  destruct Ht. split; try done. by destruct ti_rep0.
Qed.

Lemma crit_leave k R S D t s : crit k R S D -> running k t -> sinv k S -> 0 <= s -> good (k_splx k s).
Proof.
  intros [Ht Hn Hspl] (Hc & th & Hth & Hres) Hs Hs0. exists R, S, D. split; [|split].
  - by eapply tinv_splx.
  - destruct Hs. by split.
  - done.
Qed.

Lemma crit_wakeup mem k a R S D k' : crit k R S D -> thread_wakeup mem k a = Done k' ->
  exists sl q, k' = set_runqueue (set_sleepers k sl) q /\
    crit k' (R ++ awake k a S) (asleep k a S) D.
Proof.
  intros [Ht Hn Hspl] E. destruct (tinv_wakeup mem k a R S D k' Ht Hspl E) as (sl & q & -> & Ht').
  exists sl, q. split; [done|]. split; try done. by apply counted_wakeup.
Qed.

(** After waking everyone on [a], nobody sleeps on it. *)
Lemma asleep_not_on k a S t : t ∈ asleep k a S -> on k a t = false.
Proof. by intros [? _]%list_elem_of_filter. Qed.

Lemma sleep_good mem k a r R S D t k' : crit k R S D -> running k t -> sinv k S ->
  resume_ok r -> waits a r ->
  match a with
  | WSem s => sems k !! s = Some 0
  | WLock l => exists h, locks k !! l = Some (Some h)
  | _ => True
  end ->
  thread_sleep mem k a r = Done k' -> good k'.
Proof.
  intros [Ht Hn Hspl] (Hc & th & Hth & Hres) Hs Hr Hw Hreason E.
  unfold thread_sleep in E. destruct (Z.eqb_spec (in_interrupt k) 0); [|done].
  unfold cur, upd_thread, deref in E. cbn [assert] in E. rewrite Hc in E. cbn [mbind exec_bind] in E.
  rewrite Hth in E. cbn [mbind exec_bind] in E.
  set (th1 := thread_set_sleepaddr (Some a) th) in E.
  set (k1 := set_threads k (<[t := th1]> (threads k))) in E.
  assert (tinv k1 R S D) as Ht1.
  { apply (tinv_upd_cur k R S D t th); try done; [by apply (ti_magic _ _ _ _ Ht t th)|].
    simpl. congruence. }
  destruct (ti_cur_not _ _ _ _ _ Ht Hc) as (HnR & HnS & HnD & _).
  pose proof (tinv_switch mem k1 S_SLEEP r R S D t th1 k' Ht1 Hspl Hc
    ltac:(simpl; by rewrite lookup_insert_eq) ltac:(split; [done|by exists a]) E) as Hsw.
  simpl in Hsw. destruct Hsw as (Ht' & Hf & Hcl & Hm).
  exists (tail R), (S ++ [t]), D. split; [done|]. split.
  - assert (forall x b, x ∈ S ++ [t] -> on k' b x = true ->
      (x ∈ S /\ on k b x = true) \/ (x = t /\ b = a)) as Hon.
    { intros x b [Hx|Hx%list_elem_of_singleton]%elem_of_app; unfold on; rewrite Hm; simpl.
      - rewrite !lookup_insert_ne by (intros ->; done). auto.
      - subst x. rewrite lookup_insert_eq. simpl. intros Hb%bool_decide_eq_true.
        right. split; [done|congruence]. }
    destruct Hs. split; rewrite ?(fr_sems _ _ Hf), ?(fr_locks _ _ Hf); simpl; try done.
    + intros x s Hx H Hw'. destruct (Hon x _ Hx H) as [[? ?]|[_ <-]]; [by apply (si_sem0 x)|done].
    + intros x l Hx H Hw'. destruct (Hon x _ Hx H) as [[? ?]|[_ <-]]; [by apply (si_lock0 x)|done].
  - unfold counted in *. rewrite (fr_numthreads _ _ Hf). simpl. rewrite Hn, Hcl. unfold cl. rewrite Hc.
    destruct R; simpl; rewrite ?length_app; simpl; lia.
Qed.

Lemma yield_good mem k r R S D t k' : crit k R S D -> running k t -> sinv k S -> resume_ok r ->
  mi_switch mem k S_READY r = Done k' -> good k'.
Proof.
  intros [Ht Hn Hspl] (Hc & th & Hth & Hres) Hs Hr E.
  pose proof (tinv_switch mem k S_READY r R S D t th k' Ht Hspl Hc Hth Hr E) as Hsw.
  simpl in Hsw. destruct Hsw as (Ht' & Hf & Hcl & Hm).
  destruct (ti_cur_not _ _ _ _ _ Ht Hc) as (HnR & HnS & HnD & _).
  exists (tail (R ++ [t])), S, D. split; [done|]. split.
  - eapply sinv_mono; [done|apply Hf|apply Hf|]. intros x a Hx. split; [done|].
    unfold on in *. rewrite Hm, lookup_insert_ne in H; [done|]. by intros ->.
  - unfold counted in *. rewrite (fr_numthreads _ _ Hf), Hn, Hcl. unfold cl. rewrite Hc.
    destruct R; simpl; rewrite ?length_app; simpl; lia.
Qed.

Lemma crit_wakeup_one mem k a R S D k' : crit k R S D -> sinv k S ->
  thread_wakeup_one mem k a = Done k' ->
  exists R' S', crit k' R' S' D /\ sinv k' S' /\ goes_on k k'.
Proof.
  intros Hcr Hs E. pose proof Hcr as [Ht Hn Hspl]. unfold thread_wakeup_one in E.
  apply assert_Done in E as [_ E]. apply bind_Done in E as ([u c] & Hsl & E).
  destruct (bool_decide (c = Some a)); [|injection E as <-; by exists R, S].
  destruct S as [|u' S].
  { exfalso. unfold sleeper, Array.array_getguy in Hsl.
    rewrite (rep_num_sl _ _ _ _ (ti_rep _ _ _ _ Ht)) in Hsl.
    apply bind_Done in Hsl as (? & Hg & _). apply assert_Done in Hg as [_ Hg]. apply assert_Done in Hg as [Hf _]. by simpl in Hf. }
  destruct (sleeper_spec k 0 u' _ _ _ (ti_rep _ _ _ _ Ht) (ti_known_S _ _ _ _ Ht) eq_refl)
    as (th & Hth & Hsl'). change (Z.of_nat 0) with 0 in Hsl'. rewrite Hsl in Hsl'. injection Hsl' as -> ->.
  destruct (ti_lengths _ _ _ _ Ht) as [Hlen _].
  destruct (wake_at_spec mem k 0 u' R (u' :: S) D (ti_rep _ _ _ _ Ht) Hspl eq_refl)
    as [(sl & q & E' & Hr & _)|[E' _]]; [simpl in Hlen; lia| |];
    change (Z.of_nat 0) with 0 in E'; rewrite E in E'; [|discriminate].
  injection E' as ->. simpl in Hr. exists (R ++ [u']), S. split; [|split; [|done]].
  - split; try done.
    + apply (tinv_move k R (u' :: S) D); try done; [by rewrite <- app_assoc|set_solver].
    + unfold counted, cl in *. simpl in *. rewrite Hn, !length_app. simpl. lia.
  - eapply sinv_mono; [done|done|done|]. intros x b Hx Hon. split; [by right|done].
Qed.

Lemma P_loop_good mem k sem spl R S D t k' : crit k R S D -> running k t -> sinv k S -> 0 <= spl ->
  P_loop mem k sem spl = Done k' -> good k'.
Proof.
  intros Hcr Hrun Hs Hspl E. unfold P_loop in E. apply bind_Done in E as (c & Hc & E).
  unfold deref in Hc. destruct (sems k !! sem) as [c'|] eqn:Esem; [|done]. injection Hc as ->.
  destruct (Z.eqb_spec c 0) as [->|Hne].
  - by eapply (sleep_good mem k (WSem sem) (RP sem spl)).
  - apply assert_Done in E as [Hpos E]. injection E as <-.
    assert (0 < c) by (rewrite Z.gtb_ltb in Hpos; by apply Z.ltb_lt).
    eapply (crit_leave _ R S D t); [by eapply crit_same|done| |done].
    destruct Hs. split; simpl; try done.
    + intros x s Hx Hon Hw. rewrite lookup_insert_ne; [by apply (si_sem0 x)|]. intros <-.
      rewrite (si_sem0 x sem Hx Hon Hw) in Esem. congruence.
    + intros s c'. rewrite lookup_insert. case_decide; [intros [= <-]; lia|apply si_count0].
Qed.

Lemma acquire_loop_good mem k l spl after R S D t k' : crit k R S D -> running k t -> sinv k S -> 0 <= spl ->
  match after with None => True | Some s => 0 <= s end ->
  acquire_loop mem k l spl after = Done k' -> good k'.
Proof.
  intros Hcr Hrun Hs Hspl Haft E. unfold acquire_loop in E. apply bind_Done in E as (h & Hh & E).
  unfold deref in Hh. destruct (locks k !! l) as [h'|] eqn:El; [|done]. injection Hh as ->.
  destruct h as [h|].
  - eapply (sleep_good mem k (WLock l) (RAcquire l spl after)); try done. by exists h.
  - injection E as <-. set (k1 := set_locks k _).
    assert (crit k1 R S D) as Hcr1 by (by eapply crit_same).
    assert (sinv k1 S) as Hs1.
    { destruct Hs. split; simpl; try done. intros x l' Hx Hon. rewrite lookup_insert. case_decide.
      - destruct Hrun as [-> _]. eauto.
      - by apply (si_lock0 x). }
    destruct after as [s|]; [|by eapply crit_leave].
    assert (k_splx (k_splx k1 spl) s = k_splx (set_cpu k1 (fst (splx (cpu k1) spl))) s) as -> by done.
    destruct (crit_leave k1 R S D t s Hcr1 Hrun Hs1 Haft) as (R' & S' & D' & Ht' & Hs' & Hn').
    exists R', S', D'. split; [|split].
    + destruct Ht'. split; try done. by destruct ti_rep0.
    + destruct Hs'. by split.
    + done.
Qed.

Lemma clock_loop_good mem k n spl R S D t k' : crit k R S D -> running k t -> sinv k S -> 0 <= spl ->
  clock_loop mem k n spl = Done k' -> good k'.
Proof.
  intros Hcr Hrun Hs Hspl E. unfold clock_loop in E. destruct (n >? 0).
  - by eapply (sleep_good mem k WLbolt (RClock n spl)).
  - injection E as <-. by eapply crit_leave.
Qed.

(** [V] and [lock_release], up to the restoring of the level. *)
Lemma crit_V mem k sem R S D k' c : crit k R S D -> sinv k S -> sems k !! sem = Some c ->
  0 < c + 1 -> thread_wakeup mem (set_sems k (<[sem := c + 1]> (sems k))) (WSem sem) = Done k' ->
  exists R' S', crit k' R' S' D /\ sinv k' S' /\ goes_on k k'.
Proof.
  intros Hcr Hs Hc Hpos E. set (k1 := set_sems k _) in E.
  assert (crit k1 R S D) as Hcr1 by (by eapply crit_same).
  destruct (crit_wakeup mem k1 _ R S D k' Hcr1 E) as (sl & q & -> & Hcr').
  eexists _, _. split; [exact Hcr'|]. split; [|done]. destruct Hs. split; simpl.
  - intros x s Hx Hon Hw. rewrite lookup_insert_ne.
    + apply (si_sem0 x); [by apply list_elem_of_filter in Hx as [_ ?]|done|done].
    + intros <-. apply asleep_not_on in Hx. exact (eq_true_false_abs _ Hon Hx).
  - intros x l Hx Hon Hw. apply (si_lock0 x); [by apply list_elem_of_filter in Hx as [_ ?]|done|done].
  - intros s c'. rewrite lookup_insert. case_decide; [intros [= <-]; lia|apply si_count0].
Qed.

Lemma crit_release mem k l R S D k' : crit k R S D -> sinv k S ->
  thread_wakeup mem (set_locks k (<[l := None]> (locks k))) (WLock l) = Done k' ->
  exists R' S', crit k' R' S' D /\ sinv k' S' /\ goes_on k k'.
Proof.
  intros Hcr Hs E. set (k1 := set_locks k _) in E.
  assert (crit k1 R S D) as Hcr1 by (by eapply crit_same).
  destruct (crit_wakeup mem k1 _ R S D k' Hcr1 E) as (sl & q & -> & Hcr').
  eexists _, _. split; [exact Hcr'|]. split; [|done]. destruct Hs. split; simpl; try done.
  - intros x s Hx Hon Hw. apply (si_sem0 x); [by apply list_elem_of_filter in Hx as [_ ?]|done|done].
  - intros x l' Hx Hon Hw. rewrite lookup_insert_ne.
    + apply (si_lock0 x); [by apply list_elem_of_filter in Hx as [_ ?]|done|done].
    + intros <-. apply asleep_not_on in Hx. exact (eq_true_false_abs _ Hon Hx).
Qed.

Lemma crit_wakeup_sinv mem k a R S D k' : crit k R S D -> sinv k S ->
  thread_wakeup mem k a = Done k' -> exists R' S', crit k' R' S' D /\ sinv k' S' /\ goes_on k k'.
Proof.
  intros Hcr Hs E. destruct (crit_wakeup mem k a R S D k' Hcr E) as (sl & q & -> & Hcr').
  eexists _, _. split; [exact Hcr'|]. split; [by apply sinv_wakeup|done].
Qed.

(** ** Steps of the system *)

(** The calls a running thread makes.  [sem_destroy] is two of them, since other
    threads may run between its test and its [kfree]s; nothing is assumed of when
    semaphores and locks are freed.  [cv_destroy] changes nothing modelled here. *)
Inductive op : Type :=
| OP (s : Z) | OV (s : Z)
| OAcquire (l : Z) | ORelease (l : Z)
| OWait (c l : Z) | OSignal (c l : Z) | OBroadcast (c l : Z)
| OYield | OClock (n : Z) | OExit | OFork (name : string) (over : Z)
| OSemCreate (namelen n : Z) | OSemTest (s : Z) | OSemFree (s : Z)
| OLockCreate (namelen : Z) | OLockDestroy (l : Z).

Definition exec_op (mem : Z -> bool) (k : kernel) (o : op) : exec kernel :=
  match o with
  | OP s => P mem k s
  | OV s => V mem k s
  | OAcquire l => lock_acquire mem k l None
  | ORelease l => lock_release mem k l
  | OWait c l => cv_wait mem k c l
  | OSignal c l => cv_signal mem k c l
  | OBroadcast c l => cv_broadcast mem k c l
  | OYield => thread_yield mem k
  | OClock n => clocksleep mem k n
  | OExit => thread_exit mem k
  | OFork name over => '(k', _) ← thread_fork mem k name over; Done k'
  | OSemCreate nl n => '(k', _) ← sem_create mem k nl n; Done k'
  | OSemTest s => sem_destroy_test k s
  | OSemFree s => sem_free k s
  | OLockCreate nl => Done (fst (lock_create mem k nl))
  | OLockDestroy l => lock_destroy k l
  end.

(** One step: the running thread makes a call; the thread switched to continues;
    the idle loop looks at the run queue; an interrupt arrives, while a thread
    runs or in the idle loop.  Each step has its own outcome of [kmalloc]. *)
Inductive kstep : kernel -> kernel -> Prop :=
| KOp mem k t o k' :
    running k t -> Z.of_nat (size (threads k)) + 1 < max_threads ->
    exec_op mem k o = Done k' -> kstep k k'
| KResume mem k t th r k' :
    curthread k = Some t -> threads k !! t = Some th -> pcb_resume th = Some r ->
    run_resume mem k = Done k' -> kstep k k'
| KIdle k k' : curthread k = None -> dispatch k = Done k' -> kstep k k'
| KIrq mem k i k' :
    (curthread k = None \/ exists t, running k t) ->
    mips_interrupt mem k i = Done k' -> kstep k k'.

Lemma good_enter k t : good k -> running k t ->
  exists R S D, crit (fst (k_splhigh k)) R S D /\ running (fst (k_splhigh k)) t /\
    sinv (fst (k_splhigh k)) S /\ 0 <= snd (k_splhigh k).
Proof.
  intros (R & S & D & Ht & Hs & Hn) Hrun. exists R, S, D.
  destruct (crit_enter k R S D Ht Hn) as [? ?]. split_and!; try done. destruct Hs. by split.
Qed.

Lemma V_crit mem k s R S D k' : tinv k R S D -> counted k R S -> sinv k S -> V mem k s = Done k' ->
  exists k2 R' S', k' = k_splx k2 (curspl (cpu k)) /\ crit k2 R' S' D /\ sinv k2 S' /\
    goes_on (fst (k_splhigh k)) k2.
Proof.
  intros Ht Hn Hs E. destruct (crit_enter k R S D Ht Hn) as [Hcr _].
  unfold V in E. apply assert_Done in E as [_ E].
  unfold k_splhigh, splhigh, splx in *. cbn [fst snd] in *. set (k1 := set_cpu k _) in *.
  apply bind_Done in E as (c & Hc & E). apply bind_Done in E as (c' & Hc' & E).
  apply int_inv in Hc' as [-> _]. apply assert_Done in E as [Hpos E].
  apply bind_Done in E as (k2 & E2 & E). injection E as <-.
  unfold deref in Hc. destruct (sems k1 !! s) eqn:Es; [|done]. injection Hc as ->.
  rewrite Z.gtb_ltb in Hpos. apply Z.ltb_lt in Hpos.
  destruct (crit_V mem k1 s R S D k2 c Hcr) as (R' & S' & Hcr' & Hs' & Hon); try done.
  { destruct Hs. by split. }
  by exists k2, R', S'.
Qed.

Lemma V_good mem k s t k' : good k -> running k t -> V mem k s = Done k' -> good k'.
Proof.
  intros (R & S & D & Ht & Hs & Hn) Hrun E.
  destruct (V_crit mem k s R S D k' Ht Hn Hs E) as (k2 & R' & S' & -> & Hcr & Hs' & Hon).
  eapply crit_leave; [done|by eapply goes_on_running|done|apply Ht].
Qed.

Lemma release_crit mem k l t R S D k' : tinv k R S D -> counted k R S -> running k t -> sinv k S ->
  lock_release mem k l = Done k' ->
  exists k2 R' S', k' = k_splx k2 (curspl (cpu k)) /\ crit k2 R' S' D /\ sinv k2 S' /\ running k2 t.
Proof.
  intros Ht Hn Hrun Hs E. unfold lock_release in E. apply assert_Done in E as [_ E].
  destruct (crit_enter k R S D Ht Hn) as [Hcr1 _].
  unfold k_splhigh, splhigh, splx in *. cbn [fst snd] in *. set (k1 := set_cpu k _) in *.
  apply bind_Done in E as (h & Hh & E). apply assert_Done in E as [_ E].
  apply bind_Done in E as (k2 & E2 & E). injection E as <-.
  destruct (crit_release mem k1 l R S D k2 Hcr1) as (R' & S' & Hcr' & Hs' & Hon); [|done|].
  { destruct Hs. by split. }
  exists k2, R', S'. split_and!; try done. eapply goes_on_running; [done|]. done.
Qed.

Lemma lock_release_good mem k l t k' : good k -> running k t -> lock_release mem k l = Done k' -> good k'.
Proof.
  intros (R & S & D & Ht & Hs & Hn) Hrun E.
  destruct (release_crit mem k l t R S D k' Ht Hn Hrun Hs E) as (k2 & R' & S' & -> & Hcr & Hs' & Hrun').
  eapply crit_leave; try done. apply Ht.
Qed.

Lemma lock_acquire_good mem k l after t R S D k' : tinv k R S D -> counted k R S -> sinv k S ->
  running k t -> match after with None => True | Some s => 0 <= s end ->
  lock_acquire mem k l after = Done k' -> good k'.
Proof.
  intros Ht Hn Hs Hrun Haft E.
  destruct (good_enter k t ltac:(by exists R, S, D) Hrun) as (R1 & S1 & D1 & Hcr & Hrun1 & Hs1 & Hspl).
  unfold lock_acquire in E. apply assert_Done in E as [_ E].
  destruct (k_splhigh k) as [k1 spl]. cbn [fst snd] in *.
  apply bind_Done in E as (held & _ & E). apply assert_Done in E as [_ E].
  by eapply acquire_loop_good.
Qed.

(** A critical section at a higher level is one at the level [SPL_HIGH]. *)
Lemma crit_splx k R S D s : crit k R S D -> 0 < s -> crit (k_splx k s) R S D.
Proof.
  intros [Ht Hn Hspl] Hs. split; try done. destruct Ht. split; simpl; try done; [|lia].
  by destruct ti_rep0.
Qed.

Lemma cv_wait_good mem k c l t k' : good k -> running k t -> cv_wait mem k c l = Done k' -> good k'.
Proof.
  intros Hg Hrun E. destruct (good_enter k t Hg Hrun) as (R & S & D & Hcr & Hrun1 & Hs & Hspl).
  unfold cv_wait in E. apply assert_Done in E as [_ E]. apply assert_Done in E as [_ E].
  destruct (k_splhigh k) as [k1 spl]. cbn [fst snd] in *. apply bind_Done in E as (k2 & E2 & E).
  destruct (release_crit mem k1 l t R S D k2 (cr_tinv _ _ _ _ Hcr) (cr_counted _ _ _ _ Hcr) Hrun1 Hs E2) as (k3 & R' & S' & -> & Hcr' & Hs' & Hrun').
  pose proof (crit_splx k3 R' S' D _ Hcr' (cr_spl _ _ _ _ Hcr)) as Hcr3.
  eapply (sleep_good mem _ (WCv c) (RWait l spl)); try done. destruct Hs'. by split.
Qed.

Lemma signal_good mem k c l t k' : good k -> running k t ->
  cv_signal mem k c l = Done k' \/ cv_broadcast mem k c l = Done k' -> good k'.
Proof.
  intros Hg Hrun E. destruct (good_enter k t Hg Hrun) as (R & S & D & Hcr & Hrun1 & Hs & Hspl).
  unfold cv_signal, cv_broadcast in E.
  destruct (k_splhigh k) as [k1 spl]. cbn [fst snd] in *.
  destruct E as [E|E]; apply assert_Done in E as [_ E]; apply assert_Done in E as [_ E];
    apply bind_Done in E as (held & _ & E); apply assert_Done in E as [_ E];
    apply bind_Done in E as (k2 & E2 & E); injection E as <-.
  - destruct (crit_wakeup_one mem k1 _ R S D k2 Hcr Hs E2) as (R' & S' & Hcr' & Hs' & Hon).
    eapply crit_leave; try done. by eapply goes_on_running.
  - destruct (crit_wakeup_sinv mem k1 _ R S D k2 Hcr Hs E2) as (R' & S' & Hcr' & Hs' & Hon).
    eapply crit_leave; try done. by eapply goes_on_running.
Qed.

Lemma thread_yield_good mem k f t R S D k' : tinv k R S D -> counted k R S -> sinv k S ->
  running k t -> (forall spl, 0 <= spl -> resume_ok (f spl)) ->
  thread_yield_to mem k f = Done k' -> good k'.
Proof.
  intros Ht Hn Hs Hrun Hf E.
  destruct (good_enter k t ltac:(by exists R, S, D) Hrun) as (R1 & S1 & D1 & Hcr & Hrun1 & Hs1 & Hspl).
  unfold thread_yield_to in E. destruct (k_splhigh k) as [k1 spl]. cbn [fst snd] in *.
  pose proof Hrun1 as [Hc _]. rewrite Hc in E. eapply yield_good; try done. by apply Hf.
Qed.

Lemma thread_exit_good mem k t k' : good k -> running k t -> thread_exit mem k = Done k' -> good k'.
Proof.
  intros Hg Hrun E. destruct (good_enter k t Hg Hrun) as (R & S & D & Hcr & Hrun1 & Hs & Hspl).
  unfold thread_exit in E. apply bind_Done in E as (ok & _ & E). apply assert_Done in E as [_ E].
  destruct (k_splhigh k) as [k1 spl]. cbn [fst snd] in *.
  destruct Hrun1 as (Hc & th & Hth & Hres). unfold cur in E. rewrite Hc in E. cbn [mbind exec_bind] in E.
  apply bind_Done in E as (th0 & _ & E). apply bind_Done in E as (k2 & E2 & E).
  assert (exists v, k2 = set_vrefs k1 v) as [v ->].
  { destruct (t_cwd th0) as [c|].
    - unfold vop_decref in E2. apply bind_Done in E2 as (n & _ & E2).
      apply assert_Done in E2 as [_ E2]. injection E2 as <-. eauto.
    - injection E2 as <-. exists (vrefs k1). by destruct k1. }
  unfold upd_thread, deref in E. simpl in E. rewrite Hth in E. cbn [mbind exec_bind] in E.
  apply assert_Done in E as [_ E]. set (th1 := thread_set_vm_cwd None None th) in E.
  set (k3 := set_numthreads _ _) in E. destruct Hcr as [Ht Hn Hs0].
  assert (tinv k3 R S D) as Ht3.
  { apply (tinv_same (set_threads k1 (<[t := th1]> (threads k1)))); try done.
    apply (tinv_upd_cur k1 R S D t th); try done; [by apply (ti_magic _ _ _ _ Ht t th)|].
    simpl. congruence. }
  destruct (ti_cur_not _ _ _ _ _ Ht Hc) as (HnR & HnS & HnD & _).
  pose proof (tinv_switch mem k3 S_ZOMB RDead R S D t th1 k' Ht3 Hs0 Hc
    ltac:(simpl; by rewrite lookup_insert_eq) ltac:(done) E) as Hsw.
  simpl in Hsw. destruct Hsw as (Ht' & Hf & Hcl & Hm).
  exists (tail R), S, (D ++ [t]). split; [done|]. split.
  - eapply sinv_mono; [exact Hs|apply Hf|apply Hf|]. intros x a Hx Hon. split; [done|].
    unfold on in *. rewrite Hm, !lookup_insert_ne in Hon by (intros ->; done). done.
  - unfold counted in *. rewrite (fr_numthreads _ _ Hf). simpl. rewrite Hn, Hcl. unfold cl. rewrite Hc.
    destruct R; simpl; rewrite ?length_app; simpl; lia.
Qed.

(** *** Creating objects *)

(** [sems] with new semaphores of count zero or more. *)
Definition more_sems (k k' : kernel) : Prop :=
  exists m, sems k' = m ∪ sems k /\ m ##ₘ sems k /\ forall s c, m !! s = Some c -> 0 <= c.

Lemma more_sems_same k k' : sems k' = sems k -> more_sems k k'.
Proof.
  intros E. unfold more_sems. rewrite E. exists ∅. split_and!; [by rewrite map_empty_union|apply map_disjoint_empty_l|].
  intros s c. by rewrite lookup_empty.
Qed.

Lemma sinv_more k k' S : sinv k S -> more_sems k k' -> locks k' = locks k ->
  (forall t a, t ∈ S -> on k' a t = true -> on k a t = true) -> sinv k' S.
Proof.
  intros [] (m & E & Hd & Hm) El Hon. split; rewrite ?E, ?El.
  - intros t s Hin H Hw. apply lookup_union_Some_r; [done|]. apply (si_sem0 t); [done|by apply Hon|done].
  - intros t l Hin H Hw. apply (si_lock0 t); [done|by apply Hon|done].
  - intros s c [Hc|Hc]%lookup_union_Some; [by eapply Hm|by apply (si_count0 s)|done].
Qed.

Lemma sem_create_inv mem k nl n k' s : sem_create mem k nl n = Done (k', s) ->
  more_sems k k' /\ k' = set_sems k (sems k').
Proof.
  unfold sem_create. intros [Hn E]%assert_Done. apply Z.leb_le in Hn.
  destruct (negb (mem 8)); [injection E as <- <-; split; [by apply more_sems_same|by destruct k]|].
  destruct (negb (mem (nl + 1))); [injection E as <- <-; split; [by apply more_sems_same|by destruct k]|].
  set (x := fresh _) in E. assert (sems k !! x = None) as Hx.
  { apply not_elem_of_dom. pose proof (is_fresh ({[0]} ∪ dom (sems k))). set_solver. }
  injection E as <- _. split; [|done]. exists {[x := n]}. simpl. split_and!.
  - apply insert_union_singleton_l.
  - by apply map_disjoint_singleton_l.
  - intros s' c [_ <-]%lookup_singleton_Some. done.
Qed.

Lemma thread_create_inv mem name over n : forall k i k' r,
  thread_create_loop n mem k name over i = Done (k', r) ->
  match r with
  | None => k' = k
  | Some t => threads k !! t = None /\ more_sems k k' /\
      exists pid tab, k' = set_p_table (set_sems (set_threads k
        (<[t := mk_thread 0 None name None None None None pid]> (threads k))) (sems k')) tab
  end.
Proof.
  induction n as [|n IH]; intros k i k' r E; simpl in E; [by injection E as <- <-|].
  apply bind_Done in E as (slot & _ & E). destruct slot; [by apply (IH k (i + 1))|].
  destruct (negb (mem 20)); [by injection E as <- <-|].
  destruct (negb (mem 40)); [by injection E as <- <-|].
  destruct (negb (mem (Z.of_nat (String.length name) + 1))); [by injection E as <- <-|].
  set (x := fresh _) in E. assert (threads k !! x = None) as Hx.
  { apply not_elem_of_dom. pose proof (is_fresh ({[0]} ∪ dom (threads k))). set_solver. }
  apply bind_Done in E as (ppid & _ & E). apply bind_Done in E as ([k1 s] & Es & E).
  apply bind_Done in E as (tab & _ & E). injection E as <- <-.
  apply sem_create_inv in Es as [(m & Em & Hm) Ek1]. split; [done|]. split; [by exists m|].
  exists i, tab. simpl. by rewrite Ek1 at 1.
Qed.

(** The lists changed their storage only, or gained the new thread. *)
Lemma tinv_lists k k' R S D : tinv k R S D -> rep k' R S D -> threads k' = threads k ->
  curthread k' = curthread k -> curspl (cpu k') = curspl (cpu k) -> tinv k' R S D.
Proof.
  intros [] Hr E1 E2 E3. unfold cl in *.
  split; unfold cl; rewrite ?E1, ?E2, ?E3; done.
Qed.

Lemma ti_size k R S D : tinv k R S D -> size (threads k) = length (cl k ++ R ++ S ++ D).
Proof.
  intros Ht. rewrite <- size_dom, <- (size_list_to_set (C := gset Z)) by apply Ht.
  f_equal. apply set_eq. intros t. rewrite elem_of_dom, (ti_dom _ _ _ _ Ht). set_solver.
Qed.

Lemma tinv_spawn k k' R S D t th r : tinv k R S D -> rep k' (R ++ [t]) S D ->
  threads k !! t = None -> threads k' = <[t := th]> (threads k) ->
  curthread k' = curthread k -> curspl (cpu k') = curspl (cpu k) ->
  magic th -> pcb_resume th = Some r -> resume_ok r ->
  Z.of_nat (size (threads k)) + 1 < max_threads -> tinv k' (R ++ [t]) S D.
Proof.
  intros Ht Hr Hnew Em Ec Es Hmag Hres Hok Hmax. rewrite (ti_size _ _ _ _ Ht) in Hmax.
  assert (cl k' ++ (R ++ [t]) ++ S ++ D ≡ₚ t :: cl k ++ R ++ S ++ D) as Hp.
  { unfold cl. rewrite Ec, <- app_assoc. simpl. rewrite app_assoc, <- Permutation_middle.
    by rewrite <- app_assoc. }
  assert (t ∉ cl k ++ R ++ S ++ D) as Hout.
  { rewrite <- (ti_dom _ _ _ _ Ht), Hnew. by intros []. }
  assert (forall x thx, x ∈ cl k ++ R ++ S ++ D -> threads k' !! x = Some thx ->
    threads k !! x = Some thx) as Hold.
  { intros x thx Hx. rewrite Em, lookup_insert_ne; [done|]. by intros ->. }
  destruct Ht. split.
  - done.
  - rewrite Hp. by constructor.
  - intros x. rewrite Hp, Em, lookup_insert_is_Some', ti_dom0, elem_of_cons. naive_solver.
  - rewrite Hp. simpl. lia.
  - intros x thx. rewrite Em, lookup_insert. case_decide; [by intros [= <-]|apply ti_magic0].
  - intros x thx Hx Hthx. apply (ti_clean0 x); [done|]. apply Hold; [set_solver|done].
  - intros x thx [Hx|Hx%list_elem_of_singleton]%elem_of_app Hthx.
    + apply (ti_ready0 x); [done|]. apply Hold; [set_solver|done].
    + subst x. rewrite Em, lookup_insert_eq in Hthx. injection Hthx as <-. by exists r.
  - intros x thx Hx Hthx. apply (ti_sleep0 x); [done|]. apply Hold; [set_solver|done].
  - intros x thx r' Hx Hthx. rewrite Ec in Hx. apply (ti_cur0 x); [done|].
    apply Hold; [unfold cl; rewrite Hx; set_solver|done].
  - by rewrite Es.
  - rewrite Es. intros Hp'. apply ti_off0. intros x thx Hx Hthx. apply (Hp' x); [by rewrite Ec|].
    rewrite Em, lookup_insert_ne; [done|]. intros ->. congruence.
Qed.

(** During [thread_fork]: the new thread [t] is in no list yet. *)
Record pending (k kn : kernel) (t : Z) (R S D : list Z) : Prop := {
  pd_rep : rep kn R S D;
  pd_new : threads k !! t = None;
  pd_threads : exists th, threads kn = <[t := th]> (threads k) /\ magic th /\
    pcb_resume th = Some RStart /\ t_sleepaddr th = None;
  pd_cur : curthread kn = curthread k;
  pd_spl : 0 < curspl (cpu kn);
  pd_locks : locks kn = locks k;
  pd_num : numthreads kn = numthreads k;
  pd_sems : more_sems k kn
}.

Lemma pending_rep k kn t R S D kn' : pending k kn t R S D -> rep kn' R S D ->
  threads kn' = threads kn -> curthread kn' = curthread kn -> cpu kn' = cpu kn ->
  locks kn' = locks kn -> numthreads kn' = numthreads kn -> sems kn' = sems kn ->
  pending k kn' t R S D.
Proof.
  intros [] Hr E1 E2 E3 E4 E5 E6.
  split; unfold more_sems in *; rewrite ?E1, ?E2, ?E3, ?E4, ?E5, ?E6; done.
Qed.

Lemma pending_sinv k kn t R S D : tinv k R S D -> sinv k S -> pending k kn t R S D -> sinv kn S.
Proof.
  intros Ht Hs Hp. apply (sinv_more k); [done|apply Hp..|]. intros x a Hx. unfold on.
  destruct (pd_threads _ _ _ _ _ _ Hp) as (th & -> & _).
  rewrite lookup_insert_ne; [done|]. intros <-.
  destruct (ti_known_S _ _ _ _ Ht t Hx). by rewrite (pd_new _ _ _ _ _ _ Hp) in *.
Qed.

(** The level the caller had is put back. *)
Lemma pending_fail k kn t R S D r k' r' : tinv k R S D -> sinv k S -> counted k R S ->
  pending k kn t R S D -> fork_fail kn (curspl (cpu k)) t r = Done (k', r') -> good k'.
Proof.
  intros Ht Hs Hn Hp E. pose proof (pending_sinv _ _ _ _ _ _ Ht Hs Hp) as Hsn.
  destruct Hp. destruct pd_threads0 as (th & Em & _).
  unfold fork_fail in E. apply bind_Done in E as (th' & _ & E). apply bind_Done in E as (k2 & E2 & E).
  injection E as <- _.
  assert (exists v, k2 = set_vrefs (k_splx kn (curspl (cpu k))) v) as [v ->].
  { destruct (t_cwd th') as [c|].
    - unfold vop_decref in E2. apply bind_Done in E2 as (n & _ & E2).
      apply assert_Done in E2 as [_ E2]. injection E2 as <-. eauto.
    - injection E2 as <-. by exists (vrefs kn). }
  assert (delete t (threads kn) = threads k) as Ed by (rewrite Em; by apply delete_insert_id).
  exists R, S, D. split; [|split].
  - eapply (tinv_lists k); try done. by destruct pd_rep0.
  - eapply (sinv_mono kn); try done. intros x a Hx Hon. split; [done|]. revert Hon. unfold on. simpl.
    rewrite Ed, Em. rewrite lookup_insert_ne; [done|]. intros <-.
    destruct (ti_known_S _ _ _ _ Ht t Hx). congruence.
  - unfold counted, cl in *. simpl. congruence.
Qed.

(** The new thread joins the run queue. *)
Lemma pending_done k kn t R S D q nt : tinv k R S D -> sinv k S -> counted k R S ->
  pending k kn t R S D -> Z.of_nat (size (threads k)) + 1 < max_threads ->
  rep (set_runqueue kn q) (R ++ [t]) S D -> nt = numthreads kn + 1 ->
  good (k_splx (set_numthreads (set_runqueue kn q) nt) (curspl (cpu k))).
Proof.
  intros Ht Hs Hn Hp Hmax Hr ->. pose proof (pending_sinv _ _ _ _ _ _ Ht Hs Hp) as Hsn.
  destruct Hp. destruct pd_threads0 as (th & Em & Hmag & Hres & _).
  exists (R ++ [t]), S, D. split; [|split].
  - eapply (tinv_spawn k); try done. by destruct Hr.
  - by eapply (sinv_mono kn).
  - unfold counted, cl in *. simpl. rewrite pd_num0, pd_cur0, Hn, !length_app. simpl. lia.
Qed.

(** The rest of [thread_fork] from the preallocation on. *)
Definition fork_tail (mem : Z -> bool) (k : kernel) (s t nt : Z) : exec (kernel * ret Z) :=
  '(sl, r) ← Array.array_preallocate mem (sleepers k) nt;
  let k5 := set_sleepers k sl in
  if negb (is_ok r) then fork_fail k5 s t r
  else
    '(zo, r) ← Array.array_preallocate mem (zombies k5) nt;
    let k6 := set_zombies k5 zo in
    if negb (is_ok r) then fork_fail k6 s t r
    else
      '(k7, r) ← scheduler_preallocate mem k6 nt;
      if negb (is_ok r) then fork_fail k7 s t r
      else
        '(k8, r) ← make_runnable mem k7 t;
        if negb (is_ok r) then fork_fail k8 s t r
        else Done (k_splx (set_numthreads k8 nt) s, Ok t).

Lemma fork_tail_good mem k kn t R S D k' r : tinv k R S D -> sinv k S -> counted k R S ->
  pending k kn t R S D -> Z.of_nat (size (threads k)) + 1 < max_threads ->
  numthreads kn + 1 <= max_threads ->
  fork_tail mem kn (curspl (cpu k)) t (numthreads kn + 1) = Done (k', r) -> good k'.
Proof.
  intros Ht Hs Hn Hp Hmax Hnum E. unfold fork_tail in E. set (nt := numthreads kn + 1) in E.
  pose proof (pd_rep _ _ _ _ _ _ Hp) as Hr. unfold max_threads in Hnum.
  destruct (Array.array_preallocate_spec mem (sleepers kn) nt) as (sl & r1 & E1 & W1 & C1 & _);
    [apply Hr|unfold Array.array_limit; lia|]. rewrite E1 in E. cbn [mbind exec_bind] in E.
  assert (pending k (set_sleepers kn sl) t R S D) as Hp1.
  { eapply pending_rep; try done. destruct Hr. split; try done. simpl. congruence. }
  destruct (negb (is_ok r1)); [by eapply pending_fail|].
  destruct (Array.array_preallocate_spec mem (zombies kn) nt) as (zo & r2 & E2 & W2 & C2 & _);
    [apply Hr|unfold Array.array_limit; lia|]. simpl in E. rewrite E2 in E. cbn [mbind exec_bind] in E.
  assert (pending k (set_zombies (set_sleepers kn sl) zo) t R S D) as Hp2.
  { pose proof (pd_rep _ _ _ _ _ _ Hp1) as Hr1. eapply pending_rep; [exact Hp1|..]; try done.
    destruct Hr1. split; try done. simpl in *. congruence. }
  destruct (negb (is_ok r2)); [by eapply pending_fail|].
  set (k6 := set_zombies _ _) in *. clear Hr. pose proof (pd_rep _ _ _ _ _ _ Hp2) as Hr.
  unfold scheduler_preallocate in E.
  destruct (Queue.q_preallocate_spec mem (runqueue k6) nt) as (q & r3 & E3 & W3 & C3 & S3);
    [apply Hr|unfold Queue.q_limit; lia|].
  apply bind_Done in E as ([k7 r3'] & E7 & E). apply assert_Done in E7 as [_ E7].
  rewrite E3 in E7. cbn [mbind exec_bind] in E7. injection E7 as <- <-.
  assert (pending k (set_runqueue k6 q) t R S D) as Hp3.
  { eapply pending_rep; [exact Hp2|..]; try done. destruct Hr. split; try done; simpl; [congruence|].
    destruct r3; [lia|]. destruct S3 as [_ ->]. done. }
  destruct (negb (is_ok r3)); [by eapply pending_fail|].
  assert (Z.of_nat (length R) < max_threads) as HR.
  { destruct (ti_lengths _ _ _ _ Ht). lia. }
  destruct (make_runnable_spec mem (set_runqueue k6 q) t R S D (pd_rep _ _ _ _ _ _ Hp3)
    (pd_spl _ _ _ _ _ _ Hp3) HR) as [(q' & E8 & Hr8 & _)|[E8 _]]; rewrite E8 in E;
    cbn [mbind exec_bind is_ok negb] in E.
  - injection E as <- _. by apply (pending_done k (set_runqueue k6 q) t R S D).
  - by eapply pending_fail.
Qed.

Lemma thread_fork_good mem k name over t k' r : good k -> running k t ->
  Z.of_nat (size (threads k)) + 1 < max_threads ->
  thread_fork mem k name over = Done (k', r) -> good k'.
Proof.
  intros (R & S & D & Ht & Hs & Hn) (Hc & th & Hth & Hres) Hmax E. unfold thread_fork in E.
  apply bind_Done in E as ([k1 [n|]] & E1 & E); apply thread_create_inv in E1; cycle 1.
  { injection E as <- _. subst k1. by exists R, S, D. }
  destruct E1 as (Hnew & Hms & pid & tab & Ek1).
  assert (n <> t) as Hnt by congruence.
  destruct (negb (mem STACK_SIZE)).
  { injection E as <- _. rewrite Ek1. exists R, S, D. simpl.
    assert (delete n (<[n:=mk_thread 0 None name None None None None pid]> (threads k)) = threads k)
      as Ed by (by apply delete_insert_id).
    split; [|split; [|done]].
    - eapply (tinv_lists k); try done. by destruct Ht as [[]].
    - eapply (sinv_more k); try done. intros x a Hx. unfold on. simpl. by rewrite Ed. }
  apply bind_Done in E as (c & Hcu & E). apply bind_Done in E as (thc & _ & E).
  apply bind_Done in E as (k2 & E2 & E). apply bind_Done in E as (k3 & E3 & E).
  assert (exists v, k2 = set_vrefs k1 v) as [v ->].
  { destruct (t_cwd thc) as [w|].
    - unfold vop_incref in E2. apply bind_Done in E2 as (m & _ & E2).
      apply bind_Done in E2 as (m' & _ & E2). injection E2 as <-. eauto.
    - injection E2 as <-. exists (vrefs k1). by destruct k1. }
  unfold upd_thread, deref in E3. apply bind_Done in E3 as (thn & Hthn & E3). simpl in E3.
  injection E3 as <-. unfold k_splhigh, splhigh in E. cbn [splx fst snd] in E.
  set (k4 := set_cpu _ _) in E. simpl in E.
  assert (curspl (cpu k1) = curspl (cpu k)) as Espl by (by rewrite Ek1).
  rewrite Espl in E.
  assert (pending k k4 n R S D) as Hp.
  { unfold k4. split; simpl; try done; try (by rewrite Ek1).
    - rewrite Ek1. by destruct Ht as [[]].
    - rewrite Ek1. simpl. rewrite insert_insert_eq. simpl in Hthn. rewrite Ek1 in Hthn. simpl in Hthn.
      rewrite lookup_insert_eq in Hthn. injection Hthn as <-. eexists. split; [done|].
      split; [by right|done]. }
  clear Hcu Hthn Ek1 Espl.
  apply bind_Done in E as (nt & Hi & E). apply int_inv in Hi as [-> _].
  assert (numthreads k4 + 1 <= max_threads) as Hnum.
  { rewrite (pd_num _ _ _ _ _ _ Hp), Hn. pose proof (ti_bound _ _ _ _ Ht) as Hb.
    rewrite !length_app in *. lia. }
  by apply (fork_tail_good mem k k4 n R S D k' r).
Qed.

(** *** Destroying semaphores and locks *)

(** The step from [k] to [k'] freed nothing in use: no semaphore that a thread slept
    on and no lock that a thread held, other than those in [W]. *)
Definition spares (k k' : kernel) : Prop :=
  (forall s t, is_Some (sems k !! s) -> sems k' !! s = None -> Some t ∈ Array.contents (sleepers k) ->
     on k (WSem s) t = true -> W (WSem s)) /\
  (forall l h, locks k !! l = Some (Some h) -> locks k' !! l = None -> W (WLock l)).

Lemma sem_test_good k s t k' : good k -> running k t -> sem_destroy_test k s = Done k' -> good k'.
Proof.
  intros Hg Hrun E. destruct (good_enter k t Hg Hrun) as (R & S & D & Hcr & Hrun1 & Hs & Hspl).
  unfold sem_destroy_test in E. apply assert_Done in E as [_ E].
  destruct (k_splhigh k) as [k1 spl]. cbn [fst snd] in *.
  apply bind_Done in E as (n & _ & E). apply assert_Done in E as [_ E]. injection E as <-.
  by eapply crit_leave.
Qed.

Lemma sem_free_good k s k' : good k -> sem_free k s = Done k' -> spares k k' -> good k'.
Proof.
  intros (R & S & D & Ht & Hs & Hn) E [Hsp _]. unfold sem_free in E.
  apply bind_Done in E as (c & Hc & E). injection E as <-. exists R, S, D.
  assert (sems k !! s = Some c) as Es by (unfold deref in Hc; destruct (sems k !! s); [by injection Hc as ->|done]).
  split; [by eapply tinv_same|]. split; [|done]. destruct Hs. split; simpl; try done.
  - intros x s' Hx Hon Hw. rewrite lookup_delete_ne; [by apply (si_sem0 x)|]. intros <-.
    apply Hw, (Hsp s x); [by eexists|by apply lookup_delete_eq| |done].
    rewrite (rp_sl _ _ _ _ (ti_rep _ _ _ _ Ht)). by apply list_elem_of_fmap_2.
  - intros s' c' [_ Hc']%lookup_delete_Some. by apply (si_count0 s').
Qed.

Lemma lock_destroy_good k l k' : good k -> lock_destroy k l = Done k' -> spares k k' -> good k'.
Proof.
  intros (R & S & D & Ht & Hs & Hn) E [_ Hsp]. unfold lock_destroy in E. apply assert_Done in E as [_ E].
  apply bind_Done in E as (h & _ & E). injection E as <-. exists R, S, D.
  split; [by eapply tinv_same|]. split; [|done]. destruct Hs. split; simpl; try done.
  intros x l' Hx Hon Hw. destruct (si_lock0 x l' Hx Hon Hw) as [h' Hh'].
  rewrite lookup_delete_ne; [by exists h'|]. intros <-. apply Hw, (Hsp l h'); [done|]. by apply lookup_delete_eq.
Qed.

Lemma sem_create_good mem k nl n k' s : good k -> sem_create mem k nl n = Done (k', s) -> good k'.
Proof.
  intros (R & S & D & Ht & Hs & Hn) [Hm E]%sem_create_inv. exists R, S, D.
  rewrite E. split; [by eapply tinv_same|]. split; [by eapply (sinv_more k)|done].
Qed.

Lemma lock_create_good mem k nl : good k -> good (fst (lock_create mem k nl)).
Proof.
  intros Hg. unfold lock_create. destruct (negb (mem 8)); [done|].
  destruct (negb (mem (nl + 1))); [done|]. set (x := fresh _).
  assert (locks k !! x = None) as Hx.
  { apply not_elem_of_dom. pose proof (is_fresh ({[0]} ∪ dom (locks k))). set_solver. }
  destruct Hg as (R & S & D & Ht & Hs & Hn). exists R, S, D. simpl.
  split; [by eapply tinv_same|]. split; [|done]. destruct Hs. split; simpl; try done.
  intros t l Hin Hon Hw. destruct (si_lock0 t l Hin Hon Hw) as [h Hh]. exists h.
  rewrite lookup_insert_ne; [done|]. intros <-. congruence.
Qed.

(** *** Continuing after a switch *)

Lemma crit_switched_in mem k R S D t k' : crit k R S D -> running k t -> sinv k S ->
  switched_in mem k = Done k' -> crit k' R S [] /\ running k' t /\ sinv k' S.
Proof.
  intros [Ht Hn Hspl] (Hc & th & Hth & Hres) Hs E.
  destruct (tinv_switched_in mem k R S D t k' Ht Hspl Hc E) as (Ht' & Hf & Hc' & Hm).
  destruct (ti_cur_not _ _ _ _ _ Ht Hc) as (_ & _ & HnD & _). split; [|split].
  - split; [done| |by rewrite (fr_cpu _ _ Hf)].
    unfold counted, cl in *. by rewrite (fr_numthreads _ _ Hf), Hc'.
  - split; [congruence|]. exists th. by rewrite Hm.
  - eapply (sinv_mono k); [done|apply Hf|apply Hf|]. intros x a Hx Hon. split; [done|].
    unfold on in *. rewrite Hm in Hon; [done|]. intros HxD.
    pose proof (ti_nodup _ _ _ _ Ht) as Hnd.
    apply list.NoDup_app in Hnd as (_ & _ & (_ & _ & (_ & Hdis & _)%list.NoDup_app)%list.NoDup_app).
    by apply (Hdis x).
Qed.

Lemma crit_woken mem k R S D t k' : crit k R S D -> running k t -> sinv k S ->
  woken mem k = Done k' -> crit k' R S [] /\ running k' t /\ sinv k' S.
Proof.
  intros Hcr Hrun Hs E. unfold woken in E. apply bind_Done in E as (k1 & E1 & E).
  destruct (crit_switched_in mem k R S D t k1 Hcr Hrun Hs E1) as ([Ht1 Hn1 Hspl1] & (Hc & th & Hth & Hres) & Hs1).
  unfold cur, upd_thread, deref in E. rewrite Hc in E. cbn [mbind exec_bind] in E.
  rewrite Hth in E. cbn [mbind exec_bind] in E. injection E as <-.
  destruct (ti_cur_not _ _ _ _ _ Ht1 Hc) as (_ & HnS & _ & _). split; [|split].
  - split; try done. apply (tinv_upd_cur k1 R S [] t th); try done.
    + by apply (ti_magic _ _ _ _ Ht1 t th).
    + simpl. congruence.
  - split; [done|]. eexists. simpl. by rewrite lookup_insert_eq.
  - eapply (sinv_mono k1); try done. intros x a Hx Hon. split; [done|].
    unfold on in *. simpl in Hon. rewrite lookup_insert_ne in Hon; [done|]. by intros ->.
Qed.

(** Changing the processor's level and [in_interrupt] together. *)
Lemma good_level k R S D old c : crit k R S D -> sinv k S -> 0 <= curspl c ->
  ((forall t th, curthread k = Some t -> threads k !! t = Some th -> pcb_resume th <> None) ->
   0 < curspl c) ->
  good (set_cpu (set_ininterrupt k old) c).
Proof.
  intros [Ht Hn Hspl] Hs H0 Hoff. exists R, S, D.
  split; [|split; [|done]]; [|destruct Hs; by split].
  destruct Ht. split; try done. by destruct ti_rep0.
Qed.

Lemma resume_good mem k t th r k' : good k -> curthread k = Some t -> threads k !! t = Some th ->
  pcb_resume th = Some r -> run_resume mem k = Done k' -> good k'.
Proof.
  intros (R & S & D & Ht & Hs & Hn) Hc Hth Hr E. unfold run_resume, cur, upd_thread, deref in E.
  rewrite Hc in E. cbn [mbind exec_bind] in E. rewrite Hth in E. cbn [mbind exec_bind] in E.
  rewrite Hr in E. cbn [mbind exec_bind] in E.
  pose proof (ti_cur _ _ _ _ Ht t th r Hc Hth Hr) as Hok.
  assert (0 < curspl (cpu k)) as Hspl.
  { apply (ti_off _ _ _ _ Ht). intros t' th' Hc' Hth'. congruence. }
  set (k0 := set_threads _ _) in E. destruct (ti_cur_not _ _ _ _ _ Ht Hc) as (_ & HnS & _ & _).
  assert (crit k0 R S D) as Hcr.
  { split; try done. apply (tinv_upd_cur k R S D t th); try done.
    by apply (ti_magic _ _ _ _ Ht t th). }
  assert (running k0 t) as Hrun.
  { split; [done|]. eexists. simpl. by rewrite lookup_insert_eq. }
  assert (sinv k0 S) as Hs0.
  { eapply (sinv_mono k); try done. intros x a Hx Hon. split; [done|].
    unfold on in *. simpl in Hon. rewrite lookup_insert_ne in Hon; [done|]. by intros ->. }
  destruct r; simpl in Hok; try done; apply bind_Done in E as (k1 & E1 & E).
  - injection E as <-. unfold activate in E1. apply bind_Done in E1 as (t' & _ & E1).
    apply bind_Done in E1 as (th' & _ & E1).
    assert (exists l, k1 = set_tlb k0 l) as [l ->].
    { destruct (t_vmspace th').
      - apply bind_Done in E1 as (l & _ & E1). injection E1 as <-. eauto.
      - injection E1 as <-. by exists (tlb k). }
    eapply (crit_leave _ R S D t); [by eapply crit_same|done| |done]. destruct Hs0. by split.
  - injection E as <-. destruct (crit_switched_in mem k0 R S D t k1 Hcr Hrun Hs0 E1) as (? & ? & ?).
    by eapply crit_leave.
  - injection E as <-. destruct (crit_switched_in mem k0 R S D t k1 Hcr Hrun Hs0 E1) as (? & Hrun1 & ?).
    destruct Hok as [Hok1 Hok2].
    eapply (good_level k1 R S []); try done. intros Hp. exfalso.
    destruct Hrun1 as (Hc1 & th1 & Hth1 & Hr1). by apply (Hp t th1).
  - destruct (crit_woken mem k0 R S D t k1 Hcr Hrun Hs0 E1) as (? & ? & ?). by eapply P_loop_good.
  - destruct (crit_woken mem k0 R S D t k1 Hcr Hrun Hs0 E1) as (? & ? & ?).
    destruct Hok. by eapply acquire_loop_good.
  - destruct (crit_woken mem k0 R S D t k1 Hcr Hrun Hs0 E1) as (Hcr1 & Hrun1 & Hs1).
    unfold cv_woken in E. apply bind_Done in E as (k2 & E2 & E).
    destruct (crit_wakeup_sinv mem k1 _ R S [] k2 Hcr1 Hs1 E2) as (R' & S' & [? ? ?] & Hs2 & Hon).
    apply (lock_acquire_good mem k2 l (Some spl) t R' S' []); try done. by eapply goes_on_running.
  - destruct (crit_woken mem k0 R S D t k1 Hcr Hrun Hs0 E1) as (? & ? & ?). by eapply clock_loop_good.
Qed.

(** *** The idle loop and interrupts *)

Lemma dispatch_good k k' : good k -> curthread k = None -> dispatch k = Done k' -> good k'.
Proof.
  intros (R & S & D & Ht & Hs & Hn) Hc E.
  assert (0 < curspl (cpu k)) as Hspl by (apply (ti_off _ _ _ _ Ht); congruence).
  destruct (dispatch_spec k R S D (ti_rep _ _ _ _ Ht) Hspl (ti_known_R _ _ _ _ Ht))
    as (k2 & E2 & Hf & Hm & _ & Hr & Hcase). rewrite E in E2. injection E2 as <-.
  destruct R as [|t R]; [subst k'; by exists [], S, D|]. destruct Hcase as [Hc' _].
  assert (cl k' ++ R = cl k ++ t :: R) as Hcl by (unfold cl; by rewrite Hc, Hc').
  exists R, S, D. split; [|split].
  - destruct Ht. split; rewrite ?Hm, ?(fr_cpu _ _ Hf); try done.
    + by rewrite app_assoc, Hcl, <- app_assoc.
    + by rewrite app_assoc, Hcl, <- app_assoc.
    + by rewrite app_assoc, Hcl, <- app_assoc.
    + intros x th Hx. apply ti_ready0. by right.
    + intros x th r Hx Hth Hr'. rewrite Hc' in Hx. injection Hx as <-.
      destruct (ti_ready0 t th) as (r0 & ? & ?); [left|done|]. congruence.
  - eapply sinv_mono; [done|apply Hf|apply Hf|]. intros x a Hx Hon. split; [done|].
    unfold on in *. by rewrite Hm in Hon.
  - unfold counted in *. by rewrite (fr_numthreads _ _ Hf), Hn, (app_assoc (cl k')), Hcl, <- app_assoc.
Qed.

Lemma irq_good mem k i k' : good k -> (curthread k = None \/ exists t, running k t) ->
  mips_interrupt mem k i = Done k' -> good k'.
Proof.
  intros (R & S & D & Ht & Hs & Hn) Hwho E. unfold mips_interrupt in E.
  set (k1 := set_ininterrupt _ 1) in E.
  assert (crit k1 R S D) as Hcr.
  { split; try done. destruct Ht. split; try done. by destruct ti_rep0. }
  assert (sinv k1 S) as Hs1 by (destruct Hs; by split).
  pose proof (ti_spl _ _ _ _ Ht) as Hspl. pose proof (ti_off _ _ _ _ Ht) as Hoff.
  destruct i as [|s].
  - apply bind_Done in E as (k2 & E2 & E). unfold hardclock in E2.
    apply bind_Done in E2 as (n & _ & E2). apply bind_Done in E2 as (k3 & E3 & E2).
    assert (exists R' S', crit k3 R' S' D /\ sinv k3 S' /\ goes_on k1 k3) as (R' & S' & Hcr3 & Hs3 & Hon).
    { destruct (n >=? HZ).
      - eapply (crit_wakeup_sinv mem (set_lbolt k1 0)); [by eapply crit_same| |exact E3].
        destruct Hs1. by split.
      - injection E3 as <-. exists R, S. split; [by eapply crit_same|]. split; [|done].
        destruct Hs1. by split. }
    destruct Hon as (Hc3 & Hm3 & Hcpu3). unfold thread_yield_to in E2.
    destruct (crit_enter k3 R' S' D (cr_tinv _ _ _ _ Hcr3) (cr_counted _ _ _ _ Hcr3)) as [Hcr4 Hspl4].
    assert (sinv (fst (k_splhigh k3)) S') as Hs4 by (destruct Hs3; by split).
    destruct (k_splhigh k3) as [k4 spl] eqn:E4. cbn [fst snd] in *.
    injection E4 as <- <-. simpl in E2. rewrite Hc3 in E2. simpl in E2.
    destruct Hwho as [Hidle|[t [Hc (th & Hth & Hres)]]].
    + rewrite Hidle in E2, E. injection E as <-.
      apply bind_Done in E2 as (k5 & E5 & E2). injection E2 as <-.
      assert (k5 = set_cpu k3 (fst (splx (cpu k3) SPL_HIGH))) as ->.
      { unfold mi_switch, stack_ok in E5. apply assert_Done in E5 as [_ E5]. simpl in E5.
        rewrite Hc3 in E5. simpl in E5. rewrite Hidle in E5. simpl in E5. by injection E5 as <-. }
      eapply (good_level k3 R' S' D); try done. rewrite Hc3, Hm3. apply Hoff.
    + rewrite Hc in E2, E. injection E as <-.
      eapply (yield_good mem _ _ R' S' D t k2 Hcr4); [|done| |exact E2]; [|done].
      split; [simpl; by rewrite Hc3|]. exists th. simpl. by rewrite Hm3.
  - apply bind_Done in E as (k2 & E2 & E). injection E as <-.
    destruct (V_crit mem k1 s R S D k2 (cr_tinv _ _ _ _ Hcr) (cr_counted _ _ _ _ Hcr) Hs1 E2)
      as (k3 & R' & S' & -> & Hcr3 & Hs3 & (Hc3 & Hm3 & _)).
    eapply (good_level k3 R' S' D); try done. rewrite Hc3, Hm3. apply Hoff.
Qed.

Lemma op_good mem k t o k' : good k -> running k t -> Z.of_nat (size (threads k)) + 1 < max_threads ->
  exec_op mem k o = Done k' -> spares k k' -> good k'.
Proof.
  intros Hg Hrun Hmax E Hsp. pose proof Hg as (R & S & D & Ht & Hs & Hn). destruct o; simpl in E.
  - destruct (good_enter k t Hg Hrun) as (R1 & S1 & D1 & Hcr & Hrun1 & Hs1 & Hspl). unfold P in E.
    destruct (s =? 0); [done|]. apply assert_Done in E as [_ E].
    destruct (k_splhigh k) as [k1 spl]. by eapply P_loop_good.
  - by eapply V_good.
  - by apply (lock_acquire_good mem k l None t R S D).
  - by eapply lock_release_good.
  - by eapply cv_wait_good.
  - eapply signal_good; eauto.
  - eapply signal_good; eauto.
  - by eapply (thread_yield_good mem k RYield).
  - destruct (good_enter k t Hg Hrun) as (R1 & S1 & D1 & Hcr & Hrun1 & Hs1 & Hspl). unfold clocksleep in E.
    destruct (k_splhigh k) as [k1 spl]. by eapply clock_loop_good.
  - by eapply thread_exit_good.
  - apply bind_Done in E as ([k1 r] & E1 & E). injection E as <-. by eapply thread_fork_good.
  - apply bind_Done in E as ([k1 r] & E1 & E). injection E as <-. by eapply sem_create_good.
  - by eapply sem_test_good.
  - by eapply sem_free_good.
  - injection E as <-. by apply lock_create_good.
  - by eapply lock_destroy_good.
Qed.

End wild.

(** ** Lock ownership *)

(** What a step that destroys no lock may do to the owner of [l]: the running thread
    takes a free lock or gives up its own. *)
Definition owner_step (k k' : kernel) (l : Z) : Prop :=
  match locks k !! l, locks k' !! l with
  | Some (Some h), Some (Some h') => h' = h
  | Some (Some h), Some None => curthread k = Some h
  | Some None, Some (Some h') => curthread k = Some h'
  | Some None, Some None => True
  | None, o => o = None \/ o = Some None
  | Some _, None => False
  end.

Definition keeps_locks (k k' : kernel) : Prop := locks k' = locks k.
Definition keeps_who (k k' : kernel) : Prop := locks k' = locks k /\ curthread k' = curthread k.

Lemma owner_same k k' l : keeps_locks k k' -> owner_step k k' l.
Proof.
  unfold keeps_locks, owner_step. intros ->. destruct (locks k !! l) as [[h|]|]; auto.
Qed.

Lemma upd_thread_keeps k t f : post (upd_thread k t f) (keeps_who k).
Proof. unfold upd_thread. vc. done. Qed.
#[local] Hint Resolve upd_thread_keeps : post.

Lemma vop_decref_keeps k v : post (vop_decref k v) (keeps_who k).
Proof. unfold vop_decref. by vc. Qed.
Lemma vop_incref_keeps k v : post (vop_incref k v) (keeps_who k).
Proof. unfold vop_incref. by vc. Qed.
#[local] Hint Resolve vop_decref_keeps vop_incref_keeps : post.

Lemma make_runnable_keeps mem k t : post (make_runnable mem k t) (fun '(k', _) => keeps_who k k').
Proof. unfold make_runnable. by vc. Qed.
#[local] Hint Resolve make_runnable_keeps : post.

Lemma dispatch_keeps k : post (dispatch k) (keeps_locks k).
Proof.
  unfold dispatch, scheduler. apply post_bind.
  eapply (post_mono _ (fun '(k', _) => keeps_locks k k')); [by vc|]. intros [k1 next] H1. by vc.
Qed.

#[local] Hint Resolve dispatch_keeps : post.

Lemma keeps_trans k1 k2 k3 : keeps_locks k1 k2 -> keeps_locks k2 k3 -> keeps_locks k1 k3.
Proof. unfold keeps_locks. congruence. Qed.
Lemma who_trans k1 k2 k3 : keeps_who k1 k2 -> keeps_who k2 k3 -> keeps_who k1 k3.
Proof. unfold keeps_who. intros [] []. split; congruence. Qed.

Ltac keeps :=
  repeat match goal with
  | H : k_splhigh _ = (_, _) |- _ => injection H as <- <-
  | p : _ * _ |- _ => destruct p
  end; unfold keeps_locks, keeps_who in *; simpl in *; intuition congruence.

Lemma mi_switch_keeps mem k st r : post (mi_switch mem k st r) (keeps_locks k).
Proof. unfold mi_switch. vc; keeps. Qed.
#[local] Hint Resolve mi_switch_keeps : post.

Lemma thread_sleep_keeps mem k a r : post (thread_sleep mem k a r) (keeps_locks k).
Proof. unfold thread_sleep. vc. keeps. Qed.

Lemma wake_at_keeps mem k i t : post (wake_at mem k i t) (keeps_who k).
Proof. unfold wake_at. vc. keeps. Qed.
#[local] Hint Resolve thread_sleep_keeps wake_at_keeps : post.

Lemma wakeup_loop_keeps fuel mem a : forall k i, post (wakeup_loop fuel mem k a i) (keeps_who k).
Proof.
  induction fuel as [|f IH]; intros k i; cbn [wakeup_loop]; vc; keeps.
Qed.
#[local] Hint Resolve wakeup_loop_keeps : post.

Lemma thread_wakeup_keeps mem k a : post (thread_wakeup mem k a) (keeps_who k).
Proof. unfold thread_wakeup. by vc. Qed.

Lemma thread_wakeup_one_keeps mem k a : post (thread_wakeup_one mem k a) (keeps_who k).
Proof. unfold thread_wakeup_one. by vc. Qed.
#[local] Hint Resolve thread_wakeup_keeps thread_wakeup_one_keeps : post.

Lemma exorcise_keeps mem k : post (exorcise mem k) (keeps_who k).
Proof.
  unfold exorcise. apply post_assert. intros _. apply post_bind. eapply (post_mono _ (keeps_who k)).
  - apply post_for; [done|]. intros j s Hs. unfold thread_destroy. vc. keeps.
  - intros k1 H1. vc. keeps.
Qed.
#[local] Hint Resolve exorcise_keeps : post.

Lemma activate_keeps k : post (activate k) (keeps_who k).
Proof. unfold activate. by vc. Qed.
#[local] Hint Resolve activate_keeps : post.

Lemma switched_in_keeps mem k : post (switched_in mem k) (keeps_who k).
Proof. unfold switched_in. vc. keeps. Qed.
#[local] Hint Resolve switched_in_keeps : post.

Lemma woken_keeps mem k : post (woken mem k) (keeps_who k).
Proof. unfold woken. vc. keeps. Qed.
#[local] Hint Resolve woken_keeps : post.

Lemma thread_create_keeps mem k name over :
  post (thread_create mem k name over) (fun '(k', _) => keeps_who k k').
Proof.
  intros [k' r] E. apply thread_create_inv in E. destruct r; [|by subst].
  destruct E as (_ & _ & pid & tab & ->). done.
Qed.

Lemma fork_fail_keeps k s t r : post (fork_fail k s t r) (fun '(k', _) => keeps_locks k k').
Proof. unfold fork_fail. vc; keeps. Qed.

Lemma scheduler_preallocate_keeps mem k n :
  post (scheduler_preallocate mem k n) (fun '(k', _) => keeps_who k k').
Proof. unfold scheduler_preallocate. by vc. Qed.
#[local] Hint Resolve thread_create_keeps fork_fail_keeps scheduler_preallocate_keeps : post.

Lemma thread_fork_keeps mem k name over :
  post (thread_fork mem k name over) (fun '(k', _) => keeps_locks k k').
Proof. unfold thread_fork. vc; keeps. Qed.

Lemma thread_exit_keeps mem k : post (thread_exit mem k) (keeps_locks k).
Proof. unfold thread_exit. vc; keeps. Qed.
#[local] Hint Resolve thread_fork_keeps thread_exit_keeps : post.

(** The two places where an owner changes. *)
Lemma owner_set k k' l o o' l' : locks k !! l = Some o -> locks k' = <[l := o']> (locks k) ->
  match o, o' with
  | Some h, Some h' => h' = h
  | Some h, None | None, Some h => curthread k = Some h
  | None, None => True
  end -> owner_step k k' l'.
Proof.
  intros Eo E Hc. unfold owner_step. rewrite E. destruct (decide (l = l')) as [<-|].
  - rewrite Eo, lookup_insert_eq. by destruct o, o'.
  - rewrite lookup_insert_ne by done. destruct (locks k !! l') as [[]|]; auto.
Qed.

Lemma deref_inv {A} (m : gmap Z A) p x : deref m p = Done x -> m !! p = Some x.
Proof. unfold deref. destruct (m !! p); [|done]. by intros [= ->]. Qed.

Lemma acquire_loop_owner mem k l spl after l' :
  post (acquire_loop mem k l spl after) (fun k' => owner_step k k' l').
Proof.
  unfold acquire_loop. apply post_bind. intros h Hh%deref_inv. destruct h as [h|].
  - eapply post_mono; [apply thread_sleep_keeps|]. intros k'. apply owner_same.
  - apply post_Done. eapply (owner_set k _ l None (curthread k)); [done|by destruct after|].
    by destruct (curthread k).
Qed.

Lemma lock_acquire_owner mem k l after l' :
  post (lock_acquire mem k l after) (fun k' => owner_step k k' l').
Proof.
  unfold lock_acquire. apply post_assert. intros _. simpl.
  apply post_any. intros held. apply post_assert. intros _.
  eapply post_mono; [apply (acquire_loop_owner _ _ _ _ _ l')|]. done.
Qed.

(** A release frees a lock of the running thread and keeps the thread. *)
Lemma lock_release_owner mem k l :
  post (lock_release mem k l) (fun k' => curthread k' = curthread k /\
    locks k !! l = Some (curthread k) /\ locks k' = <[l := None]> (locks k)).
Proof.
  unfold lock_release. apply post_assert. intros _. simpl.
  apply post_bind. intros h Hh%deref_inv. apply post_assert. intros ->%bool_decide_eq_true.
  vc. simpl in *. match goal with H : keeps_who _ _ |- _ => destruct H as [E1 E2] end. done.
Qed.

Lemma release_owner k k1 k' l l' : curthread k1 = curthread k /\
    locks k !! l = Some (curthread k) /\ locks k1 = <[l := None]> (locks k) ->
  keeps_locks k1 k' -> owner_step k k' l'.
Proof.
  intros (Hc & Ho & E) Hk. eapply (owner_set k k' l (curthread k) None); [done|congruence|].
  by destruct (curthread k).
Qed.

Lemma owner_kept k m l : post m (keeps_locks k) -> post m (fun k' => owner_step k k' l).
Proof. intros H. eapply post_mono; [exact H|]. intros k'. apply owner_same. Qed.

Lemma op_owner mem k o l : (forall l', o <> OLockDestroy l') -> post (exec_op mem k o) (fun k' => owner_step k k' l).
Proof.
  intros Ho. destruct o; simpl.
  - apply owner_kept. unfold P, P_loop. vc; keeps.
  - apply owner_kept. unfold V. vc; keeps.
  - apply lock_acquire_owner.
  - eapply post_mono; [apply lock_release_owner|]. intros k' H. by apply (release_owner _ _ _ _ _ H).
  - unfold cv_wait. do 2 (apply post_assert; intros _). simpl. apply post_bind.
    eapply post_mono; [apply lock_release_owner|]. intros k2 H2. simpl in H2.
    eapply post_mono; [apply thread_sleep_keeps|]. intros k3 H3. by apply (release_owner _ _ _ _ _ H2).
  - apply owner_kept. unfold cv_signal. vc; keeps.
  - apply owner_kept. unfold cv_broadcast. vc; keeps.
  - apply owner_kept. unfold thread_yield, thread_yield_to. vc; keeps.
  - apply owner_kept. unfold clocksleep, clock_loop. vc; keeps.
  - apply owner_kept, thread_exit_keeps.
  - apply owner_kept. vc; keeps.
  - apply owner_kept. unfold sem_create. vc; keeps.
  - apply owner_kept. unfold sem_destroy_test. vc; keeps.
  - apply owner_kept. unfold sem_free. vc; keeps.
  - apply post_Done. unfold lock_create. destruct (negb (mem 8)); [by apply owner_same|].
    destruct (negb (mem (namelen + 1))); [by apply owner_same|]. set (x := fresh _).
    assert (locks k !! x = None) as Hx.
    { apply not_elem_of_dom. pose proof (is_fresh ({[0]} ∪ dom (locks k))). set_solver. }
    unfold owner_step. simpl. rewrite lookup_insert. case_decide as Hd.
    + rewrite <- Hd, Hx. by right.
    + destruct (locks k !! l) as [[]|]; auto.
  - by destruct (Ho l0).
Qed.

Lemma resume_owner mem k l : post (run_resume mem k) (fun k' => owner_step k k' l).
Proof.
  unfold run_resume. apply post_any. intros t. apply post_any. intros th.
  destruct (pcb_resume th) as [r|]; [|apply post_Halt]. apply post_bind.
  eapply post_mono; [apply upd_thread_keeps|]. intros k0 H0.
  destruct r; try (apply owner_kept; unfold P_loop, clock_loop; vc; keeps); apply post_bind;
    (eapply post_mono; [apply woken_keeps|]); intros k1 H1.
  - eapply post_mono; [apply (acquire_loop_owner _ _ _ _ _ l)|]. intros k'. unfold owner_step.
    by rewrite (proj1 H1), (proj2 H1), (proj1 H0), (proj2 H0).
  - unfold cv_woken. apply post_bind. eapply post_mono; [apply thread_wakeup_keeps|]. intros k2 H2.
    eapply post_mono; [apply (lock_acquire_owner _ _ _ _ l)|]. intros k'. unfold owner_step.
    by rewrite (proj1 H2), (proj2 H2), (proj1 H1), (proj2 H1), (proj1 H0), (proj2 H0).
Qed.

Lemma irq_owner mem k i l : post (mips_interrupt mem k i) (fun k' => owner_step k k' l).
Proof.
  apply owner_kept. unfold mips_interrupt, hardclock, V, thread_yield_to. vc; keeps.
Qed.

Definition owner_or_destroyed (k k' : kernel) (l : Z) : Prop :=
  match locks k !! l, locks k' !! l with
  | Some (Some h), Some (Some h') => h' = h
  | Some (Some h), Some None => curthread k = Some h
  | Some None, Some (Some h') => curthread k = Some h'
  | Some None, Some None => True
  | None, o => o = None \/ o = Some None
  | Some _, None => k' = set_locks k (delete l (locks k))
  end.

Lemma owner_step_weak k k' l : owner_step k k' l -> owner_or_destroyed k k' l.
Proof. unfold owner_step, owner_or_destroyed. destruct (locks k !! l) as [[]|], (locks k' !! l) as [[]|]; tauto. Qed.

Lemma lock_destroy_owner k l l' : post (lock_destroy k l) (fun k' => owner_or_destroyed k k' l').
Proof.
  unfold lock_destroy. apply post_assert. intros _. apply post_any. intros h. apply post_Done.
  unfold owner_or_destroyed. simpl. destruct (decide (l = l')) as [<-|Hne].
  - rewrite lookup_delete_eq. destruct (locks k !! l) as [[]|]; auto.
  - rewrite lookup_delete_ne by done. destruct (locks k !! l') as [[]|]; auto.
Qed.

Lemma step_owner k k' l : kstep k k' -> owner_or_destroyed k k' l.
Proof.
  intros [mem0 k0 t o k1 _ _ E|mem0 k0 t th r k1 _ _ _ E|k0 k1 _ E|mem0 k0 i k1 _ E].
  { destruct o as [| | | | | | | | | | | | | | |lk];
      try (apply owner_step_weak; by eapply (op_owner mem0 k0 _ l); [|exact E]).
    by apply (lock_destroy_owner k0 lk l). }
  all: apply owner_step_weak.
  - by apply (resume_owner mem0 k0 l).
  - by apply owner_same, (dispatch_keeps k0).
  - by apply (irq_owner mem0 k0 i l).
Qed.

Lemma step_good W k k' : good W k -> kstep k k' -> spares W k k' -> good W k'.
Proof.
  intros Hg Hst Hsp. destruct Hst; [by eapply op_good|by eapply resume_good|by eapply dispatch_good|].
  by eapply irq_good.
Qed.

Lemma steps_good W k k' : good W k -> rtc (fun a b => kstep a b /\ spares W a b) k k' -> good W k'.
Proof. intros Hg Hst. induction Hst as [|a b c [] _ IH]; [done|]. eauto using step_good. Qed.

(** *** The initial state *)

Lemma boot_good W mem mem' over q k0 lk : scheduler_bootstrap mem = Done q ->
  thread_bootstrap mem' q over = Done (k0, lk) -> good W k0.
Proof.
  intros Hq E. unfold scheduler_bootstrap in Hq.
  destruct (Queue.q_create mem 32) as [q'|] eqn:Eq; [|done]. injection Hq as ->.
  assert (q = Queue.mk_queue 32 0 0 (replicate 32 None)) as ->.
  { unfold Queue.q_create in Eq. destruct (mem 16); [|done]. simpl in Eq.
    destruct (mem _) in Eq; [|done]. by injection Eq as <-. }
  unfold thread_bootstrap in E.
  destruct (Array.array_create mem') as [a|] eqn:Ea; [|done].
  assert (a = Array.mk_array 0 0 None) as ->.
  { unfold Array.array_create in Ea. destruct (mem' 12); [|done]. by injection Ea as <-. }
  apply bind_Done in E as ([k1 [t|]] & E1 & E); [|done].
  apply thread_create_inv in E1. simpl in E1. destruct E1 as (Hnew & (m & Em & _ & Hm) & pid & tab & Ek).
  simpl in Em. rewrite map_union_empty in Em.
  injection E as E. replace k0 with (fst (k0, lk)) by done. rewrite <- E.
  apply lock_create_good. exists [], [], []. split; [|split].
  - rewrite Ek. split; simpl; try done.
    + repeat constructor. by intros Hx%elem_of_nil.
    + intros x. rewrite lookup_insert_is_Some', lookup_empty, list_elem_of_singleton. split.
      * intros [->|[]]; done.
      * intros ->. by left.
    + intros x th. rewrite insert_empty. intros [_ <-]%lookup_singleton_Some. by left.
    + intros x th Hx. by apply elem_of_nil in Hx.
    + intros x th Hx. by apply elem_of_nil in Hx.
    + intros x th Hx. by apply elem_of_nil in Hx.
    + intros x th r _. rewrite insert_empty. by intros [_ <-]%lookup_singleton_Some.
  - split.
    + intros x s Hx. by apply elem_of_nil in Hx.
    + intros x s Hx. by apply elem_of_nil in Hx.
    + simpl. rewrite Em. exact Hm.
  - done.
Qed.

(** Nothing is assumed of what is freed. *)
Lemma any_steps k k' : good (fun _ => True) k -> rtc kstep k k' -> good (fun _ => True) k'.
Proof.
  intros Hg Hst. apply (steps_good _ k); [done|]. eapply rtc_subrel; [|exact Hst]. intros a b Hab. by split.
Qed.

(** ** Theorems *)

(** C1. In every state the kernel reaches from boot, whatever calls threads
    make, whatever interrupts arrive and whenever memory runs out, every thread
    structure is in exactly one place: it is the current thread, or it is once
    in the run queue, among the sleepers or among the zombies; and [numthreads]
    counts the threads that are not zombies. *)
Theorem threads_in_one_place mem mem' over q k0 lk k : scheduler_bootstrap mem = Done q ->
  thread_bootstrap mem' q over = Done (k0, lk) -> rtc kstep k0 k ->
  exists R S D, Queue.contents (runqueue k) = Some <$> R /\
    Array.contents (sleepers k) = Some <$> S /\ Array.contents (zombies k) = Some <$> D /\
    NoDup (option_list (curthread k) ++ R ++ S ++ D) /\
    (forall t, is_Some (threads k !! t) <-> t ∈ option_list (curthread k) ++ R ++ S ++ D) /\
    numthreads k = Z.of_nat (length (option_list (curthread k) ++ R ++ S)).
Proof.
  intros Hq Hb Hst. destruct (any_steps k0 k (boot_good _ _ _ _ _ _ _ Hq Hb) Hst) as (R & S & D & Ht & _ & Hn).
  exists R, S, D. destruct Ht. destruct ti_rep0. done.
Qed.

(** A step that does not free a semaphore on which a thread sleeps, nor a lock that a
    thread holds ([synch.h]: "when the lock is destroyed, no thread should be holding
    it"). *)
Definition frees_unused (k k' : kernel) : Prop :=
  (forall s t, is_Some (sems k !! s) -> sems k' !! s = None -> Some t ∈ Array.contents (sleepers k) ->
     on k (WSem s) t = false) /\
  (forall l h, locks k !! l = Some (Some h) -> locks k' !! l <> None).

Lemma frees_unused_spares k k' : frees_unused k k' -> spares (fun _ => False) k k'.
Proof.
  intros [H1 H2]. split.
  - intros s t Hs Hn Hin Hon. specialize (H1 s t Hs Hn Hin). congruence.
  - intros l h Hl Hn. by apply (H2 l h).
Qed.

(** C2. No wakeup is lost: whatever calls threads make, whatever interrupts arrive and
    whenever memory runs out, as long as no semaphore is freed while a thread sleeps on
    it and no lock while a thread holds it, a thread that sleeps on a semaphore sleeps
    on one that exists and whose count is zero, and a thread that sleeps on a lock
    sleeps on one that exists and that somebody holds. *)
Theorem no_lost_wakeup mem mem' over q k0 lk k t th : scheduler_bootstrap mem = Done q ->
  thread_bootstrap mem' q over = Done (k0, lk) -> rtc (fun a b => kstep a b /\ frees_unused a b) k0 k ->
  Some t ∈ Array.contents (sleepers k) -> threads k !! t = Some th ->
  match t_sleepaddr th with
  | Some (WSem s) => sems k !! s = Some 0
  | Some (WLock l) => exists h, locks k !! l = Some (Some h)
  | Some _ => True
  | None => False
  end.
Proof.
  intros Hq Hb Hst Hin Hth.
  destruct (steps_good (fun _ => False) k0 k (boot_good _ _ _ _ _ _ _ Hq Hb)) as (R & S & D & Ht & Hs & _).
  { eapply rtc_subrel; [|exact Hst]. intros a b [? ?]. split; [done|]. by apply frees_unused_spares. }
  rewrite (rp_sl _ _ _ _ (ti_rep _ _ _ _ Ht)) in Hin.
  apply list_elem_of_fmap in Hin as (t' & [= <-] & Hin).
  destruct (ti_sleep _ _ _ _ Ht t th Hin Hth) as (a & r & Ha & _). rewrite Ha.
  assert (on k a t = true) as Hon by (unfold on; rewrite Hth; by apply bool_decide_eq_true).
  destruct a; try done; [by apply (si_sem _ _ _ Hs t); [| |tauto]|by apply (si_lock _ _ _ Hs t); [| |tauto]].
Qed.

(** C15. Mutual exclusion: in one step of the system the owner of a lock stays,
    or the running thread, which is the owner, gives the lock up, or the running
    thread takes a lock that is free; or the step destroys the lock and changes
    nothing else. *)
Theorem lock_owner_step k k' l : kstep k k' ->
  match locks k !! l, locks k' !! l with
  | Some (Some h), Some (Some h') => h' = h
  | Some (Some h), Some None => curthread k = Some h
  | Some None, Some (Some h') => curthread k = Some h'
  | Some None, Some None => True
  | None, o => o = None \/ o = Some None
  | Some _, None => k' = set_locks k (delete l (locks k))
  end.
Proof. apply step_owner. Qed.

(** [V] adds one to the count and moves exactly the threads asleep on the
    semaphore, in the order in which they went to sleep, to the tail of the run
    queue, provided the run queue has the cells for them; the other sleepers keep
    their order, and the interrupt level is as before. *)
Theorem V_wakes_sleepers mem k s c R S D : tinv k R S D -> s <> 0 -> sems k !! s = Some c ->
  0 <= c < INT_MAX -> room k (Z.of_nat (length (awake k (WSem s) S))) ->
  exists k', V mem k s = Done k' /\ sems k' = <[s := c + 1]> (sems k) /\
    Queue.contents (runqueue k') = Some <$> (R ++ awake k (WSem s) S) /\
    Array.contents (sleepers k') = Some <$> asleep k (WSem s) S /\
    threads k' = threads k /\ curthread k' = curthread k /\ curspl (cpu k') = curspl (cpu k).
Proof.
  intros Ht Hs0 Hc Hcr Hroom. unfold V. destruct (Z.eqb_spec s 0); [done|]. cbn [negb assert].
  unfold k_splhigh, splhigh, splx. cbn [fst snd]. set (k1 := set_cpu k _).
  unfold deref. simpl. rewrite Hc. run. rewrite int_Done by (unfold INT_MIN, INT_MAX in *; lia). run.
  case_bool. case_bool. run. set (k2 := set_sems k1 _).
  assert (rep k2 R S D) as Hr by (destruct Ht as [[]]; by split).
  destruct (thread_wakeup_spec mem k2 (WSem s) R S D Hr) as [(a & q & -> & Hr')|[_ Hn]]; try done.
  - by apply (ti_known_S _ _ _ _ Ht).
  - by apply (ti_lengths _ _ _ _ Ht).
  - run. eexists. split; [done|]. destruct Hr'. done.
Qed.

(** Going to sleep with a cell free in [sleepers]. *)
Lemma thread_sleep_spec mem k a r R S D t th : tinv k R S D -> 0 < curspl (cpu k) ->
  curthread k = Some t -> threads k !! t = Some th -> in_interrupt k = 0 ->
  Array.num (sleepers k) < Array.max (sleepers k) ->
  exists k', thread_sleep mem k a r = Done k' /\ frame k k' /\
    threads k' = <[t := thread_set_resume (Some r) 0 (thread_set_sleepaddr (Some a) th)]> (threads k) /\
    Array.contents (sleepers k') = Some <$> (S ++ [t]) /\
    Queue.contents (runqueue k') = Some <$> tail R /\ curthread k' = head R.
Proof.
  intros Ht Hspl Hc Hth Hi Hroom. unfold thread_sleep, cur, upd_thread, deref. rewrite Hi, Hc. run.
  rewrite Hth. run. set (k1 := set_threads k _).
  destruct (ti_lengths _ _ _ _ Ht) as [HRS HD].
  assert (rep k1 R S D) as Hr by (destruct Ht as [[]]; by split).
  assert (threads k1 !! t = Some (thread_set_sleepaddr (Some a) th)) as Hth1.
  { simpl. by rewrite lookup_insert_eq. }
  assert (known k1 R) as Hk.
  { intros x Hx. simpl. rewrite lookup_insert_is_Some'. right. by apply (ti_known_R _ _ _ _ Ht). }
  pose proof (mi_switch_spec mem k1 S_SLEEP r t _ R S D Hr Hspl Hc Hth1
    (ti_magic _ _ _ _ Ht t th Hth) Hk ltac:(lia) ltac:(lia) HD) as Hsw.
  simpl in Hsw. destruct Hsw as [(k' & E & Hf & Hm & _ & Hr' & Hcase)|[_ Hfull]]; [|lia].
  exists k'. split; [done|]. split; [etrans; [|done]; by split|]. destruct Hr'. split_and!; try done.
  - by rewrite Hm, insert_insert_eq, Hi.
  - by destruct R as [|n R]; destruct Hcase as [? _].
Qed.

(** [P] on a positive count takes one and goes on; on a zero count the
    calling thread goes to the end of the sleepers, asleep on the semaphore, and
    the head of the run queue gets the processor (or it idles).  When it is woken
    it looks at the count again. *)
Theorem P_takes_or_sleeps mem k s c R S D t th : tinv k R S D -> s <> 0 -> sems k !! s = Some c ->
  0 <= c -> in_interrupt k = 0 -> curthread k = Some t -> threads k !! t = Some th ->
  (c = 0 -> Array.num (sleepers k) < Array.max (sleepers k)) ->
  exists k', P mem k s = Done k' /\
    if decide (c = 0) then
      sems k' = sems k /\ curthread k' = head R /\
      Queue.contents (runqueue k') = Some <$> tail R /\
      Array.contents (sleepers k') = Some <$> (S ++ [t]) /\
      exists th', threads k' !! t = Some th' /\ t_sleepaddr th' = Some (WSem s) /\
        pcb_resume th' = Some (RP s (curspl (cpu k)))
    else
      sems k' = <[s := c - 1]> (sems k) /\ curthread k' = Some t /\ threads k' = threads k /\
      sleepers k' = sleepers k /\ runqueue k' = runqueue k /\ curspl (cpu k') = curspl (cpu k).
Proof.
  intros Ht Hs0 Hc Hc0 Hi Hcur Hth Hroom. unfold P. destruct (Z.eqb_spec s 0); [done|]. rewrite Hi. run.
  unfold k_splhigh, splhigh, splx. cbn [fst snd]. set (k1 := set_cpu k _).
  unfold P_loop, deref. simpl. rewrite Hc. run. case_decide as Hd.
  - subst c. simpl.
    assert (tinv k1 R S D) as Ht1 by (destruct Ht as [[] ? ? ? ? ? ? ? ? ? ?]; by split).
    destruct (thread_sleep_spec mem k1 (WSem s) (RP s (curspl (cpu k))) R S D t th Ht1)
      as (k' & -> & Hf & Hm & Hsl & Hrq & Hc'); try done; [by apply Hroom|].
    exists k'. split; [done|]. split_and!; try done; [apply Hf|]. rewrite Hm, lookup_insert_eq. eauto.
  - destruct (Z.eqb_spec c 0); [done|]. run. repeat case_bool. run. eexists. split; [done|]. done.
Qed.

(** Once [sleepers] has a cell for every thread, as [thread_fork] arranges
    for all threads when it creates one, going to sleep cannot fail, however
    little memory is left. *)
Theorem sleep_never_fails mem k t a r R S D : tinv k R S D -> counted k R S -> running k t ->
  0 < curspl (cpu k) -> in_interrupt k = 0 -> numthreads k <= Array.max (sleepers k) ->
  exists k', thread_sleep mem k a r = Done k'.
Proof.
  intros Ht Hn (Hc & th & Hth & _) Hspl Hi Hmax.
  destruct (thread_sleep_spec mem k a r R S D t th Ht Hspl Hc Hth Hi) as (k' & E & _); [|by exists k'].
  rewrite (rep_num_sl _ _ _ _ (ti_rep _ _ _ _ Ht)). unfold counted, cl in Hn. rewrite Hc in Hn.
  simpl in Hn. rewrite length_app in Hn. lia.
Qed.

(** [cv_signal] looks at the first sleeper only: with nobody asleep it stops
    the kernel, and when the first sleeper waits for something else it wakes
    nobody, even if other threads sleep on the condition variable. *)
Theorem cv_signal_first_only mem k c l t R S D : tinv k R S D -> c <> 0 -> l <> 0 ->
  curthread k = Some t -> locks k !! l = Some (Some t) ->
  match S with
  | [] => cv_signal mem k c l = Halt Assertion
  | u :: _ => on k (WCv c) u = false ->
      cv_signal mem k c l = Done (k_splx (fst (k_splhigh k)) (curspl (cpu k)))
  end.
Proof.
  intros Ht Hc0 Hl0 Hc Hl. unfold cv_signal. destruct (Z.eqb_spec l 0), (Z.eqb_spec c 0); try done.
  unfold k_splhigh, splhigh, splx. cbn [fst snd negb assert]. set (k1 := set_cpu k _).
  assert (lock_do_i_hold k1 l = Done true) as ->.
  { unfold lock_do_i_hold, deref. destruct (Z.eqb_spec l 0); [done|]. simpl. rewrite Hl, Hc. simpl.
    by rewrite bool_decide_eq_true_2. }
  run. unfold thread_wakeup_one. simpl.
  assert (rep k1 R S D) as Hr by (destruct Ht as [[]]; by split).
  destruct S as [|u S].
  - unfold sleeper, Array.array_getguy. rewrite (rep_num_sl _ _ _ _ Hr).
    pose proof (rp_sl_wf _ _ _ _ Hr) as ([? ?] & _). simpl. repeat (case_bool; simpl); done.
  - intros Hon. destruct (sleeper_spec k1 0 u _ _ _ Hr (ti_known_S _ _ _ _ Ht) eq_refl) as (th & Hth & E).
    change (Z.of_nat 0) with 0 in E. rewrite E. run. unfold on in Hon. simpl in Hth. rewrite Hth in Hon.
    by rewrite Hon.
Qed.

(** Successive [thread_fork]s with memory at hand. *)
Fixpoint forks (n : nat) (k : kernel) : exec kernel :=
  match n with
  | O => Done k
  | Datatypes.S n' => '(k', _) ← thread_fork (fun _ => true) k "t" 1; forks n' k'
  end.

(** The run queue is reserved one cell short: with 32 threads, 31 of them
    in the run queue of 32 cells that [thread_fork] found large enough, the
    running thread's [thread_yield] needs memory, and without it stops the
    kernel. *)
Theorem yield_needs_memory :
  match (q ← scheduler_bootstrap (fun _ => true);
         '(k0, _) ← thread_bootstrap (fun _ => true) q 1; forks 31 k0) with
  | Done k => numthreads k = 32 /\ Queue.size (runqueue k) = 32 /\
      thread_yield (fun _ => false) k = Halt Assertion
  | Halt _ => False
  end.
Proof. vm_compute. auto. Qed.

End ThreadInv.

(** ** Witnesses *)
Import Thread ThreadInv.

(** A system at boot with one more thread, and a semaphore and a lock. *)
Definition yes (_ : Z) : bool := true.
Definition ex_q : Queue.queue (P := Z) := Queue.mk_queue 32 0 0 (replicate 32 None).
Definition get (k : kernel) (m : exec kernel) : kernel := match m with Done k' => k' | Halt _ => k end.
Definition ex_empty : kernel :=
  mk_kernel (Spl.mk_cpu 0 true) 0 None ∅ (Array.mk_array 0 0 None) (Array.mk_array 0 0 None) ex_q 0 [] ∅ ∅ 0 [] ∅.
Definition ex_boot : kernel := get ex_empty ('(k, _) ← thread_bootstrap yes ex_q 1; Done k).
Definition ex_fork : kernel := get ex_empty (exec_op yes ex_boot (OFork "t" 1)).
(** The boot thread takes [process_lock], then sleeps on its semaphore. *)
Definition ex_acq : kernel := get ex_empty (exec_op yes ex_fork (OAcquire 1)).
Definition ex_sleep : kernel := get ex_empty (exec_op yes ex_acq (OP 1)).

Ltac ex_run := vm_compute; reflexivity.

Lemma ex_running : running ex_boot 1 /\ running ex_fork 1 /\ running ex_acq 1.
Proof. split_and!; (split; [ex_run|]; eexists; split; ex_run). Qed.

Lemma ex_steps_acq : rtc kstep ex_boot ex_acq.
Proof.
  destruct ex_running as (H1 & H2 & H3).
  apply (rtc_l _ _ ex_fork); [apply (KOp yes _ 1 (OFork "t" 1)); [done| |]; ex_run|].
  apply (rtc_l _ _ ex_acq); [apply (KOp yes _ 1 (OAcquire 1)); [done| |]; ex_run|]. constructor.
Qed.

Lemma ex_steps : rtc kstep ex_boot ex_sleep.
Proof.
  destruct ex_running as (_ & _ & H3). eapply rtc_r; [apply ex_steps_acq|].
  apply (KOp yes _ 1 (OP 1)); [done| |]; ex_run.
Qed.

Lemma frees_nothing k k' : bool_decide (dom (sems k) ⊆ dom (sems k')) && bool_decide (dom (locks k) ⊆ dom (locks k')) = true ->
  frees_unused k k'.
Proof.
  intros [H1%bool_decide_eq_true H2%bool_decide_eq_true]%andb_true_iff. split.
  - intros s t Hs%elem_of_dom Hn _. exfalso. by apply H1, elem_of_dom in Hs as [? ?]; rewrite Hn in *.
  - intros l h Hl Hn. assert (l ∈ dom (locks k)) as Hd by (by apply elem_of_dom; exists (Some h)).
    apply H2, elem_of_dom in Hd as [? ?]. congruence.
Qed.

Lemma ex_orderly : rtc (fun a b => kstep a b /\ frees_unused a b) ex_boot ex_sleep.
Proof.
  destruct ex_running as (H1 & H2 & H3).
  apply (rtc_l _ _ ex_fork); [split; [apply (KOp yes _ 1 (OFork "t" 1)); [done| |]; ex_run|apply frees_nothing; ex_run]|].
  apply (rtc_l _ _ ex_acq); [split; [apply (KOp yes _ 1 (OAcquire 1)); [done| |]; ex_run|apply frees_nothing; ex_run]|].
  apply rtc_once. split; [apply (KOp yes _ 1 (OP 1)); [done| |]; ex_run|apply frees_nothing; ex_run].
Qed.

Lemma ex_boot_ok : exists lk, scheduler_bootstrap yes = Done ex_q /\
  thread_bootstrap yes ex_q 1 = Done (ex_boot, lk).
Proof. eexists. split; ex_run. Qed.

Lemma threads_in_one_place_witness : exists R S D, Queue.contents (runqueue ex_sleep) = Some <$> R /\
  Array.contents (sleepers ex_sleep) = Some <$> S /\ Array.contents (zombies ex_sleep) = Some <$> D /\
  NoDup (option_list (curthread ex_sleep) ++ R ++ S ++ D) /\
  (forall t, is_Some (threads ex_sleep !! t) <-> t ∈ option_list (curthread ex_sleep) ++ R ++ S ++ D) /\
  numthreads ex_sleep = Z.of_nat (length (option_list (curthread ex_sleep) ++ R ++ S)).
Proof.
  destruct ex_boot_ok as (lk & Hq & Hb).
  exact (threads_in_one_place yes yes 1 ex_q ex_boot lk ex_sleep Hq Hb ex_steps).
Defined.

Lemma no_lost_wakeup_witness : exists th, threads ex_sleep !! 1 = Some th /\
  Some 1 ∈ Array.contents (sleepers ex_sleep) /\ t_sleepaddr th = Some (WSem 1) /\
  sems ex_sleep !! 1 = Some 0.
Proof.
  destruct ex_boot_ok as (lk & Hq & Hb).
  assert (exists th, threads ex_sleep !! 1 = Some th /\ t_sleepaddr th = Some (WSem 1)) as (th & Hth & Ha).
  { eexists. split; ex_run. }
  assert (Some 1 ∈ Array.contents (sleepers ex_sleep)) as Hin.
  { replace (Array.contents (sleepers ex_sleep)) with [Some 1] by ex_run. left. }
  exists th. split_and!; [exact Hth|exact Hin|exact Ha|].
  pose proof (no_lost_wakeup yes yes 1 ex_q ex_boot lk ex_sleep 1 th Hq Hb ex_orderly Hin Hth) as H.
  rewrite Ha in H. exact H.
Defined.

(** The condition of [no_lost_wakeup] is needed: the test of [sem_destroy] finds
    nobody asleep, the timer interrupts, another thread goes to sleep on the
    semaphore, and the first one frees it. *)
Definition race1 : kernel := get ex_empty (exec_op yes ex_fork (OSemTest 1)).
Definition race2 : kernel := get ex_empty (mips_interrupt yes race1 IrqTimer).
Definition race3 : kernel := get ex_empty (run_resume yes race2).
Definition race4 : kernel := get ex_empty (exec_op yes race3 (OP 1)).
Definition race5 : kernel := get ex_empty (run_resume yes race4).
Definition race6 : kernel := get ex_empty (exec_op yes race5 (OSemFree 1)).

Example sem_destroy_race : rtc kstep ex_boot race6 /\ Array.contents (sleepers race6) = [Some 2] /\
  on race6 (WSem 1) 2 = true /\ sems race6 !! 1 = None.
Proof.
  split; [|split_and!; ex_run]. destruct ex_running as (H1 & H2 & _).
  apply (rtc_l _ _ ex_fork); [apply (KOp yes _ 1 (OFork "t" 1)); [done| |]; ex_run|].
  apply (rtc_l _ _ race1); [apply (KOp yes _ 1 (OSemTest 1)); [done| |]; ex_run|].
  apply (rtc_l _ _ race2).
  { apply (KIrq yes _ IrqTimer); [|ex_run]. right. exists 1. split; [ex_run|]. eexists. split; ex_run. }
  apply (rtc_l _ _ race3); [eapply (KResume yes); ex_run|].
  apply (rtc_l _ _ race4).
  { apply (KOp yes _ 2 (OP 1)); [split; [ex_run|]; eexists; split; ex_run| |]; ex_run. }
  apply (rtc_l _ _ race5); [eapply (KResume yes); ex_run|].
  apply rtc_once. apply (KOp yes _ 1 (OSemFree 1)); [split; [ex_run|]; eexists; split; ex_run| |]; ex_run.
Qed.

Lemma lock_owner_step_witness : locks ex_fork !! 1 = Some None /\ locks ex_acq !! 1 = Some (Some 1) /\
  curthread ex_fork = Some 1.
Proof.
  destruct ex_running as (_ & H2 & _).
  assert (kstep ex_fork ex_acq) as Hst by (apply (KOp yes _ 1 (OAcquire 1)); [done| |]; ex_run).
  assert (locks ex_fork !! 1 = Some None) as E1 by ex_run.
  assert (locks ex_acq !! 1 = Some (Some 1)) as E2 by ex_run.
  split_and!; [exact E1|exact E2|].
  pose proof (lock_owner_step ex_fork ex_acq 1 Hst) as H. rewrite E1, E2 in H. exact H.
Defined.

(** The invariant at a reached state, with the lists it is about. *)
Lemma ex_tinv k : rtc kstep ex_boot k -> exists R S D, tinv k R S D /\ counted k R S /\
  Queue.contents (runqueue k) = Some <$> R /\ Array.contents (sleepers k) = Some <$> S.
Proof.
  intros Hst. destruct ex_boot_ok as (lk & Hq & Hb).
  destruct (any_steps ex_boot k (boot_good _ _ _ _ _ _ _ Hq Hb) Hst) as (R & S & D & Ht & _ & Hn).
  exists R, S, D. split_and!; [done|done|apply Ht|apply Ht].
Qed.

Lemma V_wakes_sleepers_witness : exists k', V (fun _ => false) ex_sleep 1 = Done k' /\
  sems k' = <[1 := 1]> (sems ex_sleep) /\ Array.contents (sleepers k') = [].
Proof.
  destruct (ex_tinv ex_sleep ex_steps) as (R & S & D & Ht & _ & HR & HS).
  assert (S = [1]) as -> by (apply (inj (fmap Some)); rewrite <- HS; ex_run).
  destruct (V_wakes_sleepers (fun _ => false) ex_sleep 1 0 R [1] D Ht) as (k' & E & Es & _ & Esl & _);
    [lia|ex_run|unfold INT_MAX; lia|ex_run|].
  exists k'. split_and!; [exact E|exact Es|]. rewrite Esl. ex_run.
Defined.

Lemma P_takes_or_sleeps_witness : exists k', P yes ex_acq 1 = Done k' /\ curthread k' = Some 2 /\
  sems k' = sems ex_acq.
Proof.
  destruct (ex_tinv ex_acq ex_steps_acq) as (R & S & D & Ht & _ & HR & HS).
  assert (R = [2]) as -> by (apply (inj (fmap Some)); rewrite <- HR; ex_run).
  destruct (ex_running) as (_ & _ & _ & th & Hth & _).
  destruct (P_takes_or_sleeps yes ex_acq 1 0 [2] S D 1 th Ht) as (k' & E & H);
    [lia|ex_run|lia|ex_run|ex_run|exact Hth|intros _; ex_run|].
  exists k'. destruct H as (H1 & H2 & _). split_and!; [exact E|exact H2|exact H1].
Defined.

Lemma sleep_never_fails_witness : exists k', thread_sleep (fun _ => false) ex_acq (WSem 1) (RP 1 0) = Done k'.
Proof.
  destruct (ex_tinv ex_acq ex_steps_acq) as (R & S & D & Ht & Hn & HR & HS).
  destruct (ex_running) as (_ & _ & Hrun).
  apply (sleep_never_fails (fun _ => false) ex_acq 1 (WSem 1) (RP 1 0) R S D Ht Hn Hrun); [ex_run|ex_run|].
  vm_compute. discriminate.
Defined.

Lemma cv_signal_first_only_witness : cv_signal yes ex_acq 7 1 = Halt Assertion.
Proof.
  destruct (ex_tinv ex_acq ex_steps_acq) as (R & S & D & Ht & Hn & HR & HS).
  assert (S = []) as -> by (apply (inj (fmap Some)); rewrite <- HS; ex_run).
  apply (cv_signal_first_only yes ex_acq 7 1 1 R [] D Ht); [lia|lia|ex_run|ex_run].
Defined.
