(* ===== verification/Uio.v ===== *)
(** * Moving data between kernel and user memory ([kern/lib/copyinout.c],
      [kern/userprog/uio.c])

    A byte of user memory is [Some b] where the current address space maps the
    address and [None] where an access ends in a fault that [vm_fault] cannot
    resolve; what the machine then does depends on [pcb_badfaultfunc].  Kernel
    buffers passed by pointer are lists of bytes with an offset; the region a
    [uio] describes is addressed in kernel or in user memory. *)

From Stdlib Require Import ZArith Lia Bool.
From stdpp Require Import base list numbers.
From S2P Require Import Prelude.

(** ** Bytes in lists and in memory *)

(** The [n] bytes of [b] from [off]; [b] with [l] written at [off]. *)
Definition sub (b : list Z) (off n : Z) : list Z := take (Z.to_nat n) (drop (Z.to_nat off) b).
Definition splice (b : list Z) (off : Z) (l : list Z) : list Z :=
  take (Z.to_nat off) b ++ l ++ drop (Z.to_nat off + length l) b.

(** Memory [f] with the cells from [a] holding [l]. *)
Definition fill {A} (f : Z -> A) (a : Z) (l : list A) (x : Z) : A :=
  if (a <=? x) && (x <? a + Z.of_nat (length l)) then
    match l !! Z.to_nat (x - a) with Some y => y | None => f x end
  else f x.

(** The cells from [a] on. *)
Definition bytes_at {A} (f : Z -> A) (a n : Z) : list A := (fun i => f (a + i)) <$> seqZ 0 n.

Lemma length_bytes_at {A} (f : Z -> A) a n : length (bytes_at f a n) = Z.to_nat n.
Proof. unfold bytes_at. by rewrite length_fmap, length_seqZ. Qed.

Lemma lookup_bytes_at {A} (f : Z -> A) a n i : (i < Z.to_nat n)%nat ->
  bytes_at f a n !! i = Some (f (a + Z.of_nat i)).
Proof.
  intros Hi. unfold bytes_at. rewrite list_lookup_fmap, lookup_seqZ_lt by lia. simpl. by rewrite Z.add_0_l.
Qed.

Lemma length_sub b off n : 0 <= off -> 0 <= n -> off + n <= Z.of_nat (length b) ->
  length (sub b off n) = Z.to_nat n.
Proof. intros. unfold sub. rewrite length_take, length_drop. lia. Qed.

Lemma lookup_sub b off n i : 0 <= off -> (i < Z.to_nat n)%nat ->
  sub b off n !! i = b !! (Z.to_nat off + i)%nat.
Proof. intros. unfold sub. rewrite lookup_take_lt by lia. by rewrite lookup_drop. Qed.

Lemma length_splice b off l : 0 <= off -> off + Z.of_nat (length l) <= Z.of_nat (length b) ->
  length (splice b off l) = length b.
Proof. intros. unfold splice. rewrite !length_app, length_take, length_drop. lia. Qed.

Lemma lookup_splice b off l i : 0 <= off -> off + Z.of_nat (length l) <= Z.of_nat (length b) ->
  splice b off l !! i =
  if decide (Z.to_nat off <= i < Z.to_nat off + length l)%nat then l !! (i - Z.to_nat off)%nat else b !! i.
Proof.
  intros. unfold splice. case_decide as Hd.
  - rewrite lookup_app_r, lookup_app_l; rewrite length_take; [f_equal; lia|lia|lia].
  - destruct (decide (i < Z.to_nat off)%nat).
    + rewrite lookup_app_l by (rewrite length_take; lia). by apply lookup_take_lt.
    + rewrite !lookup_app_r by (rewrite ?length_take; lia). rewrite lookup_drop. f_equal.
      rewrite length_take. lia.
Qed.

Lemma fill_in {A} (f : Z -> A) a l x y : 0 <= x - a -> l !! Z.to_nat (x - a) = Some y -> fill f a l x = y.
Proof.
  intros H0 Hy. apply lookup_lt_Some in Hy as Hlt. unfold fill. repeat case_bool. by rewrite Hy.
Qed.

Lemma fill_out {A} (f : Z -> A) a l x : x < a \/ a + Z.of_nat (length l) <= x -> fill f a l x = f x.
Proof. intros. unfold fill. repeat case_bool; done. Qed.

Lemma bytes_at_fill {A} (f : Z -> A) a l n : n = Z.of_nat (length l) -> bytes_at (fill f a l) a n = l.
Proof.
  intros ->. apply list_eq. intros i. destruct (decide (i < length l)%nat) as [Hi|Hi].
  - rewrite lookup_bytes_at by lia. destruct (lookup_lt_is_Some_2 l i Hi) as [y Hy]. rewrite Hy. f_equal.
    apply fill_in; [lia|]. by replace (Z.to_nat (a + Z.of_nat i - a)) with i by lia.
  - rewrite !lookup_ge_None_2; [done|lia|rewrite length_bytes_at; lia].
Qed.

Lemma bytes_at_ext {A} (f g : Z -> A) a n : (forall x, a <= x < a + n -> f x = g x) ->
  bytes_at f a n = bytes_at g a n.
Proof.
  intros H. unfold bytes_at. apply list_fmap_ext. intros i x Hx. apply lookup_seqZ in Hx as [-> ?].
  apply H. lia.
Qed.

Module Copy.

Definition USERTOP : Z := 0x80000000.

Record mach : Type := mk_mach { kmem : Z -> Z; umem : Z -> option Z; pcb_badfaultfunc : bool }.

Definition set_kmem (m : mach) x : mach := mk_mach x (umem m) (pcb_badfaultfunc m).
Definition set_umem (m : mach) x : mach := mk_mach (kmem m) x (pcb_badfaultfunc m).
Definition set_badfault (m : mach) x : mach := mk_mach (kmem m) (umem m) x.

(** What a fault in kernel mode does: [true] resumes in [copyfail], whose
    [longjmp] makes the caller return [EFAULT]; otherwise the kernel panics. *)
Definition kfault {A} (m : mach) (k : exec A) : exec A := if pcb_badfaultfunc m then k else Halt Panic.

(** How many of the [n] bytes from [a] can be accessed before the first fault. *)
Fixpoint run_length (m : mach) (a : Z) (n : nat) : nat :=
  match n with
  | O => O
  | S n' => match umem m a with None => O | Some _ => S (run_length m (a + 1) n') end
  end.

Definition uget (m : mach) (a : Z) : Z := default 0 (umem m a).

(** The second result is [stoplen]. *)
Definition copycheck (userptr len : Z) : ret unit * Z :=
  let stoplen := len in
  let bot := userptr in
  let top := u32 (bot + len - 1) in
  if top <? bot then (Err EFAULT, stoplen)
  else if bot >=? USERTOP then (Err EFAULT, stoplen)
  else if top >=? USERTOP then (Ok tt, u32 (USERTOP - bot))
  else (Ok tt, stoplen).

(** [copyin(usersrc, b + off, len)]: [memcpy] stores the bytes up to the first
    that faults. *)
Definition copyin (m : mach) (usersrc : Z) (b : list Z) (off len : Z)
  : exec ((mach * list Z) * ret unit) :=
  let '(result, stoplen) := copycheck usersrc len in
  match result with
  | Err e => Done ((m, b), Err e)
  | Ok _ =>
      if negb (stoplen =? len) then Done ((m, b), Err EFAULT)
      else
        let m1 := set_badfault m true in
        if negb ((0 <=? off) && (off + len <=? Z.of_nat (length b))) then Halt Undefined
        else
          let k := Z.of_nat (run_length m1 usersrc (Z.to_nat len)) in
          let b1 := splice b off (bytes_at (uget m1) usersrc k) in
          if k =? len then Done ((set_badfault m1 false, b1), Ok tt)
          else kfault m1 (Done ((set_badfault m1 false, b1), Err EFAULT))
  end.

(** [copyout(b + off, userdest, len)] *)
Definition copyout (m : mach) (b : list Z) (off userdest len : Z) : exec (mach * ret unit) :=
  let '(result, stoplen) := copycheck userdest len in
  match result with
  | Err e => Done (m, Err e)
  | Ok _ =>
      if negb (stoplen =? len) then Done (m, Err EFAULT)
      else
        let m1 := set_badfault m true in
        if negb ((0 <=? off) && (off + len <=? Z.of_nat (length b))) then Halt Undefined
        else
          let k := Z.of_nat (run_length m1 userdest (Z.to_nat len)) in
          let m2 := set_umem m1 (fill (umem m1) userdest (Some <$> sub b off k)) in
          if k =? len then Done (set_badfault m2 false, Ok tt)
          else kfault m2 (Done (set_badfault m2 false, Err EFAULT))
  end.

(** [copystr] over any two sides: [load] and [stor] give [None] for a fault.  The
    result is [None] after a fault, otherwise what [copystr] returns, with
    [*gotlen]. *)
Section copystr.
Context {St : Type} (load : St -> Z -> exec (option Z)) (stor : St -> Z -> Z -> exec (option St)).

Fixpoint copystr_from (fuel : nat) (s : St) (i maxlen stoplen : Z) : exec (St * option (ret Z)) :=
  if (i <? maxlen) && (i <? stoplen) then
    match fuel with
    | O => Halt Fuel
    | S f =>
        c ← load s i;
        match c with
        | None => Done (s, None)
        | Some c =>
            s1 ← stor s i c;
            match s1 with
            | None => Done (s, None)
            | Some s1 =>
                if c =? 0 then Done (s1, Some (Ok (i + 1))) else copystr_from f s1 (i + 1) maxlen stoplen
            end
        end
    end
  else if stoplen <? maxlen then Done (s, Some (Err EFAULT))
  else Done (s, Some (Err ENAMETOOLONG)).

Definition copystr (s : St) (maxlen stoplen : Z) : exec (St * option (ret Z)) :=
  copystr_from (Z.to_nat maxlen) s 0 maxlen stoplen.
End copystr.

(** [copyinstr(usersrc, b + off, len, &actual)] *)
Definition copyinstr (m : mach) (usersrc : Z) (b : list Z) (off len : Z)
  : exec ((mach * list Z) * ret Z) :=
  let '(result, stoplen) := copycheck usersrc len in
  match result with
  | Err e => Done ((m, b), Err e)
  | Ok _ =>
      let m1 := set_badfault m true in
      '(b1, r) ← copystr (fun _ i => Done (umem m1 (usersrc + i)))
                   (fun b i c => b' ← wr b (off + i) c; Done (Some b')) b len stoplen;
      match r with
      | None => kfault m1 (Done ((set_badfault m1 false, b1), Err EFAULT))
      | Some r => Done ((set_badfault m1 false, b1), r)
      end
  end.

(** [copyoutstr(b + off, userdest, len, &actual)] *)
Definition copyoutstr (m : mach) (b : list Z) (off userdest len : Z) : exec (mach * ret Z) :=
  let '(result, stoplen) := copycheck userdest len in
  match result with
  | Err e => Done (m, Err e)
  | Ok _ =>
      let m1 := set_badfault m true in
      '(m2, r) ← copystr (fun _ i => c ← rd b (off + i); Done (Some c))
                   (fun m i c => Done (match umem m (userdest + i) with
                                       | None => None
                                       | Some _ => Some (set_umem m (fill (umem m) (userdest + i) [Some c]))
                                       end)) m1 len stoplen;
      match r with
      | None => kfault m2 (Done (set_badfault m2 false, Err EFAULT))
      | Some r => Done (set_badfault m2 false, r)
      end
  end.

(** ** Specifications *)

(** The range lies in user space. *)
Definition user_range (a len : Z) : Prop := 0 <= a /\ 0 < len /\ a + len <= USERTOP.

Definition mapped (m : mach) (a len : Z) : Prop := forall x, a <= x < a + len -> umem m x <> None.

Lemma run_length_spec m a n : (run_length m a n <= n)%nat /\
  mapped m a (Z.of_nat (run_length m a n)) /\
  ((run_length m a n < n)%nat -> umem m (a + Z.of_nat (run_length m a n)) = None).
Proof.
  revert a. induction n as [|n IH]; intros a; simpl.
  - split; [lia|]. split; [|lia]. intros x Hx. lia.
  - destruct (umem m a) as [c|] eqn:Ea.
    + destruct (IH (a + 1)) as (H1 & H2 & H3). split; [lia|]. split.
      * intros x Hx. destruct (Z.eq_dec x a) as [->|]; [congruence|]. apply H2. lia.
      * intros Hlt. rewrite <- H3 by lia. f_equal. lia.
    + split; [lia|]. split; [intros x Hx; lia|]. intros _. by rewrite Z.add_0_r.
Qed.

Lemma run_length_mapped m a len : 0 <= len -> mapped m a len ->
  Z.of_nat (run_length m a (Z.to_nat len)) = len.
Proof.
  intros H0 Hm. destruct (run_length_spec m a (Z.to_nat len)) as (H1 & _ & H3).
  destruct (decide (run_length m a (Z.to_nat len) < Z.to_nat len)%nat) as [Hlt|]; [|lia].
  exfalso. apply (Hm (a + Z.of_nat (run_length m a (Z.to_nat len)))); [lia|auto].
Qed.

(** [copycheck] accepts exactly the nonempty ranges that start in user space and
    do not wrap around, and [stoplen] is the part of the range in user space. *)
Lemma copycheck_spec a len : 0 <= a < 2 ^ 32 -> 0 <= len < 2 ^ 32 ->
  match copycheck a len with
  | (Ok _, stop) => a < USERTOP /\
      (0 < len /\ a + len <= 2 ^ 32 /\ stop = Z.min len (USERTOP - a) \/ len = 0 /\ a = 0 /\ stop = USERTOP)
  | (Err e, _) => e = EFAULT /\ (len = 0 \/ 2 ^ 32 < a + len \/ USERTOP <= a)
  end.
Proof.
  intros Ha Hl. unfold copycheck, USERTOP, u32. repeat case_bool; try done.
  all: try (split; [done|]; zlia). all: zlia.
Qed.

(** In range and mapped, both copies do what they are for. *)
Lemma copycheck_ok a len : user_range a len -> copycheck a len = (Ok tt, len).
Proof.
  unfold user_range, copycheck, USERTOP, u32. intros. rewrite Z.mod_small by lia. repeat case_bool; done.
Qed.

Lemma copyin_ok m a b off len : user_range a len -> mapped m a len ->
  0 <= off -> off + len <= Z.of_nat (length b) ->
  copyin m a b off len = Done ((set_badfault m false, splice b off (bytes_at (uget m) a len)), Ok tt).
Proof.
  intros Hr Hm H0 H1. unfold copyin. rewrite copycheck_ok by done. destruct Hr as (? & ? & ?).
  cbv zeta. rewrite (run_length_mapped (set_badfault m true)) by (lia || done). rewrite !Z.eqb_refl.
  by repeat case_bool.
Qed.

Lemma copyout_ok m b off a len : user_range a len -> mapped m a len ->
  0 <= off -> off + len <= Z.of_nat (length b) ->
  copyout m b off a len =
  Done (mk_mach (kmem m) (fill (umem m) a (Some <$> sub b off len)) false, Ok tt).
Proof.
  intros Hr Hm H0 H1. unfold copyout. rewrite copycheck_ok by done. destruct Hr as (? & ? & ?).
  cbv zeta. rewrite (run_length_mapped (set_badfault m true)) by (lia || done). rewrite !Z.eqb_refl.
  by repeat case_bool.
Qed.

(** A range the copies refuse. *)
Definition bad_range (m : mach) (a len : Z) : Prop := ~ (user_range a len /\ mapped m a len).

Lemma copycheck_cases a len : 0 <= a < 2 ^ 32 -> 0 <= len < 2 ^ 32 ->
  (user_range a len /\ copycheck a len = (Ok tt, len)) \/
  (~ user_range a len /\ exists r stop, copycheck a len = (r, stop) /\
     match r with Ok _ => stop <> len | Err e => e = EFAULT end).
Proof.
  intros Ha Hl. pose proof (copycheck_spec a len Ha Hl) as Hs.
  destruct (copycheck a len) as [r stop] eqn:E.
  destruct (Z_lt_dec 0 len), (Z_le_dec (a + len) USERTOP).
  1: left; split; [unfold user_range; lia|]; rewrite <- E; apply copycheck_ok; unfold user_range; lia.
  all: right; split; [intros (? & ? & ?); lia|]; exists r, stop; split; [done|];
    destruct r; unfold USERTOP in *; [lia|tauto].
Qed.

(** [copyin] never faults in the kernel, whatever pointer and length the
    user supplies: it fills the buffer with the bytes of user memory, or returns
    [EFAULT] exactly when the range is empty, leaves user space or touches an
    unmapped address; it writes nothing outside the buffer's [len] bytes and
    leaves the fault handler cleared. *)
Theorem copyin_correct m a b off len : 0 <= a < 2 ^ 32 -> 0 <= len < 2 ^ 32 ->
  0 <= off -> off + len <= Z.of_nat (length b) -> pcb_badfaultfunc m = false ->
  exists b' r, copyin m a b off len = Done ((m, b'), r) /\ length b' = length b /\
    (forall i, ~ (off <= Z.of_nat i < off + len) -> b' !! i = b !! i) /\
    match r with
    | Ok _ => user_range a len /\ mapped m a len /\ sub b' off len = bytes_at (uget m) a len
    | Err e => e = EFAULT /\ bad_range m a len
    end.
Proof.
  intros Ha Hl H0 H1 Hb. assert (set_badfault (set_badfault m true) false = m) as Em by (destruct m; simpl in *; by rewrite Hb).
  destruct (copycheck_cases a len Ha Hl) as [[Hr Hck]|(Hr & r & stop & Hck & Hst)].
  - unfold copyin. rewrite Hck, Z.eqb_refl. cbv zeta. set (m1 := set_badfault m true).
    destruct (Z.leb_spec 0 off), (Z.leb_spec (off + len) (Z.of_nat (length b))); try lia. run.
    destruct (run_length_spec m1 a (Z.to_nat len)) as (Hk & Hmap & Hstop).
    set (k := run_length m1 a (Z.to_nat len)) in *. set (b' := splice b off _).
    assert (length (bytes_at (uget m1) a (Z.of_nat k)) = k) as Hlen.
    { rewrite length_bytes_at. lia. }
    assert (length b' = length b) as Hlb by (apply length_splice; lia).
    assert (forall i, ~ (off <= Z.of_nat i < off + len) -> b' !! i = b !! i) as Hout.
    { intros i Hi. unfold b'. rewrite lookup_splice, decide_False by lia. done. }
    destruct (Z.eqb_spec (Z.of_nat k) len) as [Ek|Ek].
    + exists b', (Ok tt). unfold m1. rewrite Em. split; [done|]. split; [done|]. split; [done|]. split; [done|].
      split; [by rewrite <- Ek|]. apply list_eq. intros i. destruct (decide (i < Z.to_nat len)%nat).
      * rewrite lookup_sub by lia. unfold b'. rewrite lookup_splice, decide_True by lia. rewrite Ek.
        f_equal. lia.
      * rewrite !lookup_ge_None_2; [done|rewrite length_bytes_at; lia|rewrite length_sub; lia].
    + exists b', (Err EFAULT). unfold kfault, m1. rewrite Em. split; [done|]. split; [done|]. split; [done|].
      split; [done|]. intros [_ Hm]. apply (Hm (a + Z.of_nat k)); [lia|]. apply Hstop. lia.
  - exists b, (Err EFAULT). split; [|split; [done|split; [done|split; [done|intros [? _]; done]]]].
    unfold copyin. rewrite Hck. destruct r as [u|e]; [|by rewrite Hst].
    destruct (Z.eqb_spec stop len); [done|]. done.
Qed.

(** [copyout] writes the kernel's bytes to user memory and nowhere else, or
    returns [EFAULT] exactly when the range is empty, leaves user space or
    touches an unmapped address; no address of kernel space is ever written. *)
Theorem copyout_correct m b off a len : 0 <= a < 2 ^ 32 -> 0 <= len < 2 ^ 32 ->
  0 <= off -> off + len <= Z.of_nat (length b) -> pcb_badfaultfunc m = false ->
  exists m' r, copyout m b off a len = Done (m', r) /\ kmem m' = kmem m /\ pcb_badfaultfunc m' = false /\
    (forall x, ~ (a <= x < a + len /\ x < USERTOP) -> umem m' x = umem m x) /\
    match r with
    | Ok _ => user_range a len /\ mapped m a len /\ bytes_at (umem m') a len = Some <$> sub b off len
    | Err e => e = EFAULT /\ bad_range m a len
    end.
Proof.
  intros Ha Hl H0 H1 Hb.
  destruct (copycheck_cases a len Ha Hl) as [[Hr Hck]|(Hr & r & stop & Hck & Hst)].
  - unfold copyout. rewrite Hck, Z.eqb_refl. cbv zeta. set (m1 := set_badfault m true).
    destruct (Z.leb_spec 0 off), (Z.leb_spec (off + len) (Z.of_nat (length b))); try lia. run.
    destruct (run_length_spec m1 a (Z.to_nat len)) as (Hk & Hmap & Hstop).
    set (k := run_length m1 a (Z.to_nat len)) in *. destruct Hr as (? & ? & ?).
    assert (length (Some <$> sub b off (Z.of_nat k)) = k) as Hlen.
    { rewrite length_fmap, length_sub by lia. lia. }
    assert (forall x, ~ (a <= x < a + len /\ x < USERTOP) ->
      fill (umem m1) a (Some <$> sub b off (Z.of_nat k)) x = umem m x) as Hout.
    { intros x Hx. apply fill_out. lia. }
    destruct (Z.eqb_spec (Z.of_nat k) len) as [Ek|Ek].
    + eexists _, (Ok tt). split; [done|]. split; [done|]. split; [done|]. split; [done|]. simpl.
      split; [done|]. split; [by rewrite <- Ek|]. rewrite Ek. apply bytes_at_fill. rewrite <- Ek. by rewrite Hlen.
    + eexists _, (Err EFAULT). split; [done|]. split; [done|]. split; [done|]. split; [done|].
      split; [done|]. intros [_ Hm]. apply (Hm (a + Z.of_nat k)); [lia|]. apply Hstop. lia.
  - exists m, (Err EFAULT). split; [|split; [done|split; [done|split; [done|split; [done|intros [? _]; done]]]]].
    unfold copyout. rewrite Hck. destruct r as [u|e]; [|by rewrite Hst].
    destruct (Z.eqb_spec stop len); [done|]. done.
Qed.

(** The [n] bytes from [a] are mapped and not zero. *)
Definition nonzero (m : mach) (a n : Z) : Prop :=
  forall x, a <= x < a + n -> exists c, umem m x = Some c /\ c <> 0.

(** A string of [n] bytes, the terminator included, is at [a]. *)
Definition ustring (m : mach) (a n : Z) : Prop := 0 < n /\ nonzero m a (n - 1) /\ umem m (a + n - 1) = Some 0.

Lemma nonzero_snoc m a n c : nonzero m a n -> 0 <= n -> umem m (a + n) = Some c -> c <> 0 -> nonzero m a (n + 1).
Proof.
  intros H Hn Hc H0 x Hx. destruct (Z.eq_dec x (a + n)) as [->|]; [by exists c|]. apply H. lia.
Qed.

(** Both bounds of the loop. *)
Lemma copystr_in_exit m a b i maxlen stop : 0 <= i <= maxlen -> i <= stop -> nonzero m a i ->
  forall (X : exec (list Z * option (ret Z))), ~ (i < maxlen /\ i < stop) ->
  exists b' r, (if (i <? maxlen) && (i <? stop) then X
    else if stop <? maxlen then Done (b, Some (Err EFAULT)) else Done (b, Some (Err ENAMETOOLONG)))
    = Done (b', r) /\ b' = b /\
    r = Some (Err (if decide (stop < maxlen) then EFAULT else ENAMETOOLONG)) /\
    nonzero m a (if decide (stop < maxlen) then stop else maxlen).
Proof.
  intros Hi Hst Hnz X Hd. exists b. eexists. split; [|split; [done|split; [reflexivity|]]].
  - destruct (Z.ltb_spec i maxlen), (Z.ltb_spec i stop), (Z.ltb_spec stop maxlen); cbn [andb]; try lia;
      case_decide; try lia; done.
  - case_decide; [replace stop with i by lia|replace maxlen with i by lia]; done.
Qed.

Lemma copystr_in_spec m a off fuel b i maxlen stop : 0 <= off -> 0 <= i <= maxlen -> i <= stop ->
  off + maxlen <= Z.of_nat (length b) -> maxlen - i <= Z.of_nat fuel -> nonzero m a i ->
  (forall j, 0 <= j < i -> b !! Z.to_nat (off + j) = umem m (a + j)) ->
  exists b' r, copystr_from (fun _ i => Done (umem m (a + i)))
    (fun b i c => b' ← wr b (off + i) c; Done (Some b')) fuel b i maxlen stop = Done (b', r) /\
    length b' = length b /\ (forall j, ~ (off <= Z.of_nat j < off + maxlen) -> b' !! j = b !! j) /\
    match r with
    | Some (Ok got) => got <= maxlen /\ got <= stop /\ ustring m a got /\
        forall j, 0 <= j < got -> b' !! Z.to_nat (off + j) = umem m (a + j)
    | Some (Err e) => if decide (stop < maxlen) then e = EFAULT /\ nonzero m a stop
                      else e = ENAMETOOLONG /\ nonzero m a maxlen
    | None => exists n, 0 <= n < maxlen /\ n < stop /\ nonzero m a n /\ umem m (a + n) = None
    end.
Proof.
  intros H0. revert b i. induction fuel as [|f IH]; intros b i Hi Hst Hb Hf Hnz Hcp; cbn [copystr_from];
    pose proof (copystr_in_exit m a b i maxlen stop Hi Hst Hnz) as Hexit.
  - destruct (Hexit (Halt Fuel)) as (b' & r & -> & -> & -> & Hn); [lia|]. exists b. eexists.
    split; [done|]. split; [done|]. split; [done|]. by case_decide.
  - destruct (decide (i < maxlen /\ i < stop)) as [[? ?]|Hd]; cycle 1.
    { match goal with |- context [if _ && _ then ?X else _] =>
        destruct (Hexit X Hd) as (b' & r & -> & -> & -> & Hn) end.
      exists b. eexists. split; [done|]. split; [done|]. split; [done|]. by case_decide. }
    destruct (Z.ltb_spec i maxlen), (Z.ltb_spec i stop); try lia; cbn [andb].
    + run. destruct (umem m (a + i)) as [c|] eqn:Ec; cycle 1.
      { exists b. eexists. split; [done|]. split; [done|]. split; [done|]. exists i.
        split_and!; [lia..|done|done]. }
      rewrite wr_Done by lia. run. set (b1 := <[_ := c]> b).
      assert (length b1 = length b) as Hlb by apply length_insert.
      assert (forall j, 0 <= j < i + 1 -> b1 !! Z.to_nat (off + j) = umem m (a + j)) as Hcp1.
      { intros j Hj. unfold b1. destruct (Z.eq_dec j i) as [->|].
        - rewrite list_lookup_insert_eq by lia. congruence.
        - rewrite list_lookup_insert_ne by lia. apply Hcp. lia. }
      assert (forall j, ~ (off <= Z.of_nat j < off + maxlen) -> b1 !! j = b !! j) as Hout.
      { intros j Hj. apply list_lookup_insert_ne. lia. }
      destruct (Z.eqb_spec c 0) as [->|Hc].
      * exists b1. eexists. split; [done|]. split; [done|]. split; [done|]. split_and!; [lia..| |done].
        split; [lia|]. replace (i + 1 - 1) with i by lia. replace (a + (i + 1) - 1) with (a + i) by lia. done.
      * destruct (IH b1 (i + 1)) as (b' & r & E & Hl & Ho & Hr); try done; try lia.
        { apply (nonzero_snoc m a i c); lia || done. }
        exists b', r. split; [done|]. split; [congruence|]. split; [|done].
        intros j Hj. rewrite Ho by done. by apply Hout.
Qed.

(** [copyinstr] copies a string from user space and reports its length with
    the terminator; it returns [ENAMETOOLONG] when [len] bytes of user memory
    hold no terminator, and [EFAULT] when the length wraps around, or a fault or
    the end of user space comes before the terminator. *)
Theorem copyinstr_correct m a b off len : 0 <= a < 2 ^ 32 -> 0 < len < 2 ^ 32 ->
  0 <= off -> off + len <= Z.of_nat (length b) -> pcb_badfaultfunc m = false ->
  exists b' r, copyinstr m a b off len = Done ((m, b'), r) /\ length b' = length b /\
    (forall i, ~ (off <= Z.of_nat i < off + len) -> b' !! i = b !! i) /\
    match r with
    | Ok got => got <= len /\ a + got <= USERTOP /\ ustring m a got /\
        forall j, 0 <= j < got -> b' !! Z.to_nat (off + j) = umem m (a + j)
    | Err e =>
        e = ENAMETOOLONG /\ a + len <= USERTOP /\ nonzero m a len \/
        e = EFAULT /\ (2 ^ 32 < a + len \/ USERTOP <= a \/
          exists n, 0 <= n < len /\ nonzero m a n /\ (a + n = USERTOP \/ umem m (a + n) = None))
    end.
Proof.
  intros Ha Hl H0 H1 Hb.
  assert (set_badfault (set_badfault m true) false = m) as Em by (destruct m; simpl in *; by rewrite Hb).
  pose proof (copycheck_spec a len Ha ltac:(lia)) as Hck. unfold copyinstr.
  destruct (copycheck a len) as [[u|e] stop].
  - destruct Hck as (Ha' & [(_ & Hw & Hst)|(? & _)]); [|lia]. unfold copystr.
    destruct (copystr_in_spec (set_badfault m true) a off (Z.to_nat len) b 0 len stop)
      as (b' & r & E & Hlb & Ho & Hr); try lia; [intros x Hx; lia|].
    cbv zeta. rewrite E. run. destruct r as [[got|e]|].
    + rewrite Em. exists b', (Ok got). split; [done|]. split; [done|]. split; [done|].
      destruct Hr as (? & ? & ? & ?). split; [done|]. split; [lia|]. done.
    + rewrite Em. exists b', (Err e). split; [done|]. split; [done|]. split; [done|].
      case_decide; destruct Hr as [-> Hnz]; [right|left].
      * split; [done|]. right. right. exists stop. split; [lia|]. split; [done|]. left. lia.
      * split; [done|]. split; [lia|]. done.
    + unfold kfault. cbn [pcb_badfaultfunc set_badfault]. change (mk_mach _ _ true) with (set_badfault m true).
      rewrite Em. exists b', (Err EFAULT). split; [done|]. split; [done|]. split; [done|].
      right. split; [done|]. right. right. destruct Hr as (n & ? & ? & ? & ?). exists n. auto.
  - exists b, (Err e). split; [done|]. split; [done|]. split; [done|]. destruct Hck as [-> Hc].
    right. split; [done|]. destruct Hc as [?|[?|?]]; [lia|by left|by right; left].
Qed.

End Copy.

Module Uio.
Import Copy.

Inductive uio_rw : Set := UIO_READ | UIO_WRITE.
Inductive uio_seg : Set := UIO_USERSPACE | UIO_SYSSPACE | UIO_USERISPACE.

#[export] Instance uio_rw_eq_dec : EqDecision uio_rw.
Proof. solve_decision. Defined.

(** [iov_base] is [iov_kbase] or [iov_ubase]. *)
Record uio : Type := mk_uio {
  iov_base : Z;
  iov_len : Z;
  uio_offset : Z;
  uio_resid : Z;
  uio_segflg : uio_seg;
  rw : uio_rw;
  uio_space : option Z
}.

(** [iov->iov_base += size; iov->iov_len -= size; uio->uio_resid -= size;
    uio->uio_offset += size], without the overflow check of the offset. *)
Definition advance (u : uio) (size : Z) : uio :=
  mk_uio (u32 (iov_base u + size)) (u32 (iov_len u - size)) (uio_offset u + size)
    (u32 (uio_resid u - size)) (uio_segflg u) (rw u) (uio_space u).

(** One transfer of [size] bytes between [b + off] and the region. *)
Definition uio_copy (m : mach) (b : list Z) (off size : Z) (u : uio)
  : exec ((mach * list Z) * ret unit) :=
  match uio_segflg u with
  | UIO_SYSSPACE =>
      if negb ((0 <=? off) && (off + size <=? Z.of_nat (length b))) then Halt Undefined
      else
        match rw u with
        | UIO_READ => Done ((set_kmem m (fill (kmem m) (iov_base u) (sub b off size)), b), Ok tt)
        | UIO_WRITE => Done ((m, splice b off (bytes_at (kmem m) (iov_base u) size)), Ok tt)
        end
  | UIO_USERSPACE | UIO_USERISPACE =>
      match rw u with
      | UIO_READ => '(m1, r) ← copyout m b off (iov_base u) size; Done ((m1, b), r)
      | UIO_WRITE => copyin m (iov_base u) b off size
      end
  end.

(** The loop of [uiomove].  A round leaves [n] or [iov_len] zero, and the next
    round would panic, so two suffice. *)
Fixpoint uiomove_loop (fuel : nat) (m : mach) (b : list Z) (off n : Z) (u : uio)
  : exec ((mach * list Z * uio) * ret unit) :=
  if (n >? 0) && (uio_resid u >? 0) then
    match fuel with
    | O => Halt Fuel
    | S f =>
        let size := if iov_len u >? n then n else iov_len u in
        if size =? 0 then Halt Panic
        else
          '((m1, b1), r) ← uio_copy m b off size u;
          match r with
          | Err e => Done ((m1, b1, u), Err e)
          | Ok _ =>
              _o ← int (uio_offset u + size);
              uiomove_loop f m1 b1 (off + size) (n - size) (advance u size)
          end
    end
  else Done ((m, b, u), Ok tt).

(** [uiomove(b + off, n, uio)]; [curas] is [curthread->t_vmspace]. *)
Definition uiomove (curas : option Z) (m : mach) (b : list Z) (off n : Z) (u : uio)
  : exec ((mach * list Z * uio) * ret unit) :=
  assert! match uio_segflg u with
          | UIO_SYSSPACE => bool_decide (uio_space u = None)
          | _ => bool_decide (uio_space u = curas)
          end;
  uiomove_loop 2 m b off n u.

Fixpoint uiomovezeros_loop (fuel : nat) (curas : option Z) (m : mach) (n : Z) (u : uio)
  : exec ((mach * uio) * ret unit) :=
  if n >? 0 then
    match fuel with
    | O => Halt Fuel
    | S f =>
        let amt := if 16 >? n then n else 16 in
        '((m1, _, u1), r) ← uiomove curas m (replicate 16 0) 0 amt u;
        match r with
        | Err e => Done ((m1, u1), Err e)
        | Ok _ => uiomovezeros_loop f curas m1 (n - amt) u1
        end
    end
  else Done ((m, u), Ok tt).

Definition uiomovezeros (curas : option Z) (m : mach) (n : Z) (u : uio)
  : exec ((mach * uio) * ret unit) :=
  assert! bool_decide (rw u = UIO_READ);
  uiomovezeros_loop (Z.to_nat n) curas m n u.

Definition mk_kuio (kbuf len pos : Z) (r : uio_rw) : uio := mk_uio kbuf len pos len UIO_SYSSPACE r None.

(** ** Specifications *)

(** The bytes of the region, and the effect of writing [l] at its start. *)
Definition get_region (m : mach) (u : uio) (n : Z) : list Z :=
  match uio_segflg u with
  | UIO_SYSSPACE => bytes_at (kmem m) (iov_base u) n
  | _ => bytes_at (uget m) (iov_base u) n
  end.

Definition moved (m : mach) (u : uio) (l : list Z) (m' : mach) : Prop :=
  pcb_badfaultfunc m' = pcb_badfaultfunc m /\
  match uio_segflg u with
  | UIO_SYSSPACE => umem m' = umem m /\ forall x, kmem m' x = fill (kmem m) (iov_base u) l x
  | _ => kmem m' = kmem m /\ forall x, umem m' x = fill (umem m) (iov_base u) (Some <$> l) x
  end.

(** The region can take [n] bytes without faults. *)
Record ready (curas : option Z) (m : mach) (u : uio) (n : Z) : Prop := {
  rd_space : match uio_segflg u with UIO_SYSSPACE => uio_space u = None | _ => uio_space u = curas end;
  rd_nofault : pcb_badfaultfunc m = false;
  rd_base : 0 <= iov_base u /\ iov_base u + iov_len u < 2 ^ 32;
  rd_len : 0 <= n <= iov_len u;
  rd_resid : n <= uio_resid u < 2 ^ 32;
  rd_offset : INT_MIN <= uio_offset u /\ uio_offset u + n <= INT_MAX;
  rd_mapped : match uio_segflg u with
              | UIO_SYSSPACE => True
              | _ => iov_base u + n <= USERTOP /\ mapped m (iov_base u) n
              end
}.

(** What is left of a request after [n] bytes, in exact arithmetic. *)
Definition rest_of (u : uio) (n : Z) : uio :=
  mk_uio (iov_base u + n) (iov_len u - n) (uio_offset u + n) (uio_resid u - n)
    (uio_segflg u) (rw u) (uio_space u).

Lemma advance_fields curas m u n : ready curas m u n ->
  advance u n = mk_uio (iov_base u + n) (iov_len u - n) (uio_offset u + n) (uio_resid u - n)
    (uio_segflg u) (rw u) (uio_space u).
Proof. intros []. unfold advance. rewrite !u32_small by lia. done. Qed.

Lemma fill_nil {A} (f : Z -> A) a x : fill f a [] x = f x.
Proof. unfold fill. repeat case_bool; done. Qed.

Lemma moved_nil m u : moved m u [] m.
Proof.
  split; [done|]. destruct (uio_segflg u); (split; [done|]); intros x; simpl; by rewrite fill_nil.
Qed.

Lemma fill_app {A} (f g h : Z -> A) a l1 l2 : (forall x, g x = fill f a l1 x) ->
  (forall x, h x = fill g (a + Z.of_nat (length l1)) l2 x) -> forall x, h x = fill f a (l1 ++ l2) x.
Proof.
  intros Hg Hh x. rewrite Hh. unfold fill. rewrite Hg. unfold fill. rewrite length_app.
  destruct (Z.leb_spec a x), (Z.ltb_spec x (a + Z.of_nat (length l1))),
    (Z.leb_spec (a + Z.of_nat (length l1)) x),
    (Z.ltb_spec x (a + Z.of_nat (length l1) + Z.of_nat (length l2))),
    (Z.ltb_spec x (a + Z.of_nat (length l1 + length l2)%nat)); cbn [andb]; try lia; try done.
  - rewrite lookup_app_l by lia. done.
  - rewrite lookup_app_r by lia.
    replace (Z.to_nat (x - a) - length l1)%nat with (Z.to_nat (x - (a + Z.of_nat (length l1)))) by lia.
    destruct (l2 !! _) eqn:E; [done|]. apply lookup_ge_None_1 in E. lia.
Qed.

Lemma moved_app m u l1 m1 u1 l2 m2 : moved m u l1 m1 -> moved m1 u1 l2 m2 ->
  uio_segflg u1 = uio_segflg u -> iov_base u1 = iov_base u + Z.of_nat (length l1) ->
  moved m u (l1 ++ l2) m2.
Proof.
  intros [E1 H1] [E2 H2] Es Eb. split; [congruence|]. rewrite Es, Eb in H2.
  destruct (uio_segflg u); destruct H1 as [? H1], H2 as [? H2]; (split; [congruence|]).
  - rewrite fmap_app. apply (fill_app _ (umem m1)); [done|]. by rewrite length_fmap.
  - by apply (fill_app _ (kmem m1)).
  - rewrite fmap_app. apply (fill_app _ (umem m1)); [done|]. by rewrite length_fmap.
Qed.

Lemma moved_mapped m u l m' a n : moved m u l m' -> mapped m a n -> mapped m' a n.
Proof.
  intros [_ H] Hm x Hx. specialize (Hm x Hx).
  destruct (uio_segflg u); destruct H as [H H']; try (by rewrite H); rewrite H'; unfold fill;
    (destruct (_ && _); [|done]); rewrite list_lookup_fmap;
    by destruct (l !! Z.to_nat (x - iov_base u)).
Qed.

(** What is left after a transfer is still ready. *)
Lemma ready_rest curas m u n1 n2 m' l : ready curas m u (n1 + n2) -> 0 <= n1 -> 0 <= n2 ->
  moved m u l m' -> ready curas m' (advance u n1) n2.
Proof.
  intros Hr H1 H2 Hmv.
  assert (ready curas m u n1) as Hr1.
  { destruct Hr. split; try done; try lia. destruct (uio_segflg u); try done;
      (split; [lia|]; intros x Hx; apply rd_mapped0; lia). }
  rewrite (advance_fields curas m u n1 Hr1). destruct Hr, Hr1. split; simpl; try done; try lia.
  - destruct Hmv as [-> _]. done.
  - destruct (uio_segflg u) eqn:Es; try done; (split; [lia|]);
      apply (moved_mapped m u l m' _ _ Hmv); intros x Hx; apply rd_mapped0; lia.
Qed.

Lemma ready_less curas m u n n' : ready curas m u n -> 0 <= n' <= n -> ready curas m u n'.
Proof.
  intros [] Hn. split; try done; try lia. destruct (uio_segflg u); try done;
    (split; [lia|]; intros x Hx; apply rd_mapped0; lia).
Qed.

Lemma bytes_at_app {A} (f : Z -> A) a n1 n2 : 0 <= n1 -> 0 <= n2 ->
  bytes_at f a (n1 + n2) = bytes_at f a n1 ++ bytes_at f (a + n1) n2.
Proof.
  intros H1 H2. apply list_eq. intros i.
  destruct (decide (i < Z.to_nat n1)%nat); [|destruct (decide (i < Z.to_nat (n1 + n2))%nat)].
  - rewrite lookup_app_l by (rewrite length_bytes_at; lia). by rewrite !lookup_bytes_at by lia.
  - rewrite lookup_app_r by (rewrite length_bytes_at; lia).
    rewrite !lookup_bytes_at by (rewrite ?length_bytes_at; lia). rewrite length_bytes_at. do 2 f_equal. lia.
  - rewrite !lookup_ge_None_2; [done|rewrite length_app, !length_bytes_at; lia|rewrite length_bytes_at; lia].
Qed.

Lemma get_region_app curas m u n1 n2 : ready curas m u (n1 + n2) -> 0 <= n1 -> 0 <= n2 ->
  get_region m u (n1 + n2) = get_region m u n1 ++ get_region m (advance u n1) n2.
Proof.
  intros Hr H1 H2. assert (ready curas m u n1) as Hr1 by (eapply ready_less; [done|lia]).
  rewrite (advance_fields curas m u n1 Hr1). unfold get_region. simpl.
  destruct (uio_segflg u); by apply bytes_at_app.
Qed.

Lemma advance_add cas m u n1 n2 : ready cas m u (n1 + n2) -> 0 <= n1 -> 0 <= n2 ->
  advance (advance u n1) n2 = advance u (n1 + n2).
Proof.
  intros Hr H1 H2. pose proof (ready_less _ _ _ _ n1 Hr ltac:(lia)) as Hr1.
  pose proof (ready_rest _ _ _ _ _ _ [] Hr H1 H2 (moved_nil m u)) as Hr2.
  rewrite (advance_fields cas m _ _ Hr2), (advance_fields cas m u _ Hr), (advance_fields cas m u _ Hr1). simpl.
  f_equal; lia.
Qed.

Lemma advance_0 cas m u n : ready cas m u n -> advance u 0 = u.
Proof.
  intros Hr. rewrite (advance_fields cas m u 0) by (eapply ready_less; [done|destruct Hr; lia]).
  destruct u. simpl. f_equal; lia.
Qed.

Lemma length_get_region m u n : length (get_region m u n) = Z.to_nat n.
Proof. unfold get_region. destruct (uio_segflg u); apply length_bytes_at. Qed.

Lemma uio_copy_ok curas m b off n u : ready curas m u n -> 0 < n -> 0 <= off ->
  off + n <= Z.of_nat (length b) ->
  exists m', uio_copy m b off n u = Done ((m',
    match rw u with UIO_READ => b | UIO_WRITE => splice b off (get_region m u n) end), Ok tt) /\
    match rw u with UIO_READ => moved m u (sub b off n) m' | UIO_WRITE => m' = m end.
Proof.
  intros Hr Hn H0 H1. unfold uio_copy, get_region, moved.
  assert (set_badfault m false = m) as Em by (destruct Hr, m; simpl in *; by subst).
  destruct (uio_segflg u) eqn:Es.
  2: destruct (Z.leb_spec 0 off), (Z.leb_spec (off + n) (Z.of_nat (length b))); try lia;
     cbn [andb negb]; destruct (rw u); eexists; (split; [done|]); done.
  all: assert (user_range (iov_base u) n /\ mapped m (iov_base u) n) as [Hur Hm]
    by (destruct Hr; rewrite Es in *; unfold user_range; intuition lia); destruct (rw u).
  1,3: rewrite copyout_ok by done; run; eexists; (split; [done|]); destruct Hr; simpl; done.
  all: rewrite copyin_ok, Em by done; eexists; (split; [done|]); done.
Qed.

Lemma uiomove_ok curas m b off n u : ready curas m u n -> 0 <= off ->
  off + n <= Z.of_nat (length b) ->
  exists m', uiomove curas m b off n u = Done ((m',
    match rw u with UIO_READ => b | UIO_WRITE => splice b off (get_region m u n) end, advance u n), Ok tt) /\
    match rw u with UIO_READ => moved m u (sub b off n) m' | UIO_WRITE => m' = m end.
Proof.
  intros Hr H0 H1. unfold uiomove.
  assert (match uio_segflg u with
          | UIO_SYSSPACE => bool_decide (uio_space u = None)
          | _ => bool_decide (uio_space u = curas) end = true) as ->.
  { destruct Hr. destruct (uio_segflg u); by apply bool_decide_eq_true. }
  cbn [assert]. pose proof (advance_fields curas m u n Hr) as Hadv. pose proof Hr as [].
  destruct (Z.eq_dec n 0) as [->|Hn].
  - exists m. cbn [uiomove_loop]. rewrite Hadv, !Z.add_0_r, !Z.sub_0_r. simpl.
    assert (splice b off (get_region m u 0) = b) as ->.
    { assert (get_region m u 0 = []) as -> by (apply nil_length_inv; by rewrite length_get_region).
      unfold splice. simpl. rewrite Nat.add_0_r. apply take_drop. }
    destruct u as [? ? ? ? ? r ?]; simpl. destruct r; (split; [done|]); [|done]. apply moved_nil.
  - destruct (uio_copy_ok curas m b off n u Hr ltac:(lia) H0 H1) as (m' & E & Hm'). exists m'.
    split; [|done]. cbn [uiomove_loop]. rewrite !Z.gtb_ltb.
    destruct (Z.ltb_spec 0 n), (Z.ltb_spec 0 (uio_resid u)); try lia; cbn [andb].
    assert ((if n <? iov_len u then n else iov_len u) = n) as -> by (case_bool; lia).
    destruct (Z.eqb_spec n 0); [done|]. rewrite E. run.
    rewrite (int_Done (uio_offset u + n)) by lia. run. by rewrite Z.sub_diag.
Qed.

(** The only error of a transfer is [EFAULT]. *)
Definition faults (r : ret unit) : Prop := r = Ok tt \/ r = Err EFAULT.

Lemma copycheck_faults a len : faults (fst (copycheck a len)).
Proof. unfold copycheck, faults. repeat case_match; auto. Qed.

Lemma kfault_post {A} m (k : exec A) Q : post k Q -> post (kfault m k) Q.
Proof. intros H. unfold kfault. by case_match. Qed.

Lemma copyin_faults m a b off len : post (copyin m a b off len) (fun '(_, r) => faults r).
Proof.
  unfold copyin. pose proof (copycheck_faults a len) as H. destruct copycheck as [r stop]. simpl in H.
  vc; try apply kfault_post, post_Done; unfold faults in *; auto.
Qed.
Lemma copyout_faults m b off a len : post (copyout m b off a len) (fun '(_, r) => faults r).
Proof.
  unfold copyout. pose proof (copycheck_faults a len) as H. destruct copycheck as [r stop]. simpl in H.
  vc; try apply kfault_post, post_Done; unfold faults in *; auto.
Qed.

Lemma uio_copy_faults m b off n u : post (uio_copy m b off n u) (fun '(_, r) => faults r).
Proof.
  unfold uio_copy. repeat case_match; try apply post_Halt; try (apply post_Done; by left); try apply copyin_faults.
  all: apply post_bind; eapply post_mono; [apply copyout_faults|]; intros [m' r] H'; by apply post_Done.
Qed.

Lemma uiomove_faults cas m b off n u : post (uiomove cas m b off n u) (fun '(_, r) => faults r).
Proof.
  unfold uiomove. apply post_assert. intros _. generalize 2%nat. intros fuel.
  revert m b off n u. induction fuel as [|fuel IH]; intros m b off n u; simpl.
  - case_match; [apply post_Halt|apply post_Done; by left].
  - case_match; [|apply post_Done; by left]. case_match; [apply post_Halt|]. apply post_bind.
    eapply post_mono; [apply uio_copy_faults|]. intros [[m1 b1] r] Hr. destruct r; [|by apply post_Done].
    apply post_any. intros _. apply IH.
Qed.

(** C27. [uiomove] transfers exactly [n] bytes between the kernel buffer and the
    region of the [uio], in the direction of the [uio].  The [uio] then describes
    the rest of the request: the base of the region and the offset are [n] larger,
    the length of the region and the residue [n] smaller, and the direction and the
    address space are the same.  Outside the [n] bytes of its target nothing
    changes. *)
Theorem uiomove_correct curas m b off n u : ready curas m u n -> 0 <= off ->
  off + n <= Z.of_nat (length b) ->
  exists m', uiomove curas m b off n u = Done ((m',
    match rw u with UIO_READ => b | UIO_WRITE => splice b off (get_region m u n) end,
    mk_uio (iov_base u + n) (iov_len u - n) (uio_offset u + n) (uio_resid u - n) (uio_segflg u) (rw u) (uio_space u)),
    Ok tt) /\
    match rw u with UIO_READ => moved m u (sub b off n) m' | UIO_WRITE => m' = m end.
Proof. intros Hr. rewrite <- (advance_fields curas m u n Hr). by apply uiomove_ok. Qed.

Lemma sub_zeros n k : 0 <= n <= k -> sub (replicate (Z.to_nat k) 0) 0 n = replicate (Z.to_nat n) 0.
Proof. intros. unfold sub. rewrite drop_0, take_replicate. f_equal. lia. Qed.

Lemma uiomovezeros_ok curas m n u : ready curas m u n -> rw u = UIO_READ ->
  exists m', uiomovezeros curas m n u = Done ((m', advance u n), Ok tt) /\
    moved m u (replicate (Z.to_nat n) 0) m'.
Proof.
  intros Hr Hrw. unfold uiomovezeros. rewrite bool_decide_eq_true_2 by done. cbn [assert].
  assert (n <= Z.of_nat (Z.to_nat n)) as Hf by lia. revert Hf.
  generalize (Z.to_nat n) at 1 2 as fuel. intros fuel. revert m n u Hr Hrw.
  induction fuel as [|f IH]; intros m n u Hr Hrw Hf; cbn [uiomovezeros_loop]; pose proof (rd_len _ _ _ _ Hr).
  - assert (n = 0) as -> by lia. exists m. simpl. rewrite (advance_fields curas m u 0 Hr).
    rewrite !Z.add_0_r, !Z.sub_0_r. destruct u; simpl in *. split; [done|]. apply moved_nil.
  - rewrite Z.gtb_ltb. destruct (Z.ltb_spec 0 n); cycle 1.
    { assert (n = 0) as -> by lia. exists m. rewrite (advance_fields curas m u 0 Hr).
      rewrite !Z.add_0_r, !Z.sub_0_r. destruct u; simpl in *. split; [done|]. apply moved_nil. }
    set (amt := if 16 >? n then n else 16). assert (0 < amt <= 16 /\ amt <= n) as [Ha Ha'].
    { unfold amt. rewrite Z.gtb_ltb. destruct (Z.ltb_spec n 16); lia. }
    assert (ready curas m u amt) as Hra by (eapply ready_less; [done|lia]).
    destruct (uiomove_ok curas m (replicate 16 0) 0 amt u Hra) as (m1 & E & Hm1); [lia|simpl; lia|].
    rewrite Hrw in E, Hm1. rewrite E. run.
    change (replicate 16 0) with (replicate (Z.to_nat 16) 0) in Hm1. rewrite sub_zeros in Hm1 by lia.
    destruct (IH m1 (n - amt) (advance u amt)) as (m' & E' & Hm'); [|done|lia|].
    { apply (ready_rest curas m u amt _ _ (replicate (Z.to_nat amt) 0)); try lia; [|done].
      by replace (amt + (n - amt)) with n by lia. }
    exists m'. rewrite E'. split.
    + do 3 f_equal. pose proof (ready_rest curas m u amt (n - amt) m1 (replicate (Z.to_nat amt) 0)) as Hrr.
      rewrite (advance_fields curas m1 _ (n - amt)), (advance_fields curas m u amt Hra),
        (advance_fields curas m u n Hr).
      * simpl. f_equal; lia.
      * apply Hrr; try lia; [|done]. by replace (amt + (n - amt)) with n by lia.
    + replace (Z.to_nat n) with (Z.to_nat amt + Z.to_nat (n - amt))%nat by lia. rewrite replicate_add.
      apply (moved_app m u _ m1 (advance u amt)); [done|done|done|].
      rewrite (advance_fields curas m u amt Hra), length_replicate. simpl. lia.
Qed.

End Uio.

(** ** Witnesses *)
Import Copy Uio.

(** The user program has 16 bytes at address 4096: "hello" and zeros. *)
Definition ex_user (a : Z) : option Z :=
  if (4096 <=? a) && (a <? 4112) then
    Some (nth (Z.to_nat (a - 4096)) [104; 101; 108; 108; 111] 0)
  else None.
Definition ex_mach : mach := mk_mach (fun _ => 0) ex_user false.

Lemma copyin_correct_witness : exists b', copyin ex_mach 4096 (replicate 8 1) 2 5 = Done ((ex_mach, b'), Ok tt) /\
  sub b' 2 5 = [104; 101; 108; 108; 111].
Proof.
  destruct (copyin_correct ex_mach 4096 (replicate 8 1) 2 5) as (b' & r & E & _ & _ & Hr);
    [lia|lia|lia|simpl; lia|reflexivity|].
  destruct r as [u|e].
  - exists b'. destruct u. split; [exact E|]. destruct Hr as (_ & _ & ->). vm_compute. reflexivity.
  - exfalso. assert (H : is_Some (match copyin ex_mach 4096 (replicate 8 1) 2 5 with
      | Done (_, Ok _) => Some tt | _ => None end)) by (vm_compute; eexists; reflexivity).
    rewrite E in H. destruct H as [? H]. discriminate H.
Defined.

Lemma copyout_correct_witness : exists m', copyout ex_mach [7; 8; 9] 0 4100 3 = Done (m', Ok tt) /\
  bytes_at (umem m') 4100 3 = [Some 7; Some 8; Some 9].
Proof.
  destruct (copyout_correct ex_mach [7; 8; 9] 0 4100 3) as (m' & r & E & _ & _ & _ & Hr);
    [lia|lia|lia|simpl; lia|reflexivity|].
  destruct r as [u|e].
  - exists m'. destruct u. split; [exact E|]. destruct Hr as (_ & _ & ->). vm_compute. reflexivity.
  - exfalso. assert (H : is_Some (match copyout ex_mach [7; 8; 9] 0 4100 3 with
      | Done (_, Ok _) => Some tt | _ => None end)) by (vm_compute; eexists; reflexivity).
    rewrite E in H. destruct H as [? H]. discriminate H.
Defined.

Lemma copyinstr_correct_witness : exists b', copyinstr ex_mach 4096 (replicate 8 1) 0 8 = Done ((ex_mach, b'), Ok 6) /\
  ustring ex_mach 4096 6.
Proof.
  destruct (copyinstr_correct ex_mach 4096 (replicate 8 1) 0 8) as (b' & r & E & _ & _ & Hr);
    [lia|lia|lia|simpl; lia|reflexivity|].
  assert (r = Ok 6) as ->.
  { assert (H : match copyinstr ex_mach 4096 (replicate 8 1) 0 8 with
      | Done (_, r) => r = Ok 6 | _ => False end) by (vm_compute; reflexivity).
    rewrite E in H. exact H. }
  exists b'. split; [exact E|]. apply Hr.
Defined.

Lemma uiomove_correct_witness : exists m', uiomove (Some 1) ex_mach [1; 2; 3; 4] 1 3
    (mk_uio 4096 8 100 8 UIO_USERSPACE UIO_READ (Some 1))
  = Done ((m', [1; 2; 3; 4], mk_uio 4099 5 103 5 UIO_USERSPACE UIO_READ (Some 1)), Ok tt) /\
  moved ex_mach (mk_uio 4096 8 100 8 UIO_USERSPACE UIO_READ (Some 1)) [2; 3; 4] m'.
Proof.
  apply (uiomove_correct (Some 1) ex_mach [1; 2; 3; 4] 1 3
    (mk_uio 4096 8 100 8 UIO_USERSPACE UIO_READ (Some 1))); [|lia|simpl; lia].
  split; simpl; try reflexivity; try (unfold INT_MIN, INT_MAX; lia).
  split; [unfold USERTOP; lia|]. intros x Hx. assert (x = 4096 \/ x = 4097 \/ x = 4098) as H by lia.
  destruct H as [->|[->| ->]]; discriminate.
Defined.
