(* ===== verification/Lhd.v ===== *)
(** * Block devices and the disk driver ([kern/include/dev.h],
      [kern/dev/lamebus/lhd.c])

    [BlockDev] is the part of [struct device] the filesystem calls, with the
    laws it relies on for a transfer of one block; [Lhd] is the driver of the
    LAMEbus disk, which discharges them.  The card itself is a parameter: the
    sequence of status codes with which it ends its operations. *)

From Stdlib Require Import ZArith Lia Bool.
From stdpp Require Import base list numbers.
From S2P Require Import Prelude.
From S2P Require Import Uio.
Import Copy Uio.

(** ** The interface *)

Definition BLOCK : Z := 512.

Class BlockDev (D : Type) := {
  d_blocks : D -> Z;
  d_blocksize : D -> Z;
  d_io : option Z -> D -> mach -> uio -> exec ((D * mach * uio) * ret unit)
}.

(** Block [b] of the device; [reliable]: no operation fails from here on. *)
Class BlockDevOk (D : Type) {B : BlockDev D} := {
  block : D -> Z -> list Z;
  dev_inv : D -> Prop;
  reliable : D -> Prop;
  dev_size d : dev_inv d -> 0 <= d_blocks d < 2 ^ 22;
  block_length d b : dev_inv d -> length (block d b) = Z.to_nat BLOCK;
  d_read_ok cas d m u b : dev_inv d -> reliable d -> ready cas m u BLOCK -> uio_resid u = BLOCK ->
    rw u = UIO_READ -> 0 <= b < d_blocks d -> uio_offset u = b * BLOCK ->
    exists d' m', d_io cas d m u = Done ((d', m', advance u BLOCK), Ok tt) /\
      moved m u (block d b) m' /\ dev_inv d' /\ reliable d' /\ d_blocks d' = d_blocks d /\
      forall x, block d' x = block d x;
  d_write_ok cas d m u b : dev_inv d -> reliable d -> ready cas m u BLOCK -> uio_resid u = BLOCK ->
    rw u = UIO_WRITE -> 0 <= b < d_blocks d -> uio_offset u = b * BLOCK ->
    exists d', d_io cas d m u = Done ((d', m, advance u BLOCK), Ok tt) /\
      dev_inv d' /\ reliable d' /\ d_blocks d' = d_blocks d /\
      forall x, block d' x = if decide (x = b) then get_region m u BLOCK else block d x
}.

(** A device that never answers [EBUSY], which is the code the vnode layer uses
    for a vnode that is still referenced. *)
Class DevCalm (D : Type) {B : BlockDev D} := {
  calm : D -> Prop;
  d_io_calm cas d m u : calm d -> post (d_io cas d m u) (fun '((d', _, _), r) => calm d' /\ r <> Err EBUSY)
}.

Module Lhd.

Definition LHD_IDLE : Z := 0.
Definition LHD_WORKING : Z := 1.
Definition LHD_OK : Z := 4.
Definition LHD_INVSECT : Z := 12.
Definition LHD_MEDIA : Z := 20.
Definition LHD_ISWRITE : Z := 2.
Definition LHD_STATEMASK : Z := 0x1d.
Definition LHD_SECTSIZE : Z := 512.

(** The driver's [struct lhd_softc] and the card.  [card n] is the status with
    which the card ends its [n]th operation; [torn old new] is what a sector holds
    after a write of [new] over [old] that failed. *)
Record lhd : Type := mk_lhd {
  nsect : Z;
  sectors : Z -> list Z;
  card : nat -> Z;
  torn : list Z -> list Z -> list Z;
  ops : nat;
  lh_buf : list Z;
  lh_result : ret unit;
  lh_clear : Z;
  lh_done : Z
}.

Definition set_buf (d : lhd) b : lhd :=
  mk_lhd (nsect d) (sectors d) (card d) (torn d) (ops d) b (lh_result d) (lh_clear d) (lh_done d).
Definition set_sectors (d : lhd) s : lhd :=
  mk_lhd (nsect d) s (card d) (torn d) (ops d) (lh_buf d) (lh_result d) (lh_clear d) (lh_done d).
Definition set_ops (d : lhd) n : lhd :=
  mk_lhd (nsect d) (sectors d) (card d) (torn d) n (lh_buf d) (lh_result d) (lh_clear d) (lh_done d).
Definition set_result (d : lhd) r : lhd :=
  mk_lhd (nsect d) (sectors d) (card d) (torn d) (ops d) (lh_buf d) r (lh_clear d) (lh_done d).
Definition set_clear (d : lhd) n : lhd :=
  mk_lhd (nsect d) (sectors d) (card d) (torn d) (ops d) (lh_buf d) (lh_result d) n (lh_done d).
Definition set_done (d : lhd) n : lhd :=
  mk_lhd (nsect d) (sectors d) (card d) (torn d) (ops d) (lh_buf d) (lh_result d) (lh_clear d) n.

(** [P] and [V] on the driver's two semaphores, with no other thread about. *)
Definition P_clear (d : lhd) : exec lhd :=
  if lh_clear d >? 0 then Done (set_clear d (lh_clear d - 1)) else Halt Blocked.
Definition V_clear (d : lhd) : lhd := set_clear d (lh_clear d + 1).
Definition P_done (d : lhd) : exec lhd :=
  if lh_done d >? 0 then Done (set_done d (lh_done d - 1)) else Halt Blocked.

Definition lhd_code_to_errno (code : Z) : ret unit :=
  let c := Z.land code LHD_STATEMASK in
  if c =? LHD_OK then Ok tt
  else if c =? LHD_INVSECT then Err EINVAL
  else if c =? LHD_MEDIA then Err EIO
  else Err EAGAIN.

Definition lhd_iodone (d : lhd) (err : ret unit) : lhd := set_done (set_result d err) (lh_done d + 1).

(** The interrupt handler; [val] is what it reads from the status register. *)
Definition lhd_irq (d : lhd) (val : Z) : lhd :=
  let c := Z.land val LHD_STATEMASK in
  if (c =? LHD_IDLE) || (c =? LHD_WORKING) then d
  else if (c =? LHD_OK) || (c =? LHD_INVSECT) || (c =? LHD_MEDIA) then
    lhd_iodone d (lhd_code_to_errno val)
  else d.

(** The card performs the operation started by writing its registers, and
    interrupts. *)
Definition card_op (d : lhd) (sector : Z) (r : uio_rw) : lhd :=
  let code := card d (ops d) in
  let d1 := set_ops d (S (ops d)) in
  let ok := Z.land code LHD_STATEMASK =? LHD_OK in
  let d2 :=
    match r with
    | UIO_READ => if ok then set_buf d1 (sectors d sector) else d1
    | UIO_WRITE =>
        set_sectors d1 (fun x => if x =? sector then
          (if ok then lh_buf d else torn d (sectors d sector) (lh_buf d)) else sectors d x)
    end in
  lhd_irq d2 code.

Definition lhd_open : ret unit := Ok tt.
Definition lhd_close : ret unit := Ok tt.
Definition lhd_ioctl : ret unit := Err EIOCTL.

(** One round of the loop of [lhd_io]. *)
Definition lhd_sector (cas : option Z) (d : lhd) (m : mach) (u : uio) (sector : Z)
  : exec ((lhd * mach * uio) * ret unit) :=
  d1 ← P_clear d;
  '((d2, m1, u1), r) ←
    match rw u with
    | UIO_WRITE =>
        '((m1, b1, u1), r) ← uiomove cas m (lh_buf d1) 0 LHD_SECTSIZE u;
        Done ((set_buf d1 b1, m1, u1), r)
    | UIO_READ => Done ((d1, m, u), Ok tt)
    end;
  match r with
  | Err e => Done ((V_clear d2, m1, u1), Err e)
  | Ok _ =>
      d3 ← P_done (card_op d2 sector (rw u));
      match lh_result d3, rw u with
      | Ok _, UIO_READ =>
          '((m2, b2, u2), r) ← uiomove cas m1 (lh_buf d3) 0 LHD_SECTSIZE u1;
          Done ((V_clear (set_buf d3 b2), m2, u2), r)
      | r, _ => Done ((V_clear d3, m1, u1), r)
      end
  end.

Fixpoint lhd_loop (n : nat) (cas : option Z) (d : lhd) (m : mach) (u : uio) (sector : Z)
  : exec ((lhd * mach * uio) * ret unit) :=
  match n with
  | O => Done ((d, m, u), Ok tt)
  | S n' =>
      '((d1, m1, u1), r) ← lhd_sector cas d m u sector;
      match r with
      | Err e => Done ((d1, m1, u1), Err e)
      | Ok _ => lhd_loop n' cas d1 m1 u1 (u32 (sector + 1))
      end
  end.

Definition lhd_io (cas : option Z) (d : lhd) (m : mach) (u : uio)
  : exec ((lhd * mach * uio) * ret unit) :=
  let sector := u32 (Z.quot (uio_offset u) LHD_SECTSIZE) in
  let sectoff := u32 (Z.rem (uio_offset u) LHD_SECTSIZE) in
  let len := uio_resid u / LHD_SECTSIZE in
  let lenoff := uio_resid u mod LHD_SECTSIZE in
  if negb (sectoff =? 0) || negb (lenoff =? 0) then Done ((d, m, u), Err EINVAL)
  else if u32 (sector + len) >? nsect d then Done ((d, m, u), Err EINVAL)
  else lhd_loop (Z.to_nat len) cas d m u sector.

#[export] Instance lhd_dev : BlockDev lhd := {|
  d_blocks := nsect;
  d_blocksize := fun _ => LHD_SECTSIZE;
  d_io := lhd_io
|}.

(** ** The laws *)

Record lhd_inv (d : lhd) : Prop := {
  li_size : 0 <= nsect d < 2 ^ 22;
  li_sectors s : length (sectors d s) = Z.to_nat BLOCK;
  li_torn a b : length a = Z.to_nat BLOCK -> length b = Z.to_nat BLOCK ->
    length (torn d a b) = Z.to_nat BLOCK;
  li_buf : length (lh_buf d) = Z.to_nat BLOCK;
  li_clear : lh_clear d = 1;
  li_done : lh_done d = 0
}.

Definition lhd_reliable (d : lhd) : Prop :=
  forall n, (ops d <= n)%nat -> Z.land (card d n) LHD_STATEMASK = LHD_OK.

Lemma sub_all b n : length b = Z.to_nat n -> sub b 0 n = b.
Proof. intros H. unfold sub. rewrite drop_0, <- H. apply firstn_all. Qed.

Lemma splice_all b l : length l = length b -> splice b 0 l = l.
Proof. intros H. unfold splice. simpl. rewrite H, drop_all, app_nil_r. done. Qed.

(** What the card and the handler do with one operation. *)
Lemma card_op_ok d sector r : lhd_reliable d ->
  card_op d sector r = set_done (set_result
    (match r with
     | UIO_READ => set_buf (set_ops d (S (ops d))) (sectors d sector)
     | UIO_WRITE => set_sectors (set_ops d (S (ops d)))
                      (fun x => if x =? sector then lh_buf d else sectors d x)
     end) (Ok tt)) (lh_done d + 1).
Proof.
  intros Hrel. assert (Z.land (card d (ops d)) LHD_STATEMASK = LHD_OK) as E by (apply Hrel; lia).
  unfold card_op, lhd_irq, lhd_code_to_errno. rewrite E. by destruct r.
Qed.

(** A request for one sector that lies on the disk. *)
Lemma lhd_io_one cas d m u b : uio_resid u = BLOCK -> 0 <= b < nsect d -> nsect d < 2 ^ 22 ->
  uio_offset u = b * BLOCK ->
  lhd_io cas d m u = '((d1, m1, u1), r) ← lhd_sector cas d m u b;
                     Done ((d1, m1, u1), match r with Err e => Err e | Ok _ => Ok tt end).
Proof.
  intros Hr Hb Hn Ho. unfold lhd_io, LHD_SECTSIZE, BLOCK in *. rewrite Hr, Ho.
  rewrite Z.quot_mul, Z.rem_mul by lia. rewrite (u32_small b) by lia.
  change (u32 0 =? 0) with true. change (512 mod 512 =? 0) with true. change (512 / 512) with 1.
  rewrite u32_small by lia. cbn [negb orb]. case_bool. case_bool. change (Z.to_nat 1) with 1%nat. cbn [lhd_loop].
  destruct (lhd_sector cas d m u b) as [[[[d1 m1] u1] [v|e]]|]; done.
Qed.

Lemma lhd_read_ok cas d m u b : lhd_inv d -> lhd_reliable d -> ready cas m u BLOCK ->
  uio_resid u = BLOCK -> rw u = UIO_READ -> 0 <= b < nsect d -> uio_offset u = b * BLOCK ->
  exists d' m', lhd_io cas d m u = Done ((d', m', advance u BLOCK), Ok tt) /\
    moved m u (sectors d b) m' /\ lhd_inv d' /\ lhd_reliable d' /\ nsect d' = nsect d /\
    forall x, sectors d' x = sectors d x.
Proof.
  intros Hinv Hrel Hr Hres Hrw Hb Ho. pose proof Hinv as [].
  rewrite (lhd_io_one cas d m u b) by (done || lia). unfold lhd_sector, P_clear. rewrite li_clear0, Hrw. run.
  change (1 >? 0) with true. run. rewrite card_op_ok by done. unfold P_done. simpl. rewrite li_done0.
  change (0 + 1 >? 0) with true. run. simpl.
  destruct (uiomove_ok cas m (sectors d b) 0 LHD_SECTSIZE u Hr) as (m' & E & Hm'); [lia|..].
  { rewrite li_sectors0. done. }
  rewrite Hrw in E, Hm'. rewrite E. run. eexists _, m'. split; [done|]. split.
  - by rewrite (sub_all _ LHD_SECTSIZE) in Hm' by apply li_sectors0.
  - split; [split; simpl; done || apply li_sectors0|]. split; [|done]. intros n Hn. apply Hrel. simpl in Hn. lia.
Qed.

Lemma lhd_write_ok cas d m u b : lhd_inv d -> lhd_reliable d -> ready cas m u BLOCK ->
  uio_resid u = BLOCK -> rw u = UIO_WRITE -> 0 <= b < nsect d -> uio_offset u = b * BLOCK ->
  exists d', lhd_io cas d m u = Done ((d', m, advance u BLOCK), Ok tt) /\
    lhd_inv d' /\ lhd_reliable d' /\ nsect d' = nsect d /\
    forall x, sectors d' x = if decide (x = b) then get_region m u BLOCK else sectors d x.
Proof.
  intros Hinv Hrel Hr Hres Hrw Hb Ho. pose proof Hinv as [].
  rewrite (lhd_io_one cas d m u b) by (done || lia). unfold lhd_sector, P_clear. rewrite li_clear0, Hrw.
  change (1 >? 0) with true. run. simpl.
  destruct (uiomove_ok cas m (lh_buf d) 0 LHD_SECTSIZE u Hr) as (m' & E & Hm'); [lia|..].
  { rewrite li_buf0. done. }
  rewrite Hrw in E, Hm'. subst m'. rewrite E. run. rewrite card_op_ok by done. unfold P_done. simpl.
  rewrite li_done0. change (0 + 1 >? 0) with true. run. simpl.
  rewrite splice_all by (by rewrite length_get_region, li_buf0).
  eexists. split; [done|]. split; [|split; [|split; [done|]]].
  - split; simpl; try done; [|apply length_get_region]. intros s. destruct (s =? b); [|done].
    apply length_get_region.
  - intros n Hn. apply Hrel. simpl in Hn. lia.
  - intros x. simpl. destruct (Z.eqb_spec x b), (decide (x = b)); done.
Qed.

#[export] Instance lhd_dev_ok : BlockDevOk lhd := {|
  block := sectors;
  dev_inv := lhd_inv;
  reliable := lhd_reliable;
  dev_size d H := li_size d H;
  block_length d b H := li_sectors d H b;
  d_read_ok := lhd_read_ok;
  d_write_ok := lhd_write_ok
|}.

(** The driver's results are those of [lhd_code_to_errno] and of [uiomove]. *)
Definition lhd_calm (d : lhd) : Prop := lh_result d <> Err EBUSY.

Lemma lhd_irq_calm d v : lhd_calm d -> lhd_calm (lhd_irq d v).
Proof.
  intros H. unfold lhd_irq. repeat case_match; [done| |done]. unfold lhd_calm, lhd_code_to_errno. simpl.
  by repeat case_match.
Qed.

Lemma card_op_calm d s r : lhd_calm d -> lhd_calm (card_op d s r).
Proof. intros H. unfold card_op. apply lhd_irq_calm. by repeat case_match. Qed.

Lemma move_calm cas m b off n u : post (uiomove cas m b off n u) (fun '(_, r) => r <> Err EBUSY).
Proof. eapply post_mono; [apply uiomove_faults|]. intros [s r] [-> | ->]; done. Qed.
#[local] Hint Resolve move_calm : post.

Lemma lhd_sector_calm cas d m u s : lhd_calm d ->
  post (lhd_sector cas d m u s) (fun '((d', _, _), r) => lhd_calm d' /\ r <> Err EBUSY).
Proof.
  intros H. unfold lhd_sector, P_clear, P_done. vc.
  all: try match goal with |- context [card_op ?x ?y ?r] => assert (lhd_calm (card_op x y r)) by by apply card_op_calm end.
  all: unfold lhd_calm in *; simpl in *; split; congruence.
Qed.

Lemma lhd_io_calm cas d m u : lhd_calm d ->
  post (lhd_io cas d m u) (fun '((d', _, _), r) => lhd_calm d' /\ r <> Err EBUSY).
Proof.
  intros H. unfold lhd_io. destruct (_ || _); [by apply post_Done|]. destruct (_ >? _); [by apply post_Done|].
  generalize (u32 (Z.quot (uio_offset u) LHD_SECTSIZE)) as sector. generalize (Z.to_nat (uio_resid u / LHD_SECTSIZE)) as n.
  intros n. revert d m u H. induction n as [|n IH]; intros d m u H sector; simpl; [by apply post_Done|].
  apply post_bind. eapply post_mono; [by apply lhd_sector_calm|]. intros [[[d1 m1] u1] r] [H1 H2].
  destruct r; [by apply IH|by apply post_Done].
Qed.

#[export] Instance lhd_dev_calm : DevCalm lhd := {| calm := lhd_calm; d_io_calm := lhd_io_calm |}.

End Lhd.
