(* ===== verification/Vnode.v ===== *)
(** * The vnode interface ([kern/include/vnode.h], [kern/include/fs.h])

    [Vnodes] is the table of operations through which the filesystem-independent
    code works on files, devices and filesystems.  Objects are named by their
    addresses; [W] is everything that lies behind the interface.  [VnodesOk]
    states what the VFS layer relies on: how every operation changes the
    reference counts.

    [vn_count] is the number of references to a vnode that somebody holds, 0 for
    an address without a vnode.  [vn_warnings] counts the warnings the kernel
    has printed about vnodes that could not be reclaimed: such a vnode stays
    around with a reference that nobody holds.  [vn_ok] is what the objects
    behind the interface rely on themselves. *)

From Stdlib Require Import ZArith Lia Bool.
From stdpp Require Import base list numbers.
From S2P Require Import Prelude.
From S2P Require Import Uio.
Import Copy Uio.

(** ** The operations *)

Class Vnodes (W : Type) := {
  vn_count : W -> Z -> Z;
  vn_warnings : W -> Z;
  vn_fs : W -> Z -> option Z;
  vn_ok : W -> Prop;

  vop_incref : W -> Z -> exec W;
  vop_decref : W -> Z -> exec W;
  vop_incopen : W -> Z -> exec W;
  vop_decopen : W -> Z -> exec W;

  vop_open : W -> Z -> Z -> exec (W * ret unit);
  vop_read : option Z -> W -> mach -> uio -> Z -> exec ((W * mach * uio) * ret unit);
  vop_write : option Z -> W -> mach -> uio -> Z -> exec ((W * mach * uio) * ret unit);
  vop_readlink : option Z -> W -> mach -> uio -> Z -> exec ((W * mach * uio) * ret unit);
  vop_namefile : option Z -> W -> mach -> uio -> Z -> exec ((W * mach * uio) * ret unit);
  vop_gettype : W -> Z -> exec (ret Z);
  vop_truncate : W -> Z -> Z -> exec (W * ret unit);

  vop_creat : (Z -> bool) -> W -> Z -> list Z -> bool -> exec (W * ret Z);
  vop_symlink : W -> Z -> list Z -> list Z -> exec (W * ret unit);
  vop_mkdir : W -> Z -> list Z -> exec (W * ret unit);
  vop_link : W -> Z -> list Z -> Z -> exec (W * ret unit);
  vop_remove : (Z -> bool) -> W -> Z -> list Z -> exec (W * ret unit);
  vop_rmdir : W -> Z -> list Z -> exec (W * ret unit);
  vop_rename : (Z -> bool) -> W -> Z -> list Z -> Z -> list Z -> exec (W * ret unit);
  vop_lookup : (Z -> bool) -> W -> Z -> list Z -> exec (W * ret Z);
  vop_lookparent : (Z -> bool) -> W -> Z -> list Z -> Z -> exec (W * ret (Z * list Z));

  fs_sync : W -> Z -> exec (W * ret unit);
  fs_getvolname : W -> Z -> option (list Z);
  fs_getroot : (Z -> bool) -> W -> Z -> exec (W * Z);
  fs_unmount : W -> Z -> exec (W * ret unit)
}.

(** What [vfslist.c] needs of [device.c]: [dev_create_vnode], and [kfree] of the
    vnode on an error path. *)
Class Devices (W : Type) := {
  dev_create_vnode : (Z -> bool) -> W -> option Z -> exec (W * option Z);
  dev_free_vnode : W -> Z -> exec W
}.

(** ** Reference accounting *)

(** One reference to [v]; no reference. *)
Definition one (v x : Z) : Z := if decide (x = v) then 1 else 0.
Definition none (x : Z) : Z := 0.

Section balance.
Context {W : Type} {V : Vnodes W}.

(** From [w] to [w'] the counts changed by [d].  No reference got lost, and none
    was left over unless there was a warning. *)
Record bal (w : W) (d : Z -> Z) (w' : W) : Prop := {
  bal_warn : vn_warnings w <= vn_warnings w';
  bal_safe x : vn_count w x + d x <= vn_count w' x;
  bal_exact x : vn_ok w -> vn_warnings w' = vn_warnings w -> vn_count w' x = vn_count w x + d x;
  bal_ok : vn_ok w -> vn_ok w'
}.

Lemma bal_none w : bal w none w.
Proof. split; unfold none; intros; done || lia. Qed.

Lemma bal_trans w1 w2 w3 d1 d2 d : bal w1 d1 w2 -> bal w2 d2 w3 -> (forall x, d x = d1 x + d2 x) -> bal w1 d w3.
Proof.
  intros [] [] Hd. split; [lia|intros x; rewrite Hd; specialize (bal_safe0 x); specialize (bal_safe1 x); lia| |auto].
  intros x Hok E. rewrite Hd, bal_exact1, bal_exact0 by (auto || lia). lia.
Qed.

Lemma bal_ext w w' d d' : bal w d w' -> (forall x, d' x = d x) -> bal w d' w'.
Proof. intros [] Hd. split; [lia|intros x; rewrite Hd; auto|intros x Hok E; rewrite Hd; auto|done]. Qed.

Lemma bal_zero w d : (forall x, d x = 0) -> bal w d w.
Proof. intros H. apply (bal_ext _ _ none); [apply bal_none|done]. Qed.

Lemma bal_step w1 w2 w3 d1 d : bal w1 d1 w2 -> bal w2 (fun x => d x - d1 x) w3 -> bal w1 d w3.
Proof. intros H1 H2. apply (bal_trans _ _ _ _ _ d H1 H2). intros x. cbn beta. lia. Qed.

End balance.

(** Follow the calls from the state before to the state after. *)
Ltac bal_chain :=
  repeat match goal with H : bal ?a _ _ |- bal ?a _ _ => apply (bal_step _ _ _ _ _ H); clear H end;
  apply bal_zero; intros ?; cbn; unfold none; lia.

(** What an operation hands back when it succeeds. *)
Definition gives {A} (f : A -> Z) (r : ret A) : Z -> Z :=
  match r with Ok a => one (f a) | Err _ => none end.

(** ** The laws *)

Class VnodesOk (W : Type) {V : Vnodes W} := {
  incref_ok w v : post (vop_incref w v) (bal w (one v));
  decref_ok w v : 0 < vn_count w v -> post (vop_decref w v) (bal w (fun x => - one v x));
  incopen_ok w v : post (vop_incopen w v) (bal w none);
  decopen_ok w v : post (vop_decopen w v) (bal w none);
  open_ok w v fl : post (vop_open w v fl) (fun '(w', _) => bal w none w');
  read_ok cas w m u v : post (vop_read cas w m u v) (fun '((w', _, _), _) => bal w none w');
  write_ok cas w m u v : post (vop_write cas w m u v) (fun '((w', _, _), _) => bal w none w');
  readlink_ok cas w m u v : post (vop_readlink cas w m u v) (fun '((w', _, _), _) => bal w none w');
  namefile_ok cas w m u v : post (vop_namefile cas w m u v) (fun '((w', _, _), _) => bal w none w');
  truncate_ok w v len : post (vop_truncate w v len) (fun '(w', _) => bal w none w');
  creat_ok mem w d n ex : post (vop_creat mem w d n ex) (fun '(w', r) => bal w (gives id r) w');
  symlink_ok w d c n : post (vop_symlink w d c n) (fun '(w', _) => bal w none w');
  mkdir_ok w d n : post (vop_mkdir w d n) (fun '(w', _) => bal w none w');
  link_ok w d n v : post (vop_link w d n v) (fun '(w', _) => bal w none w');
  remove_ok mem w d n : post (vop_remove mem w d n) (fun '(w', _) => bal w none w');
  rmdir_ok w d n : post (vop_rmdir w d n) (fun '(w', _) => bal w none w');
  rename_ok mem w d1 n1 d2 n2 : post (vop_rename mem w d1 n1 d2 n2) (fun '(w', _) => bal w none w');
  lookup_ok mem w d p : post (vop_lookup mem w d p) (fun '(w', r) => bal w (gives id r) w');
  lookparent_ok mem w d p n : post (vop_lookparent mem w d p n) (fun '(w', r) => bal w (gives fst r) w');
  sync_ok w fs : post (fs_sync w fs) (fun '(w', _) => bal w none w');
  getroot_ok mem w fs : post (fs_getroot mem w fs) (fun '(w', v) => bal w (one v) w');
  unmount_ok w fs : post (fs_unmount w fs) (fun '(w', _) => bal w none w')
}.

#[export] Hint Resolve incref_ok incopen_ok decopen_ok open_ok read_ok write_ok readlink_ok namefile_ok truncate_ok
  creat_ok remove_ok rename_ok symlink_ok mkdir_ok link_ok rmdir_ok lookup_ok lookparent_ok sync_ok getroot_ok unmount_ok : post.

Class DevicesOk (W : Type) {V : Vnodes W} {DV : Devices W} := {
  create_vnode_ok mem w d :
    post (dev_create_vnode mem w d) (fun '(w', o) => bal w none w' /\ forall v, o = Some v -> vn_count w' v = 0);
  create_vnode_names mem w d :
    post (dev_create_vnode mem w d) (fun '(w', _) => forall fs, fs_getvolname w' fs = fs_getvolname w fs);
  free_vnode_ok w v : vn_count w v = 0 -> post (dev_free_vnode w v) (bal w none);
  free_vnode_names w v : post (dev_free_vnode w v) (fun w' => forall fs, fs_getvolname w' fs = fs_getvolname w fs)
}.
#[export] Hint Resolve create_vnode_ok : post.
