(* ===== verification/Sfs.v ===== *)
(** * The SFS filesystem ([kern/fs/sfs/sfs_io.c], [sfs_vnode.c], [sfs_fs.c])

    The on-disk structures and their layout in a block, the block and inode
    operations, file and directory I/O, and the vnode and filesystem
    operations, over any block device.

    The machine is big-endian.  A buffer that a function passes down by address
    (a block, an inode, a directory entry) is an object of its own: the kernel
    memory of that transfer is this object, at address 0.  The static buffers
    of [sfs_bmap], [sfs_partialio] and [sfs_truncate] are overwritten before
    they are read, so they are local here.  Vnode locks protect the counters
    between threads and are left out. *)

From Stdlib Require Import ZArith Lia Bool.
From stdpp Require Import base list numbers gmap.
From S2P Require Import Prelude.
From S2P Require Import Array.
From S2P Require Import Bitmap.
From S2P Require Import Uio.
From S2P Require Import Lhd.
Import Copy Uio.

(** ** Words in blocks *)

Definition be32 (z : Z) : list Z := [z / 2 ^ 24 mod 256; z / 2 ^ 16 mod 256; z / 2 ^ 8 mod 256; z mod 256].
Definition be16 (z : Z) : list Z := [z / 2 ^ 8 mod 256; z mod 256].

Definition byte_at (b : list Z) (i : Z) : Z := default 0 (b !! Z.to_nat i).
Definition of_be32 (b : list Z) (i : Z) : Z :=
  byte_at b i * 2 ^ 24 + byte_at b (i + 1) * 2 ^ 16 + byte_at b (i + 2) * 2 ^ 8 + byte_at b (i + 3).
Definition of_be16 (b : list Z) (i : Z) : Z := byte_at b i * 2 ^ 8 + byte_at b (i + 1).

(** [n] words from offset [off]. *)
Definition words_at (b : list Z) (off n : Z) : list Z := (fun i => of_be32 b (off + 4 * i)) <$> seqZ 0 n.
Definition put_words (l : list Z) : list Z := l ≫= be32.

Lemma length_put_words l : length (put_words l) = (4 * length l)%nat.
Proof. unfold put_words. induction l as [|w l IH]; [done|]. rewrite bind_cons, length_app, IH. simpl. lia. Qed.

Module Sfs.

Definition SFS_MAGIC : Z := 0xabadf001.
Definition SFS_BLOCKSIZE : Z := 512.
Definition SFS_VOLNAME_SIZE : Z := 32.
Definition SFS_NDIRECT : Z := 15.
Definition SFS_DBPERIDB : Z := 128.
Definition SFS_NAMELEN : Z := 60.
Definition SFS_SB_LOCATION : Z := 0.
Definition SFS_ROOT_LOCATION : Z := 1.
Definition SFS_MAP_LOCATION : Z := 2.
Definition SFS_NOINO : Z := 0.
Definition SFS_BLOCKBITS : Z := SFS_BLOCKSIZE * 8.

(** [SFS_ROUNDUP], [SFS_BITMAPSIZE] and [SFS_BITBLOCKS], in 32 bits. *)
Definition SFS_BITMAPSIZE (nblocks : Z) : Z :=
  u32 (u32 (u32 (nblocks + SFS_BLOCKBITS) - 1) / SFS_BLOCKBITS * SFS_BLOCKBITS).
Definition SFS_BITBLOCKS (nblocks : Z) : Z := SFS_BITMAPSIZE nblocks / SFS_BLOCKBITS.

Definition SFS_TYPE_INVAL : Z := 0.
Definition SFS_TYPE_FILE : Z := 1.
Definition SFS_TYPE_DIR : Z := 2.

Record sfs_super : Type := mk_super {
  sp_magic : Z;
  sp_nblocks : Z;
  sp_volname : list Z;
  reserved : list Z
}.

Record sfs_inode : Type := mk_inode {
  sfi_size : Z;
  sfi_type : Z;
  sfi_linkcount : Z;
  sfi_direct : list Z;
  sfi_indirect : Z;
  sfi_waste : list Z
}.

Record sfs_dir : Type := mk_dir { sfd_ino : Z; sfd_name : list Z }.

Definition enc_super (s : sfs_super) : list Z :=
  be32 (sp_magic s) ++ be32 (sp_nblocks s) ++ sp_volname s ++ put_words (reserved s).
Definition dec_super (b : list Z) : sfs_super :=
  mk_super (of_be32 b 0) (of_be32 b 4) (sub b 8 SFS_VOLNAME_SIZE) (words_at b 40 118).

Definition enc_inode (i : sfs_inode) : list Z :=
  be32 (sfi_size i) ++ be16 (sfi_type i) ++ be16 (sfi_linkcount i) ++ put_words (sfi_direct i)
  ++ be32 (sfi_indirect i) ++ put_words (sfi_waste i).
Definition dec_inode (b : list Z) : sfs_inode :=
  mk_inode (of_be32 b 0) (of_be16 b 4) (of_be16 b 6) (words_at b 8 SFS_NDIRECT) (of_be32 b 68)
    (words_at b 72 110).

Definition enc_dir (d : sfs_dir) : list Z := be32 (sfd_ino d) ++ sfd_name d.
Definition dec_dir (b : list Z) : sfs_dir := mk_dir (of_be32 b 0) (sub b 4 SFS_NAMELEN).

(** [sizeof(struct sfs_dir)] *)
Definition DIRSIZE : Z := 64.

Inductive vnode_ops : Set := sfs_fileops | sfs_dirops.

Record sfs_vnode : Type := mk_sv {
  vn_refcount : Z;
  vn_opencount : Z;
  vn_ops : vnode_ops;
  sv_i : sfs_inode;
  sv_ino : Z;
  sv_dirty : bool
}.

Definition set_direct (i : sfs_inode) x : sfs_inode :=
  mk_inode (sfi_size i) (sfi_type i) (sfi_linkcount i) x (sfi_indirect i) (sfi_waste i).
Definition set_indirect (i : sfs_inode) x : sfs_inode :=
  mk_inode (sfi_size i) (sfi_type i) (sfi_linkcount i) (sfi_direct i) x (sfi_waste i).
Definition set_size (i : sfs_inode) x : sfs_inode :=
  mk_inode x (sfi_type i) (sfi_linkcount i) (sfi_direct i) (sfi_indirect i) (sfi_waste i).
Definition set_type (i : sfs_inode) x : sfs_inode :=
  mk_inode (sfi_size i) x (sfi_linkcount i) (sfi_direct i) (sfi_indirect i) (sfi_waste i).
Definition set_linkcount (i : sfs_inode) x : sfs_inode :=
  mk_inode (sfi_size i) (sfi_type i) x (sfi_direct i) (sfi_indirect i) (sfi_waste i).

(** Assigning to the inode and marking it dirty. *)
Definition dirty_inode (sv : sfs_vnode) (i : sfs_inode) : sfs_vnode :=
  mk_sv (vn_refcount sv) (vn_opencount sv) (vn_ops sv) i (sv_ino sv) true.
Definition set_dirty (sv : sfs_vnode) (b : bool) : sfs_vnode :=
  mk_sv (vn_refcount sv) (vn_opencount sv) (vn_ops sv) (sv_i sv) (sv_ino sv) b.
Definition set_refcount (sv : sfs_vnode) n : sfs_vnode :=
  mk_sv n (vn_opencount sv) (vn_ops sv) (sv_i sv) (sv_ino sv) (sv_dirty sv).

Section sfs.
Context {D : Type} {B : BlockDev D}.

Record sfs_fs : Type := mk_fs {
  super : sfs_super;
  sfs_superdirty : bool;
  sfs_device : D;
  sfs_vnodes : Array.array (P := Z);
  sfs_freemap : Bitmap.bitmap;
  sfs_freemapdirty : bool;
  vnodes : gmap Z sfs_vnode;
  warnings : Z
}.

Definition set_device (f : sfs_fs) x : sfs_fs :=
  mk_fs (super f) (sfs_superdirty f) x (sfs_vnodes f) (sfs_freemap f) (sfs_freemapdirty f) (vnodes f) (warnings f).
Definition set_freemap (f : sfs_fs) x (dirty : bool) : sfs_fs :=
  mk_fs (super f) (sfs_superdirty f) (sfs_device f) (sfs_vnodes f) x dirty (vnodes f) (warnings f).
Definition set_table (f : sfs_fs) x : sfs_fs :=
  mk_fs (super f) (sfs_superdirty f) (sfs_device f) x (sfs_freemap f) (sfs_freemapdirty f) (vnodes f) (warnings f).
Definition set_vnodes (f : sfs_fs) x : sfs_fs :=
  mk_fs (super f) (sfs_superdirty f) (sfs_device f) (sfs_vnodes f) (sfs_freemap f) (sfs_freemapdirty f) x (warnings f).
Definition set_warnings (f : sfs_fs) x : sfs_fs :=
  mk_fs (super f) (sfs_superdirty f) (sfs_device f) (sfs_vnodes f) (sfs_freemap f) (sfs_freemapdirty f) (vnodes f) x.
Definition set_superdirty (f : sfs_fs) x : sfs_fs :=
  mk_fs (super f) x (sfs_device f) (sfs_vnodes f) (sfs_freemap f) (sfs_freemapdirty f) (vnodes f) (warnings f).

(** ** Block I/O ([sfs_io.c]) *)

(** Ten retries of an operation that ends in [EIO]. *)
Fixpoint rwblock_try (retries : nat) (cas : option Z) (d : D) (m : mach) (u : uio)
  : exec ((D * mach * uio) * ret unit) :=
  '((d1, m1, u1), r) ← d_io cas d m u;
  match r with
  | Err EINVAL => Halt Panic
  | Err EIO =>
      match retries with
      | O => Done ((d1, m1, u1), Err EIO)
      | S n => rwblock_try n cas d1 m1 u1
      end
  | r => Done ((d1, m1, u1), r)
  end.

Definition sfs_rwblock (cas : option Z) (d : D) (m : mach) (u : uio)
  : exec ((D * mach * uio) * ret unit) := rwblock_try 10 cas d m u.

(** The memory that holds one kernel object, at address 0. *)
Definition kobj (data : list Z) : mach := mk_mach (fun a => byte_at data a) (fun _ => None) false.

Definition SFSUIO (block : Z) (r : uio_rw) : exec uio :=
  pos ← int (s32 block * SFS_BLOCKSIZE);
  Done (mk_kuio 0 SFS_BLOCKSIZE pos r).

(** [sfs_rblock] hands back the block it read. *)
Definition dev_rblock (d : D) (blk : Z) : exec (D * ret (list Z)) :=
  ku ← SFSUIO blk UIO_READ;
  '((d1, m1, _), r) ← sfs_rwblock None d (kobj []) ku;
  Done (d1, match r with Ok _ => Ok (bytes_at (kmem m1) 0 SFS_BLOCKSIZE) | Err e => Err e end).

Definition sfs_rblock (f : sfs_fs) (blk : Z) : exec (sfs_fs * ret (list Z)) :=
  '(d, r) ← dev_rblock (sfs_device f) blk; Done (set_device f d, r).

Definition sfs_wblock (f : sfs_fs) (data : list Z) (blk : Z) : exec (sfs_fs * ret unit) :=
  ku ← SFSUIO blk UIO_WRITE;
  '((d1, _, _), r) ← sfs_rwblock None (sfs_device f) (kobj data) ku;
  Done (set_device f d1, r).

(** ** Blocks and inodes *)

Definition zero_block : list Z := replicate (Z.to_nat SFS_BLOCKSIZE) 0.

Definition sfs_clearblock (f : sfs_fs) (blk : Z) : exec (sfs_fs * ret unit) := sfs_wblock f zero_block blk.

Definition sfs_sync_inode (f : sfs_fs) (sv : sfs_vnode) : exec ((sfs_fs * sfs_vnode) * ret unit) :=
  if sv_dirty sv then
    '(f1, r) ← sfs_wblock f (enc_inode (sv_i sv)) (sv_ino sv);
    match r with
    | Err e => Done ((f1, sv), Err e)
    | Ok _ => Done ((f1, set_dirty sv false), Ok tt)
    end
  else Done ((f, sv), Ok tt).

Definition sfs_balloc (f : sfs_fs) : exec (sfs_fs * ret Z) :=
  '(fm, r) ← Bitmap.bitmap_alloc (sfs_freemap f);
  match r with
  | Err e => Done (set_freemap f fm (sfs_freemapdirty f), Err e)
  | Ok blk =>
      let f1 := set_freemap f fm true in
      if blk >=? sp_nblocks (super f) then Halt Panic
      else try! f2, _u <- sfs_clearblock f1 blk; Done (f2, Ok blk)
  end.

Definition sfs_bfree (f : sfs_fs) (blk : Z) : exec sfs_fs :=
  fm ← Bitmap.bitmap_unmark (sfs_freemap f) blk; Done (set_freemap f fm true).

Definition sfs_bused (f : sfs_fs) (blk : Z) : exec bool :=
  if blk >=? sp_nblocks (super f) then Halt Panic
  else x ← Bitmap.bitmap_isset (sfs_freemap f) blk; Done (negb (x =? 0)).

(** [if (block != 0 && !sfs_bused(sfs, block)) panic(...)] *)
Definition check_used {A} (f : sfs_fs) (blk : Z) (k : exec A) : exec A :=
  if blk =? 0 then k else b ← sfs_bused f blk; if (b : bool) then k else Halt Panic.

(** A call that leaves the vnode alone. *)
Definition with_sv {A} (sv : sfs_vnode) (m : exec (sfs_fs * ret A)) : exec ((sfs_fs * sfs_vnode) * ret A) :=
  '(f, r) ← m; Done ((f, sv), r).

Definition bmap_direct (f : sfs_fs) (sv : sfs_vnode) (fileblock : Z) (doalloc : bool)
  : exec ((sfs_fs * sfs_vnode) * ret Z) :=
  blk ← rd (sfi_direct (sv_i sv)) fileblock;
  try! '(f1, sv1), blk1 <-
    (if (blk =? 0) && doalloc then
       try! '(f1, sv1), b <- with_sv sv (sfs_balloc f);
       l ← wr (sfi_direct (sv_i sv1)) fileblock b;
       Done ((f1, dirty_inode sv1 (set_direct (sv_i sv1) l)), Ok b)
     else Done ((f, sv), Ok blk));
  check_used f1 blk1 (Done ((f1, sv1), Ok blk1)).

(** The indirect block's number and contents, allocated if need be. *)
Definition bmap_indirect (f : sfs_fs) (sv : sfs_vnode) : exec ((sfs_fs * sfs_vnode) * ret (Z * list Z)) :=
  let idblock := sfi_indirect (sv_i sv) in
  if idblock =? 0 then
    try! '(f1, sv1), b <- with_sv sv (sfs_balloc f);
    Done ((f1, dirty_inode sv1 (set_indirect (sv_i sv1) b)), Ok (b, replicate (Z.to_nat SFS_DBPERIDB) 0))
  else
    try! '(f1, sv1), data <- with_sv sv (sfs_rblock f idblock);
    Done ((f1, sv1), Ok (idblock, words_at data 0 SFS_DBPERIDB)).

Definition sfs_bmap (f : sfs_fs) (sv : sfs_vnode) (fileblock : Z) (doalloc : bool)
  : exec ((sfs_fs * sfs_vnode) * ret Z) :=
  if fileblock <? SFS_NDIRECT then bmap_direct f sv fileblock doalloc
  else
    let fb := fileblock - SFS_NDIRECT in
    let idnum := fb / SFS_DBPERIDB in
    let idoff := fb mod SFS_DBPERIDB in
    if idnum >? 0 then Done ((f, sv), Err EINVAL)
    else if (sfi_indirect (sv_i sv) =? 0) && negb doalloc then Done ((f, sv), Ok 0)
    else
      try! '(f1, sv1), id <- bmap_indirect f sv;
      let '(idblock, idbuf) := id in
      blk ← rd idbuf idoff;
      try! '(f2, sv2), blk2 <-
        (if (blk =? 0) && doalloc then
           try! '(f2, sv2), b <- with_sv sv1 (sfs_balloc f1);
           idbuf' ← wr idbuf idoff b;
           try! '(f3, sv3), _u <- with_sv sv2 (sfs_wblock f2 (put_words idbuf') idblock);
           Done ((f3, sv3), Ok b)
         else Done ((f1, sv1), Ok blk));
      check_used f2 blk2 (Done ((f2, sv2), Ok blk2)).

(** ** File I/O *)

(** The filesystem, the vnode, the memory and the [uio] of a transfer. *)
Record ios : Type := mk_ios { i_fs : sfs_fs; i_sv : sfs_vnode; i_m : mach; i_u : uio }.

Definition with_fsv {A} (s : ios) (m : exec ((sfs_fs * sfs_vnode) * ret A)) : exec (ios * ret A) :=
  '((f, sv), r) ← m; Done (mk_ios f sv (i_m s) (i_u s), r).
Definition with_fs {A} (s : ios) (m : exec (sfs_fs * ret A)) : exec (ios * ret A) :=
  '(f, r) ← m; Done (mk_ios f (i_sv s) (i_m s) (i_u s), r).

Definition set_offset_resid (u : uio) (off resid : Z) : uio :=
  mk_uio (iov_base u) (iov_len u) off resid (uio_segflg u) (rw u) (uio_space u).

Definition is_write (u : uio) : bool := bool_decide (rw u = UIO_WRITE).

(** [uio->uio_offset / SFS_BLOCKSIZE], converted to [u_int32_t]. *)
Definition fileblock_of (u : uio) : Z := u32 (Z.quot (uio_offset u) SFS_BLOCKSIZE).

Definition sfs_partialio (cas : option Z) (s : ios) (skipstart len : Z) : exec (ios * ret unit) :=
  let doalloc := is_write (i_u s) in
  assert! u32 (skipstart + len) <=? SFS_BLOCKSIZE;
  try! s1, diskblock <- with_fsv s (sfs_bmap (i_fs s) (i_sv s) (fileblock_of (i_u s)) doalloc);
  try! s2, iobuf <-
    (if diskblock =? 0 then assert! negb (is_write (i_u s1)); Done (s1, Ok zero_block)
     else with_fs s1 (sfs_rblock (i_fs s1) diskblock));
  '((m3, iobuf3, u3), r) ← uiomove cas (i_m s2) iobuf skipstart len (i_u s2);
  let s3 := mk_ios (i_fs s2) (i_sv s2) m3 u3 in
  match r with
  | Err e => Done (s3, Err e)
  | Ok _ =>
      if is_write u3 then with_fs s3 (sfs_wblock (i_fs s3) iobuf3 diskblock) else Done (s3, Ok tt)
  end.

Definition sfs_blockio (cas : option Z) (s : ios) : exec (ios * ret unit) :=
  let doalloc := is_write (i_u s) in
  try! s1, diskblock <- with_fsv s (sfs_bmap (i_fs s) (i_sv s) (fileblock_of (i_u s)) doalloc);
  let u := i_u s1 in
  if diskblock =? 0 then
    assert! negb (is_write u);
    '((m2, u2), r) ← uiomovezeros cas (i_m s1) SFS_BLOCKSIZE u;
    Done (mk_ios (i_fs s1) (i_sv s1) m2 u2, r)
  else
    let saveoff := uio_offset u in
    let diskoff := s32 (u32 (diskblock * SFS_BLOCKSIZE)) in
    assert! uio_resid u >=? SFS_BLOCKSIZE;
    let saveres := s32 (uio_resid u) in
    let diskres := SFS_BLOCKSIZE in
    '((d2, m2, u2), r) ← sfs_rwblock cas (sfs_device (i_fs s1)) (i_m s1) (set_offset_resid u diskoff diskres);
    o1 ← int (uio_offset u2 - diskoff);
    o2 ← int (o1 + saveoff);
    Done (mk_ios (set_device (i_fs s1) d2) (i_sv s1) m2
            (set_offset_resid u2 o2 (u32 (uio_resid u2 - diskres + saveres))), r).

Fixpoint blockio_loop (n : nat) (cas : option Z) (s : ios) : exec (ios * ret unit) :=
  match n with
  | O => Done (s, Ok tt)
  | S n' => try! s1, _u <- sfs_blockio cas s; blockio_loop n' cas s1
  end.

(** The whole blocks and the trailing partial block. *)
Definition io_aligned (cas : option Z) (s : ios) : exec (ios * ret unit) :=
  if uio_resid (i_u s) =? 0 then Done (s, Ok tt)
  else
    assert! Z.rem (uio_offset (i_u s)) SFS_BLOCKSIZE =? 0;
    let nblocks := uio_resid (i_u s) / SFS_BLOCKSIZE in
    try! s1, _u <- blockio_loop (Z.to_nat nblocks) cas s;
    assert! uio_resid (i_u s1) <? SFS_BLOCKSIZE;
    if uio_resid (i_u s1) >? 0 then sfs_partialio cas s1 0 (uio_resid (i_u s1)) else Done (s1, Ok tt).

(** From the leading partial block to the label [out]. *)
Definition sfs_io_body (cas : option Z) (s : ios) : exec (ios * ret unit) :=
  let blkoff := u32 (Z.rem (uio_offset (i_u s)) SFS_BLOCKSIZE) in
  try! s1, _u <-
    (if negb (blkoff =? 0) then
       let len := u32 (SFS_BLOCKSIZE - blkoff) in
       let len := if len >? uio_resid (i_u s) then uio_resid (i_u s) else len in
       sfs_partialio cas s blkoff len
     else Done (s, Ok tt));
  io_aligned cas s1.

Definition sfs_io (cas : option Z) (s : ios) : exec (ios * ret unit) :=
  let u := i_u s in
  let size := s32 (sfi_size (sv_i (i_sv s))) in
  let endpos := s32 (uio_offset u + uio_resid u) in
  if negb (is_write u) && (uio_offset u >=? size) then Done (s, Ok tt)
  else
    let extraresid := if negb (is_write u) && (endpos >? size) then u32 (endpos - size) else 0 in
    assert! (extraresid =? 0) || (uio_resid u >? extraresid);
    let s0 := mk_ios (i_fs s) (i_sv s) (i_m s)
                (set_offset_resid u (uio_offset u) (uio_resid u - extraresid)) in
    '(s1, result) ← sfs_io_body cas s0;
    let u1 := i_u s1 in
    let sv1 := if is_write u1 && (uio_offset u1 >? s32 (sfi_size (sv_i (i_sv s1))))
               then dirty_inode (i_sv s1) (set_size (sv_i (i_sv s1)) (u32 (uio_offset u1)))
               else i_sv s1 in
    Done (mk_ios (i_fs s1) sv1 (i_m s1)
            (set_offset_resid u1 (uio_offset u1) (u32 (uio_resid u1 + extraresid))), result).

(** ** Directories *)

Definition sfs_readdir (f : sfs_fs) (sv : sfs_vnode) (slot : Z)
  : exec ((sfs_fs * sfs_vnode) * ret sfs_dir) :=
  let actualpos := s32 (u32 (slot * DIRSIZE)) in
  '(s, r) ← sfs_io None (mk_ios f sv (kobj []) (mk_kuio 0 DIRSIZE actualpos UIO_READ));
  match r with
  | Err e => Done ((i_fs s, i_sv s), Err e)
  | Ok _ =>
      if uio_resid (i_u s) >? 0 then Halt Panic
      else Done ((i_fs s, i_sv s), Ok (dec_dir (bytes_at (kmem (i_m s)) 0 DIRSIZE)))
  end.

Definition sfs_writedir (f : sfs_fs) (sv : sfs_vnode) (sd : sfs_dir) (slot : Z)
  : exec ((sfs_fs * sfs_vnode) * ret unit) :=
  assert! slot >=? 0;
  let actualpos := s32 (u32 (slot * DIRSIZE)) in
  '(s, r) ← sfs_io None (mk_ios f sv (kobj (enc_dir sd)) (mk_kuio 0 DIRSIZE actualpos UIO_WRITE));
  match r with
  | Err e => Done ((i_fs s, i_sv s), Err e)
  | Ok _ => if uio_resid (i_u s) >? 0 then Halt Panic else Done ((i_fs s, i_sv s), Ok tt)
  end.

Definition sfs_dir_nentries (sv : sfs_vnode) : exec Z :=
  assert! sfi_type (sv_i sv) =? SFS_TYPE_DIR;
  let size := s32 (sfi_size (sv_i sv)) in
  if negb (u32 size mod DIRSIZE =? 0) then Halt Panic else Done (s32 (u32 size / DIRSIZE)).

(** The bytes of a string in a buffer, up to the terminator. *)
Fixpoint cstr (b : list Z) : list Z :=
  match b with [] => [] | c :: b' => if c =? 0 then [] else c :: cstr b' end.

(** What [sfs_dir_findname] has found so far: the matching entry's slot and inode
    number, and the last empty slot. *)
Record finding : Type := mk_finding { found : option (Z * Z); emptyslot : option Z }.

Definition findname_entry (name : list Z) (i : Z) (tsd : sfs_dir) (a : finding) : exec finding :=
  if sfd_ino tsd =? SFS_NOINO then Done (mk_finding (found a) (Some i))
  else
    n ← wr (sfd_name tsd) (SFS_NAMELEN - 1) 0;
    if bool_decide (cstr n = name) then
      assert! match found a with None => true | Some _ => false end;
      Done (mk_finding (Some (i, sfd_ino tsd)) (emptyslot a))
    else Done a.

Fixpoint findname_loop (n : nat) (f : sfs_fs) (sv : sfs_vnode) (name : list Z) (i : Z) (a : finding)
  : exec ((sfs_fs * sfs_vnode) * ret finding) :=
  match n with
  | O => Done ((f, sv), Ok a)
  | S n' =>
      try! '(f1, sv1), tsd <- sfs_readdir f sv i;
      a1 ← findname_entry name i tsd a;
      findname_loop n' f1 sv1 name (i + 1) a1
  end.

(** The out-parameters are set on [ENOENT] too, so they are the result. *)
Definition sfs_dir_findname (f : sfs_fs) (sv : sfs_vnode) (name : list Z)
  : exec ((sfs_fs * sfs_vnode) * ret finding) :=
  n ← sfs_dir_nentries sv;
  findname_loop (Z.to_nat n) f sv name 0 (mk_finding None None).

(** [bzero(&sd, sizeof(sd)); sd.sfd_ino = ino; strcpy(sd.sfd_name, name);] *)
Definition new_entry (ino : Z) (name : list Z) : sfs_dir :=
  mk_dir ino (name ++ replicate (Z.to_nat SFS_NAMELEN - length name) 0).

Definition sfs_dir_link (f : sfs_fs) (sv : sfs_vnode) (name : list Z) (ino : Z)
  : exec ((sfs_fs * sfs_vnode) * ret Z) :=
  try! '(f1, sv1), fd <- sfs_dir_findname f sv name;
  match found fd with
  | Some _ => Done ((f1, sv1), Err EEXIST)
  | None =>
      if Z.of_nat (length name) + 1 >? SFS_NAMELEN then Done ((f1, sv1), Err ENAMETOOLONG)
      else
        slot ← match emptyslot fd with Some i => Done i | None => sfs_dir_nentries sv1 end;
        try! '(f2, sv2), _u <- sfs_writedir f1 sv1 (new_entry ino name) slot;
        Done ((f2, sv2), Ok slot)
  end.

Definition sfs_dir_unlink (f : sfs_fs) (sv : sfs_vnode) (slot : Z)
  : exec ((sfs_fs * sfs_vnode) * ret unit) :=
  sfs_writedir f sv (mk_dir SFS_NOINO (replicate (Z.to_nat SFS_NAMELEN) 0)) slot.

(** ** Vnodes *)

(** Dereferencing a pointer to a vnode, and storing it back. *)
Definition get_sv (f : sfs_fs) (p : Z) : exec sfs_vnode :=
  match vnodes f !! p with Some sv => Done sv | None => Halt Undefined end.
Definition put_sv (f : sfs_fs) (p : Z) (sv : sfs_vnode) : sfs_fs := set_vnodes f (<[p := sv]> (vnodes f)).

(** A call on the vnode at [p] that may update it. *)
Definition on_sv {A} (f : sfs_fs) (p : Z)
    (call : sfs_fs -> sfs_vnode -> exec ((sfs_fs * sfs_vnode) * ret A)) : exec (sfs_fs * ret A) :=
  sv ← get_sv f p;
  '((f1, sv1), r) ← call f sv;
  Done (put_sv f1 p sv1, r).

Definition sizeof_sfs_vnode : Z := 544.

(** [VOP_INCREF] *)
Definition vnode_incref (f : sfs_fs) (p : Z) : exec sfs_fs :=
  sv ← get_sv f p;
  n ← int (vn_refcount sv + 1);
  Done (put_sv f p (set_refcount sv n)).

(** The search of the vnode table. *)
Fixpoint loadvnode_find (n : nat) (f : sfs_fs) (ino i : Z) : exec (option Z) :=
  match n with
  | O => Done None
  | S n' =>
      c ← Array.array_getguy (sfs_vnodes f) i;
      match c with
      | None => Halt Undefined
      | Some p =>
          sv ← get_sv f p;
          used ← sfs_bused f (sv_ino sv);
          if negb used then Halt Panic
          else if sv_ino sv =? ino then Done (Some p)
          else loadvnode_find n' f ino (i + 1)
      end
  end.

(** [mem] as for [kmalloc]; [VOP_INIT] allocates the lock and its name. *)
Definition sfs_loadvnode (mem : Z -> bool) (f : sfs_fs) (ino forcetype : Z) : exec (sfs_fs * ret Z) :=
  hit ← loadvnode_find (Z.to_nat (Array.array_getnum (sfs_vnodes f))) f ino 0;
  match hit with
  | Some p =>
      assert! forcetype =? SFS_TYPE_INVAL;
      f1 ← vnode_incref f p;
      Done (f1, Ok p)
  | None =>
      if negb (mem sizeof_sfs_vnode) then Done (f, Err ENOMEM)
      else
        used ← sfs_bused f ino;
        if negb used then Halt Panic
        else
          try! f1, data <- sfs_rblock f ino;
          let i0 := dec_inode data in
          let force := negb (forcetype =? SFS_TYPE_INVAL) in
          assert! negb force || (sfi_type i0 =? SFS_TYPE_INVAL);
          let i1 := if force then set_type i0 forcetype else i0 in
          ops ← (if sfi_type i1 =? SFS_TYPE_FILE then Done sfs_fileops
                 else if sfi_type i1 =? SFS_TYPE_DIR then Done sfs_dirops
                 else Halt Panic);
          if negb (mem 8 && mem 16) then Done (f1, Err ENOMEM)
          else
            let p := fresh ({[0]} ∪ dom (vnodes f1)) in
            let sv := mk_sv 1 0 ops i1 ino force in
            '(tab, r) ← Array.array_add mem (sfs_vnodes f1) p;
            match r with
            | Err e => Done (set_table f1 tab, Err e)
            | Ok _ => Done (put_sv (set_table f1 tab) p sv, Ok p)
            end
  end.

Definition sfs_getroot (mem : Z -> bool) (f : sfs_fs) : exec (sfs_fs * Z) :=
  '(f1, r) ← sfs_loadvnode mem f SFS_ROOT_LOCATION SFS_TYPE_INVAL;
  match r with Ok p => Done (f1, p) | Err _ => Halt Panic end.

Definition sfs_lookonce (mem : Z -> bool) (f : sfs_fs) (dir : Z) (name : list Z)
  : exec (sfs_fs * ret (Z * Z)) :=
  try! f1, fd <- on_sv f dir (fun f sv => sfs_dir_findname f sv name);
  match found fd with
  | None => Done (f1, Err ENOENT)
  | Some (slot, ino) =>
      try! f2, p <- sfs_loadvnode mem f1 ino SFS_TYPE_INVAL;
      sv ← get_sv f2 p;
      if sfi_linkcount (sv_i sv) =? 0 then Halt Panic else Done (f2, Ok (p, slot))
  end.

Definition sfs_makeobj (mem : Z -> bool) (f : sfs_fs) (type : Z) : exec (sfs_fs * ret Z) :=
  try! f1, ino <- sfs_balloc f;
  sfs_loadvnode mem f1 ino type.

(** ** Truncation *)

Fixpoint truncate_direct (n : nat) (f : sfs_fs) (sv : sfs_vnode) (i blocklen : Z)
  : exec (sfs_fs * sfs_vnode) :=
  match n with
  | O => Done (f, sv)
  | S n' =>
      blk ← rd (sfi_direct (sv_i sv)) i;
      if (i >=? blocklen) && negb (blk =? 0) then
        f1 ← sfs_bfree f blk;
        l ← wr (sfi_direct (sv_i sv)) i 0;
        truncate_direct n' f1 (dirty_inode sv (set_direct (sv_i sv) l)) (i + 1) blocklen
      else truncate_direct n' f sv (i + 1) blocklen
  end.

(** The loop over the indirect block: [hasnonzero] and [iddirty]. *)
Fixpoint truncate_indirect (n : nat) (f : sfs_fs) (idbuf : list Z) (j blocklen : Z)
    (hasnonzero iddirty : bool) : exec (sfs_fs * list Z * bool * bool) :=
  match n with
  | O => Done (f, idbuf, hasnonzero, iddirty)
  | S n' =>
      blk ← rd idbuf j;
      if (blocklen <? SFS_NDIRECT + j) && negb (blk =? 0) then
        f1 ← sfs_bfree f blk;
        idbuf1 ← wr idbuf j 0;
        truncate_indirect n' f1 idbuf1 (j + 1) blocklen hasnonzero true
      else truncate_indirect n' f idbuf (j + 1) blocklen (hasnonzero || negb (blk =? 0)) iddirty
  end.

(** [DIVROUNDUP(len, SFS_BLOCKSIZE)] on an [off_t]. *)
Definition blocklen_of (len : Z) : exec Z :=
  a ← int (len + SFS_BLOCKSIZE); Done (u32 (Z.quot (a - 1) SFS_BLOCKSIZE)).

Definition sfs_truncate (f : sfs_fs) (sv : sfs_vnode) (len : Z) : exec ((sfs_fs * sfs_vnode) * ret unit) :=
  blocklen ← blocklen_of len;
  '(f1, sv1) ← truncate_direct (Z.to_nat SFS_NDIRECT) f sv 0 blocklen;
  let idblock := sfi_indirect (sv_i sv1) in
  let highblock := SFS_NDIRECT + SFS_DBPERIDB - 1 in
  try! '(f2, sv2), _u <-
    (if (blocklen <? highblock) && negb (idblock =? 0) then
       try! '(f2, sv2), data <- with_sv sv1 (sfs_rblock f1 idblock);
       '(f3, idbuf, hasnonzero, iddirty) ←
         truncate_indirect (Z.to_nat SFS_DBPERIDB) f2 (words_at data 0 SFS_DBPERIDB) 0 blocklen false false;
       if negb hasnonzero then
         f4 ← sfs_bfree f3 idblock;
         Done ((f4, dirty_inode sv2 (set_indirect (sv_i sv2) 0)), Ok tt)
       else if (iddirty : bool) then with_sv sv2 (sfs_wblock f3 (put_words idbuf) idblock)
       else Done ((f3, sv2), Ok tt)
     else Done ((f1, sv1), Ok tt));
  Done ((f2, dirty_inode sv2 (set_size (sv_i sv2) (u32 len))), Ok tt).

(** [VOP_TRUNCATE]: the directory's table has [ISDIR]. *)
Definition VOP_TRUNCATE (f : sfs_fs) (sv : sfs_vnode) (len : Z) : exec ((sfs_fs * sfs_vnode) * ret unit) :=
  match vn_ops sv with
  | sfs_fileops => sfs_truncate f sv len
  | sfs_dirops => Done ((f, sv), Err EISDIR)
  end.

(** ** Reclaiming *)

Fixpoint reclaim_find (n : nat) (f : sfs_fs) (p i : Z) : exec (option Z) :=
  match n with
  | O => Done None
  | S n' =>
      c ← Array.array_getguy (sfs_vnodes f) i;
      if bool_decide (c = Some p) then Done (Some i) else reclaim_find n' f p (i + 1)
  end.

Definition sfs_reclaim (f : sfs_fs) (p : Z) : exec (sfs_fs * ret unit) :=
  sv ← get_sv f p;
  if negb (vn_refcount sv =? 1) then
    assert! vn_refcount sv >? 1;
    Done (put_sv f p (set_refcount sv (vn_refcount sv - 1)), Err EBUSY)
  else
    try! f1, _u <-
      (if sfi_linkcount (sv_i sv) =? 0 then on_sv f p (fun f sv => VOP_TRUNCATE f sv 0)
       else Done (f, Ok tt));
    try! f2, _u <- on_sv f1 p sfs_sync_inode;
    sv2 ← get_sv f2 p;
    f3 ← (if sfi_linkcount (sv_i sv2) =? 0 then sfs_bfree f2 (sv_ino sv2) else Done f2);
    ix ← reclaim_find (Z.to_nat (Array.array_getnum (sfs_vnodes (f3 : sfs_fs)))) f3 p 0;
    match (ix : option Z) with
    | None => Halt Panic
    | Some ix =>
        tab ← Array.array_remove (sfs_vnodes f3) ix;
        (* VOP_KILL *)
        assert! vn_refcount sv2 =? 1;
        assert! vn_opencount sv2 =? 0;
        Done (set_vnodes (set_table f3 tab) (delete p (vnodes f3)), Ok tt)
    end.

(** [kprintf("vfs: Warning: ...")]: [warnings] counts the messages. *)
Definition warn (f : sfs_fs) : sfs_fs := set_warnings f (warnings f + 1).

(** [VOP_DECREF]; an error of [VOP_RECLAIM] is only reported on the console. *)
Definition vnode_decref (f : sfs_fs) (p : Z) : exec sfs_fs :=
  sv ← get_sv f p;
  assert! vn_refcount sv >? 0;
  if vn_refcount sv >? 1 then Done (put_sv f p (set_refcount sv (vn_refcount sv - 1)))
  else
    '(f1, r) ← sfs_reclaim f p;
    Done match r with Ok _ | Err EBUSY => f1 | Err _ => warn f1 end.

(** ** Operations on the directory *)

(** [f->sv_i.sfi_linkcount += delta; f->sv_dirty = 1;] ([u_int16_t]) *)
Definition add_links (f : sfs_fs) (p delta : Z) : exec sfs_fs :=
  sv ← get_sv f p;
  Done (put_sv f p (dirty_inode sv (set_linkcount (sv_i sv) (u16 (sfi_linkcount (sv_i sv) + delta))))).

Definition sfs_creat (mem : Z -> bool) (f : sfs_fs) (dir : Z) (name : list Z) (excl : bool)
  : exec (sfs_fs * ret Z) :=
  try! f1, fd <- on_sv f dir (fun f sv => sfs_dir_findname f sv name);
  match found fd with
  | Some (_, ino) =>
      if excl then Done (f1, Err EEXIST) else sfs_loadvnode mem f1 ino SFS_TYPE_INVAL
  | None =>
      try! f2, p <- sfs_makeobj mem f1 SFS_TYPE_FILE;
      newguy ← get_sv f2 p;
      '(f3, r) ← on_sv f2 dir (fun f sv => sfs_dir_link f sv name (sv_ino newguy));
      match r with
      | Err e => f4 ← vnode_decref f3 p; Done (f4, Err e)
      | Ok _ => f4 ← add_links f3 p 1; Done (f4, Ok p)
      end
  end.

Definition sfs_link (f : sfs_fs) (dir : Z) (name : list Z) (file : Z) : exec (sfs_fs * ret unit) :=
  g ← get_sv f file;
  try! f1, _u <- on_sv f dir (fun f sv => sfs_dir_link f sv name (sv_ino g));
  f2 ← add_links f1 file 1;
  Done (f2, Ok tt).

Definition sfs_remove (mem : Z -> bool) (f : sfs_fs) (dir : Z) (name : list Z) : exec (sfs_fs * ret unit) :=
  try! f1, v <- sfs_lookonce mem f dir name;
  let '(victim, slot) := v in
  '(f2, r) ← on_sv f1 dir (fun f sv => sfs_dir_unlink f sv slot);
  f3 ← match r with
       | Ok _ =>
           sv ← get_sv f2 victim;
           assert! sfi_linkcount (sv_i sv) >? 0;
           add_links f2 victim (-1)
       | Err _ => Done f2
       end;
  f4 ← vnode_decref f3 victim;
  Done (f4, r).

Definition sfs_rename (mem : Z -> bool) (f : sfs_fs) (d1 : Z) (n1 : list Z) (d2 : Z) (n2 : list Z)
  : exec (sfs_fs * ret unit) :=
  assert! d1 =? d2;
  dsv ← get_sv f d1;
  assert! sv_ino dsv =? SFS_ROOT_LOCATION;
  try! f1, g <- sfs_lookonce mem f d1 n1;
  let '(g1, slot1) := g in
  gsv ← get_sv f1 g1;
  assert! sfi_type (sv_i gsv) =? SFS_TYPE_FILE;
  '(f2, r) ← on_sv f1 d1 (fun f sv => sfs_dir_link f sv n2 (sv_ino gsv));
  match r with
  | Err e => f3 ← vnode_decref f2 g1; Done (f3, Err e)
  | Ok slot2 =>
      f3 ← add_links f2 g1 1;
      '(f4, r) ← on_sv f3 d1 (fun f sv => sfs_dir_unlink f sv slot1);
      match r with
      | Ok _ =>
          sv4 ← get_sv f4 g1;
          assert! sfi_linkcount (sv_i sv4) >? 0;
          f5 ← add_links f4 g1 (-1);
          f6 ← vnode_decref f5 g1;
          Done (f6, Ok tt)
      | Err e =>
          (* puke_harder *)
          '(f5, r2) ← on_sv f4 d1 (fun f sv => sfs_dir_unlink f sv slot2);
          match r2 with
          | Err _ => Halt Panic
          | Ok _ =>
              sv5 ← get_sv f5 g1;
              let f6 := put_sv f5 g1 (mk_sv (vn_refcount sv5) (vn_opencount sv5) (vn_ops sv5)
                          (set_linkcount (sv_i sv5) (u16 (sfi_linkcount (sv_i sv5) - 1)))
                          (sv_ino sv5) (sv_dirty sv5)) in
              f7 ← vnode_decref f6 g1;
              Done (f7, Err e)
          end
      end
  end.

Definition sfs_lookup (mem : Z -> bool) (f : sfs_fs) (v : Z) (path : list Z) : exec (sfs_fs * ret Z) :=
  sv ← get_sv f v;
  if negb (sfi_type (sv_i sv) =? SFS_TYPE_DIR) then Done (f, Err ENOTDIR)
  else try! f1, r <- sfs_lookonce mem f v path; Done (f1, Ok (fst r)).

(** The path is copied into the caller's buffer of [buflen] bytes. *)
Definition sfs_lookparent (f : sfs_fs) (v : Z) (path : list Z) (buflen : Z) : exec (sfs_fs * ret (Z * list Z)) :=
  sv ← get_sv f v;
  if negb (sfi_type (sv_i sv) =? SFS_TYPE_DIR) then Done (f, Err ENOTDIR)
  else if Z.of_nat (length path) + 1 >? buflen then Done (f, Err ENAMETOOLONG)
  else f1 ← vnode_incref f v; Done (f1, Ok (v, path)).

Definition O_ACCMODE : Z := 3.
Definition O_APPEND : Z := 32.

Definition sfs_open (openflags : Z) : ret unit :=
  if negb (Z.land openflags O_APPEND =? 0) then Err EUNIMP else Ok tt.
Definition sfs_opendir (openflags : Z) : ret unit :=
  if negb (Z.land openflags O_ACCMODE =? 0) then Err EISDIR
  else if negb (Z.land openflags O_APPEND =? 0) then Err EISDIR else Ok tt.
Definition sfs_tryseek (pos : Z) : ret unit := if pos <? 0 then Err EINVAL else Ok tt.

Definition S_IFREG : Z := 4096.
Definition S_IFDIR : Z := 8192.

Definition sfs_gettype (sv : sfs_vnode) : exec Z :=
  let t := sfi_type (sv_i sv) in
  if t =? SFS_TYPE_FILE then Done S_IFREG
  else if t =? SFS_TYPE_DIR then Done S_IFDIR
  else Halt Panic.

Definition sfs_fsync (f : sfs_fs) (p : Z) : exec (sfs_fs * ret unit) := on_sv f p sfs_sync_inode.
Definition sfs_close (f : sfs_fs) (p : Z) : exec (sfs_fs * ret unit) := sfs_fsync f p.

(** [VOP_INCOPEN] and [VOP_DECOPEN]. *)
Definition set_opencount (sv : sfs_vnode) n : sfs_vnode :=
  mk_sv (vn_refcount sv) n (vn_ops sv) (sv_i sv) (sv_ino sv) (sv_dirty sv).
Definition vnode_incopen (f : sfs_fs) (p : Z) : exec sfs_fs :=
  sv ← get_sv f p;
  n ← int (vn_opencount sv + 1);
  Done (put_sv f p (set_opencount sv n)).
Definition vnode_decopen (f : sfs_fs) (p : Z) : exec sfs_fs :=
  sv ← get_sv f p;
  assert! vn_opencount sv >? 0;
  let opencount := vn_opencount sv - 1 in
  let f1 := put_sv f p (set_opencount sv opencount) in
  if opencount >? 0 then Done f1
  else
    '(f2, r) ← sfs_close f1 p;
    Done match r with Ok _ => f2 | Err _ => warn f2 end.

Definition sfs_read (cas : option Z) (s : ios) : exec (ios * ret unit) :=
  assert! bool_decide (rw (i_u s) = UIO_READ); sfs_io cas s.
Definition sfs_write (cas : option Z) (s : ios) : exec (ios * ret unit) :=
  assert! bool_decide (rw (i_u s) = UIO_WRITE); sfs_io cas s.
Definition sfs_ioctl : ret unit := Err EINVAL.
Definition sfs_mmap : ret unit := Err EUNIMP.

(** The fields of [struct stat] that are not zero: [st_mode] and [st_size]. *)
Definition sfs_stat (sv : sfs_vnode) : exec (Z * Z) :=
  mode ← sfs_gettype sv; Done (mode, s32 (sfi_size (sv_i sv))).

(** The empty path; the [uio] is not touched. *)
Definition sfs_namefile (sv : sfs_vnode) : exec (ret unit) :=
  assert! sv_ino sv =? SFS_ROOT_LOCATION; Done (Ok tt).

Definition sfs_notdir {A} : ret A := Err ENOTDIR.
Definition sfs_isdir {A} : ret A := Err EISDIR.
Definition sfs_unimp {A} : ret A := Err EUNIMP.

(** The tables [sfs_fileops] and [sfs_dirops]: one of two functions. *)
Definition vop {A} (ops : vnode_ops) (file dir : A) : A :=
  match ops with sfs_fileops => file | sfs_dirops => dir end.

Definition VOP_OPEN (ops : vnode_ops) (flags : Z) : ret unit := vop ops (sfs_open flags) (sfs_opendir flags).
Definition VOP_TRYSEEK (ops : vnode_ops) (pos : Z) : ret unit := vop ops (sfs_tryseek pos) sfs_unimp.
Definition VOP_READ (cas : option Z) (s : ios) : exec (ios * ret unit) :=
  vop (vn_ops (i_sv s)) (sfs_read cas s) (Done (s, sfs_isdir)).
Definition VOP_WRITE (cas : option Z) (s : ios) : exec (ios * ret unit) :=
  vop (vn_ops (i_sv s)) (sfs_write cas s) (Done (s, sfs_isdir)).

(** A call through the table of the vnode at [p]. *)
Definition vop_at {A} (f : sfs_fs) (p : Z) (file dir : exec (sfs_fs * ret A)) : exec (sfs_fs * ret A) :=
  sv ← get_sv f p; vop (vn_ops sv) file dir.

Definition VOP_CREAT (mem : Z -> bool) (f : sfs_fs) (dir : Z) (name : list Z) (excl : bool) : exec (sfs_fs * ret Z) :=
  vop_at f dir (Done (f, sfs_notdir)) (sfs_creat mem f dir name excl).
Definition VOP_LINK (f : sfs_fs) (dir : Z) (name : list Z) (file : Z) : exec (sfs_fs * ret unit) :=
  vop_at f dir (Done (f, sfs_notdir)) (sfs_link f dir name file).
Definition VOP_REMOVE (mem : Z -> bool) (f : sfs_fs) (dir : Z) (name : list Z) : exec (sfs_fs * ret unit) :=
  vop_at f dir (Done (f, sfs_notdir)) (sfs_remove mem f dir name).
Definition VOP_RENAME (mem : Z -> bool) (f : sfs_fs) (d1 : Z) (n1 : list Z) (d2 : Z) (n2 : list Z) : exec (sfs_fs * ret unit) :=
  vop_at f d1 (Done (f, sfs_notdir)) (sfs_rename mem f d1 n1 d2 n2).
Definition VOP_LOOKUP (mem : Z -> bool) (f : sfs_fs) (v : Z) (path : list Z) : exec (sfs_fs * ret Z) :=
  vop_at f v (Done (f, sfs_notdir)) (sfs_lookup mem f v path).
Definition VOP_LOOKPARENT (f : sfs_fs) (v : Z) (path : list Z) (buflen : Z) : exec (sfs_fs * ret (Z * list Z)) :=
  vop_at f v (Done (f, sfs_notdir)) (sfs_lookparent f v path buflen).

(** ** The filesystem ([sfs_fs.c]) *)

(** Sector [j] of the bitmap data. *)
Fixpoint mapio_read (n : nat) (f : sfs_fs) (j : Z) : exec (sfs_fs * ret unit) :=
  match n with
  | O => Done (f, Ok tt)
  | S n' =>
      try! f1, data <- sfs_rblock f (SFS_MAP_LOCATION + j);
      let fm := sfs_freemap f1 in
      mapio_read n' (set_freemap f1 (Bitmap.mk_bitmap (Bitmap.nbits fm)
        (splice (Bitmap.v fm) (j * SFS_BLOCKSIZE) data)) (sfs_freemapdirty f1)) (j + 1)
  end.

Fixpoint mapio_write (n : nat) (f : sfs_fs) (j : Z) : exec (sfs_fs * ret unit) :=
  match n with
  | O => Done (f, Ok tt)
  | S n' =>
      try! f1, _u <- sfs_wblock f (sub (Bitmap.bitmap_getdata (sfs_freemap f)) (j * SFS_BLOCKSIZE) SFS_BLOCKSIZE)
                       (SFS_MAP_LOCATION + j);
      mapio_write n' f1 (j + 1)
  end.

Definition sfs_mapio (f : sfs_fs) (r : uio_rw) : exec (sfs_fs * ret unit) :=
  let mapsize := SFS_BITBLOCKS (sp_nblocks (super f)) in
  match r with
  | UIO_READ => mapio_read (Z.to_nat mapsize) f 0
  | UIO_WRITE => mapio_write (Z.to_nat mapsize) f 0
  end.

(** Errors of the single vnodes are ignored. *)
Fixpoint sync_vnodes (n : nat) (f : sfs_fs) (i : Z) : exec sfs_fs :=
  match n with
  | O => Done f
  | S n' =>
      c ← Array.array_getguy (sfs_vnodes f) i;
      match c with
      | None => Halt Undefined
      | Some p => '(f1, _) ← sfs_fsync f p; sync_vnodes n' f1 (i + 1)
      end
  end.

Definition sfs_sync (f : sfs_fs) : exec (sfs_fs * ret unit) :=
  f1 ← sync_vnodes (Z.to_nat (Array.array_getnum (sfs_vnodes f))) f 0;
  try! f2, _u <-
    (if sfs_freemapdirty f1 then
       try! f2, _u <- sfs_mapio f1 UIO_WRITE; Done (set_freemap f2 (sfs_freemap f2) false, Ok tt)
     else Done (f1, Ok tt));
  if sfs_superdirty f2 then
    try! f3, _u <- sfs_wblock f2 (enc_super (super f2)) SFS_SB_LOCATION; Done (set_superdirty f3 false, Ok tt)
  else Done (f2, Ok tt).

Definition sfs_getvolname (f : sfs_fs) : list Z := cstr (sp_volname (super f)).

Definition sfs_unmount (f : sfs_fs) : exec (ret unit) :=
  if Array.array_getnum (sfs_vnodes f) >? 0 then Done (Err EBUSY)
  else
    assert! negb (sfs_superdirty f);
    assert! negb (sfs_freemapdirty f);
    Done (Ok tt).

(** [sizeof(struct sfs_fs)] *)
Definition sizeof_sfs_fs : Z := 552.

Definition sfs_domount (mem : Z -> bool) (d : D) : exec (D * ret sfs_fs) :=
  if negb (d_blocksize d =? SFS_BLOCKSIZE) then Done (d, Err ENXIO)
  else if negb (mem sizeof_sfs_fs) then Done (d, Err ENOMEM)
  else
    match Array.array_create mem with
    | None => Done (d, Err ENOMEM)
    | Some tab =>
        '(d1, r) ← dev_rblock d SFS_SB_LOCATION;
        match r with
        | Err e => Done (d1, Err e)
        | Ok data =>
            let sb := dec_super data in
            if negb (sp_magic sb =? SFS_MAGIC) then Done (d1, Err EINVAL)
            else
              vol ← wr (sp_volname sb) (SFS_VOLNAME_SIZE - 1) 0;
              let sb := mk_super (sp_magic sb) (sp_nblocks sb) vol (reserved sb) in
              fm ← Bitmap.bitmap_create mem (SFS_BITMAPSIZE (sp_nblocks sb));
              match fm with
              | None => Done (d1, Err ENOMEM)
              | Some fm =>
                  '(f, r) ← sfs_mapio (mk_fs sb false d1 tab fm false ∅ 0) UIO_READ;
                  Done (sfs_device f, match r with Ok _ => Ok f | Err e => Err e end)
              end
        end
    end.

End sfs.

Arguments sfs_fs D : clear implicits.
Arguments ios D : clear implicits.
End Sfs.
