(* ===== verification/SfsFile.v ===== *)
(** * SFS: files as sequences of bytes

    What the blocks of an inode mean, and that block mapping and file I/O of
    [Sfs] read and write exactly these bytes, on a device whose operations do not
    fail. *)

From Stdlib Require Import ZArith Lia Bool.
From stdpp Require Import base list numbers gmap.
From S2P Require Import Prelude.
From S2P Require Import Bitmap.
From S2P Require Import Uio.
From S2P Require Import Lhd.
From S2P Require Import Sfs.
Import Copy Uio.

Module SfsFile.
Import Sfs.

(** ** Words *)

Definition is_byte (z : Z) : Prop := 0 <= z < 256.
Definition is_word (z : Z) : Prop := 0 <= z < 2 ^ 32.

Lemma byte_at_app_l b c i : 0 <= i < Z.of_nat (length b) -> byte_at (b ++ c) i = byte_at b i.
Proof. intros. unfold byte_at. by rewrite lookup_app_l by lia. Qed.

Lemma byte_at_app_r b c i : Z.of_nat (length b) <= i -> byte_at (b ++ c) i = byte_at c (i - Z.of_nat (length b)).
Proof. intros. unfold byte_at. rewrite lookup_app_r by lia. do 2 f_equal. lia. Qed.

Lemma be32_parts w : is_word w ->
  w / 2 ^ 24 mod 256 * 2 ^ 24 + w / 2 ^ 16 mod 256 * 2 ^ 16 + w / 2 ^ 8 mod 256 * 2 ^ 8 + w mod 256 = w.
Proof. unfold is_word. intros. zlia. Qed.

Lemma byte_at_put_words l k w j : l !! k = Some w -> 0 <= j < 4 ->
  byte_at (put_words l) (4 * Z.of_nat k + j) = byte_at (be32 w) j.
Proof.
  revert k. unfold put_words. induction l as [|x l IH]; intros k Hk Hj; [done|]. rewrite bind_cons.
  destruct k as [|k]; simpl in Hk.
  - injection Hk as ->. simpl Z.of_nat. rewrite Z.mul_0_r, Z.add_0_l.
    rewrite byte_at_app_l by (simpl; lia). done.
  - rewrite byte_at_app_r by (simpl; lia). simpl length.
    replace (4 * Z.of_nat (S k) + j - Z.of_nat 4) with (4 * Z.of_nat k + j) by lia. by apply IH.
Qed.

Lemma of_be32_be32 w c : is_word w -> of_be32 (be32 w ++ c) 0 = w.
Proof. intros. unfold of_be32. simpl. by apply be32_parts. Qed.

Lemma of_be32_put_words l k w : l !! k = Some w -> is_word w -> of_be32 (put_words l) (4 * Z.of_nat k) = w.
Proof.
  intros Hk Hw. unfold of_be32.
  replace (4 * Z.of_nat k) with (4 * Z.of_nat k + 0) at 1 by lia.
  rewrite !(byte_at_put_words l k w) by (done || lia). unfold byte_at. simpl. by apply be32_parts.
Qed.

Lemma words_put_words l n : Forall is_word l -> Z.of_nat (length l) = n -> words_at (put_words l) 0 n = l.
Proof.
  intros Hl Hn. apply list_eq. intros i. unfold words_at.
  destruct (decide (i < length l)%nat) as [Hi|Hi].
  - rewrite list_lookup_fmap, lookup_seqZ_lt by lia. simpl.
    destruct (lookup_lt_is_Some_2 l i Hi) as [w Hw]. rewrite Hw. f_equal.
    replace (0 + 4 * (0 + Z.of_nat i)) with (4 * Z.of_nat i) by lia.
    apply of_be32_put_words; [done|]. by eapply Forall_lookup_1.
  - rewrite !lookup_ge_None_2; [done|lia|rewrite length_fmap, length_seqZ; lia].
Qed.

Section files.
Context {D : Type} {B : BlockDev D} {BOk : BlockDevOk D}.

(** ** The device *)

Definition same_dev (d d' : D) : Prop :=
  dev_inv d' /\ reliable d' /\ d_blocks d' = d_blocks d /\ forall x, block d' x = block d x.

Lemma SFSUIO_ok b r : 0 <= b < 2 ^ 22 -> SFSUIO b r = Done (mk_kuio 0 BLOCK (b * BLOCK) r).
Proof.
  intros Hb. unfold SFSUIO, s32, SFS_BLOCKSIZE, BLOCK. rewrite u32_small by lia. case_bool.
  rewrite int_Done by (unfold INT_MIN, INT_MAX; lia). done.
Qed.

Lemma ready_kobj data b r : 0 <= b < 2 ^ 22 - 1 -> ready None (kobj data) (mk_kuio 0 BLOCK (b * BLOCK) r) BLOCK.
Proof. intros. unfold BLOCK. split; simpl; try done; unfold INT_MIN, INT_MAX; lia. Qed.

Lemma bytes_at_kobj data : bytes_at (byte_at data) 0 (Z.of_nat (length data)) = data.
Proof.
  apply list_eq. intros i. destruct (decide (i < length data)%nat) as [Hi|Hi].
  - rewrite lookup_bytes_at by lia. destruct (lookup_lt_is_Some_2 data i Hi) as [w Hw]. rewrite Hw.
    unfold byte_at. replace (Z.to_nat (0 + Z.of_nat i)) with i by lia. by rewrite Hw.
  - rewrite !lookup_ge_None_2; [done|lia|rewrite length_bytes_at; lia].
Qed.

Lemma dev_rblock_ok d b : dev_inv d -> reliable d -> 0 <= b < d_blocks d ->
  exists d', dev_rblock d b = Done (d', Ok (block d b)) /\ same_dev d d'.
Proof.
  intros Hd Hrel Hb. pose proof (dev_size d Hd). unfold dev_rblock. rewrite SFSUIO_ok by lia. run.
  destruct (d_read_ok None d (kobj []) (mk_kuio 0 BLOCK (b * BLOCK) UIO_READ) b)
    as (d' & m' & E & Hm & H1 & H2 & H3 & H4); try done; [apply ready_kobj; lia|].
  unfold sfs_rwblock. cbn [rwblock_try]. rewrite E. run. exists d'. split; [|done]. do 3 f_equal.
  destruct Hm as [_ [_ Hm]]. simpl in Hm. rewrite <- (bytes_at_fill (kmem (kobj [])) 0 (block d b) SFS_BLOCKSIZE)
    by (rewrite (block_length d b Hd); done).
  unfold bytes_at. apply list_fmap_ext. intros i x _. apply Hm.
Qed.

Lemma rwblock_write_ok cas d m u b : dev_inv d -> reliable d -> ready cas m u BLOCK -> uio_resid u = BLOCK ->
  rw u = UIO_WRITE -> 0 <= b < d_blocks d -> uio_offset u = b * BLOCK ->
  exists d', sfs_rwblock cas d m u = Done ((d', m, advance u BLOCK), Ok tt) /\
    dev_inv d' /\ reliable d' /\ d_blocks d' = d_blocks d /\
    forall x, block d' x = if decide (x = b) then get_region m u BLOCK else block d x.
Proof.
  intros Hd Hrel Hr Hres Hrw Hb Ho.
  destruct (d_write_ok cas d m u b) as (d' & E & H1 & H2 & H3 & H4); try done.
  unfold sfs_rwblock. cbn [rwblock_try]. rewrite E. run. by exists d'.
Qed.

Lemma rwblock_read_ok cas d m u b : dev_inv d -> reliable d -> ready cas m u BLOCK -> uio_resid u = BLOCK ->
  rw u = UIO_READ -> 0 <= b < d_blocks d -> uio_offset u = b * BLOCK ->
  exists d' m', sfs_rwblock cas d m u = Done ((d', m', advance u BLOCK), Ok tt) /\
    moved m u (block d b) m' /\ same_dev d d'.
Proof.
  intros Hd Hrel Hr Hres Hrw Hb Ho.
  destruct (d_read_ok cas d m u b) as (d' & m' & E & Hm & H1 & H2 & H3 & H4); try done.
  unfold sfs_rwblock. cbn [rwblock_try]. rewrite E. run. by exists d', m'.
Qed.

(** ** The filesystem *)

Definition used (f : sfs_fs D) (b : Z) : bool := Bitmap.bit (sfs_freemap f) b.
Definition dblock (f : sfs_fs D) (b : Z) : list Z := block (sfs_device f) b.
Definition nblocks (f : sfs_fs D) : Z := sp_nblocks (super f).

Record fs_inv (f : sfs_fs D) : Prop := {
  fi_dev : dev_inv (sfs_device f);
  fi_rel : reliable (sfs_device f);
  fi_map : Bitmap.bitmap_wf (sfs_freemap f);
  fi_size : 0 < nblocks f <= d_blocks (sfs_device f);
  fi_bits : nblocks f <= Bitmap.nbits (sfs_freemap f);
  fi_pad b : nblocks f <= b < Bitmap.nbits (sfs_freemap f) -> used f b = true;
  fi_super : used f 0 = true
}.

(** Only the state of the device changed. *)
Record same_fs (f f' : sfs_fs D) : Prop := {
  sf_inv : fs_inv f';
  sf_super : super f' = super f;
  sf_map : sfs_freemap f' = sfs_freemap f;
  sf_table : sfs_vnodes f' = sfs_vnodes f;
  sf_vnodes : vnodes f' = vnodes f;
  sf_blocks x : dblock f' x = dblock f x
}.

Lemma same_fs_trans f1 f2 f3 : same_fs f1 f2 -> same_fs f2 f3 -> same_fs f1 f3.
Proof. intros [] []. split; try done; try congruence. Qed.

Lemma same_fs_refl f : fs_inv f -> same_fs f f.
Proof. by split. Qed.

Lemma set_device_inv f d : fs_inv f -> dev_inv d -> reliable d -> d_blocks d = d_blocks (sfs_device f) ->
  fs_inv (set_device f d).
Proof. intros [] H1 H2 H3. split; try done. unfold nblocks in *. simpl. by rewrite H3. Qed.

Lemma sfs_rblock_ok f b : fs_inv f -> 0 <= b < nblocks f ->
  exists f', sfs_rblock f b = Done (f', Ok (dblock f b)) /\ same_fs f f'.
Proof.
  intros Hf Hb. pose proof Hf as []. unfold sfs_rblock.
  destruct (dev_rblock_ok (sfs_device f) b) as (d' & -> & (H1 & H2 & H3 & H4)); try done; [lia|].
  run. eexists. split; [done|]. split; try done. by apply set_device_inv.
Qed.

Lemma sfs_wblock_ok f data b : fs_inv f -> 0 <= b < nblocks f -> length data = Z.to_nat BLOCK ->
  exists d', sfs_wblock f data b = Done (set_device f d', Ok tt) /\ fs_inv (set_device f d') /\
    forall x, dblock (set_device f d') x = if decide (x = b) then data else dblock f x.
Proof.
  intros Hf Hb Hl. pose proof Hf as []. pose proof (dev_size _ fi_dev0). unfold sfs_wblock.
  rewrite SFSUIO_ok by lia. run.
  destruct (rwblock_write_ok None (sfs_device f) (kobj data) (mk_kuio 0 BLOCK (b * BLOCK) UIO_WRITE) b)
    as (d' & -> & H1 & H2 & H3 & H4); try done; [apply ready_kobj; lia|lia|].
  run. exists d'. split; [done|]. split; [by apply set_device_inv|]. intros x. unfold dblock. simpl.
  rewrite H4. case_decide; [|done]. unfold get_region. simpl.
  etrans; [|apply bytes_at_kobj]. f_equal. unfold BLOCK in *. lia.
Qed.

(** ** Allocation *)

Lemma sfs_bused_ok f b : fs_inv f -> 0 <= b < nblocks f -> sfs_bused f b = Done (used f b).
Proof.
  intros Hf Hb. pose proof Hf as []. unfold sfs_bused. fold (nblocks f). case_bool. case_bool.
  destruct (Bitmap.bitmap_mark_unmark_spec (sfs_freemap f) b fi_map0 ltac:(lia)) as [(x & -> & Hx) _].
  run. rewrite Hx. by rewrite negb_involutive.
Qed.

Lemma check_used_ok {A} f b (k : exec A) : fs_inv f -> (b <> 0 -> 0 < b < nblocks f /\ used f b = true) ->
  check_used f b k = k.
Proof.
  intros Hf Hb. unfold check_used. destruct (Z.eqb_spec b 0); [done|]. destruct Hb as [? Hu]; [done|].
  rewrite sfs_bused_ok, Hu by (done || lia). done.
Qed.

(** A block that was free is now used and clear; nothing else changed. *)
Record allocated (f f' : sfs_fs D) (b : Z) : Prop := {
  al_inv : fs_inv f';
  al_super : super f' = super f;
  al_table : sfs_vnodes f' = sfs_vnodes f;
  al_vnodes : vnodes f' = vnodes f;
  al_range : 0 < b < nblocks f;
  al_free : used f b = false;
  al_used x : 0 <= x -> used f' x = (x =? b) || used f x;
  al_block x : dblock f' x = if decide (x = b) then zero_block else dblock f x
}.

(** Every block of the disk is in use. *)
Definition disk_full (f : sfs_fs D) : Prop := forall b, 0 <= b < nblocks f -> used f b = true.

Lemma disk_full_same f f' : same_fs f f' -> disk_full f -> disk_full f'.
Proof.
  intros [] H b Hb. unfold used, nblocks in *. rewrite sf_map0. apply H. unfold nblocks. by rewrite <- sf_super0.
Qed.

Lemma sfs_balloc_ok f : fs_inv f ->
  exists f' r, sfs_balloc f = Done (f', r) /\
    match r with
    | Ok b => allocated f f' b
    | Err e => e = ENOSPC /\ same_fs f f' /\ disk_full f'
    end.
Proof.
  intros Hf. pose proof Hf as []. unfold sfs_balloc.
  destruct (Bitmap.bitmap_alloc_spec (sfs_freemap f) fi_map0) as (fm & r & -> & Hwf & Hr). run.
  destruct r as [b|e].
  - destruct Hr as (Hb & Hfree & [Hn Hset] & _).
    assert (0 < b < nblocks f) as Hb'.
    { split; [destruct (Z.eq_dec b 0) as [->|]; [unfold used in *; congruence|lia]|].
      destruct (Z.lt_ge_cases b (nblocks f)); [done|]. unfold used in *. rewrite fi_pad0 in Hfree by lia. done. }
    fold (nblocks f). case_bool. case_bool. unfold sfs_clearblock.
    assert (fs_inv (set_freemap f fm true)) as Hf1.
    { split; unfold used, nblocks in *; simpl; try done; try lia.
      - intros x Hx. rewrite Hset, fi_pad0 by lia. apply orb_true_r.
      - rewrite Hset, fi_super0 by lia. apply orb_true_r. }
    destruct (sfs_wblock_ok (set_freemap f fm true) zero_block b Hf1) as (d' & -> & Hinv & Hblk);
      [unfold nblocks in *; simpl; lia|done|]. cbn [on_ok].
    eexists _, (Ok b). split; [done|]. by split.
  - destruct Hr as (-> & -> & Hall). eexists _, (Err ENOSPC). split; [done|]. split; [done|]. split.
    + by split.
    + intros b Hb. apply Hall. unfold nblocks in *. simpl in Hb. lia.
Qed.

(** ** Inodes *)

(** The largest file has [NSLOTS] blocks. *)
Definition NSLOTS : Z := SFS_NDIRECT + SFS_DBPERIDB.

(** The disk block that holds block [fb] of the file; 0 is a hole. *)
Definition slot_block (f : sfs_fs D) (i : sfs_inode) (fb : Z) : Z :=
  if fb <? SFS_NDIRECT then default 0 (sfi_direct i !! Z.to_nat fb)
  else if sfi_indirect i =? 0 then 0
  else of_be32 (dblock f (sfi_indirect i)) (4 * (fb - SFS_NDIRECT)).

Definition owned (f : sfs_fs D) (i : sfs_inode) (x : Z) : Prop :=
  x <> 0 /\ (x = sfi_indirect i \/ exists fb, 0 <= fb < NSLOTS /\ slot_block f i fb = x).

Record file_ok (f : sfs_fs D) (i : sfs_inode) : Prop := {
  fo_direct : Z.of_nat (length (sfi_direct i)) = SFS_NDIRECT;
  fo_range x : owned f i x -> 0 < x < nblocks f /\ used f x = true;
  fo_inj fb fb' : 0 <= fb < NSLOTS -> 0 <= fb' < NSLOTS -> slot_block f i fb = slot_block f i fb' ->
    slot_block f i fb <> 0 -> fb = fb';
  fo_ind fb : 0 <= fb < NSLOTS -> slot_block f i fb <> 0 -> slot_block f i fb <> sfi_indirect i
}.

(** The byte at position [p]. *)
Definition fbyte (f : sfs_fs D) (i : sfs_inode) (p : Z) : Z :=
  let b := slot_block f i (p / BLOCK) in
  if b =? 0 then 0 else byte_at (dblock f b) (p mod BLOCK).

Definition in_file (p : Z) : Prop := 0 <= p < NSLOTS * BLOCK.

Lemma in_file_slot p : in_file p -> 0 <= p / BLOCK < NSLOTS.
Proof. unfold in_file, BLOCK. intros. zlia. Qed.

Lemma owned_slot f i fb : 0 <= fb < NSLOTS -> slot_block f i fb <> 0 -> owned f i (slot_block f i fb).
Proof. intros. split; [done|]. right. by exists fb. Qed.

Lemma slot_range f i fb : file_ok f i -> 0 <= fb < NSLOTS -> slot_block f i fb <> 0 ->
  0 < slot_block f i fb < nblocks f /\ used f (slot_block f i fb) = true.
Proof. intros Hf Hb H0. apply Hf. by apply owned_slot. Qed.

Lemma slot_word f i fb : fs_inv f -> file_ok f i -> 0 <= fb < NSLOTS -> is_word (slot_block f i fb).
Proof.
  intros Hfs Hf Hb. destruct (Z.eq_dec (slot_block f i fb) 0) as [->|H0]; [done|].
  destruct (slot_range f i fb Hf Hb H0) as [? _]. pose proof (fi_size _ Hfs).
  pose proof (dev_size _ (fi_dev _ Hfs)). unfold is_word. lia.
Qed.

(** What an operation on one file does to the filesystem: blocks it does not own
    keep their contents, and blocks it gained were free. *)
Record step (f : sfs_fs D) (i : sfs_inode) (f' : sfs_fs D) (i' : sfs_inode) : Prop := {
  st_inv : fs_inv f';
  st_file : file_ok f' i';
  st_super : super f' = super f;
  st_table : sfs_vnodes f' = sfs_vnodes f;
  st_vnodes : vnodes f' = vnodes f;
  st_meta : sfi_type i' = sfi_type i /\ sfi_linkcount i' = sfi_linkcount i /\ sfi_waste i' = sfi_waste i;
  st_used x : 0 <= x -> used f x = true -> used f' x = true;
  st_own x : 0 <= x -> used f x = true -> owned f' i' x -> owned f i x;
  st_others x : 0 <= x -> used f x = true -> ~ owned f i x -> dblock f' x = dblock f x
}.

Lemma step_refl f i : fs_inv f -> file_ok f i -> step f i f i.
Proof. by split. Qed.

Lemma step_trans f1 i1 f2 i2 f3 i3 : step f1 i1 f2 i2 -> step f2 i2 f3 i3 -> step f1 i1 f3 i3.
Proof.
  intros [] []. split; try done; try congruence.
  - intuition congruence.
  - auto.
  - auto.
  - intros x H0 Hu Ho. rewrite st_others1; auto.
Qed.

Lemma same_slot f f' i fb : same_fs f f' -> slot_block f' i fb = slot_block f i fb.
Proof. intros []. unfold slot_block. by rewrite sf_blocks0. Qed.

Lemma same_owned f f' i x : same_fs f f' -> owned f' i x <-> owned f i x.
Proof. intros H. unfold owned. by setoid_rewrite (same_slot f f' i _ H). Qed.

Lemma same_used f f' x : same_fs f f' -> used f' x = used f x.
Proof. intros []. unfold used. by rewrite sf_map0. Qed.

Lemma same_file f f' i : same_fs f f' -> file_ok f i -> file_ok f' i.
Proof.
  intros Hs []. split; try done.
  - intros x Hx. rewrite (same_used f f' x Hs). unfold nblocks. rewrite (sf_super _ _ Hs).
    apply fo_range0. by rewrite <- (same_owned f f').
  - intros fb fb'. rewrite !(same_slot f f') by done. apply fo_inj0.
  - intros fb. rewrite !(same_slot f f') by done. apply fo_ind0.
Qed.

Lemma same_step f f' i : same_fs f f' -> file_ok f i -> step f i f' i.
Proof.
  intros Hs Hf. pose proof (same_file f f' i Hs Hf). pose proof Hs as []. split; try done.
  - intros x _. by rewrite (same_used f f').
  - intros x _ _. by rewrite (same_owned f f').
Qed.

Lemma same_fbyte f f' i p : same_fs f f' -> fbyte f' i p = fbyte f i p.
Proof. intros Hs. unfold fbyte. by rewrite (same_slot f f'), (sf_blocks _ _ Hs). Qed.

(** *** Filling a hole *)

(** An indirect block is added. *)
Lemma grow_indirect f i f1 b : fs_inv f -> file_ok f i -> sfi_indirect i = 0 -> allocated f f1 b ->
  step f i f1 (set_indirect i b) /\
  (forall fb, 0 <= fb < NSLOTS -> slot_block f1 (set_indirect i b) fb = slot_block f i fb) /\
  forall p, in_file p -> fbyte f1 (set_indirect i b) p = fbyte f i p.
Proof.
  intros Hfs Hf Hi0 Ha. pose proof Ha as []. set (i1 := set_indirect i b).
  assert (forall fb, 0 <= fb < NSLOTS -> slot_block f1 i1 fb = slot_block f i fb) as Hslot.
  { intros fb Hfb. unfold slot_block. simpl. destruct (Z.ltb_spec fb SFS_NDIRECT); [done|].
    rewrite Hi0. simpl. destruct (Z.eqb_spec b 0); [lia|]. rewrite al_block0, decide_True by done.
    unfold of_be32, byte_at, zero_block. rewrite !lookup_replicate_2; [done|..];
      unfold SFS_BLOCKSIZE, NSLOTS, SFS_NDIRECT, SFS_DBPERIDB in *; lia. }
  assert (forall x, owned f1 i1 x -> owned f i x \/ x = b) as Hown.
  { intros x [Hx [->|(fb & Hfb & E)]]; [by right|]. left. rewrite Hslot in E by done. subst x.
    by apply owned_slot. }
  assert (forall x, owned f i x -> x <> b) as Hnb.
  { intros x Ho ->. destruct (fo_range _ _ Hf _ Ho) as [_ Hu]. congruence. }
  split; [|split; [done|]].
  - split; try done.
    + split; try done; [apply Hf|..].
      * intros x Hx. rewrite al_used0 by (destruct (Hown x Hx) as [?| ->]; [|lia];
          destruct (fo_range _ _ Hf x); [done|lia]).
        unfold nblocks. rewrite al_super0. fold (nblocks f).
        destruct (Hown x Hx) as [Ho| ->]; [|split; [done|]; by rewrite Z.eqb_refl].
        destruct (fo_range _ _ Hf x Ho) as [? ->]. split; [done|]. apply orb_true_r.
      * intros fb fb' Hfb Hfb'. rewrite !Hslot by done. by apply Hf.
      * intros fb Hfb. rewrite Hslot by done. intros H0. simpl. apply Hnb. by apply owned_slot.
    + intros x Hx Hu. rewrite al_used0, Hu by done. apply orb_true_r.
    + intros x _ Hu Ho. destruct (Hown x Ho) as [?| ->]; [done|congruence].
    + intros x _ Hu _. rewrite al_block0. case_decide; [congruence|done].
  - intros p Hp. pose proof (in_file_slot p Hp) as Hs. unfold fbyte. rewrite Hslot by done.
    destruct (Z.eqb_spec (slot_block f i (p / BLOCK)) 0); [done|]. rewrite al_block0, decide_False; [done|].
    apply Hnb. by apply owned_slot.
Qed.

(** A hole gets a block: [f2] differs from [f1], in which [b] has just been
    allocated, in the indirect block only. *)
Lemma grow_slot f i f1 f2 i' b fb0 : fs_inv f -> file_ok f i -> allocated f f1 b -> fs_inv f2 ->
  super f2 = super f1 -> sfs_vnodes f2 = sfs_vnodes f1 -> vnodes f2 = vnodes f1 ->
  sfs_freemap f2 = sfs_freemap f1 ->
  (forall x, x <> sfi_indirect i -> dblock f2 x = dblock f1 x) ->
  (sfi_indirect i = 0 -> dblock f2 0 = dblock f1 0) ->
  sfi_indirect i' = sfi_indirect i -> Z.of_nat (length (sfi_direct i')) = SFS_NDIRECT ->
  sfi_type i' = sfi_type i /\ sfi_linkcount i' = sfi_linkcount i /\ sfi_waste i' = sfi_waste i ->
  0 <= fb0 < NSLOTS -> slot_block f i fb0 = 0 ->
  (forall fb, 0 <= fb < NSLOTS -> slot_block f2 i' fb = if decide (fb = fb0) then b else slot_block f i fb) ->
  step f i f2 i' /\ forall p, in_file p -> fbyte f2 i' p = fbyte f i p.
Proof.
  intros Hfs Hf Ha Hfs2 Es Et Ev Em Hblk Hblk0 Ei Hdir Hmeta Hfb0 Hhole Hslot. pose proof Ha as [].
  assert (forall x, owned f i x -> x <> b) as Hnb.
  { intros x Ho ->. destruct (fo_range _ _ Hf _ Ho) as [_ Hu]. congruence. }
  assert (forall x, owned f2 i' x -> owned f i x \/ x = b) as Hown.
  { intros x [Hx [->|(fb & Hfb & E)]]; [left; split; [done|]; left; done|].
    rewrite Hslot in E by done. case_decide; [by right|]. left. subst x. by apply owned_slot. }
  assert (forall x, 0 <= x -> used f2 x = (x =? b) || used f x) as Hused.
  { intros x Hx. unfold used. rewrite Em. by apply al_used0. }
  assert (forall x, x <> b -> x <> sfi_indirect i -> dblock f2 x = dblock f x) as Hblk2.
  { intros x Hx Hx'. rewrite Hblk, al_block0, decide_False by done. done. }
  split.
  - split; try done; try congruence.
    + split; try done.
      * intros x Hx. unfold nblocks. rewrite Es, al_super0. fold (nblocks f).
        destruct (Hown x Hx) as [Ho| ->].
        -- destruct (fo_range _ _ Hf x Ho) as [? Hu]. rewrite Hused, Hu by lia. split; [done|apply orb_true_r].
        -- rewrite Hused by lia. split; [done|]. by rewrite Z.eqb_refl.
      * intros fb fb' Hfb Hfb'. rewrite !Hslot by done. do 2 case_decide; subst; try done.
        -- intros E _. exfalso. apply (Hnb b); [|done]. rewrite E. apply owned_slot; [done|]. rewrite <- E. lia.
        -- intros E H0. exfalso. apply (Hnb (slot_block f i fb)); [|done]. by apply owned_slot.
        -- by apply Hf.
      * intros fb Hfb. rewrite Hslot, Ei by done. case_decide.
        -- intros _ E. destruct (Z.eq_dec b 0); [lia|]. apply (Hnb b); [|done]. split; [done|by left].
        -- by apply Hf.
    + intros x Hx Hu. rewrite Hused, Hu by done. apply orb_true_r.
    + intros x _ Hu Ho. destruct (Hown x Ho) as [?| ->]; [done|congruence].
    + intros x Hx Hu Hno. destruct (Z.eq_dec x 0) as [->|Hx0].
      * destruct (Z.eq_dec (sfi_indirect i) 0) as [E0|]; [|apply Hblk2; lia].
        rewrite Hblk0, al_block0, decide_False by (done || lia). done.
      * apply Hblk2; [congruence|]. intros ->. apply Hno. split; [done|by left].
  - intros p Hp. pose proof (in_file_slot p Hp) as Hs. unfold fbyte. rewrite Hslot by done.
    case_decide as Hd.
    + rewrite Hd, Hhole. simpl. destruct (Z.eqb_spec b 0); [done|].
      assert (dblock f2 b = zero_block) as ->.
      { rewrite Hblk, al_block0, decide_True by (done || (intros ->; apply (Hnb (sfi_indirect i)); [|done];
          split; [lia|by left])). done. }
      unfold byte_at, zero_block. rewrite lookup_replicate_2; [done|].
      unfold SFS_BLOCKSIZE, BLOCK in *. pose proof (Z.mod_pos_bound p 512). lia.
    + destruct (Z.eqb_spec (slot_block f i (p / BLOCK)) 0); [done|]. f_equal. apply Hblk2.
      * apply Hnb. by apply owned_slot.
      * by apply Hf.
Qed.

Lemma rd_words data n k : 0 <= k < n -> rd (words_at data 0 n) k = Done (of_be32 data (4 * k)).
Proof.
  intros Hk. apply rd_Done; [lia|]. unfold words_at. rewrite list_lookup_fmap, lookup_seqZ_lt by lia.
  simpl. do 2 f_equal. lia.
Qed.

Lemma rd_direct f i fb : file_ok f i -> 0 <= fb < SFS_NDIRECT ->
  rd (sfi_direct i) fb = Done (slot_block f i fb).
Proof.
  intros Hf Hfb. pose proof (fo_direct _ _ Hf). destruct (rd_lt (sfi_direct i) fb) as [x Hx]; [lia|].
  rewrite Hx. f_equal. apply rd_inv in Hx as [_ Hx]. unfold slot_block. case_bool. by rewrite Hx.
Qed.

(** [sfs_bmap] without allocation finds the block. *)
Lemma bmap_find f sv fb : fs_inv f -> file_ok f (sv_i sv) -> 0 <= fb < NSLOTS ->
  exists f', sfs_bmap f sv fb false = Done ((f', sv), Ok (slot_block f (sv_i sv) fb)) /\ same_fs f f'.
Proof.
  intros Hfs Hf Hfb. unfold sfs_bmap. destruct (Z.ltb_spec fb SFS_NDIRECT).
  - unfold bmap_direct. rewrite (rd_direct f) by (done || lia). run. rewrite andb_false_r. run.
    exists f. split; [|by apply same_fs_refl]. apply check_used_ok; [done|]. intros H0.
    by apply slot_range.
  - unfold NSLOTS, SFS_NDIRECT, SFS_DBPERIDB in *.
    assert ((fb - 15) / 128 = 0) as -> by (apply Z.div_small; lia).
    assert ((fb - 15) mod 128 = fb - 15) as -> by (apply Z.mod_small; lia). change (0 >? 0) with false.
    run. unfold bmap_indirect. destruct (Z.eqb_spec (sfi_indirect (sv_i sv)) 0) as [E0|E0]; cbn [andb negb].
    + exists f. split; [|by apply same_fs_refl]. unfold slot_block, SFS_NDIRECT. case_bool.
      by rewrite E0.
    + destruct (fo_range _ _ Hf (sfi_indirect (sv_i sv))) as [Hr _]; [split; [done|by left]|].
      destruct (sfs_rblock_ok f (sfi_indirect (sv_i sv)) Hfs) as (f' & -> & Hs); [lia|].
      unfold with_sv. run. rewrite rd_words by (unfold SFS_DBPERIDB; lia). run. rewrite andb_false_r. run.
      assert (of_be32 (dblock f (sfi_indirect (sv_i sv))) (4 * (fb - 15)) = slot_block f (sv_i sv) fb) as ->.
      { unfold slot_block, SFS_NDIRECT. case_bool. by destruct (Z.eqb_spec (sfi_indirect (sv_i sv)) 0). }
      exists f'. split; [|done]. apply check_used_ok; [apply Hs|]. intros H0.
      rewrite (same_used f f') by done. unfold nblocks. rewrite (sf_super _ _ Hs).
      apply slot_range; unfold NSLOTS, SFS_NDIRECT, SFS_DBPERIDB; done || lia.
Qed.

(** ** Allocating blocks for a file *)

(** The file has the same contents, in blocks it may have gained. *)
Record grown (f : sfs_fs D) (sv : sfs_vnode) (f' : sfs_fs D) (sv' : sfs_vnode) : Prop := {
  gr_step : step f (sv_i sv) f' (sv_i sv');
  gr_size : sfi_size (sv_i sv') = sfi_size (sv_i sv);
  gr_bytes p : in_file p -> fbyte f' (sv_i sv') p = fbyte f (sv_i sv) p;
  gr_slot fb : 0 <= fb < NSLOTS -> slot_block f (sv_i sv) fb <> 0 ->
    slot_block f' (sv_i sv') fb = slot_block f (sv_i sv) fb;
  gr_sv : vn_refcount sv' = vn_refcount sv /\ vn_opencount sv' = vn_opencount sv /\ vn_ops sv' = vn_ops sv /\
          sv_ino sv' = sv_ino sv;
  gr_dirty : sv_dirty sv' = false -> sv' = sv
}.

Lemma grown_same f f' sv : same_fs f f' -> file_ok f (sv_i sv) -> grown f sv f' sv.
Proof.
  intros Hs Hf. split; try done; [by apply same_step| |].
  - intros p _. by apply same_fbyte.
  - intros fb _ _. by apply same_slot.
Qed.

Lemma grown_trans f1 sv1 f2 sv2 f3 sv3 : grown f1 sv1 f2 sv2 -> grown f2 sv2 f3 sv3 -> grown f1 sv1 f3 sv3.
Proof.
  intros [] []. split; try congruence.
  - by eapply step_trans.
  - intros p Hp. rewrite gr_bytes1; auto.
  - intros fb Hfb H0. rewrite gr_slot1 by (done || by rewrite gr_slot0). by apply gr_slot0.
  - intuition congruence.
  - intros E. rewrite (gr_dirty1 E) in E |- *. by apply gr_dirty0.
Qed.

Lemma words_zero n : 0 <= n <= 128 -> words_at zero_block 0 n = replicate (Z.to_nat n) 0.
Proof.
  intros Hn. apply list_eq. intros k. destruct (decide (k < Z.to_nat n)%nat) as [Hk|Hk].
  - unfold words_at. rewrite list_lookup_fmap, lookup_seqZ_lt, lookup_replicate_2 by lia. simpl. f_equal.
    unfold of_be32, byte_at, zero_block, SFS_BLOCKSIZE. rewrite !lookup_replicate_2 by lia. done.
  - unfold words_at. rewrite !lookup_ge_None_2; [done|rewrite length_replicate; lia|].
    rewrite length_fmap, length_seqZ. lia.
Qed.

Lemma bmap_direct_alloc f sv fb : fs_inv f -> file_ok f (sv_i sv) -> 0 <= fb < SFS_NDIRECT ->
  exists f' sv' r, bmap_direct f sv fb true = Done ((f', sv'), r) /\ grown f sv f' sv' /\
    match r with
    | Ok b => b <> 0 /\ slot_block f' (sv_i sv') fb = b
    | Err e => e = ENOSPC /\ disk_full f' /\ slot_block f (sv_i sv) fb = 0
    end.
Proof.
  intros Hfs Hf Hfb. assert (0 <= fb < NSLOTS) as Hfb' by (unfold NSLOTS, SFS_DBPERIDB; lia).
  unfold bmap_direct. rewrite (rd_direct f) by done. run. rewrite andb_true_r.
  destruct (Z.eqb_spec (slot_block f (sv_i sv) fb) 0) as [E0|E0].
  - destruct (sfs_balloc_ok f Hfs) as (f1 & r & -> & Hr). unfold with_sv. run. destruct r as [b|e]; run.
    + pose proof Hr as []. pose proof (fo_direct _ _ Hf) as Hd. rewrite wr_Done by lia. run.
      set (i1 := set_direct (sv_i sv) _).
      assert (forall x, 0 <= x < NSLOTS -> slot_block f1 i1 x =
        if decide (x = fb) then b else slot_block f (sv_i sv) x) as Hslot.
      { intros x Hx. unfold slot_block. simpl. case_bool.
        - case_decide as Hd'.
          + subst x. rewrite list_lookup_insert_eq; [done|lia].
          + rewrite list_lookup_insert_ne; [done|lia].
        - rewrite decide_False by lia. destruct (Z.eqb_spec (sfi_indirect (sv_i sv)) 0); [done|].
          rewrite al_block0, decide_False; [done|]. intros E.
          destruct (fo_range _ _ Hf (sfi_indirect (sv_i sv))) as [_ Hu]; [split; [done|by left]|].
          congruence. }
      rewrite check_used_ok; [|done|].
      2:{ intros _. unfold nblocks. rewrite al_super0. split; [done|]. rewrite al_used0, Z.eqb_refl by lia. done. }
      eexists _, _, _. split; [done|]. split; [|split; [lia|]; simpl; fold i1; rewrite Hslot, decide_True by done; done].
      destruct (grow_slot f (sv_i sv) f1 f1 i1 b fb) as [Hst Hby]; try done.
      { simpl. by rewrite length_insert. }
      split; try done. intros x Hx Hx0. simpl. fold i1. rewrite Hslot by done. case_decide; [congruence|done].
    + destruct Hr as (-> & Hs & Hful). eexists _, _, _. split; [done|]. split; [by apply grown_same|done].
  - run. rewrite check_used_ok; [|done|by intros; apply slot_range].
    eexists _, _, _. split; [done|]. split; [|done]. apply grown_same; [by apply same_fs_refl|done].
Qed.

Lemma bmap_indirect_ok f sv : fs_inv f -> file_ok f (sv_i sv) ->
  exists f' sv' r, bmap_indirect f sv = Done ((f', sv'), r) /\ grown f sv f' sv' /\
    match r with
    | Ok (b, ws) => b <> 0 /\ sfi_indirect (sv_i sv') = b /\ ws = words_at (dblock f' b) 0 SFS_DBPERIDB
    | Err e => e = ENOSPC /\ disk_full f' /\ sfi_indirect (sv_i sv) = 0
    end.
Proof.
  intros Hfs Hf. unfold bmap_indirect. destruct (Z.eqb_spec (sfi_indirect (sv_i sv)) 0) as [E0|E0].
  - destruct (sfs_balloc_ok f Hfs) as (f1 & r & -> & Hr). unfold with_sv. run. destruct r as [b|e]; run.
    + destruct (grow_indirect f (sv_i sv) f1 b) as (Hst & Hsl & Hby); try done. pose proof Hr as [].
      eexists _, _, _. split; [done|]. split; [by split; try done; intros; apply Hsl|]. split; [lia|]. split; [done|].
      rewrite al_block0, decide_True, words_zero by (done || (unfold SFS_DBPERIDB; lia)). done.
    + destruct Hr as (-> & Hs & Hful). eexists _, _, _. split; [done|]. split; [by apply grown_same|done].
  - destruct (fo_range _ _ Hf (sfi_indirect (sv_i sv))) as [Hr _]; [split; [done|by left]|].
    destruct (sfs_rblock_ok f (sfi_indirect (sv_i sv)) Hfs) as (f' & -> & Hs); [lia|].
    unfold with_sv. run. eexists _, _, _. split; [done|]. split; [by apply grown_same|].
    split; [done|]. split; [done|]. by rewrite (sf_blocks _ _ Hs).
Qed.

(** The pointers of the indirect block. *)
Lemma indirect_words f i : fs_inv f -> file_ok f i -> sfi_indirect i <> 0 ->
  let ws := words_at (dblock f (sfi_indirect i)) 0 SFS_DBPERIDB in
  length ws = Z.to_nat SFS_DBPERIDB /\ Forall is_word ws /\
  forall fb, SFS_NDIRECT <= fb < NSLOTS -> ws !! Z.to_nat (fb - SFS_NDIRECT) = Some (slot_block f i fb).
Proof.
  intros Hfs Hf H0 ws.
  assert (length ws = Z.to_nat SFS_DBPERIDB) as Hl by (unfold ws, words_at; by rewrite length_fmap, length_seqZ).
  assert (forall fb, SFS_NDIRECT <= fb < NSLOTS -> ws !! Z.to_nat (fb - SFS_NDIRECT) = Some (slot_block f i fb)) as Hs.
  { intros fb Hfb. unfold NSLOTS in *. unfold ws, words_at. rewrite list_lookup_fmap, lookup_seqZ_lt by lia. simpl.
    unfold slot_block. case_bool. destruct (Z.eqb_spec (sfi_indirect i) 0); [done|]. do 2 f_equal. lia. }
  split; [done|]. split; [|done]. apply Forall_lookup_2. intros k w Hk. apply lookup_lt_Some in Hk as Hk'.
  unfold NSLOTS, SFS_NDIRECT, SFS_DBPERIDB in *. specialize (Hs (Z.of_nat k + 15) ltac:(lia)).
  replace (Z.to_nat (Z.of_nat k + 15 - 15)) with k in Hs by lia. rewrite Hk in Hs. simplify_eq.
  apply slot_word; unfold NSLOTS, SFS_NDIRECT, SFS_DBPERIDB; done || lia.
Qed.

Lemma fill_indirect f sv f1 b fb : fs_inv f -> file_ok f (sv_i sv) -> sfi_indirect (sv_i sv) <> 0 ->
  SFS_NDIRECT <= fb < NSLOTS -> slot_block f (sv_i sv) fb = 0 -> allocated f f1 b ->
  let ws := words_at (dblock f (sfi_indirect (sv_i sv))) 0 SFS_DBPERIDB in
  exists d', sfs_wblock f1 (put_words (<[Z.to_nat (fb - SFS_NDIRECT) := b]> ws)) (sfi_indirect (sv_i sv))
      = Done (set_device f1 d', Ok tt) /\
    grown f sv (set_device f1 d') sv /\ slot_block (set_device f1 d') (sv_i sv) fb = b.
Proof.
  intros Hfs Hf H0 Hfb Hhole Ha ws. pose proof Ha as [].
  destruct (indirect_words f (sv_i sv)) as (Hl & Hw & Hs); try done. fold ws in Hl, Hw, Hs.
  destruct (fo_range _ _ Hf (sfi_indirect (sv_i sv))) as [Hr Hu]; [split; [done|by left]|].
  assert (is_word b) as Hb.
  { pose proof (fi_size _ Hfs). pose proof (dev_size _ (fi_dev _ Hfs)). unfold is_word. lia. }
  set (ws' := <[_ := b]> ws). assert (length ws' = Z.to_nat SFS_DBPERIDB) as Hl' by (unfold ws'; by rewrite length_insert).
  assert (Forall is_word ws') as Hw' by (by apply Forall_insert).
  destruct (sfs_wblock_ok f1 (put_words ws') (sfi_indirect (sv_i sv))) as (d' & -> & Hinv & Hblk); [done| |
    rewrite length_put_words, Hl'; done|]; [unfold nblocks in *; rewrite al_super0; lia|].
  exists d'. split; [done|]. set (f2 := set_device f1 d') in *.
  assert (forall x, 0 <= x < NSLOTS -> slot_block f2 (sv_i sv) x =
    if decide (x = fb) then b else slot_block f (sv_i sv) x) as Hslot.
  { intros x Hx. destruct (Z.lt_ge_cases x SFS_NDIRECT).
    - rewrite decide_False by lia. unfold slot_block. by case_bool.
    - transitivity (of_be32 (put_words ws') (4 * (x - SFS_NDIRECT))).
      + unfold slot_block. case_bool. destruct (Z.eqb_spec (sfi_indirect (sv_i sv)) 0); [done|].
        by rewrite Hblk, decide_True by done.
      + rewrite <- (Z2Nat.id (x - SFS_NDIRECT)) by lia.
        assert (ws' !! Z.to_nat (x - SFS_NDIRECT) = Some (if decide (x = fb) then b else slot_block f (sv_i sv) x)) as Hx'.
        { unfold ws'. case_decide as Hd; [subst x; apply list_lookup_insert_eq; rewrite Hl; unfold NSLOTS in *; lia|].
          rewrite list_lookup_insert_ne by lia. apply Hs. lia. }
        apply of_be32_put_words; [done|]. by apply (Forall_lookup_1 _ _ _ _ Hw' Hx'). }
  assert (0 <= fb < NSLOTS) as Hfb' by (unfold SFS_NDIRECT in *; lia).
  destruct (grow_slot f (sv_i sv) f1 f2 (sv_i sv) b fb) as [Hst Hby]; try done.
  - intros x Hx. by rewrite Hblk, decide_False.
  - apply Hf.
  - split; [|by rewrite Hslot, decide_True].
    split; try done. intros x Hx Hx0. rewrite Hslot by done. case_decide; [congruence|done].
Qed.

(** [sfs_bmap] with allocation gives every block of the file a disk block, or
    finds the disk full. *)
Lemma bmap_alloc f sv fb : fs_inv f -> file_ok f (sv_i sv) -> 0 <= fb < NSLOTS ->
  exists f' sv' r, sfs_bmap f sv fb true = Done ((f', sv'), r) /\ grown f sv f' sv' /\
    match r with
    | Ok b => b <> 0 /\ slot_block f' (sv_i sv') fb = b
    | Err e => e = ENOSPC /\ disk_full f' /\ slot_block f (sv_i sv) fb = 0
    end.
Proof.
  intros Hfs Hf Hfb. unfold sfs_bmap. destruct (Z.ltb_spec fb SFS_NDIRECT); [apply bmap_direct_alloc; done || lia|].
  assert ((fb - SFS_NDIRECT) / SFS_DBPERIDB = 0) as -> by (apply Z.div_small; unfold NSLOTS in *; lia).
  rewrite (Z.mod_small (fb - SFS_NDIRECT)) by (unfold NSLOTS in *; lia). change (0 >? 0) with false.
  rewrite andb_false_r. run. destruct (bmap_indirect_ok f sv Hfs Hf) as (f1 & sv1 & r & -> & Hg1 & Hr). run.
  destruct r as [[idb ws]|e].
  2:{ destruct Hr as (-> & Hful & Hi). eexists _, _, _. split; [done|]. split; [done|]. split; [done|]. split; [done|].
      unfold slot_block. case_bool. by rewrite Hi. } destruct Hr as (Hi0 & Hidb & ->). run. rewrite <- Hidb.
  pose proof (gr_step _ _ _ _ Hg1) as Hst1. pose proof (st_inv _ _ _ _ Hst1) as Hfs1.
  pose proof (st_file _ _ _ _ Hst1) as Hf1.
  destruct (indirect_words f1 (sv_i sv1)) as (Hl & Hw & Hs); try done; [congruence|].
  rewrite (rd_Done _ _ (slot_block f1 (sv_i sv1) fb)) by (lia || (apply Hs; lia)). run. rewrite andb_true_r.
  destruct (Z.eqb_spec (slot_block f1 (sv_i sv1) fb) 0) as [E0|E0].
  - destruct (sfs_balloc_ok f1 Hfs1) as (f2 & r & -> & Hr). unfold with_sv. run. destruct r as [b|e]; run.
    + rewrite wr_Done by (rewrite Hl; unfold NSLOTS in *; lia). run.
      destruct (fill_indirect f1 sv1 f2 b fb) as (d' & -> & Hg2 & Hsl); try done; [congruence|lia|].
      run. pose proof (gr_step _ _ _ _ Hg2) as Hst2.
      assert (b <> 0) by (destruct (al_range _ _ _ Hr); lia).
      rewrite check_used_ok; [|apply Hst2|].
      2:{ intros _. rewrite <- Hsl. apply slot_range; [apply Hst2|done|congruence]. }
      eexists _, _, _. split; [done|]. split; [by eapply grown_trans|]. done.
    + destruct Hr as (-> & Hs2 & Hful). eexists _, _, _. split; [done|]. split.
      * eapply grown_trans; [done|]. by apply grown_same.
      * split; [done|]. split; [done|]. destruct (Z.eq_dec (slot_block f (sv_i sv) fb) 0) as [|Hne]; [done|].
        by rewrite (gr_slot _ _ _ _ Hg1 fb Hfb Hne) in E0.
  - run. rewrite check_used_ok; [|done|by intros; apply slot_range]. by eexists _, _, _.
Qed.

(** No file is larger than [NSLOTS] blocks. *)
Lemma bmap_beyond f sv fb doalloc : NSLOTS <= fb -> sfs_bmap f sv fb doalloc = Done ((f, sv), Err EINVAL).
Proof.
  intros Hfb. unfold sfs_bmap. unfold NSLOTS, SFS_NDIRECT, SFS_DBPERIDB in *. case_bool.
  assert (1 <= (fb - 15) / 128) by (apply Z.div_le_lower_bound; lia).
  rewrite Z.gtb_ltb, (proj2 (Z.ltb_lt _ _)) by lia. done.
Qed.

End files.
End SfsFile.
