(* ===== verification/SfsIo.v ===== *)
(** * File I/O of the SFS filesystem ([sfs_partialio], [sfs_blockio], [sfs_io])

    A file is the function [fbyte] from positions to bytes and a size.  Reading
    delivers these bytes, up to the size; writing updates them, and no other
    file's. *)

From Stdlib Require Import ZArith Lia Bool.
From stdpp Require Import base list numbers gmap.
From S2P Require Import Prelude.
From S2P Require Import Array.
From S2P Require Import Bitmap.
From S2P Require Import Uio.
From S2P Require Import Lhd.
From S2P Require Import Sfs.
From S2P Require Import SfsFile.
Import Copy Uio Sfs SfsFile.

Module SfsIo.

Section io.
Context {D : Type} {B : BlockDev D} {BOk : BlockDevOk D}.

Definition MAXFILE : Z := NSLOTS * BLOCK.

(** The block of a position and the positions of a block. *)
Lemma fileblock_ok cas m u n : ready cas m u n -> 0 <= uio_offset u -> fileblock_of u = uio_offset u / BLOCK.
Proof.
  intros Hr H0. pose proof (rd_offset _ _ _ _ Hr). pose proof (rd_len _ _ _ _ Hr). unfold fileblock_of.
  rewrite Z.quot_div_nonneg by (unfold SFS_BLOCKSIZE; lia). apply u32_small.
  unfold BLOCK, INT_MAX in *. zlia.
Qed.

Lemma same_block off i : 0 <= off -> 0 <= i -> off mod BLOCK + i < BLOCK ->
  (off + i) / BLOCK = off / BLOCK /\ (off + i) mod BLOCK = off mod BLOCK + i.
Proof. unfold BLOCK. intros. split; zlia. Qed.

(** The bytes of the file within one block. *)
Lemma block_bytes (f : sfs_fs D) i off n : 0 <= off -> 0 <= n -> off mod BLOCK + n <= BLOCK -> fs_inv f ->
  bytes_at (fbyte f i) off n =
  let b := slot_block f i (off / BLOCK) in
  sub (if b =? 0 then zero_block else dblock f b) (off mod BLOCK) n.
Proof.
  intros H0 Hn Hb Hfs. assert (0 <= off mod BLOCK) by (apply Z.mod_pos_bound; done).
  cbv zeta. set (data := if slot_block f i (off / BLOCK) =? 0 then zero_block else dblock f (slot_block f i (off / BLOCK))).
  assert (Z.of_nat (length data) = BLOCK) as Hl.
  { unfold data. destruct (_ =? 0); [done|]. unfold dblock. rewrite (block_length _ _ (fi_dev _ Hfs)). done. }
  apply list_eq. intros k. destruct (decide (k < Z.to_nat n)%nat) as [Hk|Hk].
  - rewrite lookup_bytes_at, lookup_sub by lia.
    destruct (same_block off (Z.of_nat k)) as [E1 E2]; try lia.
    destruct (lookup_lt_is_Some_2 data (Z.to_nat (off mod BLOCK) + k)) as [y Hy]; [lia|]. rewrite Hy. f_equal.
    unfold fbyte. rewrite E1, E2. unfold data in Hy. destruct (slot_block f i (off / BLOCK) =? 0).
    + unfold zero_block in Hy. apply lookup_replicate_1 in Hy as [-> _]. done.
    + unfold byte_at. replace (Z.to_nat _) with (Z.to_nat (off mod BLOCK) + k)%nat by lia. by rewrite Hy.
  - rewrite !lookup_ge_None_2; [done|rewrite length_sub; lia|rewrite length_bytes_at; lia].
Qed.

(** ** Reading *)

Record can_read (cas : option Z) (s : ios D) (n : Z) : Prop := {
  cr_fs : fs_inv (i_fs s);
  cr_file : file_ok (i_fs s) (sv_i (i_sv s));
  cr_ready : ready cas (i_m s) (i_u s) n;
  cr_rw : rw (i_u s) = UIO_READ;
  cr_off : 0 <= uio_offset (i_u s);
  cr_end : uio_offset (i_u s) + n <= MAXFILE
}.

Record read_to (s : ios D) (n : Z) (s' : ios D) : Prop := {
  rt_fs : same_fs (i_fs s) (i_fs s');
  rt_sv : i_sv s' = i_sv s;
  rt_data : moved (i_m s) (i_u s) (bytes_at (fbyte (i_fs s) (sv_i (i_sv s))) (uio_offset (i_u s)) n) (i_m s');
  rt_uio : i_u s' = advance (i_u s) n
}.

Definition reads (io : exec (ios D * ret unit)) (s : ios D) (n : Z) : Prop :=
  exists s', io = Done (s', Ok tt) /\ read_to s n s'.

Lemma read_to_can cas s n1 n2 s' : can_read cas s (n1 + n2) -> 0 <= n1 -> 0 <= n2 -> read_to s n1 s' ->
  can_read cas s' n2.
Proof.
  intros [] H1 H2 []. split.
  - apply rt_fs0.
  - rewrite rt_sv0. by eapply same_file.
  - rewrite rt_uio0. by eapply ready_rest.
  - by rewrite rt_uio0.
  - rewrite rt_uio0. simpl. lia.
  - rewrite rt_uio0. simpl. lia.
Qed.

Lemma read_nothing cas s n : fs_inv (i_fs s) -> ready cas (i_m s) (i_u s) n -> read_to s 0 s.
Proof. intros Hfs Hr. split; try done; [apply moved_nil|]. symmetry. by eapply advance_0. Qed.

Lemma read_to_nil cas s n : can_read cas s n -> read_to s 0 s.
Proof. intros []. by eapply read_nothing. Qed.

Lemma read_to_trans cas s n1 n2 s1 s2 : can_read cas s (n1 + n2) -> 0 <= n1 -> 0 <= n2 ->
  read_to s n1 s1 -> read_to s1 n2 s2 -> read_to s (n1 + n2) s2.
Proof.
  intros [] H1 H2 [] []. pose proof (ready_less _ _ _ _ n1 cr_ready0 ltac:(lia)) as Hr1. split.
  - by eapply same_fs_trans.
  - congruence.
  - rewrite bytes_at_app by done. apply (moved_app _ _ _ (i_m s1) (i_u s1)); [done| |by rewrite rt_uio0|].
    + assert (uio_offset (i_u s) + n1 = uio_offset (i_u s1)) as -> by (by rewrite rt_uio0).
      rewrite (bytes_at_ext _ (fbyte (i_fs s1) (sv_i (i_sv s1)))); [done|].
      intros x _. rewrite rt_sv0. symmetry. by apply same_fbyte.
    + rewrite rt_uio0, (advance_fields _ _ _ _ Hr1), length_bytes_at. simpl. lia.
  - rewrite rt_uio1, rt_uio0. by eapply advance_add.
Qed.

Lemma reads_then cas io k s n1 n2 : can_read cas s (n1 + n2) -> 0 <= n1 -> 0 <= n2 -> reads io s n1 ->
  (forall s', can_read cas s' n2 -> read_to s n1 s' -> reads (k s') s' n2) ->
  reads (try! s', _u <- io; k s') s (n1 + n2).
Proof.
  intros Hc H1 H2 (s1 & -> & Hrt) Hk. run.
  destruct (Hk s1) as (s2 & -> & Hrt2); [by eapply read_to_can|done|]. exists s2. split; [done|].
  by eapply read_to_trans.
Qed.

Ltac runs := run; cbn [i_fs i_sv i_m i_u]; run.

Lemma read_slot cas s n : can_read cas s n -> uio_offset (i_u s) < MAXFILE ->
  fileblock_of (i_u s) = uio_offset (i_u s) / BLOCK /\ 0 <= uio_offset (i_u s) / BLOCK < NSLOTS /\
  is_write (i_u s) = false.
Proof.
  intros [] Hn. split; [by eapply fileblock_ok|]. split.
  - apply in_file_slot. unfold in_file, MAXFILE in *. lia.
  - unfold is_write. by rewrite cr_rw0.
Qed.

Lemma partialio_reads cas s n : can_read cas s n -> 0 <= n -> uio_offset (i_u s) < MAXFILE ->
  uio_offset (i_u s) mod BLOCK + n <= BLOCK ->
  reads (sfs_partialio cas s (uio_offset (i_u s) mod BLOCK) n) s n.
Proof.
  intros Hc Hn Hlt Hb. destruct (read_slot cas s n Hc Hlt) as (Efb & Hfb & Ew). pose proof Hc as [].
  assert (0 <= uio_offset (i_u s) mod BLOCK) by (apply Z.mod_pos_bound; done).
  unfold sfs_partialio. rewrite u32_small by (unfold BLOCK in *; lia). unfold SFS_BLOCKSIZE.
  rewrite (proj2 (Z.leb_le _ 512)) by (unfold BLOCK in *; lia). run. rewrite Efb, Ew.
  destruct (bmap_find (i_fs s) (i_sv s) _ cr_fs0 cr_file0 Hfb) as (f1 & -> & Hs1). unfold with_fsv. run.
  set (b := slot_block _ _ _). set (data := if b =? 0 then zero_block else dblock (i_fs s) b).
  assert (exists f2, (if b =? 0 then assert! negb (is_write (i_u s)); Done (mk_ios f1 (i_sv s) (i_m s) (i_u s), Ok zero_block)
     else with_fs (mk_ios f1 (i_sv s) (i_m s) (i_u s)) (sfs_rblock f1 b))
     = Done (mk_ios f2 (i_sv s) (i_m s) (i_u s), Ok data) /\ same_fs (i_fs s) f2) as (f2 & E2 & Hs2).
  { unfold data. destruct (Z.eqb_spec b 0) as [E0|E0]; [rewrite Ew; by exists f1|].
    destruct (slot_range _ _ _ cr_file0 Hfb E0) as [Hr _]. fold b in Hr.
    destruct (sfs_rblock_ok f1 b) as (f2 & -> & Hs2); [apply Hs1|unfold nblocks in *; rewrite (sf_super _ _ Hs1); lia|].
    unfold with_fs. run. exists f2. rewrite (sf_blocks _ _ Hs1). split; [done|]. by eapply same_fs_trans. }
  simpl in E2 |- *. rewrite E2. runs.
  assert (Z.of_nat (length data) = BLOCK) as Hl.
  { unfold data. destruct (b =? 0); [done|]. unfold dblock. rewrite (block_length _ _ (fi_dev _ cr_fs0)). done. }
  destruct (uiomove_ok cas (i_m s) data (uio_offset (i_u s) mod BLOCK) n (i_u s)) as (m' & -> & Hm);
    [done|lia|lia|].
  run. rewrite cr_rw0 in Hm. unfold is_write. simpl. rewrite cr_rw0. run.
  eexists. split; [done|]. split; try done. simpl. by rewrite block_bytes by (done || lia).
Qed.

(** [uio_offset] and [uio_resid] are restored after the transfer. *)
Lemma restore_uio cas m u off : ready cas m u BLOCK -> 0 <= uio_offset u ->
  set_offset_resid (advance (set_offset_resid u off BLOCK) BLOCK) (off + BLOCK - off + uio_offset u)
    (u32 (uio_resid (advance (set_offset_resid u off BLOCK) BLOCK) - BLOCK + s32 (uio_resid u)))
  = advance u BLOCK.
Proof.
  intros Hr H0. rewrite (advance_fields cas m u BLOCK Hr). unfold set_offset_resid, advance. simpl. destruct Hr.
  f_equal; try (apply u32_small; lia); try lia. unfold BLOCK in *. change (u32 (512 - 512)) with 0.
  unfold s32. rewrite (u32_small (uio_resid u)) by lia.
  destruct (Z.ltb_spec (uio_resid u) (2 ^ 31)); [rewrite u32_small; lia|].
  unfold u32. rewrite <- (Z_mod_plus_full _ 1). rewrite Z.mod_small; lia.
Qed.

Lemma ready_disk cas m u b : ready cas m u BLOCK -> 0 <= b < 2 ^ 22 - 1 ->
  ready cas m (set_offset_resid u (b * BLOCK) BLOCK) BLOCK.
Proof. intros [] Hb. unfold BLOCK in *. split; simpl; try done; unfold INT_MIN, INT_MAX; lia. Qed.

Lemma diskoff_ok b : 0 <= b < 2 ^ 22 - 1 -> s32 (u32 (b * SFS_BLOCKSIZE)) = b * BLOCK.
Proof.
  intros Hb. unfold s32, SFS_BLOCKSIZE, BLOCK. rewrite !u32_small by (rewrite ?u32_small; lia). by case_bool.
Qed.

Lemma offset_back cas m u off : ready cas m u BLOCK -> INT_MIN <= off -> off + BLOCK <= INT_MAX ->
  0 <= uio_offset u ->
  int (uio_offset (advance (set_offset_resid u off BLOCK) BLOCK) - off) = Done BLOCK /\
  int (BLOCK + uio_offset u) = Done (off + BLOCK - off + uio_offset u).
Proof.
  intros [] Ho Ho' H0. simpl. unfold BLOCK, INT_MIN, INT_MAX in *. split.
  - rewrite int_Done by (unfold INT_MIN, INT_MAX; lia). f_equal. lia.
  - rewrite int_Done by (unfold INT_MIN, INT_MAX; lia). f_equal. lia.
Qed.

Lemma blockio_reads cas s : can_read cas s BLOCK -> uio_offset (i_u s) mod BLOCK = 0 ->
  reads (sfs_blockio cas s) s BLOCK.
Proof.
  intros Hc Ha. pose proof Hc as [].
  destruct (read_slot cas s BLOCK Hc) as (Efb & Hfb & Ew); [unfold BLOCK in *; lia|].
  unfold sfs_blockio. rewrite Efb, Ew.
  destruct (bmap_find (i_fs s) (i_sv s) _ cr_fs0 cr_file0 Hfb) as (f1 & -> & Hs1). unfold with_fsv. runs.
  cbv zeta. set (b := slot_block _ _ _). change SFS_BLOCKSIZE with BLOCK.
  pose proof (block_bytes (i_fs s) (sv_i (i_sv s)) (uio_offset (i_u s)) BLOCK ltac:(lia) ltac:(done) ltac:(lia) cr_fs0) as Hby.
  cbv zeta in Hby. fold b in Hby. rewrite Ha in Hby.
  destruct (Z.eqb_spec b 0) as [E0|E0].
  - rewrite Ew. run. destruct (uiomovezeros_ok cas (i_m s) BLOCK (i_u s)) as (m' & -> & Hm); try done.
    run. eexists. split; [done|]. split; try done. rewrite Hby. exact Hm.
  - destruct (slot_range _ _ _ cr_file0 Hfb E0) as [Hr _]. fold b in Hr.
    pose proof (fi_size _ cr_fs0). pose proof (dev_size _ (fi_dev _ cr_fs0)).
    pose proof (rd_resid _ _ _ _ cr_ready0). rewrite Z.geb_leb, (proj2 (Z.leb_le _ _)) by lia. run.
    pose proof (diskoff_ok b ltac:(lia)) as Ed. change SFS_BLOCKSIZE with BLOCK in Ed. rewrite Ed.
    pose proof (sf_inv _ _ Hs1) as Hfs1.
    destruct (rwblock_read_ok cas (sfs_device f1) (i_m s) (set_offset_resid (i_u s) (b * BLOCK) BLOCK) b)
      as (d' & m' & -> & Hm & Hd); try done; try apply Hfs1; [apply ready_disk; [done|lia]| |].
    { pose proof (fi_size _ Hfs1). unfold nblocks in *. rewrite (sf_super _ _ Hs1) in *. lia. }
    run. destruct (offset_back cas (i_m s) (i_u s) (b * BLOCK)) as [-> E2]; try done;
      [unfold INT_MIN, BLOCK; lia|unfold INT_MAX, BLOCK; lia|]. run. rewrite E2. run.
    rewrite (restore_uio cas (i_m s)) by done. eexists. split; [done|]. destruct Hd as (H1' & H2' & H3' & H4').
    split; try done.
    + eapply same_fs_trans; [done|]. split; try done. by apply set_device_inv.
    + rewrite Hby. unfold sub. rewrite drop_0, take_ge.
      * rewrite <- (sf_blocks _ _ Hs1 b). exact Hm.
      * unfold dblock. rewrite (block_length _ _ (fi_dev _ cr_fs0)). done.
Qed.

Lemma read_to_offset s n s' : read_to s n s' -> uio_offset (i_u s') = uio_offset (i_u s) + n.
Proof. intros []. by rewrite rt_uio0. Qed.

Lemma read_to_resid cas s n n' s' : can_read cas s n' -> 0 <= n <= n' -> read_to s n s' ->
  uio_resid (i_u s') = uio_resid (i_u s) - n.
Proof.
  intros [] Hn []. by rewrite rt_uio0, (advance_fields cas (i_m s)) by (by eapply ready_less).
Qed.

Lemma blockio_loop_reads cas n s : can_read cas s (Z.of_nat n * BLOCK) -> uio_offset (i_u s) mod BLOCK = 0 ->
  reads (blockio_loop n cas s) s (Z.of_nat n * BLOCK).
Proof.
  revert s. induction n as [|n IH]; intros s Hc Ha.
  - exists s. split; [done|]. by apply (read_to_nil cas s 0).
  - cbn [blockio_loop]. replace (Z.of_nat (S n) * BLOCK) with (BLOCK + Z.of_nat n * BLOCK) in * by (unfold BLOCK; lia).
    assert (can_read cas s BLOCK) as Hc1.
    { destruct Hc. split; try done; [eapply ready_less; [done|unfold BLOCK; lia]|unfold BLOCK in *; lia]. }
    apply (reads_then cas); [done|done|unfold BLOCK; lia|by apply blockio_reads|].
    intros s' Hc' Hrt. apply IH; [done|]. rewrite (read_to_offset _ _ _ Hrt).
    rewrite <- Z.add_mod_idemp_l, Ha by done. done.
Qed.

Lemma can_read_less cas s n n' : can_read cas s n -> 0 <= n' <= n -> can_read cas s n'.
Proof. intros [] Hn. split; try done; [by eapply ready_less|lia]. Qed.

Lemma io_aligned_reads cas s n : can_read cas s n -> uio_resid (i_u s) = n -> 0 <= n ->
  (n <> 0 -> uio_offset (i_u s) mod BLOCK = 0) -> reads (io_aligned cas s) s n.
Proof.
  intros Hc En Hn Ha. unfold io_aligned. rewrite En. destruct (Z.eqb_spec n 0) as [->|H0].
  { exists s. split; [done|]. by eapply read_to_nil. }
  specialize (Ha H0). pose proof (cr_off _ _ _ Hc). change SFS_BLOCKSIZE with BLOCK.
  rewrite Z.rem_mod_nonneg, Ha by done. run. cbv zeta.
  assert (Z.of_nat (Z.to_nat (n / BLOCK)) * BLOCK + n mod BLOCK = n) as Hsplit.
  { rewrite Z2Nat.id by (apply Z.div_pos; done). pose proof (Z.div_mod n BLOCK ltac:(done)). lia. }
  pose proof (Z.mod_pos_bound n BLOCK ltac:(done)) as Hm. assert (0 <= Z.of_nat (Z.to_nat (n / BLOCK)) * BLOCK) by (unfold BLOCK; lia).
  refine (eq_ind _ (reads _ s) _ _ Hsplit). apply (reads_then cas); [by rewrite Hsplit|done|lia| |].
  { apply blockio_loop_reads; [|done]. apply (can_read_less cas s n); [done|lia]. }
  intros s1 Hc1 Hrt.
  assert (uio_resid (i_u s1) = n mod BLOCK) as Er.
  { rewrite (read_to_resid cas s (Z.of_nat (Z.to_nat (n / BLOCK)) * BLOCK) n s1) by (done || lia). lia. }
  rewrite Er. rewrite (proj2 (Z.ltb_lt _ _)) by lia. run. rewrite Z.gtb_ltb. destruct (Z.ltb_spec 0 (n mod BLOCK)).
  - assert (uio_offset (i_u s1) mod BLOCK = 0) as Ho.
    { rewrite (read_to_offset _ _ _ Hrt), Z.add_mod, Z_mod_mult, Ha by done. done. }
    pose proof (partialio_reads cas s1 (n mod BLOCK) Hc1) as Hp. rewrite Ho in Hp.
    pose proof (cr_end _ _ _ Hc1). apply Hp; lia.
  - exists s1. split; [done|]. replace (n mod BLOCK) with 0 by lia. by eapply read_to_nil.
Qed.

(** The part of the transfer in the first, partial block. *)
Lemma io_head off n : 0 <= off <= INT_MAX -> 0 <= n ->
  let blkoff := u32 (Z.rem off SFS_BLOCKSIZE) in
  let len := u32 (SFS_BLOCKSIZE - blkoff) in
  let len := if len >? n then n else len in
  blkoff = off mod BLOCK /\ 0 <= len <= n /\ off mod BLOCK + len <= BLOCK /\ (0 < n -> 0 < len) /\
  (n - len <> 0 -> (off + len) mod BLOCK = 0).
Proof.
  intros Ho Hn. cbv zeta. change SFS_BLOCKSIZE with BLOCK. rewrite Z.rem_mod_nonneg by (done || lia).
  pose proof (Z.mod_pos_bound off BLOCK ltac:(done)). unfold BLOCK in *.
  rewrite (u32_small (off mod 512)), u32_small by (rewrite ?u32_small; lia).
  rewrite Z.gtb_ltb. destruct (Z.ltb_spec n (512 - off mod 512)); repeat split; try lia; zlia.
Qed.

Lemma io_body_reads cas s n : can_read cas s n -> uio_resid (i_u s) = n -> 0 <= n ->
  reads (sfs_io_body cas s) s n.
Proof.
  intros Hc En Hn. unfold sfs_io_body. cbv zeta. rewrite En. pose proof Hc as [].
  pose proof (rd_offset _ _ _ _ cr_ready0).
  destruct (io_head (uio_offset (i_u s)) n ltac:(lia) Hn) as (Eb & Hl & Hfit & Hpos & Hal). cbv zeta in *.
  rewrite Eb in *. set (len := if u32 _ >? n then n else _) in *.
  destruct (Z.eqb_spec (uio_offset (i_u s) mod BLOCK) 0) as [E0|E0]; cbn [negb].
  - run. apply io_aligned_reads; done.
  - refine (eq_ind (len + (n - len)) (reads _ s) _ n ltac:(lia)). apply (reads_then cas).
    + by replace (len + (n - len)) with n by lia.
    + lia.
    + lia.
    + apply partialio_reads; [by eapply can_read_less|lia| |done].
      destruct (Z.eq_dec (uio_offset (i_u s)) MAXFILE) as [E|]; [by rewrite E in E0|lia].
    + intros s1 Hc1 Hrt. apply io_aligned_reads; [done| |lia|].
      * rewrite (read_to_resid cas s len n s1) by (done || lia). lia.
      * intros H0. rewrite (read_to_offset _ _ _ Hrt). by apply Hal.
Qed.

(** A file: its block map is sound and its size is one the block map can hold. *)
Record file_wf (f : sfs_fs D) (i : sfs_inode) : Prop := {
  fw_ok : file_ok f i;
  fw_size : 0 <= sfi_size i <= MAXFILE
}.

(** How much a read of [n] bytes at [off] delivers. *)
Definition available (i : sfs_inode) (off n : Z) : Z := Z.min n (Z.max 0 (sfi_size i - off)).

(** The transfer that [sfs_io] trims at the end of the file, and its end. *)
Lemma trim_uio cas m u k extra : ready cas m u k -> uio_resid u = k + extra -> 0 <= extra ->
  ready cas m (set_offset_resid u (uio_offset u) k) k /\
  let u1 := advance (set_offset_resid u (uio_offset u) k) k in
  set_offset_resid u1 (uio_offset u1) (u32 (uio_resid u1 + extra)) = advance u k.
Proof.
  intros Hr He Hp. pose proof Hr as []. assert (ready cas m (set_offset_resid u (uio_offset u) k) k) as Hr'
    by (split; simpl; done || lia).
  split; [done|]. cbv zeta. rewrite (advance_fields cas m u k Hr), (advance_fields cas m _ k Hr').
  unfold set_offset_resid. simpl. f_equal. rewrite u32_small; lia.
Qed.

Lemma sfs_io_reads cas s : fs_inv (i_fs s) -> file_wf (i_fs s) (sv_i (i_sv s)) ->
  rw (i_u s) = UIO_READ -> 0 <= uio_offset (i_u s) -> 0 <= uio_resid (i_u s) ->
  uio_offset (i_u s) + uio_resid (i_u s) <= INT_MAX ->
  let k := available (sv_i (i_sv s)) (uio_offset (i_u s)) (uio_resid (i_u s)) in
  ready cas (i_m s) (i_u s) k -> reads (sfs_io cas s) s k.
Proof.
  intros Hfs [Hf Hsz] Hrw Ho Hn Hend k Hr. unfold available in k. unfold MAXFILE in *.
  assert (forall x, 0 <= x <= NSLOTS * BLOCK -> 0 <= x < 2 ^ 31) as Hmax by (unfold NSLOTS, SFS_NDIRECT, SFS_DBPERIDB, BLOCK; lia).
  unfold sfs_io. cbv zeta. assert (is_write (i_u s) = false) as Ew by (unfold is_write; by rewrite Hrw).
  rewrite Ew. cbn [andb negb]. rewrite !s32_small by (auto || (unfold INT_MAX in *; lia)).
  rewrite Z.geb_leb. destruct (Z.leb_spec (sfi_size (sv_i (i_sv s))) (uio_offset (i_u s))).
  { exists s. split; [done|]. replace k with 0 by lia. by apply (read_nothing cas s k). }
  set (extra := if _ >? _ then _ else 0).
  assert (0 <= extra /\ uio_resid (i_u s) = k + extra /\ (extra = 0 \/ extra < uio_resid (i_u s))) as (He & Ek & Hlt).
  { unfold extra. rewrite Z.gtb_ltb. destruct (Z.ltb_spec (sfi_size (sv_i (i_sv s))) (uio_offset (i_u s) + uio_resid (i_u s))).
    - rewrite u32_small by (unfold INT_MAX in *; lia). lia.
    - lia. }
  assert ((extra =? 0) || (uio_resid (i_u s) >? extra) = true) as -> by (rewrite Z.gtb_ltb; repeat case_bool; lia).
  run. replace (uio_resid (i_u s) - extra) with k by lia.
  destruct (trim_uio cas (i_m s) (i_u s) k extra) as [Hr0 Eu]; try done.
  destruct (io_body_reads cas (mk_ios (i_fs s) (i_sv s) (i_m s) (set_offset_resid (i_u s) (uio_offset (i_u s)) k)) k)
    as (s1 & -> & []); [by split; try done; simpl; unfold MAXFILE; lia|done|lia|].
  run. simpl in *. rewrite rt_uio0. assert (is_write (advance (set_offset_resid (i_u s) (uio_offset (i_u s)) k) k) = false) as ->
    by (unfold is_write in *; simpl; done).
  cbn [andb]. eexists. split; [done|]. by split.
Qed.

(** ** Writing *)

Lemma overwrite_block (f : sfs_fs D) i fb d' data : fs_inv f -> file_ok f i -> 0 <= fb < NSLOTS ->
  slot_block f i fb <> 0 -> fs_inv (set_device f d') ->
  (forall x, dblock (set_device f d') x = if decide (x = slot_block f i fb) then data else dblock f x) ->
  step f i (set_device f d') i /\
  forall p, in_file p -> fbyte (set_device f d') i p =
    if decide (p / BLOCK = fb) then byte_at data (p mod BLOCK) else fbyte f i p.
Proof.
  intros Hfs Hf Hfb H0 Hfs' Hblk. set (f' := set_device f d') in *.
  assert (forall x, slot_block f' i x = slot_block f i x) as Hslot.
  { intros x. unfold slot_block. case_bool. case_bool. rewrite Hblk, decide_False; [done|].
    intros E. by apply (fo_ind _ _ Hf fb). }
  assert (forall x, owned f' i x <-> owned f i x) as Hown.
  { intros x. unfold owned. by setoid_rewrite Hslot. }
  split.
  - split; try done.
    + split; [apply Hf|..].
      * intros x Hx. apply Hown in Hx. by apply (fo_range _ _ Hf).
      * intros x y Hx Hy. rewrite !Hslot. by apply Hf.
      * intros x Hx. rewrite Hslot. by apply Hf.
    + intros x _ _. apply Hown.
    + intros x _ _ Hno. rewrite Hblk, decide_False; [done|]. intros ->. apply Hno. by apply owned_slot.
  - intros p Hp. pose proof (in_file_slot p Hp) as Hps. unfold fbyte. rewrite Hslot. case_decide as Hd.
    + rewrite Hd. destruct (Z.eqb_spec (slot_block f i fb) 0); [done|]. by rewrite Hblk, decide_True.
    + destruct (Z.eqb_spec (slot_block f i (p / BLOCK)) 0); [done|]. rewrite Hblk, decide_False; [done|].
      intros E. apply Hd. by apply (fo_inj _ _ Hf).
Qed.

(** Writing [l] within block [off / BLOCK] of the file. *)
Lemma splice_bytes (g : Z -> Z) data off l p : 0 <= off -> off mod BLOCK + Z.of_nat (length l) <= BLOCK ->
  Z.of_nat (length data) = BLOCK -> 0 <= p ->
  (p / BLOCK = off / BLOCK -> g p = byte_at data (p mod BLOCK)) ->
  (if decide (p / BLOCK = off / BLOCK) then byte_at (splice data (off mod BLOCK) l) (p mod BLOCK) else g p)
  = fill g off l p.
Proof.
  intros H0 Hl Hd Hp Hg. pose proof (Z.mod_pos_bound off BLOCK ltac:(done)). pose proof (Z.mod_pos_bound p BLOCK ltac:(done)).
  pose proof (Z.div_mod off BLOCK ltac:(done)) as Eo. pose proof (Z.div_mod p BLOCK ltac:(done)) as Ep.
  case_decide as Hb.
  - specialize (Hg Hb). rewrite Hb in Ep. unfold byte_at. rewrite lookup_splice by lia. case_decide as Hin.
    + destruct (lookup_lt_is_Some_2 l (Z.to_nat (p mod BLOCK) - Z.to_nat (off mod BLOCK))) as [y Hy]; [lia|].
      rewrite Hy. symmetry. apply fill_in; [lia|].
      by replace (Z.to_nat (p - off)) with (Z.to_nat (p mod BLOCK) - Z.to_nat (off mod BLOCK))%nat by lia.
    + rewrite fill_out by lia. by rewrite Hg.
  - symmetry. apply fill_out. unfold BLOCK in *. destruct (Z.lt_ge_cases (p / 512) (off / 512)); lia.
Qed.

Record can_write (cas : option Z) (s : ios D) (n : Z) : Prop := {
  cw_fs : fs_inv (i_fs s);
  cw_file : file_ok (i_fs s) (sv_i (i_sv s));
  cw_ready : ready cas (i_m s) (i_u s) n;
  cw_rw : rw (i_u s) = UIO_WRITE;
  cw_off : 0 <= uio_offset (i_u s)
}.

(** The first [n] bytes of the region are in the file. *)
Record wrote (s : ios D) (n : Z) (s' : ios D) : Prop := {
  wt_step : step (i_fs s) (sv_i (i_sv s)) (i_fs s') (sv_i (i_sv s'));
  wt_size : sfi_size (sv_i (i_sv s')) = sfi_size (sv_i (i_sv s));
  wt_bytes p : in_file p -> fbyte (i_fs s') (sv_i (i_sv s')) p =
    fill (fbyte (i_fs s) (sv_i (i_sv s))) (uio_offset (i_u s)) (get_region (i_m s) (i_u s) n) p;
  wt_sv : vn_refcount (i_sv s') = vn_refcount (i_sv s) /\ vn_opencount (i_sv s') = vn_opencount (i_sv s) /\
          vn_ops (i_sv s') = vn_ops (i_sv s) /\ sv_ino (i_sv s') = sv_ino (i_sv s);
  wt_dirty : sv_dirty (i_sv s') = false -> i_sv s' = i_sv s;
  wt_mem : i_m s' = i_m s;
  wt_uio : i_u s' = advance (i_u s) n
}.

(** A transfer of [n] bytes ends after the last byte, when the disk is full or at
    the largest size of a file. *)
Definition writes (io : exec (ios D * ret unit)) (s : ios D) (n : Z) : Prop :=
  exists s' r k, io = Done (s', r) /\ 0 <= k <= n /\ (k = 0 \/ uio_offset (i_u s) + k <= MAXFILE) /\ wrote s k s' /\
    match r with
    | Ok _ => k = n
    | Err e => e = ENOSPC /\ disk_full (i_fs s') \/ e = EINVAL /\ MAXFILE < uio_offset (i_u s) + n
    end.

(** A transfer that is all or nothing. *)
Definition writes1 (io : exec (ios D * ret unit)) (s : ios D) (n : Z) : Prop :=
  exists s' r, io = Done (s', r) /\
    match r with
    | Ok _ => wrote s n s' /\ uio_offset (i_u s) + n <= MAXFILE
    | Err e => wrote s 0 s' /\
        (e = ENOSPC /\ disk_full (i_fs s') /\ slot_block (i_fs s) (sv_i (i_sv s)) (uio_offset (i_u s) / BLOCK) = 0 \/
         e = EINVAL /\ MAXFILE < uio_offset (i_u s) + n)
    end.

Lemma writes1_writes io s n : 0 <= n -> writes1 io s n -> writes io s n.
Proof.
  intros Hn (s' & r & -> & Hr). destruct r as [u|e]; destruct Hr as [Hw Hm].
  - exists s', (Ok u), n. split; [done|]. split; [lia|]. split; [by right|]. done.
  - exists s', (Err e), 0. split; [done|]. split; [lia|]. split; [by left|]. split; [done|]. destruct Hm as [(-> & ? & _)|?]; auto.
Qed.

Lemma grown_wrote cas s n f' sv' : can_write cas s n -> grown (i_fs s) (i_sv s) f' sv' ->
  wrote s 0 (mk_ios f' sv' (i_m s) (i_u s)).
Proof.
  intros [] []. split; try done; [|symmetry; by eapply advance_0]. intros p Hp. rewrite gr_bytes0 by done.
  symmetry. apply fill_out. rewrite length_get_region. lia.
Qed.

Lemma wrote_nothing cas s n : can_write cas s n -> wrote s 0 s.
Proof.
  intros Hc. pose proof (grown_wrote cas s n (i_fs s) (i_sv s) Hc) as H. destruct s. apply H. destruct Hc.
  apply grown_same; [by apply same_fs_refl|done].
Qed.

Lemma wrote_can cas s n1 n2 s' : can_write cas s (n1 + n2) -> 0 <= n1 -> 0 <= n2 -> wrote s n1 s' ->
  can_write cas s' n2.
Proof.
  intros [] H1 H2 []. split.
  - apply wt_step0.
  - apply wt_step0.
  - rewrite wt_mem0, wt_uio0. eapply ready_rest; [done..|]. apply moved_nil.
  - by rewrite wt_uio0.
  - rewrite wt_uio0. simpl. lia.
Qed.

Lemma can_write_less cas s n n' : can_write cas s n -> 0 <= n' <= n -> can_write cas s n'.
Proof. intros [] Hn. split; try done. by eapply ready_less. Qed.

Lemma fill_then {A} (f g : Z -> A) a l1 l2 p : g p = fill f a l1 p ->
  fill g (a + Z.of_nat (length l1)) l2 p = fill f a (l1 ++ l2) p.
Proof.
  intros E. rewrite <- (fill_app f (fill f a l1) (fill (fill f a l1) (a + Z.of_nat (length l1)) l2)) by done.
  unfold fill at 1 2. by rewrite E.
Qed.

Lemma wrote_trans cas s n1 n2 s1 s2 : can_write cas s (n1 + n2) -> 0 <= n1 -> 0 <= n2 ->
  wrote s n1 s1 -> wrote s1 n2 s2 -> wrote s (n1 + n2) s2.
Proof.
  intros [] H1 H2 [] []. split.
  - by eapply step_trans.
  - congruence.
  - intros p Hp. rewrite wt_bytes1 by done. rewrite wt_mem0, wt_uio0.
    rewrite (get_region_app cas) by done.
    rewrite <- (fill_then _ _ _ _ _ _ (wt_bytes0 p Hp)), length_get_region, Z2Nat.id by done. done.
  - intuition congruence.
  - intros E. rewrite (wt_dirty1 E) in E |- *. by apply wt_dirty0.
  - congruence.
  - rewrite wt_uio1, wt_uio0. by eapply advance_add.
Qed.

Lemma writes_then cas io k s n1 n2 : can_write cas s (n1 + n2) -> 0 <= n1 -> 0 <= n2 -> writes io s n1 ->
  (forall s', can_write cas s' n2 -> wrote s n1 s' -> writes (k s') s' n2) ->
  writes (try! s', _u <- io; k s') s (n1 + n2).
Proof.
  intros Hc H1 H2 (s1 & r & j & -> & Hj & Hm & Hw & Hr) Hk. destruct r as [?|e]; run.
  - subst j. destruct (Hk s1) as (s2 & r & j & -> & Hj2 & Hm2 & Hw2 & Hr2); [by eapply wrote_can|done|].
    exists s2, r, (n1 + j). split; [done|]. split; [lia|].
    assert (uio_offset (i_u s1) = uio_offset (i_u s) + n1) as Eo by (by rewrite (wt_uio _ _ _ Hw)).
    rewrite Eo in Hr2, Hm2. split; [lia|]. split; [|destruct r; [lia|]; destruct Hr2 as [|[? ?]]; [by left|right; split; [done|lia]]].
    eapply (wrote_trans cas); [|done|lia|done|done]. eapply can_write_less; [done|lia].
  - exists s1, (Err e), j. split; [done|]. split; [lia|]. split; [done|]. split; [done|].
    destruct Hr as [|[? ?]]; [by left|right; split; [done|lia]].
Qed.

Lemma bmap_write cas s n : can_write cas s n ->
  exists f1 sv1 r, with_fsv s (sfs_bmap (i_fs s) (i_sv s) (fileblock_of (i_u s)) (is_write (i_u s)))
      = Done (mk_ios f1 sv1 (i_m s) (i_u s), r) /\ grown (i_fs s) (i_sv s) f1 sv1 /\
    match r with
    | Ok b => 0 <= uio_offset (i_u s) / BLOCK < NSLOTS /\ b <> 0 /\
              slot_block f1 (sv_i sv1) (uio_offset (i_u s) / BLOCK) = b
    | Err e => e = ENOSPC /\ disk_full f1 /\ slot_block (i_fs s) (sv_i (i_sv s)) (uio_offset (i_u s) / BLOCK) = 0 \/
               e = EINVAL /\ MAXFILE <= uio_offset (i_u s)
    end.
Proof.
  intros []. rewrite (fileblock_ok cas (i_m s) _ n) by done. unfold is_write. rewrite cw_rw0.
  rewrite bool_decide_true by done. unfold with_fsv.
  assert (0 <= uio_offset (i_u s) / BLOCK) by (apply Z.div_pos; done).
  destruct (Z.lt_ge_cases (uio_offset (i_u s) / BLOCK) NSLOTS).
  - destruct (bmap_alloc (i_fs s) (i_sv s) (uio_offset (i_u s) / BLOCK)) as (f1 & sv1 & r & -> & Hg & Hr); try done.
    run. exists f1, sv1, r. split; [done|]. split; [done|]. destruct r; [by destruct Hr|by left].
  - rewrite bmap_beyond by lia. run. exists (i_fs s), (i_sv s), (Err EINVAL). split; [done|]. split.
    + apply grown_same; [by apply same_fs_refl|done].
    + right. split; [done|]. unfold MAXFILE, BLOCK in *. zlia.
Qed.

(** One block is overwritten after the allocation. *)
Lemma wrote_block s n f1 sv1 d' : grown (i_fs s) (i_sv s) f1 sv1 -> 0 <= uio_offset (i_u s) -> 0 <= n ->
  0 <= uio_offset (i_u s) / BLOCK < NSLOTS -> uio_offset (i_u s) mod BLOCK + n <= BLOCK ->
  let b := slot_block f1 (sv_i sv1) (uio_offset (i_u s) / BLOCK) in
  b <> 0 -> fs_inv (set_device f1 d') ->
  (forall x, dblock (set_device f1 d') x = if decide (x = b)
    then splice (dblock f1 b) (uio_offset (i_u s) mod BLOCK) (get_region (i_m s) (i_u s) n) else dblock f1 x) ->
  wrote s n (mk_ios (set_device f1 d') sv1 (i_m s) (advance (i_u s) n)).
Proof.
  intros Hg H0 Hn Hfb Hfit b Hb Hinv Hblk. pose proof Hg as []. pose proof (st_inv _ _ _ _ gr_step0) as Hfs1.
  destruct (overwrite_block f1 (sv_i sv1) (uio_offset (i_u s) / BLOCK) d'
    (splice (dblock f1 b) (uio_offset (i_u s) mod BLOCK) (get_region (i_m s) (i_u s) n))) as [Hst Hby]; try done; [apply gr_step0|].
  split; simpl; try done; [by eapply step_trans|]. intros p Hp. rewrite Hby by done.
  assert (0 <= p) as Hp0 by (destruct Hp; done).
  assert (Z.of_nat (length (dblock f1 b)) = BLOCK) as Hl.
  { unfold dblock. rewrite (block_length _ _ (fi_dev _ Hfs1)). done. }
  rewrite splice_bytes; [|done|rewrite length_get_region; lia|done|done|].
  - unfold fill. by rewrite gr_bytes0.
  - intros E. unfold fbyte. rewrite E. fold b. by destruct (Z.eqb_spec b 0).
Qed.

Lemma write_end off n : 0 <= off -> off / BLOCK < NSLOTS -> off mod BLOCK + n <= BLOCK -> off + n <= MAXFILE.
Proof. unfold MAXFILE, NSLOTS, SFS_NDIRECT, SFS_DBPERIDB, BLOCK. intros. zlia. Qed.

Lemma partialio_writes cas s n : can_write cas s n -> 0 <= n ->
  (0 < n \/ uio_offset (i_u s) mod BLOCK <> 0) -> uio_offset (i_u s) mod BLOCK + n <= BLOCK ->
  writes1 (sfs_partialio cas s (uio_offset (i_u s) mod BLOCK) n) s n.
Proof.
  intros Hc Hn Hne Hb. pose proof Hc as []. pose proof (Z.mod_pos_bound (uio_offset (i_u s)) BLOCK ltac:(done)).
  unfold sfs_partialio. rewrite u32_small by (unfold BLOCK in *; lia).
  rewrite (proj2 (Z.leb_le _ SFS_BLOCKSIZE)) by (unfold BLOCK, SFS_BLOCKSIZE in *; lia). run. cbv zeta.
  destruct (bmap_write cas s n Hc) as (f1 & sv1 & r & -> & Hg & Hr). destruct r as [b|e]; runs.
  2:{ exists (mk_ios f1 sv1 (i_m s) (i_u s)), (Err e). split; [done|].
      split; [by eapply grown_wrote|]. destruct Hr as [|[-> Hm]]; [by left|right; split; [done|]].
      destruct Hne as [|Hne]; [lia|]. destruct (Z.eq_dec (uio_offset (i_u s)) MAXFILE) as [E|]; [by rewrite E in Hne|lia]. }
  destruct Hr as (Hfb & Hb0 & Hsl). destruct (Z.eqb_spec b 0); [done|].
  pose proof (gr_step _ _ _ _ Hg) as Hst. pose proof (st_inv _ _ _ _ Hst) as Hfs1.
  pose proof (slot_range f1 (sv_i sv1) _ (st_file _ _ _ _ Hst) Hfb) as Hr. rewrite Hsl in Hr. destruct (Hr Hb0) as [Hrg _].
  destruct (sfs_rblock_ok f1 b Hfs1) as (f2 & -> & Hs2); [lia|]. unfold with_fs. runs.
  assert (Z.of_nat (length (dblock f1 b)) = BLOCK) as Hl.
  { unfold dblock. rewrite (block_length _ _ (fi_dev _ Hfs1)). done. }
  destruct (uiomove_ok cas (i_m s) (dblock f1 b) (uio_offset (i_u s) mod BLOCK) n (i_u s)) as (m' & -> & Hm); [done|lia|lia|].
  rewrite cw_rw0 in *. subst m'. run. cbv zeta. unfold is_write. simpl. rewrite cw_rw0.
  rewrite bool_decide_true by done. run. runs.
  destruct (sfs_wblock_ok f2 (splice (dblock f1 b) (uio_offset (i_u s) mod BLOCK) (get_region (i_m s) (i_u s) n)) b)
    as (d' & -> & Hinv & Hblk); [apply Hs2|unfold nblocks in *; rewrite (sf_super _ _ Hs2); lia| |].
  { rewrite length_splice; [lia|lia|]. rewrite length_get_region. lia. }
  run. eexists _, (Ok tt). split; [done|]. split; [|apply write_end; done || lia].
  - assert (grown (i_fs s) (i_sv s) f2 sv1) as Hg2.
    { eapply grown_trans; [done|]. apply grown_same; [done|apply Hst]. }
    apply wrote_block; try done.
    + by rewrite (same_slot f1 f2), Hsl by done.
    + intros x. rewrite (same_slot f1 f2) by done. rewrite Hsl, (sf_blocks _ _ Hs2 b). apply Hblk.
Qed.

Lemma blockio_writes cas s : can_write cas s BLOCK -> uio_offset (i_u s) mod BLOCK = 0 ->
  writes (sfs_blockio cas s) s BLOCK.
Proof.
  intros Hc Ha. pose proof Hc as []. unfold sfs_blockio. cbv zeta.
  destruct (bmap_write cas s BLOCK Hc) as (f1 & sv1 & r & -> & Hg & Hr). destruct r as [b|e]; runs.
  2:{ exists (mk_ios f1 sv1 (i_m s) (i_u s)), (Err e), 0. split; [done|]. split; [done|]. split; [by left|].
      split; [by eapply grown_wrote|]. destruct Hr as [(-> & Hful & _)|[-> Hm]]; [by left|right; split; [done|]].
      unfold BLOCK. lia. }
  destruct Hr as (Hfb & Hb0 & Hsl). destruct (Z.eqb_spec b 0); [done|].
  pose proof (gr_step _ _ _ _ Hg) as Hst. pose proof (st_inv _ _ _ _ Hst) as Hfs1.
  pose proof (slot_range f1 (sv_i sv1) _ (st_file _ _ _ _ Hst) Hfb) as Hr. rewrite Hsl in Hr. destruct (Hr Hb0) as [Hrg _].
  pose proof (fi_size _ Hfs1). pose proof (dev_size _ (fi_dev _ Hfs1)). change SFS_BLOCKSIZE with BLOCK.
  pose proof (rd_resid _ _ _ _ cw_ready0). rewrite Z.geb_leb, (proj2 (Z.leb_le _ _)) by lia. run.
  pose proof (diskoff_ok b ltac:(lia)) as Ed. change SFS_BLOCKSIZE with BLOCK in Ed. rewrite Ed.
  destruct (rwblock_write_ok cas (sfs_device f1) (i_m s) (set_offset_resid (i_u s) (b * BLOCK) BLOCK) b)
    as (d' & -> & H1' & H2' & H3' & H4'); try done; try apply Hfs1; [apply ready_disk; [done|lia]|lia|].
  run. destruct (offset_back cas (i_m s) (i_u s) (b * BLOCK)) as [-> E2]; try done;
    [unfold INT_MIN, BLOCK; lia|unfold INT_MAX, BLOCK; lia|]. run. rewrite E2. run.
  rewrite (restore_uio cas (i_m s)) by done. eexists _, (Ok tt), BLOCK. split; [done|]. split; [done|].
  split; [|split; [|done]].
  - right. apply write_end; [done|lia|]. rewrite Ha. done.
  - apply wrote_block; try done; [lia|by rewrite Hsl|by apply set_device_inv|].
    intros x. rewrite Hsl, Ha. unfold dblock. simpl. rewrite H4'. case_decide; [|done].
    unfold splice. rewrite length_get_region. change (Z.to_nat 0) with 0%nat. rewrite take_0, drop_ge, app_nil_r; [done|].
    rewrite (block_length _ _ (fi_dev _ Hfs1)). lia.
Qed.

Lemma wrote_offset s n s' : wrote s n s' -> uio_offset (i_u s') = uio_offset (i_u s) + n.
Proof. intros []. by rewrite wt_uio0. Qed.

Lemma wrote_resid cas s n n' s' : can_write cas s n' -> 0 <= n <= n' -> wrote s n s' ->
  uio_resid (i_u s') = uio_resid (i_u s) - n.
Proof.
  intros [] Hn []. by rewrite wt_uio0, (advance_fields cas (i_m s)) by (by eapply ready_less).
Qed.

Lemma writes_nothing cas s n : can_write cas s n -> writes (Done (s, Ok tt)) s 0.
Proof.
  intros Hc. exists s, (Ok tt), 0. split; [done|]. split; [done|]. split; [by left|]. split; [by eapply wrote_nothing|done].
Qed.

Lemma blockio_loop_writes cas n s : can_write cas s (Z.of_nat n * BLOCK) -> uio_offset (i_u s) mod BLOCK = 0 ->
  writes (blockio_loop n cas s) s (Z.of_nat n * BLOCK).
Proof.
  revert s. induction n as [|n IH]; intros s Hc Ha.
  - by eapply writes_nothing.
  - cbn [blockio_loop]. replace (Z.of_nat (S n) * BLOCK) with (BLOCK + Z.of_nat n * BLOCK) in * by (unfold BLOCK; lia).
    assert (can_write cas s BLOCK) as Hc1 by (eapply can_write_less; [done|unfold BLOCK; lia]).
    apply (writes_then cas); [done|done|unfold BLOCK; lia|by apply blockio_writes|].
    intros s' Hc' Hw. apply IH; [done|]. rewrite (wrote_offset _ _ _ Hw).
    rewrite <- Z.add_mod_idemp_l, Ha by done. done.
Qed.

Lemma io_aligned_writes cas s n : can_write cas s n -> uio_resid (i_u s) = n -> 0 <= n ->
  (n <> 0 -> uio_offset (i_u s) mod BLOCK = 0) -> writes (io_aligned cas s) s n.
Proof.
  intros Hc En Hn Ha. unfold io_aligned. rewrite En. destruct (Z.eqb_spec n 0) as [->|H0].
  { by eapply writes_nothing. }
  specialize (Ha H0). pose proof (cw_off _ _ _ Hc). change SFS_BLOCKSIZE with BLOCK.
  rewrite Z.rem_mod_nonneg, Ha by done. run. cbv zeta.
  assert (Z.of_nat (Z.to_nat (n / BLOCK)) * BLOCK + n mod BLOCK = n) as Hsplit.
  { rewrite Z2Nat.id by (apply Z.div_pos; done). pose proof (Z.div_mod n BLOCK ltac:(done)). lia. }
  pose proof (Z.mod_pos_bound n BLOCK ltac:(done)) as Hm. assert (0 <= Z.of_nat (Z.to_nat (n / BLOCK)) * BLOCK) by (unfold BLOCK; lia).
  refine (eq_ind _ (writes _ s) _ _ Hsplit). apply (writes_then cas); [by rewrite Hsplit|done|lia| |].
  { apply blockio_loop_writes; [|done]. apply (can_write_less cas s n); [done|lia]. }
  intros s1 Hc1 Hw.
  assert (uio_resid (i_u s1) = n mod BLOCK) as Er.
  { rewrite (wrote_resid cas s (Z.of_nat (Z.to_nat (n / BLOCK)) * BLOCK) n s1) by (done || lia). lia. }
  rewrite Er. rewrite (proj2 (Z.ltb_lt _ _)) by lia. run. rewrite Z.gtb_ltb. destruct (Z.ltb_spec 0 (n mod BLOCK)).
  - assert (uio_offset (i_u s1) mod BLOCK = 0) as Ho.
    { rewrite (wrote_offset _ _ _ Hw), Z.add_mod, Z_mod_mult, Ha by done. done. }
    pose proof (partialio_writes cas s1 (n mod BLOCK) Hc1) as Hp. rewrite Ho in Hp. apply writes1_writes; [lia|]. apply Hp; lia.
  - replace (n mod BLOCK) with 0 in * by lia. by eapply writes_nothing.
Qed.

Lemma io_body_writes cas s n : can_write cas s n -> uio_resid (i_u s) = n -> 0 <= n ->
  writes (sfs_io_body cas s) s n.
Proof.
  intros Hc En Hn. unfold sfs_io_body. cbv zeta. rewrite En. pose proof Hc as [].
  pose proof (rd_offset _ _ _ _ cw_ready0).
  destruct (io_head (uio_offset (i_u s)) n ltac:(lia) Hn) as (Eb & Hl & Hfit & Hpos & Hal). cbv zeta in *.
  rewrite Eb in *. set (len := if u32 _ >? n then n else _) in *.
  destruct (Z.eqb_spec (uio_offset (i_u s) mod BLOCK) 0) as [E0|E0]; cbn [negb].
  - run. apply io_aligned_writes; done.
  - refine (eq_ind (len + (n - len)) (writes _ s) _ n ltac:(lia)). apply (writes_then cas).
    + by replace (len + (n - len)) with n by lia.
    + lia.
    + lia.
    + apply writes1_writes; [lia|]. apply partialio_writes; [by eapply can_write_less|lia|by right|done].
    + intros s1 Hc1 Hw. apply io_aligned_writes; [done| |lia|].
      * rewrite (wrote_resid cas s len n s1) by (done || lia). lia.
      * intros H0. rewrite (wrote_offset _ _ _ Hw). by apply Hal.
Qed.

(** ** [sfs_io] *)

(** [k] bytes are in the file, whose size covers them. *)
Record file_written (s : ios D) (k : Z) (s' : ios D) : Prop := {
  wn_step : step (i_fs s) (sv_i (i_sv s)) (i_fs s') (sv_i (i_sv s'));
  wn_size : sfi_size (sv_i (i_sv s')) = Z.max (sfi_size (sv_i (i_sv s))) (uio_offset (i_u s) + k);
  wn_bytes p : in_file p -> fbyte (i_fs s') (sv_i (i_sv s')) p =
    fill (fbyte (i_fs s) (sv_i (i_sv s))) (uio_offset (i_u s)) (get_region (i_m s) (i_u s) k) p;
  wn_sv : vn_refcount (i_sv s') = vn_refcount (i_sv s) /\ vn_opencount (i_sv s') = vn_opencount (i_sv s) /\
          vn_ops (i_sv s') = vn_ops (i_sv s) /\ sv_ino (i_sv s') = sv_ino (i_sv s);
  wn_dirty : sv_dirty (i_sv s') = false -> i_sv s' = i_sv s;
  wn_mem : i_m s' = i_m s;
  wn_uio : i_u s' = advance (i_u s) k
}.

Lemma set_offset_resid_id u : set_offset_resid u (uio_offset u) (uio_resid u) = u.
Proof. by destruct u. Qed.

Lemma sfs_io_wrap cas s s1 r k : can_write cas s (uio_resid (i_u s)) ->
  0 <= sfi_size (sv_i (i_sv s)) < 2 ^ 31 ->
  sfs_io_body cas s = Done (s1, r) -> 0 <= k <= uio_resid (i_u s) -> wrote s k s1 ->
  exists s', sfs_io cas s = Done (s', r) /\ file_written s k s' /\ i_fs s' = i_fs s1.
Proof.
  intros Hc Hsz E Hk Hw. pose proof Hc as []. unfold sfs_io. cbv zeta.
  assert (is_write (i_u s) = true) as Ew by (unfold is_write; by rewrite cw_rw0).
  rewrite Ew. cbn [andb negb]. change (0 =? 0) with true. run.
  rewrite Z.sub_0_r, set_offset_resid_id. replace (mk_ios _ _ _ _) with s by (by destruct s). rewrite E. run.
  pose proof (rd_offset _ _ _ _ cw_ready0). pose proof (rd_resid _ _ _ _ cw_ready0). unfold INT_MAX in *.
  pose proof (wrote_offset _ _ _ Hw) as Eo. pose proof (wrote_resid cas s k _ s1 Hc Hk Hw) as Er.
  pose proof Hw as []. assert (is_write (i_u s1) = true) as -> by (rewrite wt_uio0; done). cbn [andb].
  rewrite Z.add_0_r, (u32_small (uio_resid (i_u s1))), set_offset_resid_id by lia.
  rewrite wt_size0, (s32_small (sfi_size _)), Z.gtb_ltb by done.
  eexists. split; [done|].
  destruct (Z.ltb_spec (sfi_size (sv_i (i_sv s))) (uio_offset (i_u s1))); (split; [|done]).
  - split; simpl; try done; [|rewrite u32_small; lia]. destruct wt_step0. split; try done.
    by destruct st_file0.
  - split; simpl; try done. rewrite wt_size0. lia.
Qed.

Lemma sfs_io_writes cas s : can_write cas s (uio_resid (i_u s)) -> 0 <= uio_resid (i_u s) ->
  0 <= sfi_size (sv_i (i_sv s)) < 2 ^ 31 ->
  exists s' r k, sfs_io cas s = Done (s', r) /\ 0 <= k <= uio_resid (i_u s) /\
    (k = 0 \/ uio_offset (i_u s) + k <= MAXFILE) /\ file_written s k s' /\
    match r with
    | Ok _ => k = uio_resid (i_u s)
    | Err e => e = ENOSPC /\ disk_full (i_fs s') \/ e = EINVAL /\ MAXFILE < uio_offset (i_u s) + uio_resid (i_u s)
    end.
Proof.
  intros Hc Hn Hsz.
  destruct (io_body_writes cas s (uio_resid (i_u s)) Hc eq_refl Hn) as (s1 & r & k & E & Hk & Hm & Hw & Hr).
  destruct (sfs_io_wrap cas s s1 r k) as (s' & -> & Hw' & Ef); try done. exists s', r, k. by rewrite Ef.
Qed.

(** A request within one block is all or nothing. *)
Lemma io_body_one cas s n : can_write cas s n -> uio_resid (i_u s) = n -> 0 < n < BLOCK ->
  uio_offset (i_u s) mod BLOCK + n <= BLOCK -> writes1 (sfs_io_body cas s) s n.
Proof.
  intros Hc En Hn Hfit. pose proof Hc as []. pose proof (rd_offset _ _ _ _ cw_ready0).
  pose proof (Z.mod_pos_bound (uio_offset (i_u s)) BLOCK ltac:(done)).
  assert (writes1 (sfs_partialio cas s (uio_offset (i_u s) mod BLOCK) n) s n) as Hp
    by (apply partialio_writes; done || lia).
  destruct (io_head (uio_offset (i_u s)) n ltac:(lia) ltac:(lia)) as (Eb & Hl & Hfit' & Hpos & Hal).
  unfold sfs_io_body. cbv zeta in *. rewrite En, Eb in *.
  destruct (Z.eqb_spec (uio_offset (i_u s) mod BLOCK) 0) as [E0|E0]; cbn [negb].
  - run. unfold io_aligned. rewrite En. destruct (Z.eqb_spec n 0); [lia|]. change SFS_BLOCKSIZE with BLOCK.
    rewrite Z.rem_mod_nonneg, E0 by done. run. rewrite Z.div_small by lia. simpl. rewrite En.
    rewrite (proj2 (Z.ltb_lt _ _)), Z.gtb_ltb, (proj2 (Z.ltb_lt _ _)) by lia. by rewrite E0 in Hp.
  - rewrite u32_small by (unfold BLOCK, SFS_BLOCKSIZE in *; lia). change SFS_BLOCKSIZE with BLOCK.
    replace (if BLOCK - uio_offset (i_u s) mod BLOCK >? n then n else BLOCK - uio_offset (i_u s) mod BLOCK) with n
      by (rewrite Z.gtb_ltb; case_bool; lia).
    destruct Hp as (s1 & r & -> & Hr). destruct r as [x|e]; run; [|by exists s1, (Err e)].
    exists s1, (Ok x). split; [|done]. unfold io_aligned.
    rewrite (wrote_resid cas s n n s1) by (done || lia || apply Hr). rewrite En, Z.sub_diag. by destruct x.
Qed.

Lemma sfs_io_one cas s : can_write cas s (uio_resid (i_u s)) -> 0 < uio_resid (i_u s) < BLOCK ->
  uio_offset (i_u s) mod BLOCK + uio_resid (i_u s) <= BLOCK -> 0 <= sfi_size (sv_i (i_sv s)) < 2 ^ 31 ->
  exists s' r, sfs_io cas s = Done (s', r) /\
    match r with
    | Ok _ => file_written s (uio_resid (i_u s)) s' /\ uio_offset (i_u s) + uio_resid (i_u s) <= MAXFILE
    | Err e => file_written s 0 s' /\
        (e = ENOSPC /\ disk_full (i_fs s') /\ slot_block (i_fs s) (sv_i (i_sv s)) (uio_offset (i_u s) / BLOCK) = 0 \/ e = EINVAL /\ MAXFILE < uio_offset (i_u s) + uio_resid (i_u s))
    end.
Proof.
  intros Hc Hn Hfit Hsz. destruct (io_body_one cas s _ Hc eq_refl Hn Hfit) as (s1 & r & E & Hr).
  destruct r as [x|e]; destruct Hr as [Hw Hm].
  - destruct (sfs_io_wrap cas s s1 (Ok x) (uio_resid (i_u s))) as (s' & -> & Hw' & _); try done; [lia|].
    by exists s', (Ok x).
  - destruct (sfs_io_wrap cas s s1 (Err e) 0) as (s' & -> & Hw' & Ef); try done; [lia|]. exists s', (Err e). by rewrite Ef.
Qed.

(** ** The file as a sequence of bytes *)

Definition contents (f : sfs_fs D) (i : sfs_inode) : list Z := bytes_at (fbyte f i) 0 (sfi_size i).

Lemma lookup_contents f i p : 0 <= p < sfi_size i -> contents f i !! Z.to_nat p = Some (fbyte f i p).
Proof. intros Hp. unfold contents. rewrite lookup_bytes_at by lia. do 2 f_equal. lia. Qed.

Lemma length_contents f i : length (contents f i) = Z.to_nat (sfi_size i).
Proof. apply length_bytes_at. Qed.

Lemma contents_sub f i off n : 0 <= off -> 0 <= sfi_size i ->
  bytes_at (fbyte f i) off (available i off n) = sub (contents f i) off n.
Proof.
  intros Ho Hs. unfold available. apply list_eq. intros k.
  destruct (decide (k < Z.to_nat (Z.min n (Z.max 0 (sfi_size i - off))))%nat) as [Hk|Hk].
  - rewrite lookup_bytes_at, lookup_sub by lia. replace (Z.to_nat off + k)%nat with (Z.to_nat (off + Z.of_nat k)) by lia.
    rewrite lookup_contents by lia. done.
  - symmetry. rewrite !lookup_ge_None_2; [done|rewrite length_bytes_at; lia|].
    unfold sub. rewrite length_take, length_drop, length_contents. lia.
Qed.

(** [off + k] bytes at least are in the file after the write. *)
Lemma contents_written s k s' : file_written s k s' -> 0 <= k -> 0 <= uio_offset (i_u s) <= sfi_size (sv_i (i_sv s)) ->
  sfi_size (sv_i (i_sv s')) <= MAXFILE ->
  let c := contents (i_fs s) (sv_i (i_sv s)) in
  contents (i_fs s') (sv_i (i_sv s')) =
    take (Z.to_nat (uio_offset (i_u s))) c ++ get_region (i_m s) (i_u s) k ++ drop (Z.to_nat (uio_offset (i_u s) + k)) c.
Proof.
  intros [] Hk Ho Hm c. set (off := uio_offset (i_u s)) in *. set (l := get_region (i_m s) (i_u s) k) in *.
  assert (length l = Z.to_nat k) as Hl by apply length_get_region.
  assert (length c = Z.to_nat (sfi_size (sv_i (i_sv s)))) as Hc by apply length_contents.
  apply list_eq. intros j. destruct (decide (Z.of_nat j < sfi_size (sv_i (i_sv s')))) as [Hj|Hj].
  - rewrite <- (Nat2Z.id j) at 1. rewrite lookup_contents, wn_bytes0 by (unfold in_file, MAXFILE in *; lia).
    destruct (decide (Z.of_nat j < off)); [|destruct (decide (Z.of_nat j < off + k))].
    + rewrite fill_out, lookup_app_l, lookup_take_lt by (rewrite ?length_take; lia).
      rewrite <- (Nat2Z.id j) at 2. symmetry. apply lookup_contents. lia.
    + rewrite lookup_app_r, lookup_app_l by (rewrite ?length_take; lia). rewrite length_take, Hc.
      destruct (lookup_lt_is_Some_2 l (Z.to_nat (Z.of_nat j - off))) as [y Hy]; [lia|].
      rewrite (fill_in _ _ _ _ y) by (done || lia). rewrite <- Hy. f_equal. lia.
    + rewrite fill_out, !lookup_app_r by (rewrite ?length_take; lia). rewrite length_take, Hc, Hl, lookup_drop.
      symmetry. replace (_ + _)%nat with (Z.to_nat (Z.of_nat j)) by lia. apply lookup_contents. lia.
  - rewrite !lookup_ge_None_2; [done| |rewrite length_contents; lia].
    rewrite !length_app, length_take, length_drop, Hl, Hc. lia.
Qed.

(** Another file: none of its blocks is one of this file's. *)
Definition apart (f : sfs_fs D) (i j : sfs_inode) : Prop := forall x, owned f i x -> owned f j x -> False.

Lemma step_apart f i f' i' j : step f i f' i' -> file_ok f j -> apart f i j ->
  file_ok f' j /\ apart f' i' j /\ forall p, in_file p -> fbyte f' j p = fbyte f j p.
Proof.
  intros [] Hj Ha.
  assert (forall x, owned f j x -> dblock f' x = dblock f x) as Hkeep.
  { intros x Ho. destruct (fo_range _ _ Hj x Ho). apply st_others0; [lia|done|]. intros Ho'. by apply (Ha x). }
  assert (forall fb, 0 <= fb < NSLOTS -> slot_block f' j fb = slot_block f j fb) as Hslot.
  { intros fb Hfb. unfold slot_block. case_bool. destruct (Z.eqb_spec (sfi_indirect j) 0); [done|].
    rewrite Hkeep; [done|]. split; [done|by left]. }
  assert (forall x, owned f' j x -> owned f j x) as Hown.
  { intros x [H0 [->|(fb & Hfb & E)]]; [split; [done|by left]|]. rewrite Hslot in E by done. subst x. by apply owned_slot. }
  assert (nblocks f' = nblocks f) as En by (unfold nblocks; by rewrite st_super0).
  split; [|split].
  - split; [apply Hj|..].
    + intros x Hx. destruct (fo_range _ _ Hj x (Hown x Hx)). rewrite En. split; [done|]. apply st_used0; [lia|done].
    + intros fb fb' Hfb Hfb'. rewrite !Hslot by done. by apply Hj.
    + intros fb Hfb. rewrite Hslot by done. by apply Hj.
  - intros x Hi Hx. apply Hown in Hx. destruct (fo_range _ _ Hj x Hx). apply (Ha x); [|done]. by apply st_own0; [lia|..].
  - intros p Hp. pose proof (in_file_slot p Hp). unfold fbyte. rewrite Hslot by done.
    destruct (Z.eqb_spec (slot_block f j (p / BLOCK)) 0); [done|]. rewrite Hkeep; [done|]. by apply owned_slot.
Qed.

(** C16. [sfs_io] for reading, on a disk that works ([reliable], in [fs_inv]): the caller's region receives the bytes of the file
    from the offset on, as many as were asked for or as there are before the end
    of the file; the [uio] describes what is left of the request, and neither the
    file nor anything on the disk has changed. *)
Theorem sfs_io_read cas s : fs_inv (i_fs s) -> file_wf (i_fs s) (sv_i (i_sv s)) ->
  rw (i_u s) = UIO_READ -> 0 <= uio_offset (i_u s) -> 0 <= uio_resid (i_u s) ->
  uio_offset (i_u s) + uio_resid (i_u s) <= INT_MAX ->
  let k := available (sv_i (i_sv s)) (uio_offset (i_u s)) (uio_resid (i_u s)) in
  ready cas (i_m s) (i_u s) k ->
  exists s', sfs_io cas s = Done (s', Ok tt) /\
    moved (i_m s) (i_u s) (sub (contents (i_fs s) (sv_i (i_sv s))) (uio_offset (i_u s)) (uio_resid (i_u s))) (i_m s') /\
    i_u s' = rest_of (i_u s) k /\ i_sv s' = i_sv s /\ same_fs (i_fs s) (i_fs s').
Proof.
  intros Hfs Hf Hrw Ho Hn Hend k Hr. destruct (sfs_io_reads cas s Hfs Hf Hrw Ho Hn Hend Hr) as (s' & -> & []).
  exists s'. rewrite <- contents_sub; [|done|apply Hf]. do 2 (split; [done|]). split; [|done].
  rewrite rt_uio0. exact (advance_fields _ _ _ _ Hr).
Qed.

(** C5. [sfs_io] for writing at an offset that is not behind the end of the file, on a
    disk that works ([reliable], in [fs_inv]): the first [k] bytes of the caller's
    region replace those of the file at the offset, and the file ends no earlier
    than they do.  [k] is the whole request when the call succeeds.  It fails only
    with [ENOSPC], when every block of the disk is in use, or with [EINVAL], when
    the request goes past the largest size of a file.  Nothing else the filesystem
    holds has changed, and the [uio] describes what is left of the request. *)
Theorem sfs_io_write cas s : fs_inv (i_fs s) -> file_wf (i_fs s) (sv_i (i_sv s)) ->
  rw (i_u s) = UIO_WRITE -> 0 <= uio_offset (i_u s) <= sfi_size (sv_i (i_sv s)) -> 0 <= uio_resid (i_u s) ->
  ready cas (i_m s) (i_u s) (uio_resid (i_u s)) ->
  exists s' r k, sfs_io cas s = Done (s', r) /\ 0 <= k <= uio_resid (i_u s) /\
    (let c := contents (i_fs s) (sv_i (i_sv s)) in
     contents (i_fs s') (sv_i (i_sv s')) = take (Z.to_nat (uio_offset (i_u s))) c
       ++ get_region (i_m s) (i_u s) k ++ drop (Z.to_nat (uio_offset (i_u s) + k)) c) /\
    file_wf (i_fs s') (sv_i (i_sv s')) /\ step (i_fs s) (sv_i (i_sv s)) (i_fs s') (sv_i (i_sv s')) /\
    i_u s' = rest_of (i_u s) k /\ i_m s' = i_m s /\
    match r with
    | Ok _ => k = uio_resid (i_u s)
    | Err e => e = ENOSPC /\ disk_full (i_fs s') \/ e = EINVAL /\ MAXFILE < uio_offset (i_u s) + uio_resid (i_u s)
    end.
Proof.
  intros Hfs [Hf Hsz] Hrw Ho Hn Hr.
  assert (MAXFILE < 2 ^ 31) as Hmax by (unfold MAXFILE, NSLOTS, SFS_NDIRECT, SFS_DBPERIDB, BLOCK; lia).
  destruct (sfs_io_writes cas s) as (s' & r & k & -> & Hk & Hm & Hw & Hres); [split; done || lia|done|lia|].
  pose proof Hw as []. exists s', r, k. split; [done|]. split; [done|].
  assert (sfi_size (sv_i (i_sv s')) <= MAXFILE) as Hm' by lia.
  split; [apply contents_written; done || lia|]. split; [split; [apply wn_step0|lia]|]. split; [done|].
  split; [|done]. rewrite wn_uio0. apply (advance_fields cas (i_m s)). eapply ready_less; [exact Hr|lia].
Qed.

(** C19. On a disk that works ([reliable], in [fs_inv]) no write to a file, complete
    or not, at any offset, changes another one: a
    file whose blocks are not this file's keeps its contents and stays well
    formed, and the two have no block in common afterwards either. *)
Theorem sfs_io_private cas s j : can_write cas s (uio_resid (i_u s)) -> 0 <= uio_resid (i_u s) ->
  0 <= sfi_size (sv_i (i_sv s)) < 2 ^ 31 -> file_wf (i_fs s) j -> apart (i_fs s) (sv_i (i_sv s)) j ->
  exists s' r, sfs_io cas s = Done (s', r) /\ file_wf (i_fs s') j /\ apart (i_fs s') (sv_i (i_sv s')) j /\
    contents (i_fs s') j = contents (i_fs s) j.
Proof.
  intros Hc Hn Hsz [Hj Hjs] Ha. destruct (sfs_io_writes cas s) as (s' & r & k & -> & Hk & _ & Hw & _); try done.
  destruct (step_apart _ _ _ _ j (wn_step _ _ _ Hw) Hj Ha) as (Hj' & Ha' & Hby).
  exists s', r. split; [done|]. split; [done|]. split; [done|].
  apply bytes_at_ext. intros x Hx. apply Hby. unfold in_file, MAXFILE in *. lia.
Qed.

(** What a complete write put into a file is what a later read of the same
    positions delivers, also when the write left a gap behind the old end. *)
Theorem sfs_io_write_read cas s s1 m2 u2 : can_write cas s (uio_resid (i_u s)) -> 0 <= uio_resid (i_u s) ->
  0 <= sfi_size (sv_i (i_sv s)) <= MAXFILE -> sfs_io cas s = Done (s1, Ok tt) ->
  uio_offset (i_u s) <= MAXFILE ->
  rw u2 = UIO_READ -> uio_offset u2 = uio_offset (i_u s) -> uio_resid u2 = uio_resid (i_u s) ->
  ready cas m2 u2 (uio_resid u2) ->
  exists s2, sfs_io cas (mk_ios (i_fs s1) (i_sv s1) m2 u2) = Done (s2, Ok tt) /\
    moved m2 u2 (get_region (i_m s) (i_u s) (uio_resid (i_u s))) (i_m s2).
Proof.
  intros Hc Hn Hsz E Hoff Hrw Eo Er Hr. pose proof Hc as [].
  assert (MAXFILE < 2 ^ 31) as Hmax by (unfold MAXFILE, NSLOTS, SFS_NDIRECT, SFS_DBPERIDB, BLOCK; lia).
  destruct (sfs_io_writes cas s) as (s' & r & k & E' & Hk & Hm & [] & Hres); [done|done|lia|].
  rewrite E in E'. simplify_eq. pose proof (rd_offset _ _ _ _ Hr).
  assert (available (sv_i (i_sv s')) (uio_offset u2) (uio_resid u2) = uio_resid u2) as Ea by (unfold available; lia).
  destruct (sfs_io_reads cas (mk_ios (i_fs s') (i_sv s') m2 u2)) as (s2 & -> & []); simpl in *; try done; try lia.
  { apply wn_step0. }
  { split; [apply wn_step0|lia]. }
  { by rewrite Ea. }
  exists s2. split; [done|]. rewrite Ea in rt_data0. simpl in rt_data0. rewrite Eo, Er in rt_data0.
  rewrite (bytes_at_ext _ (fill (fbyte (i_fs s) (sv_i (i_sv s))) (uio_offset (i_u s))
    (get_region (i_m s) (i_u s) (uio_resid (i_u s))))) in rt_data0.
  - rewrite bytes_at_fill in rt_data0; [done|]. rewrite length_get_region. lia.
  - intros x Hx. apply wn_bytes0. unfold in_file, MAXFILE in *. lia.
Qed.

End io.
End SfsIo.
Import SfsIo.
#[local] Existing Instances Lhd.lhd_dev Lhd.lhd_dev_ok.

(** A disk of 16 blocks with two files of three bytes, in blocks 3 and 4.  The
    contents of block 3 and the inode are parameters, for other examples. *)
Definition ex_disk (data : list Z) : Lhd.lhd :=
  Lhd.mk_lhd 16 (fun x => if x =? 3 then data else replicate 512 0)
    (fun _ => Lhd.LHD_OK) (fun a _ => a) 0 (replicate 512 0) (Ok tt) 1 0.

Definition ex_fs_of (data : list Z) : sfs_fs Lhd.lhd :=
  mk_fs (mk_super SFS_MAGIC 16 [] []) false (ex_disk data) (Array.mk_array 0 0 None) (Bitmap.mk_bitmap 16 [31; 0]) false ∅ 0.

Definition ex_inode_of (type size b : Z) : sfs_inode := mk_inode size type 1 (b :: replicate 14 0) 0 [].

Definition ex_fs : sfs_fs Lhd.lhd := ex_fs_of ([65; 66; 67] ++ replicate 509 0).
Definition ex_inode (b : Z) : sfs_inode := ex_inode_of SFS_TYPE_FILE 3 b.

Definition ex_ios (u : uio) (m : mach) : ios Lhd.lhd :=
  mk_ios ex_fs (mk_sv 1 1 sfs_fileops (ex_inode 3) 5 false) m u.

Section example.
Context (data : list Z) (type size : Z).

Lemma ex_fs_of_inv : length data = 512%nat -> fs_inv (ex_fs_of data).
Proof.
  intros Hl. split; try done.
  - split; try done. intros s. simpl. by destruct (s =? 3).
  - split; [done|]. split; [done|]. split; [by repeat constructor|]. intros i Hi. simpl in Hi.
    change (Bitmap.words _) with 2 in Hi. lia.
  - intros b Hb. unfold nblocks in Hb. simpl in Hb. lia.
Qed.

Lemma ex_slot b fb : 0 <= fb -> slot_block (ex_fs_of data) (ex_inode_of type size b) fb = if decide (fb = 0) then b else 0.
Proof.
  intros Hfb. unfold slot_block. simpl. case_bool; [|by rewrite decide_False by (unfold SFS_NDIRECT in *; lia)].
  case_decide as Hd; [by subst fb|]. replace (Z.to_nat fb) with (S (Z.to_nat (fb - 1))) by lia. simpl.
  destruct (_ !! Z.to_nat (fb - 1)) eqn:E; [|done]. by apply (lookup_replicate_1 14) in E as [-> _].
Qed.

Lemma ex_owned b x : owned (ex_fs_of data) (ex_inode_of type size b) x -> x = b.
Proof.
  intros [Hx [->|(fb & [? _] & E)]]; [done|]. rewrite ex_slot in E by done. by case_decide.
Qed.

Lemma ex_file_of b : 0 < b < 5 -> 0 <= size <= MAXFILE -> file_wf (ex_fs_of data) (ex_inode_of type size b).
Proof.
  intros Hb Hs. split; [|done]. split; [done|..].
  - intros x Hx. rewrite (ex_owned b x Hx). split; [unfold nblocks; simpl; lia|].
    assert (b = 1 \/ b = 2 \/ b = 3 \/ b = 4) as [-> | [-> | [-> | ->]]] by lia; done.
  - intros fb fb' Hfb Hfb'. rewrite !ex_slot by lia. repeat case_decide; congruence.
  - intros fb Hfb. rewrite ex_slot by lia. by case_decide.
Qed.

End example.

Lemma ex_fs_inv : fs_inv ex_fs.
Proof. by apply ex_fs_of_inv. Qed.

Lemma ex_file b : 0 < b < 5 -> file_wf ex_fs (ex_inode b).
Proof. intros Hb. by apply ex_file_of. Qed.

Lemma ex_apart : apart ex_fs (ex_inode 3) (ex_inode 4).
Proof. intros x H3 H4. apply ex_owned in H3. apply ex_owned in H4. congruence. Qed.

Lemma ex_ready n off r : 0 <= n <= 100 -> 0 <= off <= 100 ->
  ready None (kobj [72; 105]) (mk_kuio 0 n off r) n.
Proof. intros. split; simpl; unfold INT_MIN, INT_MAX; done || lia. Qed.

Lemma sfs_io_read_witness : exists s',
  sfs_io None (ex_ios (mk_kuio 0 8 1 UIO_READ) (kobj [])) = Done (s', Ok tt) /\
  moved (kobj []) (mk_kuio 0 8 1 UIO_READ) [66; 67] (i_m s').
Proof.
  destruct (sfs_io_read None (ex_ios (mk_kuio 0 8 1 UIO_READ) (kobj []))) as (s' & E & Hm & _).
  - apply ex_fs_inv.
  - apply ex_file. lia.
  - reflexivity.
  - simpl. lia.
  - simpl. lia.
  - simpl. unfold INT_MAX. lia.
  - split; simpl; unfold INT_MIN, INT_MAX; done || lia.
  - exists s'. split; [exact E|]. assert (sub (contents ex_fs (ex_inode 3)) 1 8 = [66; 67]) as <- by (vm_compute; reflexivity).
    exact Hm.
Defined.

Definition io_ok (x : exec (ios Lhd.lhd * ret unit)) : bool :=
  match x with Done (_, Ok _) => true | _ => false end.

Lemma sfs_io_write_witness : exists s',
  sfs_io None (ex_ios (mk_kuio 0 2 2 UIO_WRITE) (kobj [72; 105])) = Done (s', Ok tt) /\
  contents (i_fs s') (sv_i (i_sv s')) = [65; 66; 72; 105] /\ i_u s' = mk_uio 2 0 4 0 UIO_SYSSPACE UIO_WRITE None.
Proof.
  destruct (sfs_io_write None (ex_ios (mk_kuio 0 2 2 UIO_WRITE) (kobj [72; 105])))
    as (s' & r & k & E & _ & Hc & _ & _ & Hu & _ & Hr).
  - apply ex_fs_inv.
  - apply ex_file. lia.
  - reflexivity.
  - simpl. lia.
  - simpl. lia.
  - apply (ex_ready 2 2); lia.
  - assert (io_ok (sfs_io None (ex_ios (mk_kuio 0 2 2 UIO_WRITE) (kobj [72; 105]))) = true) as Hok by (vm_compute; reflexivity).
    rewrite E in Hok. destruct r as [[]|e]; [|discriminate Hok]. change (k = 2) in Hr. subst k.
    exists s'. split; [exact E|]. split; [|exact Hu]. cbv zeta in Hc.
    assert (contents (i_fs (ex_ios (mk_kuio 0 2 2 UIO_WRITE) (kobj [72; 105])))
      (sv_i (i_sv (ex_ios (mk_kuio 0 2 2 UIO_WRITE) (kobj [72; 105])))) = [65; 66; 67]) as E3 by (vm_compute; reflexivity).
    rewrite E3 in Hc. rewrite Hc. vm_compute. reflexivity.
Defined.

Lemma ex_can_write n off : 0 <= n <= 100 -> 0 <= off <= 100 ->
  can_write None (ex_ios (mk_kuio 0 n off UIO_WRITE) (kobj [72; 105])) n.
Proof. intros. split; [apply ex_fs_inv|apply ex_file; lia|by apply ex_ready|done|simpl; lia]. Qed.

Lemma sfs_io_private_witness : exists s' r,
  sfs_io None (ex_ios (mk_kuio 0 2 20 UIO_WRITE) (kobj [72; 105])) = Done (s', r) /\
  contents (i_fs s') (ex_inode 4) = [0; 0; 0].
Proof.
  destruct (sfs_io_private None (ex_ios (mk_kuio 0 2 20 UIO_WRITE) (kobj [72; 105])) (ex_inode 4))
    as (s' & r & E & _ & _ & Hc).
  - apply (ex_can_write 2 20); lia.
  - simpl. lia.
  - simpl. lia.
  - apply ex_file. lia.
  - apply ex_apart.
  - exists s', r. split; [exact E|]. assert (contents ex_fs (ex_inode 4) = [0; 0; 0]) as <- by (vm_compute; reflexivity).
    exact Hc.
Defined.

(** The state after a write of two bytes at 20. *)
Definition ex_written : ios Lhd.lhd :=
  match sfs_io None (ex_ios (mk_kuio 0 2 20 UIO_WRITE) (kobj [72; 105])) with
  | Done (s, _) => s
  | Halt _ => ex_ios (mk_kuio 0 0 0 UIO_READ) (kobj [])
  end.

Lemma sfs_io_write_read_witness : exists s2,
  sfs_io None (mk_ios (i_fs ex_written) (i_sv ex_written) (kobj []) (mk_kuio 0 2 20 UIO_READ)) = Done (s2, Ok tt) /\
  moved (kobj []) (mk_kuio 0 2 20 UIO_READ) [72; 105] (i_m s2).
Proof.
  apply (sfs_io_write_read None (ex_ios (mk_kuio 0 2 20 UIO_WRITE) (kobj [72; 105])) ex_written (kobj []) (mk_kuio 0 2 20 UIO_READ)).
  - apply (ex_can_write 2 20); lia.
  - simpl. lia.
  - split; done.
  - vm_compute. reflexivity.
  - done.
  - reflexivity.
  - reflexivity.
  - reflexivity.
  - split; simpl; unfold INT_MIN, INT_MAX; done || lia.
Defined.
