(* ===== verification/SfsDir.v ===== *)
(** * Directories of the SFS filesystem ([sfs_readdir], [sfs_writedir],
      [sfs_dir_nentries], [sfs_dir_findname], [sfs_dir_link], [sfs_dir_unlink])

    A directory is a file of entries of 64 bytes.  Abstractly it is a partial
    map from names to inode numbers, [has]; finding looks a name up in it,
    linking adds a name and unlinking removes one. *)

From Stdlib Require Import ZArith Lia Bool.
From stdpp Require Import base list numbers gmap.
From S2P Require Import Prelude.
From S2P Require Import Array.
From S2P Require Import Bitmap.
From S2P Require Import Uio.
From S2P Require Import Lhd.
From S2P Require Import Sfs.
From S2P Require Import SfsFile.
From S2P Require Import SfsIo.
Import Copy Uio Sfs SfsFile SfsIo.

Module SfsDir.

Lemma length_enc_dir sd : length (sfd_name sd) = Z.to_nat SFS_NAMELEN -> length (enc_dir sd) = Z.to_nat DIRSIZE.
Proof. intros Hn. unfold enc_dir. rewrite length_app, Hn. done. Qed.

Lemma dec_enc_dir sd : is_word (sfd_ino sd) -> length (sfd_name sd) = Z.to_nat SFS_NAMELEN ->
  dec_dir (enc_dir sd) = sd.
Proof.
  intros Hw Hn. destruct sd as [ino name]. unfold dec_dir, enc_dir. simpl in *. f_equal; [by apply of_be32_be32|].
  unfold sub. change (Z.to_nat 4) with 4%nat. simpl. rewrite drop_0. by apply take_ge; rewrite Hn.
Qed.

Section dir.
Context {D : Type} {B : BlockDev D} {BOk : BlockDevOk D}.

(** The entry in slot [k], its name, and the directory as a map. *)
Definition entry (f : sfs_fs D) (i : sfs_inode) (k : Z) : sfs_dir :=
  dec_dir (bytes_at (fbyte f i) (k * DIRSIZE) DIRSIZE).

Definition entry_name (sd : sfs_dir) : list Z := cstr (<[59%nat := 0]> (sfd_name sd)).

Definition slots (i : sfs_inode) : Z := sfi_size i / DIRSIZE.

Definition named (f : sfs_fs D) (i : sfs_inode) (k : Z) (name : list Z) : Prop :=
  0 <= k < slots i /\ sfd_ino (entry f i k) <> SFS_NOINO /\ entry_name (entry f i k) = name.

Definition has (f : sfs_fs D) (i : sfs_inode) (name : list Z) (ino : Z) : Prop :=
  exists k, named f i k name /\ sfd_ino (entry f i k) = ino.

Record dir_wf (f : sfs_fs D) (i : sfs_inode) : Prop := {
  dw_file : file_wf f i;
  dw_type : sfi_type i = SFS_TYPE_DIR;
  dw_size : sfi_size i = slots i * DIRSIZE;
  dw_unique k k' name : named f i k name -> named f i k' name -> k = k'
}.

Lemma slots_range f i : dir_wf f i -> 0 <= slots i /\ slots i * DIRSIZE <= MAXFILE /\ MAXFILE < 2 ^ 31.
Proof.
  intros [[_ Hs] _ Hsz _]. split; [apply Z.div_pos; [lia|done]|]. split; [lia|].
  unfold MAXFILE, NSLOTS, SFS_NDIRECT, SFS_DBPERIDB, BLOCK. lia.
Qed.

Lemma slot_pos k : 0 <= k * DIRSIZE < 2 ^ 31 -> s32 (u32 (k * DIRSIZE)) = k * DIRSIZE.
Proof. intros Hk. rewrite u32_small by lia. by apply s32_small. Qed.

Lemma ready_entry data k r : 0 <= k * DIRSIZE <= MAXFILE ->
  ready None (kobj data) (mk_kuio 0 DIRSIZE (k * DIRSIZE) r) DIRSIZE.
Proof.
  intros Hk. unfold MAXFILE, NSLOTS, SFS_NDIRECT, SFS_DBPERIDB, BLOCK, DIRSIZE in *.
  split; simpl; try done; unfold INT_MIN, INT_MAX; lia.
Qed.

Lemma readdir_ok f sv k : fs_inv f -> dir_wf f (sv_i sv) -> 0 <= k < slots (sv_i sv) ->
  exists f', sfs_readdir f sv k = Done ((f', sv), Ok (entry f (sv_i sv) k)) /\ same_fs f f'.
Proof.
  intros Hfs Hd Hk. pose proof (slots_range _ _ Hd) as (H0 & H1 & H2). pose proof (dw_size _ _ Hd) as Hs.
  unfold DIRSIZE in *. assert (0 <= k * 64 /\ k * 64 + 64 <= sfi_size (sv_i sv)) as Hk' by lia.
  unfold sfs_readdir. rewrite (slot_pos k) by (unfold DIRSIZE; lia). unfold DIRSIZE.
  set (s := mk_ios f sv (kobj []) (mk_kuio 0 64 (k * 64) UIO_READ)).
  assert (available (sv_i sv) (k * 64) 64 = 64) as Ea by (unfold available; lia).
  destruct (sfs_io_reads None s) as (s' & -> & []); try done; try (simpl; unfold INT_MAX; lia).
  { apply Hd. }
  { simpl. rewrite Ea. apply ready_entry. unfold DIRSIZE. lia. }
  simpl in *. rewrite Ea in *. run. rewrite rt_uio0. change (uio_resid _) with 0. simpl.
  exists (i_fs s'). rewrite rt_sv0. split; [|done]. do 4 f_equal. unfold entry, DIRSIZE. f_equal.
  destruct rt_data0 as [_ [_ Hm]]. simpl in Hm.
  rewrite (bytes_at_ext _ _ 0 64 (fun x _ => Hm x)). by apply bytes_at_fill; rewrite length_bytes_at.
Qed.

Lemma nentries_ok f sv : dir_wf f (sv_i sv) -> sfs_dir_nentries sv = Done (slots (sv_i sv)).
Proof.
  intros Hd. pose proof (slots_range _ _ Hd) as (H0 & H1 & H2). pose proof (dw_size _ _ Hd) as Hs.
  unfold sfs_dir_nentries. rewrite (dw_type _ _ Hd). run. cbv zeta. unfold DIRSIZE in *.
  rewrite (s32_small (sfi_size (sv_i sv))), u32_small by (rewrite ?s32_small; lia).
  assert (sfi_size (sv_i sv) mod 64 = 0) as -> by (rewrite Hs; apply Z_mod_mult). simpl.
  rewrite s32_small; [done|]. unfold slots, DIRSIZE in *. lia.
Qed.

(** ** Looking a name up *)

(** What has been found in the slots before [n]. *)
Definition found_upto (f : sfs_fs D) (i : sfs_inode) (name : list Z) (n : Z) (a : finding) : Prop :=
  match found a with
  | Some (k, ino) => k < n /\ named f i k name /\ ino = sfd_ino (entry f i k)
  | None => forall k, k < n -> ~ named f i k name
  end /\
  match emptyslot a with
  | Some k => 0 <= k < n /\ sfd_ino (entry f i k) = SFS_NOINO
  | None => forall k, 0 <= k < n -> sfd_ino (entry f i k) <> SFS_NOINO
  end.

Lemma length_sfd_name f i k : length (sfd_name (entry f i k)) = 60%nat.
Proof. unfold entry, dec_dir. cbn [sfd_name]. rewrite length_sub; [done|lia|done|]. rewrite length_bytes_at. done. Qed.

Lemma findname_entry_ok f i name k a : dir_wf f i -> 0 <= k < slots i -> found_upto f i name k a ->
  exists a', findname_entry name k (entry f i k) a = Done a' /\ found_upto f i name (k + 1) a'.
Proof.
  intros Hd Hk [Hf He]. unfold findname_entry, found_upto. destruct (Z.eqb_spec (sfd_ino (entry f i k)) SFS_NOINO) as [E|E].
  - eexists. split; [done|]. simpl. split; [|split; [lia|done]]. destruct (found a) as [[k' ino]|].
    + destruct Hf as (? & ? & ?). split; [lia|done].
    + intros k' Hk' Hn. destruct (Z.eq_dec k' k) as [->|]; [by destruct Hn as (_ & Hn & _)|]. apply (Hf k'); [lia|done].
  - rewrite wr_Done by (rewrite length_sfd_name; unfold SFS_NAMELEN; lia). run.
    change (cstr (<[Z.to_nat (SFS_NAMELEN - 1) := 0]> (sfd_name (entry f i k)))) with (entry_name (entry f i k)).
    assert (match emptyslot a with
      | Some k0 => 0 <= k0 < k + 1 /\ sfd_ino (entry f i k0) = SFS_NOINO
      | None => forall k0, 0 <= k0 < k + 1 -> sfd_ino (entry f i k0) <> SFS_NOINO end) as He'.
    { destruct (emptyslot a); [split; [lia|apply He]|]. intros k0 Hk0. destruct (Z.eq_dec k0 k) as [->|]; [done|].
      apply He. lia. }
    case_bool_decide as Hnm.
    + assert (named f i k name) as Hnamed by (by split). destruct (found a) as [[k' ino]|] eqn:Ef.
      { destruct Hf as (Hlt & Hn' & _). pose proof (dw_unique _ _ Hd _ _ _ Hnamed Hn'). lia. }
      run. eexists. split; [done|]. simpl. split; [|done]. split; [lia|done].
    + eexists. split; [done|]. split; [|done]. destruct (found a) as [[k' ino]|].
      * destruct Hf as (? & ? & ?). split; [lia|done].
      * intros k' Hk' Hn. destruct (Z.eq_dec k' k) as [->|]; [by destruct Hn as (_ & _ & Hn)|]. apply (Hf k'); [lia|done].
Qed.

Lemma same_entry f f' i k : same_fs f f' -> entry f' i k = entry f i k.
Proof. intros Hs. unfold entry. f_equal. apply bytes_at_ext. intros x _. by apply same_fbyte. Qed.

Lemma same_named f f' i k name : same_fs f f' -> named f' i k name <-> named f i k name.
Proof. intros Hs. unfold named. by rewrite (same_entry f f'). Qed.

Lemma same_dir f f' i : same_fs f f' -> dir_wf f i -> dir_wf f' i.
Proof.
  intros Hs [[Hf ?] ? ? Hu]. split; try done; [split; [by eapply same_file|done]|].
  intros k k' name. rewrite !(same_named f f') by done. apply Hu.
Qed.

Lemma same_found f f' i name n a : same_fs f f' -> found_upto f' i name n a <-> found_upto f i name n a.
Proof.
  intros Hs. pose proof (fun k => same_entry f f' i k Hs) as He.
  pose proof (fun k => same_named f f' i k name Hs) as Hn. unfold found_upto.
  assert (forall A B C E : Prop, (A <-> C) -> (B <-> E) -> (A /\ B <-> C /\ E)) as Hand by tauto.
  apply Hand.
  - destruct (found a) as [[k ino]|]; [by rewrite Hn, He|]. split; intros H k Hk; specialize (H k Hk); by rewrite Hn in *.
  - destruct (emptyslot a) as [k|]; [by rewrite He|]. split; intros H k Hk; specialize (H k Hk); by rewrite He in *.
Qed.

Lemma findname_loop_ok n f sv name k a : fs_inv f -> dir_wf f (sv_i sv) -> 0 <= k ->
  k + Z.of_nat n = slots (sv_i sv) -> found_upto f (sv_i sv) name k a ->
  exists f' a', findname_loop n f sv name k a = Done ((f', sv), Ok a') /\ same_fs f f' /\
    found_upto f (sv_i sv) name (slots (sv_i sv)) a'.
Proof.
  revert f k a. induction n as [|n IH]; intros f k a Hfs Hd H0 Hn Hf; cbn [findname_loop].
  - exists f, a. split; [done|]. split; [by apply same_fs_refl|]. by replace (slots (sv_i sv)) with k by lia.
  - destruct (readdir_ok f sv k) as (f1 & -> & Hs1); try done; [lia|]. run.
    destruct (findname_entry_ok f (sv_i sv) name k a) as (a1 & -> & Hf1); try done; [lia|]. run.
    assert (forall m b, found_upto f1 (sv_i sv) name m b <-> found_upto f (sv_i sv) name m b) as Hiff.
    { intros m b. by apply same_found. }
    destruct (IH f1 (k + 1) a1) as (f2 & a2 & -> & Hs2 & Hf2); [apply Hs1|by eapply same_dir|lia|lia|by apply Hiff|].
    exists f2, a2. split; [done|]. split; [by eapply same_fs_trans|]. by apply Hiff.
Qed.

Lemma findname_ok f sv name : fs_inv f -> dir_wf f (sv_i sv) ->
  exists f' a, sfs_dir_findname f sv name = Done ((f', sv), Ok a) /\ same_fs f f' /\
    found_upto f (sv_i sv) name (slots (sv_i sv)) a.
Proof.
  intros Hfs Hd. pose proof (slots_range _ _ Hd) as (H0 & _). unfold sfs_dir_findname. rewrite (nentries_ok f) by done. run.
  apply findname_loop_ok; try done; [lia|]. split; simpl.
  - intros k Hk (? & _). lia.
  - lia.
Qed.

(** ** Writing an entry *)

Lemma slot_in_block k : 0 <= k -> (k * DIRSIZE) mod BLOCK + DIRSIZE <= BLOCK.
Proof. unfold DIRSIZE, BLOCK. intros. zlia. Qed.

(** The directory with [sd] in slot [k]. *)
Record entry_set (f : sfs_fs D) (sv : sfs_vnode) (k : Z) (sd : sfs_dir) (f' : sfs_fs D) (sv' : sfs_vnode) : Prop := {
  es_file : file_wf f' (sv_i sv');
  es_slots : slots (sv_i sv') = Z.max (slots (sv_i sv)) (k + 1);
  es_size : sfi_size (sv_i sv') = slots (sv_i sv') * DIRSIZE;
  es_entry j : 0 <= j < slots (sv_i sv') -> entry f' (sv_i sv') j = if decide (j = k) then sd else entry f (sv_i sv) j
}.

(** The directory is the one it was. *)
Record entries_kept (f : sfs_fs D) (sv : sfs_vnode) (f' : sfs_fs D) (sv' : sfs_vnode) : Prop := {
  ek_file : file_wf f' (sv_i sv');
  ek_size : sfi_size (sv_i sv') = sfi_size (sv_i sv);
  ek_entry j : 0 <= j < slots (sv_i sv) -> entry f' (sv_i sv') j = entry f (sv_i sv) j
}.

Lemma entry_in_file k j i : 0 <= k < slots i -> sfi_size i = slots i * DIRSIZE -> sfi_size i <= MAXFILE ->
  k * DIRSIZE <= j < k * DIRSIZE + DIRSIZE -> in_file j.
Proof. unfold in_file, MAXFILE, DIRSIZE. intros. lia. Qed.

Lemma writedir_ok f sv sd k : fs_inv f -> dir_wf f (sv_i sv) -> 0 <= k <= slots (sv_i sv) ->
  is_word (sfd_ino sd) -> length (sfd_name sd) = Z.to_nat SFS_NAMELEN ->
  exists f' sv' r, sfs_writedir f sv sd k = Done ((f', sv'), r) /\ step f (sv_i sv) f' (sv_i sv') /\
    match r with
    | Ok _ => entry_set f sv k sd f' sv'
    | Err e => entries_kept f sv f' sv' /\
        (e = ENOSPC /\ disk_full f' /\ slot_block f (sv_i sv) (k * DIRSIZE / BLOCK) = 0 \/ e = EINVAL /\ MAXFILE < k * DIRSIZE + DIRSIZE)
    end.
Proof.
  intros Hfs Hd Hk Hw Hl. pose proof (slots_range _ _ Hd) as (H0 & H1 & H2). pose proof Hd as [[Hf Hsz] Hty Hs Hu].
  assert (0 <= k * DIRSIZE <= sfi_size (sv_i sv)) as Hpos by (unfold DIRSIZE in *; lia).
  unfold sfs_writedir. rewrite Z.geb_leb, (proj2 (Z.leb_le _ _)) by lia. run. rewrite (slot_pos k) by lia.
  set (s := mk_ios f sv (kobj (enc_dir sd)) (mk_kuio 0 DIRSIZE (k * DIRSIZE) UIO_WRITE)).
  assert (get_region (i_m s) (i_u s) DIRSIZE = enc_dir sd) as Hreg.
  { unfold get_region. simpl. etrans; [|apply bytes_at_kobj]. f_equal. by rewrite length_enc_dir. }
  destruct (sfs_io_one None s) as (s' & r & -> & Hr).
  { split; try done; [|simpl; lia]. apply ready_entry. lia. }
  { done. }
  { apply slot_in_block. lia. }
  { simpl. lia. }
  run. simpl in Hr. destruct r as [x|e]; destruct Hr as [Hwr Hm]; pose proof Hwr as []; simpl in *.
  - rewrite wn_uio0. change (uio_resid (advance _ _) >? 0) with false. run.
    eexists _, _, _. split; [done|]. split; [done|].
    assert (sfi_size (sv_i (i_sv s')) = Z.max (slots (sv_i sv)) (k + 1) * DIRSIZE) as Hsz' by (rewrite wn_size0; unfold DIRSIZE in *; lia).
    assert (slots (sv_i (i_sv s')) = Z.max (slots (sv_i sv)) (k + 1)) as Hsl
      by (unfold slots at 1; rewrite Hsz'; apply Z.div_mul; done).
    split; [split; [apply wn_step0|lia]|done|congruence|].
    intros j Hj. unfold entry. case_decide as Hjk.
    + subst j. rewrite (bytes_at_ext _ (fill (fbyte f (sv_i sv)) (k * DIRSIZE) (enc_dir sd))).
      * rewrite bytes_at_fill by (rewrite length_enc_dir by done; done). by apply dec_enc_dir.
      * intros y Hy. rewrite wn_bytes0; [by rewrite Hreg|]. eapply entry_in_file; [done|congruence|lia|done].
    + f_equal. apply bytes_at_ext. intros y Hy. rewrite wn_bytes0 by (eapply entry_in_file; [done|congruence|lia|done]).
      apply fill_out. rewrite Hreg, length_enc_dir by done. unfold DIRSIZE in *. lia.
  - eexists _, _, _. split; [done|]. split; [done|]. split; [|done].
    split; [split; [apply wn_step0|lia]|lia|]. intros j Hj. unfold entry. f_equal. apply bytes_at_ext. intros y Hy.
    rewrite wn_bytes0 by (eapply entry_in_file; [done|done|lia|done]). apply fill_out. rewrite length_get_region. lia.
Qed.

(** ** The map *)

(** A name as the system calls deliver it. *)
Definition is_name (name : list Z) : Prop := Forall (fun c => c <> 0) name.

Lemma cstr_app name l : is_name name -> cstr (name ++ 0 :: l) = name.
Proof.
  induction 1 as [|c name Hc _ IH]; [done|]. simpl. destruct (Z.eqb_spec c 0); [done|]. by rewrite IH.
Qed.

Lemma new_entry_name ino name : is_name name -> Z.of_nat (length name) + 1 <= SFS_NAMELEN ->
  entry_name (new_entry ino name) = name /\ length (sfd_name (new_entry ino name)) = Z.to_nat SFS_NAMELEN.
Proof.
  intros Hn Hl. unfold SFS_NAMELEN in *. unfold entry_name, new_entry. simpl. change (Z.to_nat SFS_NAMELEN) with 60%nat.
  rewrite length_app, length_replicate. split; [|lia].
  rewrite insert_app_r_alt, insert_replicate by lia.
  replace (60 - length name)%nat with (S (59 - length name)) by lia. by apply cstr_app.
Qed.

Lemma entry_set_named f sv k sd f' sv' name : entry_set f sv k sd f' sv' -> 0 <= slots (sv_i sv) ->
  0 <= k <= slots (sv_i sv) -> forall j, named f' (sv_i sv') j name <->
    (j = k /\ sfd_ino sd <> SFS_NOINO /\ entry_name sd = name) \/ (j <> k /\ named f (sv_i sv) j name).
Proof.
  intros [] H0 Hk j. unfold named. split.
  - intros (Hj & Hi & Hn). rewrite es_entry0 in Hi, Hn by done. case_decide; [by left|]. right. split; [done|].
    split; [lia|done].
  - intros [(-> & Hi & Hn)|(Hne & Hj & Hi & Hn)].
    + rewrite es_entry0, decide_True by (done || lia). split; [lia|done].
    + rewrite es_entry0, decide_False by (done || lia). split; [lia|done].
Qed.

Lemma step_type f i f' i' : step f i f' i' -> sfi_type i' = sfi_type i.
Proof. intros []. by destruct st_meta0. Qed.

Lemma kept_dir f sv f' sv' : entries_kept f sv f' sv' -> sfi_type (sv_i sv') = sfi_type (sv_i sv) ->
  dir_wf f (sv_i sv) -> dir_wf f' (sv_i sv') /\ forall name ino, has f' (sv_i sv') name ino <-> has f (sv_i sv) name ino.
Proof.
  intros [] Ht []. assert (slots (sv_i sv') = slots (sv_i sv)) as Es by (unfold slots; by rewrite ek_size0).
  assert (forall k name, named f' (sv_i sv') k name <-> named f (sv_i sv) k name) as Hn.
  { intros k name. unfold named. rewrite Es. split; intros (Hk & ? & ?); rewrite ek_entry0 in * by done; done. }
  split.
  - split; [done|congruence|congruence|]. intros k k' name. rewrite !Hn. apply dw_unique0.
  - intros name ino. unfold has. split; intros (k & Hk & E); exists k; apply Hn in Hk as Hk'.
    + rewrite ek_entry0 in E by (destruct Hk' as [? _]; done). done.
    + destruct Hk as [? _]. rewrite ek_entry0 by done. done.
Qed.

(** Adding an entry for a new name, and clearing an entry. *)
Lemma set_adds f sv k ino name f' sv' : dir_wf f (sv_i sv) -> 0 <= k <= slots (sv_i sv) ->
  (k < slots (sv_i sv) -> sfd_ino (entry f (sv_i sv) k) = SFS_NOINO) ->
  (forall j, ~ named f (sv_i sv) j name) -> is_name name -> Z.of_nat (length name) + 1 <= SFS_NAMELEN -> ino <> SFS_NOINO ->
  entry_set f sv k (new_entry ino name) f' sv' -> sfi_type (sv_i sv') = sfi_type (sv_i sv) ->
  dir_wf f' (sv_i sv') /\
  forall nm x, has f' (sv_i sv') nm x <-> (nm = name /\ x = ino) \/ has f (sv_i sv) nm x.
Proof.
  intros Hd Hk Hfree Hnew Hname Hlen Hino Hes Ht. pose proof (slots_range _ _ Hd) as (H0 & _). pose proof Hd as [].
  destruct (new_entry_name ino name Hname Hlen) as [En _].
  pose proof (fun nm => entry_set_named _ _ _ _ _ _ nm Hes H0 Hk) as Hnamed. rewrite En in Hnamed. simpl in Hnamed.
  pose proof Hes as [].
  assert (forall nm, named f (sv_i sv) k nm -> False) as Hkfree.
  { intros nm (Hr & Hi & _). apply Hi, Hfree. lia. }
  split.
  - split; [done|congruence|done|]. intros j j' nm. rewrite !Hnamed.
    intros [(-> & _ & E)|(? & ?)] [(-> & _ & E')|(? & ?)]; subst; try done; try (by exfalso; eapply Hnew).
    by eapply dw_unique0.
  - intros nm x. unfold has. split.
    + intros (j & Hj & E). pose proof Hj as (Hr & _). apply Hnamed in Hj as [(-> & _ & <-)|(Hne & Hj)].
      * left. rewrite es_entry0, decide_True in E by done. done.
      * right. rewrite es_entry0, decide_False in E by done. by exists j.
    + intros [(-> & ->)|(j & Hj & E)].
      * exists k. split; [apply Hnamed; by left|]. rewrite es_entry0, decide_True by (done || lia). done.
      * assert (j <> k) by (intros ->; by eapply Hkfree). exists j. split; [apply Hnamed; by right|].
        destruct Hj as (? & _). rewrite es_entry0, decide_False by (done || lia). done.
Qed.

Lemma set_clears f sv k name f' sv' sd : dir_wf f (sv_i sv) -> named f (sv_i sv) k name -> sfd_ino sd = SFS_NOINO ->
  entry_set f sv k sd f' sv' -> sfi_type (sv_i sv') = sfi_type (sv_i sv) ->
  dir_wf f' (sv_i sv') /\
  forall nm x, has f' (sv_i sv') nm x <-> nm <> name /\ has f (sv_i sv) nm x.
Proof.
  intros Hd Hk Hsd Hes Ht. pose proof (slots_range _ _ Hd) as (H0 & _). pose proof Hd as []. pose proof Hk as (Hr & _).
  pose proof (fun nm => entry_set_named _ _ _ _ _ _ nm Hes H0 ltac:(lia)) as Hnamed. pose proof Hes as [].
  assert (forall nm j, named f' (sv_i sv') j nm <-> j <> k /\ named f (sv_i sv) j nm) as Hn.
  { intros nm j. rewrite Hnamed. split; [|by right]. intros [(_ & ? & _)|?]; done. }
  split.
  - split; [done|congruence|done|]. intros j j' nm. rewrite !Hn. intros [_ ?] [_ ?]. by eapply dw_unique0.
  - intros nm x. unfold has. split.
    + intros (j & Hj & E). pose proof Hj as (Hr' & _). apply Hn in Hj as [Hne Hj].
      rewrite es_entry0, decide_False in E by done. split; [|by exists j]. intros ->. apply Hne. by eapply dw_unique0.
    + intros (Hne & j & Hj & E). assert (j <> k) as Hjk by (intros ->; destruct Hj as (_ & _ & <-), Hk as (_ & _ & <-); done).
      exists j. split; [by apply Hn|]. destruct Hj as (? & _). rewrite es_entry0, decide_False by (done || lia). done.
Qed.

Lemma found_has f i name a : found_upto f i name (slots i) a ->
  match found a with
  | Some (k, ino) => named f i k name /\ has f i name ino
  | None => (forall k, ~ named f i k name) /\ forall ino, ~ has f i name ino
  end.
Proof.
  intros [Hf _]. destruct (found a) as [[k ino]|].
  - destruct Hf as (_ & Hn & ->). split; [done|]. by exists k.
  - assert (forall k, ~ named f i k name) as Hno by (intros k Hn; apply (Hf k); [apply Hn|done]).
    split; [done|]. intros ino (k & Hn & _). by apply (Hno k).
Qed.

Lemma same_has f f' i name ino : same_fs f f' -> has f' i name ino <-> has f i name ino.
Proof.
  intros Hs. unfold has. split; intros (k & Hn & E); exists k; rewrite (same_named f f'), (same_entry f f') in * by done; done.
Qed.

(** [sfs_dir_findname] reads every entry and answers as the map does: the slot and
    the inode number of the entry with this name, or none when the directory
    has no such name.  Directory and disk are unchanged. *)
Theorem dir_findname_correct f sv name : fs_inv f -> dir_wf f (sv_i sv) ->
  exists f' a, sfs_dir_findname f sv name = Done ((f', sv), Ok a) /\ same_fs f f' /\
    match found a with
    | Some (k, ino) => named f (sv_i sv) k name /\ has f (sv_i sv) name ino
    | None => forall ino, ~ has f (sv_i sv) name ino
    end.
Proof.
  intros Hfs Hd. destruct (findname_ok f sv name Hfs Hd) as (f' & a & -> & Hs & Hf). exists f', a.
  split; [done|]. split; [done|]. apply found_has in Hf. destruct (found a) as [[k ino]|]; [done|apply Hf].
Qed.

(** C17. [sfs_dir_link], on a disk that works ([reliable], in [fs_inv]), adds one name
    to the map and nothing else, in a free slot or at the end.  It fails, and the map
    is what it was, only when the name is there already, when it is too long, when
    every block of the disk is in use or when the directory has its largest size.  In every case the directory stays well formed and no
    other file's blocks are touched. *)
Theorem dir_link_correct f sv name ino : fs_inv f -> dir_wf f (sv_i sv) -> is_name name -> is_word ino -> ino <> SFS_NOINO ->
  exists f' sv' r, sfs_dir_link f sv name ino = Done ((f', sv'), r) /\ dir_wf f' (sv_i sv') /\
    step f (sv_i sv) f' (sv_i sv') /\
    match r with
    | Ok k => named f' (sv_i sv') k name /\ (forall x, ~ has f (sv_i sv) name x) /\
        forall nm x, has f' (sv_i sv') nm x <-> (nm = name /\ x = ino) \/ has f (sv_i sv) nm x
    | Err e => (forall nm x, has f' (sv_i sv') nm x <-> has f (sv_i sv) nm x) /\
        (e = EEXIST /\ (exists x, has f (sv_i sv) name x) \/
         e = ENAMETOOLONG /\ SFS_NAMELEN <= Z.of_nat (length name) \/
         e = ENOSPC /\ disk_full f' \/ e = EINVAL /\ MAXFILE < slots (sv_i sv) * DIRSIZE + DIRSIZE)
    end.
Proof.
  intros Hfs Hd Hname Hw Hino. pose proof (slots_range _ _ Hd) as (H0 & _). unfold sfs_dir_link.
  destruct (findname_ok f sv name Hfs Hd) as (f1 & a & -> & Hs & Hf). run. pose proof (found_has _ _ _ _ Hf) as Hh.
  pose proof (same_dir _ _ _ Hs Hd) as Hd1. pose proof (same_step f f1 _ Hs (fw_ok _ _ (dw_file _ _ Hd))) as Hst1.
  destruct (found a) as [[k x]|].
  { exists f1, sv, (Err EEXIST). split; [done|]. split; [done|]. split; [done|]. split; [intros; by apply same_has|].
    left. split; [done|]. exists x. apply Hh. }
  rewrite Z.gtb_ltb. destruct (Z.ltb_spec SFS_NAMELEN (Z.of_nat (length name) + 1)).
  { exists f1, sv, (Err ENAMETOOLONG). split; [done|]. split; [done|]. split; [done|]. split; [intros; by apply same_has|].
    right. left. split; [done|lia]. }
  destruct Hh as [Hnew Hnohas]. destruct Hf as [_ He].
  assert (exists k, match emptyslot a with Some i => Done i | None => sfs_dir_nentries sv end = Done k /\
    0 <= k <= slots (sv_i sv) /\ (k < slots (sv_i sv) -> sfd_ino (entry f (sv_i sv) k) = SFS_NOINO)) as (k & -> & Hk & Hfree).
  { destruct (emptyslot a) as [k|]; [exists k; split; [done|]; split; [lia|intros _; apply He]|].
    exists (slots (sv_i sv)). rewrite (nentries_ok f) by done. split; [done|]. lia. }
  run. destruct (new_entry_name ino name Hname ltac:(lia)) as [En Hl].
  destruct (writedir_ok f1 sv (new_entry ino name) k) as (f2 & sv2 & r & -> & Hst & Hr); try done; [apply Hs|].
  pose proof (step_trans _ _ _ _ _ _ Hst1 Hst) as Hst2. destruct r as [u|e]; run.
  - exists f2, sv2, (Ok k). split; [done|].
    destruct (set_adds f1 sv k ino name f2 sv2) as [Hd2 Hhas2];
      [exact Hd1|exact Hk| | |exact Hname|lia|exact Hino|exact Hr| |].
    + intros Hlt. rewrite (same_entry f f1) by done. by apply Hfree.
    + intros j. by rewrite (same_named f f1).
    + by eapply step_type.
    + split; [done|]. split; [done|]. split.
      * apply (proj2 (entry_set_named _ _ _ _ _ _ name Hr H0 Hk k)). left. by rewrite En.
      * split; [done|]. intros nm x. by rewrite Hhas2, (same_has f f1).
  - exists f2, sv2, (Err e). destruct Hr as [Hkept He']. split; [done|].
    destruct (kept_dir _ _ _ _ Hkept (step_type _ _ _ _ Hst) Hd1) as [Hd2 Hhas2]. split; [done|]. split; [done|].
    split; [intros; by rewrite Hhas2, (same_has f f1)|]. right. right.
    destruct He' as [(-> & Hful & _)|[-> Hm]]; [by left|]. right. split; [done|]. unfold DIRSIZE in *. lia.
Qed.

(** An entry in a hole is free. *)
Lemma hole_free f i k : 0 <= k -> slot_block f i (k * DIRSIZE / BLOCK) = 0 -> sfd_ino (entry f i k) = SFS_NOINO.
Proof.
  intros Hk Hh. pose proof (slot_in_block k Hk). unfold entry. rewrite (bytes_at_ext _ (fun _ => 0)).
  - unfold dec_dir. cbn [sfd_ino]. unfold of_be32, byte_at. rewrite !lookup_bytes_at by (unfold DIRSIZE; lia). done.
  - intros x Hx. unfold fbyte. replace (x / BLOCK) with (k * DIRSIZE / BLOCK); [by rewrite Hh|].
    unfold DIRSIZE, BLOCK in *. zlia.
Qed.

(** C18. [sfs_dir_unlink] of the slot of a name, on a disk that works ([reliable], in
    [fs_inv]: the device carries out every transfer), succeeds and removes this name
    from the map and nothing else: overwriting an entry that exists needs no block, so
    even a full disk is no obstacle.  The only failure left is a transfer that fails,
    which this theorem does not cover. *)
Theorem dir_unlink_correct f sv k name : fs_inv f -> dir_wf f (sv_i sv) -> named f (sv_i sv) k name ->
  exists f' sv', sfs_dir_unlink f sv k = Done ((f', sv'), Ok tt) /\ dir_wf f' (sv_i sv') /\
    step f (sv_i sv) f' (sv_i sv') /\
    forall nm x, has f' (sv_i sv') nm x <-> nm <> name /\ has f (sv_i sv) nm x.
Proof.
  intros Hfs Hd Hk. pose proof Hk as (Hr & Hi & _). pose proof (slots_range _ _ Hd) as (H0 & H1 & _). unfold sfs_dir_unlink.
  destruct (writedir_ok f sv (mk_dir SFS_NOINO (replicate (Z.to_nat SFS_NAMELEN) 0)) k)
    as (f' & sv' & r & -> & Hst & Hres); try done; [lia|].
  pose proof (step_type _ _ _ _ Hst) as Ht. destruct r as [[]|e].
  - exists f', sv'. split; [done|]. destruct (set_clears f sv k name f' sv' (mk_dir SFS_NOINO (replicate (Z.to_nat SFS_NAMELEN) 0))); done.
  - destruct Hres as [_ [(_ & _ & Hh)|[_ Hm]]]; [|unfold DIRSIZE in *; lia]. destruct Hi. by apply hole_free; [lia|].
Qed.

End dir.
End SfsDir.
Import SfsDir.
#[local] Existing Instances Lhd.lhd_dev Lhd.lhd_dev_ok.

(** A directory of two slots: inode 5 has the name "ab", the second slot is free. *)
Definition ex_dir_data : list Z := enc_dir (new_entry 5 [97; 98]) ++ replicate 448 0.
Definition ex_dir_fs : sfs_fs Lhd.lhd := ex_fs_of ex_dir_data.
Definition ex_dir : sfs_vnode := mk_sv 1 1 sfs_dirops (ex_inode_of SFS_TYPE_DIR 128 3) 1 false.

Lemma ex_dir_fs_inv : fs_inv ex_dir_fs.
Proof. by apply ex_fs_of_inv. Qed.

Lemma ex_dir_named k name : named ex_dir_fs (sv_i ex_dir) k name -> k = 0.
Proof.
  intros (Hk & Hi & _). assert (k = 0 \/ k = 1) as [-> | ->]; [|done|].
  - change (slots (sv_i ex_dir)) with 2 in Hk. lia.
  - exfalso. apply Hi. vm_compute. reflexivity.
Qed.

Lemma ex_dir_wf : dir_wf ex_dir_fs (sv_i ex_dir).
Proof.
  split; try done.
  - by apply ex_file_of.
  - intros k k' name H H'. apply ex_dir_named in H, H'. congruence.
Qed.

Lemma ex_dir_ab : named ex_dir_fs (sv_i ex_dir) 0 [97; 98].
Proof. split; [done|]. split; vm_compute; done. Qed.

Lemma dir_findname_correct_witness : exists f' a,
  sfs_dir_findname ex_dir_fs ex_dir [97; 98] = Done ((f', ex_dir), Ok a) /\ same_fs ex_dir_fs f'.
Proof.
  destruct (dir_findname_correct ex_dir_fs ex_dir [97; 98] ex_dir_fs_inv ex_dir_wf) as (f' & a & E & Hs & _).
  exists f', a. split; [exact E|exact Hs].
Defined.

Definition link_ok (x : exec ((sfs_fs Lhd.lhd * sfs_vnode) * ret Z)) : bool :=
  match x with Done (_, Ok _) => true | _ => false end.

Lemma dir_link_correct_witness : exists f' sv' k,
  sfs_dir_link ex_dir_fs ex_dir [99] 6 = Done ((f', sv'), Ok k) /\ dir_wf f' (sv_i sv') /\
  named f' (sv_i sv') k [99] /\ has f' (sv_i sv') [99] 6.
Proof.
  destruct (dir_link_correct ex_dir_fs ex_dir [99] 6 ex_dir_fs_inv ex_dir_wf) as (f' & sv' & r & E & Hd & _ & Hr).
  - repeat constructor. lia.
  - split; lia.
  - unfold SFS_NOINO. lia.
  - assert (link_ok (sfs_dir_link ex_dir_fs ex_dir [99] 6) = true) as Hok by (vm_compute; reflexivity).
    rewrite E in Hok. destruct r as [k|e]; [|discriminate Hok]. destruct Hr as (Hn & _ & Hh).
    exists f', sv', k. split; [exact E|]. split; [exact Hd|]. split; [exact Hn|].
    apply Hh. left. split; reflexivity.
Defined.

Lemma dir_unlink_correct_witness : exists f' sv',
  sfs_dir_unlink ex_dir_fs ex_dir 0 = Done ((f', sv'), Ok tt) /\ forall x, ~ has f' (sv_i sv') [97; 98] x.
Proof.
  destruct (dir_unlink_correct ex_dir_fs ex_dir 0 [97; 98] ex_dir_fs_inv ex_dir_wf ex_dir_ab) as (f' & sv' & E & _ & _ & Hh).
  exists f', sv'. split; [exact E|]. intros x Hx. apply Hh in Hx. destruct Hx as [Hne _]. apply Hne. reflexivity.
Defined.
