(* ===== verification/SfsRef.v ===== *)
(** * Reference counts in SFS

    No operation on files or directories touches the reference counts of
    vnodes, loading a vnode adds a reference and [vnode_decref] gives one back.
    So SFS keeps the laws of the vnode interface; nothing is assumed of the
    device or of the state, since an execution that panics says nothing. *)

From Stdlib Require Import ZArith Lia Bool.
From stdpp Require Import base list numbers gmap.
From S2P Require Import Prelude.
From S2P Require Import Array.
From S2P Require Import Bitmap.
From S2P Require Import Uio.
From S2P Require Import Lhd.
From S2P Require Import Vnode.
From S2P Require Import Sfs.
Import Copy Uio Sfs.

Module SfsRef.
Section refs.
Context {D : Type} {B : BlockDev D} {C : DevCalm D}.
Implicit Types f : sfs_fs D.

(** ** Below the vnode table *)

Record keeps f f' : Prop := {
  kp_vnodes : vnodes f' = vnodes f;
  kp_warnings : warnings f' = warnings f;
  kp_calm : calm (sfs_device f) -> calm (sfs_device f')
}.

Record keeps_sv (s s' : sfs_fs D * sfs_vnode) : Prop := {
  ks_fs : keeps (fst s) (fst s');
  ks_refcount : vn_refcount (snd s') = vn_refcount (snd s);
  ks_ops : vn_ops (snd s') = vn_ops (snd s);
  ks_ino : sv_ino (snd s') = sv_ino (snd s)
}.

Definition keeps_io (s s' : ios D) : Prop := keeps_sv (i_fs s, i_sv s) (i_fs s', i_sv s').

Lemma keeps_refl f : keeps f f.
Proof. done. Qed.
Lemma fs_keeps_trans f1 f2 f3 : keeps f1 f2 -> keeps f2 f3 -> keeps f1 f3.
Proof. intros [] []. split; [congruence..|auto]. Qed.
Lemma keeps_sv_refl s : keeps_sv s s.
Proof. done. Qed.
Lemma keeps_sv_trans s1 s2 s3 : keeps_sv s1 s2 -> keeps_sv s2 s3 -> keeps_sv s1 s3.
Proof. intros [] []. split; [by eapply fs_keeps_trans|congruence..]. Qed.

Lemma check_used_post {A} f b (k : exec A) Q : post k Q -> post (check_used f b k) Q.
Proof. intros H. unfold check_used. by repeat vc_step; cbn beta iota. Qed.

(** The call does not end in [EBUSY], which stands for a vnode still in use. *)
Definition quiet {A} f (r : ret A) : Prop := calm (sfs_device f) -> r <> Err EBUSY.

(** Walk through the code and collect what the calls keep. *)
Ltac pairs := repeat match goal with p : _ * _ |- _ => destruct p end; cbn beta iota in *.
Ltac keep_done :=
  repeat match goal with
  | H : keeps _ _ |- _ => destruct H
  | H : keeps_sv _ _ |- _ => destruct H
  | H : keeps_io _ _ |- _ => destruct H
  | H : _ /\ _ |- _ => destruct H
  end; simpl in *; repeat split; simpl; first [done | congruence | solve [auto 10] |
    unfold quiet in *; intros ? ?; repeat case_match; simplify_eq;
    match goal with H : calm _ -> _ <> _ |- False => solve [apply H; [auto 10|done]] end].
Ltac go := repeat (first [apply check_used_post | vc_step]; cbn beta iota; pairs); try keep_done.

(** ** The device never answers [EBUSY] *)

Lemma rwblock_calm cas d m u :
  post (sfs_rwblock cas d m u) (fun '((d', _, _), r) => (calm d -> calm d') /\ (calm d -> r <> Err EBUSY)).
Proof.
  intros [[[d' m'] u'] r] E.  cut (calm d -> calm d' /\ r <> Err EBUSY); [tauto|]. intros Hd. revert E. unfold sfs_rwblock. generalize 10%nat as n. intros n. revert d m u Hd.
  induction n as [|n IH]; intros d m u Hd; simpl; pose proof (d_io_calm cas d m u Hd) as Hio;
    destruct (d_io cas d m u) as [[[[d1 m1] u1] [v|e]]|] eqn:E1; simpl; try done;
    destruct (Hio _ eq_refl) as [H1 H2]; intros E; destruct e || idtac; simplify_eq; eauto.
Qed.
#[local] Hint Resolve rwblock_calm : post.

Lemma rblock_keeps f b : post (sfs_rblock f b) (fun '(f', r) => keeps f f' /\ quiet f r).
Proof. unfold sfs_rblock, dev_rblock. go. Qed.
Lemma wblock_keeps f l b : post (sfs_wblock f l b) (fun '(f', r) => keeps f f' /\ quiet f r).
Proof. unfold sfs_wblock. go. Qed.
Lemma rblock_fs f b : post (sfs_rblock f b) (fun '(f', _) => keeps f f').
Proof. eapply post_mono; [apply rblock_keeps|]. by intros [? ?] [? _]. Qed.
Lemma wblock_fs f l b : post (sfs_wblock f l b) (fun '(f', _) => keeps f f').
Proof. eapply post_mono; [apply wblock_keeps|]. by intros [? ?] [? _]. Qed.
#[local] Hint Resolve rblock_fs wblock_fs rblock_keeps wblock_keeps : post.

Lemma clearblock_keeps f b : post (sfs_clearblock f b) (fun '(f', _) => keeps f f').
Proof. unfold sfs_clearblock. go. Qed.
#[local] Hint Resolve clearblock_keeps : post.

Lemma balloc_keeps f : post (sfs_balloc f) (fun '(f', _) => keeps f f').
Proof. unfold sfs_balloc. go. Qed.
Lemma bfree_keeps f b : post (sfs_bfree f b) (keeps f).
Proof. unfold sfs_bfree. go. Qed.
Lemma sync_inode_keeps f sv : post (sfs_sync_inode f sv) (fun '(s', r) => keeps_sv (f, sv) s' /\ quiet f r).
Proof. unfold sfs_sync_inode. go. Qed.
#[local] Hint Resolve balloc_keeps bfree_keeps sync_inode_keeps : post.

Lemma with_sv_keeps {A} f sv (m : exec (sfs_fs D * ret A)) : post m (fun '(f', _) => keeps f f') ->
  post (with_sv sv m) (fun '(s', _) => keeps_sv (f, sv) s').
Proof. intros H. unfold with_sv. apply post_bind. eapply post_mono; [exact H|]. intros [f' r] ?. go. Qed.
Lemma with_sv_quiet {A} f sv (m : exec (sfs_fs D * ret A)) : post m (fun '(f', r) => keeps f f' /\ quiet f r) ->
  post (with_sv sv m) (fun '(s', r) => keeps_sv (f, sv) s' /\ quiet f r).
Proof. intros H. unfold with_sv. apply post_bind. eapply post_mono; [exact H|]. intros [f' r] ?. go. Qed.
#[local] Hint Resolve with_sv_keeps with_sv_quiet : post.

Lemma bmap_direct_keeps f sv n al : post (bmap_direct f sv n al) (fun '(s', _) => keeps_sv (f, sv) s').
Proof. unfold bmap_direct. go. Qed.
Lemma bmap_indirect_keeps f sv : post (bmap_indirect f sv) (fun '(s', _) => keeps_sv (f, sv) s').
Proof. unfold bmap_indirect. go. Qed.
#[local] Hint Resolve bmap_direct_keeps bmap_indirect_keeps : post.
Lemma bmap_keeps f sv n al : post (sfs_bmap f sv n al) (fun '(s', _) => keeps_sv (f, sv) s').
Proof. unfold sfs_bmap. go. Qed.
#[local] Hint Resolve bmap_keeps : post.

(** A transfer updates the vnode it works on, which the caller stores back. *)
Lemma with_fsv_keeps {A} (s : ios D) (m : exec ((sfs_fs D * sfs_vnode) * ret A)) :
  post m (fun '(s', _) => keeps_sv (i_fs s, i_sv s) s') -> post (with_fsv s m) (fun '(s', _) => keeps_io s s').
Proof. intros H. unfold with_fsv. apply post_bind. eapply post_mono; [exact H|]. intros [[f' sv'] r] ?. go. Qed.
Lemma with_fs_keeps {A} (s : ios D) (m : exec (sfs_fs D * ret A)) :
  post m (fun '(f', _) => keeps (i_fs s) f') -> post (with_fs s m) (fun '(s', _) => keeps_io s s').
Proof. intros H. unfold with_fs. apply post_bind. eapply post_mono; [exact H|]. intros [f' r] ?. go. Qed.
#[local] Hint Resolve with_fsv_keeps with_fs_keeps : post.

Lemma partialio_keeps cas s o n : post (sfs_partialio cas s o n) (fun '(s', _) => keeps_io s s').
Proof. unfold sfs_partialio. go. Qed.
Lemma blockio_keeps cas s : post (sfs_blockio cas s) (fun '(s', _) => keeps_io s s').
Proof. unfold sfs_blockio. go. Qed.
#[local] Hint Resolve partialio_keeps blockio_keeps : post.
Lemma blockio_loop_keeps n cas s : post (blockio_loop n cas s) (fun '(s', _) => keeps_io s s').
Proof. revert s. induction n; intros s; simpl; go. Qed.
#[local] Hint Resolve blockio_loop_keeps : post.
Lemma io_aligned_keeps cas s : post (io_aligned cas s) (fun '(s', _) => keeps_io s s').
Proof. unfold io_aligned. go. Qed.
#[local] Hint Resolve io_aligned_keeps : post.
Lemma io_body_keeps cas s : post (sfs_io_body cas s) (fun '(s', _) => keeps_io s s').
Proof. unfold sfs_io_body. go. Qed.
#[local] Hint Resolve io_body_keeps : post.
Lemma io_keeps cas s : post (sfs_io cas s) (fun '(s', _) => keeps_io s s').
Proof. unfold sfs_io. go. all: repeat case_match; go. Qed.
#[local] Hint Resolve io_keeps : post.

Notation keeps_call m f sv := (post m (fun '(s', _) => keeps_sv (f, sv) s')) (only parsing).

Lemma readdir_keeps f sv i : keeps_call (sfs_readdir f sv i) f sv.
Proof. unfold sfs_readdir. go. Qed.
Lemma writedir_keeps f sv d i : keeps_call (sfs_writedir f sv d i) f sv.
Proof. unfold sfs_writedir. go. Qed.
#[local] Hint Resolve readdir_keeps writedir_keeps : post.
Lemma findname_loop_keeps n f sv name i a : keeps_call (findname_loop n f sv name i a) f sv.
Proof. revert f sv i a. induction n; intros; simpl; go. Qed.
#[local] Hint Resolve findname_loop_keeps : post.
Lemma findname_keeps f sv name : keeps_call (sfs_dir_findname f sv name) f sv.
Proof. unfold sfs_dir_findname. go. Qed.
#[local] Hint Resolve findname_keeps : post.
Lemma dir_link_keeps f sv name ino : keeps_call (sfs_dir_link f sv name ino) f sv.
Proof. unfold sfs_dir_link. go. Qed.
Lemma dir_unlink_keeps f sv i : keeps_call (sfs_dir_unlink f sv i) f sv.
Proof. unfold sfs_dir_unlink. go. Qed.
#[local] Hint Resolve dir_link_keeps dir_unlink_keeps : post.

Lemma truncate_direct_keeps n f sv i bl : post (truncate_direct n f sv i bl) (keeps_sv (f, sv)).
Proof. revert f sv i. induction n; intros; simpl; go. Qed.
Lemma truncate_indirect_keeps n f l j bl h d :
  post (truncate_indirect n f l j bl h d) (fun '(f', _, _, _) => keeps f f').
Proof. revert f l j h d. induction n; intros; simpl; go. Qed.
#[local] Hint Resolve truncate_direct_keeps truncate_indirect_keeps : post.
Lemma truncate_keeps f sv len : post (sfs_truncate f sv len) (fun '(s', r) => keeps_sv (f, sv) s' /\ quiet f r).
Proof. unfold sfs_truncate. go. Qed.
#[local] Hint Resolve truncate_keeps : post.
Lemma vop_truncate_keeps f sv len : post (VOP_TRUNCATE f sv len) (fun '(s', r) => keeps_sv (f, sv) s' /\ quiet f r).
Proof. unfold VOP_TRUNCATE. go. Qed.
#[local] Hint Resolve vop_truncate_keeps : post.

(** ** SFS behind the vnode interface *)

(** The address of the filesystem's [struct fs]. *)
Definition SFS_FS : Z := 0.

Definition refs f (p : Z) : Z := match vnodes f !! p with Some sv => vn_refcount sv | None => 0 end.

(** A transfer on the vnode at [p]. *)
Definition io_at (f : sfs_fs D) (m : mach) (u : uio) (p : Z) (call : ios D -> exec (ios D * ret unit))
  : exec ((sfs_fs D * mach * uio) * ret unit) :=
  sv ← get_sv f p;
  '(s, r) ← call (mk_ios f sv m u);
  Done ((put_sv (i_fs s) p (i_sv s), i_m s, i_u s), r).

(** An operation that only returns a code: one of two. *)
Definition code_at {A} f (p : Z) (file dir : ret A) : exec (sfs_fs D * ret A) := vop_at f p (Done (f, file)) (Done (f, dir)).

Definition on_fs {A} (fs : Z) (m : exec A) : exec A := if fs =? SFS_FS then m else Halt Undefined.

#[export] Instance sfs_vn : Vnodes (sfs_fs D) := {|
  vn_count := refs;
  vn_warnings := warnings;
  vn_fs f p := match vnodes f !! p with Some _ => Some SFS_FS | None => None end;
  vn_ok f := calm (sfs_device f);
  vop_incref := vnode_incref;
  vop_decref := vnode_decref;
  vop_incopen := vnode_incopen;
  vop_decopen := vnode_decopen;
  vop_open f p fl := sv ← get_sv f p; Done (f, VOP_OPEN (vn_ops sv) fl);
  vop_read cas f m u p := io_at f m u p (VOP_READ cas);
  vop_write cas f m u p := io_at f m u p (VOP_WRITE cas);
  vop_readlink _ f m u p := sv ← get_sv f p; Done ((f, m, u), vop (vn_ops sv) sfs_notdir sfs_isdir);
  vop_namefile _ f m u p := sv ← get_sv f p; r ← vop (vn_ops sv) (Done sfs_notdir) (sfs_namefile sv); Done ((f, m, u), r);
  vop_gettype f p := sv ← get_sv f p; t ← sfs_gettype sv; Done (Ok t);
  vop_truncate f p len := on_sv f p (fun f sv => VOP_TRUNCATE f sv len);
  vop_creat := VOP_CREAT;
  vop_symlink f p _ _ := code_at f p sfs_notdir sfs_unimp;
  vop_mkdir f p _ := code_at f p sfs_notdir sfs_unimp;
  vop_link := VOP_LINK;
  vop_remove := VOP_REMOVE;
  vop_rmdir f p _ := code_at f p sfs_notdir sfs_unimp;
  vop_rename := VOP_RENAME;
  vop_lookup := VOP_LOOKUP;
  vop_lookparent _ := VOP_LOOKPARENT;
  fs_sync f fs := on_fs fs (sfs_sync f);
  fs_getvolname f fs := Some (sfs_getvolname f);
  fs_getroot mem f fs := on_fs fs (sfs_getroot mem f);
  fs_unmount f fs := on_fs fs (r ← sfs_unmount f; Done (f, r))
|}.

Record same f f' : Prop := {
  sm_refs x : refs f' x = refs f x;
  sm_warnings : warnings f' = warnings f;
  sm_calm : calm (sfs_device f) -> calm (sfs_device f')
}.

Lemma same_trans f1 f2 f3 : same f1 f2 -> same f2 f3 -> same f1 f3.
Proof. intros [] []. split; [intros x|..]; [congruence..|auto]. Qed.
Lemma same_bal f f' : same f f' -> bal f none f'.
Proof. intros []. split; simpl; unfold none; intros; rewrite ?sm_refs0; auto; lia. Qed.
Lemma keeps_same f f' : keeps f f' -> same f f'.
Proof. intros []. split; [intros x; unfold refs; by rewrite kp_vnodes0|done..]. Qed.
Lemma same_then f1 f2 f3 d : same f1 f2 -> bal f2 d f3 -> bal f1 d f3.
Proof. intros H1 H2. apply (bal_trans _ _ _ none d d (same_bal _ _ H1) H2). unfold none. lia. Qed.
Lemma then_same f1 f2 f3 d : bal f1 d f2 -> same f2 f3 -> bal f1 d f3.
Proof. intros H1 H2. apply (bal_trans _ _ _ d none d H1 (same_bal _ _ H2)). unfold none. lia. Qed.

Lemma refs_put f p sv x : refs (put_sv f p sv) x = if decide (x = p) then vn_refcount sv else refs f x.
Proof. unfold refs, put_sv, set_vnodes. simpl. case_decide; [subst; by rewrite lookup_insert_eq|by rewrite lookup_insert_ne]. Qed.

Lemma get_refs f p sv : get_sv f p = Done sv -> refs f p = vn_refcount sv.
Proof. unfold get_sv, refs. destruct (vnodes f !! p); [by intros [= ->]|done]. Qed.

(** Storing a vnode with the reference count it had. *)
Lemma put_same f f1 p sv sv1 : get_sv f p = Done sv -> same f f1 -> vn_refcount sv1 = vn_refcount sv ->
  same f (put_sv f1 p sv1).
Proof.
  intros E [] Hr. split; [|done..]. intros x. rewrite refs_put. case_decide; [|done]. subst.
  by rewrite (get_refs _ _ _ E).
Qed.

(** Changing the reference count of a vnode by [n]. *)
Lemma put_refs f p sv sv1 n : get_sv f p = Done sv -> vn_refcount sv1 = vn_refcount sv + n ->
  bal f (fun x => n * one p x) (put_sv f p sv1).
Proof.
  intros E Hr. pose proof (get_refs _ _ _ E) as Hp.
  split; simpl; [lia|intros x; rewrite refs_put; unfold one..|done]; case_decide; subst; intros; lia.
Qed.

Lemma get_post f p Q : (forall sv, get_sv f p = Done sv -> Q sv) -> post (get_sv f p) Q.
Proof. intros H sv E. by apply H. Qed.

Lemma int_post z Q : Q z -> post (int z) Q.
Proof. intros H. unfold int. case_match; [by apply post_Done|apply post_Halt]. Qed.

Lemma on_sv_same {A} f p (call : sfs_fs D -> sfs_vnode -> exec ((sfs_fs D * sfs_vnode) * ret A)) :
  (forall sv, keeps_call (call f sv) f sv) -> post (on_sv f p call) (fun '(f', _) => same f f').
Proof.
  intros H. unfold on_sv. apply post_bind, get_post. intros sv E. apply post_bind.
  eapply post_mono; [apply H|]. intros [[f1 sv1] r] []. apply post_Done. simpl in *.
  eapply put_same; eauto using keeps_same.
Qed.

Lemma on_sv_quiet {A} f p (call : sfs_fs D -> sfs_vnode -> exec ((sfs_fs D * sfs_vnode) * ret A)) :
  (forall sv, post (call f sv) (fun '(s', r) => keeps_sv (f, sv) s' /\ quiet f r)) ->
  post (on_sv f p call) (fun '(f', r) => same f f' /\ quiet f r).
Proof.
  intros H. unfold on_sv. apply post_bind, get_post. intros sv E. apply post_bind.
  eapply post_mono; [apply H|]. intros [[f1 sv1] r] [[] Hq]. apply post_Done. simpl in *.
  split; [|done]. eapply put_same; eauto using keeps_same.
Qed.

Lemma incref_bal f p : post (vnode_incref f p) (bal f (one p)).
Proof.
  unfold vnode_incref. apply post_bind, get_post. intros sv E. apply post_bind, int_post.
  apply post_Done. eapply bal_ext; [apply (put_refs _ _ _ _ 1 E); done|]. intros x. cbn beta. lia.
Qed.

Lemma find_any n f p i Q : (forall o, Q o) -> post (reclaim_find n f p i) Q.
Proof. intros H o _. apply H. Qed.

Lemma kill_refs f f3 p tab x : refs f p = 1 -> (forall y, refs f3 y = refs f y) ->
  refs (set_vnodes (set_table f3 tab) (delete p (vnodes f3))) x = refs f x - one p x.
Proof.
  intros Hp H. unfold one. destruct (decide (x = p)) as [->|Hne].
  - rewrite Hp. unfold refs. simpl. by rewrite lookup_delete_eq.
  - rewrite <- H. unfold refs. simpl. rewrite lookup_delete_ne by done. lia.
Qed.

(** Reclaiming either frees a vnode with one reference or changes no count. *)
Lemma reclaim_refs f p sv : get_sv f p = Done sv -> vn_refcount sv = 1 ->
  post (sfs_reclaim f p) (fun '(f', r) => quiet f r /\
    match r with Ok _ => bal f (fun x => - one p x) f' /\ warnings f' = warnings f | Err _ => same f f' end).
Proof.
  intros E Hr. unfold sfs_reclaim. rewrite E. run. rewrite Hr. change (1 =? 1) with true. run.
  apply post_on_ok. eapply (post_mono _ (fun '(f', r) => same f f' /\ quiet f r)).
  { case_match; [|by apply post_Done]. apply on_sv_quiet. intros; apply vop_truncate_keeps. }
  intros [f1 [u|e]] [Hs1 Hq1]; [apply ok_post_Ok|by apply ok_post_Err].
  apply post_on_ok. eapply post_mono; [apply on_sv_quiet; intros; apply sync_inode_keeps|].
  intros [f2 [u'|e]] [Hs2 Hq2]; [apply ok_post_Ok|].
  2:{ apply ok_post_Err. split; [|by eapply same_trans]. intros H. by apply Hq2, (sm_calm _ _ Hs1). }
  apply post_bind, get_post. intros sv2 E2. apply post_bind.
  eapply (post_mono _ (keeps f2)). { case_match; [apply bfree_keeps|by apply post_Done]. }
  intros f3 Hk. apply post_bind. apply find_any. intros [ix|]; [|apply post_Halt].
  apply post_any. intros tab. apply post_assert. intros H1%Z.eqb_eq. apply post_assert. intros _. apply post_Done.
  split; [done|]. pose proof (same_trans _ _ _ Hs1 Hs2) as Hs. pose proof (same_trans _ _ _ Hs (keeps_same _ _ Hk)) as [].
  split; [|done]. split; simpl; [lia|intros x..|done].
  all: rewrite (kill_refs f f3 p tab x) by (done || by rewrite (get_refs _ _ _ E)); intros; lia.
Qed.

Lemma decref_bal f p : post (vnode_decref f p) (bal f (fun x => - one p x)).
Proof.
  unfold vnode_decref. apply post_bind, get_post. intros sv E. apply post_assert. intros H0. rewrite Z.gtb_ltb.
  rewrite Z.gtb_ltb in H0. apply Z.ltb_lt in H0. destruct (Z.ltb_spec 1 (vn_refcount sv)).
  - apply post_Done. eapply bal_ext; [apply (put_refs _ _ _ _ (-1) E); simpl; lia|]. intros x. cbn beta. lia.
  - apply post_bind. eapply post_mono; [apply (reclaim_refs _ _ _ E); lia|]. intros [f1 r] [Hq Hr]. apply post_Done.
    destruct r as [u|e]; [by destruct Hr|]. destruct (decide (e = EBUSY)) as [->|Hne].
    + pose proof (get_refs _ _ _ E). destruct Hr as [Hx Hw Hc].
      split; simpl; [lia|intros x; rewrite Hx; unfold one; case_decide; lia| |done].
      intros x Hok. by destruct (Hq Hok).
    + pose proof (get_refs _ _ _ E). destruct Hr as [Hx Hw Hc]. replace (match e with EBUSY => f1 | _ => warn f1 end) with (warn f1).
      2:{ by destruct e. }
      split; simpl; [lia|intros x|lia|done]. change (refs (warn f1) x) with (refs f1 x). rewrite Hx. unfold one.
      case_decide; lia.
Qed.


Lemma on_sv_bal {A} f p (call : sfs_fs D -> sfs_vnode -> exec ((sfs_fs D * sfs_vnode) * ret A)) :
  (forall sv, keeps_call (call f sv) f sv) -> post (on_sv f p call) (fun '(f', _) => bal f none f').
Proof. intros H. eapply post_mono; [by apply on_sv_same|]. intros [f' r] Hs. by apply same_bal. Qed.

Lemma keeps_bal f f' : keeps f f' -> bal f none f'.
Proof. intros H. by apply same_bal, keeps_same. Qed.

(** Loading a vnode hands out a reference to it. *)
Lemma loadvnode_bal mem f ino t : post (sfs_loadvnode mem f ino t) (fun '(f', r) => bal f (gives id r) f').
Proof.
  unfold sfs_loadvnode. apply post_any. intros [p|].
  - apply post_assert. intros _. apply post_bind. eapply post_mono; [apply incref_bal|]. intros f' H. by apply post_Done.
  - destruct (negb _); [apply post_Done, bal_none|]. apply post_any. intros [|]; [|apply post_Halt].
    apply post_on_ok. eapply post_mono; [apply rblock_fs|]. intros [f1 [data|e]] H%keeps_bal; [|apply ok_post_Err; exact H].
    apply ok_post_Ok. cbv zeta. apply post_assert. intros _. apply post_any. intros ops.
    destruct (negb _); [by apply post_Done|]. apply post_any. intros [tab [u|e]]; apply post_Done; [|by apply (then_same f f1)].
    set (p := fresh _). eapply bal_trans; [exact H| |intros x; unfold none; by rewrite Z.add_0_l].
    assert (vnodes f1 !! p = None) as Hp.
    { apply not_elem_of_dom. pose proof (is_fresh ({[0]} ∪ dom (vnodes f1))) as Hf. set_solver. }
    split; simpl; [lia|intros x; rewrite refs_put; unfold one..|done]; change (refs (set_table f1 tab) x) with (refs f1 x).
    all: case_decide; [subst; unfold refs; rewrite Hp|]; simpl; lia.
Qed.
Lemma get_eq f p : post (get_sv f p) (fun sv => get_sv f p = Done sv).
Proof. by apply get_post. Qed.
#[local] Hint Resolve get_eq on_sv_bal loadvnode_bal incref_bal decref_bal : post.

Lemma add_links_bal f p n : post (add_links f p n) (bal f none).
Proof.
  unfold add_links. apply post_bind, get_post. intros sv E. apply post_Done, same_bal.
  eapply put_same; [exact E|done|done].
Qed.
Lemma balloc_bal f : post (sfs_balloc f) (fun '(f', _) => bal f none f').
Proof. eapply post_mono; [apply balloc_keeps|]. intros [f' r] H. by apply keeps_bal. Qed.
#[local] Hint Resolve add_links_bal balloc_bal : post.

Ltac bgo := repeat (vc_step; cbn beta iota; pairs); try bal_chain.

Lemma sfs_getroot_bal mem f : post (sfs_getroot mem f) (fun '(f', v) => bal f (one v) f').
Proof. unfold sfs_getroot. bgo. Qed.
Lemma lookonce_bal mem f d n : post (sfs_lookonce mem f d n) (fun '(f', r) => bal f (gives fst r) f').
Proof. unfold sfs_lookonce. bgo. Qed.
Lemma makeobj_bal mem f t : post (sfs_makeobj mem f t) (fun '(f', r) => bal f (gives id r) f').
Proof. unfold sfs_makeobj. bgo. Qed.
#[local] Hint Resolve lookonce_bal makeobj_bal : post.
Lemma creat_bal mem f d n e : post (sfs_creat mem f d n e) (fun '(f', r) => bal f (gives id r) f').
Proof. unfold sfs_creat. bgo. Qed.

Lemma sfs_link_bal f d n p : post (sfs_link f d n p) (fun '(f', _) => bal f none f').
Proof. unfold sfs_link. bgo. Qed.
Lemma remove_bal mem f d n : post (sfs_remove mem f d n) (fun '(f', _) => bal f none f').
Proof. unfold sfs_remove. bgo. Qed.
Lemma sfs_lookup_bal mem f d n : post (sfs_lookup mem f d n) (fun '(f', r) => bal f (gives id r) f').
Proof. unfold sfs_lookup. bgo. Qed.
Lemma sfs_lookparent_bal f d n len : post (sfs_lookparent f d n len) (fun '(f', r) => bal f (gives fst r) f').
Proof. unfold sfs_lookparent. bgo. Qed.

(** [sfs_rename] restores the link count by hand when it cannot remove the old name. *)
Lemma sfs_rename_bal mem f d1 n1 d2 n2 : post (sfs_rename mem f d1 n1 d2 n2) (fun '(f', _) => bal f none f').
Proof.
  unfold sfs_rename. bgo. match goal with H : bal (put_sv ?f ?p ?sv1) _ _, E : get_sv ?f ?p = Done ?sv |- _ =>
    assert (bal f none (put_sv f p sv1)) by by apply same_bal, (put_same _ _ _ sv) end. bal_chain.
Qed.

Lemma fsync_bal f p : post (sfs_fsync f p) (fun '(f', _) => bal f none f').
Proof.
  unfold sfs_fsync. eapply post_mono; [apply on_sv_quiet; intros; apply sync_inode_keeps|].
  intros [f' r] [H _]. by apply same_bal.
Qed.
Lemma truncate_bal f p len : post (on_sv f p (fun f sv => VOP_TRUNCATE f sv len)) (fun '(f', _) => bal f none f').
Proof.
  eapply post_mono; [apply on_sv_quiet; intros; apply vop_truncate_keeps|]. intros [f' r] [H _]. by apply same_bal.
Qed.
#[local] Hint Resolve fsync_bal : post.

Lemma incopen_bal f p : post (vnode_incopen f p) (bal f none).
Proof.
  unfold vnode_incopen. apply post_bind, get_post. intros sv E. apply post_any. intros n.
  by apply post_Done, same_bal, (put_same _ _ _ sv).
Qed.
Lemma warn_bal f : bal f none (warn f).
Proof. split; simpl; unfold none; [lia|intros x..|done]; change (refs (warn f) x) with (refs f x); lia. Qed.
Lemma decopen_bal f p : post (vnode_decopen f p) (bal f none).
Proof.
  unfold vnode_decopen. apply post_bind, get_post. intros sv E. apply post_assert. intros _. cbv zeta.
  assert (bal f none (put_sv f p (set_opencount sv (vn_opencount sv - 1)))) as H1
    by by apply same_bal, (put_same _ _ _ sv).
  case_match; [by apply post_Done|]. apply post_bind. unfold sfs_close. eapply post_mono; [apply fsync_bal|].
  intros [f2 r] H2. apply post_Done. destruct r; [|pose proof (warn_bal f2)]; bal_chain.
Qed.

Lemma io_at_bal f m u p call : (forall s, post (call s) (fun '(s', _) => keeps_io s s')) ->
  post (io_at f m u p call) (fun '((f', _, _), _) => bal f none f').
Proof.
  intros H. unfold io_at. apply post_bind, get_post. intros sv E. apply post_bind. eapply post_mono; [apply H|].
  intros [s r] []. apply post_Done. simpl in *. eapply same_bal, put_same; eauto using keeps_same.
Qed.
Lemma vop_read_keeps cas s : post (VOP_READ cas s) (fun '(s', _) => keeps_io s s').
Proof. unfold VOP_READ, vop, sfs_read. go. Qed.
Lemma vop_write_keeps cas s : post (VOP_WRITE cas s) (fun '(s', _) => keeps_io s s').
Proof. unfold VOP_WRITE, vop, sfs_write. go. Qed.

Lemma mapio_keeps f r : post (sfs_mapio f r) (fun '(f', _) => keeps f f').
Proof.
  unfold sfs_mapio. generalize 0 as j. generalize (Z.to_nat (SFS_BITBLOCKS (sp_nblocks (super f)))) as n.
  intros n. destruct r; revert f; induction n; intros f j; simpl; go.
Qed.
Lemma sync_vnodes_bal n f i : post (sync_vnodes n f i) (bal f none).
Proof. revert f i. induction n; intros; simpl; bgo. Qed.
#[local] Hint Resolve mapio_keeps sync_vnodes_bal : post.

Lemma sfs_sync_bal f : post (sfs_sync f) (fun '(f', _) => bal f none f').
Proof.
  unfold sfs_sync. apply post_bind. eapply post_mono; [apply sync_vnodes_bal|]. intros f1 H1.
  eapply (post_mono _ (fun '(f', _) => keeps f1 f')); [go|]. intros [f' r] H2%keeps_bal. bal_chain.
Qed.

Lemma vop_at_post {A} f p (file dir : exec (sfs_fs D * ret A)) Q : post file Q -> post dir Q -> post (vop_at f p file dir) Q.
Proof. intros H1 H2. unfold vop_at. apply post_any. intros sv. unfold vop. by destruct (vn_ops sv). Qed.

Lemma code_at_bal {A} f p (a b : ret A) : post (code_at f p a b) (fun '(f', _) => bal f none f').
Proof. apply vop_at_post; apply post_Done, bal_none. Qed.

Lemma on_fs_post {A} fs (m : exec A) Q : post m Q -> post (on_fs fs m) Q.
Proof. intros H. unfold on_fs. case_match; [done|apply post_Halt]. Qed.

(** SFS keeps the laws of the vnode interface. *)
#[export] Instance sfs_vn_ok : VnodesOk (sfs_fs D).
Proof.
  split; simpl; intros.
  - apply incref_bal.
  - apply decref_bal.
  - apply incopen_bal.
  - apply decopen_bal.
  - apply post_any. intros sv. apply post_Done, bal_none.
  - apply io_at_bal, vop_read_keeps.
  - apply io_at_bal, vop_write_keeps.
  - apply post_any. intros sv. apply post_Done, bal_none.
  - apply post_any. intros sv. apply post_any. intros r. apply post_Done, bal_none.
  - apply truncate_bal.
  - apply vop_at_post; [apply post_Done, bal_none|apply creat_bal].
  - apply code_at_bal.
  - apply code_at_bal.
  - apply vop_at_post; [apply post_Done, bal_none|apply sfs_link_bal].
  - apply vop_at_post; [apply post_Done, bal_none|apply remove_bal].
  - apply code_at_bal.
  - apply vop_at_post; [apply post_Done, bal_none|apply sfs_rename_bal].
  - apply vop_at_post; [apply post_Done, bal_none|apply sfs_lookup_bal].
  - apply vop_at_post; [apply post_Done, bal_none|apply sfs_lookparent_bal].
  - apply on_fs_post, sfs_sync_bal.
  - apply on_fs_post, sfs_getroot_bal.
  - apply on_fs_post, post_any. intros r. apply post_Done, bal_none.
Qed.

End refs.
End SfsRef.
