(* ===== verification/Vfs.v ===== *)
(** * The VFS layer ([kern/fs/vfs/vfslookup.c], [vfspath.c], [vfscwd.c], [vfslist.c])

    Path translation, the calls on path names, the current directory and the
    table of named devices, over any implementation of the vnode interface.

    A string is the list of its bytes, without the terminator.  [getdevice]
    cuts a path in place; no caller looks at the path again, so the pieces are
    values here.  A [struct knowndev] is referenced from its cell of the table
    only, so the table holds the structures themselves.  [mem] says which
    [kmalloc] requests succeed.  The two locks are flags: whether the calling
    thread holds them.  Waiting for another thread's lock is not modelled. *)

From Stdlib Require Import ZArith Lia Bool.
From stdpp Require Import base list numbers.
From S2P Require Import Prelude.
From S2P Require Import Array.
From S2P Require Import Uio.
From S2P Require Import Vnode.
Import Copy Uio.

Module Vfs.

Definition NAME_MAX : Z := 255.
Definition O_RDONLY : Z := 0.
Definition O_WRONLY : Z := 1.
Definition O_RDWR : Z := 2.
Definition O_CREAT : Z := 4.
Definition O_EXCL : Z := 8.
Definition O_TRUNC : Z := 16.
Definition O_ACCMODE : Z := 3.
Definition has_flag (flags f : Z) : bool := negb (Z.land flags f =? 0).

Definition S_IFMT : Z := 28672.
Definition S_IFDIR : Z := 8192.
Definition S_ISDIR (mode : Z) : bool := Z.land mode S_IFMT =? S_IFDIR.

(** [':'], ['/'] and ["raw"] *)
Definition COLON : Z := 58.
Definition SLASH : Z := 47.
Definition RAW : list Z := [114; 97; 119].

Definition strcmp (a b : list Z) : bool := bool_decide (a = b).
Definition strlen (a : list Z) : Z := Z.of_nat (length a).

Record knowndev : Type := mk_kd {
  kd_name : list Z;
  kd_rawname : option (list Z);
  kd_device : option Z;
  kd_vnode : Z;
  kd_fs : option Z
}.

Definition set_kd_fs (kd : knowndev) (fs : option Z) : knowndev :=
  mk_kd (kd_name kd) (kd_rawname kd) (kd_device kd) (kd_vnode kd) fs.

(** The globals of the layer and [curthread->t_cwd]. *)
Record vfs : Type := mk_vfs {
  knowndevs : Array.array (P := knowndev);
  knowndevs_lock : bool;
  bootfs_vnode : option Z;
  bootfs_lock : bool;
  t_cwd : option Z
}.

Definition set_knowndevs (s : vfs) x : vfs := mk_vfs x (knowndevs_lock s) (bootfs_vnode s) (bootfs_lock s) (t_cwd s).
Definition set_knowndevs_lock (s : vfs) x : vfs := mk_vfs (knowndevs s) x (bootfs_vnode s) (bootfs_lock s) (t_cwd s).
Definition set_bootfs (s : vfs) x : vfs := mk_vfs (knowndevs s) (knowndevs_lock s) x (bootfs_lock s) (t_cwd s).
Definition set_bootfs_lock (s : vfs) x : vfs := mk_vfs (knowndevs s) (knowndevs_lock s) (bootfs_vnode s) x (t_cwd s).
Definition set_cwd (s : vfs) x : vfs := mk_vfs (knowndevs s) (knowndevs_lock s) (bootfs_vnode s) (bootfs_lock s) x.

(** [lock_acquire] asserts that the caller does not hold the lock yet,
    [lock_release] that it does. *)
Definition acquire_devs (s : vfs) : exec vfs := assert! negb (knowndevs_lock s); Done (set_knowndevs_lock s true).
Definition release_devs (s : vfs) : exec vfs := assert! knowndevs_lock s; Done (set_knowndevs_lock s false).
Definition acquire_boot (s : vfs) : exec vfs := assert! negb (bootfs_lock s); Done (set_bootfs_lock s true).
Definition release_boot (s : vfs) : exec vfs := assert! bootfs_lock s; Done (set_bootfs_lock s false).

(** [array_getguy], whose result the code dereferences. *)
Definition getkd (s : vfs) (i : Z) : exec knowndev :=
  c ← Array.array_getguy (knowndevs s) i;
  match c with Some kd => Done kd | None => Halt Undefined end.

Definition numdevs (s : vfs) : nat := Z.to_nat (Array.array_getnum (knowndevs s)).

Section vfs.
Context {W : Type} {V : Vnodes W}.
Implicit Types (s : vfs) (w : W).

(** ** The device table ([vfslist.c]) *)

(** What one entry of the table answers for a name: nothing, or a result. *)
Definition getroot_entry (mem : Z -> bool) w (kd : knowndev) (devname : list Z) : exec (W * option (ret Z)) :=
  let named := strcmp (kd_name kd) devname in
  let rawnamed := match kd_rawname kd with Some r => strcmp r devname | None => false end in
  let self :=
    assert! match kd_device kd with Some _ => true | None => false end;
    w1 ← vop_incref w (kd_vnode kd);
    Done (w1, Some (Ok (kd_vnode kd))) in
  let rest :=
    if named then
      assert! match kd_fs kd with Some _ => false | None => true end;
      assert! match kd_rawname kd with Some _ => false | None => true end;
      self
    else if rawnamed then self
    else Done (w, None) in
  match kd_fs kd with
  | Some fs =>
      if named || match fs_getvolname w fs with Some vol => strcmp vol devname | None => false end then
        '(w1, v) ← fs_getroot mem w fs; Done (w1, Some (Ok v))
      else rest
  | None =>
      match kd_rawname kd with
      | Some _ => if named then Done (w, Some (Err ENXIO)) else rest
      | None => rest
      end
  end.

Fixpoint getroot_loop (n : nat) (mem : Z -> bool) s w (devname : list Z) (i : Z) : exec (W * ret Z) :=
  match n with
  | O => Done (w, Err ENODEV)
  | S n' =>
      kd ← getkd s i;
      '(w1, a) ← getroot_entry mem w kd devname;
      match a with
      | Some r => Done (w1, r)
      | None => getroot_loop n' mem s w1 devname (i + 1)
      end
  end.

Definition vfs_getroot (mem : Z -> bool) s w (devname : list Z) : exec ((vfs * W) * ret Z) :=
  s1 ← acquire_devs s;
  '(w1, r) ← getroot_loop (numdevs s1) mem s1 w devname 0;
  s2 ← release_devs s1;
  Done ((s2, w1), r).

Fixpoint getdevname_loop (n : nat) s (fs : Z) (i : Z) : exec (option (list Z)) :=
  match n with
  | O => Done None
  | S n' =>
      kd ← getkd s i;
      if bool_decide (kd_fs kd = Some fs) then Done (Some (kd_name kd)) else getdevname_loop n' s fs (i + 1)
  end.

Definition vfs_getdevname s (fs : Z) : exec (vfs * option (list Z)) :=
  s1 ← acquire_devs s;
  r ← getdevname_loop (numdevs s1) s1 fs 0;
  s2 ← release_devs s1;
  Done (s2, r).

Definition mkrawname (mem : Z -> bool) (name : list Z) : option (list Z) :=
  if mem (strlen name + 3 + 1) then Some (name ++ RAW) else None.

Definition samestring (a b : option (list Z)) : bool :=
  match a, b with Some a, Some b => strcmp a b | _, _ => false end.
Definition samestring3 (a b c d : option (list Z)) : bool := samestring a b || samestring a c || samestring a d.

Fixpoint badnames_loop (n : nat) s w (n1 n2 n3 : option (list Z)) (i : Z) : exec bool :=
  match n with
  | O => Done false
  | S n' =>
      kd ← getkd s i;
      if match kd_fs kd with Some fs => samestring3 (fs_getvolname w fs) n1 n2 n3 | None => false end then Done true
      else if samestring3 (kd_rawname kd) n1 n2 n3 || samestring3 (Some (kd_name kd)) n1 n2 n3 then Done true
      else badnames_loop n' s w n1 n2 n3 (i + 1)
  end.

Definition badnames s w (n1 n2 n3 : option (list Z)) : exec bool :=
  assert! knowndevs_lock s; badnames_loop (numdevs s) s w n1 n2 n3 0.

(** [sizeof(struct knowndev)] *)
Definition sizeof_knowndev : Z := 20.

(** With the lock held: [array_add], or [EEXIST]. *)
Definition doadd_insert (mem : Z -> bool) s w (kd : knowndev) (volname : option (list Z)) : exec (vfs * ret unit) :=
  bad ← badnames s w (Some (kd_name kd)) (kd_rawname kd) volname;
  if negb bad then
    '(tab, r) ← Array.array_add mem (knowndevs s) kd; Done (set_knowndevs s tab, r)
  else Done (s, Err EEXIST).

Definition vfs_doadd {DV : Devices W} (mem : Z -> bool) s w (dname : list Z) (mountable : bool)
    (dev fs : option Z) : exec ((vfs * W) * ret unit) :=
  if negb (mem (strlen dname + 1)) then Done ((s, w), Err ENOMEM)
  else
    match (if mountable then match mkrawname mem dname with Some r => Some (Some r) | None => None end
           else Some None) with
    | None => Done ((s, w), Err ENOMEM)
    | Some rawname =>
        '(w1, vn) ← dev_create_vnode mem w dev;
        match vn with
        | None => Done ((s, w1), Err ENOMEM)
        | Some vnode =>
            if negb (mem sizeof_knowndev) then w2 ← dev_free_vnode w1 vnode; Done ((s, w2), Err ENOMEM)
            else
              let kd := mk_kd dname rawname dev vnode fs in
              let volname := match fs with Some f => fs_getvolname w1 f | None => None end in
              s1 ← acquire_devs s;
              '(s2, err) ← doadd_insert mem s1 w1 kd volname;
              s3 ← release_devs s2;
              Done ((s3, w1), err)
        end
    end.

Definition vfs_adddev {DV : Devices W} (mem : Z -> bool) s w (devname : list Z) (dev : Z) (mountable : bool) :
  exec ((vfs * W) * ret unit) := vfs_doadd mem s w devname mountable (Some dev) None.
Definition vfs_addfs {DV : Devices W} (mem : Z -> bool) s w (devname : list Z) (fs : Z) :
  exec ((vfs * W) * ret unit) := vfs_doadd mem s w devname false None (Some fs).

(** The index stands for the pointer to the entry. *)
Fixpoint findmount_loop (n : nat) s (devname : list Z) (i : Z) : exec (ret Z) :=
  match n with
  | O => Done (Err ENODEV)
  | S n' =>
      kd ← getkd s i;
      match kd_rawname kd with
      | None => findmount_loop n' s devname (i + 1)
      | Some _ => if strcmp devname (kd_name kd) then Done (Ok i) else findmount_loop n' s devname (i + 1)
      end
  end.

Definition findmount s (devname : list Z) : exec (ret Z) :=
  assert! knowndevs_lock s; findmount_loop (numdevs s) s devname 0.

(** [kd->kd_fs = fs] *)
Definition put_fs s (i : Z) (kd : knowndev) (fs : option Z) : exec vfs :=
  tab ← Array.array_setguy (knowndevs s) i (set_kd_fs kd fs); Done (set_knowndevs s tab).

(** To the label [puke]. *)
Definition mount_body (mountfunc : W -> Z -> exec (W * ret Z)) s w (devname : list Z) : exec ((vfs * W) * ret unit) :=
  r ← findmount s devname;
  match r with
  | Err e => Done ((s, w), Err e)
  | Ok i =>
      kd ← getkd s i;
      match kd_fs kd with
      | Some _ => Done ((s, w), Err EBUSY)
      | None =>
          assert! match kd_rawname kd with Some _ => true | None => false end;
          match kd_device kd with
          | None => Halt Assertion
          | Some dev =>
              '(w1, r) ← mountfunc w dev;
              match r with
              | Err e => Done ((s, w1), Err e)
              | Ok fs => s1 ← put_fs s i kd (Some fs); Done ((s1, w1), Ok tt)
              end
          end
      end
  end.

Definition vfs_mount (mountfunc : W -> Z -> exec (W * ret Z)) s w (devname : list Z) : exec ((vfs * W) * ret unit) :=
  s1 ← acquire_devs s;
  '((s2, w1), r) ← mount_body mountfunc s1 w devname;
  s3 ← release_devs s2;
  Done ((s3, w1), r).

Definition unmount_body s w (devname : list Z) : exec ((vfs * W) * ret unit) :=
  r ← findmount s devname;
  match r with
  | Err e => Done ((s, w), Err e)
  | Ok i =>
      kd ← getkd s i;
      match kd_fs kd with
      | None => Done ((s, w), Err EINVAL)
      | Some fs =>
          assert! match kd_rawname kd with Some _ => true | None => false end;
          assert! match kd_device kd with Some _ => true | None => false end;
          '(w1, r) ← fs_sync w fs;
          match r with
          | Err e => Done ((s, w1), Err e)
          | Ok _ =>
              '(w2, r) ← fs_unmount w1 fs;
              match r with
              | Err e => Done ((s, w2), Err e)
              | Ok _ => s1 ← put_fs s i kd None; Done ((s1, w2), Ok tt)
              end
          end
      end
  end.

Definition vfs_unmount s w (devname : list Z) : exec ((vfs * W) * ret unit) :=
  s1 ← acquire_devs s;
  '((s2, w1), r) ← unmount_body s1 w devname;
  s3 ← release_devs s2;
  Done ((s3, w1), r).

(** One device of [vfs_unmountall]: [None] is [continue]. *)
Definition unmountall_sync w (fs : Z) : exec (W * bool) :=
  '(w1, r) ← fs_sync w fs;
  match r with
  | Ok _ => Done (w1, true)
  | Err _ => '(w2, r2) ← fs_sync w1 fs; Done (w2, match r2 with Ok _ => true | Err _ => false end)
  end.

Definition unmountall_entry s w (i : Z) : exec (vfs * W) :=
  kd ← getkd s i;
  match kd_rawname kd, kd_fs kd with
  | Some _, Some fs =>
      '(w1, ok) ← unmountall_sync w fs;
      if (ok : bool) then
        '(w2, r) ← fs_unmount w1 fs;
        match r with
        | Ok _ => s1 ← put_fs s i kd None; Done (s1, w2)
        | Err _ => Done (s, w2)
        end
      else Done (s, w1)
  | _, _ => Done (s, w)
  end.

Fixpoint unmountall_loop (n : nat) s w (i : Z) : exec (vfs * W) :=
  match n with
  | O => Done (s, w)
  | S n' => '(s1, w1) ← unmountall_entry s w i; unmountall_loop n' s1 w1 (i + 1)
  end.

Definition vfs_unmountall s w : exec ((vfs * W) * ret unit) :=
  s1 ← acquire_devs s;
  '(s2, w1) ← unmountall_loop (numdevs s1) s1 w 0;
  s3 ← release_devs s2;
  Done ((s3, w1), Ok tt).

(** The results of [FSOP_SYNC] are ignored. *)
Fixpoint sync_loop (n : nat) s w (i : Z) : exec W :=
  match n with
  | O => Done w
  | S n' =>
      kd ← getkd s i;
      w1 ← match kd_fs kd with
           | Some fs => '(w1, _) ← fs_sync w fs; Done w1
           | None => Done w
           end;
      sync_loop n' s w1 (i + 1)
  end.

Definition vfs_sync s w : exec ((vfs * W) * ret unit) :=
  s1 ← acquire_devs s;
  w1 ← sync_loop (numdevs s1) s1 w 0;
  s2 ← release_devs s1;
  Done ((s2, w1), Ok tt).

(** ** The current directory ([vfscwd.c]) *)

Definition vfs_getcurdir s w : exec ((vfs * W) * ret Z) :=
  match t_cwd s with
  | Some v => w1 ← vop_incref w v; Done ((s, w1), Ok v)
  | None => Done ((s, w), Err ENOENT)
  end.

(** [if (old != NULL) VOP_DECREF(old)] *)
Definition drop_ref w (old : option Z) : exec W :=
  match old with Some v => vop_decref w v | None => Done w end.

Definition vfs_setcurdir s w (dir : Z) : exec ((vfs * W) * ret unit) :=
  r ← vop_gettype w dir;
  match r with
  | Err e => Done ((s, w), Err e)
  | Ok vtype =>
      if negb (S_ISDIR vtype) then Done ((s, w), Err ENOTDIR)
      else
        w1 ← vop_incref w dir;
        let old := t_cwd s in
        let s1 := set_cwd s (Some dir) in
        w2 ← drop_ref w1 old;
        Done ((s1, w2), Ok tt)
  end.

Definition vfs_clearcurdir s w : exec ((vfs * W) * ret unit) :=
  let old := t_cwd s in
  let s1 := set_cwd s None in
  w1 ← drop_ref w old;
  Done ((s1, w1), Ok tt).

(** ** Path translation ([vfslookup.c]) *)

(** The loop that looks for the first colon or slash: [(slash, colon)]. *)
Fixpoint first_sep (path : list Z) (i : Z) : Z * Z :=
  match path with
  | [] => (-1, -1)
  | c :: path' => if c =? COLON then (-1, i) else if c =? SLASH then (i, -1) else first_sep path' (i + 1)
  end.

Fixpoint skip_slashes (p : list Z) : list Z :=
  match p with
  | c :: p' => if c =? SLASH then skip_slashes p' else p
  | [] => []
  end.

(** The boot filesystem's root, or the root of the current filesystem. *)
Definition getdevice_root (mem : Z -> bool) s w (path : list Z) : exec ((vfs * W) * ret Z) :=
  if bool_decide (path !! O = Some SLASH) then
    s1 ← acquire_boot s;
    match bootfs_vnode s1 with
    | None => s2 ← release_boot s1; Done ((s2, w), Err ENOENT)
    | Some b => w1 ← vop_incref w b; s2 ← release_boot s1; Done ((s2, w1), Ok b)
    end
  else
    assert! bool_decide (path !! O = Some COLON);
    try! '(s1, w1), vn <- vfs_getcurdir s w;
    match vn_fs w1 vn with
    | None => Halt Assertion
    | Some fs =>
        '(w2, v) ← fs_getroot mem w1 fs;
        w3 ← vop_decref w2 vn;
        Done ((s1, w3), Ok v)
    end.

(** The start vnode and the rest of the path. *)
Definition getdevice (mem : Z -> bool) s w (path : list Z) : exec ((vfs * W) * ret (Z * list Z)) :=
  let '(slash, colon) := first_sep path 0 in
  if (colon <? 0) && negb (slash =? 0) then
    try! '(s1, w1), v <- vfs_getcurdir s w; Done ((s1, w1), Ok (v, path))
  else if colon >? 0 then
    let devname := take (Z.to_nat colon) path in
    let subpath := skip_slashes (drop (Z.to_nat (colon + 1)) path) in
    try! '(s1, w1), v <- vfs_getroot mem s w devname; Done ((s1, w1), Ok (v, subpath))
  else
    assert! (colon =? 0) || (slash =? 0);
    try! '(s1, w1), v <- getdevice_root mem s w path;
    Done ((s1, w1), Ok (v, skip_slashes (drop 1 path))).

Definition vfs_lookparent (mem : Z -> bool) s w (path : list Z) (buflen : Z) : exec ((vfs * W) * ret (Z * list Z)) :=
  try! '(s1, w1), d <- getdevice mem s w path;
  let '(startvn, path) := d in
  '(w2, result) ←
    (if strlen path =? 0 then Done (w1, Err EINVAL) else vop_lookparent mem w1 startvn path buflen);
  w3 ← vop_decref w2 startvn;
  Done ((s1, w3), result).

Definition vfs_lookup (mem : Z -> bool) s w (path : list Z) : exec ((vfs * W) * ret Z) :=
  try! '(s1, w1), d <- getdevice mem s w path;
  let '(startvn, path) := d in
  if strlen path =? 0 then Done ((s1, w1), Ok startvn)
  else
    '(w2, result) ← vop_lookup mem w1 startvn path;
    w3 ← vop_decref w2 startvn;
    Done ((s1, w3), result).

Definition vfs_chdir (mem : Z -> bool) s w (path : list Z) : exec ((vfs * W) * ret unit) :=
  try! '(s1, w1), vn <- vfs_lookup mem s w path;
  '((s2, w2), result) ← vfs_setcurdir s1 w1 vn;
  w3 ← vop_decref w2 vn;
  Done ((s2, w3), result).

Definition change_bootfs s w (newguy : option Z) : exec (vfs * W) :=
  s1 ← acquire_boot s;
  let oldguy := bootfs_vnode s1 in
  let s2 := set_bootfs s1 newguy in
  s3 ← release_boot s2;
  w1 ← drop_ref w oldguy;
  Done (s3, w1).

(** [strchr]: the rest of the string from the character on. *)
Fixpoint strchr (p : list Z) (c : Z) : option (list Z) :=
  match p with
  | [] => None
  | x :: p' => if x =? c then Some p else strchr p' c
  end.

(** [snprintf] keeps what fits in a buffer of [sizeof(tmp) - 1] bytes. *)
Definition vfs_setbootfs (mem : Z -> bool) s w (fsname : list Z) : exec ((vfs * W) * ret unit) :=
  let tmp := take (Z.to_nat (NAME_MAX - 1)) fsname in
  let go tmp :=
    try! '(s1, w1), _u <- vfs_chdir mem s w tmp;
    try! '(s2, w2), newguy <- vfs_getcurdir s1 w1;
    '(s3, w3) ← change_bootfs s2 w2 (Some newguy);
    Done ((s3, w3), Ok tt) in
  match strchr tmp COLON with
  | Some c => if strlen c >? 0 then Done ((s, w), Err EINVAL) else go tmp
  | None => go (tmp ++ [COLON])
  end.

Definition vfs_clearbootfs s w : exec (vfs * W) := change_bootfs s w None.

(** ** Calls on path names ([vfspath.c]) *)

(** [vfs_open] up to the vnode: create or look up. *)
Definition open_vnode (mem : Z -> bool) s w (path : list Z) (openflags : Z) : exec ((vfs * W) * ret Z) :=
  if has_flag openflags O_CREAT then
    try! '(s1, w1), d <- vfs_lookparent mem s w path (NAME_MAX + 1);
    let '(dir, name) := d in
    '(w2, r) ← vop_creat mem w1 dir name (has_flag openflags O_EXCL);
    w3 ← vop_decref w2 dir;
    Done ((s1, w3), r)
  else vfs_lookup mem s w path.

Definition vfs_open (mem : Z -> bool) s w (path : list Z) (openflags : Z) : exec ((vfs * W) * ret Z) :=
  let how := Z.land openflags O_ACCMODE in
  let canwrite := (how =? O_WRONLY) || (how =? O_RDWR) in
  if negb ((how =? O_RDONLY) || canwrite) then Done ((s, w), Err EINVAL)
  else
    try! '(s1, w1), vn <- open_vnode mem s w path openflags;
    assert! negb (vn =? 0);
    '(w2, r) ← vop_open w1 vn openflags;
    match r with
    | Err e => w3 ← vop_decref w2 vn; Done ((s1, w3), Err e)
    | Ok _ =>
        w3 ← vop_incopen w2 vn;
        '(w4, r) ←
          (if has_flag openflags O_TRUNC then
             if negb canwrite then Done (w3, Err EINVAL) else vop_truncate w3 vn 0
           else Done (w3, Ok tt));
        match r with
        | Err e => w5 ← vop_decopen w4 vn; w6 ← vop_decref w5 vn; Done ((s1, w6), Err e)
        | Ok _ => Done ((s1, w4), Ok vn)
        end
    end.

Definition vfs_close w (vn : Z) : exec W := w1 ← vop_decopen w vn; vop_decref w1 vn.

(** Find the parent directory, call [op] on it, drop it. *)
Definition in_parent (mem : Z -> bool) s w (path : list Z) (op : W -> Z -> list Z -> exec (W * ret unit))
  : exec ((vfs * W) * ret unit) :=
  try! '(s1, w1), d <- vfs_lookparent mem s w path (NAME_MAX + 1);
  let '(dir, name) := d in
  '(w2, result) ← op w1 dir name;
  w3 ← vop_decref w2 dir;
  Done ((s1, w3), result).

Definition vfs_remove (mem : Z -> bool) s w (path : list Z) := in_parent mem s w path (vop_remove mem).
Definition vfs_mkdir (mem : Z -> bool) s w (path : list Z) := in_parent mem s w path vop_mkdir.
Definition vfs_rmdir (mem : Z -> bool) s w (path : list Z) := in_parent mem s w path vop_rmdir.

(** [VOP_SYMLINK(newdir, newname, contents)]: the arguments in this order. *)
Definition vfs_symlink (mem : Z -> bool) s w (contents path : list Z) :=
  in_parent mem s w path (fun w dir newname => vop_symlink w dir newname contents).

(** [a->vn_fs == NULL || b->vn_fs == NULL || a->vn_fs != b->vn_fs] *)
Definition other_fs w (a b : Z) : bool :=
  match vn_fs w a, vn_fs w b with
  | Some f, Some g => negb (f =? g)
  | _, _ => true
  end.

Definition vfs_rename (mem : Z -> bool) s w (oldpath newpath : list Z) : exec ((vfs * W) * ret unit) :=
  try! '(s1, w1), d1 <- vfs_lookparent mem s w oldpath (NAME_MAX + 1);
  let '(olddir, oldname) := d1 in
  '((s2, w2), r) ← vfs_lookparent mem s1 w1 newpath (NAME_MAX + 1);
  match r with
  | Err e => w3 ← vop_decref w2 olddir; Done ((s2, w3), Err e)
  | Ok (newdir, newname) =>
      '(w3, result) ←
        (if other_fs w2 olddir newdir then Done (w2, Err EXDEV)
         else vop_rename mem w2 olddir oldname newdir newname);
      w4 ← vop_decref w3 newdir;
      w5 ← vop_decref w4 olddir;
      Done ((s2, w5), result)
  end.

Definition vfs_link (mem : Z -> bool) s w (oldpath newpath : list Z) : exec ((vfs * W) * ret unit) :=
  try! '(s1, w1), oldfile <- vfs_lookup mem s w oldpath;
  '((s2, w2), r) ← vfs_lookparent mem s1 w1 newpath (NAME_MAX + 1);
  match r with
  | Err e => w3 ← vop_decref w2 oldfile; Done ((s2, w3), Err e)
  | Ok (newdir, newname) =>
      '(w3, result) ←
        (if other_fs w2 oldfile newdir then Done (w2, Err EXDEV) else vop_link w2 newdir newname oldfile);
      w4 ← vop_decref w3 newdir;
      w5 ← vop_decref w4 oldfile;
      Done ((s2, w5), result)
  end.

(** The calls that fill a [uio]; [cas] is [curthread->t_vmspace]. *)
Definition vfs_readlink (mem : Z -> bool) (cas : option Z) s w (m : mach) (u : uio) (path : list Z)
  : exec ((vfs * W * mach * uio) * ret unit) :=
  '((s1, w1), r) ← vfs_lookup mem s w path;
  match r with
  | Err e => Done ((s1, w1, m, u), Err e)
  | Ok vn =>
      '((w2, m1, u1), result) ← vop_readlink cas w1 m u vn;
      w3 ← vop_decref w2 vn;
      Done ((s1, w3, m1, u1), result)
  end.

(** The name, the colon and the path, up to the label [out]. *)
Definition getcwd_body (cas : option Z) w (m : mach) (u : uio) (cwd : Z) (name : list Z)
  : exec ((W * mach * uio) * ret unit) :=
  '((m1, _, u1), r) ← uiomove cas m name 0 (strlen name) u;
  match r with
  | Err e => Done ((w, m1, u1), Err e)
  | Ok _ =>
      '((m2, _, u2), r) ← uiomove cas m1 [COLON] 0 1 u1;
      match r with
      | Err e => Done ((w, m2, u2), Err e)
      | Ok _ => vop_namefile cas w m2 u2 cwd
      end
  end.

Definition vfs_getcwd (cas : option Z) s w (m : mach) (u : uio) : exec ((vfs * W * mach * uio) * ret unit) :=
  assert! bool_decide (rw u = UIO_READ);
  '((s1, w1), r) ← vfs_getcurdir s w;
  match r with
  | Err e => Done ((s1, w1, m, u), Err e)
  | Ok cwd =>
      match vn_fs w1 cwd with
      | None => Halt Assertion
      | Some fs =>
          '(s2, name) ←
            match fs_getvolname w1 fs with
            | Some n => Done (s1, Some n)
            | None => vfs_getdevname s1 fs
            end;
          match name with
          | None => Halt Assertion
          | Some name =>
              '((w2, m2, u2), result) ← getcwd_body cas w1 m u cwd name;
              w3 ← vop_decref w2 cwd;
              Done ((s2, w3, m2, u2), result)
          end
      end
  end.

End vfs.
End Vfs.
