(* ===== verification/VfsRef.v ===== *)
(** * Reference counting in the VFS layer

    The VFS layer holds references in [bootfs_vnode] and in the thread's current
    directory; a caller holds those of the vnodes it was handed.  Every call
    changes the counts by exactly what these holders gain and lose, on every
    path, and leaves both locks as it found them. *)

From Stdlib Require Import ZArith Lia Bool.
From stdpp Require Import base list numbers relations.
From S2P Require Import Prelude.
From S2P Require Import Array.
From S2P Require Import Uio.
From S2P Require Import Vnode.
From S2P Require Import Vfs.
Import Copy Uio Vfs.

Module VfsRef.

Definition owned (o : option Z) (x : Z) : Z := match o with Some v => one v x | None => 0 end.

(** The references the layer itself holds. *)
Definition held (s : vfs) (x : Z) : Z := owned (t_cwd s) x + owned (bootfs_vnode s) x.

Lemma one_nonneg v x : 0 <= one v x.
Proof. unfold one. case_decide; lia. Qed.
Lemma one_same v : one v v = 1.
Proof. unfold one. by rewrite decide_True. Qed.
Lemma owned_nonneg o x : 0 <= owned o x.
Proof. destruct o; [apply one_nonneg|done]. Qed.

Lemma owned_Some v x : owned (Some v) x = one v x.
Proof. done. Qed.
Lemma owned_None x : owned None x = 0.
Proof. done. Qed.

Lemma gives_Ok {A} (f : A -> Z) a x : gives f (Ok a) x = one (f a) x.
Proof. done. Qed.
Lemma gives_Err {A} (f : A -> Z) e x : gives f (Err e) x = 0.
Proof. done. Qed.
Lemma gives_nonneg {A} (f : A -> Z) r x : 0 <= gives f r x.
Proof. destruct r; [apply one_nonneg|done]. Qed.

Section refs.
Context {W : Type} {V : Vnodes W} {VOK : VnodesOk W}.
Implicit Types (s : vfs) (w : W).

(** The counts are enough for what the layer holds. *)
Definition covers s w : Prop := forall x, held s x <= vn_count w x.

Record vbal s w (d : Z -> Z) s' w' : Prop := {
  vb_bal : bal w (fun x => held s' x - held s x + d x) w';
  vb_devs : knowndevs_lock s' = knowndevs_lock s;
  vb_boot : bootfs_lock s' = bootfs_lock s
}.

Lemma drop_ok w old : (forall x, owned old x <= vn_count w x) -> post (drop_ref w old) (bal w (fun x => - owned old x)).
Proof.
  intros H. destruct old as [v|]; simpl; [|apply post_Done, bal_none].
  apply decref_ok. specialize (H v). rewrite owned_Some, one_same in H. lia.
Qed.

End refs.

(** What the counts at [v] are at least, from the calls so far. *)
Ltac unheld :=
  unfold held, none in *;
  cbn [t_cwd bootfs_vnode set_cwd set_bootfs set_bootfs_lock set_knowndevs_lock set_knowndevs] in *;
  rewrite ?owned_Some, ?owned_None, ?gives_Ok, ?gives_Err in *; cbn [fst snd id] in *.
Ltac counts v :=
  repeat match goal with
  | H : bal _ _ _ |- _ => apply (fun h => bal_safe _ _ _ h v) in H
  | H : covers _ _ |- _ => specialize (H v)
  end;
  unheld; rewrite ?one_same in *;
  repeat match goal with
  | H : context [one ?a ?x] |- _ =>
      lazymatch goal with _ : 0 <= one a x |- _ => fail | _ => pose proof (one_nonneg a x) end
  | H : context [owned ?a ?x] |- _ =>
      lazymatch goal with _ : 0 <= owned a x |- _ => fail | _ => pose proof (owned_nonneg a x) end
  | H : context [gives ?f ?a ?x] |- _ =>
      lazymatch goal with _ : 0 <= gives f a x |- _ => fail | _ => pose proof (gives_nonneg f a x) end
  end; lia.
Ltac has_ref := lazymatch goal with |- 0 < vn_count _ ?v => counts v end.

#[export] Hint Extern 0 (covers _ _) => (intros ?x; counts x) : post.

Ltac vbals := repeat match goal with H : vbal _ _ _ _ _ |- _ => destruct H end.
Ltac eqs := repeat match goal with H : bal _ _ _ /\ _ |- _ => destruct H | H : _ = _ /\ _ = _ |- _ => destruct H as [-> ?] end.
Ltac vpairs := repeat match goal with p : _ * _ |- _ => destruct p end; cbn beta iota in *; vbals; eqs.
Ltac vbal_done :=
  split;
  [ repeat match goal with H : bal ?a _ _ |- bal ?a _ _ => apply (bal_step _ _ _ _ _ H); clear H end;
    apply bal_zero; intros ?; unheld; lia
  | cbn in *; congruence.. ].
Ltac vgo :=
  repeat (first
    [ lazymatch goal with |- post (mbind _ (vop_decref _ _)) _ =>
        apply post_bind; eapply post_mono; [apply decref_ok; has_ref|]; intros ? ?
      | |- post (mbind _ (drop_ref _ _)) _ =>
        apply post_bind; eapply post_mono; [apply drop_ok; intros ?x; counts x|]; intros ? ?
      | |- post (mbind _ (dev_free_vnode _ _)) _ =>
        apply post_bind; eapply post_mono; [apply free_vnode_ok; by auto|]; intros ? ? end
    | vc_step ]; cbn beta iota; vpairs).

Section calls.
Context {W : Type} {V : Vnodes W} {VOK : VnodesOk W}.
Implicit Types (s : vfs) (w : W).

Lemma getcurdir_bal s w : covers s w -> post (vfs_getcurdir s w) (fun '((s', w'), r) => vbal s w (gives id r) s' w').
Proof. intros Hc. unfold vfs_getcurdir. vgo. all: vbal_done. Qed.

#[local] Hint Resolve getcurdir_bal : post.

(** The loops over the device table only read it. *)
Lemma getroot_entry_bal mem w kd n :
  post (getroot_entry mem w kd n) (fun '(w', a) => bal w (match a with Some r => gives id r | None => none end) w').
Proof. unfold getroot_entry. vgo. all: try bal_chain. Qed.
#[local] Hint Resolve getroot_entry_bal : post.
Lemma getroot_loop_bal n mem s w name i :
  post (getroot_loop n mem s w name i) (fun '(w', r) => bal w (gives id r) w').
Proof. revert w i. induction n; intros; simpl; vgo. all: try bal_chain. Qed.
#[local] Hint Resolve getroot_loop_bal : post.

Lemma acquire_devs_eq s : post (acquire_devs s) (fun s' => s' = set_knowndevs_lock s true /\ knowndevs_lock s = false).
Proof. unfold acquire_devs. vc. by destruct (knowndevs_lock s). Qed.
Lemma release_devs_eq s : post (release_devs s) (fun s' => s' = set_knowndevs_lock s false /\ knowndevs_lock s = true).
Proof. unfold release_devs. vc. by destruct (knowndevs_lock s). Qed.
Lemma acquire_boot_eq s : post (acquire_boot s) (fun s' => s' = set_bootfs_lock s true /\ bootfs_lock s = false).
Proof. unfold acquire_boot. vc. by destruct (bootfs_lock s). Qed.
Lemma release_boot_eq s : post (release_boot s) (fun s' => s' = set_bootfs_lock s false /\ bootfs_lock s = true).
Proof. unfold release_boot. vc. by destruct (bootfs_lock s). Qed.
#[local] Hint Resolve acquire_devs_eq release_devs_eq acquire_boot_eq release_boot_eq : post.

Lemma getroot_bal mem s w n : post (vfs_getroot mem s w n) (fun '((s', w'), r) => vbal s w (gives id r) s' w').
Proof. unfold vfs_getroot. vgo. vbal_done. Qed.
#[local] Hint Resolve getroot_bal : post.

Lemma getdevice_root_bal mem s w path : covers s w ->
  post (getdevice_root mem s w path) (fun '((s', w'), r) => vbal s w (gives id r) s' w').
Proof. intros Hc. unfold getdevice_root. vgo. all: try vbal_done. Qed.
#[local] Hint Resolve getdevice_root_bal : post.
Lemma getdevice_bal mem s w path : covers s w ->
  post (getdevice mem s w path) (fun '((s', w'), r) => vbal s w (gives fst r) s' w').
Proof. intros Hc. unfold getdevice. vgo. all: try vbal_done. Qed.
#[local] Hint Resolve getdevice_bal : post.

Lemma lookparent_bal mem s w path n : covers s w ->
  post (vfs_lookparent mem s w path n) (fun '((s', w'), r) => vbal s w (gives fst r) s' w').
Proof. intros Hc. unfold vfs_lookparent. vgo. all: try vbal_done. Qed.
Lemma lookup_bal mem s w path : covers s w ->
  post (vfs_lookup mem s w path) (fun '((s', w'), r) => vbal s w (gives id r) s' w').
Proof. intros Hc. unfold vfs_lookup. vgo. all: try vbal_done. Qed.
#[local] Hint Resolve lookparent_bal lookup_bal : post.

Lemma setcurdir_bal s w d : covers s w -> post (vfs_setcurdir s w d) (fun '((s', w'), _) => vbal s w none s' w').
Proof. intros Hc. unfold vfs_setcurdir. vgo. all: try vbal_done. Qed.
Lemma clearcurdir_bal s w : covers s w -> post (vfs_clearcurdir s w) (fun '((s', w'), _) => vbal s w none s' w').
Proof. intros Hc. unfold vfs_clearcurdir. vgo. all: try vbal_done. Qed.
#[local] Hint Resolve setcurdir_bal : post.
Lemma chdir_bal mem s w p : covers s w -> post (vfs_chdir mem s w p) (fun '((s', w'), _) => vbal s w none s' w').
Proof. intros Hc. unfold vfs_chdir. vgo. all: try vbal_done. Qed.
#[local] Hint Resolve chdir_bal : post.

(** [change_bootfs] takes over the reference to the new vnode. *)
Lemma change_bootfs_bal s w o : covers s w ->
  post (change_bootfs s w o) (fun '(s', w') => vbal s w (fun x => - owned o x) s' w').
Proof. intros Hc. unfold change_bootfs. vgo. all: try vbal_done. Qed.
#[local] Hint Resolve change_bootfs_bal : post.
Lemma setbootfs_bal mem s w n : covers s w ->
  post (vfs_setbootfs mem s w n) (fun '((s', w'), _) => vbal s w none s' w').
Proof. intros Hc. unfold vfs_setbootfs. vgo. all: try vbal_done. Qed.
Lemma clearbootfs_bal s w : covers s w -> post (vfs_clearbootfs s w) (fun '(s', w') => vbal s w none s' w').
Proof. intros Hc. unfold vfs_clearbootfs. vgo. vbal_done. Qed.

Lemma open_vnode_bal mem s w p fl : covers s w ->
  post (open_vnode mem s w p fl) (fun '((s', w'), r) => vbal s w (gives id r) s' w').
Proof. intros Hc. unfold open_vnode. vgo. all: try vbal_done. Qed.
#[local] Hint Resolve open_vnode_bal : post.
Lemma open_bal mem s w p fl : covers s w ->
  post (vfs_open mem s w p fl) (fun '((s', w'), r) => vbal s w (gives id r) s' w').
Proof. intros Hc. unfold vfs_open. vgo. all: try vbal_done. Qed.
Lemma close_bal w v : 0 < vn_count w v -> post (vfs_close w v) (bal w (fun x => - one v x)).
Proof.
  intros Hv. unfold vfs_close. apply post_bind. eapply post_mono; [apply decopen_ok|]. intros w1 H.
  eapply post_mono; [apply decref_ok; counts v|]. intros w2 H2. bal_chain.
Qed.

Lemma in_parent_bal mem s w p op : (forall w d n, post (op w d n) (fun '(w', _) => bal w none w')) -> covers s w ->
  post (in_parent mem s w p op) (fun '((s', w'), _) => vbal s w none s' w').
Proof. intros Hop Hc. unfold in_parent. vgo. all: try vbal_done. Qed.
Lemma rename_bal mem s w p1 p2 : covers s w ->
  post (vfs_rename mem s w p1 p2) (fun '((s', w'), _) => vbal s w none s' w').
Proof. intros Hc. unfold vfs_rename. vgo. all: try vbal_done. Qed.
Lemma link_bal mem s w p1 p2 : covers s w ->
  post (vfs_link mem s w p1 p2) (fun '((s', w'), _) => vbal s w none s' w').
Proof. intros Hc. unfold vfs_link. vgo. all: try vbal_done. Qed.
Lemma readlink_bal mem cas s w m u p : covers s w ->
  post (vfs_readlink mem cas s w m u p) (fun '((s', w', _, _), _) => vbal s w none s' w').
Proof. intros Hc. unfold vfs_readlink. vgo. all: try vbal_done. Qed.

Lemma getdevname_locks s fs : post (vfs_getdevname s fs) (fun '(s', _) => s' = set_knowndevs_lock s false /\ knowndevs_lock s = false).
Proof. unfold vfs_getdevname. vgo. done. Qed.
#[local] Hint Resolve getdevname_locks : post.
Lemma getcwd_body_bal cas w m u v n : post (getcwd_body cas w m u v n) (fun '((w', _, _), _) => bal w none w').
Proof. unfold getcwd_body. vgo. all: try bal_chain. Qed.
#[local] Hint Resolve getcwd_body_bal : post.
Lemma getcwd_bal cas s w m u : covers s w ->
  post (vfs_getcwd cas s w m u) (fun '((s', w', _, _), _) => vbal s w none s' w').
Proof. intros Hc. unfold vfs_getcwd. vgo. all: try vbal_done. Qed.

Lemma put_fs_bal s i kd fs : post (put_fs s i kd fs) (fun s' => exists tab, s' = set_knowndevs s tab).
Proof. unfold put_fs. vc. eauto. Qed.
#[local] Hint Resolve put_fs_bal : post.
Ltac tabs := repeat match goal with H : exists tab, _ = set_knowndevs _ tab |- _ => destruct H as [? ->] end.

Lemma mount_body_bal mf s w n : (forall w d, post (mf w d) (fun '(w', _) => bal w none w')) ->
  post (mount_body mf s w n) (fun '((s', w'), _) => vbal s w none s' w').
Proof. intros Hm. unfold mount_body. vgo; tabs. all: vbal_done. Qed.
Lemma unmount_body_bal s w n : post (unmount_body s w n) (fun '((s', w'), _) => vbal s w none s' w').
Proof. unfold unmount_body. vgo; tabs. all: vbal_done. Qed.
#[local] Hint Resolve mount_body_bal unmount_body_bal : post.

Lemma mount_bal mf s w n : (forall w d, post (mf w d) (fun '(w', _) => bal w none w')) ->
  post (vfs_mount mf s w n) (fun '((s', w'), _) => vbal s w none s' w').
Proof. intros Hm. unfold vfs_mount. vgo. vbal_done. Qed.
Lemma unmount_bal s w n : post (vfs_unmount s w n) (fun '((s', w'), _) => vbal s w none s' w').
Proof. unfold vfs_unmount. vgo. vbal_done. Qed.

Lemma unmountall_sync_bal w fs : post (unmountall_sync w fs) (fun '(w', _) => bal w none w').
Proof. unfold unmountall_sync. vgo. all: bal_chain. Qed.
#[local] Hint Resolve unmountall_sync_bal : post.
Lemma unmountall_entry_bal s w i : post (unmountall_entry s w i) (fun '(s', w') => vbal s w none s' w').
Proof. unfold unmountall_entry. vgo; tabs. all: vbal_done. Qed.
#[local] Hint Resolve unmountall_entry_bal : post.
Lemma unmountall_loop_bal n s w i : post (unmountall_loop n s w i) (fun '(s', w') => vbal s w none s' w').
Proof. revert s w i. induction n; intros; simpl; vgo. all: vbal_done. Qed.
#[local] Hint Resolve unmountall_loop_bal : post.
Lemma unmountall_bal s w : post (vfs_unmountall s w) (fun '((s', w'), _) => vbal s w none s' w').
Proof. unfold vfs_unmountall. vgo. vbal_done. Qed.

Lemma sync_loop_bal n s w i : post (sync_loop n s w i) (bal w none).
Proof. revert w i. induction n; intros; simpl; vgo. all: bal_chain. Qed.
#[local] Hint Resolve sync_loop_bal : post.
Lemma sync_bal s w : post (vfs_sync s w) (fun '((s', w'), _) => vbal s w none s' w').
Proof. unfold vfs_sync. vgo. vbal_done. Qed.

Lemma doadd_insert_bal mem s w kd vol :
  post (doadd_insert mem s w kd vol) (fun '(s', _) => exists tab, s' = set_knowndevs s tab).
Proof. unfold doadd_insert. vgo; [eauto|]. exists (knowndevs s). by destruct s. Qed.
#[local] Hint Resolve doadd_insert_bal : post.

Lemma doadd_bal {DV : Devices W} {DOK : DevicesOk W} mem s w n b d fs :
  post (vfs_doadd mem s w n b d fs) (fun '((s', w'), _) => vbal s w none s' w').
Proof. unfold vfs_doadd. vgo; tabs. all: try vbal_done. Qed.

End calls.

(** ** Histories *)

(** The calls other code makes on the layer, and reads and writes of vnodes. *)
Inductive call : Type :=
| Open (path : list Z) (flags : Z)
| Lookup (path : list Z)
| Lookparent (path : list Z) (buflen : Z)
| Getcurdir
| Remove (path : list Z)
| Rename (oldpath newpath : list Z)
| Link (oldpath newpath : list Z)
| Symlink (contents path : list Z)
| Mkdir (path : list Z)
| Rmdir (path : list Z)
| Chdir (path : list Z)
| Setcurdir (v : Z)
| Clearcurdir
| Setbootfs (fsname : list Z)
| Clearbootfs
| Readlink (m : mach) (u : uio) (path : list Z)
| Getcwd (m : mach) (u : uio)
| Read (m : mach) (u : uio) (v : Z)
| Write (m : mach) (u : uio) (v : Z)
| Sync
| Mount (devname : list Z)
| Unmount (devname : list Z)
| Unmountall
| Adddev (name : list Z) (dev : Z) (mountable : bool)
| Addfs (name : list Z) (fs : Z).

Section history.
Context {W : Type} {V : Vnodes W} {DV : Devices W}.
Variables (mountfunc : W -> Z -> exec (W * ret Z)) (mem : Z -> bool) (cas : option Z).
Implicit Types (s : vfs) (w : W).

(** A call that hands out nothing, and one that hands out a vnode. *)
Definition plain {A} (m : exec ((vfs * W) * ret A)) : exec (vfs * W * option Z) := '((s, w), _) ← m; Done (s, w, None).
Definition handing {A} (f : A -> Z) (m : exec ((vfs * W) * ret A)) : exec (vfs * W * option Z) :=
  '((s, w), r) ← m; Done (s, w, match r with Ok a => Some (f a) | Err _ => None end).

Definition do_call (c : call) s w : exec (vfs * W * option Z) :=
  match c with
  | Open p fl => handing id (vfs_open mem s w p fl)
  | Lookup p => handing id (vfs_lookup mem s w p)
  | Lookparent p n => handing fst (vfs_lookparent mem s w p n)
  | Getcurdir => handing id (vfs_getcurdir s w)
  | Remove p => plain (vfs_remove mem s w p)
  | Rename p q => plain (vfs_rename mem s w p q)
  | Link p q => plain (vfs_link mem s w p q)
  | Symlink c p => plain (vfs_symlink mem s w c p)
  | Mkdir p => plain (vfs_mkdir mem s w p)
  | Rmdir p => plain (vfs_rmdir mem s w p)
  | Chdir p => plain (vfs_chdir mem s w p)
  | Setcurdir v => plain (vfs_setcurdir s w v)
  | Clearcurdir => plain (vfs_clearcurdir s w)
  | Setbootfs n => plain (vfs_setbootfs mem s w n)
  | Clearbootfs => '(s1, w1) ← vfs_clearbootfs s w; Done (s1, w1, None)
  | Readlink m u p => '((s1, w1, _, _), _) ← vfs_readlink mem cas s w m u p; Done (s1, w1, None)
  | Getcwd m u => '((s1, w1, _, _), _) ← vfs_getcwd cas s w m u; Done (s1, w1, None)
  | Read m u v => '((w1, _, _), _) ← vop_read cas w m u v; Done (s, w1, None)
  | Write m u v => '((w1, _, _), _) ← vop_write cas w m u v; Done (s, w1, None)
  | Sync => plain (vfs_sync s w)
  | Mount n => plain (vfs_mount mountfunc s w n)
  | Unmount n => plain (vfs_unmount s w n)
  | Unmountall => plain (vfs_unmountall s w)
  | Adddev n d b => plain (vfs_adddev mem s w n d b)
  | Addfs n fs => plain (vfs_addfs mem s w n fs)
  end.

(** A state of the system: the layer, what is behind it, and the vnodes that
    its callers hold.  A caller may drop or close what it holds. *)
Record sys : Type := mk_sys { y_vfs : vfs; y_world : W; y_mine : list Z }.

Definition opt_list {A} (o : option A) : list A := match o with Some a => [a] | None => [] end.

Inductive step : sys -> sys -> Prop :=
| step_call c s w l s' w' o : do_call c s w = Done (s', w', o) ->
    step (mk_sys s w l) (mk_sys s' w' (opt_list o ++ l))
| step_close s w l1 v l2 w' : vfs_close w v = Done w' -> step (mk_sys s w (l1 ++ v :: l2)) (mk_sys s w' (l1 ++ l2))
| step_decref s w l1 v l2 w' : vop_decref w v = Done w' -> step (mk_sys s w (l1 ++ v :: l2)) (mk_sys s w' (l1 ++ l2)).

Definition mine (l : list Z) (x : Z) : Z := foldr (fun v n => one v x + n) 0 l.
Definition total (y : sys) (x : Z) : Z := held (y_vfs y) x + mine (y_mine y) x.

(** The counts are at least what is held, and exactly that as long as no
    vnode refused to go away. *)
Record counted (n : Z) (y : sys) : Prop := {
  ct_safe x : total y x <= vn_count (y_world y) x;
  ct_exact x : vn_warnings (y_world y) = n -> vn_count (y_world y) x = total y x;
  ct_warn : n <= vn_warnings (y_world y);
  ct_ok : vn_ok (y_world y);
  ct_locks : knowndevs_lock (y_vfs y) = false /\ bootfs_lock (y_vfs y) = false
}.

Lemma mine_app l1 l2 x : mine (l1 ++ l2) x = mine l1 x + mine l2 x.
Proof. induction l1; simpl; [done|]. rewrite IHl1. lia. Qed.
Lemma mine_nonneg l x : 0 <= mine l x.
Proof. induction l; simpl; [done|]. pose proof (one_nonneg a x). lia. Qed.

Context {VOK : VnodesOk W} {DOK : DevicesOk W}.
Hypothesis mount_ok : forall w d, post (mountfunc w d) (fun '(w', _) => bal w none w').

Lemma plain_bal {A} s w (m : exec ((vfs * W) * ret A)) : post m (fun '((s', w'), _) => vbal s w none s' w') ->
  post (plain m) (fun '(s', w', o) => vbal s w (owned o) s' w').
Proof. intros H. apply post_bind. eapply post_mono; [exact H|]. intros [[s' w'] r] H'. by apply post_Done. Qed.

Lemma handing_bal {A} (f : A -> Z) s w (m : exec ((vfs * W) * ret A)) :
  post m (fun '((s', w'), r) => vbal s w (gives f r) s' w') ->
  post (handing f m) (fun '(s', w', o) => vbal s w (owned o) s' w').
Proof. intros H. apply post_bind. eapply post_mono; [exact H|]. intros [[s' w'] [a|e]] H'; by apply post_Done. Qed.

Lemma bal_vbal s w w' : bal w none w' -> vbal s w none s w'.
Proof. intros H. split; [|done..]. eapply bal_ext; [exact H|]. intros x. unfold none. lia. Qed.

Lemma call_bal c s w : covers s w -> post (do_call c s w) (fun '(s', w', o) => vbal s w (owned o) s' w').
Proof.
  intros Hc. destruct c; simpl; try (apply handing_bal); try (apply plain_bal).
  - by apply open_bal.
  - by apply lookup_bal.
  - by apply lookparent_bal.
  - by apply getcurdir_bal.
  - apply in_parent_bal; [apply remove_ok|done].
  - by apply rename_bal.
  - by apply link_bal.
  - apply in_parent_bal; [intros; apply symlink_ok|done].
  - apply in_parent_bal; [apply mkdir_ok|done].
  - apply in_parent_bal; [apply rmdir_ok|done].
  - by apply chdir_bal.
  - by apply setcurdir_bal.
  - by apply clearcurdir_bal.
  - by apply setbootfs_bal.
  - apply post_bind. eapply post_mono; [by apply clearbootfs_bal|]. intros [s' w'] H. by apply post_Done.
  - apply post_bind. eapply post_mono; [by apply readlink_bal|]. intros [[[[s' w'] m'] u'] r] H. by apply post_Done.
  - apply post_bind. eapply post_mono; [by apply getcwd_bal|]. intros [[[[s' w'] m'] u'] r] H. by apply post_Done.
  - apply post_bind. eapply post_mono; [apply read_ok|]. intros [[[w' m'] u'] r] H. by apply post_Done, bal_vbal.
  - apply post_bind. eapply post_mono; [apply write_ok|]. intros [[[w' m'] u'] r] H. by apply post_Done, bal_vbal.
  - apply sync_bal.
  - by apply mount_bal.
  - apply unmount_bal.
  - apply unmountall_bal.
  - apply doadd_bal.
  - apply doadd_bal.
Qed.

Lemma opt_list_mine o x : mine (opt_list o) x = owned o x.
Proof. destruct o; simpl; lia. Qed.

(** What happens when the references of the holders and the counts change alike. *)
Lemma counted_step n y s' w' l' d : counted n y -> bal (y_world y) d w' ->
  (forall x, held s' x + mine l' x = total y x + d x) -> knowndevs_lock s' = false /\ bootfs_lock s' = false ->
  counted n (mk_sys s' w' l').
Proof.
  intros [Hs He Hw Hok _] [Bw Bs Be Bok] Hd Hl. split; simpl; [intros x|intros x E|lia|auto|done]; unfold total; simpl; rewrite Hd.
  - specialize (Hs x). specialize (Bs x). lia.
  - rewrite Be by (done || lia). rewrite He by lia. lia.
Qed.

Lemma counted_has n s w l1 v l2 : counted n (mk_sys s w (l1 ++ v :: l2)) -> 0 < vn_count w v.
Proof.
  intros [Hs _ _ _ _]. specialize (Hs v). unfold total, held in Hs. simpl in Hs. rewrite mine_app in Hs. simpl in Hs.
  rewrite one_same in Hs. pose proof (mine_nonneg l1 v). pose proof (mine_nonneg l2 v).
  pose proof (owned_nonneg (t_cwd s) v). pose proof (owned_nonneg (bootfs_vnode s) v). lia.
Qed.

Lemma mine_drop l1 v l2 x : mine (l1 ++ l2) x = mine (l1 ++ v :: l2) x - one v x.
Proof. rewrite !mine_app. simpl. lia. Qed.

Lemma step_counted n y y' : step y y' -> counted n y -> counted n y'.
Proof.
  intros [c s w l s' w' o E|s w l1 v l2 w' E|s w l1 v l2 w' E] Hc.
  - assert (covers s w) as Hcov.
    { intros x. pose proof (ct_safe _ _ Hc x) as H. unfold total in H. simpl in H. pose proof (mine_nonneg l x). lia. }
    destruct (call_bal c s w Hcov _ E) as [Hb H1 H2]. pose proof (ct_locks _ _ Hc) as [L1 L2]. simpl in L1, L2.
    eapply (counted_step _ _ _ _ _ _ Hc Hb); [|split; congruence].
    intros x. rewrite mine_app, opt_list_mine. unfold total. simpl. lia.
  - pose proof (close_bal w v (counted_has _ _ _ _ _ _ Hc) _ E) as Hb.
    eapply (counted_step _ _ _ _ _ _ Hc Hb); [|apply (ct_locks _ _ Hc)].
    intros x. rewrite (mine_drop l1 v l2). unfold total. simpl. lia.
  - pose proof (decref_ok w v (counted_has _ _ _ _ _ _ Hc) _ E) as Hb.
    eapply (counted_step _ _ _ _ _ _ Hc Hb); [|apply (ct_locks _ _ Hc)].
    intros x. rewrite (mine_drop l1 v l2). unfold total. simpl. lia.
Qed.

(** C4. Reference counting of the VFS layer.  In every history of VFS calls,
    with any outcome of every call (errors, exhausted memory, failing devices),
    the count of each vnode covers the references held by the current directory,
    the boot filesystem and the callers, so no vnode goes away while it is in use;
    and the count is exactly their number as long as the kernel has printed no
    warning about a vnode, so no path leaks a reference.  Both VFS locks are free
    after every call. *)
Theorem vfs_refcounts y y' n : rtc step y y' -> counted n y -> counted n y'.
Proof. intros H. induction H as [|y1 y2 y3 H1 _ IH]; [done|]. intros Hc. apply IH. by apply (step_counted _ y1). Qed.

End history.
End VfsRef.
