(* ===== verification/VfsTable.v ===== *)
(** * The device table and path names

    What [vfs_getroot] finds for a name, that registering a device keeps the
    names apart, and how a path is cut into a start vnode and the rest. *)

From Stdlib Require Import ZArith Lia Bool.
From stdpp Require Import base list numbers.
From S2P Require Import Prelude.
From S2P Require Import Array.
From S2P Require Import Uio.
From S2P Require Import Vnode.
From S2P Require Import Vfs.
Import Copy Uio Vfs.

Module VfsTable.
Section table.
Context {W : Type} {V : Vnodes W}.
Implicit Types (s : vfs) (w : W) (kd : knowndev) (l : list knowndev) (n : list Z).

(** The table holds the devices [l]. *)
Record devs_are s l : Prop := {
  da_wf : Array.array_wf (knowndevs s);
  da_contents : Array.contents (knowndevs s) = Some <$> l;
  da_num : Array.num (knowndevs s) = Z.of_nat (length l)
}.

(** The names under which a device can be found. *)
Definition volname w kd : option (list Z) := match kd_fs kd with Some fs => fs_getvolname w fs | None => None end.
Definition names w kd n : Prop := n = kd_name kd \/ kd_rawname kd = Some n \/ volname w kd = Some n.

(** Entries before [i] have no name in common with entry [i]. *)
Definition unique w l : Prop :=
  forall i j kd kd' n, l !! i = Some kd -> l !! j = Some kd' -> names w kd n -> names w kd' n -> i = j.

Lemma getkd_ok s l i kd : devs_are s l -> l !! i = Some kd -> getkd s (Z.of_nat i) = Done kd.
Proof.
  intros [Hwf Hc Hn] Hi. pose proof (lookup_lt_Some _ _ _ Hi). unfold getkd.
  destruct (Array.array_getguy_spec (knowndevs s) (Z.of_nat i) Hwf) as (c & -> & E); [lia|].
  rewrite Hc, list_lookup_fmap, Nat2Z.id, Hi in E. simpl in *. by injection E as <-.
Qed.

Lemma numdevs_ok s l : devs_are s l -> numdevs s = length l.
Proof. intros [_ _ Hn]. unfold numdevs, Array.array_getnum. rewrite Hn. lia. Qed.

Lemma strcmp_eq a b : strcmp a b = true <-> a = b.
Proof. apply bool_decide_eq_true. Qed.
Lemma strcmp_refl a : strcmp a a = true.
Proof. by apply strcmp_eq. Qed.
Lemma strcmp_ne a b : a <> b -> strcmp a b = false.
Proof. apply bool_decide_eq_false_2. Qed.

(** An entry passes over a name that is not its own. *)
Lemma entry_skips mem w kd n : ~ names w kd n -> getroot_entry mem w kd n = Done (w, None).
Proof.
  intros H. unfold names, volname in H. unfold getroot_entry. rewrite (strcmp_ne (kd_name kd) n) by naive_solver.
  destruct (kd_rawname kd) as [r|]; [rewrite (strcmp_ne r n) by naive_solver|];
    (destruct (kd_fs kd) as [fs|]; [destruct (fs_getvolname w fs) as [v|]; [rewrite (strcmp_ne v n) by naive_solver|]|]); done.
Qed.

Lemma loop_skips k m mem s w l n i : devs_are s l ->
  (forall j kd, (i <= j < i + k)%nat -> l !! j = Some kd -> ~ names w kd n) -> (i + k <= length l)%nat ->
  getroot_loop (k + m) mem s w n (Z.of_nat i) = getroot_loop m mem s w n (Z.of_nat (i + k)).
Proof.
  intros Hs. revert i. induction k as [|k IH]; intros i Hn Hk; simpl; [by rewrite Nat.add_0_r|].
  destruct (lookup_lt_is_Some_2 l i) as [kd Hi]; [lia|]. rewrite (getkd_ok _ _ _ _ Hs Hi). run.
  rewrite (entry_skips _ _ _ _ (Hn i kd ltac:(lia) Hi)). run.
  replace (Z.of_nat i + 1) with (Z.of_nat (S i)) by lia. rewrite IH; [f_equal; lia| |lia].
  intros j kd' Hj. apply Hn. lia.
Qed.

(** The loop reaches the entry that has the name. *)
Lemma loop_finds mem s w l n i kd : devs_are s l -> unique w l -> l !! i = Some kd -> names w kd n ->
  getroot_loop (numdevs s) mem s w n 0 =
    '(w1, a) ← getroot_entry mem w kd n;
    match a with Some r => Done (w1, r) | None => getroot_loop (numdevs s - S i) mem s w1 n (Z.of_nat (S i)) end.
Proof.
  intros Hs Hu Hi Hk. pose proof (lookup_lt_Some _ _ _ Hi) as Hlt. rewrite (numdevs_ok _ _ Hs).
  replace (length l) with (i + S (length l - S i))%nat at 1 by lia.
  change 0 with (Z.of_nat 0). rewrite (loop_skips _ _ _ _ _ l); [|done| |lia].
  - simpl. rewrite (getkd_ok _ _ _ _ Hs Hi). run. replace (Z.of_nat i + 1) with (Z.of_nat (S i)) by lia. done.
  - intros j kd' Hj Hj' Hn. assert (j = i) by by eapply (Hu j i). lia.
Qed.

(** What the device answers to one of its names, as the comment of [vfslist.c]
    has it. *)
Definition answer (mem : Z -> bool) w kd n : exec (W * ret Z) :=
  let self := w1 ← vop_incref w (kd_vnode kd); Done (w1, Ok (kd_vnode kd)) in
  match kd_fs kd with
  | Some fs =>
      if bool_decide (n = kd_name kd) || bool_decide (volname w kd = Some n) then
        '(w1, v) ← fs_getroot mem w fs; Done (w1, Ok v)
      else self
  | None =>
      match kd_rawname kd with
      | Some _ => if bool_decide (n = kd_name kd) then Done (w, Err ENXIO) else self
      | None => self
      end
  end.

(** The raw device is there where the answer is the device itself. *)
Definition kd_wf kd : Prop := (kd_fs kd = None \/ kd_rawname kd <> None) -> kd_device kd <> None.

Lemma entry_answers mem w kd n : kd_wf kd -> names w kd n ->
  getroot_entry mem w kd n = '(w1, r) ← answer mem w kd n; Done (w1, Some r).
Proof.
  intros Hwf Hn. unfold getroot_entry, answer, names, volname in *.
  assert (strcmp (kd_name kd) n = bool_decide (n = kd_name kd)) as ->.
  { unfold strcmp. apply bool_decide_ext. naive_solver. }
  destruct (bool_decide_reflect (n = kd_name kd)) as [E|E].
  - destruct (kd_fs kd) as [fs|] eqn:Ef; simpl.
    + destruct (fs_getroot mem w fs) as [[w1 v]|]; done.
    + destruct (kd_rawname kd) as [r|] eqn:Er; [done|]. run. destruct (kd_device kd) eqn:Ed; [|exfalso; apply Hwf; [by left|done]].
      destruct (vop_incref w (kd_vnode kd)); done.
  - destruct (kd_rawname kd) as [r|] eqn:Er.
    + assert (kd_device kd <> None) as Hd by (apply Hwf; right; by rewrite Er). destruct (kd_device kd); [|done].
      destruct (kd_fs kd) as [fs|] eqn:Ef; simpl.
      * destruct (fs_getvolname w fs) as [v|] eqn:Ev; simpl.
        -- destruct (decide (v = n)) as [->|Hv].
           ++ rewrite strcmp_refl, bool_decide_eq_true_2 by done. destruct (fs_getroot mem w fs) as [[w1 v]|]; done.
           ++ rewrite (strcmp_ne v n), bool_decide_eq_false_2 by naive_solver.
              rewrite (proj2 (strcmp_eq r n)) by naive_solver. run. destruct (vop_incref w (kd_vnode kd)); done.
        -- rewrite (proj2 (strcmp_eq r n)) by naive_solver. run. destruct (vop_incref w (kd_vnode kd)); done.
      * rewrite (proj2 (strcmp_eq r n)) by naive_solver. run. destruct (vop_incref w (kd_vnode kd)); done.
    + destruct (kd_fs kd) as [fs|] eqn:Ef; [|naive_solver]. simpl.
      destruct (fs_getvolname w fs) as [v|] eqn:Ev; [|naive_solver].
      assert (v = n) as -> by naive_solver. rewrite strcmp_refl, bool_decide_eq_true_2 by done.
      simpl. destruct (fs_getroot mem w fs) as [[w1 v]|]; done.
Qed.

Lemma locked_are s l b : devs_are s l -> devs_are (set_knowndevs_lock s b) l.
Proof. by intros []. Qed.
Lemma relock s : knowndevs_lock s = false -> set_knowndevs_lock (set_knowndevs_lock s true) false = s.
Proof. by destruct s as [? [] ? ? ?]. Qed.

(** Naming the device of an entry. *)
Lemma getroot_finds mem s w l n i kd : devs_are s l -> unique w l -> knowndevs_lock s = false ->
  l !! i = Some kd -> kd_wf kd -> names w kd n ->
  vfs_getroot mem s w n = '(w1, r) ← answer mem w kd n; Done ((s, w1), r).
Proof.
  intros Hs Hu Hlk Hi Hwf Hn. unfold vfs_getroot, acquire_devs, release_devs. rewrite Hlk. run.
  change (knowndevs_lock (set_knowndevs_lock s true)) with true. run. pose proof (locked_are _ _ true Hs) as Hs1.
  rewrite (loop_finds mem _ w l n i kd Hs1 Hu Hi Hn), entry_answers by done.
  destruct (answer mem w kd n) as [[w1 r]|]; run; [|done]. by rewrite relock.
Qed.

(** Resolution of device names ([vfs_getroot]).  In a table whose names are
    distinct, a name is answered by the device that has it, wherever it stands:
    the root of the mounted filesystem for the device or volume name, [ENXIO] for
    a mountable device without a filesystem, the device itself for its raw name or
    if it is not mountable.  Every other name gives [ENODEV].  The table is left
    as it was and its lock free. *)
Theorem vfs_getroot_correct mem s w l n : devs_are s l -> unique w l -> knowndevs_lock s = false ->
  (forall i kd, l !! i = Some kd -> kd_wf kd -> names w kd n ->
     vfs_getroot mem s w n = '(w1, r) ← answer mem w kd n; Done ((s, w1), r)) /\
  ((forall kd, kd ∈ l -> ~ names w kd n) -> vfs_getroot mem s w n = Done ((s, w), Err ENODEV)).
Proof.
  intros Hs Hu Hlk. split; [by intros i kd; apply getroot_finds|].
  unfold vfs_getroot, acquire_devs, release_devs. rewrite Hlk. run.
  change (knowndevs_lock (set_knowndevs_lock s true)) with true. run. pose proof (locked_are _ _ true Hs) as Hs1.
  - intros Hn. rewrite (numdevs_ok _ _ Hs1). replace (length l) with (length l + 0)%nat by lia. change 0 with (Z.of_nat 0) at 1.
    rewrite (loop_skips _ _ _ _ _ l); [|done| |lia].
    + run. by rewrite relock.
    + intros j kd _ Hj. by apply Hn, (list_elem_of_lookup_2 _ j).
Qed.

(** ** Registering a device *)

Definition given (n1 n2 n3 : option (list Z)) n : Prop := n1 = Some n \/ n2 = Some n \/ n3 = Some n.

Lemma samestring_true a b : samestring a b = true <-> exists n, a = Some n /\ b = Some n.
Proof. destruct a, b; simpl; [rewrite strcmp_eq|..]; naive_solver. Qed.
Lemma samestring3_true a (n1 n2 n3 : option (list Z)) : samestring3 a n1 n2 n3 = true <-> exists n, a = Some n /\ given n1 n2 n3 n.
Proof. unfold samestring3, given. rewrite !orb_true_iff, !samestring_true. naive_solver. Qed.

(** The test of one entry. *)
Definition clashes w kd (n1 n2 n3 : option (list Z)) : Prop := exists n, names w kd n /\ given n1 n2 n3 n.

Lemma bad_entry w kd (n1 n2 n3 : option (list Z)) :
  match kd_fs kd with Some fs => samestring3 (fs_getvolname w fs) n1 n2 n3 | None => false end
  || (samestring3 (kd_rawname kd) n1 n2 n3 || samestring3 (Some (kd_name kd)) n1 n2 n3) = true <-> clashes w kd n1 n2 n3.
Proof.
  unfold clashes, names, volname. rewrite !orb_true_iff, !samestring3_true.
  destruct (kd_fs kd); [rewrite samestring3_true|]; naive_solver.
Qed.

Lemma badnames_loop_ok k s w l (n1 n2 n3 : option (list Z)) i : devs_are s l -> (i + k = length l)%nat ->
  exists b, badnames_loop k s w n1 n2 n3 (Z.of_nat i) = Done b /\
    (b = true <-> exists j kd, (i <= j)%nat /\ l !! j = Some kd /\ clashes w kd n1 n2 n3).
Proof.
  intros Hs. revert i. induction k as [|k IH]; intros i Hk; simpl.
  { exists false. split; [done|]. split; [done|]. intros (j & kd & Hj & E & _). apply lookup_lt_Some in E. lia. }
  destruct (lookup_lt_is_Some_2 l i) as [kd Hi]; [lia|]. rewrite (getkd_ok _ _ _ _ Hs Hi). run.
  pose proof (bad_entry w kd n1 n2 n3) as Hb. destruct (match kd_fs kd with Some fs => _ | None => false end); simpl in Hb.
  { exists true. split; [done|]. split; [|done]. intros _. exists i, kd. naive_solver. }
  destruct (_ || _); [exists true; split; [done|]; split; [|done]; intros _; exists i, kd; naive_solver|].
  replace (Z.of_nat i + 1) with (Z.of_nat (S i)) by lia. destruct (IH (S i)) as (b & -> & Hb'); [lia|].
  exists b. split; [done|]. rewrite Hb'. split.
  - intros (j & kd' & Hj & E & Hc). exists j, kd'. split; [lia|done].
  - intros (j & kd' & Hj & E & Hc). exists j, kd'. split; [|done]. destruct (decide (j = i)) as [->|]; [|lia]. naive_solver.
Qed.

Lemma badnames_ok s w l (n1 n2 n3 : option (list Z)) : devs_are s l -> knowndevs_lock s = true ->
  exists b, badnames s w n1 n2 n3 = Done b /\ (b = true <-> exists kd, kd ∈ l /\ clashes w kd n1 n2 n3).
Proof.
  intros Hs Hlk. unfold badnames. rewrite Hlk, (numdevs_ok _ _ Hs). run.
  destruct (badnames_loop_ok (length l) s w l n1 n2 n3 0 Hs) as (b & E & Hb); [done|]. exists b. split; [exact E|].
  rewrite Hb. split.
  - intros (j & kd & _ & Hj & Hc). exists kd. split; [by eapply list_elem_of_lookup_2|done].
  - intros (kd & [j Hj]%list_elem_of_lookup_1 & Hc). exists j, kd. split; [lia|done].
Qed.

Lemma unique_snoc w l kd : unique w l -> (forall kd' n, kd' ∈ l -> names w kd' n -> ~ names w kd n) -> unique w (l ++ [kd]).
Proof.
  intros Hu Hn i j k1 k2 n H1 H2 N1 N2. pose proof (list_elem_of_lookup_2 (A:=knowndev)) as Hel.
  apply lookup_snoc_Some in H1 as [[L1 H1]|[-> ->]], H2 as [[L2 H2]|[-> ->]]; [by eapply Hu| | |done].
  - exfalso. by eapply (Hn k1 n); [by eapply Hel|..].
  - exfalso. by eapply (Hn k2 n); [by eapply Hel|..].
Qed.

Lemma unique_world w w' l : (forall fs, fs_getvolname w' fs = fs_getvolname w fs) -> unique w l -> unique w' l.
Proof.
  intros E Hu i j k1 k2 n H1 H2 N1 N2. apply (Hu i j k1 k2 n H1 H2); unfold names, volname in *.
  - destruct (kd_fs k1); [by rewrite E in N1|done].
  - destruct (kd_fs k2); [by rewrite E in N2|done].
Qed.

Lemma names_world w w' kd n : (forall fs, fs_getvolname w' fs = fs_getvolname w fs) -> names w' kd n <-> names w kd n.
Proof. intros E. unfold names, volname. destruct (kd_fs kd); [by rewrite E|done]. Qed.

(** The new entry. *)
Definition new_kd (dname : list Z) (mountable : bool) (dev : option Z) (v : Z) (fs : option Z) : knowndev :=
  mk_kd dname (if mountable then Some (dname ++ RAW) else None) dev v fs.

Definition clash w l (kd : knowndev) : Prop := exists kd' n, kd' ∈ l /\ names w kd' n /\ names w kd n.

Lemma given_names w dname mountable dev v fs n :
  given (Some dname) (kd_rawname (new_kd dname mountable dev v fs)) (volname w (new_kd dname mountable dev v fs)) n <->
    names w (new_kd dname mountable dev v fs) n.
Proof. unfold given, names, volname, new_kd. simpl. naive_solver. Qed.

(** Under the lock: the names are compared with the table, then the entry is added. *)
Lemma add_locked mem s w l dname (mountable : bool) dev v (fs : option Z) : devs_are s l -> unique w l -> knowndevs_lock s = true ->
  Z.of_nat (length l) < Array.array_limit ->
  let kd := new_kd dname mountable dev v fs in
  post (doadd_insert mem s w kd (volname w kd))
    (fun '(s', r) => knowndevs_lock s' = true /\ exists l', devs_are s' l' /\ unique w l' /\
       match r with
       | Ok _ => l' = l ++ [kd] /\ ~ clash w l kd
       | Err e => l' = l /\ (e = ENOMEM \/ e = EEXIST /\ clash w l kd)
       end).
Proof.
  intros Hs Hu Hlk Hlim kd. unfold doadd_insert. change (kd_name kd) with dname.
  destruct (badnames_ok s w l (Some dname) (kd_rawname kd) (volname w kd) Hs Hlk)
    as (b & -> & Hb). run.
  assert (b = true <-> clash w l kd) as Hc.
  { rewrite Hb. pose proof (given_names w dname mountable dev v fs) as G. fold kd in G. split.
    - intros (kd' & Hin & n & N1 & N2%G). by exists kd', n.
    - intros (kd' & n & Hin & N1 & N2%G). exists kd'. split; [done|]. by exists n. }
  destruct b; simpl.
  { apply post_Done. split; [done|]. exists l. naive_solver. }
  pose proof Hs as [Hwf Hct Hnum].
  destruct (Array.array_add_spec mem (knowndevs s) kd Hwf) as (a' & r & -> & Hwf' & Hr); [lia|]. run.
  apply post_Done. split; [done|]. destruct r as [u|e].
  - exists (l ++ [kd]). assert (~ clash w l kd) as Hnc by (rewrite <- Hc; done). split; [|split; [|done]].
    + assert (Array.contents a' = Some <$> l ++ [kd]) as Hct' by (rewrite Hr, Hct; by rewrite fmap_app).
      split; [done..|]. simpl. rewrite <- (Array.contents_length a' Hwf'), Hct', length_fmap. done.
    + apply unique_snoc; [done|]. intros kd' n Hin N1 N2. apply Hnc. by exists kd', n.
  - destruct Hr as (-> & -> & _). exists l. split; [done|]. split; [done|]. by auto.
Qed.

Context {DV : Devices W} {DOK : DevicesOk W}.

Definition unchanged w w' : Prop := forall fs, fs_getvolname w' fs = fs_getvolname w fs.

(** The table after an attempt to register a device. *)
Definition added l dname mountable dev fs s' w' (r : ret unit) : Prop :=
  knowndevs_lock s' = false /\ exists l', devs_are s' l' /\ unique w' l' /\
    match r with
    | Ok _ => exists v, l' = l ++ [new_kd dname mountable dev v fs] /\ ~ clash w' l (new_kd dname mountable dev v fs)
    | Err e => l' = l /\ (e = ENOMEM \/ e = EEXIST /\ exists v, clash w' l (new_kd dname mountable dev v fs))
    end.

Lemma added_none l dname mountable dev fs s w w' : devs_are s l -> unique w l -> knowndevs_lock s = false -> unchanged w w' ->
  added l dname mountable dev fs s w' (Err ENOMEM).
Proof. intros Hs Hu Hlk Hw. split; [done|]. exists l. split; [done|]. split; [by apply (unique_world w)|]. by auto. Qed.

Lemma rawname_eq mem dname (mountable : bool) raw :
  (if mountable then match mkrawname mem dname with Some r => Some (Some r) | None => None end else Some None) = Some raw ->
  raw = if mountable then Some (dname ++ RAW) else None.
Proof. unfold mkrawname. repeat case_match; naive_solver. Qed.

(** Registering devices and filesystems ([vfs_adddev], [vfs_addfs]) keeps the
    names in the device table apart.  On success the table has exactly one more
    entry, none of whose names was in use; [EEXIST] is returned only for a name
    that was; on every error the table is unchanged.  The lock is free afterwards. *)
Theorem vfs_doadd_unique mem s w l dname mountable dev fs : devs_are s l -> unique w l -> knowndevs_lock s = false ->
  Z.of_nat (length l) < Array.array_limit ->
  post (vfs_doadd mem s w dname mountable dev fs) (fun '((s', w'), r) => added l dname mountable dev fs s' w' r).
Proof.
  intros Hs Hu Hlk Hlim. unfold vfs_doadd. destruct (negb _); [apply post_Done; by apply (added_none _ _ _ _ _ _ w)|].
  destruct (if mountable then _ else _) as [raw|] eqn:Er; [|apply post_Done; by apply (added_none _ _ _ _ _ _ w)].
  apply rawname_eq in Er as ->.
  apply post_bind. eapply post_mono; [apply create_vnode_names|]. intros [w1 [v|]] Hw1;
    [|apply post_Done; by apply (added_none _ _ _ _ _ _ w)].
  destruct (negb _).
  { apply post_bind. eapply post_mono; [apply free_vnode_names|]. intros w2 Hw2. apply post_Done.
    apply (added_none _ _ _ _ _ _ w); try done. intros f. by rewrite Hw2. }
  cbv zeta. unfold acquire_devs. rewrite Hlk. run. apply post_bind.
  eapply post_mono; [apply (add_locked mem _ w1 l dname mountable dev v fs)|].
  - by apply locked_are.
  - by apply (unique_world w).
  - done.
  - done.
  - intros [s2 r] (Hlk2 & l' & Hs2 & Hu2 & Hr). unfold release_devs. rewrite Hlk2. run. apply post_Done.
    split; [done|]. exists l'. split; [by apply locked_are|]. split; [done|].
    destruct r as [u|e]; [by exists v|]. destruct Hr as [-> [->|[-> Hc]]]; [by auto|]. split; [done|]. right. eauto.
Qed.

(** ** Path names *)

(** A name without a colon or a slash. *)
Definition plain_name n : Prop := Forall (fun c => c <> COLON /\ c <> SLASH) n.

(** Where the lookup of a path starts, and the path from there. *)
Inductive start : Type :=
| Current (p : list Z)
| OnDevice (dev p : list Z)
| OnBoot (p : list Z)
| OnCurrentFs (p : list Z).

(** The syntax of paths: [name], [dir/name], [device:path], [/path], [:path]. *)
Inductive parses : list Z -> start -> Prop :=
| parses_name n : plain_name n -> parses n (Current n)
| parses_rel n p : n <> [] -> plain_name n -> parses (n ++ SLASH :: p) (Current (n ++ SLASH :: p))
| parses_dev n p : n <> [] -> plain_name n -> parses (n ++ COLON :: p) (OnDevice n (skip_slashes p))
| parses_boot p : parses (SLASH :: p) (OnBoot (skip_slashes p))
| parses_cur p : parses (COLON :: p) (OnCurrentFs (skip_slashes p)).

Definition start_from (mem : Z -> bool) s w (k : start) : exec ((vfs * W) * ret (Z * list Z)) :=
  match k with
  | Current p => try! '(s1, w1), v <- vfs_getcurdir s w; Done ((s1, w1), Ok (v, p))
  | OnDevice n p => try! '(s1, w1), v <- vfs_getroot mem s w n; Done ((s1, w1), Ok (v, p))
  | OnBoot p =>
      match bootfs_vnode s with
      | Some b => w1 ← vop_incref w b; Done ((s, w1), Ok (b, p))
      | None => Done ((s, w), Err ENOENT)
      end
  | OnCurrentFs p =>
      try! '(s1, w1), vn <- vfs_getcurdir s w;
      match vn_fs w1 vn with
      | None => Halt Assertion
      | Some fs =>
          '(w2, v) ← fs_getroot mem w1 fs;
          w3 ← vop_decref w2 vn;
          Done ((s1, w3), Ok (v, p))
      end
  end.

Lemma first_sep_plain n i : plain_name n -> first_sep n i = (-1, -1).
Proof.
  intros H. revert i. induction H as [|c n [H1 H2] _ IH]; intros i; simpl; [done|].
  rewrite (proj2 (Z.eqb_neq _ _) H1), (proj2 (Z.eqb_neq _ _) H2). apply IH.
Qed.
Lemma first_sep_app n c p i : plain_name n -> c = COLON \/ c = SLASH ->
  first_sep (n ++ c :: p) i =
    if c =? COLON then (-1, i + Z.of_nat (length n)) else (i + Z.of_nat (length n), -1).
Proof.
  intros H Hc. revert i. induction H as [|x n [H1 H2] _ IH]; intros i; simpl.
  - rewrite Z.add_0_r. by destruct Hc as [-> | ->].
  - rewrite (proj2 (Z.eqb_neq _ _) H1), (proj2 (Z.eqb_neq _ _) H2), IH. by repeat case_match; f_equal; lia.
Qed.

Lemma reboot s : bootfs_lock s = false -> set_bootfs_lock (set_bootfs_lock s true) false = s.
Proof. by destruct s as [? ? ? [] ?]. Qed.

Lemma path_parses path : exists k, parses path k.
Proof.
  assert (plain_name path \/ exists n c p, path = n ++ c :: p /\ plain_name n /\ (c = COLON \/ c = SLASH)) as
    [H|(n & c & p & -> & Hn & Hc)].
  { induction path as [|x path IH]; [left; constructor|].
    destruct (decide (x = COLON \/ x = SLASH)) as [Hx|Hx]; [right; exists [], x, path; split; [done|]; by split; [constructor|]|].
    destruct IH as [H|(n & c & p & -> & Hn & Hc)]; [left; constructor; [tauto|done]|].
    right. exists (x :: n), c, p. split; [done|]. split; [constructor; [tauto|done]|done]. }
  - eexists. by apply parses_name.
  - destruct (decide (n = [])) as [->|Hne], Hc as [-> | ->]; eexists;
      [apply parses_cur|apply parses_boot|by apply parses_dev|by apply parses_rel].
Qed.

(** A path that names its device. *)
Lemma getdevice_device mem s w n p : n <> [] -> plain_name n ->
  getdevice mem s w (n ++ COLON :: p) = start_from mem s w (OnDevice n (skip_slashes p)).
Proof.
  intros H0 Hn. unfold getdevice. rewrite first_sep_app by auto. rewrite Z.eqb_refl. cbv iota beta.
  assert (0 < Z.of_nat (length n)) by (destruct n; [done|simpl; lia]).
  rewrite (proj2 (Z.ltb_ge _ _)), Z.gtb_ltb, (proj2 (Z.ltb_lt _ _)) by lia. simpl.
  rewrite Z.add_0_l, Nat2Z.id, take_app_length.
  replace (Z.to_nat (Z.of_nat (length n) + 1)) with (length (n ++ [COLON])) by (rewrite length_app; simpl; lia).
  replace (n ++ COLON :: p) with ((n ++ [COLON]) ++ p) by (by rewrite <- app_assoc). by rewrite drop_app_length.
Qed.

(** Path translation ([getdevice]).  Every path has one of the five forms, and
    for each form the lookup starts where the VFS documentation says: the current
    directory for a relative path, the root of the named device for
    [device:path], the boot filesystem for [/path], the root of the current
    filesystem for [:path]; slashes after the colon or the leading slash are
    skipped and the rest of the path is handed on unchanged. *)
Theorem getdevice_parses mem s w path : bootfs_lock s = false ->
  exists k, parses path k /\ getdevice mem s w path = start_from mem s w k.
Proof.
  intros Hlk. destruct (path_parses path) as [k Hk]. exists k. split; [done|].
  destruct Hk as [n Hn|n p H0 Hn|n p H0 Hn|p|p].
  - unfold getdevice. by rewrite first_sep_plain.
  - unfold getdevice. rewrite first_sep_app by auto. simpl. replace (0 + Z.of_nat (length n) =? 0) with false; [done|].
    destruct n; [done|]. by rewrite (proj2 (Z.eqb_neq _ _)) by (simpl; lia).
  - by apply getdevice_device.
  - unfold getdevice. simpl. unfold getdevice_root, acquire_boot, release_boot. simpl. rewrite Hlk. run. simpl. destruct (bootfs_vnode s) as [b|].
    + destruct (vop_incref w b) as [w1|]; [|done]. run. rewrite reboot by done. by rewrite drop_0.
    + run. by rewrite reboot.
  - unfold getdevice. simpl. unfold getdevice_root. simpl. run. destruct (vfs_getcurdir s w) as [[[s1 w1] [vn|e]]|]; [|done..].
    simpl. destruct (vn_fs w1 vn) as [fs|]; [|done]. destruct (fs_getroot mem w1 fs) as [[w2 v]|]; [|done]. run.
    by destruct (vop_decref w2 vn).
Qed.

Lemma strchr_in p c : c ∈ p -> exists q, strchr p c = Some q /\ q <> [].
Proof.
  induction p as [|x p IH]; intros H; [by apply not_elem_of_nil in H|]. simpl.
  destruct (Z.eqb_spec x c) as [->|Hne]; [by eexists|]. apply IH. apply elem_of_cons in H as [|]; [congruence|done].
Qed.

(** A name with a colon is refused, wherever the colon is. *)
Theorem setbootfs_refuses_colon mem s w fsname : COLON ∈ take 254 fsname ->
  vfs_setbootfs mem s w fsname = Done ((s, w), Err EINVAL).
Proof.
  intros H. unfold vfs_setbootfs. change (Z.to_nat (NAME_MAX - 1)) with 254%nat.
  destruct (strchr_in _ _ H) as (q & -> & Hq). destruct q as [|x q]; [done|].
  replace (strlen (x :: q) >? 0) with true; [done|]. unfold strlen. rewrite Z.gtb_ltb. symmetry. apply Z.ltb_lt. simpl. lia.
Qed.

End table.
End VfsTable.
