(* ===== verification/Device.v ===== *)
(** * Device vnodes ([kern/fs/vfs/device.c], [kern/fs/vfs/devnull.c])

    A device is made accessible by a vnode whose operations hand over to the
    functions of its [struct device].  The vnode is permanent: its first
    reference belongs to the device table and is never given back, so the count
    of the interface is one less than [vn_refcount]. *)

From Stdlib Require Import ZArith Lia Bool.
From stdpp Require Import base list numbers gmap.
From S2P Require Import Prelude.
From S2P Require Import Uio.
From S2P Require Import Lhd.
From S2P Require Import Vnode.
Import Copy Uio.

(** The rest of [struct device]. *)
Class Device (D : Type) := {
  d_open : D -> Z -> exec (D * ret unit);
  d_close : D -> exec (D * ret unit);
  d_ioctl : D -> Z -> Z -> exec (D * ret unit)
}.

Module Device.

Definition O_CREAT : Z := 4.
Definition O_EXCL : Z := 8.
Definition O_TRUNC : Z := 16.
Definition O_APPEND : Z := 32.
Definition S_IFCHR : Z := 16384.
Definition S_IFBLK : Z := 20480.

(** [struct vnode] of a device; [dn_data] is [vn_data]. *)
Record dvnode : Type := mk_dn { dn_refcount : Z; dn_opencount : Z; dn_data : option Z }.

Section device.
Context {D : Type} {B : BlockDev D} {DD : Device D}.

(** The devices, their vnodes, and the warnings printed about vnodes. *)
Record devs : Type := mk_devs { devices : gmap Z D; dvnodes : gmap Z dvnode; dwarnings : Z }.

Definition put_dev (w : devs) (p : Z) (d : D) : devs := mk_devs (<[p := d]> (devices w)) (dvnodes w) (dwarnings w).
Definition put_dn (w : devs) (v : Z) (n : dvnode) : devs := mk_devs (devices w) (<[v := n]> (dvnodes w)) (dwarnings w).

Definition get_dn (w : devs) (v : Z) : exec dvnode :=
  match dvnodes w !! v with Some n => Done n | None => Halt Undefined end.

(** [struct device *d = v->vn_data;] dereferenced. *)
Definition get_dev (w : devs) (v : Z) : exec (Z * D) :=
  n ← get_dn w v;
  match dn_data n with
  | None => Halt Undefined
  | Some p => match devices w !! p with Some d => Done (p, d) | None => Halt Undefined end
  end.

(** A call of a function of the device. *)
Definition dev_call (w : devs) (v : Z) (call : D -> exec (D * ret unit)) : exec (devs * ret unit) :=
  '(p, d) ← get_dev w v;
  '(d1, r) ← call d;
  Done (put_dev w p d1, r).

Definition dev_open (w : devs) (v : Z) (flags : Z) : exec (devs * ret unit) :=
  if negb (Z.land flags (Z.lor O_CREAT (Z.lor O_TRUNC (Z.lor O_EXCL O_APPEND))) =? 0) then Done (w, Err EINVAL)
  else dev_call w v (fun d => d_open d flags).

Definition dev_close (w : devs) (v : Z) : exec (devs * ret unit) := dev_call w v d_close.

Definition dev_reclaim : ret unit := Ok tt.

Definition dev_io (cas : option Z) (w : devs) (m : mach) (u : uio) (v : Z) : exec ((devs * mach * uio) * ret unit) :=
  '(p, d) ← get_dev w v;
  '((d1, m1, u1), r) ← d_io cas d m u;
  Done ((put_dev w p d1, m1, u1), r).

Definition dev_read (cas : option Z) (w : devs) (m : mach) (u : uio) (v : Z) :=
  assert! bool_decide (rw u = UIO_READ); dev_io cas w m u v.
Definition dev_write (cas : option Z) (w : devs) (m : mach) (u : uio) (v : Z) :=
  assert! bool_decide (rw u = UIO_WRITE); dev_io cas w m u v.

Definition null_io : ret unit := Err EINVAL.

Definition dev_ioctl (w : devs) (v op data : Z) : exec (devs * ret unit) := dev_call w v (fun d => d_ioctl d op data).

Definition dev_gettype (d : D) : Z := if d_blocks d >? 0 then S_IFBLK else S_IFCHR.

Record stat : Type := mk_stat { st_mode : Z; st_nlink : Z; st_size : Z; st_blocks : Z }.

Definition dev_stat (d : D) : stat :=
  mk_stat (dev_gettype d) 1
    (if d_blocks d >? 0 then s32 (u32 (d_blocks d * d_blocksize d)) else 0) (d_blocks d).

(** The remainder and the quotient are unsigned: [d_blocksize] is [u_int32_t]. *)
Definition dev_tryseek (d : D) (pos : Z) : exec (ret unit) :=
  if d_blocks d >? 0 then
    if d_blocksize d =? 0 then Halt Undefined
    else if negb (u32 pos mod d_blocksize d =? 0) then Done (Err EINVAL)
    else if pos <? 0 then Done (Err EINVAL)
    else if u32 pos / d_blocksize d >=? d_blocks d then Done (Err EINVAL)
    else Done (Ok tt)
  else Done (Err ESPIPE).

Definition null_fsync : ret unit := Ok tt.
Definition dev_mmap : ret unit := Err EUNIMP.

Definition dev_truncate (d : D) (len : Z) : ret unit :=
  if (d_blocks d >? 0) && (s32 (u32 (d_blocks d * d_blocksize d)) =? len) then Ok tt else Err EINVAL.

Definition dev_namefile : ret unit := Ok tt.

Definition null_creat : ret Z := Err ENOTDIR.
Definition null_symlink : ret unit := Err ENOTDIR.
Definition null_nameop : ret unit := Err ENOTDIR.
Definition null_link : ret unit := Err ENOTDIR.
Definition null_rename : ret unit := Err ENOTDIR.

(** ** The counters ([vnode.c]) *)

Definition vnode_incref (w : devs) (v : Z) : exec devs :=
  n ← get_dn w v;
  k ← int (dn_refcount n + 1);
  Done (put_dn w v (mk_dn k (dn_opencount n) (dn_data n))).

(** [dev_reclaim] does nothing and succeeds. *)
Definition vnode_decref (w : devs) (v : Z) : exec devs :=
  n ← get_dn w v;
  assert! dn_refcount n >? 0;
  if dn_refcount n >? 1 then Done (put_dn w v (mk_dn (dn_refcount n - 1) (dn_opencount n) (dn_data n)))
  else Done match dev_reclaim with
            | Ok _ | Err EBUSY => w
            | Err _ => mk_devs (devices w) (dvnodes w) (dwarnings w + 1)
            end.

Definition vnode_incopen (w : devs) (v : Z) : exec devs :=
  n ← get_dn w v;
  k ← int (dn_opencount n + 1);
  Done (put_dn w v (mk_dn (dn_refcount n) k (dn_data n))).

Definition vnode_decopen (w : devs) (v : Z) : exec devs :=
  n ← get_dn w v;
  assert! dn_opencount n >? 0;
  let opencount := dn_opencount n - 1 in
  let w1 := put_dn w v (mk_dn (dn_refcount n) opencount (dn_data n)) in
  if opencount >? 0 then Done w1
  else
    '(w2, r) ← dev_close w1 v;
    Done match r with Ok _ => w2 | Err _ => mk_devs (devices w2) (dvnodes w2) (dwarnings w2 + 1) end.

(** ** Names *)

Definition dev_lookup (w : devs) (dir : Z) (pathname : list Z) : exec (devs * ret Z) :=
  if Z.of_nat (length pathname) >? 0 then Done (w, Err ENOENT)
  else w1 ← vnode_incref w dir; Done (w1, Ok dir).

Definition dev_lookparent : ret (Z * list Z) := Err ENOTDIR.

(** [sizeof(struct vnode)] *)
Definition sizeof_vnode : Z := 24.

Definition create_vnode (mem : Z -> bool) (w : devs) (dev : option Z) : exec (devs * option Z) :=
  if negb (mem sizeof_vnode) then Done (w, None)
  else if negb (mem 8 && mem 16) then Halt Panic
  else
    let v := fresh ({[0]} ∪ dom (dvnodes w)) in
    Done (put_dn w v (mk_dn 1 0 dev), Some v).

(** [kfree(vnode)] *)
Definition free_vnode (w : devs) (v : Z) : exec devs :=
  _n ← get_dn w v; Done (mk_devs (devices w) (delete v (dvnodes w)) (dwarnings w)).

(** The operation is called through the vnode's table: the vnode must exist. *)
Definition at_vn {A} (w : devs) (v : Z) (r : ret A) : exec (devs * ret A) := _n ← get_dn w v; Done (w, r).

#[export] Instance dev_devices : Devices devs := {| dev_create_vnode := create_vnode; dev_free_vnode := free_vnode |}.

Definition dev_count (w : devs) (v : Z) : Z :=
  match dvnodes w !! v with Some n => dn_refcount n - 1 | None => 0 end.

(** The table [dev_vnode_ops]; a device vnode has no filesystem. *)
#[export] Instance dev_vn : Vnodes devs := {|
  vn_count := dev_count;
  vn_warnings := dwarnings;
  vn_fs w v := None;
  vn_ok w := True;
  vop_incref := vnode_incref;
  vop_decref := vnode_decref;
  vop_incopen := vnode_incopen;
  vop_decopen := vnode_decopen;
  vop_open := dev_open;
  vop_read := dev_read;
  vop_write := dev_write;
  vop_readlink _ w m u v := _n ← get_dn w v; Done ((w, m, u), null_io);
  vop_namefile _ w m u v := _n ← get_dn w v; Done ((w, m, u), dev_namefile);
  vop_gettype w v := '(_, d) ← get_dev w v; Done (Ok (dev_gettype d));
  vop_truncate w v len := '(_, d) ← get_dev w v; Done (w, dev_truncate d len);
  vop_creat _ w v _ _ := at_vn w v null_creat;
  vop_symlink w v _ _ := at_vn w v null_symlink;
  vop_mkdir w v _ := at_vn w v null_nameop;
  vop_link w v _ _ := at_vn w v null_link;
  vop_remove _ w v _ := at_vn w v null_nameop;
  vop_rmdir w v _ := at_vn w v null_nameop;
  vop_rename _ w v _ _ _ := at_vn w v null_rename;
  vop_lookup _ := dev_lookup;
  vop_lookparent _ w v _ _ := at_vn w v dev_lookparent;
  fs_sync w fs := Halt Undefined;
  fs_getvolname w fs := None;
  fs_getroot _ w fs := Halt Undefined;
  fs_unmount w fs := Halt Undefined
|}.

(** ** The laws of the interface *)

Lemma count_put w v n x : dev_count (put_dn w v n) x = if decide (x = v) then dn_refcount n - 1 else dev_count w x.
Proof.
  unfold dev_count, put_dn. simpl. case_decide; [subst; by rewrite lookup_insert_eq|by rewrite lookup_insert_ne].
Qed.

Lemma get_dn_post w v Q : (forall n, get_dn w v = Done n -> Q n) -> post (get_dn w v) Q.
Proof. intros H n E. by apply H. Qed.

Lemma get_dn_count w v n : get_dn w v = Done n -> dev_count w v = dn_refcount n - 1.
Proof. unfold get_dn, dev_count. destruct (dvnodes w !! v); [by intros [= ->]|done]. Qed.

(** Changing the reference count of a vnode by [k]. *)
Lemma put_dn_bal w v n n1 k : get_dn w v = Done n -> dn_refcount n1 = dn_refcount n + k ->
  bal w (fun x => k * one v x) (put_dn w v n1).
Proof.
  intros E Hr. pose proof (get_dn_count _ _ _ E) as Hc.
  split; simpl; [lia|intros x; rewrite count_put; unfold one..|done]; case_decide; subst; intros; lia.
Qed.
Lemma put_dn_none w v n n1 : get_dn w v = Done n -> dn_refcount n1 = dn_refcount n -> bal w none (put_dn w v n1).
Proof. intros E Hr. eapply bal_ext; [apply (put_dn_bal w v n n1 0 E); lia|]. intros x. unfold none. lia. Qed.

Lemma put_dev_bal w p d : bal w none (put_dev w p d).
Proof. split; simpl; unfold none; [lia|intros x; change (dev_count (put_dev w p d) x) with (dev_count w x); lia..|done]. Qed.

Lemma dev_call_bal w v call : post (dev_call w v call) (fun '(w', _) => bal w none w').
Proof. unfold dev_call. apply post_any. intros [p d]. apply post_any. intros [d1 r]. apply post_Done, put_dev_bal. Qed.

Lemma dev_io_bal cas w m u v : post (dev_io cas w m u v) (fun '((w', _, _), _) => bal w none w').
Proof. unfold dev_io. apply post_any. intros [p d]. apply post_any. intros [[[d1 m1] u1] r]. apply post_Done, put_dev_bal. Qed.

Lemma at_vn_bal {A} w v (r : ret A) : post (at_vn w v r) (fun '(w', _) => bal w none w').
Proof. unfold at_vn. apply post_any. intros n. apply post_Done, bal_none. Qed.

Lemma dev_incref_bal w v : post (vnode_incref w v) (bal w (one v)).
Proof.
  unfold vnode_incref. apply post_bind, get_dn_post. intros n E. apply post_bind. unfold int.
  case_match; [|apply post_Halt]. apply post_Done, post_Done.
  eapply bal_ext; [by apply (put_dn_bal _ _ _ _ 1 E)|]. intros x. cbn beta. lia.
Qed.

Lemma dev_decref_bal w v : 0 < dev_count w v -> post (vnode_decref w v) (bal w (fun x => - one v x)).
Proof.
  intros Hv. unfold vnode_decref. apply post_bind, get_dn_post. intros n E. rewrite (get_dn_count _ _ _ E) in Hv.
  apply post_assert. intros _. rewrite Z.gtb_ltb, (proj2 (Z.ltb_lt _ _)) by lia. apply post_Done.
  eapply bal_ext; [apply (put_dn_bal _ _ _ _ (-1) E); simpl; lia|]. intros x. cbn beta. lia.
Qed.

Lemma dev_decopen_bal w v : post (vnode_decopen w v) (bal w none).
Proof.
  unfold vnode_decopen. apply post_bind, get_dn_post. intros n E. apply post_assert. intros _. cbv zeta.
  assert (bal w none (put_dn w v (mk_dn (dn_refcount n) (dn_opencount n - 1) (dn_data n)))) as H by by apply (put_dn_none _ _ n).
  case_match; [by apply post_Done|]. apply post_bind. eapply post_mono; [apply dev_call_bal|].
  intros [w2 [u|e]] H2; apply post_Done; [bal_chain|].
  assert (bal w2 none (mk_devs (devices w2) (dvnodes w2) (dwarnings w2 + 1))) as H3.
  { split; simpl; unfold none; [lia|intros x..|done]; change (dev_count (mk_devs _ _ _) x) with (dev_count w2 x); lia. }
  bal_chain.
Qed.

#[export] Instance dev_vn_ok : VnodesOk devs.
Proof.
  split; simpl; intros; try apply at_vn_bal; try apply post_Halt.
  - apply dev_incref_bal.
  - by apply dev_decref_bal.
  - unfold vnode_incopen. apply post_bind, get_dn_post. intros n E. apply post_any. intros k.
    by apply post_Done, (put_dn_none _ _ n).
  - apply dev_decopen_bal.
  - unfold dev_open. case_match; [apply post_Done, bal_none|apply dev_call_bal].
  - apply post_assert. intros _. apply dev_io_bal.
  - apply post_assert. intros _. apply dev_io_bal.
  - apply post_any. intros n. apply post_Done, bal_none.
  - apply post_any. intros n. apply post_Done, bal_none.
  - apply post_any. intros [q d]. apply post_Done, bal_none.
  - apply post_any. intros n'. apply post_Done, bal_none.
  - unfold dev_lookup. case_match; [apply post_Done, bal_none|]. apply post_bind.
    eapply post_mono; [apply dev_incref_bal|]. intros w' H'. by apply post_Done.
  - apply post_any. intros n'. apply post_Done, bal_none.
Qed.

#[export] Instance dev_devices_ok : DevicesOk devs.
Proof.
  split; simpl.
  - intros mem w d. unfold create_vnode. case_match; [by apply post_Done; split; [apply bal_none|]|].
    case_match; [apply post_Halt|]. apply post_Done. set (v := fresh _).
    assert (dvnodes w !! v = None) as Hv.
    { apply not_elem_of_dom. pose proof (is_fresh ({[0]} ∪ dom (dvnodes w))). set_solver. }
    assert (forall x, dev_count (put_dn w v (mk_dn 1 0 d)) x = dev_count w x) as Hx.
    { intros x. rewrite count_put. case_decide; [|done]. subst. unfold dev_count. by rewrite Hv. }
    split.
    + split; simpl; unfold none; [lia|intros x; rewrite Hx; lia..|done].
    + intros ? [= <-]. rewrite Hx. unfold dev_count. by rewrite Hv.
  - by intros mem w d [w' o] _.
  - intros w v Hc. unfold free_vnode. apply post_any. intros n. apply post_Done.
    assert (forall x, dev_count (mk_devs (devices w) (delete v (dvnodes w)) (dwarnings w)) x = dev_count w x) as Hx.
    { intros x. destruct (decide (x = v)) as [->|Hne]; [rewrite Hc|]; unfold dev_count; simpl;
        [by rewrite lookup_delete_eq|by rewrite lookup_delete_ne]. }
    split; simpl; unfold none; [lia|intros x; rewrite Hx; lia..|done].
  - by intros w v w' _.
Qed.

End device.
Arguments devs D : clear implicits.
End Device.
