(* ===== verification/Console.v ===== *)
(** * The console ([kern/dev/generic/console.c]) on the serial port
      ([kern/dev/lamebus/lser.c], [kern/dev/lamebus/con_lser.c])

    [putch], [getch] and the operations of the device [con:], the driver of the
    serial port under them, and the two calls from its interrupt handler back into
    the console.

    The serial card is on the other side of the registers.  A character written to
    [LSER_REG_CHAR] is being sent until the card sets [LSER_IRQ_ACTIVE] in
    [LSER_REG_WIRQ]; a character that arrives is announced in [LSER_REG_RIRQ].  When
    the card acts is open: [act] interleaves it with the threads and the interrupt
    handler.  The operations of the device run for one thread: while it waits for
    the port the card finishes, and while it waits for input the next character of
    [typed] arrives. *)

From Stdlib Require Import ZArith Lia Bool.
From stdpp Require Import base list numbers relations.
From S2P Require Import Prelude.
From S2P Require Import Uio.
Import Copy Uio.

Module Console.

Definition DELAYBUFSIZE : Z := 1024.
Definition CR : Z := 13.
Definition LF : Z := 10.

(** Conversion to [char], which is signed, and back to the byte in memory. *)
Definition schar (z : Z) : Z := let b := z mod 256 in if b <? 128 then b else b - 256.
Definition byte_of (ch : Z) : Z := ch mod 256.

(** ** The serial port *)

(** [struct lser_softc] and the card's registers: [sending] until the card is done
    with the last character, [wirq] and [rirq] are the active bits, with the
    character that arrived; [sent] is every character the card was given. *)
Record lser : Type := mk_lser {
  ls_wbusy : bool;
  sending : bool;
  wirq : bool;
  rirq : option Z;
  sent : list Z
}.

Definition set_wbusy (p : lser) (b : bool) : lser := mk_lser b (sending p) (wirq p) (rirq p) (sent p).
(** Storing [LSER_IRQ_ENABLE] into an interrupt register clears the active bit. *)
Definition clear_wirq (p : lser) : lser := mk_lser (ls_wbusy p) (sending p) false (rirq p) (sent p).
Definition clear_rirq (p : lser) : lser := mk_lser (ls_wbusy p) (sending p) (wirq p) None (sent p).

(** A store to [LSER_REG_CHAR]; nothing is known of one that comes while the card is
    still sending. *)
Definition write_char (p : lser) (ch : Z) : exec lser :=
  if sending p then Halt Undefined
  else Done (mk_lser (ls_wbusy p) true (wirq p) (rirq p) (sent p ++ [ch])).

(** What the card does by itself. *)
Definition card_done (p : lser) : lser :=
  if sending p then mk_lser (ls_wbusy p) false true (rirq p) (sent p) else p.
Definition card_input (p : lser) (ch : Z) : lser :=
  mk_lser (ls_wbusy p) (sending p) (wirq p) (Some ch) (sent p).

Definition lser_write (p : lser) (ch : Z) : exec lser :=
  if ls_wbusy p then Halt Panic else write_char (set_wbusy p true) ch.

(** The loop ends when the card is done with what it sends, or never. *)
Definition lser_spin_until_write (p : lser) : exec lser :=
  if wirq p then Done p else if sending p then Done (card_done p) else Halt Blocked.

Definition lser_writepolled (p : lser) (ch : Z) : exec lser :=
  let irqpending := ls_wbusy p in
  p1 ← (if ls_wbusy p then p' ← lser_spin_until_write p; Done (clear_wirq p') else Done p);
  p2 ← write_char p1 ch;
  p3 ← lser_spin_until_write p2;
  Done (if negb irqpending then clear_wirq p3 else p3).

Definition config_lser (p : lser) : lser := clear_wirq (clear_rirq (set_wbusy p false)).

(** ** The console's state *)

(** [struct con_softc] and the globals of [console.c].  [attached]: [the_console],
    its semaphores and the two locks exist.  A lock is [true] while it is held.
    [polling]: the caller is in an interrupt handler or has interrupts off. *)
Record con : Type := mk_con {
  attached : bool;
  delayed : list Z;
  cs_rsem : Z;
  cs_wsem : Z;
  cs_gotchar : Z;
  con_userlock_read : bool;
  con_userlock_write : bool;
  polling : bool;
  ls : lser;
  typed : list Z
}.

Definition set_delayed (c : con) (l : list Z) : con :=
  mk_con (attached c) l (cs_rsem c) (cs_wsem c) (cs_gotchar c) (con_userlock_read c) (con_userlock_write c) (polling c) (ls c) (typed c).
Definition set_rsem (c : con) (n : Z) : con :=
  mk_con (attached c) (delayed c) n (cs_wsem c) (cs_gotchar c) (con_userlock_read c) (con_userlock_write c) (polling c) (ls c) (typed c).
Definition set_wsem (c : con) (n : Z) : con :=
  mk_con (attached c) (delayed c) (cs_rsem c) n (cs_gotchar c) (con_userlock_read c) (con_userlock_write c) (polling c) (ls c) (typed c).
Definition set_gotchar (c : con) (ch : Z) : con :=
  mk_con (attached c) (delayed c) (cs_rsem c) (cs_wsem c) ch (con_userlock_read c) (con_userlock_write c) (polling c) (ls c) (typed c).
Definition set_rlock (c : con) (b : bool) : con :=
  mk_con (attached c) (delayed c) (cs_rsem c) (cs_wsem c) (cs_gotchar c) b (con_userlock_write c) (polling c) (ls c) (typed c).
Definition set_wlock (c : con) (b : bool) : con :=
  mk_con (attached c) (delayed c) (cs_rsem c) (cs_wsem c) (cs_gotchar c) (con_userlock_read c) b (polling c) (ls c) (typed c).
Definition set_ls (c : con) (p : lser) : con :=
  mk_con (attached c) (delayed c) (cs_rsem c) (cs_wsem c) (cs_gotchar c) (con_userlock_read c) (con_userlock_write c) (polling c) p (typed c).
Definition set_typed (c : con) (l : list Z) : con :=
  mk_con (attached c) (delayed c) (cs_rsem c) (cs_wsem c) (cs_gotchar c) (con_userlock_read c) (con_userlock_write c) (polling c) (ls c) l.

(** [V] on a count; nobody else sleeps on it here. *)
Definition sem_V (n : Z) : exec Z := k ← int (n + 1); assert! k >? 0; Done k.

Definition con_input (c : con) (ch : Z) : exec con :=
  assert! attached c;
  k ← sem_V (cs_rsem c); Done (set_rsem (set_gotchar c ch) k).

Definition con_start (c : con) : exec con :=
  assert! attached c;
  k ← sem_V (cs_wsem c); Done (set_wsem c k).

(** The handler, with [ls_start] and [ls_input] set by [attach_con_to_lser]. *)
Definition lser_irq (c : con) : exec con :=
  let p := ls c in
  let clear_to_write := wirq p in
  let p1 := if wirq p then clear_wirq (set_wbusy p false) else p in
  let p2 := match rirq p1 with Some _ => clear_rirq p1 | None => p1 end in
  let c1 := set_ls c p2 in
  c2 ← (if clear_to_write then con_start c1 else Done c1);
  match rirq p1 with Some ch => con_input c2 (s32 ch) | None => Done c2 end.

(** ** Characters *)

Definition putch_delayed (c : con) (ch : Z) : exec con :=
  assert! Z.of_nat (length (delayed c)) <? DELAYBUFSIZE;
  Done (set_delayed c (delayed c ++ [schar ch])).

Definition putch_polled (c : con) (ch : Z) : exec con :=
  p ← lser_writepolled (ls c) ch; Done (set_ls c p).

(** [P(cs->cs_wsem)]: the sleep ends with the interrupt for the character being sent. *)
Definition wait_write (c : con) : exec con :=
  c1 ← (if cs_wsem c =? 0 then lser_irq (set_ls c (card_done (ls c))) else Done c);
  if cs_wsem c1 >? 0 then Done (set_wsem c1 (cs_wsem c1 - 1)) else Halt Blocked.

(** [P(cs->cs_rsem)]: the sleep ends with the interrupt for the next character typed. *)
Definition wait_read (c : con) : exec con :=
  c1 ← (if cs_rsem c =? 0 then
          match typed c with
          | [] => Halt Blocked
          | ch :: l => lser_irq (set_ls (set_typed c l) (card_input (ls c) ch))
          end
        else Done c);
  if cs_rsem c1 >? 0 then Done (set_rsem c1 (cs_rsem c1 - 1)) else Halt Blocked.

Definition putch_intr (c : con) (ch : Z) : exec con :=
  c1 ← wait_write c;
  p ← lser_write (ls c1) ch;
  Done (set_ls c1 p).

Definition getch_intr (c : con) : exec (con * Z) := c1 ← wait_read c; Done (c1, cs_gotchar c1).

Definition putch (c : con) (ch : Z) : exec con :=
  if negb (attached c) then putch_delayed c ch
  else if polling c then putch_polled c ch
  else putch_intr c ch.

Definition getch (c : con) : exec (con * Z) :=
  assert! attached c;
  assert! negb (polling c);
  getch_intr c.

(** ** The device *)

Definition con_open : ret unit := Ok tt.
Definition con_close : ret unit := Ok tt.
Definition con_ioctl : ret unit := Err EINVAL.

(** The loop of [con_io]; the byte under [ch] is not initialized, and a write stores
    into it before it is read. *)
Fixpoint con_io_loop (fuel : nat) (cas : option Z) (c : con) (m : mach) (u : uio)
  : exec ((con * mach * uio) * ret unit) :=
  if uio_resid u >? 0 then
    match fuel with
    | O => Halt Fuel
    | S f =>
        match rw u with
        | UIO_READ =>
            '(c1, k) ← getch c;
            let ch := schar k in
            let ch := if ch =? CR then LF else ch in
            '((m1, _, u1), r) ← uiomove cas m [byte_of ch] 0 1 u;
            match r with
            | Err e => Done ((c1, m1, u1), Err e)
            | Ok _ => if ch =? LF then Done ((c1, m1, u1), Ok tt) else con_io_loop f cas c1 m1 u1
            end
        | UIO_WRITE =>
            '((m1, b, u1), r) ← uiomove cas m [0] 0 1 u;
            match r with
            | Err e => Done ((c, m1, u1), Err e)
            | Ok _ =>
                x ← rd b 0;
                let ch := schar x in
                c1 ← (if ch =? LF then putch c CR else Done c);
                c2 ← putch c1 ch;
                con_io_loop f cas c2 m1 u1
            end
        end
    end
  else Done ((c, m, u), Ok tt).

(** Each round moves a byte, so [uio_resid] rounds are enough.  A lock that is held
    belongs to another thread. *)
Definition con_io (cas : option Z) (c : con) (m : mach) (u : uio) : exec ((con * mach * uio) * ret unit) :=
  assert! attached c;
  match rw u with
  | UIO_READ =>
      if con_userlock_read c then Halt Blocked
      else
        '((c1, m1, u1), r) ← con_io_loop (Z.to_nat (uio_resid u)) cas (set_rlock c true) m u;
        Done ((set_rlock c1 false, m1, u1), r)
  | UIO_WRITE =>
      if con_userlock_write c then Halt Blocked
      else
        '((c1, m1, u1), r) ← con_io_loop (Z.to_nat (uio_resid u)) cas (set_wlock c true) m u;
        Done ((set_wlock c1 false, m1, u1), r)
  end.

(** ** Configuration *)

(** The characters collected before there was a console are printed. *)
Fixpoint flush_loop (l : list Z) (c : con) : exec con :=
  match l with [] => Done c | ch :: l' => c1 ← putch c ch; flush_loop l' c1 end.
Definition flush_delay_buf (c : con) : exec con := c1 ← flush_loop (delayed c) c; Done (set_delayed c1 []).

(** [config_con] up to the registration with the VFS layer.  A semaphore and a lock
    take 8 bytes and a copy of the name. *)
Definition config_con (mem : Z -> bool) (c : con) (unitno : Z) : exec (con * ret unit) :=
  if unitno >? 0 then assert! attached c; Done (c, Err ENODEV)
  else
    assert! negb (attached c);
    if negb (mem 8 && mem 13) then Done (c, Err ENOMEM)
    else if negb (mem 8 && mem 14) then Done (c, Err ENOMEM)
    else if negb (mem 8 && mem 18) then Done (c, Err ENOMEM)
    else if negb (mem 8 && mem 19) then Done (c, Err ENOMEM)
    else
      c1 ← flush_delay_buf (mk_con true (delayed c) 0 1 0 false false (polling c) (ls c) (typed c));
      Done (c1, Ok tt).

(** ** Threads, card and interrupts *)

(** What can happen next, [n] being the threads between their [P(cs->cs_wsem)] and
    their [cs_send]: a thread passes a semaphore, sends, or prints by polling; the
    card finishes or receives a character; the handler runs. *)
Inductive action : Type :=
  | TakeW | Send (ch : Z) | Polled (ch : Z) | CardDone | CardInput (ch : Z) | Irq | TakeR.

Definition is_some {A} (o : option A) : bool := match o with Some _ => true | None => false end.

Definition enabled (a : action) (s : con * Z) : bool :=
  let '(c, n) := s in
  match a with
  | TakeW => cs_wsem c >? 0
  | Send _ => n >? 0
  | CardDone => sending (ls c)
  | Irq => wirq (ls c) || is_some (rirq (ls c))
  | TakeR => cs_rsem c >? 0
  | Polled _ | CardInput _ => true
  end.

Definition act (a : action) (s : con * Z) : exec (con * Z) :=
  let '(c, n) := s in
  match a with
  | TakeW => Done (set_wsem c (cs_wsem c - 1), n + 1)
  | Send ch => p ← lser_write (ls c) ch; Done (set_ls c p, n - 1)
  | Polled ch => c1 ← putch_polled c ch; Done (c1, n)
  | CardDone => Done (set_ls c (card_done (ls c)), n)
  | CardInput ch => Done (set_ls c (card_input (ls c) ch), n)
  | Irq => c1 ← lser_irq c; Done (c1, n)
  | TakeR => Done (set_rsem c (cs_rsem c - 1), n)
  end.

Inductive step : con * Z -> con * Z -> Prop :=
  | step_act a s s' : enabled a s = true -> act a s = Done s' -> step s s'.

(** The right to send is in one place: on the semaphore, with a thread that passed
    it, or with the card until its interrupt has been handled. *)
Record wired (c : con) (n : Z) : Prop := {
  wi_attached : attached c = true;
  wi_one : cs_wsem c + n + Z.b2z (ls_wbusy (ls c)) = 1;
  wi_wsem : 0 <= cs_wsem c;
  wi_n : 0 <= n;
  wi_rsem : 0 <= cs_rsem c <= INT_MAX;
  wi_busy : ls_wbusy (ls c) = xorb (sending (ls c)) (wirq (ls c));
  wi_both : sending (ls c) && wirq (ls c) = false
}.

Lemma sem_V_Done n : 0 <= n < INT_MAX -> sem_V n = Done (n + 1).
Proof.
  intros H. unfold sem_V, int, INT_MIN, INT_MAX in *. repeat case_bool; try lia. simpl.
  unfold assert. by rewrite (proj2 (Z.gtb_lt (n + 1) 0)) by lia.
Qed.

(** Printing by polling works in every state, leaves the port's owner alone, and an
    interrupt that was due is still due. *)
Lemma lser_writepolled_ok p ch : ls_wbusy p = xorb (sending p) (wirq p) -> sending p && wirq p = false ->
  lser_writepolled p ch = Done (mk_lser (ls_wbusy p) false (ls_wbusy p) (rirq p) (sent p ++ [ch])).
Proof. destruct p as [[] [] [] ? ?]; simpl; done. Qed.

(** The handler, with the count of characters below its limit if there is one. *)
Lemma lser_irq_ok c n : wired c n -> rirq (ls c) = None \/ cs_rsem c < INT_MAX ->
  lser_irq c = Done (mk_con (attached c) (delayed c) (cs_rsem c + Z.b2z (is_some (rirq (ls c))))
    (cs_wsem c + Z.b2z (wirq (ls c))) (match rirq (ls c) with Some ch => s32 ch | None => cs_gotchar c end)
    (con_userlock_read c) (con_userlock_write c) (polling c)
    (mk_lser (ls_wbusy (ls c) && negb (wirq (ls c))) (sending (ls c)) false None (sent (ls c))) (typed c)).
Proof.
  intros [Ha H1 H2 H3 H4 H5 H6] Hr. unfold lser_irq, con_start, con_input.
  destruct c as [at_ de rs ws go lr lw po [b sd wi ri se] ty]. simpl in *. subst at_ b.
  destruct sd, wi; try done; simpl in *; try (rewrite (sem_V_Done ws) by (unfold INT_MAX in *; lia); simpl);
    (destruct ri; simpl; [destruct Hr; [done|]; rewrite sem_V_Done by lia|]); simpl;
    unfold set_wsem, set_ls, set_rsem, set_gotchar; simpl; repeat f_equal; lia.
Qed.

Lemma lser_irq_full c n : wired c n -> rirq (ls c) <> None -> cs_rsem c = INT_MAX -> lser_irq c = Halt Undefined.
Proof.
  intros [Ha H1 H2 H3 H4 H5 H6] Hr Er. unfold lser_irq, con_start, con_input.
  destruct c as [at_ de rs ws go lr lw po [b sd wi [ri|] se] ty]; simpl in *; [|done]. subst at_ b rs.
  destruct wi; simpl; [|done]. rewrite sem_V_Done by (unfold INT_MAX in *; destruct sd; simpl in *; lia). done.
Qed.

(** Every action keeps the invariant and succeeds, up to the overflow of [cs_rsem]
    when nobody reads. *)
Lemma act_ok a c n : wired c n -> enabled a (c, n) = true ->
  match act a (c, n) with
  | Done (c', n') => wired c' n'
  | Halt f => cs_rsem c = INT_MAX
  end.
Proof.
  intros H He. pose proof H as [Ha H1 H2 H3 H4 H5 H6]. destruct a as [|ch|ch| |ch| |]; simpl in He |- *.
  - apply Z.gtb_lt in He. split; simpl; try done; lia.
  - apply Z.gtb_lt in He. unfold lser_write, write_char.
    destruct (ls_wbusy (ls c)); simpl in H1; [lia|]. simpl.
    destruct (sending (ls c)), (wirq (ls c)); try done. split; simpl; try done; lia.
  - unfold putch_polled. rewrite lser_writepolled_ok by done. simpl. split; simpl; try done.
  - unfold card_done. rewrite He. rewrite He in H5, H6. simpl in *. rewrite H6 in H5. split; simpl; try done.
  - split; simpl; done.
  - destruct (decide (rirq (ls c) = None \/ cs_rsem c < INT_MAX)) as [Hr|Hr].
    2: { assert (cs_rsem c = INT_MAX) as Er by lia. rewrite (lser_irq_full c n) by (done || tauto). exact Er. }
    rewrite (lser_irq_ok c n) by done. simpl.
    assert (is_some (rirq (ls c)) = false \/ cs_rsem c < INT_MAX) by (destruct Hr as [->|]; auto).
    split; simpl; try done; destruct (rirq (ls c)), (wirq (ls c)), (sending (ls c)), (ls_wbusy (ls c)); simpl in *; try done; lia.
  - apply Z.gtb_lt in He. split; simpl; try done; lia.
Qed.

(** ** Printing *)

(** From [c] to [c'] the port was given [l] to send; the rest is as it was. *)
Record printed (c : con) (l : list Z) (c' : con) : Prop := {
  pr_sent : sent (ls c') = sent (ls c) ++ l;
  pr_rirq : rirq (ls c') = rirq (ls c);
  pr_rest : c' = mk_con (attached c) (delayed c) (cs_rsem c) (cs_wsem c') (cs_gotchar c) (con_userlock_read c)
    (con_userlock_write c) (polling c) (ls c') (typed c)
}.

Lemma printed_nil c : printed c [] c.
Proof. split; [by rewrite app_nil_r|done|by destruct c]. Qed.
Lemma printed_app c l c1 l' c2 : printed c l c1 -> printed c1 l' c2 -> printed c (l ++ l') c2.
Proof.
  intros [S1 R1 E1] [S2 R2 E2]. split; [by rewrite S2, S1, app_assoc|congruence|]. rewrite E2. rewrite E1. by rewrite E1 in E2.
Qed.

(** A configured console on which nothing waits to be handled. *)
Definition quiet (c : con) : Prop := wired c 0 /\ rirq (ls c) = None.

Lemma wait_write_ok c : quiet c -> exists c', wait_write c = Done c' /\ wired c' 1 /\ printed c [] c'.
Proof.
  intros [H Hr]. unfold wait_write. pose proof H as [Ha H1 H2 H3 H4 H5 H6].
  destruct (Z.eqb_spec (cs_wsem c) 0) as [Ez|Ez].
  - assert (wired (set_ls c (card_done (ls c))) 0) as Hd.
    { unfold card_done. destruct (sending (ls c)) eqn:Es; [|by destruct c].
      split; simpl; try done. rewrite H5. simpl in *. by destruct (wirq (ls c)). }
    rewrite (lser_irq_ok _ 0) by (done || left; unfold card_done; simpl; by destruct (sending (ls c))). simpl.
    assert (wirq (card_done (ls c)) = true) as ->.
    { unfold card_done. destruct (ls_wbusy (ls c)); [|simpl in H1; lia]. by destruct (sending (ls c)), (wirq (ls c)). }
    rewrite Ez. simpl. eexists. split; [done|].
    assert (rirq (card_done (ls c)) = None /\ sent (card_done (ls c)) = sent (ls c) /\ sending (card_done (ls c)) = false) as (-> & -> & ->).
    { unfold card_done. destruct (sending (ls c)) eqn:Es; done. }
    simpl. rewrite Z.add_0_r. split; [split; simpl; try done; by rewrite andb_false_r|].
    split; simpl; [by rewrite app_nil_r|done|done].
  - simpl. destruct (Z.gtb_spec (cs_wsem c) 0); [|lia]. eexists. split; [done|]. split; [split; simpl; try done; lia|].
    split; simpl; [by rewrite app_nil_r|done|done].
Qed.

Lemma putch_ok c ch : quiet c -> exists c', putch c ch = Done c' /\ quiet c' /\ printed c [ch] c'.
Proof.
  intros [H Hr]. unfold putch. rewrite (wi_attached _ _ H). simpl. destruct (polling c).
  - unfold putch_polled. pose proof H as [Ha H1 H2 H3 H4 H5 H6]. rewrite lser_writepolled_ok by done. simpl.
    eexists. split; [done|]. split; [split; [split|]; simpl; done|]. by split.
  - destruct (wait_write_ok c) as (c1 & E & Hw & [S1 R1 E1]); [by split|]. unfold putch_intr. rewrite E. simpl.
    pose proof Hw as [Ha H1 H2 H3 H4 H5 H6]. unfold lser_write, write_char.
    destruct (ls_wbusy (ls c1)); simpl in H1; [lia|]. simpl. destruct (sending (ls c1)), (wirq (ls c1)) eqn:Ew; try done. simpl.
    eexists. split; [done|]. split; [split; [split; simpl; try done; lia|simpl; congruence]|].
    split; simpl; [by rewrite S1, app_nil_r|done|]. rewrite E1. done.
Qed.

(** A newline goes out as carriage return and line feed. *)
Definition cooked (ch : Z) : list Z := if ch =? LF then [CR; LF] else [ch].
Definition cook (l : list Z) : list Z := l ≫= cooked.

Lemma cooked_ok c ch : quiet c ->
  exists c', (c1 ← (if ch =? LF then putch c CR else Done c); putch c1 ch) = Done c' /\ quiet c' /\ printed c (cooked ch) c'.
Proof.
  intros H. unfold cooked. destruct (Z.eqb_spec ch LF) as [->|].
  - destruct (putch_ok c CR H) as (c1 & -> & H1 & P1). simpl. destruct (putch_ok c1 LF H1) as (c2 & -> & H2 & P2).
    exists c2. split; [done|]. split; [done|]. exact (printed_app _ _ _ _ _ P1 P2).
  - by apply putch_ok.
Qed.

Lemma con_write_loop cas fuel : forall c m u n, quiet c -> rw u = UIO_WRITE -> ready cas m u n -> uio_resid u = n ->
  (Z.to_nat n <= fuel)%nat ->
  exists c', con_io_loop fuel cas c m u = Done ((c', m, advance u n), Ok tt) /\ quiet c' /\
    printed c (cook (schar <$> get_region m u n)) c'.
Proof.
  induction fuel as [|fuel IH]; intros c m u n Hc Hrw Hr Hn Hf; simpl; rewrite Z.gtb_ltb; destruct (Z.ltb_spec 0 (uio_resid u)).
  1: lia.
  1,3: assert (n = 0) as -> by (destruct Hr; lia); exists c; rewrite (advance_0 cas m u 0 Hr);
    assert (get_region m u 0 = []) as -> by (apply nil_length_inv; by rewrite length_get_region);
    split; [done|split; [done|apply printed_nil]].
  rewrite Hrw. destruct (uiomove_ok cas m [0] 0 1 u) as (m1 & -> & Hm1); [eapply ready_less; [done|lia]|done..|].
  rewrite Hrw in Hm1 |- *. subst m1. simpl.
  assert (ready cas m u (1 + (n - 1))) as Hr1 by (by replace (1 + (n - 1)) with n by lia).
  assert (ready cas m u 1) as Hr0 by (eapply ready_less; [done|lia]).
  assert (exists x, get_region m u 1 = [x]) as [x Hx].
  { pose proof (length_get_region m u 1) as L. destruct (get_region m u 1) as [|x [|]]; try done. by exists x. }
  rewrite Hx. unfold splice. simpl.
  destruct (cooked_ok c (schar x) Hc) as (c1 & E & H1 & P1). apply bind_Done in E as (c0 & -> & E). simpl. rewrite E. simpl.
  destruct (IH c1 m (advance u 1) (n - 1)) as (c2 & -> & H2 & P2).
  - done.
  - by rewrite (advance_fields cas m u 1 Hr0).
  - eapply ready_rest; [exact Hr1|lia|lia|apply moved_nil].
  - rewrite (advance_fields cas m u 1 Hr0). simpl. lia.
  - lia.
  - exists c2. split; [|split; [done|]].
    + rewrite (advance_add cas m) by (done || lia). by replace (1 + (n - 1)) with n by lia.
    + replace n with (1 + (n - 1)) at 1 by lia. rewrite (get_region_app cas) by (done || lia).
      rewrite Hx. exact (printed_app _ _ _ _ _ P1 P2).
Qed.

Lemma flush_ok l : forall c, quiet c -> exists c', flush_loop l c = Done c' /\ quiet c' /\ printed c l c'.
Proof.
  induction l as [|ch l IH]; intros c H; simpl; [exists c; split; [done|]; split; [done|apply printed_nil]|].
  destruct (putch_ok c ch H) as (c1 & -> & H1 & P1). simpl. destruct (IH c1 H1) as (c2 & -> & H2 & P2).
  exists c2. split; [done|]. split; [done|]. exact (printed_app _ _ _ _ _ P1 P2).
Qed.

(** A port just configured, with an idle card. *)
Definition idle_port (p : lser) : Prop := exists q, p = config_lser q /\ sending q = false.

(** Configuration prints what was held back. *)
Lemma config_con_ok mem c c0 : idle_port (ls c) -> config_con mem c 0 = Done (c0, Ok tt) ->
  quiet c0 /\ sent (ls c0) = sent (ls c) ++ delayed c /\ delayed c0 = [] /\ con_userlock_write c0 = false.
Proof.
  intros (q & Eq & Hs) E. unfold config_con in E. simpl in E. apply assert_Done in E as [_ E].
  do 4 (case_match; [done|]). apply bind_Done in E as (c1 & E & [= ->]). unfold flush_delay_buf in E. simpl in E.
  set (c2 := mk_con _ _ _ _ _ _ _ _ _ _) in E.
  assert (quiet c2) as Hq.
  { unfold c2. rewrite Eq. split; [|done]. split; simpl; try done; rewrite Hs; done. }
  destruct (flush_ok (delayed c) c2 Hq) as (c3 & E3 & [H3 R3] & [S3 _ P3]). rewrite E3 in E. injection E as <-.
  split; [split; [|done]; by destruct H3|]. split; [done|]. split; [done|]. simpl. by rewrite P3.
Qed.

Lemma wired_reach c0 s : wired c0 0 -> rtc step (c0, 0) s -> wired (fst s) (snd s).
Proof.
  intros H0 Hs. change (wired (fst (c0, 0)) (snd (c0, 0))) in H0. revert H0. generalize (c0, 0) Hs. clear.
  intros s0 Hs. induction Hs as [|s0 s1 s2 Hst _ IH]; [done|]. intros H. apply IH. destruct Hst as [a [c n] [c' n'] He E].
  pose proof (act_ok a c n H He) as Ho. by rewrite E in Ho.
Qed.

(** C22. The console and the serial driver under it work together in every
    interleaving of threads that print, printing by polling from interrupt
    handlers, input, the card and its interrupts, from the moment the console is
    configured on.  No step fails: in particular [lser_write] is never called while
    a character is under way, where it would panic, no character is stored into a
    busy card, polling never spins for ever, and no assertion in [V] fails, as long
    as fewer than [INT_MAX] characters wait to be read.  And a thread that finds
    [cs_wsem] at zero while no other is about to send waits for an interrupt that
    comes: the card is still sending or its interrupt is pending. *)
Theorem console_safe mem c c0 s a : idle_port (ls c) -> config_con mem c 0 = Done (c0, Ok tt) -> rtc step (c0, 0) s ->
  (enabled a s = true -> cs_rsem (fst s) < INT_MAX -> exists s', act a s = Done s') /\
  (cs_wsem (fst s) = 0 -> snd s = 0 -> enabled CardDone s || enabled Irq s = true).
Proof.
  intros Hp E Hs. destruct (config_con_ok mem c c0 Hp E) as ([Hw _] & _). apply (wired_reach c0 s Hw) in Hs.
  destruct s as [c1 n]. cbn [fst snd] in Hs |- *. split.
  - intros He Hr. pose proof (act_ok a c1 n Hs He) as Ho. destruct (act a (c1, n)) as [s'|]; [by exists s'|]. lia.
  - intros E1 E2. destruct Hs as [_ H1 _ _ _ H5 _]. destruct (ls_wbusy (ls c1)); simpl in H1; [|lia].
    simpl. by destruct (sending (ls c1)), (wirq (ls c1)).
Qed.

(** ** The device *)

Lemma con_write_ok cas c m u n : quiet c -> con_userlock_write c = false -> rw u = UIO_WRITE ->
  ready cas m u n -> uio_resid u = n ->
  exists c', con_io cas c m u = Done ((c', m, advance u n), Ok tt) /\ quiet c' /\
    printed c (cook (schar <$> get_region m u n)) c'.
Proof.
  intros [Hw Hri] Hl Hrw Hr Hn. unfold con_io. rewrite (wi_attached _ _ Hw), Hrw, Hl. cbn [assert].
  destruct (con_write_loop cas (Z.to_nat (uio_resid u)) (set_wlock c true) m u n) as (c1 & -> & [H1 R1] & [S1 _ E1]);
    [split; [by destruct Hw|done]|done|done|done|by rewrite Hn|].
  simpl. eexists. split; [done|]. split; [split; [by destruct H1|done]|].
  split; [done|simpl; congruence|]. rewrite E1. simpl. by rewrite Hl.
Qed.

(** Writing to [con:].  On a configured console with no input pending, a write
    of the [n] bytes of a region that can be read succeeds and consumes them all,
    memory untouched; the port is given exactly these characters in order, each
    newline as carriage return and line feed, the user lock is free again and the
    console is ready for the next write. *)
Theorem con_write_correct cas c m u n : quiet c -> con_userlock_write c = false -> rw u = UIO_WRITE ->
  ready cas m u n -> uio_resid u = n ->
  exists c', con_io cas c m u = Done ((c', m, advance u n), Ok tt) /\ quiet c' /\
    printed c (cook (schar <$> get_region m u n)) c'.
Proof. apply con_write_ok. Qed.

(** The line a reader of at most [n] characters gets from what is typed: it ends
    after a newline, which may be typed as a carriage return. *)
Definition newline (ch : Z) : Z := if ch =? CR then LF else ch.
Fixpoint line (n : nat) (l : list Z) : option (list Z * list Z) :=
  match n with
  | O => Some ([], l)
  | S n' =>
      match l with
      | [] => None
      | k :: l' =>
          let ch := newline (schar k) in
          if ch =? LF then Some ([ch], l')
          else match line n' l' with Some (x, r) => Some (ch :: x, r) | None => None end
      end
  end.

Lemma schar_s32 k : schar (s32 k) = schar k.
Proof.
  unfold schar. assert (s32 k mod 256 = k mod 256) as ->; [|done]. unfold s32, u32. case_bool.
  - rewrite <- Znumtheory.Zmod_div_mod; [done|lia|lia|]. by exists (2 ^ 24).
  - replace (2 ^ 32) with (2 ^ 24 * 256) by done. rewrite Zminus_mod, Z_mod_mult, Z.sub_0_r, Zmod_mod.
    rewrite <- Znumtheory.Zmod_div_mod; [done|lia|lia|]. by exists (2 ^ 24).
Qed.

(** No input at hand, and the caller may sleep. *)
Definition awaiting (c : con) : Prop := quiet c /\ cs_rsem c = 0 /\ polling c = false.

(** What a read leaves: [l] still to be typed, nothing printed. *)
Record received (c : con) (l : list Z) (c' : con) : Prop := {
  rc_typed : typed c' = l;
  rc_sent : sent (ls c') = sent (ls c);
  rc_locks : con_userlock_read c' = con_userlock_read c /\ con_userlock_write c' = con_userlock_write c;
  rc_delayed : delayed c' = delayed c
}.

Lemma getch_ok c k l : awaiting c -> typed c = k :: l ->
  exists c', getch c = Done (c', s32 k) /\ awaiting c' /\ received c l c'.
Proof.
  intros ([H Hr] & Hz & Hp) Ht. unfold getch, getch_intr, wait_read. rewrite (wi_attached _ _ H), Hp, Hz, Ht. simpl.
  assert (wired (set_ls (set_typed c l) (card_input (ls c) k)) 0) as Hw by by destruct H.
  rewrite (lser_irq_ok _ 0) by (done || right; simpl; rewrite Hz; done). simpl. rewrite Hz. simpl.
  eexists. split; [done|]. pose proof H as [Ha H1 H2 H3 H4 H5 H6]. split; [|by split].
  split; [|done]. split; [|done]. split; simpl; try done.
  all: destruct (ls_wbusy (ls c)), (wirq (ls c)), (sending (ls c)); simpl in *; try done; lia.
Qed.

Lemma received_trans c l c1 l' c2 : received c l c1 -> received c1 l' c2 -> received c l' c2.
Proof. intros [? ? [? ?] ?] [? ? [? ?] ?]. split; [done|congruence|split; congruence|congruence]. Qed.

Lemma line_length n l x r : line n l = Some (x, r) -> (length x <= n)%nat.
Proof.
  revert l x r. induction n as [|n IH]; intros l x r; simpl; [by intros [= <- <-]|].
  destruct l as [|k l]; [done|]. case_match; [intros [= <- <-]; simpl; lia|].
  destruct (line n l) as [[x' r']|] eqn:E; [|done]. intros [= <- <-]. apply IH in E. simpl. lia.
Qed.

(** One character into the region. *)
Lemma uiomove_char cas m u ch n : ready cas m u n -> 0 < n -> rw u = UIO_READ ->
  exists m1, uiomove cas m [byte_of ch] 0 1 u = Done ((m1, [byte_of ch], advance u 1), Ok tt) /\
    moved m u [byte_of ch] m1 /\ ready cas m1 (advance u 1) (n - 1) /\ uio_segflg (advance u 1) = uio_segflg u /\
    iov_base (advance u 1) = iov_base u + 1 /\ uio_resid (advance u 1) = uio_resid u - 1 /\ rw (advance u 1) = UIO_READ.
Proof.
  intros Hr Hn Hrw. assert (ready cas m u 1) as Hr0 by (eapply ready_less; [done|lia]).
  assert (ready cas m u (1 + (n - 1))) as Hr1 by (by replace (1 + (n - 1)) with n by lia).
  destruct (uiomove_ok cas m [byte_of ch] 0 1 u Hr0) as (m1 & E & Hm); [done..|]. rewrite Hrw in E, Hm.
  exists m1. split; [done|]. split; [done|]. split; [eapply ready_rest; [exact Hr1|lia|lia|exact Hm]|].
  rewrite (advance_fields cas m u 1 Hr0). done.
Qed.

Lemma con_read_loop cas fuel : forall c m u n x r, awaiting c -> rw u = UIO_READ -> ready cas m u n -> uio_resid u = n ->
  (Z.to_nat n <= fuel)%nat -> line (Z.to_nat n) (typed c) = Some (x, r) ->
  exists c' m', con_io_loop fuel cas c m u = Done ((c', m', advance u (Z.of_nat (length x))), Ok tt) /\
    moved m u (byte_of <$> x) m' /\ awaiting c' /\ received c r c'.
Proof.
  induction fuel as [|fuel IH]; intros c m u n x r Hc Hrw Hr Hn Hf Hl; simpl; rewrite Z.gtb_ltb; destruct (Z.ltb_spec 0 (uio_resid u)).
  1: lia.
  1,3: assert (n = 0) as -> by (destruct Hr; lia); injection Hl as <- <-; exists c, m;
    split; [by rewrite (advance_0 cas m u 0 Hr : advance u (Z.of_nat (length [])) = u)|]; split; [apply moved_nil|]; split; [done|by split].
  rewrite Hrw. replace (Z.to_nat n) with (S (Z.to_nat (n - 1))) in Hl by lia. simpl in Hl.
  destruct (typed c) as [|k l] eqn:Et; [done|]. destruct (getch_ok c k l Hc Et) as (c1 & -> & H1 & R1). simpl.
  rewrite schar_s32. fold (newline (schar k)). set (ch := newline (schar k)) in *.
  destruct (uiomove_char cas m u ch n Hr) as (m1 & -> & Hm & Hr1 & Es & Eb & Er & Ew); [lia|done|]. simpl.
  destruct (ch =? LF).
  - injection Hl as <- <-. exists c1, m1. done.
  - destruct (line _ l) as [[x' r']|] eqn:El; [|done]. injection Hl as <- <-.
    assert (typed c1 = l) as Et1 by apply R1.
    destruct (IH c1 m1 (advance u 1) (n - 1) x' r') as (c2 & m2 & -> & Hm2 & H2 & R2);
      [done|done|done|lia|lia|by rewrite Et1|].
    apply line_length in El as Hlen. exists c2, m2.
    split; [|split; [|split; [done|exact (received_trans _ _ _ _ _ R1 R2)]]].
    + rewrite (advance_add cas m); [|eapply ready_less; [done|lia]|lia|lia]. simpl. repeat f_equal. lia.
    + exact (moved_app m u [byte_of ch] m1 (advance u 1) (byte_of <$> x') m2 Hm Hm2 Es Eb).
Qed.

Lemma con_read_ok cas c m u n x r : awaiting c -> con_userlock_read c = false -> rw u = UIO_READ ->
  ready cas m u n -> uio_resid u = n -> line (Z.to_nat n) (typed c) = Some (x, r) ->
  exists c' m', con_io cas c m u = Done ((c', m', advance u (Z.of_nat (length x))), Ok tt) /\
    moved m u (byte_of <$> x) m' /\ awaiting c' /\ received c r c'.
Proof.
  intros ([Hw Hri] & Hz & Hp) Hl Hrw Hr Hn Hline. unfold con_io. rewrite (wi_attached _ _ Hw), Hrw, Hl. cbn [assert].
  destruct (con_read_loop cas (Z.to_nat (uio_resid u)) (set_rlock c true) m u n x r)
    as (c1 & m1 & -> & Hm & ([H1 R1] & Z1 & P1) & [T1 S1 [L1 L2] D1]);
    [split; [split; [by destruct Hw|done]|done]|done|done|done|by rewrite Hn|done|].
  simpl. eexists _, m1. split; [done|]. split; [done|]. split; [split; [split; [by destruct H1|done]|done]|].
  split; [done|done|simpl in *; split; congruence|done].
Qed.

(** Reading from [con:] reads a line.  On a configured console with no input at
    hand, when the characters typed next make a line for a reader of [n]
    characters, the read succeeds: it puts exactly that line into the region, a
    carriage return as a newline, takes no character after it, prints nothing and
    leaves the user lock free. *)
Theorem con_read_correct cas c m u n x r : awaiting c -> con_userlock_read c = false -> rw u = UIO_READ ->
  ready cas m u n -> uio_resid u = n -> line (Z.to_nat n) (typed c) = Some (x, r) ->
  exists c' m', con_io cas c m u = Done ((c', m', advance u (Z.of_nat (length x))), Ok tt) /\
    moved m u (byte_of <$> x) m' /\ awaiting c' /\ received c r c'.
Proof. apply con_read_ok. Qed.

(** ** Examples *)

Definition ex_port : lser := mk_lser false false false None [].
(** Before configuration, with ["ab"] printed already, and ["hi"], return, ["x"] to come. *)
Definition ex_con0 : con := mk_con false [97; 98] 0 0 0 false false false ex_port [104; 105; 13; 120].
Definition ex_con : con := mk_con true [] 0 0 0 false false false (mk_lser true true false None [97; 98]) [104; 105; 13; 120].

Lemma ex_configured : config_con (fun _ => true) ex_con0 0 = Done (ex_con, Ok tt).
Proof. reflexivity. Qed.
Lemma ex_idle : idle_port (ls ex_con0).
Proof. by exists ex_port. Qed.
Lemma ex_quiet : quiet ex_con.
Proof. apply (config_con_ok _ _ _ ex_idle ex_configured). Qed.

(** The card has sent the first character, and its interrupt is handled. *)
Definition ex_sent : con * Z := (set_ls ex_con (card_done (ls ex_con)), 0).

Lemma console_safe_witness : enabled Irq ex_sent = true /\ (exists s', act Irq ex_sent = Done s') /\
  (enabled CardDone (ex_con, 0) || enabled Irq (ex_con, 0) = true).
Proof.
  assert (enabled Irq ex_sent = true) as He by (vm_compute; reflexivity). split; [exact He|]. split.
  - apply (console_safe (fun _ => true) ex_con0 ex_con ex_sent Irq).
    + exact ex_idle.
    + exact ex_configured.
    + apply rtc_once, (step_act CardDone); vm_compute; reflexivity.
    + exact He.
    + vm_compute. reflexivity.
  - apply (console_safe (fun _ => true) ex_con0 ex_con (ex_con, 0) Irq).
    + exact ex_idle.
    + exact ex_configured.
    + apply rtc_refl.
    + vm_compute. reflexivity.
    + reflexivity.
Defined.

(** ["x\n"] from kernel memory. *)
Definition ex_out : mach := mk_mach (fun a => if a =? 0 then 120 else 10) (fun _ => None) false.

Lemma ex_con_ready r : ready None ex_out (mk_kuio 0 2 0 r) 2.
Proof. split; simpl; unfold INT_MIN, INT_MAX; try done; lia. Qed.

Lemma con_write_correct_witness :
  exists c', con_io None ex_con ex_out (mk_kuio 0 2 0 UIO_WRITE) = Done ((c', ex_out, advance (mk_kuio 0 2 0 UIO_WRITE) 2), Ok tt) /\
    quiet c' /\ printed ex_con (cook (schar <$> get_region ex_out (mk_kuio 0 2 0 UIO_WRITE) 2)) c'.
Proof. apply con_write_correct; [exact ex_quiet|reflexivity|reflexivity|apply ex_con_ready|reflexivity]. Defined.

(** ["hi"] and the return; ["x"] is not taken, nor needed: the region has room for two. *)
Lemma con_read_correct_witness :
  exists c' m', con_io None ex_con ex_out (mk_kuio 0 2 0 UIO_READ) = Done ((c', m', advance (mk_kuio 0 2 0 UIO_READ) 2), Ok tt) /\
    moved ex_out (mk_kuio 0 2 0 UIO_READ) (byte_of <$> [104; 105]) m' /\ awaiting c' /\ received ex_con [13; 120] c'.
Proof.
  apply (con_read_correct None ex_con ex_out (mk_kuio 0 2 0 UIO_READ) 2 [104; 105] [13; 120]).
  - split; [exact ex_quiet|split; reflexivity].
  - reflexivity.
  - reflexivity.
  - apply ex_con_ready.
  - reflexivity.
  - reflexivity.
Defined.

(** Two characters that arrive before a reader does: the first is lost, and the
    second is read twice. *)
Definition type_read (c : con) (a b : Z) : exec (Z * Z) :=
  c1 ← con_input c a; c2 ← con_input c1 b; '(c3, x) ← getch c2; '(_, y) ← getch c3; Done (x, y).
Example con_input_repeats : type_read ex_con 97 98 = Done (98, 98).
Proof. reflexivity. Qed.

End Console.
