(* ===== verification/VfsWorld.v ===== *)
(** * Devices and filesystems side by side

    Two implementations of the vnode interface make one: even addresses belong
    to the first, odd ones to the second.  [world] is the kernel's: SFS on a disk,
    and the device vnodes. *)

From Stdlib Require Import ZArith Lia Bool.
From stdpp Require Import base list numbers relations gmap.
From S2P Require Import Prelude.
From S2P Require Import Array.
From S2P Require Import Bitmap.
From S2P Require Import Uio.
From S2P Require Import Lhd.
From S2P Require Import Vnode.
From S2P Require Import Sfs.
From S2P Require Import SfsRef.
From S2P Require Import Vfs.
From S2P Require Import VfsRef.
From S2P Require Import VfsTable.
From S2P Require Import Device.
From S2P Require Import Console.
Import Copy Uio Sfs SfsRef Vfs VfsRef.

Module Pair.
Section pair.
Context {W1 W2 : Type} {V1 : Vnodes W1} {V2 : Vnodes W2}.
Notation W := (W1 * W2)%type.

Definition addrL (p : Z) : Z := 2 * p.
Definition addrR (p : Z) : Z := 2 * p + 1.

(** A result of the first or the second implementation, with its addresses. *)
Definition map_ok {A B} (g : A -> B) (r : ret A) : ret B := match r with Ok a => Ok (g a) | Err e => Err e end.
Definition inL {A B} (g : A -> B) (b : W2) (m : exec (W1 * ret A)) : exec (W * ret B) :=
  '(a, r) ← m; Done ((a, b), map_ok g r).
Definition inR {A B} (g : A -> B) (a : W1) (m : exec (W2 * ret A)) : exec (W * ret B) :=
  '(b, r) ← m; Done ((a, b), map_ok g r).
Definition inL0 (b : W2) (m : exec W1) : exec W := a ← m; Done (a, b).
Definition inR0 (a : W1) (m : exec W2) : exec W := b ← m; Done (a, b).
Definition ioL (b : W2) (m : exec ((W1 * mach * uio) * ret unit)) : exec ((W * mach * uio) * ret unit) :=
  '((a, m1, u1), r) ← m; Done (((a, b), m1, u1), r).
Definition ioR (a : W1) (m : exec ((W2 * mach * uio) * ret unit)) : exec ((W * mach * uio) * ret unit) :=
  '((b, m1, u1), r) ← m; Done (((a, b), m1, u1), r).

(** A call on the vnode or filesystem at [v]. *)
Definition pick {A} (v : Z) (l r : Z -> A) : A := if Z.even v then l (v / 2) else r (v / 2).
(** A call on two vnodes, which must belong together. *)
Definition pick2 {A} (v v' : Z) (l r : Z -> Z -> exec A) : exec A :=
  if Z.even v then (if Z.even v' then l (v / 2) (v' / 2) else Halt Undefined)
  else if Z.even v' then Halt Undefined else r (v / 2) (v' / 2).

#[export] Instance pair_vn : Vnodes W := {|
  vn_count w v := pick v (vn_count (fst w)) (vn_count (snd w));
  vn_warnings w := vn_warnings (fst w) + vn_warnings (snd w);
  vn_fs w v := pick v (fun p => addrL <$> vn_fs (fst w) p) (fun p => addrR <$> vn_fs (snd w) p);
  vn_ok w := vn_ok (fst w) /\ vn_ok (snd w);
  vop_incref w v := pick v (fun p => inL0 (snd w) (vop_incref (fst w) p)) (fun p => inR0 (fst w) (vop_incref (snd w) p));
  vop_decref w v := pick v (fun p => inL0 (snd w) (vop_decref (fst w) p)) (fun p => inR0 (fst w) (vop_decref (snd w) p));
  vop_incopen w v := pick v (fun p => inL0 (snd w) (vop_incopen (fst w) p)) (fun p => inR0 (fst w) (vop_incopen (snd w) p));
  vop_decopen w v := pick v (fun p => inL0 (snd w) (vop_decopen (fst w) p)) (fun p => inR0 (fst w) (vop_decopen (snd w) p));
  vop_open w v fl := pick v (fun p => inL id (snd w) (vop_open (fst w) p fl)) (fun p => inR id (fst w) (vop_open (snd w) p fl));
  vop_read cas w m u v :=
    pick v (fun p => ioL (snd w) (vop_read cas (fst w) m u p)) (fun p => ioR (fst w) (vop_read cas (snd w) m u p));
  vop_write cas w m u v :=
    pick v (fun p => ioL (snd w) (vop_write cas (fst w) m u p)) (fun p => ioR (fst w) (vop_write cas (snd w) m u p));
  vop_readlink cas w m u v :=
    pick v (fun p => ioL (snd w) (vop_readlink cas (fst w) m u p)) (fun p => ioR (fst w) (vop_readlink cas (snd w) m u p));
  vop_namefile cas w m u v :=
    pick v (fun p => ioL (snd w) (vop_namefile cas (fst w) m u p)) (fun p => ioR (fst w) (vop_namefile cas (snd w) m u p));
  vop_gettype w v := pick v (vop_gettype (fst w)) (vop_gettype (snd w));
  vop_truncate w v len :=
    pick v (fun p => inL id (snd w) (vop_truncate (fst w) p len)) (fun p => inR id (fst w) (vop_truncate (snd w) p len));
  vop_creat mem w v n ex :=
    pick v (fun p => inL addrL (snd w) (vop_creat mem (fst w) p n ex)) (fun p => inR addrR (fst w) (vop_creat mem (snd w) p n ex));
  vop_symlink w v c n :=
    pick v (fun p => inL id (snd w) (vop_symlink (fst w) p c n)) (fun p => inR id (fst w) (vop_symlink (snd w) p c n));
  vop_mkdir w v n := pick v (fun p => inL id (snd w) (vop_mkdir (fst w) p n)) (fun p => inR id (fst w) (vop_mkdir (snd w) p n));
  vop_link w v n f :=
    pick2 v f (fun p q => inL id (snd w) (vop_link (fst w) p n q)) (fun p q => inR id (fst w) (vop_link (snd w) p n q));
  vop_remove mem w v n :=
    pick v (fun p => inL id (snd w) (vop_remove mem (fst w) p n)) (fun p => inR id (fst w) (vop_remove mem (snd w) p n));
  vop_rmdir w v n := pick v (fun p => inL id (snd w) (vop_rmdir (fst w) p n)) (fun p => inR id (fst w) (vop_rmdir (snd w) p n));
  vop_rename mem w v n v' n' :=
    pick2 v v' (fun p q => inL id (snd w) (vop_rename mem (fst w) p n q n'))
      (fun p q => inR id (fst w) (vop_rename mem (snd w) p n q n'));
  vop_lookup mem w v path :=
    pick v (fun p => inL addrL (snd w) (vop_lookup mem (fst w) p path)) (fun p => inR addrR (fst w) (vop_lookup mem (snd w) p path));
  vop_lookparent mem w v path n :=
    pick v (fun p => inL (prod_map addrL id) (snd w) (vop_lookparent mem (fst w) p path n))
      (fun p => inR (prod_map addrR id) (fst w) (vop_lookparent mem (snd w) p path n));
  fs_sync w fs := pick fs (fun p => inL id (snd w) (fs_sync (fst w) p)) (fun p => inR id (fst w) (fs_sync (snd w) p));
  fs_getvolname w fs := pick fs (fs_getvolname (fst w)) (fs_getvolname (snd w));
  fs_getroot mem w fs :=
    pick fs (fun p => '(a, v) ← fs_getroot mem (fst w) p; Done ((a, snd w), addrL v))
      (fun p => '(b, v) ← fs_getroot mem (snd w) p; Done ((fst w, b), addrR v));
  fs_unmount w fs := pick fs (fun p => inL id (snd w) (fs_unmount (fst w) p)) (fun p => inR id (fst w) (fs_unmount (snd w) p))
|}.

(** Devices live on the right. *)
Context {DV : Devices W2}.
#[export] Instance pair_devices : Devices W := {|
  dev_create_vnode mem w d := '(b, o) ← dev_create_vnode mem (snd w) d; Done ((fst w, b), option_map addrR o);
  dev_free_vnode w v := pick v (fun _ => Halt Undefined) (fun p => inR0 (fst w) (dev_free_vnode (snd w) p))
|}.

(** ** The laws *)

Definition onL (d : Z -> Z) (x : Z) : Z := if Z.even x then d (x / 2) else 0.
Definition onR (d : Z -> Z) (x : Z) : Z := if Z.even x then 0 else d (x / 2).

Lemma even_half x : Z.even x = true -> x = 2 * (x / 2).
Proof. rewrite Zeven_mod. intros H%Z.eqb_eq. zlia. Qed.
Lemma odd_half x : Z.even x = false -> x = 2 * (x / 2) + 1.
Proof. rewrite Zeven_mod. intros H%Z.eqb_neq. zlia. Qed.
Lemma onL_one p x : onL (one p) x = one (addrL p) x.
Proof.
  unfold onL, one, addrL. destruct (Z.even x) eqn:E.
  - apply even_half in E. repeat case_decide; lia.
  - apply odd_half in E. case_decide; lia.
Qed.
Lemma onR_one p x : onR (one p) x = one (addrR p) x.
Proof.
  unfold onR, one, addrR. destruct (Z.even x) eqn:E.
  - apply even_half in E. case_decide; lia.
  - apply odd_half in E. repeat case_decide; lia.
Qed.

Lemma bal_onL a a' b d : bal a d a' -> bal (a, b) (onL d) (a', b).
Proof.
  intros [Hw Hs He Ho]. split; simpl; [lia|intros x; unfold pick, onL..|]; [| |tauto].
  - case_match; [apply Hs|lia].
  - intros [Hok _] E. case_match; [apply He; [done|lia]|lia].
Qed.
Lemma bal_onR a b b' d : bal b d b' -> bal (a, b) (onR d) (a, b').
Proof.
  intros [Hw Hs He Ho]. split; simpl; [lia|intros x; unfold pick, onR..|]; [| |tauto].
  - case_match; [lia|apply Hs].
  - intros [_ Hok] E. case_match; [lia|apply He; [done|lia]].
Qed.

Lemma onL_none x : onL none x = none x.
Proof. unfold onL. by case_match. Qed.
Lemma onR_none x : onR none x = none x.
Proof. unfold onR. by case_match. Qed.

(** Calls on the left and on the right that hand out [f r]. *)
Lemma inL_post {A B} (g : A -> B) (f : ret A -> Z -> Z) (f' : ret B -> Z -> Z) a b m :
  (forall r x, onL (f r) x = f' (map_ok g r) x) -> post m (fun '(a', r) => bal a (f r) a') ->
  post (inL g b m) (fun '(w', r) => bal (a, b) (f' r) w').
Proof.
  intros Hf H. apply post_bind. eapply post_mono; [exact H|]. intros [a' r] H'. apply post_Done.
  eapply bal_ext; [by apply bal_onL|]. intros x. by rewrite Hf.
Qed.
Lemma inR_post {A B} (g : A -> B) (f : ret A -> Z -> Z) (f' : ret B -> Z -> Z) a b m :
  (forall r x, onR (f r) x = f' (map_ok g r) x) -> post m (fun '(b', r) => bal b (f r) b') ->
  post (inR g a m) (fun '(w', r) => bal (a, b) (f' r) w').
Proof.
  intros Hf H. apply post_bind. eapply post_mono; [exact H|]. intros [a' r] H'. apply post_Done.
  eapply bal_ext; [by apply bal_onR|]. intros x. by rewrite Hf.
Qed.

Lemma inL_none {A B} (g : A -> B) a b m : post m (fun '(a', _) => bal a none a') ->
  post (inL g b m) (fun '(w', _) => bal (a, b) none w').
Proof. apply (inL_post g (fun _ => none) (fun _ => none)). intros _. apply onL_none. Qed.
Lemma inR_none {A B} (g : A -> B) a b m : post m (fun '(b', _) => bal b none b') ->
  post (inR g a m) (fun '(w', _) => bal (a, b) none w').
Proof. apply (inR_post g (fun _ => none) (fun _ => none)). intros _. apply onR_none. Qed.

Lemma inL0_post a b m d d' : (forall x, onL d x = d' x) -> post m (bal a d) -> post (inL0 b m) (bal (a, b) d').
Proof.
  intros Hd H. apply post_bind. eapply post_mono; [exact H|]. intros a' H'. apply post_Done.
  eapply bal_ext; [by apply bal_onL|]. done.
Qed.
Lemma inR0_post a b m d d' : (forall x, onR d x = d' x) -> post m (bal b d) -> post (inR0 a m) (bal (a, b) d').
Proof.
  intros Hd H. apply post_bind. eapply post_mono; [exact H|]. intros a' H'. apply post_Done.
  eapply bal_ext; [by apply bal_onR|]. done.
Qed.

Lemma ioL_post a b m : post m (fun '((a', _, _), _) => bal a none a') ->
  post (ioL b m) (fun '((w', _, _), _) => bal (a, b) none w').
Proof.
  intros H. apply post_bind. eapply post_mono; [exact H|]. intros [[[a' m1] u1] r] H'. apply post_Done.
  eapply bal_ext; [by apply bal_onL|]. intros x. by rewrite onL_none.
Qed.
Lemma ioR_post a b m : post m (fun '((b', _, _), _) => bal b none b') ->
  post (ioR a m) (fun '((w', _, _), _) => bal (a, b) none w').
Proof.
  intros H. apply post_bind. eapply post_mono; [exact H|]. intros [[[a' m1] u1] r] H'. apply post_Done.
  eapply bal_ext; [by apply bal_onR|]. intros x. by rewrite onR_none.
Qed.

Lemma pick_post {A} v (l r : Z -> exec A) Q : (forall p, v = addrL p -> post (l p) Q) -> (forall p, v = addrR p -> post (r p) Q) ->
  post (pick v l r) Q.
Proof.
  intros Hl Hr. unfold pick. destruct (Z.even v) eqn:E; [apply Hl, even_half, E|apply Hr, odd_half, E].
Qed.
Lemma pick2_post {A} v v' (l r : Z -> Z -> exec A) Q : (forall p q, post (l p q) Q) -> (forall p q, post (r p q) Q) ->
  post (pick2 v v' l r) Q.
Proof. intros Hl Hr. unfold pick2. repeat case_match; auto using post_Halt. Qed.

Lemma count_L a b p : vn_count (a, b) (addrL p) = vn_count a p.
Proof. simpl. unfold pick, addrL. rewrite Z.even_mul. simpl. by rewrite Z.mul_comm, Z.div_mul. Qed.
Lemma count_R a b p : vn_count (a, b) (addrR p) = vn_count b p.
Proof.
  simpl. unfold pick, addrR. rewrite Z.even_add, Z.even_mul. simpl. by rewrite Z.mul_comm, Z.div_add_l, Z.add_0_r.
Qed.

Lemma gives_L {A} (f f' : A -> Z) (r : ret A) x : (forall a, f' a = addrL (f a)) -> onL (gives f r) x = gives f' r x.
Proof. intros H. destruct r; simpl; [by rewrite H, onL_one|apply onL_none]. Qed.
Lemma gives_R {A} (f f' : A -> Z) (r : ret A) x : (forall a, f' a = addrR (f a)) -> onR (gives f r) x = gives f' r x.
Proof. intros H. destruct r; simpl; [by rewrite H, onR_one|apply onR_none]. Qed.
Lemma gives_map {A B} (f : B -> Z) (g : A -> B) (r : ret A) x : gives f (map_ok g r) x = gives (fun a => f (g a)) r x.
Proof. by destruct r. Qed.

Context {OK1 : VnodesOk W1} {OK2 : VnodesOk W2} {DOK : DevicesOk W2}.

Ltac both := apply pick_post; intros p ->.
Ltac both_none := both; [apply inL_none|apply inR_none].

#[export] Instance pair_vn_ok : VnodesOk W.
Proof.
  split.
  - intros [a b] v. both; [eapply inL0_post; [apply onL_one|]|eapply inR0_post; [apply onR_one|]]; apply incref_ok.
  - intros [a b] v Hv. both; simpl fst; simpl snd.
    + eapply inL0_post; [|apply decref_ok; by rewrite count_L in Hv]. intros x. rewrite <- onL_one. unfold onL. by case_match.
    + eapply inR0_post; [|apply decref_ok; by rewrite count_R in Hv]. intros x. rewrite <- onR_one. unfold onR. by case_match.
  - intros [a b] v. both; [eapply inL0_post; [apply onL_none|]|eapply inR0_post; [apply onR_none|]]; apply incopen_ok.
  - intros [a b] v. both; [eapply inL0_post; [apply onL_none|]|eapply inR0_post; [apply onR_none|]]; apply decopen_ok.
  - intros [a b] v fl. both_none; apply open_ok.
  - intros cas [a b] m u v. both; [apply ioL_post|apply ioR_post]; apply read_ok.
  - intros cas [a b] m u v. both; [apply ioL_post|apply ioR_post]; apply write_ok.
  - intros cas [a b] m u v. both; [apply ioL_post|apply ioR_post]; apply readlink_ok.
  - intros cas [a b] m u v. both; [apply ioL_post|apply ioR_post]; apply namefile_ok.
  - intros [a b] v len. both_none; apply truncate_ok.
  - intros mem [a b] v n ex. both; [eapply inL_post; [|apply creat_ok]|eapply inR_post; [|apply creat_ok]]; intros r x; rewrite gives_map;
      [by apply gives_L|by apply gives_R].
  - intros [a b] v c n. both_none; apply symlink_ok.
  - intros [a b] v n. both_none; apply mkdir_ok.
  - intros [a b] v n f. apply pick2_post; intros p q; [apply inL_none|apply inR_none]; apply link_ok.
  - intros mem [a b] v n. both_none; apply remove_ok.
  - intros [a b] v n. both_none; apply rmdir_ok.
  - intros mem [a b] v n v' n'. apply pick2_post; intros p q; [apply inL_none|apply inR_none]; apply rename_ok.
  - intros mem [a b] v n. both; [eapply inL_post; [|apply lookup_ok]|eapply inR_post; [|apply lookup_ok]]; intros r x; rewrite gives_map;
      [by apply gives_L|by apply gives_R].
  - intros mem [a b] v path n. both; [eapply inL_post; [|apply lookparent_ok]|eapply inR_post; [|apply lookparent_ok]];
      intros r x; rewrite gives_map; [by apply gives_L|by apply gives_R].
  - intros [a b] fs. both_none; apply sync_ok.
  - intros mem [a b] fs. both; apply post_bind; (eapply post_mono; [apply getroot_ok|]); intros [w' v] H; apply post_Done;
      (eapply bal_ext; [by first [apply bal_onL|apply bal_onR]|]); intros x; simpl; [by rewrite onL_one|by rewrite onR_one].
  - intros [a b] fs. both_none; apply unmount_ok.
Qed.

#[export] Instance pair_devices_ok : DevicesOk W.
Proof.
  split.
  - intros mem [a b] d. apply post_bind. eapply post_mono; [apply create_vnode_ok|]. intros [b' o] [H Hv]. apply post_Done.
    split; [eapply bal_ext; [by apply bal_onR|]; intros x; by rewrite onR_none|].
    intros v E. destruct o as [p|]; [|done]. injection E as <-. simpl fst. rewrite count_R. by apply Hv.
  - intros mem [a b] d. apply post_bind. eapply post_mono; [apply create_vnode_names|]. intros [b' o] H. apply post_Done.
    intros fs. simpl. unfold pick. by rewrite H.
  - intros [a b] v Hv. both; [apply post_Halt|]. eapply inR0_post; [apply onR_none|]. apply free_vnode_ok. by rewrite count_R in Hv.
  - intros [a b] v. both; [apply post_Halt|]. apply post_bind. eapply post_mono; [apply free_vnode_names|]. intros b' H.
    apply post_Done. intros fs. simpl. unfold pick. by rewrite H.
Qed.

End pair.
End Pair.

(** ** The kernel's devices *)

Module World.
#[local] Existing Instances Lhd.lhd_dev Lhd.lhd_dev_calm Device.dev_vn Device.dev_vn_ok Device.dev_devices
  Device.dev_devices_ok Pair.pair_vn Pair.pair_devices Pair.pair_vn_ok Pair.pair_devices_ok.

(** [null:], the disks and the console. *)
Inductive dev : Type := NullDev | LhdDev (d : Lhd.lhd) | ConDev (c : Console.con).

(** On write, discard everything; on read, do nothing. *)
Definition nullio (u : uio) : uio :=
  match rw u with
  | UIO_WRITE => mk_uio (iov_base u) (iov_len u) (uio_offset u) 0 (uio_segflg u) (rw u) (uio_space u)
  | UIO_READ => u
  end.
Definition nullopen : ret unit := Ok tt.
Definition nullclose : ret unit := Ok tt.
Definition nullioctl : ret unit := Err EINVAL.

#[export] Instance dev_block : BlockDev dev := {|
  d_blocks d := match d with NullDev => 0 | LhdDev l => Lhd.nsect l | ConDev _ => 0 end;
  d_blocksize d := match d with NullDev => 1 | LhdDev l => Lhd.LHD_SECTSIZE | ConDev _ => 1 end;
  d_io cas d m u :=
    match d with
    | NullDev => Done ((NullDev, m, nullio u), Ok tt)
    | LhdDev l => '((l1, m1, u1), r) ← Lhd.lhd_io cas l m u; Done ((LhdDev l1, m1, u1), r)
    | ConDev c => '((c1, m1, u1), r) ← Console.con_io cas c m u; Done ((ConDev c1, m1, u1), r)
    end
|}.
#[export] Instance dev_device : Device dev := {|
  d_open d _ := Done (d, match d with NullDev => nullopen | LhdDev _ => Lhd.lhd_open | ConDev _ => Console.con_open end);
  d_close d := Done (d, match d with NullDev => nullclose | LhdDev _ => Lhd.lhd_close | ConDev _ => Console.con_close end);
  d_ioctl d _ _ := Done (d, match d with NullDev => nullioctl | LhdDev _ => Lhd.lhd_ioctl | ConDev _ => Console.con_ioctl end)
|}.

(** SFS on its disk, and the device vnodes. *)
Notation world := (sfs_fs Lhd.lhd * Device.devs dev)%type.

(** ["null"] *)
Definition NULL_NAME : list Z := [110; 117; 108; 108].
(** [sizeof(struct device)] *)
Definition sizeof_device : Z := 28.

Definition devnull_create (mem : Z -> bool) (s : vfs) (w : world) : exec (vfs * world) :=
  if negb (mem sizeof_device) then Halt Panic
  else
    let p := fresh ({[0]} ∪ dom (Device.devices (snd w))) in
    let w1 := (fst w, Device.put_dev (snd w) p NullDev) in
    '((s1, w2), r) ← vfs_adddev mem s w1 NULL_NAME p false;
    match r with Ok _ => Done (s1, w2) | Err _ => Halt Panic end.

(** ["con"] *)
Definition CON_NAME : list Z := [99; 111; 110].

(** The console's state goes with its device. *)
Definition attach_console_to_vfs (mem : Z -> bool) (s : vfs) (w : world) (c : Console.con) : exec ((vfs * world) * ret unit) :=
  if negb (mem sizeof_device) then Done ((s, w), Err ENOMEM)
  else
    let p := fresh ({[0]} ∪ dom (Device.devices (snd w))) in
    let w1 := (fst w, Device.put_dev (snd w) p (ConDev c)) in
    '((s1, w2), r) ← vfs_adddev mem s w1 CON_NAME p false;
    match r with
    | Ok _ => Done ((s1, w2), Ok tt)
    | Err e =>
        Done ((s1, (fst w2, Device.mk_devs (delete p (Device.devices (snd w2))) (Device.dvnodes (snd w2))
                              (Device.dwarnings (snd w2)))), Err e)
    end.

(** The console's configuration, with its registration. *)
Definition config_console (mem : Z -> bool) (s : vfs) (w : world) (c : Console.con) (unitno : Z) : exec ((vfs * world) * ret unit) :=
  '(c1, r) ← Console.config_con mem c unitno;
  match r with
  | Ok _ => attach_console_to_vfs mem s w c1
  | Err e => Done ((s, w), Err e)
  end.

(** [lock_create]: the lock and a copy of its name, of [n] bytes with the terminator. *)
Definition lock_create (mem : Z -> bool) (n : Z) : bool := mem 8 && mem n.

Definition vfs_initbootfs (mem : Z -> bool) : exec unit := if lock_create mem 12 then Done tt else Halt Panic.

Definition vfs_bootstrap (mem : Z -> bool) (cwd : option Z) (w : world) : exec (vfs * world) :=
  match Array.array_create mem with
  | None => Halt Panic
  | Some knowndevs =>
      if negb (lock_create mem 10) then Halt Panic
      else
        _u ← vfs_initbootfs mem;
        devnull_create mem (mk_vfs knowndevs false None false cwd) w
  end.

(** ** [null:] *)

(** The name of the device in a path. *)
Definition NULL_PATH : list Z := NULL_NAME ++ [COLON].

(** The null device through the VFS layer, from the start of the system: after
    [vfs_bootstrap] with enough memory, opening ["null:"] for writing succeeds,
    and whatever is written to the vnode is consumed in full, memory untouched. *)
Theorem null_discards (f : sfs_fs Lhd.lhd) cwd cas m u : rw u = UIO_WRITE ->
  exists s w v w' w'' u',
    vfs_bootstrap (fun _ => true) cwd (f, Device.mk_devs ∅ ∅ 0) = Done (s, w) /\
    vfs_open (fun _ => true) s w NULL_PATH O_WRONLY = Done ((s, w'), Ok v) /\
    vop_write cas w' m u v = Done ((w'', m, u'), Ok tt) /\ uio_resid u' = 0.
Proof.
  intros Hw. destruct u as [base len off resid seg r sp]. simpl in Hw. subst r.
  eexists _, _, _, _, _, _. split; [vm_compute; reflexivity|]. split; [vm_compute; reflexivity|].
  split; [vm_compute; reflexivity|done].
Qed.

(** ** Running a history *)

(** The volume is ready; mounting hands back its filesystem. *)
Definition ready_mount (w : world) (d : Z) : exec (world * ret Z) := Done (w, Ok (Pair.addrL SFS_FS)).

Fixpoint run_calls (l : list call) (y : sys (W := world)) : option (sys (W := world)) :=
  match l with
  | [] => Some y
  | c :: l' =>
      match do_call ready_mount (fun _ => true) None c (y_vfs y) (y_world y) with
      | Done (s, w, o) => run_calls l' (mk_sys s w (opt_list o ++ y_mine y))
      | Halt _ => None
      end
  end.

Lemma run_calls_steps l y y' : run_calls l y = Some y' -> rtc (step ready_mount (fun _ => true) None) y y'.
Proof.
  revert y. induction l as [|c l IH]; intros [s w mine]; simpl; [by intros [= <-]|].
  destruct (do_call _ _ _ _ _ _) as [[[s1 w1] o]|] eqn:E; [|done]. intros H.
  eapply rtc_l; [eapply step_call; exact E|by apply IH].
Qed.

(** A disk of 16 blocks with an empty root directory, mounted. *)
Definition ex_root : sfs_inode := mk_inode 0 SFS_TYPE_DIR 1 (replicate 15 0) 0 (replicate 110 0).
Definition ex_disk0 : Lhd.lhd :=
  Lhd.mk_lhd 16 (fun x => if x =? 1 then enc_inode ex_root else replicate 512 0)
    (fun _ => Lhd.LHD_OK) (fun a _ => a) 0 (replicate 512 0) (Ok tt) 1 0.
Definition ex_sfs0 : sfs_fs Lhd.lhd :=
  mk_fs (mk_super SFS_MAGIC 16 [118; 0] []) false ex_disk0 (Array.mk_array 0 0 None) (Bitmap.mk_bitmap 16 [7; 0]) false ∅ 0.
Definition ex_sys : sys (W := world) :=
  mk_sys (mk_vfs (Array.mk_array 0 0 None) false None false None) (ex_sfs0, Device.mk_devs ∅ ∅ 0) [].

(** Add the filesystem as ["a"], make it the boot filesystem, create and write
    ["/f"], link it as ["v:g"], look for a file that does not exist. *)
Definition ex_calls : list call :=
  [ Addfs [97] (Pair.addrL SFS_FS);
    Setbootfs [97];
    Open [47; 102] 6;
    Write (kobj [72; 105]) (mk_kuio 0 2 0 UIO_WRITE) 4;
    Link [47; 102] [118; 58; 103];
    Open [120] 0 ].

Lemma some_with {A} (o : option A) P : match o with Some a => P a | None => False end -> exists a, o = Some a /\ P a.
Proof. destruct o; [eauto|done]. Qed.

Lemma ex_calls_run : exists y, run_calls ex_calls ex_sys = Some y /\ y_mine y = [4].
Proof. apply some_with. vm_compute. reflexivity. Qed.

Lemma ex_counted : counted 0 ex_sys.
Proof.
  split; simpl; [| |done|split; [|done]; by vm_compute|done].
  all: intros x; unfold Pair.pick, refs, Device.dev_count; simpl; case_match; by rewrite lookup_empty.
Qed.

(** The filesystem and a disk without one: ["a"] and ["d"] with ["draw"]. *)
Definition ex_kd1 : knowndev := mk_kd [97] None None 3 (Some (Pair.addrL SFS_FS)).
Definition ex_kd2 : knowndev := mk_kd [100] (Some [100; 114; 97; 119]) (Some 1) 5 None.
Definition ex_table : vfs := mk_vfs (Array.mk_array 2 2 (Some [Some ex_kd1; Some ex_kd2])) false None false None.
Definition ex_world : world :=
  (ex_sfs0, Device.mk_devs {[1 := LhdDev ex_disk0]} {[1 := Device.mk_dn 1 0 None; 2 := Device.mk_dn 1 0 (Some 1)]} 0).

Lemma ex_devs_are : VfsTable.devs_are ex_table [ex_kd1; ex_kd2].
Proof. split; [|done..]. split; [simpl; lia|]. split; [simpl; lia|]. by split. Qed.

(** The volume is called ["v"]. *)
Lemma ex_names1 n : VfsTable.names ex_world ex_kd1 n -> n = [97] \/ n = [118].
Proof. intros [->|[H|H]]; [by left|done|]. injection H as <-. by right. Qed.
Lemma ex_names2 n : VfsTable.names ex_world ex_kd2 n -> n = [100] \/ n = [100; 114; 97; 119].
Proof. intros [->|[H|H]]; [by left| |done]. injection H as <-. by right. Qed.

Lemma ex_unique : VfsTable.unique ex_world [ex_kd1; ex_kd2].
Proof.
  intros [|[|i]] [|[|j]] kd kd' n H1 H2 N1 N2; simplify_eq/=; try done; exfalso.
  - apply ex_names1 in N1. apply ex_names2 in N2. naive_solver.
  - apply ex_names2 in N1. apply ex_names1 in N2. naive_solver.
Qed.

End World.
Import World.
#[local] Existing Instances Lhd.lhd_dev Lhd.lhd_dev_calm Device.dev_vn Device.dev_vn_ok Device.dev_devices
  Device.dev_devices_ok Pair.pair_vn Pair.pair_devices Pair.pair_vn_ok Pair.pair_devices_ok.

Lemma vfs_refcounts_witness : exists y, run_calls ex_calls ex_sys = Some y /\ y_mine y = [4] /\ counted 0 y.
Proof.
  destruct ex_calls_run as (y & E & Hm). exists y. split; [exact E|]. split; [exact Hm|].
  apply (vfs_refcounts ready_mount (fun _ => true) None) with ex_sys.
  - intros w d. apply post_Done, bal_none.
  - exact (run_calls_steps _ _ _ E).
  - apply ex_counted.
Defined.

Lemma null_discards_witness :
  exists s w v w' w'' u',
    vfs_bootstrap (fun _ => true) None (ex_sfs0, Device.mk_devs ∅ ∅ 0) = Done (s, w) /\
    vfs_open (fun _ => true) s w NULL_PATH O_WRONLY = Done ((s, w'), Ok v) /\
    vop_write None w' (kobj [1; 2]) (mk_kuio 0 2 0 UIO_WRITE) v = Done ((w'', kobj [1; 2], u'), Ok tt) /\ uio_resid u' = 0.
Proof. apply null_discards. reflexivity. Defined.

(** ["d"] has no filesystem mounted. *)
Lemma vfs_getroot_correct_witness : vfs_getroot (fun _ => true) ex_table ex_world [100] = Done ((ex_table, ex_world), Err ENXIO).
Proof.
  destruct (VfsTable.vfs_getroot_correct (fun _ => true) ex_table ex_world [ex_kd1; ex_kd2] [100]) as [H _].
  - apply ex_devs_are.
  - apply ex_unique.
  - reflexivity.
  - rewrite (H 1%nat ex_kd2); [reflexivity|reflexivity| |by left]. intros _. discriminate.
Defined.

(** The name ["v"] is taken by the volume on ["a"]. *)
Lemma vfs_doadd_unique_witness :
  match vfs_doadd (fun _ => true) ex_table ex_world [118] false (Some 1) None with
  | Done ((s, w), r) => r = Err EEXIST /\ VfsTable.added [ex_kd1; ex_kd2] [118] false (Some 1) None s w r
  | Halt _ => False
  end.
Proof.
  pose proof (VfsTable.vfs_doadd_unique (fun _ => true) ex_table ex_world [ex_kd1; ex_kd2] [118] false (Some 1) None
    ex_devs_are ex_unique eq_refl ltac:(unfold Array.array_limit; simpl; lia)) as H.
  assert (exists s w, vfs_doadd (fun _ => true) ex_table ex_world [118] false (Some 1) None = Done ((s, w), Err EEXIST))
    as (s & w & E) by (eexists _, _; vm_compute; reflexivity).
  rewrite E in H |- *. split; [reflexivity|]. exact (H _ eq_refl).
Defined.

Lemma getdevice_parses_witness :
  exists k, VfsTable.parses [97; 58; 47; 102] k /\
    getdevice (fun _ => true) ex_table ex_world [97; 58; 47; 102] = VfsTable.start_from (fun _ => true) ex_table ex_world k.
Proof. apply VfsTable.getdevice_parses. reflexivity. Defined.
