(* ===== verification/Conc.v ===== *)
(** * Concurrent programs over semaphores and locks

    A small language in which the multi-threaded programs of the kernel are
    written down as they are: a thread is a loop whose body is a tree of shared
    accesses, semaphore and lock operations, one step each, so that threads
    interleave at every access.  [P], [V], [Acquire] and [Release] are the
    operations of [synch.c]; a step that fails an assertion there, or writes out
    of bounds, is a fault.

    The rule of this file proves invariants of such programs thread by thread,
    with a ghost value per thread that records how far the thread has come and
    what it knows; a second rule excludes deadlock by an order on what is held. *)

From Stdlib Require Import ZArith Lia Bool.
From stdpp Require Import base list numbers relations.
From S2P Require Import Prelude.

(** ** Programs *)

(** ** Lists whose elements go down one at a time *)

Section one_of.
Context {A : Type}.

Definition one_of (R : nat -> A -> A -> Prop) (l' l : list A) : Prop :=
  exists i x x', l !! i = Some x /\ R i x' x /\ l' = <[i := x']> l.

Lemma one_of_acc l (R : nat -> A -> A -> Prop) : (forall i x, l !! i = Some x -> Acc (R i) x) -> Acc (one_of R) l.
Proof.
  revert R. induction l as [|x l IH]; intros R H. { constructor. intros l' (i & x & x' & E & _). by rewrite lookup_nil in E. }
  assert (Acc (R 0%nat) x) as Hx by (by apply H).
  assert (Acc (one_of (fun i => R (S i))) l) as Hl. { apply IH. intros i y Hy. by apply (H (S i)). }
  clear H IH. revert l Hl. induction Hx as [x _ IHx]. intros l Hl. induction Hl as [l Hl IHl].
  constructor. intros l' ([|i] & y & y' & Ey & HR & ->); simpl in *.
  - injection Ey as <-. apply IHx; [done|]. by constructor.
  - apply IHl. by exists i, y, y'.
Qed.
End one_of.

Section program.
Context {S L Sm Lk : Type}.

Inductive prog : Type :=
| Loop (l : L)
| Return
| Read (f : S -> Z) (k : Z -> prog)
| Get (f : S -> option Z) (k : Z -> prog)
| Write (f : S -> option S) (k : prog)
| Choose (k : Z -> prog)
| Delay (what : Z) (k : prog)
| P (s : Sm) (k : prog)
| V (s : Sm) (k : prog)
| Destroy (s : Sm) (k : prog)
| Acquire (l : Lk) (k : prog)
| Release (l : Lk) (k : prog).

(** [Loop l] goes on at the head of the loop with the local variables [l]; [Get] is a
    read through a pointer or an index that may be bad; [Destroy] frees a semaphore,
    whose count is negative from then on; [Choose] is [random()]; [Delay] is a call without effect on the shared state, such as
    [clocksleep] or [kprintf], and [what] says which. *)

Record shared : Type := mk_shared { vars : S; sem : Sm -> Z; lock : Lk -> option nat }.

Context `{!EqDecision Sm} `{!EqDecision Lk}.

Definition set_vars (s : shared) (v : S) : shared := mk_shared v (sem s) (lock s).
Definition set_sem (s : shared) (r : Sm) (n : Z) : shared :=
  mk_shared (vars s) (fun x => if decide (x = r) then n else sem s x) (lock s).
Definition set_lock (s : shared) (r : Lk) (o : option nat) : shared :=
  mk_shared (vars s) (sem s) (fun x => if decide (x = r) then o else lock s x).

Record config : Type := mk_config { mem : shared; progs : list prog }.

(** The code of the threads: [code i l] is the body of thread [i]'s loop. *)
Variable code : nat -> L -> prog.

Definition upd {A} (G : nat -> A) (i : nat) (a : A) : nat -> A := fun j => if decide (j = i) then a else G j.

(** One step of thread [i] with the program [p]. *)
Inductive tstep (i : nat) : shared -> prog -> shared -> prog -> Prop :=
| s_loop s l : tstep i s (Loop l) s (code i l)
| s_read s f k : tstep i s (Read f k) s (k (f (vars s)))
| s_get s f k x : f (vars s) = Some x -> tstep i s (Get f k) s (k x)
| s_write s f k v : f (vars s) = Some v -> tstep i s (Write f k) (set_vars s v) k
| s_choose s k x : 0 <= x -> tstep i s (Choose k) s (k x)
| s_delay s x k : tstep i s (Delay x k) s k
| s_P s r k : 0 < sem s r -> tstep i s (P r k) (set_sem s r (sem s r - 1)) k
| s_V s r k : 0 <= sem s r -> tstep i s (V r k) (set_sem s r (sem s r + 1)) k
| s_destroy s r k : 0 <= sem s r -> tstep i s (Destroy r k) (set_sem s r (-1)) k
| s_acquire s r k : lock s r = None -> tstep i s (Acquire r k) (set_lock s r (Some i)) k
| s_release s r k : lock s r = Some i -> tstep i s (Release r k) (set_lock s r None) k.

Inductive step : config -> config -> Prop :=
| step_thread i s ps p s' p' : ps !! i = Some p -> tstep i s p s' p' ->
    step (mk_config s ps) (mk_config s' (<[i := p']> ps)).

Lemma steps_length c c' : rtc step c c' -> length (progs c') = length (progs c).
Proof. induction 1 as [|c1 c2 c3 H1 _ IH]; [done|]. rewrite IH. destruct H1. simpl. apply length_insert. Qed.

(** Several steps of one thread. *)
Definition tsteps (i : nat) : shared * prog -> shared * prog -> Prop :=
  rtc (fun a b => tstep i (fst a) (snd a) (fst b) (snd b)).

Lemma tsteps_l i s p s1 p1 b : tstep i s p s1 p1 -> tsteps i (s1, p1) b -> tsteps i (s, p) b.
Proof. intros H1 H2. apply (rtc_l _ _ (s1, p1)); done. Qed.

Lemma tsteps_steps i s p s' p' ps : tsteps i (s, p) (s', p') -> ps !! i = Some p ->
  rtc step (mk_config s ps) (mk_config s' (<[i := p']> ps)).
Proof.
  intros H. remember (s, p) as a eqn:Ea. remember (s', p') as b eqn:Eb. revert s p ps Ea.
  induction H as [a|a [s1 p1] b H1 _ IH]; intros s p ps Ea Hp.
  - simplify_eq. rewrite list_insert_id by done. constructor.
  - subst a. simpl in H1. eapply rtc_l; [by eapply step_thread|].
    rewrite <- (list_insert_insert_eq ps i p' p1). apply (IH Eb s1 p1); [done|].
    apply list_lookup_insert_eq. by eapply lookup_lt_Some.
Qed.

(** ** Running a schedule *)

(** The step of thread [i], with [x] for [random()]. *)
Definition texec (i : nat) (x : Z) (s : shared) (p : prog) : option (shared * prog) :=
  match p with
  | Loop l => Some (s, code i l)
  | Return => None
  | Read f k => Some (s, k (f (vars s)))
  | Get f k => match f (vars s) with Some x => Some (s, k x) | None => None end
  | Write f k => match f (vars s) with Some v => Some (set_vars s v, k) | None => None end
  | Choose k => if 0 <=? x then Some (s, k x) else None
  | Delay _ k => Some (s, k)
  | P r k => if 0 <? sem s r then Some (set_sem s r (sem s r - 1), k) else None
  | V r k => if 0 <=? sem s r then Some (set_sem s r (sem s r + 1), k) else None
  | Destroy r k => if 0 <=? sem s r then Some (set_sem s r (-1), k) else None
  | Acquire r k => match lock s r with None => Some (set_lock s r (Some i), k) | Some _ => None end
  | Release r k => if decide (lock s r = Some i) then Some (set_lock s r None, k) else None
  end.

Lemma texec_tstep i x s p s' p' : texec i x s p = Some (s', p') -> tstep i s p s' p'.
Proof.
  destruct p; simpl; intros H.
  - simplify_eq. apply s_loop.
  - done.
  - simplify_eq. apply s_read.
  - destruct (f (vars s)) eqn:E; simplify_eq. by apply s_get.
  - destruct (f (vars s)) eqn:E; simplify_eq. by apply s_write.
  - destruct (Z.leb_spec 0 x); simplify_eq. by apply s_choose.
  - simplify_eq. apply s_delay.
  - destruct (Z.ltb_spec 0 (sem s s0)); simplify_eq. by apply s_P.
  - destruct (Z.leb_spec 0 (sem s s0)); simplify_eq. by apply s_V.
  - destruct (Z.leb_spec 0 (sem s s0)); simplify_eq. by apply s_destroy.
  - destruct (lock s l) eqn:E; simplify_eq. by apply s_acquire.
  - case_decide; simplify_eq. by apply s_release.
Qed.

Fixpoint sched (l : list (nat * Z)) (c : config) : option config :=
  match l with
  | [] => Some c
  | (i, x) :: l' =>
      match progs c !! i with
      | None => None
      | Some p => match texec i x (mem c) p with
                  | None => None
                  | Some (s', p') => sched l' (mk_config s' (<[i := p']> (progs c)))
                  end
      end
  end.

Lemma sched_steps l c c' : sched l c = Some c' -> rtc step c c'.
Proof.
  revert c. induction l as [|[i x] l IH]; intros c H; simpl in H; [simplify_eq; constructor|].
  destruct (progs c !! i) eqn:E; [|done]. destruct (texec _ _ _ _) as [[s' p']|] eqn:Et; [|done].
  apply IH in H. eapply rtc_l; [|done]. destruct c. eapply step_thread; [done|by eapply texec_tstep].
Qed.

(** The threads of the list get their turns in order, those that cannot go on are
    passed over. *)
Fixpoint drive (l : list nat) (c : config) : config :=
  match l with
  | [] => c
  | i :: l' =>
      drive l' (match progs c !! i with
                | None => c
                | Some p => match texec i 0 (mem c) p with
                            | None => c
                            | Some (s', p') => mk_config s' (<[i := p']> (progs c))
                            end
                end)
  end.

Lemma drive_steps l c : rtc step c (drive l c).
Proof.
  revert c. induction l as [|i l IH]; intros c; simpl; [constructor|].
  destruct (progs c !! i) eqn:E; [|apply IH]. destruct (texec _ _ _ _) as [[s' p']|] eqn:Et; [|apply IH].
  eapply rtc_l; [|apply IH]. destruct c. eapply step_thread; [done|by eapply texec_tstep].
Qed.

(** The step a thread is about to take breaks an assertion or the memory. *)
Definition faults (i : nat) (s : shared) (p : prog) : Prop :=
  match p with
  | Get f _ => f (vars s) = None
  | Write f _ => f (vars s) = None
  | P r _ | V r _ | Destroy r _ => sem s r < 0
  | Acquire r _ => lock s r = Some i
  | Release r _ => lock s r <> Some i
  | _ => False
  end.

Definition finished (p : prog) : Prop := p = Return.
Definition returned (p : prog) : bool := match p with Return => true | _ => false end.

Lemma returned_finished p : returned p = true <-> finished p.
Proof. by destruct p. Qed.

(** ** The invariant rule *)

Section rule.
Context {Gh : Type}.
Variables (Inv : shared -> (nat -> Gh) -> Prop)
          (head : nat -> L -> Gh -> Prop) (over : nat -> Gh -> Prop)
          (order : Gh -> Sm + Lk -> Prop) (during : nat -> Gh -> Z -> Prop).

(** Thread [i], which has come to [g], can run [p]: every step it may take keeps the
    invariant, whatever the other threads have done meanwhile. *)
Fixpoint ok (i : nat) (g : Gh) (p : prog) : Prop :=
  match p with
  | Loop l => head i l g
  | Return => over i g
  | Read f k => forall s G, G i = g -> Inv s G -> exists g', Inv s (upd G i g') /\ ok i g' (k (f (vars s)))
  | Get f k => forall s G, G i = g -> Inv s G ->
      exists x g', f (vars s) = Some x /\ Inv s (upd G i g') /\ ok i g' (k x)
  | Write f k => forall s G, G i = g -> Inv s G ->
      exists v g', f (vars s) = Some v /\ Inv (set_vars s v) (upd G i g') /\ ok i g' k
  | Choose k => forall x, 0 <= x -> ok i g (k x)
  | Delay x k => during i g x /\ ok i g k
  | P r k => order g (inl r) /\ forall s G, G i = g -> Inv s G ->
      0 <= sem s r /\ (0 < sem s r -> exists g', Inv (set_sem s r (sem s r - 1)) (upd G i g') /\ ok i g' k)
  | V r k => forall s G, G i = g -> Inv s G ->
      0 <= sem s r /\ exists g', Inv (set_sem s r (sem s r + 1)) (upd G i g') /\ ok i g' k
  | Destroy r k => forall s G, G i = g -> Inv s G ->
      0 <= sem s r /\ exists g', Inv (set_sem s r (-1)) (upd G i g') /\ ok i g' k
  | Acquire r k => order g (inr r) /\ forall s G, G i = g -> Inv s G ->
      lock s r <> Some i /\ (lock s r = None -> exists g', Inv (set_lock s r (Some i)) (upd G i g') /\ ok i g' k)
  | Release r k => forall s G, G i = g -> Inv s G ->
      lock s r = Some i /\ exists g', Inv (set_lock s r None) (upd G i g') /\ ok i g' k
  end.

Hypothesis code_ok : forall i l g, head i l g -> ok i g (code i l).

(** What holds of every reachable configuration. *)
Definition sound (c : config) (G : nat -> Gh) : Prop :=
  Inv (mem c) G /\ forall i p, progs c !! i = Some p -> ok i (G i) p.

Lemma upd_same {A} (G : nat -> A) i a : upd G i a i = a.
Proof. unfold upd. by rewrite decide_True. Qed.
Lemma upd_other {A} (G : nat -> A) i j a : j <> i -> upd G i a j = G j.
Proof. intros H. unfold upd. by rewrite decide_False. Qed.

Lemma tstep_ok i s p s' p' G : tstep i s p s' p' -> Inv s G -> ok i (G i) p ->
  exists G', Inv s' G' /\ ok i (G' i) p' /\ forall j, j <> i -> G' j = G j.
Proof.
  assert (forall s1 q g, Inv s1 (upd G i g) /\ ok i g q ->
    exists G', Inv s1 G' /\ ok i (G' i) q /\ forall j, j <> i -> G' j = G j) as Hgo.
  { intros s1 q g [H1 H2]. exists (upd G i g). rewrite upd_same. split; [done|]. split; [done|]. intros j Hj. by apply upd_other. }
  intros Hs HI Hok. destruct Hs; simpl in Hok.
  - exists G. eauto.
  - destruct (Hok s G eq_refl HI) as (g & Hg). by apply (Hgo _ _ g).
  - destruct (Hok s G eq_refl HI) as (v' & g & E & Hg). simplify_eq. by apply (Hgo _ _ g).
  - destruct (Hok s G eq_refl HI) as (v' & g & E & Hg). simplify_eq. by apply (Hgo _ _ g).
  - exists G. eauto.
  - exists G. destruct Hok. eauto.
  - destruct Hok as [_ Hok]. destruct (Hok s G eq_refl HI) as [_ H']. destruct H' as (g & Hg); [done|]. by apply (Hgo _ _ g).
  - destruct (Hok s G eq_refl HI) as [_ (g & Hg)]. by apply (Hgo _ _ g).
  - destruct (Hok s G eq_refl HI) as [_ (g & Hg)]. by apply (Hgo _ _ g).
  - destruct Hok as [_ Hok]. destruct (Hok s G eq_refl HI) as [_ H']. destruct H' as (g & Hg); [done|]. by apply (Hgo _ _ g).
  - destruct (Hok s G eq_refl HI) as [_ (g & Hg)]. by apply (Hgo _ _ g).
Qed.

Lemma step_sound c c' G : step c c' -> sound c G -> exists G', sound c' G'.
Proof.
  intros [i s ps p s' p' Hp Hs] [HI Hok]. simpl in *.
  destruct (tstep_ok _ _ _ _ _ _ Hs HI (Hok i p Hp)) as (G' & HI' & Hi & Hj). exists G'. split; [done|].
  simpl. intros j q Hq. destruct (decide (j = i)) as [->|Hne].
  - rewrite list_lookup_insert_eq in Hq by (by eapply lookup_lt_Some). by injection Hq as <-.
  - rewrite list_lookup_insert_ne in Hq by done. rewrite Hj by done. by apply Hok.
Qed.

Lemma sound_insert s' G' c i p' G : sound c G -> Inv s' G' -> (forall j, j <> i -> G' j = G j) ->
  ok i (G' i) p' -> sound (mk_config s' (<[i := p']> (progs c))) G'.
Proof.
  intros [_ Hok] HI Hs Hp. split; [done|]. simpl. intros j q Hq.
  apply list_lookup_insert_Some in Hq as [(<- & <- & _)|[Hne Hq]]; [done|]. rewrite Hs by done. by apply Hok.
Qed.

Lemma steps_sound c c' G : rtc step c c' -> sound c G -> exists G', sound c' G'.
Proof.
  intros H. revert G. induction H as [|c1 c2 c3 H1 _ IH]; intros G HG; [by exists G|].
  destruct (step_sound _ _ _ H1 HG) as [G2 HG2]. by apply (IH G2).
Qed.

(** No reachable configuration is about to fault. *)
Lemma sound_no_fault c G i p : sound c G -> progs c !! i = Some p -> ~ faults i (mem c) p.
Proof.
  intros [HI Hok] Hp. specialize (Hok i p Hp). destruct p; simpl in *; try tauto.
  - destruct (Hok _ G eq_refl HI) as (v & g & E & _). congruence.
  - destruct (Hok _ G eq_refl HI) as (v & g & E & _). congruence.
  - destruct Hok as [_ Hok]. destruct (Hok _ G eq_refl HI). lia.
  - destruct (Hok _ G eq_refl HI). lia.
  - destruct (Hok _ G eq_refl HI). lia.
  - destruct Hok as [_ Hok]. by destruct (Hok _ G eq_refl HI).
  - destruct (Hok _ G eq_refl HI) as [E _]. congruence.
Qed.

(** ** Running one thread *)

Definition taken (s : shared) (r : Sm + Lk) : Prop :=
  match r with inl x => sem s x <= 0 | inr x => lock s x <> None end.

(** Thread [i] can run, the others resting, until [stop] holds of it, or to the head of
    its loop or its end. *)
Definition gets_to (stop : Gh -> bool) (i : nat) (s : shared) (G : nat -> Gh) (ps : list prog) : Prop :=
  exists s' G' p', rtc step (mk_config s ps) (mk_config s' (<[i := p']> ps)) /\ Inv s' G' /\
    (forall j, j <> i -> G' j = G j) /\ ok i (G' i) p' /\ (stop (G' i) = true \/ (exists l, p' = Loop l) \/ p' = Return).

(** It does when it finds everything it asks for free. *)
Section solo.
Variables (stop : Gh -> bool) (Q : (nat -> Gh) -> Prop) (i : nat).
Hypothesis Q_others : forall G g, Q G -> Q (upd G i g).
Hypothesis Q_free : forall s G r, Inv s G -> Q G -> stop (G i) = false -> order (G i) r -> ~ taken s r.

Lemma run_step q s G ps s1 g :
  (forall s G ps, Inv s G -> Q G -> ok i (G i) q -> ps !! i = Some q -> gets_to stop i s G ps) ->
  (exists p, ps !! i = Some p /\ tstep i s p s1 q) -> Q G -> Inv s1 (upd G i g) -> ok i g q -> gets_to stop i s G ps.
Proof.
  intros IH (p & Hp & Hst) HQ HI Hok. pose proof (lookup_lt_Some _ _ _ Hp) as Hlen.
  destruct (IH s1 (upd G i g) (<[i := q]> ps)) as (s' & G' & p' & H1 & H2 & H3 & H4); auto.
  { by rewrite upd_same. } { by apply list_lookup_insert_eq. }
  exists s', G', p'. rewrite list_insert_insert_eq in H1. split; [eapply rtc_l; [by eapply step_thread|done]|].
  split; [done|]. split; [|done]. intros j Hj. rewrite H3 by done. by apply upd_other.
Qed.

(** A step without effect on the ghost values. *)
Lemma run_skip q s G ps :
  (forall s G ps, Inv s G -> Q G -> ok i (G i) q -> ps !! i = Some q -> gets_to stop i s G ps) ->
  (exists p, ps !! i = Some p /\ tstep i s p s q) -> Q G -> Inv s G -> ok i (G i) q -> gets_to stop i s G ps.
Proof.
  intros IH (p & Hp & Hst) HQ HI Hok. pose proof (lookup_lt_Some _ _ _ Hp) as Hlen.
  destruct (IH s G (<[i := q]> ps)) as (s' & G' & p' & H1 & H2 & H3 & H4); auto. { by apply list_lookup_insert_eq. }
  exists s', G', p'. rewrite list_insert_insert_eq in H1. split; [eapply rtc_l; [by eapply step_thread|done]|]. done.
Qed.

Lemma solo_until p : forall s G ps, Inv s G -> Q G -> ok i (G i) p -> ps !! i = Some p -> gets_to stop i s G ps.
Proof.
  assert (forall s G ps p', ps !! i = Some p' -> Inv s G -> ok i (G i) p' ->
    stop (G i) = true \/ (exists l, p' = Loop l) \/ p' = Return -> gets_to stop i s G ps) as Hstay.
  { intros s G ps p' Hp HI Hok Hp'. exists s, G, p'. rewrite list_insert_id by done. done. }
  induction p as [l| |f k IH|f k IH|f k IH|k IH|x k IH|r k IH|r k IH|r k IH|r k IH|r k IH]; intros s G ps HI HQ Hok Hp;
    (destruct (stop (G i)) eqn:Est; [by apply (Hstay _ _ _ _ Hp HI Hok); left|]);
    [by apply (Hstay _ _ _ _ Hp HI Hok); eauto|by apply (Hstay _ _ _ _ Hp HI Hok); eauto|..]; simpl in Hok.
  - destruct (Hok s G eq_refl HI) as (g & H1 & H2). apply (run_step (k (f (vars s))) s G ps s g); eauto using s_read.
  - destruct (Hok s G eq_refl HI) as (x & g & H0 & H1 & H2). apply (run_step (k x) s G ps s g); eauto using s_get.
  - destruct (Hok s G eq_refl HI) as (v & g & H0 & H1 & H2). eapply run_step; eauto using s_write.
  - apply (run_skip (k 0)); [exact (IH 0)| |done|done|by apply Hok]. exists (Choose k). split; [done|]. by apply s_choose.
  - destruct Hok. eapply run_skip; eauto using s_delay.
  - destruct Hok as [Ho Hok]. pose proof (Q_free s G _ HI HQ Est Ho) as Hf. simpl in Hf.
    destruct (Hok s G eq_refl HI) as (_ & Hp'). destruct Hp' as (g & H1 & H2); [lia|]. eapply run_step; eauto.
    exists (P r k). split; [done|]. apply s_P. lia.
  - destruct (Hok s G eq_refl HI) as (H0 & g & H1 & H2). eapply run_step; eauto using s_V.
  - destruct (Hok s G eq_refl HI) as (H0 & g & H1 & H2). eapply run_step; eauto using s_destroy.
  - destruct Hok as [Ho Hok]. pose proof (Q_free s G _ HI HQ Est Ho) as Hf. simpl in Hf.
    assert (lock s r = None) as El. { destruct (lock s r); [|done]. by destruct Hf. }
    destruct (Hok s G eq_refl HI) as (_ & H2). destruct (H2 El) as (g & H3 & H4).
    eapply run_step; eauto using s_acquire.
  - destruct (Hok s G eq_refl HI) as (H0 & g & H1 & H2). eapply run_step; eauto using s_release.
Qed.
End solo.

Definition gets_home (i : nat) (s : shared) (G : nat -> Gh) (ps : list prog) : Prop :=
  exists s' G' p', rtc step (mk_config s ps) (mk_config s' (<[i := p']> ps)) /\ Inv s' G' /\
    (forall j, j <> i -> G' j = G j) /\ ((exists l, p' = Loop l /\ head i l (G' i)) \/ p' = Return /\ over i (G' i)).

Lemma solo (Q : (nat -> Gh) -> Prop) (i : nat) : (forall G g, Q G -> Q (upd G i g)) ->
  (forall s G r, Inv s G -> Q G -> order (G i) r -> ~ taken s r) ->
  forall p s G ps, Inv s G -> Q G -> ok i (G i) p -> ps !! i = Some p -> gets_home i s G ps.
Proof.
  intros H1 H2 p s G ps HI HQ Hok Hp.
  destruct (solo_until (fun _ => false) Q i H1) with (p := p) (s := s) (G := G) (ps := ps)
    as (s' & G' & p' & K1 & K2 & K3 & K4 & [K5|[[l ->]| ->]]); try done.
  - intros s0 G0 r0 HI0 HQ0 _. by apply H2.
  - exists s', G', (Loop l). eauto 10.
  - exists s', G', Return. eauto 10.
Qed.

(** ** Absence of deadlock *)

(** What a thread holds according to its ghost value, and a rank for it. *)
Variables (n : nat) (held : Gh -> Sm + Lk -> Prop) (rank : Sm + Lk -> nat) (top : nat).
Hypothesis rank_top : forall r, (rank r < top)%nat.
Hypothesis order_ok : forall s G i r, (i < n)%nat -> Inv s G -> order (G i) r -> taken s r ->
  forall r', held (G i) r' -> (rank r' < rank r)%nat.
Hypothesis over_ok : forall i g, over i g -> forall r, ~ held g r.

(** What a thread asks for and cannot get is held by a thread. *)
Definition owned (s : shared) (G : nat -> Gh) : Prop :=
  forall i r, (i < n)%nat -> order (G i) r -> taken s r -> exists j, (j < n)%nat /\ held (G j) r.

Definition blocked (s : shared) (p : prog) : option (Sm + Lk) :=
  match p with
  | P r _ => if sem s r <=? 0 then Some (inl r) else None
  | Acquire r _ => match lock s r with Some _ => Some (inr r) | None => None end
  | _ => None
  end.

Lemma unblocked_steps c G i p : sound c G -> progs c !! i = Some p -> ~ finished p -> blocked (mem c) p = None ->
  exists c', step c c'.
Proof.
  intros Hs Hp Hf Hb. pose proof (sound_no_fault c G i p Hs Hp) as Hnf. destruct c as [s ps]. simpl in *.
  assert (forall s' p', tstep i s p s' p' -> exists c', step (mk_config s ps) c') as Hgo.
  { intros s' p' Ht. eexists. by eapply step_thread. }
  destruct p; simpl in *.
  - eapply Hgo, s_loop.
  - by destruct Hf.
  - eapply Hgo, s_read.
  - destruct (f (vars s)) eqn:E; [by eapply Hgo, s_get|done].
  - destruct (f (vars s)) eqn:E; [by eapply Hgo, s_write|done].
  - by eapply Hgo, (s_choose i s k 0).
  - eapply Hgo, s_delay.
  - eapply Hgo, s_P. destruct (Z.leb_spec (sem s s0) 0); [done|lia].
  - eapply Hgo, s_V. lia.
  - eapply Hgo, s_destroy. lia.
  - eapply Hgo, s_acquire. by destruct (lock s l).
  - destruct (decide (lock s l = Some i)); [by eapply Hgo, s_release|done].
Qed.

Lemma blocked_asks c G i p r : sound c G -> progs c !! i = Some p -> blocked (mem c) p = Some r ->
  order (G i) r /\ taken (mem c) r.
Proof.
  intros [HI Hok] Hp Hb. specialize (Hok i p Hp). destruct p; simpl in Hb, Hok; try done.
  - destruct (Z.leb_spec (sem (mem c) s) 0); [|done]. injection Hb as <-. by split; [apply Hok|].
  - destruct (lock (mem c) l) eqn:E; [|done]. injection Hb as <-. split; [apply Hok|simpl; congruence].
Qed.

(** A thread that waits for [r] leads to one that can step: the holder of [r], or
    one that waits for something of higher rank. *)
Lemma waiter_leads k c G i p r : sound c G -> length (progs c) = n -> owned (mem c) G -> (top - rank r <= k)%nat ->
  progs c !! i = Some p -> blocked (mem c) p = Some r -> exists c', step c c'.
Proof.
  intros Hs Hlen Hown. revert i p r. induction k as [|k IH]; intros i p r Hk Hp Hb; [specialize (rank_top r); lia|].
  destruct (blocked_asks c G i p r Hs Hp Hb) as [Ho Ht].
  destruct (Hown i r) as (j & Hj & Hh); [rewrite <- Hlen; by eapply lookup_lt_Some|done|done|].
  pose proof Hj as Hj'. rewrite <- Hlen in Hj'. apply lookup_lt_is_Some_2 in Hj' as [q Hq]. destruct (blocked (mem c) q) as [r'|] eqn:Eb.
  - apply (IH j q r'); [|done|done]. destruct (blocked_asks c G j q r' Hs Hq Eb) as [Ho' Ht'].
    pose proof Hs as [HI _]. specialize (order_ok _ _ _ _ Hj HI Ho' Ht' _ Hh). lia.
  - apply (unblocked_steps c G j q); [done|done| |done]. intros ->. destruct Hs as [_ Hok]. by apply (over_ok _ _ (Hok _ _ Hq) r).
Qed.

(** A sound configuration in which a thread is not finished can go on. *)
Lemma sound_progress c G i p : sound c G -> length (progs c) = n -> owned (mem c) G ->
  progs c !! i = Some p -> ~ finished p -> exists c', step c c'.
Proof.
  intros Hs Hlen Hown Hp Hf. destruct (blocked (mem c) p) as [r|] eqn:Eb.
  - eapply (waiter_leads top c G i p r); eauto. lia.
  - by eapply unblocked_steps.
Qed.

End rule.

(** ** The ends of a program *)

(** Wherever the program goes on at the head of the loop, or returns, [good] holds. *)
Fixpoint leaves (good : prog -> Prop) (p : prog) : Prop :=
  match p with
  | Loop _ | Return => good p
  | Read _ k | Get _ k | Choose k => forall x, leaves good (k x)
  | Write _ k | Delay _ k | P _ k | V _ k | Destroy _ k | Acquire _ k | Release _ k => leaves good k
  end.

Lemma ok_leaves {Gh} (Inv : shared -> (nat -> Gh) -> Prop) head over order during good i p : forall g,
  ok Inv head over order during i g p -> leaves good p ->
  ok Inv (fun i l g => head i l g /\ good (Loop l)) (fun i g => over i g /\ good Return) order during i g p.
Proof.
  induction p as [l| |f k IH|f k IH|f k IH|k IH|x k IH|r k IH|r k IH|r k IH|r k IH|r k IH]; simpl; intros g Hok Hl; try done.
  - intros s G Hg HI. destruct (Hok s G Hg HI) as (g' & H1 & H2). eauto.
  - intros s G Hg HI. destruct (Hok s G Hg HI) as (x & g' & H0 & H1 & H2). exists x, g'. eauto.
  - intros s G Hg HI. destruct (Hok s G Hg HI) as (v & g' & H0 & H1 & H2). exists v, g'. eauto.
  - eauto.
  - destruct Hok. eauto.
  - destruct Hok as [Ho Hok]. split; [done|]. intros s G Hg HI. destruct (Hok s G Hg HI) as (H0 & H1). split; [done|].
    intros Hs. destruct (H1 Hs) as (g' & H2 & H3). eauto.
  - intros s G Hg HI. destruct (Hok s G Hg HI) as (H0 & g' & H1 & H2). eauto.
  - intros s G Hg HI. destruct (Hok s G Hg HI) as (H0 & g' & H1 & H2). eauto.
  - destruct Hok as [Ho Hok]. split; [done|]. intros s G Hg HI. destruct (Hok s G Hg HI) as (H0 & H1). split; [done|].
    intros Hs. destruct (H1 Hs) as (g' & H2 & H3). eauto.
  - intros s G Hg HI. destruct (Hok s G Hg HI) as (H0 & g' & H1 & H2). eauto.
Qed.

(** ** Termination *)

(** What a thread may run after a step of [p]. *)
Definition after (i : nat) (p' p : prog) : Prop := exists s s', tstep i s p s' p'.

Ltac one_step := constructor; intros p' (s & s' & Hs); inversion Hs; subst; auto.

Lemma ends_return i : Acc (after i) Return.
Proof. one_step. Qed.
Lemma ends_loop i l : Acc (after i) (code i l) -> Acc (after i) (Loop l).
Proof. intros H. one_step. Qed.
Lemma ends_read i f k : (forall x, Acc (after i) (k x)) -> Acc (after i) (Read f k).
Proof. intros H. one_step. Qed.
Lemma ends_get i f k : (forall x, Acc (after i) (k x)) -> Acc (after i) (Get f k).
Proof. intros H. one_step. Qed.
Lemma ends_write i f k : Acc (after i) k -> Acc (after i) (Write f k).
Proof. intros H. one_step. Qed.
Lemma ends_choose i k : (forall x, Acc (after i) (k x)) -> Acc (after i) (Choose k).
Proof. intros H. one_step. Qed.
Lemma ends_delay i x k : Acc (after i) k -> Acc (after i) (Delay x k).
Proof. intros H. one_step. Qed.
Lemma ends_P i r k : Acc (after i) k -> Acc (after i) (P r k).
Proof. intros H. one_step. Qed.
Lemma ends_V i r k : Acc (after i) k -> Acc (after i) (V r k).
Proof. intros H. one_step. Qed.
Lemma ends_destroy i r k : Acc (after i) k -> Acc (after i) (Destroy r k).
Proof. intros H. one_step. Qed.
Lemma ends_acquire i r k : Acc (after i) k -> Acc (after i) (Acquire r k).
Proof. intros H. one_step. Qed.
Lemma ends_release i r k : Acc (after i) k -> Acc (after i) (Release r k).
Proof. intros H. one_step. Qed.

Lemma steps_acc c : (forall i p, progs c !! i = Some p -> Acc (after i) p) -> Acc (fun c' c => step c c') c.
Proof.
  intros H. remember (progs c) as l eqn:El. assert (Acc (one_of after) l) as Hl by (by apply one_of_acc).
  clear H. revert c El. induction Hl as [l _ IH]. intros c ->. constructor. intros c' Hs.
  apply (IH (progs c')); [|done]. destruct Hs as [i s ps p s' p' Hp Hs]. exists i, p, p'. simpl.
  split; [done|]. split; [by exists s, s'|done].
Qed.

End program.

Create HintDb ends.
#[export] Hint Resolve ends_return ends_read ends_get ends_write ends_choose ends_delay ends_P ends_V ends_destroy
  ends_acquire ends_release : ends.
#[export] Hint Extern 1 (Acc _ (if ?b then _ else _)) => destruct b : ends.

(** ** Sums over the threads *)

Fixpoint sum_n (n : nat) (f : nat -> Z) : Z := match n with O => 0 | S n' => sum_n n' f + f n' end.

Lemma sum_n_ext n f g : (forall j, (j < n)%nat -> f j = g j) -> sum_n n f = sum_n n g.
Proof. induction n; intros H; simpl; [done|]. rewrite IHn, H by auto with lia. done. Qed.

Lemma sum_n_upd {A} n (f : nat -> A -> Z) G i g : (i < n)%nat ->
  sum_n n (fun j => f j (upd G i g j)) = sum_n n (fun j => f j (G j)) - f i (G i) + f i g.
Proof.
  induction n as [|n IH]; intros Hi; [lia|]. simpl. destruct (decide (i = n)) as [->|Hne].
  - rewrite upd_same. rewrite (sum_n_ext n _ (fun j => f j (G j))); [lia|].
    intros j Hj. by rewrite upd_other by lia.
  - rewrite IH, upd_other by lia. lia.
Qed.

Lemma sum_n_nonneg n f : (forall j, (j < n)%nat -> 0 <= f j) -> 0 <= sum_n n f.
Proof. induction n; intros H; simpl; [done|]. pose proof (H n ltac:(lia)). assert (0 <= sum_n n f) by auto with lia. lia. Qed.

Lemma sum_n_ge n f i : (forall j, (j < n)%nat -> 0 <= f j) -> (i < n)%nat -> f i <= sum_n n f.
Proof.
  induction n as [|n IH]; intros H Hi; [lia|]. simpl. pose proof (H n ltac:(lia)).
  destruct (decide (i = n)) as [->|]; [pose proof (sum_n_nonneg n f ltac:(auto with lia)); lia|].
  assert (f i <= sum_n n f) by (apply IH; auto with lia). lia.
Qed.

Lemma sum_n_le n f b : (forall j, (j < n)%nat -> f j <= b) -> sum_n n f <= Z.of_nat n * b.
Proof. induction n as [|n IH]; intros H; simpl; [lia|]. pose proof (H n ltac:(lia)). specialize (IH ltac:(auto with lia)). lia. Qed.

Lemma sum_n_zero n f : (forall j, (j < n)%nat -> f j = 0) -> sum_n n f = 0.
Proof. induction n; intros H; simpl; [done|]. rewrite IHn, H by auto with lia. done. Qed.

Lemma sum_n_only n f i : (i < n)%nat -> (forall j, (j < n)%nat -> j <> i -> f j = 0) -> sum_n n f = f i.
Proof.
  induction n as [|n IH]; intros Hi H; [lia|]. simpl. destruct (decide (i = n)) as [->|Hne].
  - rewrite sum_n_zero; [lia|]. intros j Hj. apply H; lia.
  - rewrite IH, (H n); auto with lia.
Qed.

Lemma sum_n_mono n f g : (forall j, (j < n)%nat -> f j <= g j) -> sum_n n f <= sum_n n g.
Proof. induction n as [|n IH]; intros H; simpl; [done|]. pose proof (H n ltac:(lia)). specialize (IH ltac:(auto with lia)). lia. Qed.

Lemma sum_n_some n f : sum_n n f <> 0 -> exists j, (j < n)%nat /\ f j <> 0.
Proof.
  induction n as [|n IH]; simpl; intros H; [done|]. destruct (decide (f n = 0)) as [E|]; [|by exists n; auto].
  destruct IH as (j & Hj & Ej); [lia|]. exists j. auto with lia.
Qed.

(** Part of a sum. *)
Lemma sum_n_part n f l : (forall j, (j < n)%nat -> 0 <= f j) -> NoDup l -> Forall (fun j => (j < n)%nat) l ->
  foldr Z.add 0 (f <$> l) <= sum_n n f.
Proof.
  intros Hf Hd. revert f Hf. induction Hd as [|i l Hi _ IH]; intros f Hf Hl; [by apply sum_n_nonneg|].
  apply Forall_cons in Hl as [Hin Hl].
  assert (sum_n n (upd f i 0) = sum_n n f - f i + 0) as E by exact (sum_n_upd n (fun _ x => x) f i 0 Hin).
  rewrite fmap_cons. simpl. specialize (IH (upd f i 0)). rewrite E in IH.
  assert (upd f i 0 <$> l = f <$> l) as El.
  { apply list_fmap_ext. intros k j Hk. apply upd_other. intros ->. apply Hi. by eapply list_elem_of_lookup_2. }
  rewrite El in IH. cut (foldr Z.add 0 (f <$> l) <= sum_n n f - f i + 0); [lia|]. apply IH; [|done].
  intros j Hj. unfold upd. case_decide; [done|]. by apply Hf.
Qed.

(** ** The holder of a lock *)

(** The lock as thread [i] goes from holding it ([o]) to holding it ([n]) or not. *)
Definition next (o n : bool) (i : nat) (l : option nat) : option nat :=
  if o then (if n then l else None) else if n then Some i else l.

Lemma next_ok (N : nat) (H : nat -> bool) i n l : (i < N)%nat ->
  (forall j, l = Some j <-> (j < N)%nat /\ H j = true) -> (H i = false -> n = true -> l = None) ->
  forall j, next (H i) n i l = Some j <-> (j < N)%nat /\ upd H i n j = true.
Proof.
  intros Hi Hl Hn j. unfold next. destruct (decide (j = i)) as [->|Hne].
  - rewrite upd_same. destruct (H i) eqn:E, n; [rewrite Hl; naive_solver| | |rewrite Hl; naive_solver]; naive_solver.
  - rewrite upd_other by done. destruct (H i) eqn:E, n; [apply Hl| | |apply Hl].
    + split; [done|]. intros HH. apply Hl in HH. assert (l = Some i) by (apply Hl; auto). congruence.
    + specialize (Hn eq_refl eq_refl). subst. split; [intros; congruence|]. intros HH. apply Hl in HH. done.
Qed.
