(* ===== verification/CatLock.v ===== *)
(** * Cats and mice ([kern/asst1/catlock.c])

    Six cats and two mice share two bowls.  A thread is one animal; it takes part
    through the globals of the file and three locks.  The body of its loop is
    written access by access: [x++] reads and writes in two steps, and every
    test of a shared variable is a read of its own. *)

From Stdlib Require Import ZArith Lia Bool.
From stdpp Require Import base list numbers relations.
From S2P Require Import Prelude.
From S2P Require Import Conc.

Module CatLock.

Definition NCATS : nat := 6.
Definition NMICE : nat := 2.

Inductive kind : Set := Cat | Mouse.
Inductive bowl : Set := B1 | B2.
Inductive lk : Set := bowl_lock (b : bowl) | mutex.

#[export] Instance kind_eq_dec : EqDecision kind.
Proof. solve_decision. Defined.
#[export] Instance bowl_eq_dec : EqDecision bowl.
Proof. solve_decision. Defined.
#[export] Instance lk_eq_dec : EqDecision lk.
Proof. solve_decision. Defined.
#[export] Instance no_sem_dec : EqDecision Empty_set.
Proof. intros []. Defined.

(** The global variables. *)
Record globals : Type := mk_globals {
  bowl1 : Z;
  bowl2 : Z;
  cat_iteration : list Z;
  mouse_iteration : list Z;
  cat_eating : Z;
  mouse_eating : Z
}.

Definition init : globals := mk_globals 0 0 (replicate NCATS 0) (replicate NMICE 0) 0 0.

Definition get_bowl (b : bowl) (v : globals) : Z := match b with B1 => bowl1 v | B2 => bowl2 v end.
Definition set_bowl (b : bowl) (x : Z) (v : globals) : option globals :=
  Some match b with
       | B1 => mk_globals x (bowl2 v) (cat_iteration v) (mouse_iteration v) (cat_eating v) (mouse_eating v)
       | B2 => mk_globals (bowl1 v) x (cat_iteration v) (mouse_iteration v) (cat_eating v) (mouse_eating v)
       end.
Definition eating (k : kind) (v : globals) : Z := match k with Cat => cat_eating v | Mouse => mouse_eating v end.

(** Assignments to an [int]: nothing if the value does not fit. *)
Definition fits (x : Z) : bool := (INT_MIN <=? x) && (x <=? INT_MAX).
Definition set_eating (k : kind) (x : Z) (v : globals) : option globals :=
  if negb (fits x) then None
  else Some match k with
            | Cat => mk_globals (bowl1 v) (bowl2 v) (cat_iteration v) (mouse_iteration v) x (mouse_eating v)
            | Mouse => mk_globals (bowl1 v) (bowl2 v) (cat_iteration v) (mouse_iteration v) (cat_eating v) x
            end.
Definition iterations (k : kind) (v : globals) : list Z :=
  match k with Cat => cat_iteration v | Mouse => mouse_iteration v end.
Definition iteration (k : kind) (n : nat) (v : globals) : Z := default 0 (iterations k v !! n).
Definition set_iteration (k : kind) (n : nat) (x : Z) (v : globals) : option globals :=
  if negb (fits x && bool_decide (n < length (iterations k v))%nat) then None
  else Some match k with
            | Cat => mk_globals (bowl1 v) (bowl2 v) (<[n := x]> (cat_iteration v)) (mouse_iteration v) (cat_eating v) (mouse_eating v)
            | Mouse => mk_globals (bowl1 v) (bowl2 v) (cat_iteration v) (<[n := x]> (mouse_iteration v)) (cat_eating v) (mouse_eating v)
            end.

Definition bowlnumber (b : bowl) : Z := match b with B1 => 1 | B2 => 2 end.

Notation code_t := (prog (S := globals) (L := unit) (Sm := Empty_set) (Lk := lk)).

(** [lock_eat]: the delay is the meal. *)
Definition lock_eat (b : bowl) (k : code_t) : code_t := Delay (bowlnumber b) k.

Definition eat_food (who : kind) (num : nat) (b : bowl) (rest : code_t) : code_t :=
  Acquire (bowl_lock b)
  (Read (eating who) (fun x => Write (set_eating who (x + 1))
  (Write (set_bowl b 1)
  (Release mutex
  (Read (iteration who num) (fun _ => lock_eat b
  (Acquire mutex
  (Write (set_bowl b 0)
  (Release (bowl_lock b)
  (Read (eating who) (fun x => Write (set_eating who (x - 1))
  (Read (iteration who num) (fun x => Write (set_iteration who num (x + 1))
  rest))))))))))))).

Definition other (k : kind) : kind := match k with Cat => Mouse | Mouse => Cat end.

(** [lock_release(mutex);] and back to the test of the loop. *)
Definition leave : code_t := Release mutex (Loop tt).

(** [else if (bowl1==0) ... else if (bowl2==0) ...] *)
Definition one_bowl (who : kind) (num : nat) : code_t :=
  Read bowl1 (fun b1 =>
  if b1 =? 0 then eat_food who num B1 leave
  else Read bowl2 (fun b2 => if b2 =? 0 then eat_food who num B2 leave else leave)).

Definition choose_bowl (who : kind) (num : nat) : code_t :=
  Read bowl1 (fun b1 =>
  if b1 =? 0 then
    Read bowl2 (fun b2 =>
    if b2 =? 0 then
      Choose (fun r =>
        let rand := r mod 2 in
        if rand =? 0 then eat_food who num B1 leave
        else if rand =? 1 then eat_food who num B2 leave
        else leave)
    else one_bowl who num)
  else one_bowl who num).

(** [catlock] and [mouselock], which differ in the variables they use. *)
Definition animal (who : kind) (num : nat) : code_t :=
  Read (iteration who num) (fun it =>
  if it <? 4 then
    Acquire mutex
    (Read (eating (other who)) (fun o => if o =? 0 then choose_bowl who num else leave))
  else Return).

Definition catlock (num : nat) : code_t := animal Cat num.
Definition mouselock (num : nat) : code_t := animal Mouse num.

(** [catmouselock] starts the cats, then the mice. *)
Definition nthreads : nat := (NCATS + NMICE)%nat.
Definition who_is (i : nat) : kind := if decide (i < NCATS)%nat then Cat else Mouse.
Definition number (i : nat) : nat := if decide (i < NCATS)%nat then i else (i - NCATS)%nat.

Definition code (i : nat) (_ : unit) : code_t :=
  match who_is i with Cat => catlock (number i) | Mouse => mouselock (number i) end.

Definition start : config :=
  mk_config (mk_shared init (fun r : Empty_set => match r with end) (fun _ : lk => None)) (replicate nthreads (Loop tt)).

(** ** The invariant *)

(** What an animal holds, has done and knows: the mutex, the lock of a bowl, whether
    it set the bowl's flag and is counted as eating, its meals; and, while it holds
    the mutex, that nobody of the other kind eats, that flags are 0, the values of its
    kind's counter. *)
Record gh : Type := mk_gh {
  gm : bool;
  gb : option bowl;
  gf : bool;
  gc : bool;
  gi : Z;
  ko : bool;
  kb : bowl -> bool;
  ke : option Z
}.

Definition idle (n : Z) : gh := mk_gh false None false false n false (fun _ => false) None.

Definition flag_of (b : bowl) (g : gh) : Z := if decide (gb g = Some b) then (if gf g then 1 else 0) else 0.
Definition count_of (k : kind) (j : nat) (g : gh) : Z := if decide (who_is j = k) then (if gc g then 1 else 0) else 0.

(** A ghost value of its own. *)
Record gh_ok (g : gh) : Prop := {
  go_it : 0 <= gi g <= 4;
  go_flag : gf g = true -> gb g <> None /\ gc g = true;
  go_bowl : gb g <> None -> gf g = true \/ gm g = true;
  go_eat : gb g <> None -> gc g = true \/ ko g = true
}.

(** What it knows is true. *)
Record knows (j : nat) (g : gh) (v : globals) : Prop := {
  kn_mutex : gm g = false -> ko g = false /\ (forall b, kb g b = false) /\ ke g = None;
  kn_other : ko g = true -> eating (other (who_is j)) v = 0;
  kn_bowl b : kb g b = true -> get_bowl b v = 0;
  kn_eating x : ke g = Some x -> eating (who_is j) v = x
}.

Record inv (s : shared (S := globals) (Sm := Empty_set) (Lk := lk)) (G : nat -> gh) : Prop := {
  iv_mutex j : lock s mutex = Some j <-> (j < nthreads)%nat /\ gm (G j) = true;
  iv_bowl b j : lock s (bowl_lock b) = Some j <-> (j < nthreads)%nat /\ gb (G j) = Some b;
  iv_flag b : get_bowl b (vars s) = sum_n nthreads (fun j => flag_of b (G j));
  iv_count k : eating k (vars s) = sum_n nthreads (fun j => count_of k j (G j));
  iv_iter j : (j < nthreads)%nat -> iterations (who_is j) (vars s) !! number j = Some (gi (G j));
  iv_ok j : gh_ok (G j);
  iv_knows j : (j < nthreads)%nat -> knows j (G j) (vars s);
  iv_excl : eating Cat (vars s) = 0 \/ eating Mouse (vars s) = 0
}.

Lemma flag_range b g : 0 <= flag_of b g <= 1.
Proof. unfold flag_of. repeat case_match; lia. Qed.
Lemma cat_count_range k j g : 0 <= count_of k j g <= 1.
Proof. unfold count_of. repeat case_match; lia. Qed.

Definition has (b : bowl) (g : gh) : bool := bool_decide (gb g = Some b).

(** The part of the invariant that thread [i] is responsible for when it moves from
    [G i] to [g'] and the shared state to [s']. *)
Record move (s : shared (S := globals) (Sm := Empty_set) (Lk := lk)) (g : gh) (i : nat) (g' : gh)
    (s' : shared (S := globals) (Sm := Empty_set) (Lk := lk)) : Prop := {
  mv_mutex : lock s' mutex = next (gm g) (gm g') i (lock s mutex);
  mv_mutex_free : gm g = false -> gm g' = true -> lock s mutex = None;
  mv_bowl b : lock s' (bowl_lock b) = next (has b g) (has b g') i (lock s (bowl_lock b));
  mv_bowl_free b : has b g = false -> has b g' = true -> lock s (bowl_lock b) = None;
  mv_flag b : get_bowl b (vars s') = get_bowl b (vars s) - flag_of b g + flag_of b g';
  mv_count k : eating k (vars s') = eating k (vars s) - count_of k i g + count_of k i g';
  mv_iter k n : iterations k (vars s') !! n =
    if decide (k = who_is i /\ n = number i) then Some (gi g') else iterations k (vars s) !! n;
  mv_ok : gh_ok g';
  mv_knows : knows i g' (vars s');
  mv_excl : eating Cat (vars s') = 0 \/ eating Mouse (vars s') = 0;
  mv_own : vars s' = vars s \/ gm g = true
}.

Lemma ids_inj i j : (i < nthreads)%nat -> (j < nthreads)%nat -> who_is i = who_is j -> number i = number j -> i = j.
Proof. unfold who_is, number, nthreads. repeat case_decide; intros; try done; lia. Qed.

Lemma cat_inv_move s G i g' s' : inv s G -> (i < nthreads)%nat -> move s (G i) i g' s' -> inv s' (upd G i g').
Proof.
  intros HI Hi Hm. destruct HI, Hm. split.
  - intros j. rewrite mv_mutex0.
    rewrite (next_ok nthreads (fun j => gm (G j)) i (gm g') (lock s mutex) Hi iv_mutex0 mv_mutex_free0 j).
    unfold upd. by case_decide.
  - intros b j. rewrite mv_bowl0.
    rewrite (next_ok nthreads (fun j => has b (G j)) i (has b g') (lock s (bowl_lock b)) Hi); [| |apply mv_bowl_free0].
    + unfold upd, has. case_decide; by rewrite bool_decide_eq_true.
    + intros j'. unfold has. rewrite bool_decide_eq_true. apply iv_bowl0.
  - intros b. rewrite mv_flag0, iv_flag0. by rewrite (sum_n_upd nthreads (fun _ => flag_of b) G i g' Hi).
  - intros k. rewrite mv_count0, iv_count0. by rewrite (sum_n_upd nthreads (count_of k) G i g' Hi).
  - intros j Hj. rewrite mv_iter0. destruct (decide (j = i)) as [->|Hne]; [by rewrite upd_same, decide_True|].
    rewrite upd_other by done. rewrite decide_False; [by apply iv_iter0|]. intros [H1 H2]. apply Hne. by apply ids_inj.
  - intros j. unfold upd. by case_decide.
  - intros j Hj. destruct (decide (j = i)) as [->|Hne]; [by rewrite upd_same|]. rewrite upd_other by done.
    destruct mv_own0 as [-> |Hown]; [by apply iv_knows0|].
    assert (gm (G j) = false) as Hg.
    { destruct (gm (G j)) eqn:E; [|done]. assert (lock s mutex = Some j) by (apply iv_mutex0; auto).
      assert (lock s mutex = Some i) by (apply iv_mutex0; auto). congruence. }
    destruct (kn_mutex _ _ _ (iv_knows0 j Hj) Hg) as (K1 & K2 & K3). split; [done|congruence|..]; intros x; rewrite ?K2, ?K3; done.
  - done.
Qed.

(** ** The threads keep it *)

Definition no_kb : bowl -> bool := fun _ => false.
Definition g_mutex (n : Z) : gh := mk_gh true None false false n false no_kb None.
Definition g_alone (n : Z) (kb : bowl -> bool) : gh := mk_gh true None false false n true kb None.
Definition g_locked (n : Z) (b : bowl) (ke : option Z) : gh := mk_gh true (Some b) false false n true no_kb ke.
Definition g_counted (n : Z) (b : bowl) : gh := mk_gh true (Some b) false true n false no_kb None.
Definition g_flagged (n : Z) (b : bowl) : gh := mk_gh true (Some b) true true n false no_kb None.
Definition g_eating (n : Z) (b : bowl) : gh := mk_gh false (Some b) true true n false no_kb None.
Definition g_leaving (n : Z) (ke : option Z) : gh := mk_gh true None false true n false no_kb ke.

Definition head (goal : Z -> Prop) (i : nat) (_ : unit) (g : gh) : Prop := (i < nthreads)%nat /\ exists n, goal n /\ g = idle n.
Definition over (i : nat) (g : gh) : Prop := g = idle 4.
(** An animal asks for the mutex only without it, and for a bowl only when it knows
    that the bowl is free. *)
Definition order (g : gh) (r : Empty_set + lk) : Prop :=
  match r with
  | inl _ => True
  | inr mutex => gm g = false
  | inr (bowl_lock b) => gm g = true /\ gb g = None /\ kb g b = true
  end.

(** It eats when it is counted and has the bowl's lock. *)
Definition during (i : nat) (g : gh) (x : Z) : Prop :=
  exists b, x = bowlnumber b /\ gb g = Some b /\ gc g = true.

Notation ok_upto goal over := (ok inv (head goal) over order during).

(** What does not change when only the mutex changes hands. *)
Definition same (g g' : gh) : Prop := gb g' = gb g /\ gf g' = gf g /\ gc g' = gc g /\ gi g' = gi g.

Lemma inv_mutex s G i g' s' : inv s G -> (i < nthreads)%nat -> vars s' = vars s ->
  (forall b, lock s' (bowl_lock b) = lock s (bowl_lock b)) -> lock s' mutex = next (gm (G i)) (gm g') i (lock s mutex) ->
  (gm (G i) = false -> gm g' = true -> lock s mutex = None) -> same (G i) g' -> gh_ok g' -> knows i g' (vars s) ->
  inv s' (upd G i g').
Proof.
  intros HI Hi Ev Eb Em Hm (E2 & E3 & E4 & E5) Hok Hk. apply (cat_inv_move s G); [done|done|].
  split; unfold has, flag_of, count_of; rewrite ?Ev, ?Em, ?E2, ?E3, ?E4, ?E5; try done; try congruence.
  - intros b. rewrite Eb. unfold next. by destruct (bool_decide _).
  - intros b. rewrite ?E2. lia.
  - intros k. lia.
  - intros k n. case_decide as Hd; [|done]. destruct Hd as [-> ->]. by apply (iv_iter _ _ HI).
  - apply (iv_excl _ _ HI).
  - by left.
Qed.

(** A move that only changes what the thread knows. *)
Lemma cat_inv_know s G i g' : inv s G -> (i < nthreads)%nat -> gm g' = gm (G i) -> same (G i) g' -> gh_ok g' ->
  knows i g' (vars s) -> inv s (upd G i g').
Proof.
  intros HI Hi E1 Hs Hok Hk. apply (inv_mutex s); try done; rewrite E1; [|congruence]. unfold next. by destruct (gm (G i)).
Qed.

(** The flag of a bowl is the flag its holder set. *)
Lemma flag_holder s G i b : inv s G -> (i < nthreads)%nat -> gb (G i) = Some b -> get_bowl b (vars s) = if gf (G i) then 1 else 0.
Proof.
  intros HI Hi Hb. rewrite (iv_flag _ _ HI b). rewrite (sum_n_only nthreads _ i); [|done|].
  - unfold flag_of. by rewrite decide_True.
  - intros j Hj Hne. unfold flag_of. case_decide as Hd; [|done].
    assert (lock s (bowl_lock b) = Some j) by (by apply (iv_bowl _ _ HI)).
    assert (lock s (bowl_lock b) = Some i) by (by apply (iv_bowl _ _ HI)). congruence.
Qed.

Lemma count_bounds s G k : inv s G -> 0 <= eating k (vars s) <= Z.of_nat nthreads.
Proof.
  intros HI. rewrite (iv_count _ _ HI k). split.
  - apply sum_n_nonneg. intros; apply cat_count_range.
  - rewrite <- (Z.mul_1_r (Z.of_nat nthreads)). apply sum_n_le. intros; apply cat_count_range.
Qed.

Lemma count_own s G i : inv s G -> (i < nthreads)%nat -> gc (G i) = true -> 1 <= eating (who_is i) (vars s).
Proof.
  intros HI Hi Hc. rewrite (iv_count _ _ HI). transitivity (count_of (who_is i) i (G i)).
  - unfold count_of. rewrite decide_True by done. by rewrite Hc.
  - apply (sum_n_ge nthreads (fun j => count_of (who_is i) j (G j))); [|done]. intros; apply cat_count_range.
Qed.

Lemma other_idle s G i : inv s G -> (i < nthreads)%nat -> gc (G i) = true -> eating (other (who_is i)) (vars s) = 0.
Proof.
  intros HI Hi Hc. pose proof (count_own s G i HI Hi Hc). destruct (iv_excl _ _ HI), (who_is i); simpl in *; lia.
Qed.

(** *** The locks *)

Lemma acquire_mutex s G i g' : inv s G -> (i < nthreads)%nat -> gm (G i) = false -> lock s mutex = None ->
  gm g' = true -> same (G i) g' -> gh_ok g' -> knows i g' (vars s) -> inv (set_lock s mutex (Some i)) (upd G i g').
Proof. intros HI Hi Em El E1 Hs Hok Hk. apply (inv_mutex s); try done. by rewrite Em, E1. Qed.

Lemma release_mutex s G i g' : inv s G -> (i < nthreads)%nat -> gm (G i) = true ->
  gm g' = false -> same (G i) g' -> gh_ok g' -> knows i g' (vars s) -> inv (set_lock s mutex None) (upd G i g').
Proof. intros HI Hi Em E1 Hs Hok Hk. apply (inv_mutex s); try done; [by rewrite Em, E1|congruence]. Qed.

(** A lock of a bowl changes hands: from [None] or to it. *)
Lemma inv_bowl_lock s G i b g' o : inv s G -> (i < nthreads)%nat -> gm (G i) = true -> gm g' = true ->
  (gb (G i) = None /\ gb g' = Some b /\ lock s (bowl_lock b) = None /\ o = Some i \/
   gb (G i) = Some b /\ gb g' = None /\ o = None) ->
  gf (G i) = false -> gf g' = false -> gc g' = gc (G i) -> gi g' = gi (G i) -> gh_ok g' -> knows i g' (vars s) ->
  inv (set_lock s (bowl_lock b) o) (upd G i g').
Proof.
  intros HI Hi Em E1 Hb F1 F2 E4 E5 Hok Hk. apply (cat_inv_move s G); [done|done|].
  split; unfold has, flag_of, count_of; rewrite ?Em, ?E1, ?F1, ?F2, ?E4, ?E5; try done; try congruence; simpl.
  - intros b'. destruct (decide (b' = b)) as [->|Hne].
    + rewrite decide_True by done. destruct Hb as [(-> & -> & El & ->)|(-> & -> & ->)]; simpl.
      * by rewrite bool_decide_true.
      * by rewrite bool_decide_true.
    + rewrite decide_False by congruence. unfold next.
      destruct Hb as [(-> & -> & El & ->)|(-> & -> & ->)]; by repeat case_bool_decide; simplify_eq.
  - intros b'. destruct Hb as [(-> & -> & El & ->)|(-> & -> & ->)]; repeat case_bool_decide; naive_solver.
  - intros b'. repeat case_decide; lia.
  - intros k. lia.
  - intros k n. simpl. case_decide as Hd; [|done]. destruct Hd as [-> ->]. by apply (iv_iter _ _ HI).
  - apply (iv_excl _ _ HI).
  - by left.
Qed.

(** *** The variables *)

(** A write by the holder of the mutex, which keeps its locks. *)
Lemma inv_write s G i g' v : inv s G -> (i < nthreads)%nat -> gm (G i) = true -> gm g' = true -> gb g' = gb (G i) ->
  (forall b, get_bowl b v = get_bowl b (vars s) - flag_of b (G i) + flag_of b g') ->
  (forall k, eating k v = eating k (vars s) - count_of k i (G i) + count_of k i g') ->
  (forall k n, iterations k v !! n =
    if decide (k = who_is i /\ n = number i) then Some (gi g') else iterations k (vars s) !! n) ->
  gh_ok g' -> knows i g' v -> (eating Cat v = 0 \/ eating Mouse v = 0) -> inv (set_vars s v) (upd G i g').
Proof.
  intros HI Hi Em E1 E2 Hf Hc Hit Hok Hk He. apply (cat_inv_move s G); [done|done|].
  split; unfold has; rewrite ?Em, ?E1, ?E2; try done; try congruence; [|by right].
  intros b. unfold next. by destruct (bool_decide _).
Qed.

Lemma iter_kept s G i k n : inv s G -> (i < nthreads)%nat ->
  iterations k (vars s) !! n =
    if decide (k = who_is i /\ n = number i) then Some (gi (G i)) else iterations k (vars s) !! n.
Proof. intros HI Hi. case_decide as Hd; [|done]. destruct Hd as [-> ->]. by apply (iv_iter _ _ HI). Qed.

Lemma write_count s G i g' d v : inv s G -> (i < nthreads)%nat -> gm (G i) = true -> gm g' = true -> same (G i) (mk_gh (gm g') (gb g') (gf g') (gc (G i)) (gi g') (ko g') (kb g') (ke g')) ->
  set_eating (who_is i) (eating (who_is i) (vars s) + d) (vars s) = Some v ->
  d = count_of (who_is i) i g' - count_of (who_is i) i (G i) ->
  eating (other (who_is i)) (vars s) = 0 -> ko g' = false -> (forall b, kb g' b = false) -> ke g' = None -> gh_ok g' ->
  inv (set_vars s v) (upd G i g').
Proof.
  intros HI Hi Em E1 (E2 & E3 & _ & E5) Hv -> Ho K1 K2 K3 Hok. simpl in *.
  unfold set_eating in Hv. destruct (negb _); [done|]. injection Hv as <-.
  apply inv_write; try done.
  - intros b. unfold flag_of. rewrite E2, E3. destruct b, (who_is i); simpl; lia.
  - intros k. unfold count_of. destruct (who_is i), k; simpl; lia.
  - intros k n. rewrite E5, <- (iter_kept s G i k n) by done. by destruct k, (who_is i).
  - split; intros; simplify_eq; try congruence; rewrite K2 in *; done.
  - destruct (who_is i); simpl in *; auto.
Qed.

Lemma write_flag s G i b x g' v : inv s G -> (i < nthreads)%nat -> gm (G i) = true -> gm g' = true ->
  gb (G i) = Some b -> gb g' = Some b -> x = (if gf g' then 1 else 0) -> gc g' = gc (G i) -> gi g' = gi (G i) ->
  set_bowl b x (vars s) = Some v -> ko g' = false -> (forall b, kb g' b = false) -> ke g' = None -> gh_ok g' ->
  inv (set_vars s v) (upd G i g').
Proof.
  intros HI Hi Em E1 Eb Eb' -> E4 E5 Hv K1 K2 K3 Hok. pose proof (flag_holder s G i b HI Hi Eb) as Hfl.
  unfold set_bowl in Hv. injection Hv as <-. apply inv_write; try done; [congruence|..].
  - intros b'. unfold flag_of. rewrite Eb, Eb'. destruct b, b'; repeat case_decide; simplify_eq; simpl in *; lia.
  - intros k. unfold count_of. rewrite E4. destruct b, k; simpl; lia.
  - intros k n. rewrite E5, <- (iter_kept s G i k n) by done. by destruct b, k.
  - split; intros; simplify_eq; try congruence; rewrite K2 in *; done.
  - pose proof (iv_excl _ _ HI). by destruct b.
Qed.

Lemma write_iter s G i x g' v : inv s G -> (i < nthreads)%nat -> gm (G i) = true -> gm g' = true ->
  gb g' = gb (G i) -> gf g' = gf (G i) -> gc g' = gc (G i) -> gi g' = x ->
  set_iteration (who_is i) (number i) x (vars s) = Some v -> ko g' = false -> (forall b, kb g' b = false) -> ke g' = None ->
  gh_ok g' -> inv (set_vars s v) (upd G i g').
Proof.
  intros HI Hi Em E1 E2 E3 E4 E5 Hv K1 K2 K3 Hok. unfold set_iteration in Hv.
  pose proof (lookup_lt_Some _ _ _ (iv_iter _ _ HI i Hi)) as Hlt.
  destruct (negb _); [done|]. injection Hv as <-. apply inv_write; try done.
  - intros b. unfold flag_of. rewrite E2, E3. destruct b, (who_is i); simpl; lia.
  - intros k. unfold count_of. rewrite E4. destruct (who_is i), k; simpl; lia.
  - intros k n. rewrite E5. case_decide as Hd.
    + destruct Hd as [-> ->]. destruct (who_is i); simpl in *; by rewrite list_lookup_insert_eq.
    + destruct k, (who_is i); simpl; try done; rewrite list_lookup_insert_ne; naive_solver.
  - split; intros; simplify_eq; try congruence; rewrite K2 in *; done.
  - pose proof (iv_excl _ _ HI). by destruct (who_is i).
Qed.

(** *** The points of the program *)

Ltac ghost := split; simpl; intros; try done; try lia; try naive_solver congruence.

Section points.
Variables (goal : Z -> Prop) (ends : nat -> gh -> Prop) (i : nat) (Hi : (i < nthreads)%nat).
Notation cat_ok := (ok_upto goal ends).
Implicit Types n : Z.

Lemma ok_read (f : globals -> Z) (k : Z -> code_t) (g : gh) (g' : Z -> gh) :
  (forall v, gm (g' (f v)) = gm g /\ same g (g' (f v)) /\ (gh_ok g -> gh_ok (g' (f v))) /\ (knows i g v -> knows i (g' (f v)) v)) ->
  (forall s G, G i = g -> inv s G -> cat_ok i (g' (f (vars s))) (k (f (vars s)))) -> cat_ok i g (Read f k).
Proof.
  intros H Hk s G Hg HI. exists (g' (f (vars s))). split; [|by apply (Hk s G)].
  destruct (H (vars s)) as (H1 & H2 & H3 & H4). subst g. apply cat_inv_know; try done.
  - apply H3, HI.
  - by apply H4, HI.
Qed.

Lemma leave_ok n o k : goal n -> cat_ok i (mk_gh true None false false n o k None) leave.
Proof.
  intros Hgoal s G Hg HI. split; [apply (iv_mutex _ _ HI); by rewrite Hg|].
  exists (idle n). split; [|split; [done|by exists n]].
  pose proof (iv_ok _ _ HI i) as Ho. rewrite Hg in Ho. destruct Ho as [Hit _ _ _].
  apply release_mutex; rewrite ?Hg; try done; ghost.
Qed.

Definition with_ke (g : gh) (x : Z) : gh := mk_gh (gm g) (gb g) (gf g) (gc g) (gi g) (ko g) (kb g) (Some x).
Definition with_gc (g : gh) (c : bool) : gh := mk_gh (gm g) (gb g) (gf g) c (gi g) false no_kb None.

(** [( *animal_eating)++] and [--] *)
Lemma count_ok g c rest : gm g = true -> gc g = true \/ ko g = true ->
  (gh_ok g -> gh_ok (with_gc g c)) -> cat_ok i (with_gc g c) rest ->
  cat_ok i g (Read (eating (who_is i)) (fun x =>
    Write (set_eating (who_is i) (x + ((if c then 1 else 0) - (if gc g then 1 else 0)))) rest)).
Proof.
  intros Hm Hal Hok Hrest. apply (ok_read _ _ _ (with_ke g)).
  { intros v. split; [done|]. split; [done|]. split; intros []; split; simpl; try done; congruence. }
  intros s0 G0 Hg0 HI0. set (x := eating (who_is i) (vars s0)). intros s G Hg HI.
  assert (eating (who_is i) (vars s) = x) as Hx. { apply (iv_knows _ _ HI i Hi). by rewrite Hg. }
  pose proof (count_bounds s G (who_is i) HI) as Hb. rewrite Hx in Hb. rewrite <- Hx.
  assert (gh_ok g) as Hgok. { subst g. apply HI0. }
  assert (exists v, set_eating (who_is i) (eating (who_is i) (vars s) + ((if c then 1 else 0) - (if gc g then 1 else 0))) (vars s) = Some v) as [v Hv].
  { unfold set_eating. rewrite Hx. destruct (fits _) eqn:E; [by eexists|]. exfalso.
    unfold fits in E. unfold nthreads, NCATS, NMICE in Hb. unfold INT_MIN, INT_MAX in E. destruct c, (gc g); lia. }
  exists v, (with_gc g c). split; [done|]. split; [|done].
  eapply write_count; rewrite ?Hg; try done.
  - unfold count_of. by rewrite !decide_True.
  - destruct Hal as [Hc|Ho]; [apply (other_idle s G i HI Hi)|apply (iv_knows _ _ HI i Hi)]; by rewrite Hg.
  - by apply Hok.
Qed.

(** [( *iteration)++] *)
Lemma iter_ok n rest : n < 4 -> cat_ok i (g_mutex (n + 1)) rest ->
  cat_ok i (g_mutex n) (Read (iteration (who_is i) (number i)) (fun x =>
    Write (set_iteration (who_is i) (number i) (x + 1)) rest)).
Proof.
  intros Hn Hrest s G Hg HI. pose proof (iv_ok _ _ HI i) as Ho. rewrite Hg in Ho. destruct Ho as [Hit _ _ _]. simpl in Hit.
  exists (g_mutex n). split. { apply cat_inv_know; rewrite ?Hg; try done; ghost. }
  assert (iteration (who_is i) (number i) (vars s) = n) as ->.
  { unfold iteration. rewrite (iv_iter _ _ HI i Hi), Hg. done. }
  clear s G Hg HI. intros s G Hg HI. pose proof (iv_iter _ _ HI i Hi) as Hl. apply lookup_lt_Some in Hl.
  assert (exists v, set_iteration (who_is i) (number i) (n + 1) (vars s) = Some v) as [v Hv].
  { unfold set_iteration. rewrite bool_decide_true by done. replace (fits (n + 1)) with true; [by eexists|].
    unfold fits, INT_MIN, INT_MAX. lia. }
  exists v, (g_mutex (n + 1)). split; [done|]. split; [|done].
  eapply (write_iter s G i (n + 1)); rewrite ?Hg; try done. ghost.
Qed.

(** From the end of the meal on. *)
Lemma after_meal_ok n b rest : n < 4 -> cat_ok i (g_mutex (n + 1)) rest ->
  cat_ok i (g_eating n b)
    (Acquire mutex (Write (set_bowl b 0) (Release (bowl_lock b)
    (Read (eating (who_is i)) (fun x => Write (set_eating (who_is i) (x - 1))
    (Read (iteration (who_is i) (number i)) (fun x => Write (set_iteration (who_is i) (number i) (x + 1)) rest))))))).
Proof.
  intros Hn Hrest. split; [done|]. intros s G Hg HI.
  pose proof (iv_ok _ _ HI i) as Ho. rewrite Hg in Ho. destruct Ho as [Hit _ _ _]. simpl in Hit.
  split. { intros E. apply (iv_mutex _ _ HI) in E as [_ E]. by rewrite Hg in E. }
  intros El. exists (g_flagged n b). split. { apply acquire_mutex; rewrite ?Hg; try done; ghost. }
  clear s G Hg HI El. intros s G Hg HI. eexists _, (g_counted n b). split; [done|]. split.
  { eapply (write_flag s G i b 0); rewrite ?Hg; try done; ghost. }
  clear s G Hg HI. intros s G Hg HI. split; [apply (iv_bowl _ _ HI); by rewrite Hg|].
  exists (g_leaving n None). split. { apply inv_bowl_lock; rewrite ?Hg; try done; try (by right); ghost. }
  apply (count_ok (g_leaving n None) false); [done|by left|intros _; ghost|by apply iter_ok].
Qed.

Lemma eat_food_ok n b k : goal (n + 1) -> n < 4 -> k b = true -> cat_ok i (g_alone n k) (eat_food (who_is i) (number i) b leave).
Proof.
  intros Hgoal Hn Hk. split; [done|]. intros s G Hg HI.
  pose proof (iv_ok _ _ HI i) as Ho. rewrite Hg in Ho. destruct Ho as [Hit _ _ _]. simpl in Hit.
  pose proof (iv_knows _ _ HI i Hi) as Hkn. rewrite Hg in Hkn.
  split. { intros E. apply (iv_bowl _ _ HI) in E as [_ E]. by rewrite Hg in E. }
  intros El. exists (g_locked n b None). split.
  { apply inv_bowl_lock; rewrite ?Hg; try done; try (by left); destruct Hkn; ghost. }
  apply (count_ok (g_locked n b None) true); [done|by right|intros _; ghost|].
  clear s G Hg HI Hkn El. intros s G Hg HI. eexists _, (g_flagged n b). split; [done|]. split.
  { eapply (write_flag s G i b 1); rewrite ?Hg; try done; ghost. }
  clear s G Hg HI. intros s G Hg HI. split; [apply (iv_mutex _ _ HI); by rewrite Hg|].
  exists (g_eating n b). split. { apply release_mutex; rewrite ?Hg; try done; ghost. }
  clear s G Hg HI. apply (ok_read _ _ _ (fun _ => g_eating n b)); [done|]. intros _ _ _ _.
  split; [by exists b|]. apply after_meal_ok; [done|by apply leave_ok].
Qed.

(** Reading a flag. *)
Lemma read_flag_ok n k b (p : Z -> code_t) : (forall x k', (forall b', k b' = true -> k' b' = true) -> (x = 0 -> k' b = true) ->
    cat_ok i (g_alone n k') (p x)) ->
  cat_ok i (g_alone n k) (Read (get_bowl b) p).
Proof.
  intros H. apply (ok_read _ _ _ (fun x => g_alone n (fun b' => k b' || (bool_decide (b' = b) && (x =? 0))))).
  - intros v. split; [done|]. split; [done|]. split; intros []; split; simpl; try done.
    intros b' [Hb|[Hb Hx]%andb_prop]%orb_prop; [auto|]. apply bool_decide_eq_true in Hb as ->. by apply Z.eqb_eq.
  - intros s G _ _. apply H; [intros b' ->; done|]. intros ->. rewrite bool_decide_true by done. by rewrite orb_true_r.
Qed.

Hypotheses (any : forall n, goal n) (ends_over : ends i (idle 4)).

Lemma one_bowl_ok n k : n < 4 -> cat_ok i (g_alone n k) (one_bowl (who_is i) (number i)).
Proof.
  intros Hn. apply (read_flag_ok n k B1). intros x k1 _ H1. destruct (Z.eqb_spec x 0); [apply eat_food_ok; auto|].
  apply (read_flag_ok n k1 B2). intros y k2 _ H2. destruct (Z.eqb_spec y 0); [apply eat_food_ok|apply leave_ok]; auto.
Qed.

Lemma choose_bowl_ok n k : n < 4 -> cat_ok i (g_alone n k) (choose_bowl (who_is i) (number i)).
Proof.
  intros Hn. apply (read_flag_ok n k B1). intros x k1 _ H1. destruct (Z.eqb_spec x 0); [|by apply one_bowl_ok].
  apply (read_flag_ok n k1 B2). intros y k2 H2 H3. destruct (Z.eqb_spec y 0); [|by apply one_bowl_ok].
  intros r Hr. simpl. destruct (_ =? 0); [apply eat_food_ok; auto|].
  destruct (_ =? 1); [apply eat_food_ok|apply leave_ok]; auto.
Qed.

Lemma animal_ok n : cat_ok i (idle n) (animal (who_is i) (number i)).
Proof.
  intros s G Hg HI. pose proof (iv_ok _ _ HI i) as Ho. rewrite Hg in Ho. pose proof Ho as [Hit _ _ _]. simpl in Hit.
  exists (idle n). split. { apply cat_inv_know; rewrite ?Hg; try done; ghost. }
  assert (iteration (who_is i) (number i) (vars s) = n) as ->.
  { unfold iteration. rewrite (iv_iter _ _ HI i Hi), Hg. done. }
  destruct (Z.ltb_spec n 4); [|by replace n with 4 by lia].
  clear s G Hg HI. split; [done|]. intros s G Hg HI.
  split. { intros E. apply (iv_mutex _ _ HI) in E as [_ E]. by rewrite Hg in E. }
  intros El. exists (g_mutex n). split. { apply acquire_mutex; rewrite ?Hg; try done; ghost. }
  clear s G Hg HI El. apply (ok_read _ _ _ (fun x => if x =? 0 then g_alone n no_kb else g_mutex n)).
  - intros v. destruct (Z.eqb_spec (eating (other (who_is i)) v) 0); [|done].
    split; [done|]. split; [done|]. split; intros []; split; simpl; done.
  - intros s G _ _. destruct (_ =? 0); [by apply choose_bowl_ok|by apply leave_ok].
Qed.
End points.

Definition anywhere (n : Z) : Prop := True.

Lemma cat_code_ok i l g : head anywhere i l g -> ok_upto anywhere over i g (code i l).
Proof. intros (Hi & n & _ & ->). unfold code. pose proof (animal_ok anywhere over i Hi (fun _ => I) eq_refl n) as H. by destruct (who_is i). Qed.

Notation cat_sound := (sound inv (head anywhere) over order during).

Lemma cat_start_sound : cat_sound start (fun _ => idle 0).
Proof.
  split.
  - split.
    + naive_solver.
    + naive_solver.
    + intros b. rewrite sum_n_zero; by destruct b.
    + intros k. rewrite sum_n_zero; [by destruct k|]. intros j _. unfold count_of. by case_decide.
    + intros j Hj. assert (number j < if who_is j is Cat then NCATS else NMICE)%nat as Hn.
      { unfold number, who_is, nthreads in *. case_decide; simpl; lia. }
      destruct (who_is j); apply lookup_replicate; auto.
    + done.
    + intros j Hj. by split.
    + by left.
  - intros i p Hp. apply lookup_replicate in Hp as [-> Hi]. split; [done|]. by exists 0.
Qed.

(** The configurations of a run of [catmouselock]. *)
Definition reachable (c : config) : Prop := rtc (step code) start c.

Lemma cat_reachable_sound c : reachable c -> exists G, cat_sound c G /\ length (progs c) = nthreads.
Proof.
  intros H. destruct (steps_sound code inv (head anywhere) over order during cat_code_ok _ _ _ H cat_start_sound) as [G HG].
  exists G. split; [done|]. by rewrite (steps_length _ _ _ H).
Qed.

(** C36. While a cat eats no mouse does, and no two animals eat from the same bowl: in
    every interleaving of the eight threads, two of them that are both in [lock_eat]
    are of the same kind and at different bowls. *)
Theorem eaters_compatible c i j x y k k' : reachable c -> i <> j ->
  progs c !! i = Some (lock_eat x k) -> progs c !! j = Some (lock_eat y k') -> who_is i = who_is j /\ x <> y.
Proof.
  intros Hr Hne Hpi Hpj. destruct (cat_reachable_sound c Hr) as (G & [HI Hok] & Hlen).
  pose proof (lookup_lt_Some _ _ _ Hpi) as Hi. pose proof (lookup_lt_Some _ _ _ Hpj) as Hj. rewrite Hlen in Hi, Hj.
  destruct (Hok i _ Hpi) as [(b & Eb & Hb & Hc) _]. destruct (Hok j _ Hpj) as [(b' & Eb' & Hb' & Hc') _].
  assert (x = b) as <- by (by destruct x, b). assert (y = b') as <- by (by destruct y, b'). split.
  - pose proof (count_own _ _ i HI Hi Hc). pose proof (count_own _ _ j HI Hj Hc').
    destruct (iv_excl _ _ HI), (who_is i), (who_is j); done || lia.
  - intros ->. assert (lock (mem c) (bowl_lock y) = Some i) by (by apply (iv_bowl _ _ HI)).
    assert (lock (mem c) (bowl_lock y) = Some j) by (by apply (iv_bowl _ _ HI)). congruence.
Qed.

(** No thread ever acquires a lock that it already holds, releases one that it
    does not hold, overflows a counter or writes outside the arrays; and an animal
    that returns has eaten four times. *)
Theorem animals_safe c i p : reachable c -> progs c !! i = Some p ->
  ~ faults i (mem c) p /\ (p = Return -> iteration (who_is i) (number i) (vars (mem c)) = 4).
Proof.
  intros Hr Hp. destruct (cat_reachable_sound c Hr) as (G & Hs & Hlen). split; [by eapply sound_no_fault|].
  intros ->. destruct Hs as [HI Hok]. specialize (Hok _ _ Hp). simpl in Hok. unfold over in Hok.
  pose proof (lookup_lt_Some _ _ _ Hp) as Hi. rewrite Hlen in Hi.
  unfold iteration. by rewrite (iv_iter _ _ HI i Hi), Hok.
Qed.

(** ** Getting to the end *)

Lemma order_free s G i r : inv s G -> (i < nthreads)%nat -> (forall j, (j < nthreads)%nat -> j <> i -> gm (G j) = false) -> order (G i) r -> ~ taken s r.
Proof.
  intros HI Hi Hm Ho Ht. destruct r as [[]|[b|]]; simpl in *.
  - destruct Ho as (Hg & Hn & Hk), (lock s (bowl_lock b)) as [j|] eqn:El; [|done].
    apply (iv_bowl _ _ HI) in El as [Hj Hb]. destruct (decide (j = i)) as [->|Hne]; [congruence|].
    pose proof (flag_holder _ _ _ _ HI Hj Hb) as Hf. rewrite (kn_bowl _ _ _ (iv_knows _ _ HI i Hi) b Hk) in Hf.
    destruct (go_bowl _ (iv_ok _ _ HI j)) as [H|H]; [congruence|by rewrite H in Hf|]. rewrite Hm in H; done.
  - destruct (lock s mutex) as [j|] eqn:El; [|done]. apply (iv_mutex _ _ HI) in El as [Hj Hb].
    destruct (decide (j = i)) as [->|Hne]; [congruence|]. rewrite Hm in Hb; done.
Qed.

(** A thread between two rounds or at its end. *)
Definition rests (c : config) (i : nat) : Prop := progs c !! i = Some (Loop tt : code_t) \/ progs c !! i = Some (Return : code_t).

Lemma rests_idle c G i : cat_sound c G -> rests c i -> exists n, G i = idle n.
Proof.
  intros [_ Hok] [Hp|Hp]; specialize (Hok _ _ Hp); simpl in Hok; [destruct Hok as (_ & n & _ & ->)|rewrite Hok]; eauto.
Qed.

(** While nobody else has the mutex, thread [i] can be run until it rests. *)
Lemma home c G i : cat_sound c G -> (i < length (progs c))%nat -> length (progs c) = nthreads ->
  (forall j, (j < nthreads)%nat -> j <> i -> gm (G j) = false) ->
  exists c' G', rtc (step code) c c' /\ cat_sound c' G' /\ (forall j, j <> i -> G' j = G j) /\
    (forall j, j <> i -> progs c' !! j = progs c !! j) /\ rests c' i.
Proof.
  intros Hs Hi Hlen Hm. pose proof Hs as [HI Hok]. pose proof (lookup_lt_is_Some_2 _ _ Hi) as [p Hp].
  destruct (solo code inv (head anywhere) over order during (fun G => forall j, (j < nthreads)%nat -> j <> i -> gm (G j) = false) i)
    with (p := p) (s := mem c) (G := G) (ps := progs c) as (s' & G' & p' & H1 & H2 & H3 & H4); auto.
  { intros G1 g HG j Hj Hne. rewrite upd_other by done. auto. }
  { intros s1 G1 r HI1 HG Ho. apply (order_free s1 G1 i); auto. lia. }
  exists (mk_config s' (<[i := p']> (progs c))), G'. split; [by destruct c|]. split; [|split; [done|split]].
  - eapply sound_insert; eauto. destruct H4 as [(l & -> & H4)|[-> H4]]; done.
  - intros j Hj. simpl. by rewrite list_lookup_insert_ne.
  - unfold rests. simpl. rewrite list_lookup_insert_eq by done.
    destruct H4 as [([] & -> & _)|[-> _]]; auto.
Qed.

(** Nobody holds the mutex. *)
Definition unlocked (G : nat -> gh) : Prop := forall j, (j < nthreads)%nat -> gm (G j) = false.

Lemma mutex_other s G j : inv s G -> (j < nthreads)%nat -> lock s mutex <> Some j -> gm (G j) = false.
Proof. intros HI Hj Hne. destruct (gm (G j)) eqn:E; [|done]. destruct Hne. by apply (iv_mutex _ _ HI). Qed.

Lemma mutex_free c G : cat_sound c G -> length (progs c) = nthreads ->
  exists c' G', rtc (step code) c c' /\ cat_sound c' G' /\ unlocked G'.
Proof.
  intros Hs Hlen. pose proof Hs as [HI _]. destruct (lock (mem c) mutex) as [h|] eqn:El.
  - pose proof El as [Hh Hg]%(iv_mutex _ _ HI). destruct (home c G h) as (c' & G' & H1 & H2 & H3 & H4 & H5); [done|lia|done|..].
    { intros j Hj Hne. eapply mutex_other; [done|done|congruence]. }
    exists c', G'. split; [done|]. split; [done|]. intros j Hj.
    destruct (decide (j = h)) as [->|Hne]; [destruct (rests_idle _ _ _ H2 H5) as [n ->]; done|]. rewrite H3 by done.
    eapply mutex_other; [done|done|congruence].
  - exists c, G. split; [constructor|]. split; [done|]. intros j Hj.
    eapply mutex_other; [done|done|congruence].
Qed.

Lemma quiesce c G k : cat_sound c G -> length (progs c) = nthreads -> unlocked G -> (k <= nthreads)%nat ->
  exists c' G', rtc (step code) c c' /\ cat_sound c' G' /\ unlocked G' /\ forall j, (j < k)%nat -> rests c' j.
Proof.
  intros Hs Hlen Hu. induction k as [|k IH]; intros Hk. { exists c, G. split; [constructor|]. split; [done|]. split; [done|]. lia. }
  destruct IH as (c1 & G1 & H1 & H2 & H3 & H4); [lia|]. pose proof (steps_length _ _ _ H1) as Hl.
  destruct (home c1 G1 k) as (c' & G' & K1 & K2 & K3 & K4 & K5); [done|lia|lia|intros; by apply H3|].
  exists c', G'. split; [by etrans|]. split; [done|]. split.
  - intros j Hj. destruct (decide (j = k)) as [->|Hne]; [destruct (rests_idle _ _ _ K2 K5) as [n ->]; done|].
    rewrite K3 by done. by apply H3.
  - intros j Hj. destruct (decide (j = k)) as [->|Hne]; [done|]. unfold rests. rewrite K4 by done. apply H4. lia.
Qed.

(** When everybody rests, nothing is held, counted or flagged. *)
Definition at_rest (c : config) : Prop := forall j, (j < nthreads)%nat -> rests c j.

Lemma rest_clear c G : cat_sound c G -> at_rest c ->
  lock (mem c) mutex = None /\ (forall k, eating k (vars (mem c)) = 0) /\ (forall b, get_bowl b (vars (mem c)) = 0).
Proof.
  intros Hs Hr. pose proof Hs as [HI _].
  assert (forall j, (j < nthreads)%nat -> exists n, G j = idle n) as Hid. { intros j Hj. eapply rests_idle; eauto. }
  split; [|split].
  - destruct (lock (mem c) mutex) as [j|] eqn:El; [|done]. apply (iv_mutex _ _ HI) in El as [Hj Hg].
    destruct (Hid j Hj) as [n E]. by rewrite E in Hg.
  - intros k. rewrite (iv_count _ _ HI). apply sum_n_zero. intros j Hj. destruct (Hid j Hj) as [n ->].
    unfold count_of. by case_decide.
  - intros b. rewrite (iv_flag _ _ HI). apply sum_n_zero. intros j Hj. by destruct (Hid j Hj) as [n ->].
Qed.

(** The way from the head of the loop to the first bowl when everybody rests. *)
Lemma to_the_bowl c G i n : cat_sound c G -> at_rest c -> (i < nthreads)%nat -> G i = idle n -> n < 4 ->
  tsteps code i (mem c, Loop tt) (set_lock (mem c) mutex (Some i), eat_food (who_is i) (number i) B1 leave).
Proof.
  intros Hs Hr Hi Hg Hn. destruct (rest_clear c G Hs Hr) as (El & Hc & Hf). pose proof Hs as [HI _].
  assert (iteration (who_is i) (number i) (vars (mem c)) = n) as Hit.
  { unfold iteration. by rewrite (iv_iter _ _ HI i Hi), Hg. }
  eapply tsteps_l; [apply (s_loop code)|]. simpl. replace (code i tt) with (animal (who_is i) (number i)); [|unfold code; by destruct (who_is i)].
  eapply tsteps_l; [apply (s_read code)|]. simpl. rewrite Hit. replace (n <? 4) with true by lia.
  eapply tsteps_l; [by apply (s_acquire code)|]. simpl.
  eapply tsteps_l; [apply (s_read code)|]. simpl. rewrite Hc. simpl.
  eapply tsteps_l; [apply (s_read code)|]. simpl. rewrite (Hf B1 : bowl1 _ = 0). simpl.
  eapply tsteps_l; [apply (s_read code)|]. simpl. rewrite (Hf B2 : bowl2 _ = 0). simpl.
  eapply tsteps_l; [by apply (s_choose code _ _ _ 0)|]. simpl. apply rtc_refl.
Qed.

(** One more meal. *)
Lemma one_meal c G i n : cat_sound c G -> at_rest c -> (i < nthreads)%nat -> length (progs c) = nthreads ->
  progs c !! i = Some (Loop tt) -> G i = idle n -> n < 4 ->
  exists c' G', rtc (step code) c c' /\ cat_sound c' G' /\ progs c' = progs c /\ G' i = idle (n + 1).
Proof.
  intros Hs Hr Hi Hlen Hp Hg Hn. destruct (rest_clear c G Hs Hr) as (El & Hc & Hf). pose proof Hs as [HI _].
  pose proof (to_the_bowl c G i n Hs Hr Hi Hg Hn) as Hway. eapply tsteps_steps in Hway; [|done].
  set (s1 := set_lock (mem c) mutex (Some i)) in *. set (G1 := upd G i (g_alone n (fun _ => true))).
  assert (inv s1 G1) as HI1.
  { pose proof (iv_ok _ _ HI i) as Ho. rewrite Hg in Ho. destruct Ho as [Hit _ _ _]. simpl in Hit.
    apply acquire_mutex; rewrite ?Hg; try done; ghost. }
  destruct (solo code inv (head (eq (n + 1))) (fun _ _ => False) order during
      (fun G => forall j, (j < nthreads)%nat -> j <> i -> gm (G j) = false) i)
    with (p := eat_food (who_is i) (number i) B1 leave) (s := s1) (G := G1)
      (ps := <[i := eat_food (who_is i) (number i) B1 leave]> (progs c)) as (s' & G' & p' & H1 & H2 & H3 & H4).
  - intros G2 g HG j Hj Hne. rewrite upd_other by done. auto.
  - intros s2 G2 r HI2 HG Ho. by apply (order_free s2 G2 i).
  - done.
  - intros j Hj Hne. unfold G1. rewrite upd_other by done. destruct (rests_idle c G j Hs (Hr j Hj)) as [m ->]. done.
  - unfold G1. rewrite upd_same. by apply eat_food_ok.
  - apply list_lookup_insert_eq. lia.
  - destruct H4 as [([] & -> & _ & m & <- & Hm)|[_ []]]. exists (mk_config s' (progs c)), G'.
    rewrite list_insert_insert_eq, (list_insert_id (progs c) i (Loop tt)) in H1 by done. split; [|split; [|done]].
    + destruct c as [s0 ps]. simpl in *. by etrans.
    + pose proof (sound_insert inv (head anywhere) over order during s' G' c i (Loop tt) G Hs H2) as Hsi. rewrite list_insert_id in Hsi by done. apply Hsi.
      * intros j Hj. rewrite H3 by done. unfold G1. by rewrite upd_other.
      * split; [done|]. by exists (n + 1).
Qed.

(** A thread can eat what is left of its four meals and return. *)
Lemma finish_one d c G i n : cat_sound c G -> at_rest c -> (i < nthreads)%nat -> length (progs c) = nthreads ->
  G i = idle n -> 4 - n = Z.of_nat d -> progs c !! i = Some (Loop tt) ->
  exists c' G', rtc (step code) c c' /\ cat_sound c' G' /\ progs c' = <[i := Return]> (progs c).
Proof.
  intros Hs. revert c G n Hs. induction d as [|d IH]; intros c G n Hs Hr Hi Hlen Hg Hd Hp.
  - pose proof Hs as [HI _]. exists (mk_config (mem c) (<[i := Return]> (progs c))), G. split; [|split; [|done]].
    + destruct c as [s ps]. eapply (tsteps_steps code i s (Loop tt)); [|done].
      eapply tsteps_l; [apply (s_loop code)|]. replace (code i tt) with (animal (who_is i) (number i)); [|unfold code; by destruct (who_is i)].
      eapply tsteps_l; [apply (s_read code)|]. unfold iteration. simpl in *. rewrite (iv_iter _ _ HI i Hi), Hg. simpl.
      replace (n <? 4) with false by lia. apply rtc_refl.
    + eapply sound_insert; [done|done|done|]. simpl. unfold over. rewrite Hg. by replace n with 4 by lia.
  - destruct (one_meal c G i n) as (c1 & G1 & H1 & H2 & H3 & H4); try done; [lia|].
    destruct (IH c1 G1 (n + 1)) as (c' & G' & K1 & K2 & K3); try done; [|congruence|lia|congruence|].
    { intros j Hj. unfold rests. rewrite H3. by apply Hr. }
    exists c', G'. split; [by etrans|]. split; [done|]. congruence.
Qed.

Lemma finish_all c G k : cat_sound c G -> at_rest c -> length (progs c) = nthreads -> (k <= nthreads)%nat ->
  exists c' G', rtc (step code) c c' /\ cat_sound c' G' /\ at_rest c' /\ forall j, (j < k)%nat -> progs c' !! j = Some Return.
Proof.
  intros Hs Hr Hlen. induction k as [|k IH]; intros Hk. { exists c, G. split; [constructor|]. split; [done|]. split; [done|]. lia. }
  destruct IH as (c1 & G1 & H1 & H2 & H3 & H4); [lia|]. pose proof (steps_length _ _ _ H1) as Hl.
  assert (forall j, (j < S k)%nat -> j <> k -> progs c1 !! j = Some Return) as Hbelow. { intros; apply H4; lia. }
  destruct (H3 k Hk) as [Hp|Hp].
  - destruct (rests_idle c1 G1 k H2 (H3 k Hk)) as [n Hg]. assert (0 <= n <= 4) as Hn.
    { destruct H2 as [HI _]. pose proof (iv_ok _ _ HI k) as [Ho _ _ _]. by rewrite Hg in Ho. }
    destruct (finish_one (Z.to_nat (4 - n)) c1 G1 k n) as (c' & G' & K1 & K2 & K3); try done; [lia|lia|].
    assert (forall j, progs c' !! j = if decide (j = k) then Some Return else progs c1 !! j) as Hc'.
    { intros j. rewrite K3. case_decide as Hd; [subst; apply list_lookup_insert_eq; lia|by apply list_lookup_insert_ne]. }
    exists c', G'. split; [by etrans|]. split; [done|].
    split; intros j Hj; unfold rests; rewrite Hc'; case_decide; auto. by apply H3.
  - exists c1, G1. split; [done|]. split; [done|]. split; [done|]. intros j Hj.
    destruct (decide (j = k)) as [->|Hne]; auto.
Qed.

(** C37. The animals can always be fed: from every configuration the eight threads can
    reach, however they were interleaved so far, there is a way to go on in which all of
    them return. So no interleaving leads to a deadlock, nor to a state in which an
    animal can only spin. *)
Theorem animals_can_finish c : reachable c ->
  exists c', rtc (step code) c c' /\ forall j, (j < nthreads)%nat -> progs c' !! j = Some Return.
Proof.
  intros Hr. destruct (cat_reachable_sound c Hr) as (G & Hs & Hlen).
  destruct (mutex_free c G Hs Hlen) as (c1 & G1 & H1 & H2 & H3). pose proof (steps_length _ _ _ H1) as Hl1.
  destruct (quiesce c1 G1 nthreads H2) as (c2 & G2 & K1 & K2 & K3 & K4); [lia|done|done|]. pose proof (steps_length _ _ _ K1) as Hl2.
  destruct (finish_all c2 G2 nthreads K2 K4) as (c3 & G3 & M1 & M2 & M3 & M4); [lia|done|].
  exists c3. split; [|done]. do 2 (etrans; [done|]). done.
Qed.

(** ** An execution *)

(** Two cats on their way to the bowls: the first takes bowl 1, the second finds it
    occupied and takes bowl 2. *)
Definition two_cats : list (nat * Z) := replicate 13 (0%nat, 0) ++ replicate 13 (1%nat, 0).
Definition both_eat : config := default start (sched code two_cats start).
Definition meal_of (c : config) (i : nat) : code_t := match progs c !! i with Some (Delay _ k) => k | _ => Return end.
Definition eats_at (c : config) (i : nat) (b : bowl) : bool :=
  match (progs c !! i : option code_t) with Some (Delay x _) => x =? bowlnumber b | _ => false end.

Lemma eats_at_meal c i b : eats_at c i b = true -> progs c !! i = Some (lock_eat b (meal_of c i)).
Proof.
  unfold eats_at, meal_of, lock_eat. destruct (progs c !! i) as [[]|]; try done. intros H. apply Z.eqb_eq in H. by subst.
Qed.

Lemma both_eat_reachable : reachable both_eat.
Proof.
  assert (is_Some (sched code two_cats start)) as [c Hc].
  { rewrite <- not_eq_None_Some. intros H. assert (match sched code two_cats start with Some _ => true | None => false end = true) as H'.
    { vm_compute. reflexivity. } by rewrite H in H'. }
  unfold both_eat. rewrite Hc. by apply (sched_steps code two_cats).
Qed.

Lemma eaters_compatible_witness :
  progs both_eat !! 0%nat = Some (lock_eat B1 (meal_of both_eat 0)) /\
  progs both_eat !! 1%nat = Some (lock_eat B2 (meal_of both_eat 1)) /\ who_is 0 = who_is 1 /\ B1 <> B2.
Proof.
  assert (eats_at both_eat 0 B1 = true) as H0 by (vm_compute; reflexivity).
  assert (eats_at both_eat 1 B2 = true) as H1 by (vm_compute; reflexivity).
  split; [by apply eats_at_meal|]. split; [by apply eats_at_meal|].
  apply (eaters_compatible both_eat 0 1 B1 B2 (meal_of both_eat 0) (meal_of both_eat 1)).
  - apply both_eat_reachable.
  - discriminate.
  - by apply eats_at_meal.
  - by apply eats_at_meal.
Defined.

Lemma animals_safe_witness : ~ faults 0 (mem both_eat) (lock_eat B1 (meal_of both_eat 0)) /\
  (lock_eat B1 (meal_of both_eat 0) = Return -> iteration (who_is 0) (number 0) (vars (mem both_eat)) = 4).
Proof. apply animals_safe; [apply both_eat_reachable|apply eats_at_meal; vm_compute; reflexivity]. Defined.

Lemma animals_can_finish_witness :
  exists c', rtc (step code) both_eat c' /\ forall j, (j < nthreads)%nat -> progs c' !! j = Some Return.
Proof. apply (animals_can_finish both_eat). apply both_eat_reachable. Defined.

End CatLock.
