(* ===== verification/Stoplight.v ===== *)
(** * The stoplight ([kern/asst1/stoplight.c])

    Twenty cars cross an intersection of four regions.  A thread is one car: it
    queues in the lane of its direction, enters the intersection when it is first
    in the lane and its region is free, moves from region to region, and leaves.
    The code is written access by access in the language of [Conc]: [P] and [V] on
    the nine semaphores, reads and writes of [region], [num_cars] and the lanes.

    The lanes are the ring buffers of [Queue]; they hold pointers to the
    parameter [carnumber] on the stack of the waiting thread, so a car that looks
    at the first pointer after it let go of the lane may look at the stack of a
    thread that is gone.  [left_behind c] is what the stack of car [c] holds then.

    What the two calls of [random()] give car [c] is [rnd1 c] and [rnd2 c]. *)

From Stdlib Require Import ZArith Lia Bool.
From stdpp Require Import base list numbers relations.
From S2P Require Import Prelude.
From S2P Require Import Queue.
From S2P Require Import Conc.

Module Stoplight.

Definition NCARS : nat := 20.

Inductive sm : Set := numcars_sem | access (r : Z) | q_sem (d : Z).

#[export] Instance sm_eq_dec : EqDecision sm.
Proof. solve_decision. Defined.
#[export] Instance no_lock_dec : EqDecision Empty_set.
Proof. intros []. Defined.

(** The global variables; besides them the last message of each car, and which threads
    have come to the end of [approachintersection]. *)
Record globals : Type := mk_globals {
  region : list Z;
  num_cars : Z;
  lane : Z -> Queue.queue (P := nat);
  car_route : nat -> list Z;
  said : nat -> Z;
  exited : nat -> bool
}.

Definition set_region (r x : Z) (v : globals) : option globals :=
  if (0 <=? r) && (r <? Z.of_nat (length (region v)))
  then Some (mk_globals (<[Z.to_nat r := x]> (region v)) (num_cars v) (lane v) (car_route v) (said v) (exited v))
  else None.
Definition get_region (r : Z) (v : globals) : option Z := if 0 <=? r then region v !! Z.to_nat r else None.

Definition set_num_cars (x : Z) (v : globals) : option globals :=
  if (INT_MIN <=? x) && (x <=? INT_MAX)
  then Some (mk_globals (region v) x (lane v) (car_route v) (said v) (exited v)) else None.

Definition set_lane (d : Z) (q : Queue.queue) (v : globals) : globals :=
  mk_globals (region v) (num_cars v) (fun x => if x =? d then q else lane v x) (car_route v) (said v) (exited v).

(** [assert(q_addtail(lane, &carnumber)==0)] *)
Definition join (mem : Z -> bool) (d : Z) (c : nat) (v : globals) : option globals :=
  match Queue.q_addtail mem (lane v d) (Some c) with
  | Done (q, Ok _) => Some (set_lane d q v)
  | _ => None
  end.

(** [q_remhead(lane_q)] *)
Definition pop (d : Z) (v : globals) : option globals :=
  match Queue.q_remhead (lane v d) with
  | Done (q, _) => Some (set_lane d q v)
  | _ => None
  end.

(** [q_getguy(lane_q, q_getstart(lane_q))]: the number of the car the pointer points at. *)
Definition firstcar (d : Z) (v : globals) : option Z :=
  match Queue.q_getguy (lane v d) (Queue.q_getstart (lane v d)) with
  | Done (Some c) => Some (Z.of_nat c)
  | _ => None
  end.

Definition say (msg : Z) (c : nat) (v : globals) : option globals :=
  Some (mk_globals (region v) (num_cars v) (lane v) (car_route v) (upd (said v) c msg) (exited v)).

Definition go_home (c : nat) (v : globals) : option globals :=
  Some (mk_globals (region v) (num_cars v) (lane v) (car_route v) (said v) (upd (exited v) c true)).

(** A row of [car_route], which has five entries. *)
Definition router (cardirection turndirection destdirection : Z) (row : list Z) : list Z :=
  let row := <[0%nat := cardirection]> row in
  let row := if turndirection =? 2 then
      let row := <[1%nat := cardirection + 10]> row in
      let row := <[2%nat := (cardirection + 3) mod 4 + 10]> row in
      <[3%nat := destdirection]> row
    else row in
  let row := if turndirection =? 3 then
      let row := <[1%nat := cardirection + 10]> row in
      <[2%nat := destdirection]> row
    else row in
  if turndirection =? 1 then
    let row := <[1%nat := cardirection + 10]> row in
    let row := <[2%nat := (cardirection + 3) mod 4 + 10]> row in
    let row := <[3%nat := (cardirection + 2) mod 4 + 10]> row in
    <[4%nat := destdirection]> row
  else row.

Definition route (c : nat) (d t dest : Z) (v : globals) : option globals :=
  Some (mk_globals (region v) (num_cars v) (lane v) (upd (car_route v) c (router d t dest (car_route v c)))
          (said v) (exited v)).

Definition entry (c i : nat) (v : globals) : option Z := car_route v c !! i.

(** The local variables at the head of a loop: [i] and [region_sem], which is set once
    the car is in the intersection. *)
Inductive locals : Type := Start | Drive (i : nat) (region_sem : option Z).

Notation code_t := (prog (S := globals) (L := locals) (Sm := sm) (Lk := Empty_set)).

Definition message (msg : Z) (c : nat) (k : code_t) : code_t := Write (say msg c) k.

(** The region whose number is in the routing table, in the order the code asks. *)
Definition which (next : Z) (k : Z -> code_t) (otherwise : code_t) : code_t :=
  if next =? 10 then k 0
  else if next =? 11 then k 1
  else if next =? 13 then k 3
  else if next =? 12 then k 2
  else otherwise.

Section cars.
Variables (mem : Z -> bool) (rnd1 rnd2 left_behind : nat -> Z).

(** [*firstcar] *)
Definition deref (f : Z) (v : globals) : Z := if exited v (Z.to_nat f) then left_behind (Z.to_nat f) else f.

(** The case where the car leaves. *)
Definition leaving (c i : nat) (region_sem : option Z) : code_t :=
  message 4 c
  (match region_sem with
   | None => Get (fun _ => None) (fun _ => Return)
   | Some r =>
       P (access r)
       (Get (entry c i) (fun a => Write (set_region (a - 10) 0)
       (V (access r)
       (P numcars_sem
       (Read num_cars (fun n => Write (set_num_cars (n - 1))
       (V numcars_sem
       (Loop (Drive (S i) region_sem)))))))))
   end).

(** The case where the car is in the intersection. *)
Definition inside (c i : nat) (region_sem : option Z) (next : Z) : code_t :=
  which next (fun r =>
    P (access r)
    (Get (get_region r) (fun x =>
       if x =? 0 then
         Write (set_region r 1)
         (message (Z.of_nat (S i)) c
         (Get (entry c i) (fun a => Write (set_region (a - 10) 0)
         (V (access r)
         (Loop (Drive (S i) (Some r)))))))
       else V (access r) (Loop (Drive i region_sem)))))
    (Loop (Drive i region_sem)).

(** The case where the car approaches; only the branch for region 12 clears
    [region[car_route[carnumber][i]-10]]. *)
Definition approaching (c i : nat) (region_sem : option Z) (d next : Z) : code_t :=
  P numcars_sem
  (Read num_cars (fun n =>
   if n <? 3 then
     P (q_sem d)
     (Get (firstcar d) (fun f =>
     V (q_sem d)
     (Read (deref f) (fun first =>
      if bool_decide (i = 0%nat) && (u32 first =? Z.of_nat c) then
        which next (fun r =>
          P (access r)
          (Get (get_region r) (fun x =>
           if x =? 0 then
             let enter :=
               P (q_sem d) (Write (pop d) (V (q_sem d)
               (Read num_cars (fun n => Write (set_num_cars (n + 1))
               (message (Z.of_nat (S i)) c
               (V (access r)
               (V numcars_sem
               (Loop (Drive (S i) (Some r)))))))))) in
             Write (set_region r 1)
             (if r =? 2 then Get (entry c i) (fun a => Write (set_region (a - 10) 0) enter) else enter)
           else V (access r) (V numcars_sem (Loop (Drive i region_sem))))))
          (V numcars_sem (Loop (Drive i region_sem)))
      else V numcars_sem (Loop (Drive i region_sem))))))
   else V numcars_sem (Loop (Drive i region_sem)))).

Definition finish (c : nat) : code_t := Write (go_home c) Return.

Definition gostraightorleft (d : Z) (c : nat) (dest : Z) (i : nat) (region_sem : option Z) : code_t :=
  Get (entry c i) (fun here =>
  if here =? dest then finish c
  else
    Get (entry c (S i)) (fun next =>
    if next =? dest then leaving c i region_sem
    else if (0 <? i)%nat then inside c i region_sem next
    else approaching c i region_sem d next)).

Definition turnright (d : Z) (c : nat) (dest : Z) (i : nat) (region_sem : option Z) : code_t :=
  Get (entry c i) (fun here =>
  if (here =? dest) || negb (i <? 4)%nat then finish c
  else
    Get (entry c (S i)) (fun next =>
    if next =? dest then leaving c i region_sem
    else
      P (q_sem d)
      (Get (firstcar d) (fun f =>
      V (q_sem d)
      (Read (deref f) (fun first =>
       if bool_decide (i = 0%nat) && (u32 first =? Z.of_nat c) then
         which next (fun r =>
           P (access r)
           (Get (get_region r) (fun x =>
            if x =? 0 then
              Write (set_region r 1)
              (V (access r)
              (P (q_sem d) (Write (pop d) (V (q_sem d)
              (P numcars_sem
              (Read num_cars (fun n => Write (set_num_cars (n + 1))
              (V numcars_sem
              (message (Z.of_nat (S i)) c
              (Loop (Drive (S i) (Some r))))))))))))
            else V (access r) (Loop (Drive i region_sem)))))
           (Loop (Drive i region_sem))
       else Loop (Drive i region_sem))))))).

Definition cardirection (c : nat) : Z := rnd1 c mod 4.
Definition turndirection (c : nat) : Z := rnd2 c mod 3 + 1.
Definition destdirection (c : nat) : Z := (cardirection c + turndirection c) mod 4.

Definition approachintersection (c : nat) : code_t :=
  let d := cardirection c in
  P (q_sem d)
  (Write (join mem d c)
  (message 0 c
  (V (q_sem d)
  (Write (route c d (turndirection c) (destdirection c))
  (Loop (Drive 0 None)))))).

Definition code (c : nat) (l : locals) : code_t :=
  match l with
  | Start => approachintersection c
  | Drive i region_sem =>
      let t := turndirection c in
      if (t =? 2) || (t =? 1) then gostraightorleft (cardirection c) c (destdirection c) i region_sem
      else if t =? 3 then turnright (cardirection c) c (destdirection c) i region_sem
      else finish c
  end.

(** The semaphores are created with the count 1; [old] is the table as the threads
    find it. *)
Definition createcars (old : nat -> list Z) : option (config (S := globals) (L := locals) (Sm := sm) (Lk := Empty_set)) :=
  lane0 ← Queue.q_create mem 20;
  lane1 ← Queue.q_create mem 20;
  lane2 ← Queue.q_create mem 20;
  lane3 ← Queue.q_create mem 20;
  let lanes d := if d =? 0 then lane0 else if d =? 1 then lane1 else if d =? 2 then lane2 else lane3 in
  Some (mk_config
    (mk_shared (mk_globals [0; 0; 0; 0] 0 lanes old (fun _ => -1) (fun _ => false)) (fun _ => 1) (fun _ => None))
    (replicate NCARS (Loop Start))).

End cars.
End Stoplight.
