(* ===== verification/StoplightInv.v ===== *)
(** * The cars do not collide, and all of them get through

    The invariant of the stoplight of [Stoplight.v], and what follows from it for
    every interleaving of the cars: no step faults, and two cars that say they are
    in the intersection are in different regions; and whatever has happened, the
    cars can still all get through. *)

From Stdlib Require Import ZArith Lia Bool.
From stdpp Require Import base list numbers relations.
From S2P Require Import Prelude.
From S2P Require Import Queue.
From S2P Require Import Conc.
From S2P Require Import Stoplight.

Module StoplightInv.
Import Stoplight.

(** What a car has done, holds and knows. *)
Record gh : Type := mk_gh {
  routed : bool;        (* its row of the table is written *)
  waits : bool;         (* it is in its lane *)
  own : list Z;         (* the regions it has taken *)
  gn : bool;            (* it holds [numcars_sem] *)
  ga : option Z;        (* the region whose semaphore it holds *)
  gq : option Z;        (* the lane whose semaphore it holds *)
  counted : bool;       (* it is counted by [num_cars] *)
  first : bool;         (* it knows it is first in its lane *)
  free : bool;          (* it knows the region it asked for is free *)
  known : option Z;     (* the value of [num_cars] it read *)
  words : Z;            (* its last message *)
  home : bool           (* it has come to its end *)
}.

Definition holds (x : sm) (g : gh) : bool :=
  match x with
  | numcars_sem => gn g
  | access r => bool_decide (ga g = Some r)
  | q_sem d => bool_decide (gq g = Some d)
  end.

Definition owns (r : Z) (g : gh) : bool := bool_decide (r ∈ own g).

(** The changes of a ghost value. *)
Definition take (x : sm) (g : gh) : gh :=
  let '(mk_gh ro wa ow n a q co fi fr kn wo ho) := g in
  match x with
  | numcars_sem => mk_gh ro wa ow true a q co fi fr kn wo ho
  | access r => mk_gh ro wa ow n (Some r) q co fi fr kn wo ho
  | q_sem d => mk_gh ro wa ow n a (Some d) co fi fr kn wo ho
  end.
Definition give (x : sm) (g : gh) : gh :=
  let '(mk_gh ro wa ow n a q co fi fr kn wo ho) := g in
  match x with
  | numcars_sem => mk_gh ro wa ow false a q co fi fr None wo ho
  | access _ => mk_gh ro wa ow n None q co fi false kn wo ho
  | q_sem _ => mk_gh ro wa ow n a None co fi fr kn wo ho
  end.
Definition set_known (m : option Z) (g : gh) : gh :=
  let '(mk_gh ro wa ow n a q co fi fr kn wo ho) := g in mk_gh ro wa ow n a q co fi fr m wo ho.
Definition set_counted (b : bool) (g : gh) : gh :=
  let '(mk_gh ro wa ow n a q co fi fr kn wo ho) := g in mk_gh ro wa ow n a q b fi fr None wo ho.
Definition set_free (b : bool) (g : gh) : gh :=
  let '(mk_gh ro wa ow n a q co fi fr kn wo ho) := g in mk_gh ro wa ow n a q co fi b kn wo ho.
Definition set_own (l : list Z) (g : gh) : gh :=
  let '(mk_gh ro wa ow n a q co fi fr kn wo ho) := g in mk_gh ro wa l n a q co fi false kn wo ho.
Definition set_first (b : bool) (g : gh) : gh :=
  let '(mk_gh ro wa ow n a q co fi fr kn wo ho) := g in mk_gh ro wa ow n a q co b fr kn wo ho.
Definition set_waits (b : bool) (g : gh) : gh :=
  let '(mk_gh ro wa ow n a q co fi fr kn wo ho) := g in mk_gh ro b ow n a q co false fr kn wo ho.
Definition set_words (m : Z) (g : gh) : gh :=
  let '(mk_gh ro wa ow n a q co fi fr kn wo ho) := g in mk_gh ro wa ow n a q co fi fr kn m ho.
Definition set_routed (g : gh) : gh :=
  let '(mk_gh ro wa ow n a q co fi fr kn wo ho) := g in mk_gh true wa ow n a q co fi fr kn wo ho.
Definition set_home (g : gh) : gh :=
  let '(mk_gh ro wa ow n a q co fi fr kn wo ho) := g in mk_gh ro wa ow n a q co fi fr kn wo true.

#[local] Arguments sum_n : simpl never.

Section cars.
Variables (rnd1 rnd2 : nat -> Z).

Notation dir := (cardirection rnd1).
Notation turn := (turndirection rnd2).
Notation dest := (destdirection rnd1 rnd2).

(** The [k]-th region of a car's way, and the index of its destination in the table. *)
Definition way (c : nat) (k : Z) : Z := (dir c + 3 * (k - 1)) mod 4.
Definition last (c : nat) : nat := if turn c =? 2 then 3 else if turn c =? 3 then 2 else 4.
Definition crosses (c : nat) : bool := negb (turn c =? 3).

Definition row_ok (c : nat) (row : list Z) : Prop :=
  row !! 0%nat = Some (dir c) /\ row !! last c = Some (dest c) /\
  forall k : nat, (0 < k < last c)%nat -> row !! k = Some (way c (Z.of_nat k) + 10).

(** A car that says it is in the intersection owns the region it is in. *)
Record gh_ok (c : nat) (g : gh) : Prop := {
  go_own : Forall (fun r => 0 <= r < 4) (own g);
  go_ga : forall r, ga g = Some r -> 0 <= r < 4;
  go_words : 1 <= words g <= 3 -> way c (words g) ∈ own g;
  go_known : known g <> None -> gn g = true;
  go_free : free g = true -> ga g <> None
}.

Record knows (c : nat) (g : gh) (v : globals) : Prop := {
  kw_row : routed g = true -> row_ok c (car_route v c);
  kw_len : length (car_route v c) = 5%nat;
  kw_first : first g = true -> head (Queue.contents (lane v (dir c))) = Some (Some c);
  kw_free : forall r, free g = true -> ga g = Some r -> get_region r v = Some 0;
  kw_known : forall n, known g = Some n -> num_cars v = n;
  kw_words : said v c = words g;
  kw_home : exited v c = home g
}.

Notation holders x G := (sum_n NCARS (fun j => Z.b2z (holds x (G j)))).
Notation owners r G := (sum_n NCARS (fun j => Z.b2z (owns r (G j)))).

Definition lane_ok (d : Z) (G : nat -> gh) (q : Queue.queue) : Prop :=
  Queue.q_wf q /\ Queue.size q <= 64 /\ exists l, Queue.contents q = Some <$> l /\ NoDup l /\
    forall j, j ∈ l <-> (j < NCARS)%nat /\ dir j = d /\ waits (G j) = true.

Record inv (s : shared (S := globals) (Sm := sm) (Lk := Empty_set)) (G : nat -> gh) : Prop := {
  iv_sem : forall x, sem s x = 1 - holders x G;
  iv_sem0 : forall x, 0 <= sem s x;
  iv_region : forall r, 0 <= r < 4 -> get_region r (vars s) = Some (owners r G);
  iv_one : forall r, 0 <= r < 4 -> owners r G <= 1;
  iv_num : num_cars (vars s) = sum_n NCARS (fun j => Z.b2z (counted (G j)));
  iv_three : sum_n NCARS (fun j => Z.b2z (crosses j && counted (G j))) <= 3;
  iv_lane : forall d, 0 <= d < 4 -> lane_ok d G (lane (vars s) d);
  iv_ok : forall c, (c < NCARS)%nat -> gh_ok c (G c);
  iv_knows : forall c, (c < NCARS)%nat -> knows c (G c) (vars s)
}.

(** What a step of car [i] from [g] to [g'] may do to a lane. *)
Definition lane_moves (i : nat) (d : Z) (g g' : gh) (q q' : Queue.queue) : Prop :=
  forall l, Queue.q_wf q -> Queue.size q <= 64 -> Queue.contents q = Some <$> l -> NoDup l ->
    (i ∈ l <-> dir i = d /\ waits g = true) -> (length l <= NCARS)%nat ->
  Queue.q_wf q' /\ Queue.size q' <= 64 /\ exists l', Queue.contents q' = Some <$> l' /\ NoDup l' /\
    (i ∈ l' <-> dir i = d /\ waits g' = true) /\ (forall j, j <> i -> j ∈ l' <-> j ∈ l) /\
    (forall j, j <> i -> head l = Some j -> head l' = Some j).

Record moves (i : nat) (g g' : gh) (s s' : shared (S := globals) (Sm := sm) (Lk := Empty_set)) : Prop := {
  mv_sem : forall x, sem s' x = sem s x + Z.b2z (holds x g) - Z.b2z (holds x g');
  mv_sem0 : forall x, 0 <= sem s' x;
  mv_region : forall r y, 0 <= r < 4 -> get_region r (vars s) = Some y ->
    get_region r (vars s') = Some (y - Z.b2z (owns r g) + Z.b2z (owns r g'));
  mv_new : forall r, 0 <= r < 4 -> owns r g = false -> owns r g' = true ->
    get_region r (vars s) = Some 0 /\ ga g = Some r;
  mv_num : num_cars (vars s') = num_cars (vars s) - Z.b2z (counted g) + Z.b2z (counted g');
  mv_count : counted g' <> counted g -> gn g = true;
  mv_three : counted g = false -> counted g' = true -> crosses i = true -> num_cars (vars s) < 3;
  mv_lane : forall d, 0 <= d < 4 -> lane_moves i d g g' (lane (vars s) d) (lane (vars s') d);
  mv_row : forall j, j <> i -> car_route (vars s') j = car_route (vars s) j;
  mv_said : forall j, j <> i -> said (vars s') j = said (vars s) j;
  mv_exited : forall j, j <> i -> exited (vars s') j = exited (vars s) j;
  mv_ok : gh_ok i g';
  mv_knows : knows i g' (vars s')
}.

(** ** A step keeps the invariant *)

Lemma sum_two (f : nat -> bool) i j : (i < NCARS)%nat -> (j < NCARS)%nat -> i <> j -> f i = true -> f j = true ->
  2 <= sum_n NCARS (fun k => Z.b2z (f k)).
Proof.
  intros Hi Hj Hij H1 H2. pose proof (sum_n_part NCARS (fun k => Z.b2z (f k)) [i; j]) as Hp. simpl in Hp.
  rewrite H1, H2 in Hp. apply Hp.
  - intros k _. by destruct (f k).
  - apply NoDup_cons; split; [set_solver|apply NoDup_singleton].
  - by repeat apply Forall_cons_2.
Qed.

(** A semaphore has one holder, a region one owner. *)
Lemma one_holder s G x i j : inv s G -> (i < NCARS)%nat -> (j < NCARS)%nat -> i <> j ->
  holds x (G i) = true -> holds x (G j) = true -> False.
Proof.
  intros HI Hi Hj Hij H1 H2. pose proof (iv_sem _ _ HI x) as E. pose proof (iv_sem0 _ _ HI x) as H0.
  pose proof (sum_two (fun j => holds x (G j)) i j Hi Hj Hij H1 H2). simpl in *. lia.
Qed.

Lemma one_owner s G r i j : inv s G -> 0 <= r < 4 -> (i < NCARS)%nat -> (j < NCARS)%nat -> i <> j ->
  r ∈ own (G i) -> r ∈ own (G j) -> False.
Proof.
  intros HI Hr Hi Hj Hij H1 H2. pose proof (iv_one _ _ HI r Hr) as H0.
  pose proof (sum_two (fun j => owns r (G j)) i j Hi Hj Hij) as Hp. unfold owns in Hp at 1 2.
  rewrite !bool_decide_eq_true in Hp. specialize (Hp H1 H2). simpl in *. lia.
Qed.

Lemma sum_one (f : nat -> bool) i : (i < NCARS)%nat -> f i = true -> 1 <= sum_n NCARS (fun k => Z.b2z (f k)).
Proof.
  intros Hi H. pose proof (sum_n_ge NCARS (fun k => Z.b2z (f k)) i) as Hge. simpl in Hge. rewrite H in Hge. apply Hge; [|done].
  intros k _. by destruct (f k).
Qed.

Lemma region_owned s G r i : inv s G -> 0 <= r < 4 -> (i < NCARS)%nat -> owns r (G i) = true ->
  get_region r (vars s) = Some 1.
Proof.
  intros HI Hr Hi Ho. rewrite (iv_region _ _ HI r Hr). f_equal. pose proof (iv_one _ _ HI r Hr).
  pose proof (sum_one (fun j => owns r (G j)) i Hi Ho). simpl in *. lia.
Qed.

Lemma sum_move {A} (f : A -> bool) (G : nat -> A) i g g' : (i < NCARS)%nat -> G i = g ->
  sum_n NCARS (fun j => Z.b2z (f (upd G i g' j))) = sum_n NCARS (fun j => Z.b2z (f (G j))) - Z.b2z (f g) + Z.b2z (f g').
Proof. intros Hi <-. apply (sum_n_upd NCARS (fun _ a => Z.b2z (f a))). done. Qed.

Lemma lane_length d G q l : lane_ok d G q -> Queue.contents q = Some <$> l -> NoDup l -> (length l <= NCARS)%nat.
Proof.
  intros (_ & _ & l' & E & _ & Hl) El Hd. assert (l' = l) as ->.
  { rewrite E in El. by apply (inj (fmap Some)) in El. }
  rewrite <- (length_seq NCARS 0). apply submseteq_length, NoDup_submseteq; [done|].
  intros j Hj. apply Hl in Hj as [Hj _]. apply elem_of_seq. lia.
Qed.

Lemma lane_move i d g g' G q q' : (i < NCARS)%nat -> G i = g -> lane_ok d G q -> lane_moves i d g g' q q' ->
  lane_ok d (upd G i g') q' /\
  (forall j, (j < NCARS)%nat -> j <> i -> head (Queue.contents q) = Some (Some j) -> head (Queue.contents q') = Some (Some j)).
Proof.
  intros Hi Hg Hl Hm. pose proof Hl as (Hwf & Hs & l & El & Hd & Hin). pose proof (lane_length d G q l Hl El Hd) as Hlen.
  destruct (Hm l) as (Hwf' & Hs' & l' & El' & Hd' & Hi' & Hj' & Hh); try done.
  { rewrite Hin, Hg. tauto. }
  split.
  - split; [done|]. split; [done|]. exists l'. split; [done|]. split; [done|]. intros j.
    destruct (decide (j = i)) as [->|Hne]; [rewrite Hi', upd_same; tauto|]. rewrite Hj', Hin, upd_other by done. tauto.
  - intros j _ Hne. rewrite El, El'. destruct l as [|a l]; [done|]. simpl. intros E. simplify_eq.
    destruct l' as [|b l']; [by specialize (Hh j Hne eq_refl)|]. specialize (Hh j Hne eq_refl). simpl in *. congruence.
Qed.

Lemma dir_range c : 0 <= dir c < 4.
Proof. unfold cardirection. apply Z.mod_pos_bound. lia. Qed.

Lemma inv_knows_other s s' G i g g' j : inv s G -> (i < NCARS)%nat -> G i = g -> moves i g g' s s' -> (j < NCARS)%nat -> j <> i ->
  knows j (G j) (vars s').
Proof.
  intros HI Hi Hg Hm Hj Hne. destruct (iv_knows _ _ HI j Hj) as [K1 K2 K3 K4 K5 K6 K7]. constructor.
  - by rewrite (mv_row _ _ _ _ _ Hm j Hne).
  - by rewrite (mv_row _ _ _ _ _ Hm j Hne).
  - intros Hf. destruct (lane_move i (dir j) g g' G (lane (vars s) (dir j)) (lane (vars s') (dir j))) as [_ H]; auto.
    { apply (iv_lane _ _ HI), dir_range. } { apply (mv_lane _ _ _ _ _ Hm), dir_range. }
  - intros r Hf Hr. pose proof (go_ga _ _ (iv_ok _ _ HI j Hj) r Hr) as Hr4.
    rewrite (mv_region _ _ _ _ _ Hm r 0 Hr4 (K4 r Hf Hr)). destruct (owns r g') eqn:E'; destruct (owns r g) eqn:E; [done| |exfalso|done].
    + destruct (mv_new _ _ _ _ _ Hm r Hr4 E E') as [_ Ha]. exfalso.
      apply (one_holder s G (access r) i j); [done..| |by apply bool_decide_eq_true_2]. rewrite Hg. by apply bool_decide_eq_true_2.
    + pose proof (region_owned s G r i HI Hr4 Hi) as Er. rewrite Hg, (K4 r Hf Hr) in Er. by specialize (Er E).
  - intros n Hn. rewrite (mv_num _ _ _ _ _ Hm), (K5 n Hn). destruct (decide (counted g' = counted g)) as [->|Hc]; [lia|].
    exfalso. apply (one_holder s G numcars_sem i j); [done..| |].
    + simpl. rewrite Hg. by apply (mv_count _ _ _ _ _ Hm).
    + apply (go_known _ _ (iv_ok _ _ HI j Hj)). by rewrite Hn.
  - by rewrite (mv_said _ _ _ _ _ Hm j Hne).
  - by rewrite (mv_exited _ _ _ _ _ Hm j Hne).
Qed.

Lemma cars_inv_move s s' G i g g' : inv s G -> (i < NCARS)%nat -> G i = g -> moves i g g' s s' -> inv s' (upd G i g').
Proof.
  intros HI Hi Hg Hm. constructor.
  - intros x. rewrite (mv_sem _ _ _ _ _ Hm), (iv_sem _ _ HI x), (sum_move (holds x) G i g g') by done. lia.
  - apply (mv_sem0 _ _ _ _ _ Hm).
  - intros r Hr. rewrite (mv_region _ _ _ _ _ Hm r _ Hr (iv_region _ _ HI r Hr)), (sum_move (owns r) G i g g') by done. done.
  - intros r Hr. pose proof (iv_one _ _ HI r Hr) as H1. rewrite (sum_move (owns r) G i g g') by done.
    destruct (owns r g') eqn:E'; destruct (owns r g) eqn:E; simpl; [lia| |lia|lia].
    destruct (mv_new _ _ _ _ _ Hm r Hr E E') as [E0 _]. rewrite (iv_region _ _ HI r Hr) in E0. injection E0 as E0. lia.
  - rewrite (mv_num _ _ _ _ _ Hm), (iv_num _ _ HI), (sum_move counted G i g g') by done. done.
  - pose proof (iv_three _ _ HI) as H3. pose proof (iv_num _ _ HI) as Hn.
    rewrite (sum_n_upd NCARS (fun j a => Z.b2z (crosses j && counted a)) G i g'), Hg by done.
    destruct (crosses i) eqn:Ec; simpl; [|lia]. destruct (counted g') eqn:E'; destruct (counted g) eqn:E; simpl; [lia| |lia|lia].
    pose proof (mv_three _ _ _ _ _ Hm E E' Ec) as Hlt. rewrite Hn in Hlt.
    pose proof (sum_n_mono NCARS (fun j => Z.b2z (crosses j && counted (G j))) (fun j => Z.b2z (counted (G j)))) as Hle.
    enough (forall j, (j < NCARS)%nat -> Z.b2z (crosses j && counted (G j)) <= Z.b2z (counted (G j))) as Hb by (specialize (Hle Hb); lia).
    intros j _. by destruct (crosses j), (counted (G j)).
  - intros d Hd. apply (lane_move i d g g' G (lane (vars s) d) (lane (vars s') d) Hi Hg); [by apply (iv_lane _ _ HI)|].
    by apply (mv_lane _ _ _ _ _ Hm).
  - intros c Hc. destruct (decide (c = i)) as [->|Hne]; [rewrite upd_same; apply (mv_ok _ _ _ _ _ Hm)|].
    rewrite upd_other by done. by apply (iv_ok _ _ HI).
  - intros c Hc. destruct (decide (c = i)) as [->|Hne]; [rewrite upd_same; apply (mv_knows _ _ _ _ _ Hm)|].
    rewrite upd_other by done. by apply (inv_knows_other s s' G i g g').
Qed.


(** ** The steps of a car *)

(** The semaphores are asked for in an order. *)
Definition order (g : gh) (r : sm + Empty_set) : Prop :=
  match r with
  | inl numcars_sem => gn g = false /\ ga g = None /\ gq g = None
  | inl (access a) => 0 <= a < 4 /\ ga g = None /\ gq g = None
  | inl (q_sem _) => gq g = None
  | inr _ => False
  end.

Definition at_start : gh := mk_gh false false [] false None None false false false None (-1) false.
Definition at_ (c i : nat) : gh :=
  if (i =? 0)%nat then mk_gh true true [] false None None false false false None 0 false
  else if (i <? last c)%nat then mk_gh true false [way c (Z.of_nat i)] false None None true false false None (Z.of_nat i) false
  else mk_gh true false [] false None None false false false None 4 false.

Definition at_head (c : nat) (l : locals) (g : gh) : Prop :=
  (c < NCARS)%nat /\
  match l with
  | Start => g = at_start
  | Drive i rs => (i <= last c)%nat /\ g = at_ c i /\ ((0 < i < last c)%nat -> rs = Some (way c (Z.of_nat i)))
  end.
Definition at_end (c : nat) (g : gh) : Prop := g = set_home (at_ c (last c)).

Notation ok := (ok inv at_head at_end order (fun _ _ _ => True)).

Lemma lane_same i d g g' q : waits g' = waits g -> lane_moves i d g g' q q.
Proof. intros E l H1 H2 H3 H4 H5 H6. rewrite E. eauto 12. Qed.

Lemma moves_same i g g' s s' : (forall x, sem s' x = sem s x + Z.b2z (holds x g) - Z.b2z (holds x g')) ->
  (forall x, 0 <= sem s' x) -> vars s' = vars s -> own g' = own g -> counted g' = counted g -> waits g' = waits g ->
  gh_ok i g' -> knows i g' (vars s) -> moves i g g' s s'.
Proof.
  intros H1 H2 Ev Eo Ec Ew H3 H4. constructor; rewrite ?Ev, ?Ec; unfold owns; rewrite ?Eo; try done.
  - intros r y _ ->. f_equal. lia.
  - intros r _ E1 E2. congruence.
  - lia.
  - congruence.
  - intros d _. by apply lane_same.
Qed.

(** What the invariant says of the car that steps. *)
Ltac look HI Hi Hg :=
  destruct (iv_ok _ _ HI _ Hi) as [K1 K2 K3 K4 K5]; destruct (iv_knows _ _ HI _ Hi) as [J1 J2 J3 J4 J5 J6 J7];
  rewrite Hg in *; match type of Hg with _ = ?g => destruct g as [ro wa ow n a q co fi fr kn wo ho] end.

Lemma ok_take i x g k : (i < NCARS)%nat -> order g (inl x) -> ok i (take x g) k -> ok i g (P x k).
Proof.
  intros Hi Ho Hk. split; [done|]. intros s G Hg HI. split; [apply (iv_sem0 _ _ HI)|]. intros Hpos. exists (take x g). split; [|done].
  apply (cars_inv_move s _ G i g); try done. look HI Hi Hg. apply moves_same; simpl in *; try done.
  - intros y. case_decide; subst; destruct x; try destruct y; simpl in *; destruct_and?; subst;
      repeat case_bool_decide; simplify_eq; simpl; lia.
  - intros y. case_decide; [lia|]. apply (iv_sem0 _ _ HI).
  - by destruct x.
  - by destruct x.
  - by destruct x.
  - destruct x; constructor; simpl in *; try done; naive_solver.
  - destruct x; constructor; simpl in *; try done. intros r' Hf. destruct_and?. subst a. by specialize (K5 Hf).
Qed.

Lemma ok_give i x g k : (i < NCARS)%nat -> holds x g = true -> ok i (give x g) k -> ok i g (V x k).
Proof.
  intros Hi Hh Hk. intros s G Hg HI. split; [apply (iv_sem0 _ _ HI)|]. exists (give x g). split; [|done].
  apply (cars_inv_move s _ G i g); try done. look HI Hi Hg. apply moves_same; simpl in *; try done.
  - intros y. case_decide; subst; destruct x; try destruct y; simpl in *; subst;
      repeat case_bool_decide; simplify_eq; simpl; lia.
  - intros y. case_decide; [|apply (iv_sem0 _ _ HI)]. pose proof (iv_sem0 _ _ HI x). lia.
  - by destruct x.
  - by destruct x.
  - by destruct x.
  - by destruct x; constructor; simpl in *.
  - by destruct x; constructor; simpl in *.
Qed.

(** Reads: the car learns something, or nothing. *)
Lemma learn s G i g g' : inv s G -> (i < NCARS)%nat -> G i = g ->
  (forall x, holds x g' = holds x g) -> own g' = own g -> counted g' = counted g -> waits g' = waits g ->
  gh_ok i g' -> knows i g' (vars s) -> inv s (upd G i g').
Proof.
  intros HI Hi Hg Hh Ho Hc Hw H1 H2. apply (cars_inv_move s s G i g); try done. apply moves_same; try done.
  - intros x. rewrite Hh. lia.
  - apply (iv_sem0 _ _ HI).
Qed.

Lemma learn_nothing s G i g : inv s G -> (i < NCARS)%nat -> G i = g -> inv s (upd G i g).
Proof. intros HI Hi Hg. apply (learn s G i g); try done; rewrite <- Hg; [apply (iv_ok _ _ HI i Hi)|apply (iv_knows _ _ HI i Hi)]. Qed.

Lemma ok_entry i m x g k : (i < NCARS)%nat -> routed g = true -> (forall row, row_ok i row -> row !! m = Some x) ->
  ok i g (k x) -> ok i g (Get (entry i m) k).
Proof.
  intros Hi Hr Hx Hk s G Hg HI. exists x, g. split; [|split; [by apply learn_nothing|done]].
  apply Hx. apply (kw_row _ _ _ (iv_knows _ _ HI i Hi)). by rewrite Hg.
Qed.

Lemma num_range s G : inv s G -> 0 <= num_cars (vars s) <= 20.
Proof.
  intros HI. rewrite (iv_num _ _ HI). split; [apply sum_n_nonneg; intros j _; by destruct (counted (G j))|].
  apply (sum_n_le NCARS _ 1). intros j _. by destruct (counted (G j)).
Qed.

Lemma ok_count i g k : (i < NCARS)%nat -> gn g = true ->
  (forall m, 0 <= m <= 20 -> (forall m', known g = Some m' -> m = m') -> ok i (set_known (Some m) g) (k m)) ->
  ok i g (Read num_cars k).
Proof.
  intros Hi Hn Hk s G Hg HI. pose proof (num_range s G HI) as Hr. set (m := num_cars (vars s)) in *.
  exists (set_known (Some m) g). split.
  - apply (learn s G i g); try done; look HI Hi Hg; try done; try (by intros []); constructor; simpl in *; try done.
    by intros m' [= <-].
  - apply Hk; [done|]. intros m' E. apply (kw_known _ _ _ (iv_knows _ _ HI i Hi)). by rewrite Hg.
Qed.

Lemma ok_set_count i b m m' g k : (i < NCARS)%nat -> gn g = true -> known g = Some m -> 0 <= m <= 20 ->
  m' = m - Z.b2z (counted g) + Z.b2z b -> (b = true -> crosses i = true -> m < 3) ->
  ok i (set_counted b g) k -> ok i g (Write (set_num_cars m') k).
Proof.
  intros Hi Hn Hm Hr -> Hc Hk s G Hg HI.
  assert (num_cars (vars s) = m) as Em. { apply (kw_known _ _ _ (iv_knows _ _ HI i Hi)). by rewrite Hg. }
  unfold set_num_cars. eexists _, (set_counted b g). unfold INT_MIN, INT_MAX.
  rewrite (proj2 (andb_true_iff _ _)) by (rewrite !Z.leb_le; destruct b, (counted g); simpl; lia).
  split; [done|]. split; [|done].
  apply (cars_inv_move s _ G i g); try done. look HI Hi Hg. simpl in *. constructor; simpl; try done.
  - intros []; simpl; lia.
  - apply (iv_sem0 _ _ HI).
  - intros r y _ E. unfold get_region in *. simpl. rewrite E. f_equal. unfold owns. simpl. lia.
  - intros r _ E1 E2. unfold owns in *. simpl in *. congruence.
  - lia.
  - intros _ -> ?. rewrite Em. by apply Hc.
  - intros d _. by apply lane_same.
Qed.

(** *** Regions *)

Lemma owners_01 s G r : inv s G -> 0 <= r < 4 -> owners r G = 0 \/ owners r G = 1.
Proof.
  intros HI Hr. pose proof (iv_one _ _ HI r Hr). pose proof (sum_n_nonneg NCARS (fun j => Z.b2z (owns r (G j)))) as H0.
  cut (0 <= owners r G); [lia|]. apply H0. intros j _. by destruct (owns r (G j)).
Qed.

Lemma ok_look i r g k : (i < NCARS)%nat -> ga g = Some r -> 0 <= r < 4 ->
  ok i (set_free true g) (k 0) -> (forall x, x <> 0 -> ok i (set_first false g) (k x)) -> ok i g (Get (get_region r) k).
Proof.
  intros Hi Ha Hr Hk0 Hk s G Hg HI. pose proof (iv_region _ _ HI r Hr) as Er.
  destruct (owners_01 s G r HI Hr) as [E|E]; rewrite E in Er.
  - exists 0, (set_free true g). split; [done|]. split; [|done].
    apply (learn s G i g); try done; look HI Hi Hg; try done; try (by intros []); constructor; simpl in *; try done.
    + by rewrite Ha.
    + intros r' _ Er'. congruence.
  - exists 1, (set_first false g). split; [done|]. split; [|by apply Hk].
    apply (learn s G i g); try done; look HI Hi Hg; try done; by intros [].
Qed.

Lemma set_region_spec r x y v : get_region r v = Some y -> exists v', set_region r x v = Some v' /\
  (forall r', get_region r' v' = if decide (r' = r) then Some x else get_region r' v) /\
  num_cars v' = num_cars v /\ lane v' = lane v /\ car_route v' = car_route v /\ said v' = said v /\ exited v' = exited v.
Proof.
  intros E. unfold get_region in E. destruct (Z.leb_spec 0 r) as [Hr|]; [|done]. pose proof (lookup_lt_Some _ _ _ E) as Hl.
  unfold set_region. eexists. rewrite (proj2 (andb_true_iff _ _)) by (rewrite Z.leb_le, Z.ltb_lt; lia).
  split; [done|]. split; [|done]. intros r'. unfold get_region. simpl. destruct (Z.leb_spec 0 r'); [|by case_decide; [lia|]].
  case_decide; [subst; by apply list_lookup_insert_eq|]. apply list_lookup_insert_ne. lia.
Qed.

(** The region the car looked at is free and becomes its own. *)
Lemma ok_enter i r g k : (i < NCARS)%nat -> ga g = Some r -> free g = true ->
  ok i (set_own (r :: own g) g) k -> ok i g (Write (set_region r 1) k).
Proof.
  intros Hi Ha Hf Hk s G Hg HI.
  assert (get_region r (vars s) = Some 0) as E0. { apply (kw_free _ _ _ (iv_knows _ _ HI i Hi)); by rewrite Hg. }
  assert (0 <= r < 4) as Hr. { apply (go_ga _ _ (iv_ok _ _ HI i Hi)). by rewrite Hg. }
  assert (owns r g = false) as Hno.
  { destruct (owns r g) eqn:E; [|done]. pose proof (region_owned s G r i HI Hr Hi) as Er. rewrite Hg, E0 in Er. by specialize (Er E). }
  destruct (set_region_spec r 1 0 (vars s) E0) as (v' & Ev & Hget & En & El & Ec & Es & Ee).
  exists v', (set_own (r :: own g) g). split; [done|]. split; [|done].
  apply (cars_inv_move s _ G i g); try done. look HI Hi Hg. unfold owns in *. simpl in *.
  constructor; simpl; rewrite ?En, ?El, ?Ec, ?Es, ?Ee; try done.
  - intros []; simpl; lia.
  - apply (iv_sem0 _ _ HI).
  - intros r' y Hr' Ey. rewrite Hget. unfold owns. simpl. destruct (decide (r' = r)) as [->|Er].
    + rewrite Hno, E0 in *. injection Ey as <-. by rewrite bool_decide_eq_true_2 by set_solver.
    + rewrite Ey. f_equal. rewrite (bool_decide_ext (r' ∈ r :: ow) (r' ∈ ow)) by set_solver. lia.
  - intros r' Hr' E1 E2. unfold owns in *. simpl in *. apply bool_decide_eq_true in E2. apply bool_decide_eq_false in E1.
    assert (r' = r) as -> by set_solver. done.
  - lia.
  - congruence.
  - intros d _. by apply lane_same.
  - constructor; simpl; try done; [by constructor|]. intros Hw. apply list_elem_of_further. by apply K3.
  - constructor; simpl; rewrite ?En, ?El, ?Ec, ?Es, ?Ee; try done.
Qed.

(** The car gives up a region. *)
Lemma ok_clear i r l g k : (i < NCARS)%nat -> r ∈ own g -> (forall x, x ∈ l <-> x ∈ own g /\ x <> r) ->
  (1 <= words g <= 3 -> way i (words g) ∈ l) -> ok i (set_own l g) k -> ok i g (Write (set_region r 0) k).
Proof.
  intros Hi Ho Hl Hw Hk s G Hg HI.
  assert (0 <= r < 4) as Hr. { pose proof (go_own _ _ (iv_ok _ _ HI i Hi)) as Hf. rewrite Hg in Hf. by eapply Forall_forall in Hf. }
  assert (get_region r (vars s) = Some 1) as E1.
  { apply (region_owned s G r i); [done..|]. rewrite Hg. by apply bool_decide_eq_true_2. }
  destruct (set_region_spec r 0 1 (vars s) E1) as (v' & Ev & Hget & En & El & Ec & Es & Ee).
  exists v', (set_own l g). split; [done|]. split; [|done].
  apply (cars_inv_move s _ G i g); try done. look HI Hi Hg. unfold owns in *. simpl in *.
  constructor; simpl; rewrite ?En, ?El, ?Ec, ?Es, ?Ee; try done.
  - intros []; simpl; lia.
  - apply (iv_sem0 _ _ HI).
  - intros r' y Hr' Ey. rewrite Hget. unfold owns. simpl. destruct (decide (r' = r)) as [->|Er].
    + rewrite E1 in Ey. injection Ey as <-. rewrite bool_decide_eq_true_2 by done.
      rewrite bool_decide_eq_false_2; [done|]. rewrite Hl. tauto.
    + rewrite Ey. f_equal. rewrite (bool_decide_ext (r' ∈ l) (r' ∈ ow)); [lia|]. rewrite Hl. tauto.
  - intros r' Hr' F1 F2. unfold owns in *. simpl in *. apply bool_decide_eq_true in F2. apply bool_decide_eq_false in F1.
    apply Hl in F2. tauto.
  - lia.
  - congruence.
  - intros d _. by apply lane_same.
  - constructor; simpl; try done. apply Forall_forall. intros x Hx. apply Hl in Hx as [Hx _]. by eapply Forall_forall in K1.
  - constructor; simpl; rewrite ?En, ?El, ?Ec, ?Es, ?Ee; try done.
Qed.

(** *** Lanes *)

(** The car at the head of the lane of a waiting car. *)
Lemma lane_head s G i g : inv s G -> (i < NCARS)%nat -> G i = g -> waits g = true ->
  exists f l, Queue.q_wf (lane (vars s) (dir i)) /\ Queue.contents (lane (vars s) (dir i)) = Some f :: l /\
    (f < NCARS)%nat /\ dir f = dir i /\ waits (G f) = true.
Proof.
  intros HI Hi Hg Hw. destruct (iv_lane _ _ HI (dir i) (dir_range i)) as (Hwf & _ & l & El & _ & Hin).
  destruct l as [|f l]; [assert (i ∈ @nil nat) by (apply Hin; by rewrite Hg); by set_solver|].
  exists f, (Some <$> l). split; [done|]. split; [done|]. apply Hin. set_solver.
Qed.

Lemma ok_firstcar i g k : (i < NCARS)%nat -> waits g = true -> ok i (set_first true g) (k (Z.of_nat i)) ->
  (forall f, (f < NCARS)%nat -> f <> i -> ok i g (k (Z.of_nat f))) -> ok i g (Get (firstcar (dir i)) k).
Proof.
  intros Hi Hw Hk Hk' s G Hg HI. destruct (lane_head s G i g) as (f & l & Hwf & El & Hf & _); try done.
  exists (Z.of_nat f). unfold firstcar. rewrite (Queue.q_first_spec _ _ _ Hwf El).
  destruct (decide (f = i)) as [->|Hne]; [|exists g; split; [done|]; split; [by apply learn_nothing|by apply Hk']].
  exists (set_first true g). split; [done|]. split; [|done].
  apply (learn s G i g); try done; look HI Hi Hg; try done; try (by intros []); constructor; simpl in *; try done. by rewrite El.
Qed.

Lemma lane_other i d d' g g' (q : Queue.queue (P := nat)) : dir i = d -> d' <> d -> lane_moves i d' g g' q q.
Proof.
  intros Hd Hne l H1 H2 H3 H4 H5 H6. split; [done|]. split; [done|]. exists l. split; [done|]. split; [done|].
  split; [|done]. rewrite H5. naive_solver.
Qed.

(** A step that changes the lane of the car. *)
Lemma moves_lane s G i g b q' : inv s G -> (i < NCARS)%nat -> G i = g ->
  lane_moves i (dir i) g (set_waits b g) (lane (vars s) (dir i)) q' ->
  inv (set_vars s (set_lane (dir i) q' (vars s))) (upd G i (set_waits b g)).
Proof.
  intros HI Hi Hg Hq. apply (cars_inv_move s _ G i g); try done. look HI Hi Hg. simpl in *. constructor; simpl; try done.
  - intros []; simpl; lia.
  - apply (iv_sem0 _ _ HI).
  - intros r y _ E. unfold get_region in *. simpl. rewrite E. f_equal. unfold owns. simpl. lia.
  - intros r _ E1 E2. unfold owns in *. simpl in *. congruence.
  - lia.
  - congruence.
  - intros d _. destruct (Z.eqb_spec d (dir i)) as [->|Hd]; [done|]. by apply (lane_other i (dir i)).
Qed.

Lemma ok_pop i g k : (i < NCARS)%nat -> first g = true -> waits g = true -> ok i (set_waits false g) k ->
  ok i g (Write (pop (dir i)) k).
Proof.
  intros Hi Hf Hw Hk s G Hg HI. destruct (lane_head s G i g) as (f & l & Hwf & El & _); try done.
  assert (f = i) as ->.
  { pose proof (kw_first _ _ _ (iv_knows _ _ HI i Hi)) as Hh. rewrite Hg, El in Hh. specialize (Hh Hf). simpl in Hh. congruence. }
  destruct (Queue.q_remhead_spec _ _ _ Hwf El) as (q' & Eq & Hwf' & Hs' & El'). unfold pop. rewrite Eq.
  eexists _, (set_waits false g). split; [done|]. split; [|done]. apply moves_lane; try done.
  intros l0 _ Hs El0 Hd _ _. split; [done|]. split; [lia|]. rewrite El in El0.
  destruct l0 as [|i' l0]; [done|]. simpl in El0. injection El0 as <- ->. apply NoDup_cons in Hd as [Hn Hd].
  exists l0. split; [done|]. split; [done|]. split; [destruct g; simpl; naive_solver|]. split; [set_solver|]. simpl. naive_solver.
Qed.

Lemma ok_join mem i g k : (forall b, mem b = true) -> (i < NCARS)%nat -> waits g = false -> ok i (set_waits true g) k ->
  ok i g (Write (join mem (dir i) i) k).
Proof.
  intros Hmem Hi Hw Hk s G Hg HI. pose proof (iv_lane _ _ HI (dir i) (dir_range i)) as Hl. pose proof Hl as (Hwf & Hs & l & El & Hd & Hin).
  pose proof (lane_length _ _ _ l Hl El Hd) as Hlen.
  assert (Queue.count (lane (vars s) (dir i)) <= 20) as Hc.
  { rewrite <- Queue.q_contents_length, El, length_fmap by done. unfold NCARS in Hlen. lia. }
  destruct (Queue.q_addtail_spec mem (lane (vars s) (dir i)) (Some i) Hwf) as (q' & r & Eq & Hwf' & Hr). { unfold Queue.q_limit. lia. }
  unfold join. rewrite Eq. destruct r as [u|e]; [|by destruct (Queue.q_addtail_enough mem (lane (vars s) (dir i)) (Some i) q' e Hmem)].
  destruct Hr as [Hc' Hsz]. eexists _, (set_waits true g). split; [done|]. split; [|done]. apply moves_lane; try done.
  intros l0 _ _ El0 _ Hi0 _. rewrite El in El0. apply (inj (fmap Some)) in El0 as <-. split; [done|]. split; [lia|].
  exists (l ++ [i]). rewrite Hc', El, fmap_app. split; [done|].
  assert (i ∉ l) as Hn by (rewrite Hi0, Hw; naive_solver).
  split; [apply NoDup_app; split; [done|]; split; [set_solver|apply NoDup_singleton]|].
  split; [destruct g; simpl; set_solver|]. split; [set_solver|]. intros j _. by destruct l.
Qed.

(** *** What concerns no other car *)

Lemma moves_private s G i g g' v' : inv s G -> (i < NCARS)%nat -> G i = g ->
  region v' = region (vars s) -> num_cars v' = num_cars (vars s) -> lane v' = lane (vars s) ->
  (forall j, j <> i -> car_route v' j = car_route (vars s) j /\ said v' j = said (vars s) j /\ exited v' j = exited (vars s) j) ->
  (forall x, holds x g' = holds x g) -> own g' = own g -> counted g' = counted g -> waits g' = waits g ->
  gh_ok i g' -> knows i g' v' -> inv (set_vars s v') (upd G i g').
Proof.
  intros HI Hi Hg Er En El Hj Hh Ho Hc Hw H1 H2. apply (cars_inv_move s _ G i g); try done.
  constructor; simpl; rewrite ?En, ?El, ?Hc; unfold get_region, owns; rewrite ?Er, ?Ho; try done; try (intros j Hne; apply (Hj j Hne)).
  - intros x. rewrite Hh. lia.
  - apply (iv_sem0 _ _ HI).
  - intros r y _ E. rewrite E. f_equal. lia.
  - intros r _ E1 E2. congruence.
  - lia.
  - congruence.
  - intros d _. by apply lane_same.
Qed.

Lemma ok_say i m g k : (i < NCARS)%nat -> (1 <= m <= 3 -> way i m ∈ own g) -> ok i (set_words m g) k -> ok i g (message m i k).
Proof.
  intros Hi Hw Hk s G Hg HI. eexists _, (set_words m g). split; [done|]. split; [|done].
  apply (moves_private s G i g); try done; look HI Hi Hg; try done; try (by intros []).
  - intros j Hj. simpl. by rewrite upd_other.
  - constructor; simpl in *; try done. by rewrite upd_same.
Qed.

Lemma ok_finish i g : (i < NCARS)%nat -> at_end i (set_home g) -> ok i g (finish i).
Proof.
  intros Hi Hk s G Hg HI. eexists _, (set_home g). split; [done|]. split; [|done].
  apply (moves_private s G i g); try done; look HI Hi Hg; try done; try (by intros []).
  - intros j Hj. simpl. by rewrite upd_other.
  - constructor; simpl in *; try done. by rewrite upd_same.
Qed.

Lemma turn_range c : turn c = 1 \/ turn c = 2 \/ turn c = 3.
Proof. unfold turndirection. pose proof (Z.mod_pos_bound (rnd2 c) 3). lia. Qed.

Lemma dir_cases c : dir c = 0 \/ dir c = 1 \/ dir c = 2 \/ dir c = 3.
Proof. pose proof (dir_range c). lia. Qed.

(** What [router] writes. *)
Lemma router_ok c row : length row = 5%nat -> row_ok c (router (dir c) (turn c) (dest c) row).
Proof.
  intros Hl. destruct row as [|a0 [|a1 [|a2 [|a3 [|a4 [|]]]]]]; try done. unfold row_ok, last, way, router.
  destruct (turn_range c) as [->|[->| ->]]; simpl; (split; [done|]; split; [done|]); intros k Hk;
    destruct k as [|[|[|[|k]]]]; try lia; simpl; do 2 f_equal;
    destruct (dir_cases c) as [->|[->|[->| ->]]]; done.
Qed.

Lemma ok_route i g k : (i < NCARS)%nat -> ok i (set_routed g) k -> ok i g (Write (route i (dir i) (turn i) (dest i)) k).
Proof.
  intros Hi Hk s G Hg HI. eexists _, (set_routed g). split; [done|]. split; [|done].
  apply (moves_private s G i g); try done; look HI Hi Hg; try done; try (by intros []).
  - intros j Hj. simpl. by rewrite upd_other.
  - constructor; simpl in *; rewrite ?upd_same; try done.
    + intros _. by apply router_ok.
    + unfold router. repeat case_match; by rewrite ?length_insert.
Qed.

Lemma ok_deref left_behind i f g k : (i < NCARS)%nat -> home g = false ->
  (f = i -> ok i g (k (Z.of_nat i))) ->
  (f <> i -> u32 (left_behind f) <> Z.of_nat i -> forall x, u32 x <> Z.of_nat i -> ok i g (k x)) ->
  (f < NCARS)%nat -> (f <> i -> u32 (left_behind f) <> Z.of_nat i) -> ok i g (Read (deref left_behind (Z.of_nat f)) k).
Proof.
  intros Hi Hh H1 H2 Hf Hl s G Hg HI. exists g. split; [by apply learn_nothing|]. unfold deref. rewrite Nat2Z.id.
  destruct (decide (f = i)) as [->|Hne].
  - pose proof (kw_home _ _ _ (iv_knows _ _ HI i Hi)) as E. rewrite Hg, Hh in E. rewrite E. by apply H1.
  - specialize (Hl Hne). destruct (exited _ _); apply H2; try done. unfold NCARS in *. rewrite u32_small; lia.
Qed.

(** ** The code of a car *)

Lemma way_range c k : 0 <= way c k < 4.
Proof. unfold way. apply Z.mod_pos_bound. lia. Qed.

Lemma way_first c : way c 1 = dir c.
Proof. unfold way. pose proof (dir_range c). rewrite Z.mod_small; lia. Qed.

Lemma way_next c k : way c (k + 1) = (way c k + 3) mod 4.
Proof. unfold way. rewrite Zplus_mod_idemp_l. f_equal. lia. Qed.

Lemma next_region r : 0 <= r < 4 -> (r + 3) mod 4 <> r.
Proof. intros Hr. assert (r = 0 \/ r = 1 \/ r = 2 \/ r = 3) as [->|[->|[->| ->]]] by lia; done. Qed.

Lemma dest_facts c : 0 <= dest c < 4 /\ dest c <> dir c /\ (2 <= last c <= 4)%nat.
Proof.
  unfold destdirection, last. split; [apply Z.mod_pos_bound; lia|].
  destruct (turn_range c) as [->|[->| ->]]; simpl; (split; [|lia]); destruct (dir_cases c) as [->|[->|[->| ->]]]; done.
Qed.

Lemma which_way r (k : Z -> code_t) o : 0 <= r < 4 -> which (r + 10) k o = k r.
Proof. intros Hr. assert (r = 0 \/ r = 1 \/ r = 2 \/ r = 3) as [->|[->|[->| ->]]] by lia; done. Qed.

Definition in_ (c i : nat) : gh := mk_gh true false [way c (Z.of_nat i)] false None None true false false None (Z.of_nat i) false.

Lemma at_in c i : (0 < i < last c)%nat -> at_ c i = in_ c i.
Proof. intros H. unfold at_, in_. destruct (Nat.eqb_spec i 0); [lia|]. destruct (Nat.ltb_spec i (last c)); [done|lia]. Qed.

Lemma at_last c : at_ c (last c) = mk_gh true false [] false None None false false false None 4 false.
Proof. unfold at_. pose proof (dest_facts c). destruct (Nat.eqb_spec (last c) 0); [lia|]. by rewrite Nat.ltb_irrefl. Qed.

Lemma ok_loop c i rs g : (c < NCARS)%nat -> (i <= last c)%nat -> g = at_ c i -> ((0 < i < last c)%nat -> rs = Some (way c (Z.of_nat i))) ->
  ok c g (Loop (Drive i rs)).
Proof. intros H1 H2 H3 H4. by simpl. Qed.

Lemma ok_loop_in c i : (c < NCARS)%nat -> (0 < i < last c)%nat -> ok c (in_ c i) (Loop (Drive i (Some (way c (Z.of_nat i))))).
Proof. intros Hc H. apply ok_loop; [done|lia|by rewrite at_in|done]. Qed.

Ltac go := match goal with
  | |- ok _ _ (P _ _) => apply ok_take; [done|by repeat split; first [apply way_range|apply dir_range|done]|]; cbn [take]
  | |- ok _ _ (V _ _) => apply ok_give; [done|simpl; try done; by apply bool_decide_eq_true_2|]; cbn [give]
  end.

Lemma ok_leaving c i : (c < NCARS)%nat -> (0 < i)%nat -> S i = last c ->
  ok c (in_ c i) (leaving c i (Some (way c (Z.of_nat i)))).
Proof.
  intros Hc Hi Hl. unfold leaving, in_. apply ok_say; [done|lia|]. cbn [set_words]. go.
  apply (ok_entry c i (way c (Z.of_nat i) + 10)); [done|done|intros row (_ & _ & Hr); apply Hr; lia|].
  replace (way c (Z.of_nat i) + 10 - 10) with (way c (Z.of_nat i)) by lia.
  apply (ok_clear c _ []); [done|set_solver|set_solver|simpl; lia|]. cbn [set_own]. go. go.
  apply ok_count; [done|done|]. intros m Hm _. cbn [set_known].
  apply (ok_set_count c false m); [done|done|done|done|simpl; lia|done|]. cbn [set_counted]. go.
  apply ok_loop; [done|lia|by rewrite Hl, at_last|lia].
Qed.

Lemma ok_inside c i : (c < NCARS)%nat -> (0 < i)%nat -> (S i < last c)%nat ->
  ok c (in_ c i) (inside c i (Some (way c (Z.of_nat i))) (way c (Z.of_nat (S i)) + 10)).
Proof.
  intros Hc Hi Hl. unfold inside. rewrite which_way by apply way_range. unfold in_. go.
  assert (way c (Z.of_nat (S i)) <> way c (Z.of_nat i)) as Hne.
  { replace (Z.of_nat (S i)) with (Z.of_nat i + 1) by lia. rewrite way_next. apply next_region, way_range. }
  apply ok_look; [done|done|apply way_range| |].
  - cbn [set_free Z.eqb]. apply ok_enter; [done|done|done|]. cbn [set_own own].
    apply ok_say; [done|intros _; simpl; set_solver|]. cbn [set_words].
    apply (ok_entry c i (way c (Z.of_nat i) + 10)); [done|done|intros row (_ & _ & Hr); apply Hr; lia|].
    replace (way c (Z.of_nat i) + 10 - 10) with (way c (Z.of_nat i)) by lia.
    apply (ok_clear c _ [way c (Z.of_nat (S i))]); [done|set_solver|simpl; set_solver|intros _; simpl; set_solver|].
    cbn [set_own]. go. apply ok_loop_in; [done|lia].
  - intros x Hx. apply Z.eqb_neq in Hx. rewrite Hx. cbn [set_first]. go. apply ok_loop_in; [done|lia].
Qed.

Section drivers.
Variables (mem : Z -> bool) (left_behind : nat -> Z).
(** There is memory for the lanes. *)
Hypothesis enough : forall b, mem b = true.
(** The stack of a car that is gone does not happen to hold the number of another car. *)
Hypothesis no_ghosts : forall c j, (c < NCARS)%nat -> (j < NCARS)%nat -> j <> c -> u32 (left_behind c) <> Z.of_nat j.
(** No car from the south goes straight or left. *)
Hypothesis south : forall c, (c < NCARS)%nat -> dir c = 2 -> turn c = 3.

Definition wait_ : gh := mk_gh true true [] false None None false false false None 0 false.

Lemma ok_loop_wait c rs : (c < NCARS)%nat -> ok c wait_ (Loop (Drive 0 rs)).
Proof. intros Hc. apply ok_loop; [done|lia|done|lia]. Qed.

Lemma ok_first c d g (k : Z -> code_t) : (c < NCARS)%nat -> d = dir c -> waits g = true -> home g = false -> gq g = None ->
  ok c (set_first true g) (k (Z.of_nat c)) -> (forall x, u32 x <> Z.of_nat c -> ok c g (k x)) ->
  ok c g (P (q_sem d) (Get (firstcar d) (fun f => V (q_sem d) (Read (deref left_behind f) k)))).
Proof.
  intros Hc -> Hw Hh Hq Hk Hk'. destruct g as [ro wa ow n a q co fi fr kn wo ho]; simpl in Hw, Hh, Hq; subst. go.
  apply ok_firstcar; [done|done| |].
  - cbn [set_first]. go. apply (ok_deref left_behind c c); try done.
  - intros f Hf Hne. go. apply (ok_deref left_behind c f); try done. intros _. by apply no_ghosts.
Qed.

Lemma u32_car c : (c < NCARS)%nat -> u32 (Z.of_nat c) =? Z.of_nat c = true.
Proof. intros Hc. unfold NCARS in Hc. rewrite u32_small by lia. apply Z.eqb_refl. Qed.

Lemma ok_approaching c : (c < NCARS)%nat -> crosses c = true -> forall rs,
  ok c wait_ (approaching left_behind c 0 rs (dir c) (dir c + 10)).
Proof.
  intros Hc Hx rs. unfold approaching, wait_. pose proof (dest_facts c) as (_ & _ & Hl). go.
  apply ok_count; [done|done|]. intros m Hm _. cbn [set_known].
  destruct (Z.ltb_spec m 3) as [Hm3|_]; [|go; by apply ok_loop_wait].
  apply ok_first; [done..| |intros x Hne; apply Z.eqb_neq in Hne; rewrite Hne, andb_false_r; go; by apply ok_loop_wait].
  cbn [set_first]. rewrite u32_car by done. change (bool_decide (0%nat = 0%nat) && true) with true. cbn iota.
  rewrite which_way by apply dir_range. cbn beta. pose proof (way_first c) as Ew. pose proof (way_range c 1) as Hw. rewrite Ew in Hw. go.
  assert (dir c =? 2 = false) as E2.
  { apply Z.eqb_neq. intros E. specialize (south c Hc E). unfold crosses in Hx. by rewrite south in Hx. }
  apply ok_look; [done|done|done| |intros x Hne; apply Z.eqb_neq in Hne; rewrite Hne; cbn [set_first]; go; go; by apply ok_loop_wait].
  cbn [set_free]. change (0 =? 0) with true. cbn iota zeta. rewrite E2. apply ok_enter; [done|done|done|]. cbn [set_own own]. go.
  apply ok_pop; [done|done|done|]. cbn [set_waits]. go.
  apply ok_count; [done|done|]. intros m' Hm' Em'. specialize (Em' m eq_refl) as ->. cbn [set_known].
  apply (ok_set_count c true m); [done|done|done|done|simpl; lia|done|]. cbn [set_counted].
  apply ok_say; [done|intros _; change (Z.of_nat 1) with 1; rewrite Ew; apply list_elem_of_here|]. cbn [set_words]. go. go.
  rewrite <- Ew. apply (ok_loop_in c 1); [done|lia].
Qed.

Lemma ok_turning c : (c < NCARS)%nat -> crosses c = false -> forall rs,
  ok c wait_ (turnright left_behind (dir c) c (dest c) 0 rs).
Proof.
  intros Hc Hx rs. unfold turnright, wait_. pose proof (dest_facts c) as (Hd & Hdd & Hl).
  pose proof (way_first c) as Ew. pose proof (dir_range c) as Hw.
  apply (ok_entry c 0 (dir c)); [done|done|by intros row (? & _)|].
  destruct (Z.eqb_spec (dir c) (dest c)) as [|_]; [congruence|]. cbn [orb negb Nat.ltb Nat.leb].
  apply (ok_entry c 1 (dir c + 10)); [done|done|intros row (_ & _ & Hr); rewrite <- Ew; apply (Hr 1%nat); lia|].
  destruct (Z.eqb_spec (dir c + 10) (dest c)) as [|_]; [lia|].
  apply ok_first; [done..| |intros x Hne; apply Z.eqb_neq in Hne; rewrite Hne, andb_false_r; by apply ok_loop_wait].
  cbn [set_first]. rewrite u32_car by done. change (bool_decide (0%nat = 0%nat) && true) with true. cbn iota.
  rewrite which_way by done. cbn beta. go.
  apply ok_look; [done|done|done| |intros x Hne; apply Z.eqb_neq in Hne; rewrite Hne; cbn [set_first]; go; by apply ok_loop_wait].
  cbn [set_free]. change (0 =? 0) with true. cbn iota zeta. apply ok_enter; [done|done|done|]. cbn [set_own own]. go. go.
  apply ok_pop; [done|done|done|]. cbn [set_waits]. go. go.
  apply ok_count; [done|done|]. intros m Hm _. cbn [set_known].
  apply (ok_set_count c true m); [done|done|done|done|simpl; lia|by rewrite Hx|]. cbn [set_counted]. go.
  apply ok_say; [done|intros _; change (Z.of_nat 1) with 1; rewrite Ew; apply list_elem_of_here|]. cbn [set_words].
  rewrite <- Ew. apply (ok_loop_in c 1); [done|lia].
Qed.

Lemma crosses_turn c : crosses c = (turn c =? 2) || (turn c =? 1).
Proof. unfold crosses. by destruct (turn_range c) as [->|[->| ->]]. Qed.

(** A car in the intersection, whatever its turn. *)
Lemma ok_driving c i g : (c < NCARS)%nat -> (0 < i < last c)%nat -> g = in_ c i ->
  ok c g (code mem rnd1 rnd2 left_behind c (Drive i (Some (way c (Z.of_nat i))))).
Proof.
  intros Hc Hi ->. pose proof (dest_facts c) as (Hd & Hdd & Hl). pose proof (way_range c (Z.of_nat i)) as Hw.
  pose proof (way_range c (Z.of_nat (S i))) as Hw'. unfold code. cbn zeta. rewrite <- crosses_turn.
  assert (crosses c = false -> S i = last c) as Hright.
  { unfold crosses. intros E. apply negb_false_iff in E. unfold last in *. destruct (Z.eqb_spec (turn c) 2); [lia|]. rewrite E in *. lia. }
  destruct (crosses c) eqn:Ex.
  - unfold gostraightorleft. apply (ok_entry c i (way c (Z.of_nat i) + 10)); [done|done|by intros row (_ & _ & Hr); apply Hr|].
    destruct (Z.eqb_spec (way c (Z.of_nat i) + 10) (dest c)) as [|_]; [lia|]. destruct (decide (S i = last c)) as [E|Hne].
    + apply (ok_entry c (S i) (dest c)); [done|done|rewrite E; by intros row (_ & ? & _)|]. rewrite Z.eqb_refl. apply ok_leaving; [done|lia|done].
    + apply (ok_entry c (S i) (way c (Z.of_nat (S i)) + 10)); [done|done|intros row (_ & _ & Hr); apply Hr; lia|].
      destruct (Z.eqb_spec (way c (Z.of_nat (S i)) + 10) (dest c)) as [|_]; [lia|].
      destruct (Nat.ltb_spec 0 i); [|lia]. apply ok_inside; [done|lia|lia].
  - specialize (Hright eq_refl). unfold crosses in Ex. apply negb_false_iff in Ex. rewrite Ex. unfold turnright.
    apply (ok_entry c i (way c (Z.of_nat i) + 10)); [done|done|by intros row (_ & _ & Hr); apply Hr|].
    destruct (Z.eqb_spec (way c (Z.of_nat i) + 10) (dest c)) as [|_]; [lia|].
    destruct (Nat.ltb_spec i 4); [|lia]. cbn [orb negb].
    apply (ok_entry c (S i) (dest c)); [done|done|rewrite Hright; by intros row (_ & ? & _)|]. rewrite Z.eqb_refl.
    apply ok_leaving; [done|lia|done].
Qed.

Lemma car_code_ok c l g : at_head c l g -> ok c g (code mem rnd1 rnd2 left_behind c l).
Proof.
  intros [Hc Hh]. destruct l as [|i rs].
  - simpl in Hh. subst g. unfold code, approachintersection, at_start. cbn zeta. go.
    apply ok_join; [done|done|done|]. cbn [set_waits]. apply ok_say; [done|lia|]. cbn [set_words]. go.
    apply ok_route; [done|]. by apply ok_loop_wait.
  - destruct Hh as (Hi & -> & Hrs). pose proof (dest_facts c) as (Hd & Hdd & Hl). destruct (decide (i = 0%nat)) as [->|Hi0].
    + change (at_ c 0) with wait_. unfold code. cbn zeta. rewrite <- crosses_turn. destruct (crosses c) eqn:Ex.
      * unfold gostraightorleft. apply (ok_entry c 0 (dir c)); [done|done|by intros row (? & _)|].
        destruct (Z.eqb_spec (dir c) (dest c)) as [|_]; [congruence|].
        apply (ok_entry c 1 (dir c + 10)); [done|done|intros row (_ & _ & Hr); rewrite <- way_first; apply (Hr 1%nat); lia|].
        destruct (Z.eqb_spec (dir c + 10) (dest c)) as [|_]; [pose proof (dir_range c); lia|]. by apply ok_approaching.
      * assert (turn c =? 3 = true) as -> by (by apply negb_false_iff). by apply ok_turning.
    + destruct (decide (i = last c)) as [->|Hne]; [|rewrite Hrs by lia; apply ok_driving; [done|lia|apply at_in; lia]].
      rewrite at_last. unfold code. cbn zeta. rewrite <- crosses_turn. unfold at_end.
      assert (ok c (mk_gh true false [] false None None false false false None 4 false) (finish c)) as Hf.
      { apply ok_finish; [done|]. unfold at_end. by rewrite at_last. }
      destruct (crosses c) eqn:Ex; [|assert (turn c =? 3 = true) as -> by (by apply negb_false_iff)];
        (apply (ok_entry c (last c) (dest c)); [done|done|by intros row (_ & ? & _)|]); rewrite Z.eqb_refl; done.
Qed.

(** ** Safety *)

Variable old : nat -> list Z.
Hypothesis rows : forall c, length (old c) = 5%nat.

Notation step := (step (code mem rnd1 rnd2 left_behind)).
Notation sound := (sound inv at_head at_end order (fun _ _ _ => True)).

Definition reachable (c : config) : Prop := exists c0, createcars mem old = Some c0 /\ rtc step c0 c.

Lemma cars_start_sound c0 : createcars mem old = Some c0 -> sound c0 (fun _ => at_start).
Proof.
  unfold createcars, Queue.q_create. rewrite !enough. change (u32 (20 * 4)) with 80. simpl. intros [= <-]. split.
  - constructor; simpl; try done.
    + by intros [].
    + intros r Hr. assert (r = 0 \/ r = 1 \/ r = 2 \/ r = 3) as [->|[->|[->| ->]]] by lia; done.
    + rewrite sum_n_zero; [done|]. intros j _. simpl. by rewrite andb_false_r.
    + intros d Hd. repeat case_match; (split; [done|]); (split; [done|]); exists []; (split; [done|]);
        (split; [constructor|]); intros j; simpl; set_solver.
    + intros c Hc. constructor; simpl; try done. lia.
  - intros i p Hp. apply (lookup_replicate NCARS (Loop Start)) in Hp as [-> Hi]. by simpl.
Qed.

Lemma cars_reachable_sound c : reachable c -> exists G, sound c G /\ length (progs c) = NCARS.
Proof.
  intros (c0 & E & H). destruct (steps_sound _ _ _ _ _ _ car_code_ok _ _ _ H (cars_start_sound c0 E)) as [G HG].
  exists G. split; [done|]. rewrite (steps_length _ _ _ H).
  unfold createcars, Queue.q_create in E. rewrite !enough in E. simpl in E. by injection E as <-.
Qed.

(** Where a car is according to its last message. *)
Definition position (c : nat) (v : globals) : option Z :=
  if (1 <=? said v c) && (said v c <=? 3) then Some (way c (said v c)) else None.

Lemma position_own s G c r : inv s G -> (c < NCARS)%nat -> position c (vars s) = Some r -> 0 <= r < 4 /\ r ∈ own (G c).
Proof.
  intros HI Hc. unfold position. destruct (_ && _) eqn:E; [|done]. intros [= <-]. split; [apply way_range|].
  apply andb_true_iff in E as [E1%Z.leb_le E2%Z.leb_le]. rewrite (kw_words _ _ _ (iv_knows _ _ HI c Hc)) in *.
  by apply (go_words _ _ (iv_ok _ _ HI c Hc)).
Qed.

(** ** Coming to rest *)

(** The car holds nothing of rank [R] or higher: [numcars_sem] has rank 0, the regions
    have rank 1, the lanes 2. *)
Definition clear (R : nat) (g : gh) : bool :=
  match R with
  | 0%nat => negb (gn g) && bool_decide (ga g = None) && bool_decide (gq g = None)
  | 1%nat => bool_decide (ga g = None) && bool_decide (gq g = None)
  | 2%nat => bool_decide (gq g = None)
  | _ => true
  end.

Lemma clear_S R g : clear R g = true -> clear (S R) g = true.
Proof. destruct R as [|[|[|R]]]; simpl; rewrite ?andb_true_iff; tauto. Qed.

Lemma clear_0 R g : clear 0 g = true -> clear R g = true.
Proof. intros H. induction R as [|R IH]; [done|by apply clear_S]. Qed.

Lemma at_holds c i : clear 0 (at_ c i) = true.
Proof. unfold at_. by repeat case_match. Qed.

Lemma head_clear c l g : at_head c l g -> clear 0 g = true.
Proof. intros [_ H]. destruct l; [by subst|]. destruct H as (_ & -> & _). apply at_holds. Qed.

Lemma end_clear c g : at_end c g -> clear 0 g = true.
Proof. intros ->. by rewrite at_last. Qed.

(** A semaphore that nobody holds is free. *)
Lemma nobody s G x : inv s G -> (forall j, (j < NCARS)%nat -> holds x (G j) = false) -> 0 < sem s x.
Proof. intros HI H. rewrite (iv_sem _ _ HI), sum_n_zero; [lia|]. intros j Hj. by rewrite H. Qed.

Lemma clear_holds R x g : clear R g = true ->
  match x with numcars_sem => R = 0%nat | access _ => (R <= 1)%nat | q_sem _ => (R <= 2)%nat end -> holds x g = false.
Proof.
  intros Hc Hx. destruct x; simpl; [subst R|destruct R as [|[|]]; try lia|destruct R as [|[|[|]]]; try lia]; simpl in Hc;
    rewrite ?andb_true_iff, ?bool_decide_eq_true, ?negb_true_iff in Hc; destruct_and?; try done;
    apply bool_decide_eq_false_2; congruence.
Qed.

Lemma order_holds g x : order g (inl x) -> holds x g = false.
Proof. destruct x; simpl; intros; destruct_and?; try done; apply bool_decide_eq_false_2; congruence. Qed.

Definition others (R i : nat) (G : nat -> gh) : Prop := forall j, (j < NCARS)%nat -> j <> i -> clear R (G j) = true.

Lemma others_upd R i G g : others R i G -> others R i (upd G i g).
Proof. intros H j Hj Hne. rewrite upd_other by done. by apply H. Qed.

(** What a car that holds something of rank [R] asks for is free, when nobody holds
    anything of higher rank. *)
Lemma asks_free R s G i r : inv s G -> (i < NCARS)%nat -> others (S R) i G -> clear R (G i) = false -> order (G i) r -> ~ taken s r.
Proof.
  intros HI Hi Ho Hc Hr. destruct r as [x|[]]. simpl. apply Z.nle_gt, (nobody s G x HI). intros j Hj.
  destruct (decide (j = i)) as [->|Hne]; [by apply order_holds|]. apply (clear_holds (S R)); [by apply Ho|].
  simpl in Hr. destruct R as [|[|[|R]]]; simpl in Hc; destruct x; destruct_and?; try done; try lia;
    rewrite ?andb_false_iff, ?bool_decide_eq_false, ?negb_false_iff in Hc; intuition congruence.
Qed.

(** What a car asks for is free, when the others hold nothing. *)
Lemma all_free s G i r : inv s G -> (i < NCARS)%nat -> others 0 i G -> order (G i) r -> ~ taken s r.
Proof.
  intros HI Hi Ho Hr. destruct r as [x|[]]. simpl. apply Z.nle_gt, (nobody s G x HI). intros j Hj.
  destruct (decide (j = i)) as [->|Hne]; [by apply order_holds|]. apply (clear_holds 0); [by apply Ho|]. destruct x; lia.
Qed.

(** Car [i] gives up what it holds of rank [R]. *)
Lemma lower R c G i : sound c G -> length (progs c) = NCARS -> (i < NCARS)%nat -> others (S R) i G ->
  exists c' G', rtc step c c' /\ sound c' G' /\ clear R (G' i) = true /\ forall j, j <> i -> G' j = G j.
Proof.
  intros Hs Hlen Hi Ho. destruct c as [s ps]. pose proof Hs as [HI Hok]. simpl in *.
  destruct (lookup_lt_is_Some_2 ps i) as [p Hp]; [lia|].
  destruct (solo_until (code mem rnd1 rnd2 left_behind) inv at_head at_end order (fun _ _ _ => True) (clear R) (others (S R) i) i) with (p := p) (s := s) (G := G) (ps := ps)
    as (s' & G' & p' & H1 & H2 & H3 & H4 & H5); try done.
  - intros G0 g. apply others_upd.
  - intros s0 G0 r HI0 HQ Hc Hr. by apply (asks_free R s0 G0 i).
  - by apply Hok.
  - exists (mk_config s' (<[i := p']> ps)), G'. split; [done|]. split; [by apply (sound_insert inv at_head at_end order _ s' G' (mk_config s ps) i p' G)|].
    split; [|done]. destruct H5 as [H5|[[l ->]| ->]]; [done|apply clear_0, (head_clear i l), H4|apply clear_0, (end_clear i), H4].
Qed.

(** The first [k] cars do, one after the other. *)
Lemma sweep R k c G : sound c G -> length (progs c) = NCARS -> (forall j, (j < NCARS)%nat -> clear (S R) (G j) = true) -> (k <= NCARS)%nat ->
  exists c' G', rtc step c c' /\ sound c' G' /\ (forall j, (j < NCARS)%nat -> clear (S R) (G' j) = true) /\
    forall j, (j < k)%nat -> clear R (G' j) = true.
Proof.
  intros Hs Hlen Hall. induction k as [|k IH]; intros Hk. { exists c, G. split; [constructor|]. split; [done|]. split; [done|]. lia. }
  destruct IH as (c1 & G1 & H1 & H2 & H3 & H4); [lia|]. pose proof (steps_length _ _ _ H1) as Hl.
  destruct (lower R c1 G1 k) as (c' & G' & K1 & K2 & K3 & K4); [done|lia|lia|intros j Hj _; by apply H3|].
  exists c', G'. split; [by etrans|]. split; [done|]. split.
  - intros j Hj. destruct (decide (j = k)) as [->|Hne]; [by apply clear_S|]. rewrite K4 by done. by apply H3.
  - intros j Hj. destruct (decide (j = k)) as [->|Hne]; [done|]. rewrite K4 by done. apply H4. lia.
Qed.

(** Nobody holds anything. *)
Lemma all_clear R c G : sound c G -> length (progs c) = NCARS -> (forall j, (j < NCARS)%nat -> clear R (G j) = true) ->
  exists c' G', rtc step c c' /\ sound c' G' /\ forall j, (j < NCARS)%nat -> clear 0 (G' j) = true.
Proof.
  revert c G. induction R as [|R IH]; intros c G Hs Hlen Hall. { exists c, G. split; [constructor|]. done. }
  destruct (sweep R NCARS c G) as (c1 & G1 & H1 & H2 & _ & H4); [done..|]. pose proof (steps_length _ _ _ H1) as Hl.
  destruct (IH c1 G1 H2) as (c' & G' & K1 & K2 & K3); [lia|done|]. exists c', G'. split; [by etrans|]. done.
Qed.

(** A car at the head of its loop or at its end. *)
Definition rests (c : config) (j : nat) : Prop :=
  (exists l, progs c !! j = Some (Loop l : code_t)) \/ progs c !! j = Some (Return : code_t).

Lemma rests_clear c G j : sound c G -> rests c j -> clear 0 (G j) = true.
Proof. intros [_ Hok] [[l Hp]|Hp]; [apply (head_clear j l), (Hok j _ Hp)|apply (end_clear j), (Hok j _ Hp)]. Qed.

(** A car that runs alone comes to rest, and where the ends of its program are. *)
Lemma goes_home good c G i p : sound c G -> length (progs c) = NCARS -> others 0 i G -> progs c !! i = Some p -> leaves good p ->
  exists c' G' p', rtc step c c' /\ sound c' G' /\ progs c' = <[i := p']> (progs c) /\ (forall j, j <> i -> G' j = G j) /\
    good p' /\ ((exists l, p' = Loop l) \/ p' = Return).
Proof.
  intros Hs Hlen Ho Hp Hl. destruct c as [s ps]. pose proof Hs as [HI Hok]. simpl in *.
  pose proof (lookup_lt_Some _ _ _ Hp) as Hi.
  destruct (solo (code mem rnd1 rnd2 left_behind) inv (fun i l g => at_head i l g /\ good (Loop l))
    (fun i g => at_end i g /\ good Return) order (fun _ _ _ => True) (others 0 i) i)
    with (p := p) (s := s) (G := G) (ps := ps) as (s' & G' & p' & H1 & H2 & H3 & H4); try done.
  - intros G0 g. apply others_upd.
  - intros s0 G0 r HI0 HQ Hr. apply (all_free s0 G0 i); try done. lia.
  - by apply ok_leaves; [apply Hok|].
  - exists (mk_config s' (<[i := p']> ps)), G', p'. split; [done|]. destruct H4 as [(l & -> & Hh & Hg)|(-> & He & Hg)].
    + split; [by apply (sound_insert inv at_head at_end order _ s' G' (mk_config s ps) i _ G)|]. eauto 10.
    + split; [by apply (sound_insert inv at_head at_end order _ s' G' (mk_config s ps) i _ G)|]. eauto 10.
Qed.

Lemma leaves_any (p : code_t) : leaves (fun _ => True) p.
Proof. induction p; simpl; auto. Qed.

Lemma rest_all k c G : sound c G -> length (progs c) = NCARS -> (forall j, (j < NCARS)%nat -> clear 0 (G j) = true) -> (k <= NCARS)%nat ->
  exists c' G', rtc step c c' /\ sound c' G' /\ (forall j, (j < NCARS)%nat -> clear 0 (G' j) = true) /\
    forall j, (j < k)%nat -> rests c' j.
Proof.
  intros Hs Hlen Hall. induction k as [|k IH]; intros Hk. { exists c, G. split; [constructor|]. split; [done|]. split; [done|]. lia. }
  destruct IH as (c1 & G1 & H1 & H2 & H3 & H4); [lia|]. pose proof (steps_length _ _ _ H1) as Hl.
  destruct (lookup_lt_is_Some_2 (progs c1) k) as [p Hp]; [lia|].
  destruct (goes_home (fun _ => True) c1 G1 k p) as (c' & G' & p' & K1 & K2 & K3 & K4 & _ & K5);
    [done|lia|intros j Hj _; by apply H3|done|apply leaves_any|].
  assert (rests c' k) as Hrk. { unfold rests. rewrite K3, list_lookup_insert_eq by lia. destruct K5 as [[l ->]| ->]; eauto. }
  exists c', G'. split; [by etrans|]. split; [done|]. split.
  - intros j Hj. destruct (decide (j = k)) as [->|Hne]; [by apply (rests_clear c')|]. rewrite K4 by done. by apply H3.
  - intros j Hj. destruct (decide (j = k)) as [->|Hne]; [done|]. unfold rests. rewrite K3, list_lookup_insert_ne by done. apply H4. lia.
Qed.

Definition at_rest (c : config) : Prop := forall j, (j < NCARS)%nat -> rests c j.

Lemma come_to_rest c G : sound c G -> length (progs c) = NCARS -> exists c' G', rtc step c c' /\ sound c' G' /\ at_rest c'.
Proof.
  intros Hs Hlen. destruct (all_clear 3 c G) as (c1 & G1 & H1 & H2 & H3); [done..|]. pose proof (steps_length _ _ _ H1) as Hl.
  destruct (rest_all NCARS c1 G1) as (c2 & G2 & K1 & K2 & _ & K4); [done|lia|done|done|].
  exists c2, G2. split; [by etrans|]. done.
Qed.

(** ** Getting through *)

(** How far a car at rest has to go. *)
Definition todo (p : code_t) : nat :=
  match p with Loop Start => 7 | Loop (Drive i _) => 6 - i | _ => 0 end.

Notation tsteps := (tsteps (code mem rnd1 rnd2 left_behind)).

(** A car at rest goes on, alone, to where its way to the end of the round is clear, and
    then to the end. *)
Lemma advance c G i p s1 p1 : sound c G -> at_rest c -> length (progs c) = NCARS -> progs c !! i = Some p ->
  tsteps i (Conc.mem c, p) (s1, p1) -> leaves (fun q => (todo q < todo p)%nat) p1 ->
  exists c' G' p', rtc step c c' /\ sound c' G' /\ at_rest c' /\ progs c' = <[i := p']> (progs c) /\ (todo p' < todo p)%nat.
Proof.
  intros Hs Hr Hlen Hp Ht Hl. destruct c as [s ps]. simpl in *. pose proof (tsteps_steps _ _ _ _ _ _ ps Ht Hp) as H1.
  destruct (steps_sound _ _ _ _ _ _ car_code_ok _ _ _ H1 Hs) as [G1 HG1]. pose proof (lookup_lt_Some _ _ _ Hp) as Hi.
  assert (forall q c1, progs c1 = <[i := q]> ps -> forall j, (j < NCARS)%nat -> j <> i -> rests c1 j) as Hrest.
  { intros q c1 E j Hj Hne. unfold rests. rewrite E, list_lookup_insert_ne by done. by apply (Hr j). }
  destruct (goes_home (fun q => (todo q < todo p)%nat) _ G1 i p1 HG1) as (c' & G' & p' & K1 & K2 & K3 & _ & K5 & K6).
  - simpl. by rewrite length_insert.
  - intros j Hj Hne. apply (rests_clear _ _ j HG1). by apply (Hrest p1).
  - simpl. by apply list_lookup_insert_eq.
  - done.
  - simpl in K3. rewrite list_insert_insert_eq in K3. exists c', G', p'. split; [by etrans|]. split; [done|]. split; [|done].
    intros j Hj. destruct (decide (j = i)) as [->|Hne]; [|by apply (Hrest p')].
    unfold rests. rewrite K3, list_lookup_insert_eq by done. destruct K6 as [[l ->]| ->]; eauto.
Qed.

(** *** A car on its own, up to where its way is clear *)

Ltac positive := simpl; repeat case_decide; simplify_eq;
  match goal with H : forall x, 0 < sem ?s x |- context [sem ?s ?x] => specialize (H x); lia end.
Ltac st := eapply tsteps_l; [match goal with
  | |- tstep _ _ _ (Loop _) _ _ => apply s_loop
  | |- tstep _ _ _ (Read _ _) _ _ => apply s_read
  | |- tstep _ _ _ (Get _ _) _ _ => apply s_get; eassumption
  | |- tstep _ _ _ (P _ _) _ _ => apply s_P; positive
  | |- tstep _ _ _ (V _ _) _ _ => apply s_V; positive
  end|]; cbn beta.

Ltac lv := repeat (first [intros ?|progress cbn [leaves message finish]]); cbn [todo]; lia.

Section alone.
Variables (c : nat) (s : shared (S := globals) (Sm := sm) (Lk := Empty_set)).
Hypothesis Hc : (c < NCARS)%nat.
Hypothesis row : row_ok c (car_route (vars s) c).
Hypothesis sems : forall x, 0 < sem s x.

Lemma entry_in i : (0 < i < last c)%nat -> entry c i (vars s) = Some (way c (Z.of_nat i) + 10).
Proof. destruct row as (_ & _ & Hr). apply Hr. Qed.

Lemma entry_dest : entry c (last c) (vars s) = Some (dest c).
Proof. by destruct row as (_ & ? & _). Qed.

Lemma entry_0 : entry c 0 (vars s) = Some (dir c).
Proof. by destruct row as (? & _). Qed.

(** At its destination the car has nothing left to do. *)
Lemma run_last rs : tsteps c (s, Loop (Drive (last c) rs)) (s, finish c).
Proof.
  st. pose proof entry_dest as E. unfold code. cbn zeta. rewrite <- crosses_turn. destruct (crosses c) eqn:Ex.
  - unfold gostraightorleft. st. rewrite Z.eqb_refl. constructor.
  - apply negb_false_iff in Ex. rewrite Ex. unfold turnright. st. rewrite Z.eqb_refl. constructor.
Qed.

Lemma run_leave i rs : (0 < i)%nat -> S i = last c -> tsteps c (s, Loop (Drive i rs)) (s, leaving c i rs).
Proof.
  intros Hi Hl. pose proof (dest_facts c) as (Hd & _ & Hl4). st. pose proof (entry_in i ltac:(lia)) as E. pose proof entry_dest as E'. rewrite <- Hl in E'.
  pose proof (way_range c (Z.of_nat i)). assert (way c (Z.of_nat i) + 10 =? dest c = false) as En by (apply Z.eqb_neq; lia).
  unfold code. cbn zeta. rewrite <- crosses_turn. destruct (crosses c) eqn:Ex.
  - unfold gostraightorleft. st. rewrite En. st. rewrite Z.eqb_refl. constructor.
  - apply negb_false_iff in Ex. rewrite Ex. unfold turnright. st. rewrite En. destruct (Nat.ltb_spec i 4); [|lia]. cbn [orb negb].
    st. rewrite Z.eqb_refl. constructor.
Qed.

(** The next region is free. *)
Lemma run_inside i rs : (0 < i)%nat -> (S i < last c)%nat -> get_region (way c (Z.of_nat (S i))) (vars s) = Some 0 ->
  exists s1 p1, tsteps c (s, Loop (Drive i rs)) (s1, p1) /\ leaves (fun q => (todo q < 6 - i)%nat) p1.
Proof.
  intros Hi Hl Hr. pose proof (dest_facts c) as (Hd & _ & Hl4). pose proof (entry_in i ltac:(lia)) as E. pose proof (entry_in (S i) ltac:(lia)) as E'.
  pose proof (way_range c (Z.of_nat i)). pose proof (way_range c (Z.of_nat (S i))) as Hw.
  assert (crosses c = true) as Ex.
  { unfold crosses, last in *. destruct (Z.eqb_spec (turn c) 2) as [->|]; [done|]. destruct (turn c =? 3); [lia|done]. }
  eexists _, _. split.
  - st. unfold code. cbn zeta. rewrite <- crosses_turn, Ex. unfold gostraightorleft. st.
    destruct (Z.eqb_spec (way c (Z.of_nat i) + 10) (dest c)) as [|_]; [lia|]. st.
    destruct (Z.eqb_spec (way c (Z.of_nat (S i)) + 10) (dest c)) as [|_]; [lia|].
    destruct (Nat.ltb_spec 0 i); [|lia]. unfold inside. rewrite which_way by done. cbn beta. st.
    eapply tsteps_l; [apply s_get; exact Hr|]. cbn beta. change (0 =? 0) with true. cbn iota. constructor.
  - lv.
Qed.

(** The car is first, its region is free, and there are less than three cars. *)
Hypothesis first_in_lane : firstcar (dir c) (vars s) = Some (Z.of_nat c).
Hypothesis here : exited (vars s) c = false.
Hypothesis region_free : get_region (dir c) (vars s) = Some 0.
Hypothesis less_than_three : num_cars (vars s) < 3.

Lemma deref_self : deref left_behind (Z.of_nat c) (vars s) = Z.of_nat c.
Proof. unfold deref. by rewrite Nat2Z.id, here. Qed.

Lemma run_enter rs : exists s1 p1, tsteps c (s, Loop (Drive 0 rs)) (s1, p1) /\ leaves (fun q => (todo q < 6)%nat) p1.
Proof.
  pose proof (dest_facts c) as (Hd & Hdd & Hl). pose proof entry_0 as E. pose proof (entry_in 1 ltac:(lia)) as E'.
  change (Z.of_nat 1) with 1 in E'. rewrite way_first in E'. pose proof (dir_range c) as Hw.
  assert (dir c =? dest c = false) as En by (by apply Z.eqb_neq). assert (dir c + 10 =? dest c = false) as En' by (apply Z.eqb_neq; lia).
  destruct (crosses c) eqn:Ex.
  - assert (dir c =? 2 = false) as E2.
    { apply Z.eqb_neq. intros E2. specialize (south c Hc E2). unfold crosses in Ex. by rewrite south in Ex. }
    eexists _, _. split.
    + st. unfold code. cbn zeta. rewrite <- crosses_turn, Ex. unfold gostraightorleft. st. rewrite En. st. rewrite En'.
      cbn [Nat.ltb Nat.leb]. unfold approaching. st. st. change (vars (set_sem s numcars_sem (sem s numcars_sem - 1))) with (vars s).
      rewrite (proj2 (Z.ltb_lt _ _) less_than_three). st. eapply tsteps_l; [apply s_get; exact first_in_lane|]. cbn beta. st. st.
      change (vars (set_sem _ _ _)) with (vars s). rewrite deref_self, u32_car by done. change (bool_decide (0%nat = 0%nat) && true) with true. cbn iota.
      rewrite which_way by done. cbn beta. st. eapply tsteps_l; [apply s_get; exact region_free|]. cbn beta.
      change (0 =? 0) with true. cbn iota zeta. rewrite E2. constructor.
    + lv.
  - eexists _, _. split.
    + st. unfold code. cbn zeta. rewrite <- crosses_turn, Ex. unfold crosses in Ex. apply negb_false_iff in Ex. rewrite Ex.
      unfold turnright. st. rewrite En. cbn [orb negb Nat.ltb Nat.leb]. st. rewrite En'.
      st. eapply tsteps_l; [apply s_get; exact first_in_lane|]. cbn beta. st. st.
      change (vars (set_sem _ _ _)) with (vars s). rewrite deref_self, u32_car by done. change (bool_decide (0%nat = 0%nat) && true) with true. cbn iota.
      rewrite which_way by done. cbn beta. st. eapply tsteps_l; [apply s_get; exact region_free|]. cbn beta.
      change (0 =? 0) with true. cbn iota zeta. constructor.
    + lv.
Qed.

End alone.

(** *** Some car can go on *)

Section somebody.
Variables (c : config (S := globals) (L := locals) (Sm := sm) (Lk := Empty_set)) (G : nat -> gh).
Hypothesis Hs : sound c G.
Hypothesis Hr : at_rest c.
Hypothesis Hlen : length (progs c) = NCARS.

Definition movable : Prop := exists j p s1 p1, progs c !! j = Some p /\ tsteps j (Conc.mem c, p) (s1, p1) /\
  leaves (fun q => (todo q < todo p)%nat) p1.

Definition drives (j k : nat) : Prop := (j < NCARS)%nat /\ (k <= last j)%nat /\ G j = at_ j k /\
  exists rs, progs c !! j = Some (Loop (Drive k rs)) /\ ((0 < k < last j)%nat -> rs = Some (way j (Z.of_nat k))).

Lemma rest_cases j : (j < NCARS)%nat ->
  (progs c !! j = Some (Loop Start) /\ G j = at_start) \/ (exists k, drives j k) \/ (progs c !! j = Some Return /\ at_end j (G j)).
Proof.
  intros Hj. destruct Hs as [_ Hok]. destruct (Hr j Hj) as [[l Hp]|Hp]; specialize (Hok j _ Hp); simpl in Hok; [|by right; right].
  destruct Hok as [_ Hok]. destruct l as [|k rs]; [by left|]. right; left. exists k. destruct Hok as (H1 & H2 & H3).
  split; [done|]. split; [done|]. split; [done|]. by exists rs.
Qed.

Lemma sems_free x : 0 < sem (Conc.mem c) x.
Proof.
  destruct Hs as [HI _]. apply (nobody _ G x HI). intros j Hj. apply (clear_holds 0); [by apply (rests_clear c G j Hs), Hr|]. destruct x; lia.
Qed.

Lemma drives_row j k : drives j k -> row_ok j (car_route (vars (Conc.mem c)) j).
Proof.
  intros (Hj & _ & Hg & _). destruct Hs as [HI _]. apply (kw_row _ _ _ (iv_knows _ _ HI j Hj)). rewrite Hg. unfold at_. by repeat case_match.
Qed.

(** The cars at rest that own a region or are counted are in the intersection. *)
Lemma rest_inside j : (j < NCARS)%nat -> own (G j) <> [] \/ counted (G j) = true ->
  exists k, drives j k /\ (0 < k < last j)%nat /\ G j = in_ j k.
Proof.
  intros Hj Ho. destruct (rest_cases j Hj) as [[_ E]|[[k Hd]|[_ E]]].
  - rewrite E in Ho. by destruct Ho.
  - exists k. split; [done|]. destruct Hd as (_ & Hk & Hg & _). destruct (decide (0 < k < last j)%nat) as [Hin|Hout]; [by rewrite Hg, at_in|].
    rewrite Hg in Ho. unfold at_ in Ho. destruct (Nat.eqb_spec k 0); [by destruct Ho|]. destruct (Nat.ltb_spec k (last j)); [lia|by destruct Ho].
  - unfold at_end in E. rewrite E, at_last in Ho. by destruct Ho.
Qed.

Lemma occupied r : 0 <= r < 4 -> get_region r (vars (Conc.mem c)) <> Some 0 ->
  exists j k, drives j k /\ (0 < k < last j)%nat /\ G j = in_ j k /\ way j (Z.of_nat k) = r.
Proof.
  intros Hr4 Hne. destruct Hs as [HI _]. rewrite (iv_region _ _ HI r Hr4) in Hne.
  destruct (sum_n_some NCARS (fun j => Z.b2z (owns r (G j)))) as (j & Hj & E).
  { intros E. apply Hne. by rewrite E. }
  simpl in E. destruct (owns r (G j)) eqn:Eo; [|done]. apply bool_decide_eq_true in Eo.
  destruct (rest_inside j Hj) as (k & H1 & H2 & H3). { left. intros Ee. rewrite Ee in Eo. set_solver. }
  exists j, k. split; [done|]. split; [done|]. split; [done|]. rewrite H3 in Eo. simpl in Eo. by apply list_elem_of_singleton in Eo.
Qed.

Lemma inside_step j k : drives j k -> (0 < k < last j)%nat -> movable \/
  crosses j = true /\ exists j' k', drives j' k' /\ (0 < k' < last j')%nat /\ G j' = in_ j' k' /\
    way j' (Z.of_nat k') = (way j (Z.of_nat k) + 3) mod 4.
Proof.
  intros Hd Hk. pose proof (drives_row j k Hd) as Hrow. pose proof Hd as (Hj & _ & _ & rs & Hp & Hrs). rewrite (Hrs Hk) in Hp.
  destruct (decide (S k = last j)) as [E|Hne].
  - left. eexists j, _, _, _. split; [done|]. split; [apply run_leave; done || lia|]. unfold leaving, message. pose proof (dest_facts j). lv.
  - destruct (decide (get_region (way j (Z.of_nat (S k))) (vars (Conc.mem c)) = Some 0)) as [E|Ho].
    + left. destruct (run_inside j (Conc.mem c) Hj Hrow sems_free k (Some (way j (Z.of_nat k)))) as (s1 & p1 & H1 & H2); [lia|lia|done|].
      by eexists j, _, s1, p1.
    + right. split.
      { unfold crosses, last in *. destruct (Z.eqb_spec (turn j) 2) as [->|]; [done|]. destruct (turn j =? 3); [lia|done]. }
      destruct (occupied (way j (Z.of_nat (S k)))) as (j' & k' & H1 & H2 & H3 & H4); [apply way_range|done|].
      exists j', k'. split; [done|]. split; [done|]. split; [done|]. rewrite H4, <- way_next. f_equal. lia.
Qed.

(** Four cars in a circle would be four that go straight or left. *)
Lemma no_gridlock j1 j2 j3 j4 : Forall (fun j => (j < NCARS)%nat /\ crosses j = true /\ counted (G j) = true) [j1; j2; j3; j4] ->
  NoDup [j1; j2; j3; j4] -> False.
Proof.
  intros Hf Hd. destruct Hs as [HI _]. pose proof (iv_three _ _ HI) as H3.
  pose proof (sum_n_part NCARS (fun j => Z.b2z (crosses j && counted (G j))) [j1; j2; j3; j4]) as Hp. simpl in Hp.
  rewrite !Forall_cons in Hf. destruct Hf as ((L1 & C1 & D1) & (L2 & C2 & D2) & (L3 & C3 & D3) & (L4 & C4 & D4) & _).
  rewrite C1, C2, C3, C4, D1, D2, D3, D4 in Hp. simpl in Hp. assert (4 <= 3); [|lia]. etrans; [|apply H3]. apply Hp.
  - intros j _. by destruct (_ && _).
  - done.
  - by repeat apply Forall_cons_2.
Qed.

Lemma inside_progress j k : drives j k -> (0 < k < last j)%nat -> G j = in_ j k -> movable.
Proof.
  intros H1 H2 H3. destruct (inside_step j k H1 H2) as [|(C1 & j2 & k2 & A1 & A2 & A3 & A4)]; [done|].
  destruct (inside_step j2 k2 A1 A2) as [|(C2 & j3 & k3 & B1 & B2 & B3 & B4)]; [done|].
  destruct (inside_step j3 k3 B1 B2) as [|(C3 & j4 & k4 & D1 & D2 & D3 & D4)]; [done|].
  destruct (inside_step j4 k4 D1 D2) as [|(C4 & _)]; [done|]. exfalso.
  apply (no_gridlock j j2 j3 j4).
  - repeat apply Forall_cons_2; [..|done]; (split; [by apply H1 || apply A1 || apply B1 || apply D1|]); (split; [done|]);
      by rewrite ?H3, ?A3, ?B3, ?D3.
  - pose proof (way_range j (Z.of_nat k)) as Hw. rewrite A4 in B4. rewrite B4 in D4.
    assert (forall a ka b kb, G a = in_ a ka -> G b = in_ b kb -> way a (Z.of_nat ka) <> way b (Z.of_nat kb) -> a <> b) as Hdiff.
    { intros a ka b kb Ea Eb Hne ->. rewrite Ea in Eb. injection Eb as Eb _. done. }
    set (w := way j (Z.of_nat k)) in *. assert (w = 0 \/ w = 1 \/ w = 2 \/ w = 3) as Hw4 by lia.
    assert (j <> j2 /\ j <> j3 /\ j <> j4 /\ j2 <> j3 /\ j2 <> j4 /\ j3 <> j4) as Hne.
    { split_and!; [apply (Hdiff j k j2 k2)|apply (Hdiff j k j3 k3)|apply (Hdiff j k j4 k4)|apply (Hdiff j2 k2 j3 k3)
        |apply (Hdiff j2 k2 j4 k4)|apply (Hdiff j3 k3 j4 k4)]; try done; fold w; rewrite ?A4, ?B4, ?D4;
        destruct Hw4 as [E|[E|[E|E]]]; rewrite E; done. }
    destruct Hne as (? & ? & ? & ? & ? & ?). repeat (apply NoDup_cons; split; [set_solver|]). by apply NoDup_nil.
Qed.

Lemma waiting_drives j : (j < NCARS)%nat -> waits (G j) = true -> drives j 0.
Proof.
  intros Hj Hw. destruct (rest_cases j Hj) as [[_ E]|[[k Hd]|[_ E]]].
  - by rewrite E in Hw.
  - destruct Hd as (_ & Hk & Hg & Hrs). assert (k = 0%nat) as ->; [|by split].
    rewrite Hg in Hw. unfold at_ in Hw. destruct (Nat.eqb_spec k 0); [done|]. by destruct (k <? last j)%nat.
  - unfold at_end in E. by rewrite E, at_last in Hw.
Qed.

Lemma some_movable i l : progs c !! i = Some (Loop l) -> movable.
Proof.
  intros Hp. pose proof (lookup_lt_Some _ _ _ Hp) as Hi. rewrite Hlen in Hi.
  destruct (rest_cases i Hi) as [[Hp' _]|[[k Hd]|[Hp' _]]]; [|clear Hp|congruence].
  { eexists i, _, _, _. split; [done|]. split; [eapply tsteps_l; [apply s_loop|constructor]|]. unfold code, approachintersection, message. lv. }
  pose proof Hd as (_ & Hk & Hg & rs & Hp & Hrs). pose proof (dest_facts i) as (_ & _ & Hl).
  destruct (decide (k = last i)) as [->|Hne].
  { eexists i, _, _, _. split; [done|]. split; [apply run_last; by eapply drives_row|]. unfold finish. lv. }
  destruct (decide (k = 0%nat)) as [->|Hk0]; [|apply (inside_progress i k); [done|lia|rewrite Hg; apply at_in; lia]].
  destruct Hs as [HI _]. destruct (lane_head (Conc.mem c) G i (at_ i 0) HI Hi Hg eq_refl) as (f & l' & Hwf & El & Hf & Hdf & Hwait).
  pose proof (waiting_drives f Hf Hwait) as Hdr. rewrite <- Hdf in *.
  destruct (decide (get_region (dir f) (vars (Conc.mem c)) = Some 0)) as [Efree|Ho].
  - destruct (decide (num_cars (vars (Conc.mem c)) < 3)) as [Hn|Hn].
    + pose proof Hdr as (_ & _ & Hgf & rsf & Hpf & _).
      destruct (run_enter f (Conc.mem c)) with (rs := rsf) as (s1 & p1 & H1 & H2); try done.
      * by eapply drives_row.
      * apply sems_free.
      * unfold firstcar. by rewrite (Queue.q_first_spec _ _ _ Hwf El).
      * rewrite (kw_home _ _ _ (iv_knows _ _ HI f Hf)), Hgf. done.
      * by eexists f, _, s1, p1.
    + rewrite (iv_num _ _ HI) in Hn. destruct (sum_n_some NCARS (fun j => Z.b2z (counted (G j)))) as (j & Hj & Ej); [simpl; lia|].
      simpl in Ej. destruct (counted (G j)) eqn:Ec; [|done].
      destruct (rest_inside j Hj) as (k & H1 & H2 & H3); [by right|]. by apply (inside_progress j k).
  - destruct (occupied (dir f)) as (j & k & H1 & H2 & H3 & _); [apply dir_range|done|]. by apply (inside_progress j k).
Qed.

End somebody.

Lemma todo_insert (ps : list code_t) i p p' : ps !! i = Some p -> (todo p' < todo p)%nat ->
  (sum_list (todo <$> <[i := p']> ps) < sum_list (todo <$> ps))%nat.
Proof.
  revert i. induction ps as [|q ps IH]; intros i Hp Hlt; [done|]. destruct i as [|i]; simpl in *; [injection Hp as ->; lia|].
  apply Nat.add_lt_mono_l, (IH i Hp Hlt).
Qed.

Definition all_home (c : config (S := globals) (L := locals) (Sm := sm) (Lk := Empty_set)) : Prop :=
  forall j, (j < NCARS)%nat -> progs c !! j = Some Return.

Lemma get_through n c G : sound c G -> at_rest c -> length (progs c) = NCARS -> (sum_list (todo <$> progs c) < n)%nat ->
  exists c' G', rtc step c c' /\ sound c' G' /\ all_home c'.
Proof.
  revert c G. induction n as [|n IH]; intros c G Hs Hr Hlen Hn; [lia|].
  destruct (decide (Forall (fun p => returned p = true) (progs c))) as [Hall|Hnot].
  - exists c, G. split; [constructor|]. split; [done|]. intros j Hj. destruct (lookup_lt_is_Some_2 (progs c) j) as [p Hp]; [lia|].
    rewrite Hp. f_equal. apply returned_finished. by eapply Forall_lookup_1 in Hall.
  - apply not_Forall_Exists in Hnot; [|apply _]. apply Exists_exists in Hnot as (p & Hin & Hp). apply list_elem_of_lookup in Hin as [i Hi].
    assert (exists l, progs c !! i = Some (Loop l)) as [l Hl].
    { pose proof (lookup_lt_Some _ _ _ Hi) as Hlt. rewrite Hlen in Hlt. destruct (Hr i Hlt) as [[l E]|E]; [by exists l|].
      rewrite E in Hi. injection Hi as <-. by destruct Hp. }
    destruct (some_movable c G Hs Hr Hlen i l Hl) as (j & q & s1 & p1 & Hq & Ht & Hlv).
    destruct (advance c G j q s1 p1) as (c1 & G1 & p' & H1 & H2 & H3 & H4 & H5); [done..|].
    destruct (IH c1 G1 H2 H3) as (c' & G' & K1 & K2 & K3).
    + by rewrite (steps_length _ _ _ H1).
    + rewrite H4. pose proof (todo_insert _ _ _ p' Hq H5). lia.
    + exists c', G'. split; [by etrans|]. done.
Qed.

(** When all are gone the intersection is as it was. *)
Lemma home_empty c G : sound c G -> all_home c ->
  num_cars (vars (Conc.mem c)) = 0 /\ forall r, 0 <= r < 4 -> get_region r (vars (Conc.mem c)) = Some 0.
Proof.
  intros [HI Hok] Hh. assert (forall j, (j < NCARS)%nat -> counted (G j) = false /\ own (G j) = []) as Hj.
  { intros j Hj. specialize (Hok j _ (Hh j Hj)). simpl in Hok. unfold at_end in Hok. by rewrite Hok, at_last. }
  split.
  - rewrite (iv_num _ _ HI), sum_n_zero; [done|]. intros j Hlt. by rewrite (proj1 (Hj j Hlt)).
  - intros r Hr. rewrite (iv_region _ _ HI r Hr), sum_n_zero; [done|]. intros j Hlt. unfold owns. by rewrite (proj2 (Hj j Hlt)).
Qed.

(** C34. In every interleaving of the twenty cars no step faults: no index leaves
    [region], no lane is popped or read empty, [region_sem] is set before it is used; and two cars
    whose last messages say they are in the intersection are in different regions.
    The assumptions are that there is memory for the lanes, that the stack of a
    thread that is gone does not hold the number of a car that waits, and that no
    car from the south goes straight or left. *)
Theorem cars_apart c : reachable c ->
  (forall i p, progs c !! i = Some p -> ~ faults i (Conc.mem c) p) /\
  (forall i j r, (i < NCARS)%nat -> (j < NCARS)%nat -> i <> j ->
     position i (vars (Conc.mem c)) = Some r -> position j (vars (Conc.mem c)) <> Some r).
Proof.
  intros Hr. destruct (cars_reachable_sound c Hr) as (G & Hs & Hlen). split; [intros i p; by eapply sound_no_fault|].
  intros i j r Hi Hj Hne H1 H2. destruct Hs as [HI _].
  destruct (position_own _ G i r HI Hi H1) as [Hr4 O1]. destruct (position_own _ G j r HI Hj H2) as [_ O2].
  by apply (one_owner _ G r i j HI).
Qed.

(** C35. Whatever the cars have done so far, all of them can still get through: every
    reachable configuration leads to one in which all threads have returned, and then
    [num_cars] is 0 and the regions are free again.  So there is no deadlock between the
    nine semaphores, and no gridlock: the bound on [num_cars] keeps four cars that go
    straight or left from waiting for each other's regions in a circle. *)
Theorem cars_get_through c : reachable c ->
  exists c', rtc step c c' /\ all_home c' /\ num_cars (vars (Conc.mem c')) = 0 /\
    forall r, 0 <= r < 4 -> get_region r (vars (Conc.mem c')) = Some 0.
Proof.
  intros Hr. destruct (cars_reachable_sound c Hr) as (G & Hs & Hlen).
  destruct (come_to_rest c G Hs Hlen) as (c1 & G1 & H1 & H2 & H3). pose proof (steps_length _ _ _ H1) as Hl.
  destruct (get_through (S (sum_list (todo <$> progs c1))) c1 G1 H2 H3) as (c2 & G2 & K1 & K2 & K3); [lia|lia|].
  exists c2. split; [by etrans|]. split; [done|]. by apply (home_empty c2 G2).
Qed.

End drivers.
End cars.

(** ** Executions *)

Definition table0 : nat -> list Z := fun _ => replicate 5 0.
Definition roads0 : config (S := globals) (L := locals) (Sm := sm) (Lk := Empty_set) :=
  mk_config (mk_shared (mk_globals [] 0 (fun _ => Queue.mk_queue 0 0 0 []) table0 (fun _ => -1) (fun _ => false)) (fun _ => 1) (fun _ => None)) [].
Definition start0 : config := default roads0 (createcars (fun _ => true) table0).

(** Cars from all sides; those from the south turn right. *)
Definition from (c : nat) : Z := Z.of_nat c.
Definition turns (c : nat) : Z := if (Z.of_nat c mod 4 =? 2) then 2 else Z.of_nat c.
Definition stack0 (c : nat) : Z := Z.of_nat c.

(** Car 0 and then car 1 enter the intersection. *)
Definition two_in : config :=
  drive (code (fun _ => true) from turns stack0) (replicate 26 0%nat ++ replicate 26 1%nat) start0.

Lemma two_in_reachable : reachable from turns (fun _ => true) stack0 table0 two_in.
Proof. exists start0. split; [reflexivity|]. exact (drive_steps _ _ _). Qed.

Lemma stack0_ok c j : (c < NCARS)%nat -> (j < NCARS)%nat -> j <> c -> u32 (stack0 c) <> Z.of_nat j.
Proof. intros Hc Hj Hne. unfold stack0, NCARS in *. rewrite u32_small; lia. Qed.

Lemma from_south c : (c < NCARS)%nat -> cardirection from c = 2 -> turndirection turns c = 3.
Proof. intros _. unfold cardirection, turndirection, from, turns. intros ->. done. Qed.

Lemma cars_apart_witness :
  position from 0 (vars (mem two_in)) = Some 0 /\ position from 1 (vars (mem two_in)) = Some 1 /\
  position from 1 (vars (mem two_in)) <> Some 0.
Proof.
  split; [vm_compute; reflexivity|]. split; [vm_compute; reflexivity|].
  destruct (cars_apart from turns (fun _ => true) stack0 (fun _ => eq_refl) stack0_ok from_south table0 (fun _ => eq_refl) two_in two_in_reachable)
    as [_ H]. apply (H 0%nat 1%nat 0); [unfold NCARS; lia|unfold NCARS; lia|lia|vm_compute; reflexivity].
Defined.

Lemma cars_get_through_witness :
  num_cars (vars (mem two_in)) = 2 /\
  exists c', rtc (step (code (fun _ => true) from turns stack0)) two_in c' /\ all_home c' /\ num_cars (vars (mem c')) = 0 /\
    forall r, 0 <= r < 4 -> get_region r (vars (mem c')) = Some 0.
Proof.
  split; [vm_compute; reflexivity|].
  exact (cars_get_through from turns (fun _ => true) stack0 (fun _ => eq_refl) stack0_ok from_south table0 (fun _ => eq_refl) two_in two_in_reachable).
Defined.

(** A car that comes from the south and goes straight writes to [region[-8]]. *)
Definition from_the_south : config :=
  drive (code (fun _ => true) (fun _ => 2) (fun _ => 1) stack0) (replicate 19 0%nat) start0.

Example south_out_of_bounds :
  match progs from_the_south !! 0%nat with Some p => faults 0 (mem from_the_south) p | None => False end.
Proof. vm_compute. reflexivity. Qed.

(** Three cars in a lane, in the order 0, 2, 1.  Car 1 reads the pointer to the first
    number, car 0 goes through, and its stack then happens to hold the number 1: car 1
    goes in before car 2, which is no longer in the lane it waits in. *)
Definition overtaken : config :=
  drive (code (fun _ => true) (fun _ => 0) (fun _ => 2) (fun _ => 1))
    (replicate 6 0%nat ++ replicate 6 2%nat ++ replicate 12 1%nat ++ replicate 40 0%nat ++ replicate 14 1%nat) start0.

Example stale_pointer :
  position (fun _ => 0) 1 (vars (mem overtaken)) = Some 0 /\
  Queue.contents (lane (vars (mem overtaken)) 0) = [Some 1%nat] /\ said (vars (mem overtaken)) 2%nat = 0.
Proof. vm_compute. repeat split. Qed.


End StoplightInv.
