(* ===== verification/Proc.v ===== *)
(** * Waiting for processes and exiting ([sys_waitpid] and [sys__exit] in
      [kern/arch/mips/mips/syscall.c])

    The processes of a family run concurrently, each in one thread.  Process [p]
    makes the calls [waitpid(pid, status, options)] of its script, looks at the
    status word after each successful one, and at the end calls
    [_exit(exit_code p)].  The process table is shared; a slot holds the address
    of a [struct process] or NULL, and [kfree] removes the structure from the
    heap, so that a later access through a stale pointer is a fault.  The table
    is as [thread_create] has filled it: thread [i] has pid [i + 1], and a parent
    was there before its children. *)

From Stdlib Require Import ZArith Lia Bool.
From stdpp Require Import base list numbers gmap relations.
From S2P Require Import Prelude.
From S2P Require Import Thread.
From S2P Require Import Conc.

Module Proc.
Import Thread.

(** ** The calls *)

(** The process table, the [struct process]es and the memory of each process
    (words the kernel writes through the pointers it is given). *)
Record globals : Type := mk_globals {
  table : list Z;
  heap : gmap Z process;
  user : list (gmap Z Z)
}.

Notation code_t L := (prog (S := globals) (L := L) (Sm := Z) (Lk := unit)).

(** [p_table[pid]] *)
Definition slot (pid : Z) (v : globals) : option Z :=
  if (0 <=? pid) then table v !! Z.to_nat pid else None.
(** [p->field] *)
Definition field (f : process -> Z) (a : Z) (v : globals) : option Z := f <$> heap v !! a.

Definition set_slot (pid a : Z) (v : globals) : option globals :=
  if (0 <=? pid) && (pid <? Z.of_nat (length (table v)))
  then Some (mk_globals (<[Z.to_nat pid := a]> (table v)) (heap v) (user v)) else None.
Definition set_field (f : process -> process) (a : Z) (v : globals) : option globals :=
  p ← heap v !! a; Some (mk_globals (table v) (<[a := f p]> (heap v)) (user v)).
Definition free (a : Z) (v : globals) : option globals :=
  _p ← heap v !! a; Some (mk_globals (table v) (delete a (heap v)) (user v)).

(** [*status = x] and [*status] in process [i]. *)
Definition put (i : nat) (status x : Z) (v : globals) : option globals :=
  m ← user v !! i; _x ← m !! status; Some (mk_globals (table v) (heap v) (<[i := <[status := x]> m]> (user v))).
Definition peek (i : nat) (status : Z) (v : globals) : option Z := m ← user v !! i; m !! status.

Definition set_exited (x : Z) (p : process) : process := mk_process (me p) (parent_pid p) x (exitcode p) (exit_sem p).
Definition set_exitcode (x : Z) (p : process) : process := mk_process (me p) (parent_pid p) (exited p) x (exit_sem p).

(** [p_table[pid]->field]: a read of the slot, then one through it. *)
Definition load {L} (pid : Z) (f : process -> Z) (k : Z -> code_t L) : code_t L :=
  Get (slot pid) (fun a => Get (field f a) k).
Definition store {L} (pid : Z) (f : process -> process) (k : code_t L) : code_t L :=
  Get (slot pid) (fun a => Write (set_field f a) k).

(** [k err retval] is what follows the call in process [i] with pid [mypid]. *)
Definition sys_waitpid {L} (i : nat) (mypid pid status options : Z) (k : Z -> Z -> code_t L) : code_t L :=
  if status =? 0 then k (errno_code EFAULT) 0
  else if negb (Z.rem (s32 status) 4 =? 0) then k (errno_code EFAULT) 0
  else if negb (options =? 0) then k (errno_code EINVAL) 0
  else
    Acquire tt
    (Get (slot pid) (fun a =>
     if a =? 0 then Release tt (k (-1) 0)
     else load pid parent_pid (fun pp =>
     if negb (pp =? mypid) then Delay 0 (Release tt (k (-1) 0))
     else load pid exited (fun ex =>
     if ex =? 1 then
       load pid exitcode (fun c => Write (put i status c) (Release tt (k 0 pid)))
     else
       Release tt
       (load pid exit_sem (fun s => Conc.P s
       (Acquire tt
       (load pid exitcode (fun c => Write (put i status c)
       (load pid exit_sem (fun s => Destroy s
       (Get (slot pid) (fun a => Write (free a)
       (Write (set_slot pid 0)
       (Release tt (k 0 pid)))))))))))))))).

(** [thread_exit] ends the thread. *)
Definition sys__exit {L} (mypid exit_code : Z) : code_t L :=
  Acquire tt
  (store mypid (set_exited 1)
  (store mypid (set_exitcode exit_code)
  (load mypid exit_sem (fun s => Conc.V s
  (Release tt
  Return))))).

(** ** A family of processes *)

Record call : Type := mk_call { c_pid : Z; c_status : Z; c_options : Z }.
(** What came of a call: [v] is the status word if the call succeeded. *)
Record result : Type := mk_result { r_call : call; r_err : Z; r_ret : Z; r_status : Z }.

Record family : Type := mk_family {
  parents : list Z;
  codes : list Z;
  scripts : list (list call);
  memory : list (gmap Z Z)
}.

Section family.
Variable F : family.

Definition size : nat := length (parents F).
Definition pid_of (i : nat) : Z := Z.of_nat i + 1.
Definition parent (p : Z) : Z := default (-1) (parents F !! Z.to_nat (p - 1)).
Definition exit_code (p : Z) : Z := default 0 (codes F !! Z.to_nat (p - 1)).
Definition script (i : nat) : list call := default [] (scripts F !! i).

Definition locals : Type := list call * list result.

Definition code (i : nat) (l : locals) : code_t locals :=
  match l with
  | ([], _) => sys__exit (pid_of i) (exit_code (pid_of i))
  | (c :: cs, rs) =>
      sys_waitpid i (pid_of i) (c_pid c) (c_status c) (c_options c) (fun err ret =>
        if err =? 0 then Get (peek i (c_status c)) (fun v => Loop (cs, rs ++ [mk_result c err ret v]))
        else Loop (cs, rs ++ [mk_result c err ret 0]))
  end.

(** A slot of the table as [thread_create] fills it. *)
Definition new_process (p : Z) : process := mk_process p (parent p) 0 (-1) p.

Definition start : config :=
  mk_config
    (mk_shared
       (mk_globals (0 :: (pid_of <$> seq 0 size) ++ replicate (Z.to_nat MAXTHREADS - size - 1) 0)
          (list_to_map ((fun i => (pid_of i, new_process (pid_of i))) <$> seq 0 size))
          (memory F))
       (fun _ => 0) (fun _ => None))
    ((fun i => (Loop (script i, []) : code_t locals)) <$> seq 0 size).

(** The family can be there: the table has room, parents are older than their
    children, and every process has its memory. *)
Record family_ok : Prop := {
  fo_size : (size < Z.to_nat MAXTHREADS)%nat;
  fo_parent i p : parents F !! i = Some p -> p < pid_of i;
  fo_memory : length (memory F) = size
}.

(** The calls a process may make: the pid is an index of the table, and a status
    pointer that is not refused points to the memory of the process. *)
Definition call_ok (i : nat) (c : call) : Prop :=
  0 <= c_pid c < MAXTHREADS /\
  (c_status c = 0 \/ Z.rem (s32 (c_status c)) 4 <> 0 \/ is_Some (m ← memory F !! i; m !! c_status c)).

Definition scripts_ok : Prop := forall i, (i < size)%nat -> Forall (call_ok i) (script i).

(** ** The invariant *)

(** What a process holds and has done: its pid, whether it has the lock, how far its
    exit is (flag, code and semaphore), how far it has removed each child (waited,
    semaphore, structure and slot freed); and what it knows: a slot in use while it
    has the lock, a process that has exited, a word of its memory. *)
Record pg : Type := mk_pg {
  gp : Z;
  gl : bool;
  ge : Z;
  gr : Z -> Z;
  kn : option Z;
  kx : option Z;
  ks : option (Z * Z)
}.

Definition idx (p : Z) : nat := Z.to_nat (p - 1).
Definition member (p : Z) : Prop := 1 <= p <= Z.of_nat size.

(** How far the exit of [p] and its removal are. *)
Definition E (G : nat -> pg) (p : Z) : Z := ge (G (idx p)).
Definition R (G : nat -> pg) (p : Z) : Z := if decide (member (parent p)) then gr (G (idx (parent p))) p else 0.

Definition process_at (p e : Z) : process :=
  mk_process p (parent p) (if 1 <=? e then 1 else 0) (if 2 <=? e then exit_code p else -1) p.

Record proc_ok (s : shared (S := globals) (Sm := Z) (Lk := unit)) (p e r : Z) : Prop := {
  po_slot : slot p (vars s) = Some (if r =? 4 then 0 else p);
  po_heap : heap (vars s) !! p = if r <? 3 then Some (process_at p e) else None;
  po_sem : sem s p = if 2 <=? r then -1 else (if e =? 3 then 1 else 0) - (if r =? 1 then 1 else 0)
}.

Record stage_ok (G : nat -> pg) (i : nat) (g : pg) : Prop := {
  so_pid : gp g = pid_of i;
  so_exit : 0 <= ge g <= 3 /\ (ge g = 1 \/ ge g = 2 -> gl g = true);
  so_reap p : 0 <= gr g p <= 4 /\ (gr g p = 2 \/ gr g p = 3 -> gl g = true);
  so_child p : gr g p <> 0 -> member p /\ parent p = pid_of i /\ E G p = 3;
  so_slot : gl g = false -> kn g = None;
  so_known p : kn g = Some p -> member p /\ R G p <> 4;
  so_exited p : kx g = Some p -> member p /\ E G p = 3
}.

Record inv (s : shared (S := globals) (Sm := Z) (Lk := unit)) (G : nat -> pg) : Prop := {
  iv_lock j : lock s tt = Some j <-> (j < size)%nat /\ gl (G j) = true;
  iv_length : length (table (vars s)) = Z.to_nat MAXTHREADS;
  iv_free p : 0 <= p < MAXTHREADS -> ~ member p -> slot p (vars s) = Some 0;
  iv_proc p : member p -> proc_ok s p (E G p) (R G p);
  iv_stage j : (j < size)%nat -> stage_ok G j (G j);
  iv_user j a : (j < size)%nat -> is_Some (peek j a (vars s)) <-> is_Some (m ← memory F !! j; m !! a);
  iv_word j a x : (j < size)%nat -> ks (G j) = Some (a, x) -> peek j a (vars s) = Some x
}.

Hypothesis HF : family_ok.

Lemma idx_pid i : idx (pid_of i) = i.
Proof. unfold idx, pid_of. lia. Qed.
Lemma pid_idx p : member p -> pid_of (idx p) = p.
Proof. unfold idx, pid_of, member. lia. Qed.
Lemma idx_lt p : member p -> (idx p < size)%nat.
Proof. unfold idx, member. lia. Qed.
Lemma member_pid i : (i < size)%nat -> member (pid_of i).
Proof. unfold member, pid_of. lia. Qed.

Lemma E_upd G i g p : member p -> E (upd G i g) p = if decide (p = pid_of i) then ge g else E G p.
Proof.
  intros Hp. unfold E. destruct (decide (p = pid_of i)) as [->|Hne]; [by rewrite idx_pid, upd_same|].
  rewrite upd_other; [done|]. intros <-. by rewrite pid_idx in Hne.
Qed.

Lemma R_upd G i g p : (i < size)%nat -> R (upd G i g) p = if decide (parent p = pid_of i) then gr g p else R G p.
Proof.
  intros Hi. unfold R. destruct (decide (parent p = pid_of i)) as [->|Hne].
  - rewrite decide_True by (by apply member_pid). by rewrite idx_pid, upd_same.
  - case_decide as Hd; [|done]. rewrite upd_other; [done|]. intros <-. by rewrite pid_idx in Hne.
Qed.

Lemma R_own G i p : (i < size)%nat -> parent p = pid_of i -> R G p = gr (G i) p.
Proof. intros Hi Hp. unfold R. rewrite Hp, decide_True by (by apply member_pid). by rewrite idx_pid. Qed.

(** The state of [p] is the same in [s] and [s']. *)
Definition agree (p : Z) (s s' : shared (S := globals) (Sm := Z) (Lk := unit)) : Prop :=
  slot p (vars s') = slot p (vars s) /\ heap (vars s') !! p = heap (vars s) !! p /\ sem s' p = sem s p.

Lemma agree_ok p s s' e r : agree p s s' -> proc_ok s p e r -> proc_ok s' p e r.
Proof. intros (A1 & A2 & A3) []. split; congruence. Qed.

Lemma inv_move s G i g' s' : inv s G -> (i < size)%nat ->
  lock s' tt = next (gl (G i)) (gl g') i (lock s tt) -> (gl (G i) = false -> gl g' = true -> lock s tt = None) ->
  length (table (vars s')) = length (table (vars s)) -> (forall p, ~ member p -> slot p (vars s') = slot p (vars s)) ->
  (forall p, member p -> proc_ok s' p (E (upd G i g') p) (R (upd G i g') p)) -> stage_ok (upd G i g') i g' ->
  (forall p, member p -> R (upd G i g') p = 4 -> R G p = 4 \/ gl (G i) = true) ->
  (forall p, member p -> E G p = 3 -> E (upd G i g') p = 3) ->
  (forall j a, j <> i -> peek j a (vars s') = peek j a (vars s)) ->
  (forall a, is_Some (peek i a (vars s')) <-> is_Some (peek i a (vars s))) ->
  (forall a x, ks g' = Some (a, x) -> peek i a (vars s') = Some x) -> inv s' (upd G i g').
Proof.
  intros HI Hi Hl Hfree Hlen Hout Hproc Hst HR HE Hu Hui Hw. destruct HI. split.
  - intros j. rewrite Hl, (next_ok size (fun j => gl (G j)) i (gl g') (lock s tt) Hi iv_lock0 Hfree j).
    unfold upd. by case_decide.
  - congruence.
  - intros p Hp Hm. rewrite Hout by done. auto.
  - done.
  - intros j Hj. destruct (decide (j = i)) as [->|Hne]; [by rewrite upd_same|]. rewrite upd_other by done.
    destruct (iv_stage0 j Hj) as [S1 S2 S3 S4 S5 S6 S7]. split; try done.
    + intros p Hp. destruct (S4 p Hp) as (M1 & M2 & M3). auto.
    + intros p Hp. destruct (S6 p Hp) as [M1 M2]. split; [done|]. intros H4. destruct (HR p M1 H4) as [|Hg]; [done|].
      assert (gl (G j) = true) as Hgj. { destruct (gl (G j)) eqn:Eg; [done|]. by rewrite S5 in Hp. }
      assert (lock s tt = Some j) by (by apply iv_lock0). assert (lock s tt = Some i) by (by apply iv_lock0). congruence.
    + intros p Hp. destruct (S7 p Hp) as [M1 M2]. auto.
  - intros j a Hj. destruct (decide (j = i)) as [->|Hne]; [rewrite Hui; auto|rewrite Hu by done; auto].
  - intros j a x Hj. destruct (decide (j = i)) as [->|Hne]; [rewrite upd_same; auto|].
    rewrite upd_other, Hu by done. auto.
Qed.

(** A step that leaves the stages and the state of the processes alone: of a lock, a
    read, a write to the caller's memory. *)
Lemma inv_local s G i g' s' : inv s G -> (i < size)%nat ->
  lock s' tt = next (gl (G i)) (gl g') i (lock s tt) -> (gl (G i) = false -> gl g' = true -> lock s tt = None) ->
  table (vars s') = table (vars s) -> heap (vars s') = heap (vars s) -> (forall p, sem s' p = sem s p) ->
  ge g' = ge (G i) -> (forall p, gr g' p = gr (G i) p) -> stage_ok G i g' ->
  (forall j a, j <> i -> peek j a (vars s') = peek j a (vars s)) ->
  (forall a, is_Some (peek i a (vars s')) <-> is_Some (peek i a (vars s))) ->
  (forall a x, ks g' = Some (a, x) -> peek i a (vars s') = Some x) -> inv s' (upd G i g').
Proof.
  intros HI Hi Hl Hfree Ht Hh Hs He Hr Hst Hu Hui Hw.
  assert (forall p, member p -> E (upd G i g') p = E G p) as HE.
  { intros p Hp. rewrite E_upd by done. case_decide; [|done]. subst. unfold E. by rewrite idx_pid. }
  assert (forall p, R (upd G i g') p = R G p) as HR.
  { intros p. rewrite R_upd by done. case_decide; [|done]. rewrite Hr. symmetry. by apply R_own. }
  apply (inv_move s G); try done.
  - by rewrite Ht.
  - intros p Hp. unfold slot. by rewrite Ht.
  - intros p Hp. rewrite HE, HR by done. apply (agree_ok p s); [|by apply HI].
    split; [unfold slot; by rewrite Ht|]. split; [by rewrite Hh|done].
  - destruct Hst as [S1 S2 S3 S4 S5 S6 S7]. split; try done.
    + intros p Hp. destruct (S4 p Hp) as (M1 & M2 & M3). rewrite HE; auto.
    + intros p Hp. rewrite HR. auto.
    + intros p Hp. destruct (S7 p Hp) as (M1 & M2). rewrite HE; auto.
  - intros p Hp. rewrite HR. auto.
  - intros p Hp. rewrite HE; auto.
Qed.

(** *** Steps *)

Lemma next_same b i l : next b b i l = l.
Proof. by destruct b. Qed.

Lemma inv_know s G i g' : inv s G -> (i < size)%nat -> gl g' = gl (G i) -> ge g' = ge (G i) ->
  (forall p, gr g' p = gr (G i) p) -> stage_ok G i g' ->
  (forall a x, ks g' = Some (a, x) -> peek i a (vars s) = Some x) -> inv s (upd G i g').
Proof. intros HI Hi E1 E2 E3 Hst Hw. apply (inv_local s); try done; rewrite E1; [by rewrite next_same|congruence]. Qed.

Lemma inv_acquire s G i g' : inv s G -> (i < size)%nat -> gl (G i) = false -> lock s tt = None -> gl g' = true ->
  ge g' = ge (G i) -> (forall p, gr g' p = gr (G i) p) -> stage_ok G i g' -> ks g' = ks (G i) ->
  inv (set_lock s tt (Some i)) (upd G i g').
Proof.
  intros HI Hi E0 El E1 E2 E3 Hst E4. apply (inv_local s); try done.
  - by rewrite E0, E1.
  - rewrite E4. intros a x. by apply (iv_word _ _ HI).
Qed.

Lemma inv_release s G i g' : inv s G -> (i < size)%nat -> gl (G i) = true -> gl g' = false ->
  ge g' = ge (G i) -> (forall p, gr g' p = gr (G i) p) -> stage_ok G i g' -> ks g' = ks (G i) ->
  inv (set_lock s tt None) (upd G i g').
Proof.
  intros HI Hi E0 E1 E2 E3 Hst E4. apply (inv_local s); try done; [by rewrite E0, E1|congruence|].
  rewrite E4. intros a x. by apply (iv_word _ _ HI).
Qed.

Lemma inv_put s G i a x g' v : inv s G -> (i < size)%nat -> put i a x (vars s) = Some v -> gl g' = gl (G i) ->
  ge g' = ge (G i) -> (forall p, gr g' p = gr (G i) p) -> stage_ok G i g' -> ks g' = Some (a, x) ->
  inv (set_vars s v) (upd G i g').
Proof.
  intros HI Hi Hv E1 E2 E3 Hst E4. unfold put in Hv. destruct (user (vars s) !! i) as [m|] eqn:Em; [|done].
  simpl in Hv. destruct (m !! a) as [y|] eqn:Ea; [|done]. simpl in Hv. injection Hv as <-.
  assert (i < length (user (vars s)))%nat as Hlt by (by eapply lookup_lt_Some).
  apply (inv_local s); try done; try (rewrite E1).
  - by rewrite next_same.
  - congruence.
  - intros j b Hne. unfold peek. simpl. by rewrite list_lookup_insert_ne.
  - intros b. unfold peek. simpl. rewrite list_lookup_insert_eq, Em by done. simpl.
    destruct (decide (b = a)) as [->|Hne]; [rewrite lookup_insert_eq, Ea|rewrite lookup_insert_ne by done]; naive_solver.
  - intros b z Hb. rewrite E4 in Hb. injection Hb as <- <-. unfold peek. simpl. rewrite list_lookup_insert_eq by done. simpl.
    apply lookup_insert_eq.
Qed.

(** A step that brings process [p] to the stages [e] and [r], made by [p] itself or by
    its parent; nothing else changes. *)
Lemma inv_stage s G i p g' s' : inv s G -> (i < size)%nat -> member p -> p = pid_of i \/ parent p = pid_of i ->
  lock s' tt = lock s tt -> gl g' = gl (G i) -> kn g' = kn (G i) \/ kn g' = None -> kx g' = kx (G i) -> ks g' = ks (G i) ->
  length (table (vars s')) = length (table (vars s)) -> user (vars s') = user (vars s) ->
  (forall q, q <> p -> agree q s s') -> (forall q, q <> p -> gr g' q = gr (G i) q) ->
  proc_ok s' p (E (upd G i g') p) (R (upd G i g') p) ->
  (p = pid_of i \/ ge g' = ge (G i)) ->
  (ge (G i) = 3 -> ge g' = 3) ->
  stage_ok (upd G i g') i g' -> (R (upd G i g') p = 4 -> R G p = 4 \/ gl (G i) = true) ->
  inv s' (upd G i g').
Proof.
  intros HI Hi Hp Hwho Hl E1 K1 K2 K3 Hlen Hu Hag Hgr Hpo Hge Hmono Hst H4.
  assert (forall q, member q -> q <> p -> E (upd G i g') q = E G q) as HE.
  { intros q Hq Hne. rewrite E_upd by done. case_decide; [|done]. subst. unfold E. rewrite idx_pid.
    destruct Hge as [->|]; done. }
  assert (forall q, member q -> q <> p -> R (upd G i g') q = R G q) as HR.
  { intros q Hq Hne. rewrite R_upd by done. case_decide; [|done]. rewrite Hgr by done. symmetry. by apply R_own. }
  apply (inv_move s G); try done.
  - by rewrite Hl, E1, next_same.
  - rewrite E1. congruence.
  - intros q Hq. apply Hag. intros ->. done.
  - intros q Hq. destruct (decide (q = p)) as [->|Hne]; [done|]. rewrite HE, HR by done.
    apply (agree_ok q s); [auto|by apply HI].
  - intros q Hq Hq4. destruct (decide (q = p)) as [->|Hne]; [auto|]. rewrite HR in Hq4 by done. auto.
  - intros q Hq Hq3. destruct (decide (q = p)) as [->|Hne]; [|by rewrite HE].
    rewrite E_upd by done. case_decide; [|done]. subst. apply Hmono. unfold E in Hq3. by rewrite idx_pid in Hq3.
  - intros j a _. unfold peek. by rewrite Hu.
  - intros a. unfold peek. by rewrite Hu.
  - intros a x Hx. unfold peek. rewrite Hu. apply (iv_word _ _ HI); [done|congruence].
Qed.

(** *** What the processes find *)

Lemma inv_same s G i : inv s G -> (i < size)%nat -> inv s (upd G i (G i)).
Proof. intros HI Hi. apply inv_know; try done; [by apply HI|]. intros a x. by apply (iv_word _ _ HI). Qed.

Lemma slot_val s G pid : inv s G -> 0 <= pid < MAXTHREADS ->
  slot pid (vars s) = Some 0 /\ (~ member pid \/ R G pid = 4) \/ slot pid (vars s) = Some pid /\ member pid /\ R G pid <> 4.
Proof.
  intros HI Hp. destruct (decide (member pid)) as [Hm|Hm]; [|left; split; [by apply HI|by left]].
  rewrite (po_slot _ _ _ _ (iv_proc _ _ HI pid Hm)). destruct (Z.eqb_spec (R G pid) 4); auto.
Qed.

Lemma lock_unique s G i j : inv s G -> (i < size)%nat -> (j < size)%nat -> gl (G i) = true -> gl (G j) = true -> i = j.
Proof.
  intros HI Hi Hj Ei Ej. assert (lock s tt = Some i) by (by apply (iv_lock _ _ HI)).
  assert (lock s tt = Some j) by (by apply (iv_lock _ _ HI)). congruence.
Qed.

(** Only the holder of the lock sees a process half removed, and then one of its own. *)
Lemma removal_own s G i p : inv s G -> (i < size)%nat -> gl (G i) = true -> R G p = 2 \/ R G p = 3 -> parent p = pid_of i.
Proof.
  intros HI Hi Hl HR. unfold R in HR. case_decide as Hd; [|lia].
  pose proof (iv_stage _ _ HI _ (idx_lt _ Hd)) as Hst. pose proof (so_reap _ _ _ Hst p) as [_ Hlock].
  rewrite <- (pid_idx _ Hd). f_equal. eapply lock_unique; eauto using idx_lt.
Qed.

Lemma R_range s G p : inv s G -> 0 <= R G p <= 4.
Proof.
  intros HI. unfold R. case_decide as Hd; [|lia]. apply (so_reap _ _ _ (iv_stage _ _ HI _ (idx_lt _ Hd)) p).
Qed.

Lemma E_range s G p : inv s G -> member p -> 0 <= E G p <= 3.
Proof. intros HI Hp. apply (so_exit _ _ _ (iv_stage _ _ HI _ (idx_lt _ Hp))). Qed.

(** The slot and the structure of [p] are there. *)
Definition present (p : Z) (s : shared (S := globals) (Sm := Z) (Lk := unit)) (G : nat -> pg) : Prop :=
  slot p (vars s) = Some p /\ heap (vars s) !! p = Some (process_at p (E G p)).

Lemma present_early s G p : inv s G -> member p -> R G p < 3 -> present p s G.
Proof.
  intros HI Hp HR. pose proof (iv_proc _ _ HI p Hp) as []. unfold present. rewrite po_slot0, po_heap0.
  destruct (Z.eqb_spec (R G p) 4); [lia|]. by destruct (Z.ltb_spec (R G p) 3); [|lia].
Qed.

Lemma present_locked s G i p : inv s G -> (i < size)%nat -> gl (G i) = true -> member p -> R G p <> 4 ->
  (parent p = pid_of i -> R G p < 2) -> present p s G.
Proof.
  intros HI Hi Hl Hp H4 Hown. apply present_early; [done|done|]. pose proof (R_range s G p HI).
  destruct (decide (R G p = 2 \/ R G p = 3)) as [Hr|Hr]; [|lia]. pose proof (removal_own s G i p HI Hi Hl Hr). lia.
Qed.

(** ** The rule for the calls *)

Definition order (g : pg) (r : Z + unit) : Prop :=
  match r with
  | inl p => gl g = false /\ member p /\ parent p = gp g /\ gr g p = 0
  | inr _ => gl g = false
  end.
Definition over (i : nat) (g : pg) : Prop := ge g = 3 /\ gl g = false.

(** The arguments the call accepts; the processes it can be called for. *)
Definition good_status (c : call) : Prop := c_status c <> 0 /\ Z.rem (s32 (c_status c)) 4 = 0.
Definition child (i : nat) (p : Z) : Prop := member p /\ parent p = pid_of i.

(** What the call must return after the calls with the results [before]. *)
Record result_ok (i : nat) (before : list result) (r : result) : Prop := {
  ro_status : ~ good_status (r_call r) -> r_err r = errno_code EFAULT;
  ro_options : good_status (r_call r) -> c_options (r_call r) <> 0 -> r_err r = errno_code EINVAL;
  ro_stranger : good_status (r_call r) -> c_options (r_call r) = 0 -> ~ child i (c_pid (r_call r)) -> r_err r = -1;
  ro_child : good_status (r_call r) -> c_options (r_call r) = 0 -> child i (c_pid (r_call r)) ->
    (forall b, In b before -> c_pid (r_call b) = c_pid (r_call r) -> r_err b <> 0) -> r_err r = 0;
  ro_success : r_err r = 0 -> child i (c_pid (r_call r)) /\ r_ret r = c_pid (r_call r) /\
    r_status r = exit_code (c_pid (r_call r))
}.

Definition results_ok (i : nat) (rs : list result) : Prop :=
  forall before r after, rs = before ++ r :: after -> result_ok i before r.

Lemma results_snoc i rs r : results_ok i rs -> result_ok i rs r -> results_ok i (rs ++ [r]).
Proof.
  intros H1 H2 before r' after E1. destruct after as [|x after _] using rev_ind.
  - by apply app_inj_tail in E1 as [-> ->].
  - rewrite app_comm_cons, app_assoc in E1. apply app_inj_tail in E1 as [-> ->]. by apply (H1 before r' after).
Qed.

(** Between two calls: the process has removed only children it has collected. *)
Definition rest (i : nat) (r : Z -> Z) (w : option (Z * Z)) : pg := mk_pg (pid_of i) false 0 r None None w.
Definition head (i : nat) (l : locals) (g : pg) : Prop :=
  (i < size)%nat /\ Forall (call_ok i) (fst l) /\ results_ok i (snd l) /\
  exists r w, g = rest i r w /\
    forall p, r p = 0 \/ r p = 4 /\ exists b, In b (snd l) /\ c_pid (r_call b) = p /\ r_err b = 0.

Notation proc_rule := (ok inv head over order (fun _ _ _ => True)).

Lemma get_same i g (f : globals -> option Z) (k : Z -> code_t locals) x : (i < size)%nat ->
  (forall s G, G i = g -> inv s G -> f (vars s) = Some x) -> proc_rule i g (k x) -> proc_rule i g (Get f k).
Proof. intros Hi Hf Hk s G Hg HI. exists x, g. split; [by apply (Hf s G)|]. split; [|done]. subst g. by apply inv_same. Qed.

(** [p_table[pid]->field] where the process is there. *)
Lemma load_ok i g pid (f : process -> Z) (k : Z -> code_t locals) : (i < size)%nat ->
  (forall s G, G i = g -> inv s G -> present pid s G) ->
  (forall s G, G i = g -> inv s G -> exists g', inv s (upd G i g') /\ proc_rule i g' (k (f (process_at pid (E G pid))))) ->
  proc_rule i g (load pid f k).
Proof.
  intros Hi Hp Hk. apply (get_same _ _ _ _ pid); [done| |].
  - intros s G Hg HI. by destruct (Hp s G Hg HI).
  - intros s G Hg HI. destruct (Hp s G Hg HI) as [_ Hh]. destruct (Hk s G Hg HI) as (g' & H1 & H2).
    eexists _, g'. split; [|done]. unfold field. by rewrite Hh.
Qed.

(** When nothing is learnt. *)
Lemma load_same i g pid (f : process -> Z) (k : Z -> code_t locals) x : (i < size)%nat ->
  (forall s G, G i = g -> inv s G -> present pid s G /\ f (process_at pid (E G pid)) = x) ->
  proc_rule i g (k x) -> proc_rule i g (load pid f k).
Proof.
  intros Hi Hp Hk. apply load_ok; [done|intros s G Hg HI; by apply (Hp s G)|].
  intros s G Hg HI. destruct (Hp s G Hg HI) as [_ ->]. exists g. split; [|done]. subst g. by apply inv_same.
Qed.

Lemma no_exit (b : bool) : 0 <= 0 <= 3 /\ (0 = 1 \/ 0 = 2 -> b = true).
Proof. split; [lia|intros [|]; lia]. Qed.

Section wait.
Variables (i : nat) (Hi : (i < size)%nat) (c : call) (cs : list call) (rs : list result) (r : Z -> Z) (w : option (Z * Z)).
Hypothesis Hc : call_ok i c.
Hypothesis Hcs : Forall (call_ok i) cs.
Hypothesis Hrs : results_ok i rs.
Hypothesis Hr : forall p, r p = 0 \/ r p = 4 /\ exists b, In b rs /\ c_pid (r_call b) = p /\ r_err b = 0.

Let pid := c_pid c.
Let k (err ret : Z) : code_t locals :=
  if err =? 0 then Get (peek i (c_status c)) (fun v => Loop (cs, rs ++ [mk_result c err ret v]))
  else Loop (cs, rs ++ [mk_result c err ret 0]).

(** The ghost value of the caller with the lock. *)
Definition inside (r : Z -> Z) (n x : option Z) (w : option (Z * Z)) : pg := mk_pg (pid_of i) true 0 r n x w.

Lemma fail_ok e x : e <> 0 -> result_ok i rs (mk_result c e 0 0) -> proc_rule i (rest i r x) (k e 0).
Proof.
  intros He Hres. unfold k. destruct (Z.eqb_spec e 0); [done|]. split; [done|]. split; [done|]. simpl.
  split; [by apply results_snoc|]. exists r, x. split; [done|]. intros p. destruct (Hr p) as [|(H4 & b & Hb & Hb')]; [auto|].
  right. split; [done|]. exists b. split; [apply in_or_app; by left|done].
Qed.

Lemma success_ok r' : child i pid -> good_status c -> c_options c = 0 ->
  (forall p, p <> pid -> r' p = r p) -> r' pid = 0 \/ r' pid = 4 ->
  proc_rule i (rest i r' (Some (c_status c, exit_code pid))) (k 0 pid).
Proof.
  intros Hch Hs Ho Hout Hin. apply (get_same _ _ _ _ (exit_code pid)); [done| |].
  { intros s G Hg HI. apply (iv_word _ _ HI); [done|]. by rewrite Hg. }
  split; [done|]. split; [done|]. simpl. split.
  - apply results_snoc; [done|]. split; simpl; try done; intros; by destruct Hch.
  - exists r', (Some (c_status c, exit_code pid)). split; [done|]. intros p. destruct (decide (p = pid)) as [->|Hne].
    + destruct Hin as [|H4]; [auto|]. right. split; [done|].
      exists (mk_result c 0 pid (exit_code pid)). split; [apply in_or_app; right; by left|done].
    + rewrite Hout by done. destruct (Hr p) as [|(H4 & b & Hb & Hb')]; [auto|].
      right. split; [done|]. exists b. split; [apply in_or_app; by left|done].
Qed.

(** *** The lock *)

Lemma release_ok r' n x w' p : (forall q, r' q <> 2 /\ r' q <> 3) -> proc_rule i (rest i r' w') p ->
  proc_rule i (inside r' n x w') (Release tt p).
Proof.
  intros Hq Hp s G Hg HI. split; [apply (iv_lock _ _ HI); by rewrite Hg|]. exists (rest i r' w'). split; [|done].
  pose proof (iv_stage _ _ HI i Hi) as Hst. rewrite Hg in Hst. destruct Hst as [S1 S2 S3 S4 S5 S6 S7].
  apply inv_release; rewrite ?Hg; try done. split; simpl; try done; [apply no_exit|].
  intros q. destruct (S3 q), (Hq q). simpl in *. lia.
Qed.

Lemma acquire_ok r' w' p : proc_rule i (inside r' None None w') p -> proc_rule i (rest i r' w') (Acquire tt p).
Proof.
  intros Hp. split; [done|]. intros s G Hg HI. pose proof (iv_stage _ _ HI i Hi) as Hst. rewrite Hg in Hst.
  split. { intros El. apply (iv_lock _ _ HI) in El as [_ El]. by rewrite Hg in El. }
  intros El. exists (inside r' None None w'). split; [|done]. destruct Hst as [S1 S2 S3 S4 S5 S6 S7].
  apply inv_acquire; rewrite ?Hg; try done. split; simpl; try done. intros q. by destruct (S3 q).
Qed.

(** *** Removing a child that has exited *)

Definition stage (r : Z -> Z) (x : Z) : Z -> Z := fun q => if decide (q = pid) then x else r q.

Lemma stage_same r' x : stage r' x pid = x.
Proof. unfold stage. by rewrite decide_True. Qed.
Lemma stage_other r' x q : q <> pid -> stage r' x q = r' q.
Proof. intros H. unfold stage. by rewrite decide_False. Qed.
Lemma stage_stage r' x y q : stage (stage r' x) y q = stage r' y q.
Proof. unfold stage. by case_decide. Qed.

(** The next stage of the removal, with the step [s -> s'] on the shared state. *)
Lemma reap_step s G b r0 y w' s' : inv s G -> G i = mk_pg (pid_of i) b 0 r0 None None w' -> child i pid ->
  (forall q, q <> pid -> r0 q = r q) ->
  (y = 2 \/ y = 3 -> b = true) -> (y = 4 -> b = true) -> 0 < y <= 4 -> E G pid = 3 -> lock s' tt = lock s tt ->
  length (table (vars s')) = length (table (vars s)) -> user (vars s') = user (vars s) ->
  (forall q, q <> pid -> agree q s s') -> proc_ok s' pid 3 y ->
  inv s' (upd G i (mk_pg (pid_of i) b 0 (stage r y) None None w')).
Proof.
  intros HI Hg [Hm Hpar] Hr0 Hlk Hlk4 Hy HE Hl Hlen Hu Hag Hpo. pose proof (iv_stage _ _ HI i Hi) as Hst. rewrite Hg in Hst.
  assert (parent pid < pid) as Hlt.
  { unfold parent. destruct (parents F !! Z.to_nat (pid - 1)) as [q|] eqn:Eq; simpl; [|destruct Hm; lia].
    pose proof (fo_parent HF _ _ Eq) as H. unfold pid_of in H. destruct Hm. lia. }
  assert (E (upd G i (mk_pg (pid_of i) b 0 (stage r y) None None w')) pid = 3) as HE'.
  { rewrite E_upd by done. rewrite decide_False by lia. done. }
  assert (forall q, member q -> E (upd G i (mk_pg (pid_of i) b 0 (stage r y) None None w')) q = E G q) as HEq.
  { intros q Hq. rewrite E_upd by done. case_decide; [|done]. subst. unfold E. by rewrite idx_pid, Hg. }
  assert (R (upd G i (mk_pg (pid_of i) b 0 (stage r y) None None w')) pid = y) as HR'.
  { rewrite R_upd by done. rewrite decide_True by done. simpl. apply stage_same. }
  eapply (inv_stage s G i pid); rewrite ?Hg; try done; simpl.
  - by right.
  - by left.
  - intros q Hq. rewrite stage_other, Hr0; done.
  - by rewrite HE', HR'.
  - by right.
  - destruct Hst as [S1 S2 S3 S4 S5 S6 S7]. split; simpl; try done.
    + intros q. destruct (decide (q = pid)) as [->|Hne]; [rewrite stage_same; split; [lia|done]|].
      rewrite stage_other by done. specialize (S3 q). simpl in S3. by rewrite Hr0 in S3.
    + intros q Hq. destruct (decide (q = pid)) as [->|Hne]; [done|]. rewrite stage_other in Hq by done.
      destruct (S4 q) as (M1 & M2 & M3); [simpl; by rewrite Hr0|]. rewrite HEq by done. done.
  - rewrite HR'. auto.
Qed.

(** What the caller finds at stage [x] of the removal. *)
Lemma reap_state s G b x w' : inv s G -> G i = mk_pg (pid_of i) b 0 (stage r x) None None w' -> child i pid -> x <> 0 ->
  E G pid = 3 /\ proc_ok s pid 3 x.
Proof.
  intros HI Hg [Hm Hpar] Hx. pose proof (iv_stage _ _ HI i Hi) as Hst. rewrite Hg in Hst.
  destruct (so_child _ _ _ Hst pid) as (_ & _ & HE); [simpl; by rewrite stage_same|]. split; [done|].
  pose proof (iv_proc _ _ HI pid Hm) as Hpo. rewrite HE, (R_own G i pid Hi Hpar), Hg in Hpo. simpl in Hpo.
  by rewrite stage_same in Hpo.
Qed.

Lemma reap_present s G b x w' : inv s G -> G i = mk_pg (pid_of i) b 0 (stage r x) None None w' -> child i pid -> 0 < x < 3 ->
  present pid s G.
Proof.
  intros HI Hg [Hm Hpar] Hx. apply present_early; [done|done|]. rewrite (R_own G i pid Hi Hpar), Hg. simpl.
  rewrite stage_same. lia.
Qed.

(** From the slot on. *)
Lemma clear_slot_ok : child i pid -> good_status c -> c_options c = 0 ->
  proc_rule i (inside (stage r 2) None None (Some (c_status c, exit_code pid)))
    (Get (slot pid) (fun a => Write (free a) (Write (set_slot pid 0) (Release tt (k 0 pid))))).
Proof.
  intros Hch Hs Ho. apply (get_same _ _ _ _ pid); [done| |].
  { intros s G Hg HI. destruct (reap_state s G true 2 _ HI Hg Hch) as [_ []]; [lia|]. done. }
  intros s G Hg HI. destruct (reap_state s G true 2 _ HI Hg Hch) as [HE [P1 P2 P3]]; [lia|]. simpl in P1, P2, P3.
  eexists _, (inside (stage r 3) None None _). split; [unfold free; by rewrite P2|]. split.
  { eapply reap_step; try done; simpl; [intros q Hq; by apply stage_other|..].
    - intros q Hq. split; [done|]. split; [simpl; by rewrite lookup_delete_ne|done].
    - split; [done|simpl; apply lookup_delete_eq|done]. }
  clear s G Hg HI HE P1 P2 P3. intros s G Hg HI. destruct (reap_state s G true 3 _ HI Hg Hch) as [HE [P1 P2 P3]]; [lia|].
  simpl in P1, P2, P3. unfold slot in P1. destruct (Z.leb_spec 0 pid) as [H0|H0]; [|done]. pose proof (lookup_lt_Some _ _ _ P1) as Hlt.
  eexists _, (inside (stage r 4) None None _). split.
  { unfold set_slot. replace ((0 <=? pid) && (pid <? Z.of_nat (length (table (vars s))))) with true by lia. done. }
  split.
  { eapply reap_step; try done; simpl; [intros q Hq; by apply stage_other|..].
    - by rewrite length_insert.
    - intros q Hq. split; [|done]. unfold slot. simpl. destruct (Z.leb_spec 0 q); [|done]. apply list_lookup_insert_ne. lia.
    - split; simpl; try done. unfold slot. simpl. destruct (Z.leb_spec 0 pid); [|lia]. by apply list_lookup_insert_eq. }
  apply release_ok.
  - intros q. destruct (decide (q = pid)) as [->|Hne]; [rewrite stage_same; lia|]. rewrite stage_other by done.
    destruct (Hr q) as [->|[-> _]]; lia.
  - apply success_ok; try done; [intros; by apply stage_other|right; apply stage_same].
Qed.

Lemma put_there s G : inv s G -> good_status c -> is_Some (put i (c_status c) (exit_code pid) (vars s)).
Proof.
  intros HI Hs. assert (is_Some (peek i (c_status c) (vars s))) as [y Hy].
  { apply (iv_user _ _ HI); [done|]. destruct Hc as [_ [H0|[H4|Hm]]], Hs; done. }
  unfold peek in Hy. unfold put. destruct (user (vars s) !! i) as [m|]; [|done]. simpl in *. rewrite Hy. by eexists.
Qed.

Lemma reap_ok x : child i pid -> good_status c -> c_options c = 0 ->
  proc_rule i (rest i (stage r 1) x)
    (Acquire tt (load pid exitcode (fun y => Write (put i (c_status c) y)
      (load pid exit_sem (fun s => Destroy s
      (Get (slot pid) (fun a => Write (free a) (Write (set_slot pid 0) (Release tt (k 0 pid)))))))))).
Proof.
  intros Hch Hs Ho. apply acquire_ok. apply (load_same _ _ _ _ _ (exit_code pid)); [done| |].
  { intros s G Hg HI. split; [eapply reap_present; eauto; lia|]. destruct (reap_state s G true 1 _ HI Hg Hch) as [-> _]; [lia|]. done. }
  intros s G Hg HI. destruct (put_there s G HI Hs) as [v Hv].
  exists v, (inside (stage r 1) None None (Some (c_status c, exit_code pid))). split; [done|]. split.
  { pose proof (iv_stage _ _ HI i Hi) as Hst. rewrite Hg in Hst. destruct Hst.
    eapply inv_put; rewrite ?Hg; try done. }
  clear s G Hg HI v Hv. apply (load_same _ _ _ _ _ pid); [done| |].
  { intros s G Hg HI. split; [eapply reap_present; eauto; lia|done]. }
  intros s G Hg HI. destruct (reap_state s G true 1 _ HI Hg Hch) as [HE [P1 P2 P3]]; [lia|]. simpl in P1, P2, P3.
  split; [lia|]. exists (inside (stage r 2) None None (Some (c_status c, exit_code pid))). split.
  { eapply reap_step; try done; simpl; [intros q Hq; by apply stage_other|..].
    - intros q Hq. split; [done|]. split; [done|]. simpl. by rewrite decide_False.
    - split; [done|done|]. simpl. by rewrite decide_True. }
  by apply clear_slot_ok.
Qed.

(** The child has not exited yet, or not when the caller looked. *)
Lemma wait_ok : child i pid -> good_status c -> c_options c = 0 -> r pid = 0 ->
  proc_rule i (rest i r w)
    (load pid exit_sem (fun s => Conc.P s
      (Acquire tt (load pid exitcode (fun y => Write (put i (c_status c) y)
      (load pid exit_sem (fun s => Destroy s
      (Get (slot pid) (fun a => Write (free a) (Write (set_slot pid 0) (Release tt (k 0 pid)))))))))))).
Proof.
  intros Hch Hs Ho H0. pose proof Hch as [Hm Hpar].
  assert (forall s G, G i = rest i r w -> inv s G -> R G pid = 0) as HR.
  { intros s G Hg HI. by rewrite (R_own G i pid Hi Hpar), Hg. }
  apply (load_same _ _ _ _ _ pid); [done| |].
  { intros s G Hg HI. split; [|done]. apply present_early; [done|done|]. by rewrite (HR s G Hg HI). }
  split; [done|]. intros s G Hg HI. pose proof (iv_proc _ _ HI pid Hm) as Hpo. rewrite (HR s G Hg HI) in Hpo.
  destruct Hpo as [P1 P2 P3]. simpl in P1, P2, P3. destruct (Z.eqb_spec (E G pid) 3) as [HE|HE]; [|split; lia].
  split; [lia|]. intros _. exists (rest i (stage r 1) w). split; [|by apply reap_ok].
  eapply reap_step; try done; simpl; [intros [|]; lia|..].
  - intros q Hq. split; [done|]. split; [done|]. simpl. by rewrite decide_False.
  - split; simpl; [done|by rewrite P2, HE|]. rewrite decide_True by done. lia.
Qed.

(** With the lock, an exit is seen done or not begun. *)
Lemma exit_whole s G n x : inv s G -> G i = inside r n x w -> member pid -> parent pid = pid_of i -> E G pid = 0 \/ E G pid = 3.
Proof.
  intros HI Hg Hm Hpar. pose proof (E_range s G pid HI Hm). destruct (decide (E G pid = 1 \/ E G pid = 2)) as [H'|H']; [|lia].
  pose proof (so_exit _ _ _ (iv_stage _ _ HI _ (idx_lt _ Hm))) as [_ Hl]. specialize (Hl H').
  assert (idx pid = i) as Hid. { eapply lock_unique; eauto using idx_lt. by rewrite Hg. }
  assert (E G pid = 0) as H0. { unfold E. by rewrite Hid, Hg. } lia.
Qed.

Lemma looked_ok : child i pid -> good_status c -> c_options c = 0 -> r pid = 0 ->
  proc_rule i (inside r (Some pid) None w)
    (load pid exited (fun ex =>
     if ex =? 1 then load pid exitcode (fun y => Write (put i (c_status c) y) (Release tt (k 0 pid)))
     else
       Release tt
       (load pid exit_sem (fun s => Conc.P s
       (Acquire tt (load pid exitcode (fun y => Write (put i (c_status c) y)
       (load pid exit_sem (fun s => Destroy s
       (Get (slot pid) (fun a => Write (free a) (Write (set_slot pid 0) (Release tt (k 0 pid)))))))))))))).
Proof.
  intros Hch Hs Ho H0. pose proof Hch as [Hm Hpar].
  assert (forall x w' s G, G i = inside r (Some pid) x w' -> inv s G -> present pid s G) as Hpres.
  { intros x w' s G Hg HI. pose proof (iv_stage _ _ HI i Hi) as Hst. rewrite Hg in Hst.
    destruct (so_known _ _ _ Hst pid eq_refl) as [_ H4]. apply (present_locked s G i); try done; [by rewrite Hg|].
    intros _. rewrite (R_own G i pid Hi Hpar), Hg. simpl. lia. }
  assert (forall q, r q <> 2 /\ r q <> 3) as Hq. { intros q. destruct (Hr q) as [->|[-> _]]; lia. }
  apply load_ok; [done|intros s G Hg HI; by eapply Hpres|]. intros s G Hg HI.
  pose proof (iv_stage _ _ HI i Hi) as Hst. rewrite Hg in Hst.
  destruct (exit_whole s G _ _ HI Hg Hm Hpar) as [->|HE].
  - exists (inside r (Some pid) None w). split; [rewrite <- Hg; by apply inv_same|].
    change (exited (process_at pid 0) =? 1) with false. cbv iota. apply release_ok; [done|]. by apply wait_ok.
  - exists (inside r (Some pid) (Some pid) w). split.
    { destruct Hst. apply inv_know; rewrite ?Hg; try done; [|intros a y Hy; apply (iv_word _ _ HI); [done|by rewrite Hg]].
      split; simpl; try done. intros p [= <-]. done. }
    rewrite HE. change (exited (process_at pid 3) =? 1) with true. cbv iota. clear s G Hg HI Hst HE. apply (load_same _ _ _ _ _ (exit_code pid)); [done| |].
    { intros s G Hg HI. split; [by eapply Hpres|]. pose proof (iv_stage _ _ HI i Hi) as Hst. rewrite Hg in Hst.
      destruct (so_exited _ _ _ Hst pid eq_refl) as [_ ->]. done. }
    intros s G Hg HI. destruct (put_there s G HI Hs) as [v Hv].
    exists v, (inside r (Some pid) (Some pid) (Some (c_status c, exit_code pid))). split; [done|]. split.
    { pose proof (iv_stage _ _ HI i Hi) as Hst. rewrite Hg in Hst. destruct Hst. eapply inv_put; rewrite ?Hg; done. }
    apply release_ok; [done|]. apply success_ok; auto.
Qed.

Lemma sys_waitpid_ok :
  proc_rule i (rest i r w) (sys_waitpid i (pid_of i) pid (c_status c) (c_options c) k).
Proof.
  assert (forall q, r q <> 2 /\ r q <> 3) as Hq. { intros q. destruct (Hr q) as [->|[-> _]]; lia. }
  unfold sys_waitpid. destruct (Z.eqb_spec (c_status c) 0) as [Hs|Hs].
  { apply fail_ok; [done|]. split; simpl; unfold good_status; try done; naive_solver. }
  destruct (Z.eqb_spec (Z.rem (s32 (c_status c)) 4) 0) as [Ha|Ha]; cbn [negb].
  2: { apply fail_ok; [done|]. split; simpl; unfold good_status; try done; naive_solver. }
  destruct (Z.eqb_spec (c_options c) 0) as [Ho|Ho]; cbn [negb].
  2: { apply fail_ok; [done|]. split; simpl; unfold good_status; try done; naive_solver. }
  apply acquire_ok. intros s G Hg HI. destruct Hc as [Hpid _]. fold pid in Hpid.
  destruct (slot_val s G pid HI Hpid) as [[E0 Hno]|(E1 & Hm & H4)].
  - exists 0, (inside r None None w). split; [done|]. split; [rewrite <- Hg; by apply inv_same|]. simpl (0 =? 0).
    apply release_ok; [done|]. apply fail_ok; [done|]. split; simpl; try done; [by intros []|].
    intros _ _ [Hm Hpar] Hnot. fold pid in Hm, Hpar. destruct Hno as [|H4]; [done|]. rewrite (R_own G i pid Hi Hpar), Hg in H4. simpl in H4.
    destruct (Hr pid) as [|(_ & b & Hb & Hb1 & Hb2)]; [lia|]. by destruct (Hnot b Hb Hb1).
  - exists pid, (inside r (Some pid) None w). split; [done|]. split.
    { pose proof (iv_stage _ _ HI i Hi) as Hst. rewrite Hg in Hst. destruct Hst.
      apply inv_know; rewrite ?Hg; try done; [|intros a y Hy; apply (iv_word _ _ HI); [done|by rewrite Hg]].
      split; simpl; try done. intros p [= <-]. done. }
    destruct (Z.eqb_spec pid 0); [destruct Hm; lia|].
    assert (parent pid = pid_of i -> r pid = 0) as H0.
    { intros Hpar. rewrite (R_own G i pid Hi Hpar), Hg in H4. simpl in H4. destruct (Hr pid) as [|[]]; done. }
    clear s G Hg HI E1 H4. apply (load_same _ _ _ _ _ (parent pid)); [done| |].
    { intros s G Hg HI. split; [|done]. pose proof (iv_stage _ _ HI i Hi) as Hst. rewrite Hg in Hst.
      destruct (so_known _ _ _ Hst pid eq_refl) as [_ H4]. apply (present_locked s G i); try done; [by rewrite Hg|].
      intros Hpar. rewrite (R_own G i pid Hi Hpar), Hg. simpl. rewrite H0 by done. lia. }
    destruct (Z.eqb_spec (parent pid) (pid_of i)) as [Hpar|Hpar]; cbn [negb].
    + apply looked_ok; auto; split; auto.
    + split; [done|]. apply release_ok; [done|]. apply fail_ok; [done|].
      split; simpl; try done; [by intros []|]. by intros _ _ [_ Hpar'].
Qed.

End wait.

(** ** Exiting *)

Section exit.
Variables (i : nat) (Hi : (i < size)%nat) (r : Z -> Z) (w : option (Z * Z)).
Hypothesis Hr : forall p, r p = 0 \/ r p = 4.
Let pid := pid_of i.
Let ex (l : bool) (e : Z) : pg := mk_pg pid l e r None None w.

(** Nobody has begun to remove the process. *)
Lemma not_removed s G p : inv s G -> member p -> E G p <> 3 -> R G p = 0.
Proof.
  intros HI Hp HE. unfold R. case_decide as Hd; [|done].
  pose proof (so_child _ _ _ (iv_stage _ _ HI _ (idx_lt _ Hd)) p) as Hc.
  destruct (decide (gr (G (idx (parent p))) p = 0)) as [|Hne]; [done|]. by destruct (Hc Hne) as (_ & _ & ?).
Qed.

Lemma exit_state s G l e : inv s G -> G i = ex l e -> e <> 3 -> present pid s G /\ proc_ok s pid e 0.
Proof.
  intros HI Hg He. pose proof (member_pid i Hi) as Hm. assert (E G pid = e) as HE. { unfold E, pid. by rewrite idx_pid, Hg. }
  assert (R G pid = 0) as HR. { apply (not_removed s); [done|done|congruence]. }
  split; [apply present_early; [done|done|lia]|]. rewrite <- HE, <- HR. by apply HI.
Qed.

Lemma exit_step s G e s' : inv s G -> G i = ex true e -> 0 <= e < 3 -> lock s' tt = lock s tt ->
  length (table (vars s')) = length (table (vars s)) -> user (vars s') = user (vars s) ->
  (forall q, q <> pid -> agree q s s') -> proc_ok s' pid (e + 1) 0 -> inv s' (upd G i (ex true (e + 1))).
Proof.
  intros HI Hg He Hl Hlen Hu Hag Hpo. pose proof (member_pid i Hi) as Hm. fold pid in Hm.
  assert (E G pid = e) as HE. { unfold E, pid. by rewrite idx_pid, Hg. }
  assert (R G pid = 0) as HR. { apply (not_removed s); [done|done|lia]. }
  assert (forall q, R (upd G i (ex true (e + 1))) q = R G q) as HR'.
  { intros q. rewrite R_upd by done. case_decide as Hd; [|done]. rewrite (R_own G i q Hi Hd), Hg. done. }
  assert (forall q, member q -> q <> pid -> E (upd G i (ex true (e + 1))) q = E G q) as HE'.
  { intros q Hq Hne. rewrite E_upd by done. by rewrite decide_False. }
  pose proof (iv_stage _ _ HI i Hi) as Hst. rewrite Hg in Hst.
  eapply (inv_stage s G i pid); rewrite ?Hg; try done; simpl; auto.
  - rewrite HR', HR, E_upd by done. by rewrite decide_True.
  - lia.
  - destruct Hst as [S1 S2 S3 S4 S5 S6 S7]. split; simpl; try done.
    + split; [lia|done].
    + intros q Hq. destruct (S4 q Hq) as (M1 & M2 & M3). split; [done|]. split; [done|].
      rewrite E_upd by done. case_decide; [|done]. subst. fold pid in M3. lia.
Qed.

(** [p_table[mypid]->field = ...] *)
Lemma store_ok e (f : process -> process) (p : code_t locals) : 0 <= e < 2 -> f (process_at pid e) = process_at pid (e + 1) ->
  proc_rule i (ex true (e + 1)) p -> proc_rule i (ex true e) (store pid f p).
Proof.
  intros He Hf Hp. apply (get_same _ _ _ _ pid); [done| |].
  { intros s G Hg HI. destruct (exit_state s G true e HI Hg) as [[] _]; [lia|done]. }
  intros s G Hg HI. destruct (exit_state s G true e HI Hg) as [_ [P1 P2 P3]]; [lia|]. simpl in P1, P2, P3.
  eexists _, (ex true (e + 1)). split; [unfold set_field; by rewrite P2|]. split; [|done].
  eapply exit_step; try done; [lia| |].
  - intros q Hq. split; [done|]. split; [simpl; by rewrite lookup_insert_ne|done].
  - split; simpl; [done|by rewrite lookup_insert_eq, Hf|]. rewrite P3.
    destruct (Z.eqb_spec e 3), (Z.eqb_spec (e + 1) 3); lia.
Qed.

Lemma sys__exit_ok : proc_rule i (rest i r w) (sys__exit pid (exit_code pid)).
Proof.
  apply acquire_ok; [done|]. apply (store_ok 0); [lia|done|]. apply (store_ok 1); [lia|done|].
  apply (load_same _ _ _ _ _ pid); [done| |].
  { intros s G Hg HI. split; [|done]. by destruct (exit_state s G true 2 HI Hg). }
  intros s G Hg HI. destruct (exit_state s G true 2 HI Hg) as [_ [P1 P2 P3]]; [lia|]. simpl in P1, P2, P3.
  split; [lia|]. exists (ex true 3). split.
  { apply (exit_step s G 2); try done.
    - intros q Hq. split; [done|]. split; [done|]. simpl. by rewrite decide_False.
    - split; simpl; try done. rewrite decide_True by done. lia. }
  clear s G Hg HI P1 P2 P3. intros s G Hg HI. split; [apply (iv_lock _ _ HI); by rewrite Hg|].
  exists (ex false 3). split; [|done]. pose proof (iv_stage _ _ HI i Hi) as Hst. rewrite Hg in Hst.
  destruct Hst as [S1 S2 S3 S4 S5 S6 S7].
  apply inv_release; rewrite ?Hg; try done. split; simpl; try done; [split; [lia|intros [|]; lia]|].
  intros q. destruct (Hr q) as [-> | ->]; split; try lia; intros [|]; lia.
Qed.
End exit.

(** ** The family runs *)

Lemma code_ok i l g : head i l g -> proc_rule i g (code i l).
Proof.
  destruct l as [[|c cs] rs]; intros (Hi & Hcs & Hrs & r & w & -> & Hr); simpl in Hcs, Hrs, Hr; unfold code.
  - apply sys__exit_ok; [done|]. intros p. destruct (Hr p) as [|[]]; auto.
  - apply Forall_cons in Hcs as [Hc Hcs]. by apply sys_waitpid_ok.
Qed.

Lemma start_slot p : 0 <= p < MAXTHREADS ->
  slot p (vars (mem start)) = Some (if decide (member p) then p else 0).
Proof.
  intros Hp. pose proof (fo_size HF) as Hsz. unfold slot. destruct (Z.leb_spec 0 p); [|lia].
  destruct (decide (p = 0)) as [->|Hne]; [by rewrite decide_False by (unfold member; lia)|].
  replace (Z.to_nat p) with (S (idx p)) by (unfold idx; lia). simpl. unfold MAXTHREADS in *. case_decide as Hd; unfold member in Hd.
  - rewrite lookup_app_l by (rewrite length_fmap, length_seq; unfold idx; lia).
    rewrite list_lookup_fmap, lookup_seq_lt by (unfold idx; lia). simpl. f_equal. by apply pid_idx.
  - rewrite lookup_app_r by (rewrite length_fmap, length_seq; unfold idx; lia).
    apply lookup_replicate. rewrite length_fmap, length_seq. unfold idx. lia.
Qed.

Lemma start_heap p : member p -> heap (vars (mem start)) !! p = Some (new_process p).
Proof.
  intros Hp. simpl. apply elem_of_list_to_map_1.
  - rewrite <- list_fmap_compose. apply NoDup_fmap_2; [|apply NoDup_seq]. intros x y. simpl. unfold pid_of. lia.
  - apply list_elem_of_fmap. exists (idx p). rewrite pid_idx by done. split; [done|]. apply elem_of_seq.
    pose proof (idx_lt p Hp). lia.
Qed.

Hypothesis HS : scripts_ok.
Notation proc_sound := (sound inv head over order (fun _ _ _ => True)).

Lemma start_sound : proc_sound start (fun j => rest j (fun _ => 0) None).
Proof.
  assert (forall p, R (fun j => rest j (fun _ => 0) None) p = 0) as HR. { intros p. unfold R. by case_decide. }
  split.
  - split.
    + naive_solver.
    + simpl. rewrite length_app, length_fmap, length_seq, length_replicate. pose proof (fo_size HF). lia.
    + intros p Hp Hm. rewrite start_slot by done. by rewrite decide_False.
    + intros p Hp. rewrite HR. split.
      * rewrite start_slot by (pose proof (fo_size HF); unfold member, MAXTHREADS in *; lia). by rewrite decide_True.
      * by rewrite start_heap.
      * done.
    + intros j Hj. split; simpl; try done; [apply no_exit|]. intros p. split; [lia|intros [|]; lia].
    + done.
    + done.
  - intros j p Hp. simpl in Hp. rewrite list_lookup_fmap in Hp. destruct (seq 0 size !! j) as [x|] eqn:Ex; [|done].
    apply lookup_seq in Ex as [-> Hj]. simpl in Hp. injection Hp as <-. split; [done|]. split; [by apply HS|].
    split; [by intros [] ? ? ?|]. exists (fun _ => 0), None. auto.
Qed.

(** The configurations of a run of the family. *)
Definition reachable (c : config) : Prop := rtc (step code) start c.

Lemma reachable_sound c : reachable c -> exists G, proc_sound c G /\ length (progs c) = size.
Proof.
  intros H. destruct (steps_sound code inv head over order _ code_ok _ _ _ H start_sound) as [G HG].
  exists G. split; [done|]. rewrite (steps_length _ _ _ H). simpl. by rewrite length_fmap, length_seq.
Qed.

(** *** Nobody waits for ever *)

Definition held (g : pg) (r : Z + unit) : Prop :=
  match r with inl p => p = gp g /\ ge g <> 3 | inr _ => gl g = true end.
Definition rank (r : Z + unit) : nat :=
  match r with inl p => Nat.min (Z.to_nat p) size | inr _ => S size end.

Lemma rank_top r : (rank r < S (S size))%nat.
Proof. destruct r; simpl; lia. Qed.

Lemma parent_older p : member p -> parent p < p.
Proof.
  intros [H1 H2]. unfold parent. destruct (parents F !! Z.to_nat (p - 1)) as [q|] eqn:Eq; simpl; [|lia].
  pose proof (fo_parent HF _ _ Eq) as H. unfold pid_of in H. lia.
Qed.

Lemma order_ok s G i r : (i < size)%nat -> inv s G -> order (G i) r -> taken s r ->
  forall r', held (G i) r' -> (rank r' < rank r)%nat.
Proof.
  intros Hi HI Ho _ r' Hh. pose proof (so_pid _ _ _ (iv_stage _ _ HI i Hi)) as Hpid.
  destruct r as [p|[]], r' as [q|[]]; simpl in *.
  - destruct Ho as (_ & Hm & Hpar & _), Hh as [-> _]. pose proof (parent_older p Hm) as Hlt.
    rewrite Hpid in *. unfold pid_of, member in *. lia.
  - destruct Ho. congruence.
  - lia.
  - congruence.
Qed.

Lemma over_ok i g : over i g -> forall r, ~ held g r.
Proof. intros [H1 H2] [p|[]]; simpl; [naive_solver|congruence]. Qed.

Lemma inv_owned s G : inv s G -> owned order size held s G.
Proof.
  intros HI i [p|[]] Hi Ho Ht; simpl in *.
  - destruct Ho as (_ & Hm & Hpar & H0). exists (idx p). split; [by apply idx_lt|].
    rewrite (so_pid _ _ _ (iv_stage _ _ HI _ (idx_lt _ Hm))), pid_idx by done. split; [done|]. intros HE.
    pose proof (iv_proc _ _ HI p Hm) as [_ _ Hs]. rewrite (so_pid _ _ _ (iv_stage _ _ HI i Hi)) in Hpar.
    rewrite (R_own G i p Hi Hpar), H0 in Hs. unfold E in Hs. rewrite HE in Hs. simpl in Hs. lia.
  - destruct (lock s tt) as [j|] eqn:El; [|done]. apply (iv_lock _ _ HI) in El. by exists j.
Qed.

(** *** Every run ends *)

Lemma waitpid_after i mypid pid status options (k : Z -> Z -> code_t locals) :
  (forall e x, Acc (after code i) (k e x)) -> Acc (after code i) (sys_waitpid i mypid pid status options k).
Proof.
  intros Hk. unfold sys_waitpid, load. auto 40 with ends.
Qed.

Lemma exit_after i mypid x : Acc (after code i) (sys__exit (L := locals) mypid x).
Proof. unfold sys__exit, store, load. auto 20 with ends nocore. Qed.

Lemma loop_after i cs rs : Acc (after code i) (Loop (cs, rs)).
Proof.
  revert rs. induction cs as [|c cs IH]; intros rs; apply ends_loop; unfold code; [apply exit_after|].
  apply waitpid_after. intros e x. destruct (e =? 0); [|apply IH]. apply ends_get. intros v. apply IH.
Qed.

(** C24. [waitpid] and [_exit] work together: in every interleaving of a family of
    processes, each call that a process has made so far has returned what it must.  A
    bad status pointer gives EFAULT and an option EINVAL; a pid that is not a child's
    gives -1; the first call for a child succeeds, and every call that succeeds returns
    the child's pid and leaves in the status word exactly the code the child passed
    to [_exit]. *)
Theorem waitpid_correct c i cs rs : reachable c -> progs c !! i = Some (Loop (cs, rs)) -> results_ok i rs.
Proof.
  intros Hr Hp. destruct (reachable_sound c Hr) as (G & [_ Hok] & _). by destruct (Hok i _ Hp) as (_ & _ & H & _).
Qed.

(** No process follows a stale pointer: in every interleaving, no access through
    the process table hits NULL or a structure that was freed, no semaphore is used
    after it was freed, and the table's lock is used properly. *)
Theorem processes_safe c i p : reachable c -> progs c !! i = Some p -> ~ faults i (mem c) p.
Proof. intros Hr Hp. destruct (reachable_sound c Hr) as (G & Hs & _). by eapply sound_no_fault. Qed.

(** C25. Every process gets to its end: every run of a family is finite, and while a
    process has not exited, some process can go on.  So however the processes are
    interleaved, all of them exit, and no wait is for ever. *)
Theorem processes_terminate c : reachable c ->
  Acc (fun c' c => step code c c') c /\
  ((exists c', step code c c') \/ forall i p, progs c !! i = Some p -> p = Return).
Proof.
  intros Hr. split.
  - assert (Acc (fun c' c => step code c c') start) as Ha.
    { apply steps_acc. intros i p Hp. simpl in Hp. rewrite list_lookup_fmap in Hp.
      destruct (seq 0 size !! i); [|done]. simpl in Hp. injection Hp as <-. apply loop_after. }
    clear -Hr Ha. induction Hr as [|c1 c2 c3 H1 _ IH]; [done|]. apply IH. by apply (Acc_inv Ha).
  - destruct (reachable_sound c Hr) as (G & Hs & Hlen).
    destruct (decide (Forall (fun p => returned p = true) (progs c))) as [Hall|Hsome].
    + right. intros i p Hp. rewrite Forall_lookup in Hall. by apply returned_finished, (Hall i).
    + left. apply not_Forall_Exists in Hsome; [|apply _].
      apply Exists_exists in Hsome as (p & Hin & Hp). apply list_elem_of_lookup in Hin as [i Hi].
      eapply (sound_progress code inv head over order _ size held rank); eauto using rank_top, order_ok, over_ok.
      * apply inv_owned, Hs.
      * by rewrite <- returned_finished.
Qed.

End family.
(** ** A family *)

(** A process with two children waits for the first, twice, for the second, and for a
    process that is not there; the second child waits for the first, which is no child
    of its own. *)
Definition example : family :=
  mk_family [-1; 1; 1] [0; 7; 9]
    [[mk_call 2 4096 0; mk_call 2 4096 0; mk_call 3 4100 0; mk_call 5 4096 0; mk_call 3 4098 0; mk_call 3 4096 1];
     []; [mk_call 2 4096 0]]
    [{[4096 := 0; 4100 := 0]}; ∅; {[4096 := 0]}].

Lemma example_ok : family_ok example.
Proof.
  split; [vm_compute; lia| |done].
  intros [|[|[|i]]] p; simpl; intros E; try done; injection E as <-; unfold pid_of; lia.
Qed.

Lemma example_scripts : scripts_ok example.
Proof.
  intros [|[|[|i]]] Hi; [| | |vm_compute in Hi; lia]; unfold script; simpl;
    repeat (apply list.Forall_cons; split; [split; [simpl; unfold MAXTHREADS; lia|]|]); try (by apply list.Forall_nil);
    right; (by left) || (right; vm_compute; by eexists).
Qed.

(** After 61 rounds the parent has made all its calls. *)
Definition halfway : config := drive (code example) (concat (replicate 61 [0; 1; 2]%nat)) (start example).

Lemma halfway_reachable : reachable example halfway.
Proof. apply drive_steps. Qed.

Definition example_results : list result :=
  [mk_result (mk_call 2 4096 0) 0 2 7; mk_result (mk_call 2 4096 0) (-1) 0 0; mk_result (mk_call 3 4100 0) 0 3 9;
   mk_result (mk_call 5 4096 0) (-1) 0 0; mk_result (mk_call 3 4098 0) 2 0 0; mk_result (mk_call 3 4096 1) 1 0 0].

Lemma waitpid_correct_witness : progs halfway !! 0%nat = Some (Loop ([], example_results)) /\ results_ok example 0 example_results.
Proof.
  assert (progs halfway !! 0%nat = Some (Loop ([], example_results))) as H by (vm_compute; reflexivity).
  split; [exact H|]. exact (waitpid_correct example example_ok example_scripts halfway 0 [] example_results halfway_reachable H).
Defined.

Lemma processes_safe_witness : ~ faults 0 (mem halfway) (Loop (L := locals) ([], example_results)).
Proof.
  apply (processes_safe example example_ok example_scripts halfway); [apply halfway_reachable|vm_compute; reflexivity].
Defined.

Lemma processes_terminate_witness : Acc (fun c' c => step (code example) c c') halfway /\
  ((exists c', step (code example) halfway c') \/ forall i p, progs halfway !! i = Some p -> p = Return).
Proof. exact (processes_terminate example example_ok example_scripts halfway halfway_reachable). Defined.

End Proc.

(** ** Two processes fork at the same time

    [sys_fork] releases [fork_lock] before it calls [thread_fork], and
    [thread_create] looks for a free slot without a lock. *)
Module Fork.
Import Thread Proc.

(** The loop of [thread_create] from slot [p] on, for a new process at the address [a]
    with the parent [ppid]; [k] gets its pid, 0 if there is none.  The calls to
    [kmalloc] succeed. *)
Fixpoint create_loop {L} (n : nat) (p a ppid : Z) (k : Z -> code_t L) : code_t L :=
  match n with
  | O => k 0
  | S n' =>
      Get (slot p) (fun x =>
      if x =? 0 then
        Delay 0
        (Write (fun v => Some (mk_globals (table v) (<[a := mk_process a ppid 0 (-1) a]> (heap v)) (user v)))
        (Write (set_slot p a)
        (k p)))
      else create_loop n' (p + 1) a ppid k)
  end.

Definition create {L} (a ppid : Z) (k : Z -> code_t L) : code_t L :=
  create_loop (Z.to_nat (MAXTHREADS - 1)) 1 a ppid k.

(** Processes 1 and 2 fork once each; [Loop p] is where the caller has got [p]. *)
Definition fork_code (i : nat) (p : Z) : code_t Z :=
  if p =? -1 then create (1000 + Z.of_nat i) (pid_of i) (fun pid => Loop pid) else Return.

Definition fork_start : config :=
  mk_config
    (mk_shared (mk_globals (0 :: 1 :: 2 :: replicate 197 0) (<[1 := mk_process 1 (-1) 0 (-1) 1]> {[2 := mk_process 2 1 0 (-1) 2]}) [])
       (fun _ => 0) (fun _ => None))
    [(Loop (-1) : code_t Z); Loop (-1)].

(** Both children get the pid 3, and the table knows only one of them. *)
Theorem fork_same_pid : exists c, rtc (step fork_code) fork_start c /\
  progs c !! 0%nat = Some (Loop 3) /\ progs c !! 1%nat = Some (Loop 3) /\ slot 3 (vars (mem c)) = Some 1001.
Proof.
  exists (drive fork_code (concat (replicate 7 [0; 1]%nat)) fork_start). split; [apply drive_steps|].
  split; [vm_compute; reflexivity|]. split; vm_compute; reflexivity.
Qed.

End Fork.
