(* ===== verification/Exec.v ===== *)
(** * Running programs ([kern/userprog/loadelf.c], [kern/userprog/runprogram.c] and
      [sys_execv] in [kern/arch/mips/mips/syscall.c])

    [Elf]: reading an executable from a vnode into the current address space.
    [Exec]: the two ways to start one, with the arguments on the user stack.

    [umem] of the machine is the memory of the current address space as the
    program sees it.  Its pages appear when [as_prepare_load] has allocated
    them, with whatever the physical memory held.  [vm_fault] can load every page
    into the TLB when the address space has no more pages than the TLB has entries
    ([Vm.small_program_runs]); in a larger one, [resident] says for which pages an
    entry is left, and an access to another one fails.  The addresses of the kernel's local variables and of the address space are
    parameters. *)

From Stdlib Require Import ZArith Lia Bool.
From stdpp Require Import base list numbers gmap.
From S2P Require Import Prelude.
From S2P Require Import Coremap.
From S2P Require Import AddrSpace.
From S2P Require Import Uio.
From S2P Require Import Sfs.
From S2P Require Import Vnode.
From S2P Require Import Vfs.
From S2P Require Import Lhd.
From S2P Require Import SfsFile.
From S2P Require Import SfsIo.
From S2P Require Import SfsRef.
Import Copy Uio AddrSpace Vm.

Module Elf.

(** ** Headers ([kern/include/elf.h]) *)

Record Ehdr : Type := mk_ehdr {
  e_ident : list Z;
  e_type : Z;
  e_machine : Z;
  e_version : Z;
  e_entry : Z;
  e_phoff : Z;
  e_phentsize : Z;
  e_phnum : Z
}.

Record Phdr : Type := mk_phdr {
  p_type : Z;
  p_offset : Z;
  p_vaddr : Z;
  p_filesz : Z;
  p_memsz : Z;
  p_flags : Z
}.

Definition sizeof_Ehdr : Z := 52.
Definition sizeof_Phdr : Z := 32.

(** The processor is big-endian. *)
Definition dec_ehdr (b : list Z) : Ehdr :=
  mk_ehdr (sub b 0 16) (of_be16 b 16) (of_be16 b 18) (of_be32 b 20) (of_be32 b 24) (of_be32 b 28)
    (of_be16 b 42) (of_be16 b 44).
Definition dec_phdr (b : list Z) : Phdr :=
  mk_phdr (of_be32 b 0) (of_be32 b 4) (of_be32 b 8) (of_be32 b 16) (of_be32 b 20) (of_be32 b 24).

Definition PT_NULL : Z := 0.
Definition PT_LOAD : Z := 1.
Definition PT_PHDR : Z := 6.
Definition PT_MIPS_REGINFO : Z := 0x70000000.
Definition PF_X : Z := 1.

(** [ELFMAG0] to [ELFMAG3], [ELFCLASS32], [ELFDATA2MSB], [EV_CURRENT]; [ET_EXEC];
    [EM_MIPS]. *)
Definition ehdr_ok (eh : Ehdr) : bool :=
  (byte_at (e_ident eh) 0 =? 0x7f) && (byte_at (e_ident eh) 1 =? 69) && (byte_at (e_ident eh) 2 =? 76) &&
  (byte_at (e_ident eh) 3 =? 70) && (byte_at (e_ident eh) 4 =? 1) && (byte_at (e_ident eh) 5 =? 2) &&
  (byte_at (e_ident eh) 6 =? 1) && (e_version eh =? 1) && (e_type eh =? 2) && (e_machine eh =? 8).

(** What the [switch] does with a segment: [continue], go on, or [ENOEXEC]. *)
Inductive action : Set := Skip | Load | Refuse.
Definition segment_action (t : Z) : action :=
  if (t =? PT_NULL) || (t =? PT_PHDR) || (t =? PT_MIPS_REGINFO) then Skip
  else if t =? PT_LOAD then Load else Refuse.

(** ** Loading *)

Section load.
Context {W : Type} {V : Vnodes W}.

(** The vnodes, the memory, the coremap and [curthread->t_vmspace]. *)
Record ps : Type := mk_ps { p_world : W; p_mach : mach; p_cm : Coremap.cm_state; p_as : addrspace }.

Definition set_world (s : ps) (w : W) (m : mach) : ps := mk_ps w m (p_cm s) (p_as s).

Variables (asp ehbuf phbuf : Z) (resident : Z -> bool) (pmem : Z -> Z).

(** Read a structure of [len] bytes at [offset] into the kernel's memory. *)
Definition read_struct (s : ps) (v kbuf len offset : Z) : exec (ps * ret (list Z)) :=
  '((w, m, ku), r) ← vop_read (Some asp) (p_world s) (p_mach s) (mk_kuio kbuf len offset UIO_READ) v;
  let s1 := set_world s w m in
  match r with
  | Err e => Done (s1, Err e)
  | Ok _ =>
      if negb (uio_resid ku =? 0) then Done (s1, Err ENOEXEC)
      else Done (s1, Ok (bytes_at (kmem m) kbuf len))
  end.

Definition load_segment (s : ps) (v offset vaddr memsize filesize is_executable : Z) : exec (ps * ret unit) :=
  let filesize := if filesize >? memsize then memsize else filesize in
  let u := mk_uio vaddr memsize offset filesize
             (if negb (is_executable =? 0) then UIO_USERISPACE else UIO_USERSPACE) UIO_READ (Some asp) in
  '((w, m, u1), r) ← vop_read (Some asp) (p_world s) (p_mach s) u v;
  let s1 := set_world s w m in
  match r with
  | Err e => Done (s1, Err e)
  | Ok _ =>
      if negb (uio_resid u1 =? 0) then Done (s1, Err ENOEXEC)
      else
        let fillamt := u32 (memsize - filesize) in
        if fillamt >? 0 then
          let u2 := mk_uio (iov_base u1) (iov_len u1) (uio_offset u1) (u32 (uio_resid u1 + fillamt))
                      (uio_segflg u1) (rw u1) (uio_space u1) in
          '((m2, _), r) ← uiomovezeros (Some asp) m fillamt u2;
          Done (set_world s1 w m2, r)
        else Done (s1, Ok tt)
  end.

(** [off_t offset = eh.e_phoff + i*eh.e_phentsize] *)
Definition phdr_offset (eh : Ehdr) (i : Z) : Z := s32 (u32 (e_phoff eh + i * e_phentsize eh)).

(** A loop over the program headers from [i] on, with [body] for those to load. *)
Fixpoint phdr_loop (n : nat) (s : ps) (v : Z) (eh : Ehdr) (i : Z) (body : ps -> Phdr -> exec (ps * ret unit))
  : exec (ps * ret unit) :=
  match n with
  | O => Done (s, Ok tt)
  | S n' =>
      try! s1, b <- read_struct s v phbuf sizeof_Phdr (phdr_offset eh i);
      let ph := dec_phdr b in
      match segment_action (p_type ph) with
      | Skip => phdr_loop n' s1 v eh (i + 1) body
      | Refuse => Done (s1, Err ENOEXEC)
      | Load => try! s2, _x <- body s1 ph; phdr_loop n' s2 v eh (i + 1) body
      end
  end.

Definition define_segment (s : ps) (ph : Phdr) : exec (ps * ret unit) :=
  let '(as', r) := as_define_region (p_as s) (p_vaddr ph) (p_memsz ph) in
  Done (mk_ps (p_world s) (p_mach s) (p_cm s) as', r).

(** The memory of the address space [as_]. *)
Definition as_view (as_ : addrspace) (va : Z) : option Z :=
  if tlb_enough as_ || resident (Z.land va PAGE_FRAME) then
    pa ← as_translate as_ (Z.land va PAGE_FRAME); Some (pmem (pa + (va - Z.land va PAGE_FRAME)))
  else None.

(** [as_prepare_load] on the current address space.  The first access to its memory
    makes [vm_fault] assert that it is set up. *)
Definition prepare (s : ps) : exec (ps * ret unit) :=
  '((cm, as'), r) ← as_prepare_load (p_cm s) (p_as s);
  match r with
  | Err e => Done (mk_ps (p_world s) (p_mach s) cm as', Err e)
  | Ok _ =>
      assert! as_setup as';
      Done (mk_ps (p_world s) (set_umem (p_mach s) (as_view as')) cm as', Ok tt)
  end.

Definition load_elf (s : ps) (v : Z) : exec (ps * ret Z) :=
  try! s1, b <- read_struct s v ehbuf sizeof_Ehdr 0;
  let eh := dec_ehdr b in
  if negb (ehdr_ok eh) then Done (s1, Err ENOEXEC)
  else
    try! s2, _x <- phdr_loop (Z.to_nat (e_phnum eh)) s1 v eh 0 define_segment;
    try! s3, _x <- prepare s2;
    try! s4, _x <- phdr_loop (Z.to_nat (e_phnum eh)) s3 v eh 0 (fun s ph =>
      load_segment s v (s32 (p_offset ph)) (p_vaddr ph) (p_memsz ph) (p_filesz ph) (Z.land (p_flags ph) PF_X));
    match as_complete_load (p_as s4) with
    | Err e => Done (s4, Err e)
    | Ok _ => Done (s4, Ok (e_entry eh))
    end.

(** ** What is loaded *)

(** Reading from the vnode [v] gives the bytes [data], from the offset of the [uio] on,
    as many as were asked for or as there are ([vnode.h]: "read data from file to uio,
    at offset specified in the uio, updating uio_resid to reflect the amount read"). *)
Definition avail (data : list Z) (off n : Z) : Z := Z.min n (Z.max 0 (Z.of_nat (length data) - off)).

Record is_file (Q : W -> Prop) (v : Z) (data : list Z) : Prop := {
  if_read w m u : Q w -> rw u = UIO_READ -> 0 <= uio_offset u -> uio_offset u + uio_resid u <= INT_MAX ->
    ready (Some asp) m u (avail data (uio_offset u) (uio_resid u)) ->
    exists w' m', vop_read (Some asp) w m u v = Done ((w', m', advance u (avail data (uio_offset u) (uio_resid u))), Ok tt) /\
      Q w' /\ moved m u (sub data (uio_offset u) (avail data (uio_offset u) (uio_resid u))) m'
}.

Context (Q : W -> Prop) (v : Z) (data : list Z) (HQ : is_file Q v data).

(** The state between two calls. *)
Definition calm (s : ps) : Prop := Q (p_world s) /\ pcb_badfaultfunc (p_mach s) = false.

Lemma avail_in off n : 0 <= off -> 0 <= n -> off + n <= Z.of_nat (length data) -> avail data off n = n.
Proof. intros. unfold avail. lia. Qed.

Lemma read_struct_ok s kbuf len off : calm s -> 0 <= kbuf -> 0 <= len -> kbuf + len < 2 ^ 32 -> 0 <= off ->
  off + len <= Z.of_nat (length data) -> off + len <= INT_MAX ->
  exists w m, read_struct s v kbuf len off = Done (set_world s w m, Ok (sub data off len)) /\
    calm (set_world s w m) /\ umem m = umem (p_mach s).
Proof.
  intros [Hq Hb] H0 Hlen H1 Ho Hin Hmax. unfold read_struct.
  destruct (if_read _ _ _ HQ (p_world s) (p_mach s) (mk_kuio kbuf len off UIO_READ)) as (w & m & E & Hq' & Hm); try done; simpl in *.
  { unfold INT_MIN in *. rewrite avail_in by lia. split; simpl; done || (unfold INT_MIN, INT_MAX in *; lia). }
  rewrite avail_in in E, Hm by lia. rewrite E. run.
  assert (uio_resid (advance (mk_kuio kbuf len off UIO_READ) len) = 0) as ->.
  { simpl. rewrite Z.sub_diag. done. }
  destruct Hm as (Hb' & Hu & Hk). simpl in Hk. exists w, m. split; [|split; [split; [done|]|]].
  - simpl. do 3 f_equal. rewrite (bytes_at_ext _ (fill (kmem (p_mach s)) kbuf (sub data off len))) by (intros; apply Hk).
    apply bytes_at_fill. rewrite length_sub by lia. lia.
  - simpl. congruence.
  - done.
Qed.

(** The bytes of a segment in memory. *)
Definition seg_bytes (off filesz memsz : Z) : list Z := sub data off filesz ++ replicate (Z.to_nat (memsz - filesz)) 0.

Lemma length_seg_bytes off filesz memsz : 0 <= off -> 0 <= filesz <= memsz -> off + filesz <= Z.of_nat (length data) ->
  Z.of_nat (length (seg_bytes off filesz memsz)) = memsz.
Proof. intros. unfold seg_bytes. rewrite length_app, length_replicate, length_sub by lia. lia. Qed.

Lemma load_segment_ok s off vaddr memsz filesz x : calm s -> 0 <= off -> 0 <= filesz <= memsz ->
  off + filesz <= Z.of_nat (length data) -> off + memsz <= INT_MAX -> 0 <= vaddr -> vaddr + memsz <= USERTOP ->
  mapped (p_mach s) vaddr memsz ->
  exists w m, load_segment s v off vaddr memsz filesz x = Done (set_world s w m, Ok tt) /\ calm (set_world s w m) /\
    forall a, umem m a = fill (umem (p_mach s)) vaddr (Some <$> seg_bytes off filesz memsz) a.
Proof.
  intros [Hq Hb] Ho Hf Hin Hmax Hv Htop Hmap. unfold load_segment.
  assert ((if filesz >? memsz then memsz else filesz) = filesz) as -> by (by rewrite Z.gtb_ltb; destruct (Z.ltb_spec memsz filesz); [lia|]).
  cbv zeta. unfold USERTOP in *.
  set (seg := if negb (x =? 0) then UIO_USERISPACE else UIO_USERSPACE).
  set (u := mk_uio vaddr memsz off filesz seg UIO_READ (Some asp)).
  assert (seg <> UIO_SYSSPACE) as Hseg by (unfold seg; by case_match).
  destruct (if_read _ _ _ HQ (p_world s) (p_mach s) u) as (w & m & E & Hq' & Hm); try done; [simpl; lia| |].
  { simpl. rewrite avail_in by lia. split; simpl; try done; try lia; [by destruct seg|unfold INT_MIN, INT_MAX in *; lia|].
    unfold USERTOP. destruct seg; try done; (split; [lia|]); intros a Ha; apply Hmap; lia. }
  change (uio_offset u) with off in E, Hm. change (uio_resid u) with filesz in E, Hm.
  rewrite avail_in in E, Hm by lia. rewrite E. run.
  assert (ready (Some asp) (p_mach s) (mk_uio vaddr memsz off memsz seg UIO_READ (Some asp)) memsz) as Hall.
  { split; simpl; try done; try lia; [by destruct seg|unfold INT_MIN, INT_MAX in *; lia|]. unfold USERTOP. by destruct seg. }
  assert (uio_resid (advance u filesz) = 0) as Er. { simpl. by rewrite Z.sub_diag. }
  rewrite Er, Z.eqb_refl. cbn [negb]. rewrite u32_small by lia. rewrite Z.gtb_ltb.
  assert (moved (p_mach s) (mk_uio vaddr memsz off memsz seg UIO_READ (Some asp)) (sub data off filesz) m) as Hm1 by done.
  destruct (Z.ltb_spec 0 (memsz - filesz)) as [Hfill|Hfill].
  - set (u2 := mk_uio _ _ _ _ _ _ _). assert (u2 = advance (mk_uio vaddr memsz off memsz seg UIO_READ (Some asp)) filesz) as ->.
    { unfold u2, advance. simpl. f_equal. }
    destruct (uiomovezeros_ok (Some asp) m (memsz - filesz) (advance (mk_uio vaddr memsz off memsz seg UIO_READ (Some asp)) filesz))
      as (m2 & E2 & Hm2); [|done|].
    { eapply ready_rest; [|lia|lia|apply Hm1]. by replace (filesz + (memsz - filesz)) with memsz by lia. }
    rewrite E2. run. exists w, m2. split; [done|].
    pose proof (moved_app _ _ _ _ _ _ _ Hm1 Hm2 eq_refl) as [Hb3 Hm3].
    { simpl. rewrite length_sub by lia. rewrite u32_small; lia. }
    split; [split; simpl; [done|congruence]|]. intros a. simpl in Hm3. destruct seg; try done; by apply Hm3.
  - exists w, m. split; [done|]. destruct Hm as [Hb' Hm]. split; [split; simpl; [done|congruence]|].
    intros a. unfold seg_bytes. replace (Z.to_nat (memsz - filesz)) with 0%nat by lia. simpl. rewrite app_nil_r.
    simpl in Hm. destruct seg; try done; by apply Hm.
Qed.

(** *** The program headers *)

Definition phdr (eh : Ehdr) (i : Z) : Phdr := dec_phdr (sub data (e_phoff eh + i * e_phentsize eh) sizeof_Phdr).
Definition to_load (ph : Phdr) : bool := match segment_action (p_type ph) with Load => true | _ => false end.
(** The segments to load among the headers from [i] on. *)
Definition loads (eh : Ehdr) (i : Z) (n : nat) : list Phdr := filter to_load (phdr eh <$> seqZ i (Z.of_nat n)).

(** The headers are in the file and of a known type. *)
Definition phdrs_ok (eh : Ehdr) (i : Z) (n : nat) : Prop :=
  forall j, i <= j < i + Z.of_nat n -> 0 <= e_phoff eh + j * e_phentsize eh /\
    e_phoff eh + j * e_phentsize eh + sizeof_Phdr <= Z.of_nat (length data) /\ segment_action (p_type (phdr eh j)) <> Refuse.

Hypothesis Hbufs : 0 <= ehbuf /\ ehbuf + sizeof_Ehdr < 2 ^ 32 /\ 0 <= phbuf /\ phbuf + sizeof_Phdr < 2 ^ 32.
Hypothesis Hsize : Z.of_nat (length data) <= INT_MAX.

Lemma loads_S eh i n : loads eh i (S n) = (if to_load (phdr eh i) then [phdr eh i] else []) ++ loads eh (i + 1) n.
Proof.
  unfold loads. rewrite seqZ_cons by lia. rewrite fmap_cons. replace (Z.pred (Z.of_nat (S n))) with (Z.of_nat n) by lia.
  rewrite filter_cons. replace (Z.succ i) with (i + 1) by lia. by destruct (to_load (phdr eh i)).
Qed.

Lemma phdr_loop_ok (I : list Phdr -> ps -> Prop) body eh n i d s :
  (forall d s w m, I d s -> umem m = umem (p_mach s) -> I d (set_world s w m)) ->
  (forall d ph r s, d ++ ph :: r = loads eh 0 (Z.to_nat (e_phnum eh)) -> I d s -> calm s ->
     exists s', body s ph = Done (s', Ok tt) /\ calm s' /\ I (d ++ [ph]) s') ->
  phdrs_ok eh i n -> d ++ loads eh i n = loads eh 0 (Z.to_nat (e_phnum eh)) -> I d s -> calm s ->
  exists s', phdr_loop n s v eh i body = Done (s', Ok tt) /\ calm s' /\ I (d ++ loads eh i n) s'.
Proof.
  intros Hst Hbody. revert i d s. induction n as [|n IH]; intros i d s Hok Hd HI Hc.
  { exists s. change (loads eh i 0) with (@nil Phdr) in *. rewrite app_nil_r in *. done. }
  cbn [phdr_loop]. destruct (Hok i) as (H0 & H1 & H2); [lia|]. unfold sizeof_Phdr, INT_MAX in *.
  assert (phdr_offset eh i = e_phoff eh + i * e_phentsize eh) as ->.
  { unfold phdr_offset. rewrite s32_small; rewrite ?u32_small; lia. }
  destruct (read_struct_ok s phbuf 32 (e_phoff eh + i * e_phentsize eh)) as (w & m & -> & Hc1 & Hu); try done; try (unfold INT_MAX; lia).
  run. fold sizeof_Phdr. change (dec_phdr (sub data (e_phoff eh + i * e_phentsize eh) sizeof_Phdr)) with (phdr eh i).
  rewrite loads_S in *. unfold to_load in *. apply (Hst d s w m) in HI; [|done].
  assert (phdrs_ok eh (i + 1) n) as Hok'. { intros j Hj. apply Hok. lia. }
  destruct (segment_action (p_type (phdr eh i))) eqn:Ea; [by apply IH| |done]. simpl in Hd.
  destruct (Hbody d (phdr eh i) (loads eh (i + 1) n) (set_world s w m)) as (s2 & -> & Hc2 & HI2); try done. run.
  destruct (IH (i + 1) (d ++ [phdr eh i]) s2) as (s' & -> & Hc' & HI'); try done. { by rewrite <- app_assoc. }
  exists s'. by rewrite <- app_assoc in HI'.
Qed.

(** *** The address space *)

Definition STACKBASE : Z := USERSTACK - DUMBVM_STACKPAGES * PAGE_SIZE.

(** A segment that can be loaded: below the stack, not in the first page, and with
    its bytes in the file. *)
Record seg_fits (ph : Phdr) : Prop := {
  sf_addr : PAGE_SIZE <= p_vaddr ph /\ p_vaddr ph + p_memsz ph <= STACKBASE;
  sf_size : 0 < p_memsz ph /\ 0 <= p_filesz ph <= p_memsz ph;
  sf_file : 0 <= p_offset ph /\ p_offset ph + p_filesz ph <= Z.of_nat (length data);
  sf_max : p_offset ph + p_memsz ph <= INT_MAX
}.

(** The run of pages from [b] on is the smallest that covers the segment. *)
Definition covers (ph : Phdr) (b n : Z) : Prop :=
  b mod PAGE_SIZE = 0 /\ b <= p_vaddr ph < b + PAGE_SIZE /\
  p_vaddr ph + p_memsz ph <= b + n * PAGE_SIZE < p_vaddr ph + p_memsz ph + PAGE_SIZE.

(** The number of pages the segment touches. *)
Definition seg_pages (ph : Phdr) : Z :=
  (p_vaddr ph + p_memsz ph + PAGE_SIZE - 1) / PAGE_SIZE - p_vaddr ph / PAGE_SIZE.

Lemma covers_pages ph b n : covers ph b n -> n = seg_pages ph.
Proof. unfold covers, seg_pages, PAGE_SIZE. intros (C1 & C2 & C3). zlia. Qed.

Lemma covers_seg ph b n : seg_fits ph -> covers ph b n -> seg_ok b n /\ b + n * PAGE_SIZE <= STACKBASE.
Proof.
  intros [[H1 H2] [H3 _] _ _] (C1 & C2 & C3). assert (STACKBASE = 0x7ffe8000) as Es by done. rewrite Es in *.
  unfold seg_ok, PAGE_SIZE in *. split; [|zlia]. split_and!; zlia.
Qed.

Definition as_empty : addrspace := mk_as 0 0 0 0 0 0 0.

(** The address space after the segments [d] have been defined. *)
Definition defined (d : list Phdr) (as_ : addrspace) : Prop :=
  match d with
  | [] => as_ = as_empty
  | [a] => exists b n, covers a b n /\ as_ = mk_as b 0 n 0 0 0 0
  | [a; a'] => exists b n b' n', covers a b n /\ covers a' b' n' /\ as_ = mk_as b 0 n b' 0 n' 0
  | _ => False
  end.

Lemma define_ok d ph as_ : defined d as_ -> Forall seg_fits (d ++ [ph]) -> (length d < 2)%nat ->
  exists as', as_define_region as_ (p_vaddr ph) (p_memsz ph) = (as', Ok tt) /\ defined (d ++ [ph]) as'.
Proof.
  intros Hd Hf Hlen. apply Forall_app in Hf as [Hfd Hf]. apply list.Forall_cons in Hf as [Hph _].
  pose proof (as_define_region_spec as_ (p_vaddr ph) (p_memsz ph)) as H. destruct Hph as [[H1 H2] [H3 _] _ _].
  destruct (as_define_region as_ (p_vaddr ph) (p_memsz ph)) as [as' r].
  assert (PAGE_SIZE = 4096) as Ep by done.
  assert (STACKBASE = 0x7ffe8000) as Es by done.
  specialize (H ltac:(lia) ltac:(lia) ltac:(lia)).
  destruct d as [|a [|? ?]]; simpl in Hd, Hlen; [subst as_| |lia].
  - simpl in H. destruct H as (-> & b & n & Hb & Hb1 & Hb2 & ->). exists (mk_as b 0 n 0 0 0 0). split; [done|].
    exists b, n. done.
  - destruct Hd as (b & n & Hc & ->). apply list.Forall_cons in Hfd as [Ha _].
    destruct (covers_seg a b n Ha Hc) as [[Hb _] _]. simpl in H. destruct (Z.eqb_spec b 0) as [|_]; [lia|]. simpl in H.
    destruct H as (-> & b' & n' & Hb1 & Hb2 & Hb3 & ->). exists (mk_as b 0 n b' 0 n' 0). split; [done|].
    exists b, n, b', n'. done.
Qed.

(** Every page of a segment, and of the stack, is there. *)
Lemma view_mapped cm as_ a len : Coremap.cm_inv cm -> as_ok cm as_ -> tlb_enough as_ = true ->
  0 <= a -> a + len <= USERTOP ->
  (as_vbase1 as_ <= a /\ a + len <= as_vbase1 as_ + as_npages1 as_ * PAGE_SIZE) \/
  (as_vbase2 as_ <= a /\ a + len <= as_vbase2 as_ + as_npages2 as_ * PAGE_SIZE) \/ STACKBASE <= a ->
  forall x, a <= x < a + len -> as_view as_ x <> None.
Proof.
  intros Hcm Hok Hres Ha Hlen Hin x Hx. unfold as_view. rewrite Hres. simpl. unfold USERTOP in Hlen.
  rewrite page_frame by lia. rewrite (as_translate_spec cm) by (done || unfold PAGE_SIZE; zlia).
  assert (exists i k, as_segment as_ (x / PAGE_SIZE * PAGE_SIZE) = Some (i, k)) as (i & k & E).
  { destruct Hok as [[(? & ? & ? & ?) (? & ? & ? & ?)] _]. unfold as_segment.
    assert (STACKBASE = 0x7ffe8000) as Es by done. assert (USERSTACK = 0x80000000) as Eu by done.
    fold STACKBASE. rewrite Es, Eu in *. unfold PAGE_SIZE in *.
    repeat case_bool; try (by eexists _, _); exfalso; zlia. }
  rewrite E. simpl. apply as_segment_range in E as (pa & n & E & _). by rewrite E.
Qed.

(** The segments lie in the address space. *)
Definition placed (d : list Phdr) (as_ : addrspace) : Prop :=
  exists a a', d = [a; a'] /\ covers a (as_vbase1 as_) (as_npages1 as_) /\ covers a' (as_vbase2 as_) (as_npages2 as_).

(** There are not enough contiguous free pages for one of the segments or the stack. *)
Definition no_room (cm : Coremap.cm_state) (d : list Phdr) : Prop :=
  (exists ph, ph ∈ d /\ Coremap.no_run cm (seg_pages ph)) \/ Coremap.no_run cm DUMBVM_STACKPAGES.

Lemma prepare_ok s d : calm s -> Coremap.cm_inv (p_cm s) -> defined d (p_as s) -> Forall seg_fits d -> length d = 2%nat ->
  exists s' r, prepare s = Done (s', r) /\ calm s' /\ Coremap.cm_inv (p_cm s') /\
    (r = Err ENOMEM /\ no_room (p_cm s') d \/
     r = Ok tt /\ as_ok (p_cm s') (p_as s') /\ placed d (p_as s') /\ umem (p_mach s') = as_view (p_as s')).
Proof.
  intros Hc Hcm Hd Hf Hlen. destruct d as [|a [|a' [|? ?]]]; try done.
  apply list.Forall_cons in Hf as [Ha Hf]. apply list.Forall_cons in Hf as [Ha' _].
  destruct Hd as (b & n & b' & n' & C1 & C2 & Eas). unfold prepare. rewrite Eas.
  destruct (covers_seg a b n Ha C1) as [Hseg Htop], (covers_seg a' b' n' Ha' C2) as [Hseg' Htop'].
  assert (STACKBASE = 0x7ffe8000) as Es by done. rewrite Es in *.
  destruct (as_prepare_load_spec (p_cm s) (mk_as b 0 n b' 0 n' 0) Hcm) as (cm' & as' & r & -> & Hcm' & _ & Hr);
    try done; try (unfold seg_ok, PAGE_SIZE in *; simpl; lia). run.
  destruct Hr as [[-> Hno]|(-> & p1 & p2 & p3 & -> & N1 & N2 & N3 & Hruns & A12 & A13 & A23)].
  { eexists _, _. split; [done|]. split; [done|]. split; [done|left]. split; [done|].
    unfold no_pages in Hno. simpl in Hno. rewrite (covers_pages _ _ _ C1), (covers_pages _ _ _ C2) in Hno.
    destruct Hno as [?|[?|?]]; [left; exists a|left; exists a'|by right]; (split; [|done]); [left|right; left]. }
  assert (as_ok cm' (set_stackpbase (set_pbase2 (set_pbase1 (mk_as b 0 n b' 0 n' 0) p1) p2) p3)) as Hok.
  { split; [by split|]. split; [by eapply list.Forall_impl; [apply Hruns|]; intros [? ?] []|].
    unfold seg_ok, Coremap.apart, DUMBVM_STACKPAGES, PAGE_SIZE in *. simpl in *. lia. }
  rewrite (as_setup_ok cm') by done. run. eexists _, _. split; [done|]. split; [done|]. split; [done|]. right.
  split; [done|]. split; [done|]. split; [|done]. by exists a, a'.
Qed.

(** *** The memory *)

Definition load_one (mem : Z -> option Z) (ph : Phdr) : Z -> option Z :=
  fill mem (p_vaddr ph) (Some <$> seg_bytes (p_offset ph) (p_filesz ph) (p_memsz ph)).

Lemma load_one_in mem ph : seg_fits ph ->
  bytes_at (load_one mem ph) (p_vaddr ph) (p_memsz ph) = Some <$> seg_bytes (p_offset ph) (p_filesz ph) (p_memsz ph).
Proof.
  intros [_ [? ?] [? ?] _]. unfold load_one. apply bytes_at_fill. rewrite length_fmap. by rewrite length_seg_bytes by lia.
Qed.

Lemma load_one_out mem ph x : seg_fits ph -> x < p_vaddr ph \/ p_vaddr ph + p_memsz ph <= x -> load_one mem ph x = mem x.
Proof.
  intros [_ [? ?] [? ?] _] Hx. unfold load_one. apply fill_out. rewrite length_fmap, length_seg_bytes by lia. lia.
Qed.

Lemma load_one_mapped mem ph x : mem x <> None -> load_one mem ph x <> None.
Proof.
  intros H. unfold load_one, fill. case_match; [|done]. rewrite list_lookup_fmap.
  by destruct (seg_bytes _ _ _ !! _).
Qed.

(** Two segments have no byte in common. *)
Definition disjoint (a b : Phdr) : Prop :=
  p_vaddr a + p_memsz a <= p_vaddr b \/ p_vaddr b + p_memsz b <= p_vaddr a.

(** A file that is an executable for this machine with the two segments [a] and [b]. *)
Record executable (eh : Ehdr) (a b : Phdr) : Prop := {
  ex_header : sizeof_Ehdr <= Z.of_nat (length data) /\ eh = dec_ehdr (sub data 0 sizeof_Ehdr) /\ ehdr_ok eh = true;
  ex_phdrs : phdrs_ok eh 0 (Z.to_nat (e_phnum eh));
  ex_segs : loads eh 0 (Z.to_nat (e_phnum eh)) = [a; b];
  ex_fits : seg_fits a /\ seg_fits b /\ disjoint a b
}.

Lemma both_fit a b : seg_fits a -> seg_fits b -> Forall seg_fits [a; b].
Proof. intros Ha Hb. apply list.Forall_cons. split; [done|]. apply list.Forall_cons. split; [done|]. by apply list.Forall_nil. Qed.

Lemma define_loop_ok eh a b s : executable eh a b -> calm s -> p_as s = as_empty ->
  exists s', phdr_loop (Z.to_nat (e_phnum eh)) s v eh 0 define_segment = Done (s', Ok tt) /\ calm s' /\
    p_cm s' = p_cm s /\ defined [a; b] (p_as s').
Proof.
  intros [_ Hph Hsegs (Fa & Fb & _)] Hc Has.
  destruct (phdr_loop_ok (fun d s' => p_cm s' = p_cm s /\ defined d (p_as s')) define_segment eh
    (Z.to_nat (e_phnum eh)) 0 [] s) as (s' & -> & Hc' & HI'); try done.
  - intros d ph r s1 Ed [Ecm Hd] [Hc1 Hc2]. rewrite Hsegs in Ed. unfold define_segment.
    destruct (define_ok d ph (p_as s1) Hd) as (as' & -> & Hd').
    + apply (Forall_app _ _ r). rewrite <- app_assoc. simpl. rewrite Ed. by apply both_fit.
    + apply (f_equal length) in Ed. rewrite length_app in Ed. simpl in Ed. lia.
    + eexists. split; [done|]. done.
  - exists s'. simpl in HI'. rewrite Hsegs in HI'. done.
Qed.

Lemma fill_pointwise {A} (f g : Z -> A) a l x : (forall y, f y = g y) -> fill f a l x = fill g a l x.
Proof. intros H. unfold fill. by rewrite H. Qed.

Lemma load_loop_ok eh a b s : executable eh a b -> calm s ->
  mapped (p_mach s) (p_vaddr a) (p_memsz a) -> mapped (p_mach s) (p_vaddr b) (p_memsz b) ->
  exists s', phdr_loop (Z.to_nat (e_phnum eh)) s v eh 0 (fun s ph =>
      load_segment s v (s32 (p_offset ph)) (p_vaddr ph) (p_memsz ph) (p_filesz ph) (Z.land (p_flags ph) PF_X)) = Done (s', Ok tt) /\
    calm s' /\ p_cm s' = p_cm s /\ p_as s' = p_as s /\
    forall x, umem (p_mach s') x = load_one (load_one (umem (p_mach s)) a) b x.
Proof.
  intros [_ Hph Hsegs (Fa & Fb & _)] Hc Ma Mb.
  destruct (phdr_loop_ok (fun d s' => p_cm s' = p_cm s /\ p_as s' = p_as s /\
    forall x, umem (p_mach s') x = foldl load_one (umem (p_mach s)) d x) (fun s ph =>
      load_segment s v (s32 (p_offset ph)) (p_vaddr ph) (p_memsz ph) (p_filesz ph) (Z.land (p_flags ph) PF_X)) eh
    (Z.to_nat (e_phnum eh)) 0 [] s) as (s' & -> & Hc' & HI'); try done.
  - intros d s1 w m (H1 & H2 & H3) Hu. split; [done|]. split; [done|]. simpl. by rewrite Hu.
  - intros d ph r s1 Ed (H1 & H2 & H3) Hc1. rewrite Hsegs in Ed.
    assert (seg_fits ph /\ forall x, p_vaddr ph <= x < p_vaddr ph + p_memsz ph -> foldl load_one (umem (p_mach s)) d x <> None) as [Fp Mp].
    { destruct d as [|? [|? d]]; simpl in Ed; simplify_eq; [| |by destruct d]; (split; [done|]); simpl; intros x Hx; [by apply Ma|].
      apply load_one_mapped. by apply Mb. }
    pose proof Fp as [[? ?] [? ?] [? ?] ?]. assert (STACKBASE = 0x7ffe8000) as Es by done. rewrite Es in *. unfold INT_MAX, PAGE_SIZE in *.
    rewrite (s32_small (p_offset ph)) by lia.
    destruct (load_segment_ok s1 (p_offset ph) (p_vaddr ph) (p_memsz ph) (p_filesz ph) (Z.land (p_flags ph) PF_X))
      as (w & m & -> & Hc2 & Hm); try done; try (unfold INT_MAX, USERTOP; lia).
    { intros x Hx. rewrite H3. by apply Mp. }
    eexists. split; [done|]. split; [done|]. split; [done|]. split; [done|]. intros x. rewrite foldl_app. simpl.
    rewrite Hm. by apply fill_pointwise.
  - exists s'. simpl in HI'. rewrite Hsegs in HI'. split; [done|]. split; [done|]. apply HI'.
Qed.

(** Given a vnode that reads as an executable file for this machine, and an empty
    address space. *)
Lemma load_elf_loads eh a b s : executable eh a b -> calm s -> p_as s = as_empty -> Coremap.cm_inv (p_cm s) ->
  seg_pages a + seg_pages b + DUMBVM_STACKPAGES <= NUM_TLB ->
  exists s' r, load_elf s v = Done (s', r) /\ calm s' /\
    (r = Err ENOMEM /\ no_room (p_cm s') [a; b] \/
     r = Ok (e_entry eh) /\ as_ok (p_cm s') (p_as s') /\
     mapped (p_mach s') STACKBASE (USERSTACK - STACKBASE) /\
     bytes_at (umem (p_mach s')) (p_vaddr a) (p_memsz a) = Some <$> seg_bytes (p_offset a) (p_filesz a) (p_memsz a) /\
     bytes_at (umem (p_mach s')) (p_vaddr b) (p_memsz b) = Some <$> seg_bytes (p_offset b) (p_filesz b) (p_memsz b)).
Proof.
  intros Hex Hc Has Hcm Hres. pose proof Hex as [(Hh & Heh & Hmag) Hph Hsegs (Fa & Fb & Hdis)]. unfold load_elf.
  destruct (read_struct_ok s ehbuf sizeof_Ehdr 0) as (w & m & -> & Hc1 & _); try done; try (unfold sizeof_Ehdr, INT_MAX in *; lia).
  run. rewrite <- Heh, Hmag. run.
  destruct (define_loop_ok eh a b (set_world s w m)) as (s2 & -> & Hc2 & Ecm & Hd); try done. run.
  destruct (prepare_ok s2 [a; b]) as (s3 & r & -> & Hc3 & Hcm3 & Hr); try done; [by rewrite Ecm|by apply both_fit|].
  destruct Hr as [[-> Hno]|(-> & Hok & (a' & b' & [= <- <-] & Ca & Cb) & Hu)]; run.
  { eexists _, _. split; [done|]. split; [done|by left]. }
  assert (tlb_enough (p_as s3) = true) as Hen.
  { unfold tlb_enough. rewrite (covers_pages _ _ _ Ca), (covers_pages _ _ _ Cb). by apply Z.leb_le. }
  pose proof (covers_seg _ _ _ Fa Ca) as [_ Ta]. pose proof (covers_seg _ _ _ Fb Cb) as [_ Tb].
  assert (STACKBASE = 0x7ffe8000) as Es by done. assert (USERSTACK = 0x80000000) as Eu by done.
  assert (forall x len, 0 <= x -> x + len <= USERTOP ->
    (as_vbase1 (p_as s3) <= x /\ x + len <= as_vbase1 (p_as s3) + as_npages1 (p_as s3) * PAGE_SIZE) \/
    (as_vbase2 (p_as s3) <= x /\ x + len <= as_vbase2 (p_as s3) + as_npages2 (p_as s3) * PAGE_SIZE) \/ STACKBASE <= x ->
    mapped (p_mach s3) x len) as Hmap.
  { intros x len H1 H2 H3 y Hy. rewrite Hu. by eapply view_mapped. }
  pose proof Fa as [[? ?] [? ?] _ _]. pose proof Fb as [[? ?] [? ?] _ _]. unfold covers, USERTOP, PAGE_SIZE in *.
  destruct (load_loop_ok eh a b s3 Hex Hc3) as (s4 & -> & Hc4 & Ecm4 & Eas4 & Hm); [apply Hmap; lia..|]. run.
  eexists _, _. split; [done|]. split; [done|]. right. split; [done|]. rewrite Ecm4, Eas4. split; [done|]. split.
  { intros x Hx. rewrite Hm. do 2 apply load_one_mapped. apply (Hmap STACKBASE (USERSTACK - STACKBASE)); lia. }
  rewrite !(bytes_at_ext _ _ _ _ (fun x _ => Hm x)). split; [|by apply load_one_in].
  rewrite (bytes_at_ext _ (load_one (umem (p_mach s3)) a)); [by apply load_one_in|].
  intros x Hx. apply load_one_out; [done|]. unfold disjoint in Hdis. lia.
Qed.

End load.
End Elf.

(** ** Starting a program *)

Module Exec.
Import Elf.

(** *** The arguments on the stack *)

(** [for(i = 0; i < argument_count; i++)] from [i] on, [n] rounds: the strings, which
    [get] finds, go below [stackptr], the first one at the top.  The results of
    [copyout] are not looked at. *)
Fixpoint copy_strings (get : Z -> mach -> exec (list Z)) (n : nat) (i : Z) (m : mach) (stackptr offset : Z)
  : exec ((mach * Z) * list Z) :=
  match n with
  | O => Done ((m, offset), [])
  | S n' =>
      arg ← get i m;
      let len := Z.of_nat (length arg) + 1 in
      let offset := s32 (u32 (offset + len)) in
      let ptr := u32 (stackptr - offset) in
      '(m1, _) ← copyout m (arg ++ [0]) 0 ptr len;
      '((m2, offset2), ptrs) ← copy_strings get n' (i + 1) m1 stackptr offset;
      Done ((m2, offset2), ptr :: ptrs)
  end.

(** The strings, then the vector of pointers to them; the result is the new stack
    pointer. *)
Definition build_stack (m : mach) (stackptr argument_count : Z) (get : Z -> mach -> exec (list Z)) : exec (mach * Z) :=
  '((m1, offset), ptrs) ← copy_strings get (Z.to_nat argument_count) 0 m stackptr 0;
  let string_ptr := ptrs ++ [0] in
  let pointers_space := s32 (u32 ((argument_count + 1) * 4)) in
  offset ← int (offset + pointers_space);
  let padding := u32 (stackptr - offset) mod 4 in
  total_space_needed ← int (offset + padding);
  let address := u32 (stackptr - total_space_needed) in
  '(m2, _) ← copyout m1 (put_words string_ptr) 0 address pointers_space;
  Done (m2, address).

(** *** The calls *)

(** What a call that starts a program ends in: an error, or user mode with these
    values in [a0], [a1], [sp] and [pc]. *)
Inductive outcome : Type :=
| Failed (e : errno)
| Enter (argc argv stack entry : Z).

Section exec.
Context {W : Type} {V : Vnodes W}.

(** The kernel as these calls see it: the VFS state and the vnodes, the memory, the
    coremap, [curthread->t_vmspace] and the TLB. *)
Record xs : Type := mk_xs {
  x_vfs : Vfs.vfs;
  x_world : W;
  x_mach : mach;
  x_cm : Coremap.cm_state;
  x_as : option addrspace;
  x_tlb : list (Z * Z)
}.

Variables (asp ehbuf phbuf : Z) (resident : Z -> bool) (pmem : Z -> Z) (mem : Z -> bool).

Definition O_RDONLY : Z := 0.

(** From the opened file [v] to the program's memory: as in [runprogram] and in
    [sys_execv], where [count] and [get] find the arguments. *)
Definition start_program (s : xs) (v : Z) (count : mach -> exec Z) (get : Z -> mach -> exec (list Z)) : exec (xs * outcome) :=
  match as_create mem with
  | None =>
      w ← Vfs.vfs_close (x_world s) v;
      Done (mk_xs (x_vfs s) w (x_mach s) (x_cm s) (x_as s) (x_tlb s), Failed ENOMEM)
  | Some new =>
      tlb ← as_activate (x_tlb s);
      '(p, r) ← load_elf asp ehbuf phbuf resident pmem (mk_ps (x_world s) (x_mach s) (x_cm s) new) v;
      w ← Vfs.vfs_close (p_world p) v;
      let s1 m := mk_xs (x_vfs s) w m (p_cm p) (Some (p_as p)) tlb in
      match r with
      | Err e => Done (s1 (p_mach p), Failed e)
      | Ok entrypoint =>
          r ← as_define_stack (p_as p);
          match r with
          | Err e => Done (s1 (p_mach p), Failed e)
          | Ok stackptr =>
              argument_count ← count (p_mach p);
              '(m, sp) ← build_stack (p_mach p) stackptr argument_count get;
              Done (s1 m, Enter argument_count sp sp entrypoint)
          end
      end
  end.

(** The arguments are strings in the kernel's memory. *)
Definition runprogram (s : xs) (progname : list Z) (arguments : list (list Z)) (argument_count : Z) : exec (xs * outcome) :=
  '((vs, w), r) ← Vfs.vfs_open mem (x_vfs s) (x_world s) progname O_RDONLY;
  let s1 := mk_xs vs w (x_mach s) (x_cm s) (x_as s) (x_tlb s) in
  match r with
  | Err e => Done (s1, Failed e)
  | Ok v =>
      assert! match x_as s1 with None => true | Some _ => false end;
      start_program s1 v (fun _ => Done argument_count) (fun i _ => rd arguments i)
  end.

(** [sys_execv] follows the pointers of the user program itself; a bad one makes the
    kernel panic.  [fuel] bounds the lengths it walks. *)
Definition load_byte (m : mach) (a : Z) : exec Z :=
  match umem m a with Some x => Done x | None => Halt Panic end.
Definition load_word (m : mach) (a : Z) : exec Z :=
  b0 ← load_byte m a; b1 ← load_byte m (a + 1); b2 ← load_byte m (a + 2); b3 ← load_byte m (a + 3);
  Done (of_be32 [b0; b1; b2; b3] 0).
Fixpoint load_string (fuel : nat) (m : mach) (a : Z) : exec (list Z) :=
  match fuel with
  | O => Halt Fuel
  | S f => c ← load_byte m a; if c =? 0 then Done [] else l ← load_string f m (a + 1); Done (c :: l)
  end.
(** [while(((char** )args)[argument_count] != NULL)] from [n] on *)
Fixpoint count_args (fuel : nat) (m : mach) (args n : Z) : exec Z :=
  match fuel with
  | O => Halt Fuel
  | S f => p ← load_word m (args + 4 * n); if p =? 0 then Done n else count_args f m args (n + 1)
  end.

Definition sys_execv (fuel : nat) (s : xs) (program args : Z) : exec (xs * outcome) :=
  path ← load_string fuel (x_mach s) program;
  '((vs, w), r) ← Vfs.vfs_open mem (x_vfs s) (x_world s) path O_RDONLY;
  let s1 := mk_xs vs w (x_mach s) (x_cm s) (x_as s) (x_tlb s) in
  match r with
  | Err e => Done (s1, Failed e)
  | Ok v => start_program s1 v (fun m => count_args fuel m args 0)
            (fun i m => p ← load_word m (args + 4 * i); load_string fuel m p)
  end.

End exec.

(** ** The stack of a new program *)

(** The space the strings take. *)
Definition strings_size (args : list (list Z)) : Z := Z.of_nat (sum_list_with (fun a => length a + 1)%nat args).

(** The strings [args] have been copied, [ptrs] points to them, all between [low] and
    [high]. *)
Definition strings_at (m : mach) (args : list (list Z)) (ptrs : list Z) (low high : Z) : Prop :=
  Forall2 (fun arg p => low <= p /\ p + Z.of_nat (length arg) + 1 <= high /\
    bytes_at (umem m) p (Z.of_nat (length arg) + 1) = Some <$> (arg ++ [0])) args ptrs.

Lemma copy_strings_ok get args i m stackptr offset low : (forall k arg m, args !! k = Some arg -> get (i + Z.of_nat k) m = Done arg) ->
  pcb_badfaultfunc m = false -> 0 < low -> 0 <= offset -> stackptr <= USERTOP ->
  low <= stackptr - (offset + strings_size args) -> mapped m low (stackptr - low) ->
  exists m' ptrs, copy_strings get (length args) i m stackptr offset = Done ((m', offset + strings_size args), ptrs) /\
    pcb_badfaultfunc m' = false /\ mapped m' low (stackptr - low) /\
    strings_at m' args ptrs (stackptr - (offset + strings_size args)) (stackptr - offset) /\
    (forall x, x < stackptr - (offset + strings_size args) \/ stackptr - offset <= x -> umem m' x = umem m x).
Proof.
  revert i m offset. induction args as [|arg args IH]; intros i m offset Hget Hb Hlow Ho Htop Hfit Hmap.
  { exists m, []. unfold strings_size. simpl. rewrite Z.add_0_r. split; [done|]. split; [done|]. split; [done|]. split; [constructor|done]. }
  assert (strings_size (arg :: args) = Z.of_nat (length arg) + 1 + strings_size args) as Es by (unfold strings_size; simpl; lia).
  rewrite Es in *. cbn [copy_strings length]. pose proof (Hget 0%nat arg m eq_refl) as E0. rewrite Z.add_0_r in E0. rewrite E0. run.
  set (len := Z.of_nat (length arg) + 1) in *. assert (0 <= strings_size args) by (unfold strings_size; lia). unfold USERTOP in *.
  rewrite (u32_small (offset + len)), s32_small, u32_small by lia. set (p := stackptr - (offset + len)).
  assert (sub (arg ++ [0]) 0 len = arg ++ [0]) as Esub.
  { unfold sub, len. rewrite drop_0. apply take_ge. rewrite length_app. simpl. lia. }
  rewrite copyout_ok; [|unfold user_range, USERTOP; lia|intros x Hx; apply Hmap; lia|lia|unfold len; rewrite length_app; simpl; lia].
  rewrite Esub. run. set (m1 := mk_mach _ _ _).
  assert (Z.of_nat (length (Some <$> (arg ++ [0]))) = len) as El by (rewrite length_fmap, length_app; unfold len; simpl; lia).
  destruct (IH (i + 1) m1 (offset + len)) as (m' & ptrs & E & Hb' & Hmap' & Hs & Hout); try done; try lia.
  { intros k arg' m0 Hk. rewrite <- (Hget (S k) arg' m0 Hk). f_equal. lia. }
  { intros x Hx. unfold m1. simpl. unfold fill. case_match; [|by apply Hmap]. rewrite list_lookup_fmap. by destruct ((arg ++ [0]) !! _); [|apply Hmap]. }
  rewrite E. run. exists m', (p :: ptrs). rewrite Z.add_assoc. split; [done|]. split; [done|]. split; [done|].
  split; [constructor|].
  - split; [lia|]. split; [lia|]. rewrite (bytes_at_ext _ (umem m1)) by (intros x Hx; apply Hout; lia).
    unfold m1. simpl. by apply bytes_at_fill.
  - eapply list.Forall2_impl; [apply Hs|]. intros a q (Q1 & Q2 & Q3). split; [done|]. split; [lia|done].
  - intros x Hx. rewrite Hout by lia. unfold m1. simpl. apply fill_out. lia.
Qed.

(** C31. A new program finds its arguments: [build_stack], the code that [runprogram] and
    [sys_execv] end with, succeeds when the stack has room for the strings, the vector
    and three bytes.  The new stack pointer is a multiple of four below the old one; at
    it lies the vector, one pointer for each argument and then NULL, and each pointer
    leads to the NUL-terminated string above the vector.  Nothing below the new stack
    pointer or above the old one has changed. *)
Theorem build_stack_correct get args m stackptr low : (forall k arg m, args !! k = Some arg -> get (Z.of_nat k) m = Done arg) ->
  pcb_badfaultfunc m = false -> 0 < low -> stackptr <= USERTOP ->
  low <= stackptr - (strings_size args + 4 * (Z.of_nat (length args) + 1) + 3) -> mapped m low (stackptr - low) ->
  exists m' sp ptrs, build_stack m stackptr (Z.of_nat (length args)) get = Done (m', sp) /\
    low <= sp < stackptr /\ sp mod 4 = 0 /\ length ptrs = length args /\
    bytes_at (umem m') sp (4 * (Z.of_nat (length args) + 1)) = Some <$> put_words (ptrs ++ [0]) /\
    strings_at m' args ptrs (sp + 4 * (Z.of_nat (length args) + 1)) stackptr /\
    (forall x, x < sp \/ stackptr <= x -> umem m' x = umem m x).
Proof.
  intros Hget Hb Hlow Htop Hfit Hmap. unfold build_stack. rewrite Nat2Z.id. unfold USERTOP in Htop.
  assert (0 <= strings_size args) by (unfold strings_size; lia).
  destruct (copy_strings_ok get args 0 m stackptr 0 low) as (m1 & ptrs & -> & Hb1 & Hmap1 & Hs & Hout); try done; try lia. run.
  rewrite !Z.add_0_l, !Z.sub_0_r in *. set (n := Z.of_nat (length args)) in *.
  rewrite (u32_small ((n + 1) * 4)), s32_small by lia. rewrite int_Done by (unfold INT_MIN, INT_MAX; lia). run.
  rewrite (u32_small (stackptr - _)) by lia. set (need := strings_size args + (n + 1) * 4) in *.
  assert (0 <= (stackptr - need) mod 4 < 4) by (apply Z.mod_pos_bound; lia).
  rewrite int_Done by (unfold INT_MIN, INT_MAX; lia). run. rewrite u32_small by lia.
  set (sp := stackptr - (need + (stackptr - need) mod 4)).
  assert (length ptrs = length args) as Hlp by (symmetry; by eapply Forall2_length).
  assert (Z.of_nat (length (put_words (ptrs ++ [0]))) = (n + 1) * 4) as Hl.
  { rewrite length_put_words, length_app. simpl. lia. }
  rewrite copyout_ok; [|unfold user_range, USERTOP; lia|intros x Hx; apply Hmap1; lia|lia|lia].
  assert (sub (put_words (ptrs ++ [0])) 0 ((n + 1) * 4) = put_words (ptrs ++ [0])) as ->.
  { unfold sub. rewrite drop_0. apply take_ge. lia. }
  run. eexists _, sp, ptrs. split; [done|]. split; [lia|]. split; [unfold sp; zlia|]. split; [done|]. simpl.
  replace (4 * (n + 1)) with ((n + 1) * 4) by lia. split; [apply bytes_at_fill; rewrite length_fmap; lia|]. split.
  - eapply list.Forall2_impl; [apply Hs|]. intros a q (Q1 & Q2 & Q3). split; [lia|]. split; [lia|].
    rewrite <- Q3. apply bytes_at_ext. intros x Hx. simpl. apply fill_out. rewrite length_fmap. lia.
  - intros x Hx. rewrite fill_out by (rewrite length_fmap; lia). apply Hout. lia.
Qed.

End Exec.

(** ** Programs on SFS

    A regular file of a mounted filesystem reads as [load_elf] needs it. *)

Module OnSfs.
Import Elf Sfs.Sfs SfsFile.SfsFile SfsIo.SfsIo SfsRef.SfsRef.

Section sfs.
Context {D : Type} {B : BlockDev D} {BOk : BlockDevOk D} {C : DevCalm D}.

(** The vnode at [p] is a regular file with the contents [data]. *)
Definition holds (p : Z) (data : list Z) (f : sfs_fs D) : Prop :=
  fs_inv f /\ exists sv, vnodes f !! p = Some sv /\ vn_ops sv = sfs_fileops /\ file_wf f (sv_i sv) /\
    contents f (sv_i sv) = data.

Lemma put_sv_same (f : sfs_fs D) p sv : vnodes f !! p = Some sv -> put_sv f p sv = f.
Proof. intros H. destruct f. unfold put_sv, set_vnodes. simpl in *. by rewrite insert_id. Qed.

(** The table of vnodes does not matter for what is on the disk. *)
Lemma put_inv (f : sfs_fs D) p sv : fs_inv f -> fs_inv (put_sv f p sv).
Proof. intros []. by split. Qed.
Lemma put_wf (f : sfs_fs D) p sv i : file_wf f i -> file_wf (put_sv f p sv) i.
Proof. intros [[] Hsz]. split; [by split|done]. Qed.

Lemma sfs_is_file asp p data : is_file (W := sfs_fs D) asp (holds p data) p data.
Proof.
  split. intros f m u (Hfs & sv & Hsv & Hops & Hwf & Hc) Hrw Ho Hmax Hr. subst data.
  assert (0 <= sfi_size (sv_i sv)) as Hsz by apply Hwf.
  assert (avail (contents f (sv_i sv)) (uio_offset u) (uio_resid u) = available (sv_i sv) (uio_offset u) (uio_resid u)) as Ea.
  { unfold avail, available, contents. rewrite length_bytes_at. lia. }
  rewrite Ea in *. assert (0 <= uio_resid u) as Hn. { destruct Hr. lia. }
  destruct (sfs_io_reads (Some asp) (mk_ios f sv m u) Hfs Hwf Hrw Ho Hn Hmax Hr) as (s' & E & Hrt).
  simpl. unfold io_at, get_sv. rewrite Hsv. run. unfold VOP_READ, vop. simpl. rewrite Hops. unfold sfs_read. simpl.
  rewrite Hrw, bool_decide_eq_true_2 by done. run. rewrite E. run. destruct Hrt. simpl in *.
  assert (vnodes (i_fs s') !! p = Some sv) as Hsv' by (by rewrite (sf_vnodes _ _ rt_fs0)).
  rewrite rt_sv0, (put_sv_same _ _ _ Hsv'), rt_uio0. eexists _, _. split; [done|]. split.
  - split; [apply rt_fs0|]. exists sv. split; [done|]. split; [done|]. split.
    + destruct Hwf. split; [by eapply same_file|done].
    + unfold contents. apply bytes_at_ext. intros x _. by apply same_fbyte.
  - rewrite <- contents_sub by done. replace (available _ _ (available _ _ _)) with (available (sv_i sv) (uio_offset u) (uio_resid u)).
    + done.
    + unfold available. lia.
Qed.

(** C8. Programs are loaded from disk as they are: [load_elf] on a regular SFS file that
    is an executable for this machine, with two segments that fit below the stack, and
    with an empty address space, returns the program's entry point, unless there are
    not enough contiguous free pages for one of the segments or the stack (ENOMEM).  On
    success the memory of each segment holds the segment's bytes of the file and zeros
    after them, the address space is well formed and its stack is mapped.  The file has
    not changed.  The disk works ([reliable], in [fs_inv]), and the program with its
    stack has at most 64 pages, as many as the TLB has entries: a larger one can fail
    with EFAULT, since [vm_fault] never replaces an entry. *)
Theorem sfs_load_elf asp ehbuf phbuf resident pmem p data eh a b (s : ps (W := sfs_fs D)) :
  0 <= ehbuf /\ ehbuf + sizeof_Ehdr < 2 ^ 32 /\ 0 <= phbuf /\ phbuf + sizeof_Phdr < 2 ^ 32 ->
  holds p data (p_world s) -> executable data eh a b -> Z.of_nat (length data) <= INT_MAX ->
  pcb_badfaultfunc (p_mach s) = false -> p_as s = as_empty -> Coremap.cm_inv (p_cm s) ->
  seg_pages a + seg_pages b + DUMBVM_STACKPAGES <= NUM_TLB ->
  exists s' r, load_elf asp ehbuf phbuf resident pmem s p = Done (s', r) /\ holds p data (p_world s') /\
    (r = Err ENOMEM /\ no_room (p_cm s') [a; b] \/
     r = Ok (e_entry eh) /\ as_ok (p_cm s') (p_as s') /\
     mapped (p_mach s') STACKBASE (USERSTACK - STACKBASE) /\
     bytes_at (umem (p_mach s')) (p_vaddr a) (p_memsz a) = Some <$> seg_bytes data (p_offset a) (p_filesz a) (p_memsz a) /\
     bytes_at (umem (p_mach s')) (p_vaddr b) (p_memsz b) = Some <$> seg_bytes data (p_offset b) (p_filesz b) (p_memsz b)).
Proof.
  intros Hbufs Hh Hex Hlen Hb Has Hcm Hres.
  destruct (load_elf_loads asp ehbuf phbuf resident pmem (holds p data) p data (sfs_is_file asp p data) Hbufs Hlen eh a b s)
    as (s' & r & E & [Hh' _] & Hr); try done. by exists s', r.
Qed.

End sfs.
(** *** A program *)

#[local] Existing Instances Lhd.lhd_dev Lhd.lhd_dev_ok Lhd.lhd_dev_calm.

Definition elf_phdr (type off vaddr filesz memsz flags : Z) : list Z :=
  be32 type ++ be32 off ++ be32 vaddr ++ be32 vaddr ++ be32 filesz ++ be32 memsz ++ be32 flags ++ be32 4096.

(** A header that is skipped, eight bytes of code, four bytes of data in sixteen. *)
Definition hello_elf : list Z :=
  [0x7f; 69; 76; 70; 1; 2; 1; 0; 0; 0; 0; 0; 0; 0; 0; 0] ++
  be16 2 ++ be16 8 ++ be32 1 ++ be32 0x400000 ++ be32 52 ++ be32 0 ++ be32 0 ++
  be16 52 ++ be16 32 ++ be16 3 ++ be16 40 ++ be16 0 ++ be16 0 ++
  elf_phdr PT_MIPS_REGINFO 0 0 0 0 4 ++ elf_phdr PT_LOAD 148 0x400000 8 8 5 ++ elf_phdr PT_LOAD 156 0x10000000 4 16 6 ++
  [36; 2; 0; 0; 3; 224; 0; 8; 104; 105; 10; 0].

Definition hello_text : Phdr := mk_phdr 1 148 0x400000 8 8 5.
Definition hello_data : Phdr := mk_phdr 1 156 0x10000000 4 16 6.

Lemma hello_executable : executable hello_elf (dec_ehdr (sub hello_elf 0 sizeof_Ehdr)) hello_text hello_data.
Proof.
  split.
  - split; [vm_compute; discriminate|]. split; [done|]. vm_compute. reflexivity.
  - change (Z.to_nat _) with 3%nat. intros j Hj. assert (j = 0 \/ j = 1 \/ j = 2) as [-> | [-> | ->]] by lia;
      (split; [vm_compute; discriminate|]); (split; [vm_compute; discriminate|]); vm_compute; discriminate.
  - vm_compute. reflexivity.
  - split; [|split]; [split; vm_compute; repeat split; discriminate..|left; vm_compute; discriminate].
Qed.

Definition hello_sv : sfs_vnode :=
  mk_sv 1 1 sfs_fileops (ex_inode_of SFS_TYPE_FILE (Z.of_nat (length hello_elf)) 3) 5 false.
Definition hello_fs : sfs_fs Lhd.lhd :=
  put_sv (ex_fs_of (hello_elf ++ replicate (512 - length hello_elf) 0)) 100 hello_sv.

Lemma hello_holds : holds 100 hello_elf hello_fs.
Proof.
  split; [apply put_inv, ex_fs_of_inv; reflexivity|].
  exists hello_sv. split; [reflexivity|]. split; [done|]. split.
  - apply put_wf, ex_file_of; [lia|]. vm_compute. split; discriminate.
  - vm_compute. reflexivity.
Qed.

Definition hello_ps : ps (W := sfs_fs Lhd.lhd) :=
  mk_ps hello_fs (mk_mach (fun _ => 0) (fun _ => None) false) (Coremap.cm_fresh 0x20000 40) as_empty.

Definition loaded (x : exec (ps (W := sfs_fs Lhd.lhd) * ret Z)) : bool :=
  match x with Done (_, Ok _) => true | _ => false end.

Lemma sfs_load_elf_witness : exists s',
  load_elf 1 0x1000 0x2000 (fun _ => false) (fun _ => 0) hello_ps 100 = Done (s', Ok 0x400000) /\
  bytes_at (umem (p_mach s')) 0x400000 8 = Some <$> [36; 2; 0; 0; 3; 224; 0; 8] /\
  bytes_at (umem (p_mach s')) 0x10000000 16 = Some <$> ([104; 105; 10; 0] ++ replicate 12 0).
Proof.
  destruct (sfs_load_elf 1 0x1000 0x2000 (fun _ => false) (fun _ => 0) 100 hello_elf
    (dec_ehdr (sub hello_elf 0 sizeof_Ehdr)) hello_text hello_data hello_ps) as (s' & r & E & _ & Hr).
  - unfold sizeof_Ehdr, sizeof_Phdr. lia.
  - apply hello_holds.
  - apply hello_executable.
  - vm_compute. discriminate.
  - reflexivity.
  - reflexivity.
  - apply Coremap.cm_fresh_inv; (done || unfold PAGE_SIZE; lia).
  - vm_compute. discriminate.
  - assert (loaded (load_elf 1 0x1000 0x2000 (fun _ => false) (fun _ => 0) hello_ps 100) = true) as Hok by (vm_compute; reflexivity).
    rewrite E in Hok. destruct Hr as [[-> _]|(-> & _ & _ & Ht & Hd)]; [discriminate Hok|].
    exists s'. split; [exact E|].
    split; [etransitivity; [exact Ht|]; vm_compute; reflexivity|].
    etransitivity; [exact Hd|]. vm_compute. reflexivity.
Defined.

Lemma build_stack_correct_witness : exists m' sp ptrs,
  Exec.build_stack (mk_mach (fun _ => 0) (fun _ => Some 0) false) 0x80000000 2
    (fun i _ => rd [[108; 115]; [45; 108]] i) = Done (m', sp) /\
  sp mod 4 = 0 /\ bytes_at (umem m') sp 12 = Some <$> put_words (ptrs ++ [0]).
Proof.
  destruct (Exec.build_stack_correct (fun i _ => rd [[108; 115]; [45; 108]] i) [[108; 115]; [45; 108]]
    (mk_mach (fun _ => 0) (fun _ => Some 0) false) 0x80000000 0x7fff0000) as (m' & sp & ptrs & E & _ & Ha & _ & Hb & _).
  - intros k arg m Hk. apply rd_Done; [lia|]. by rewrite Nat2Z.id.
  - reflexivity.
  - lia.
  - vm_compute. discriminate.
  - vm_compute. discriminate.
  - intros x Hx. discriminate.
  - exists m', sp, ptrs. split; [exact E|]. split; [exact Ha|]. exact Hb.
Defined.

End OnSfs.
