(* ===== verification/Syscall.v ===== *)
(** * Traps and system calls ([kern/arch/mips/mips/trap.c], [syscall.c])

    [Trap]: the trapframe, the trap handler [mips_trap] and the dispatcher
    [mips_syscall], over any implementation of the calls (classes [Syscalls] and
    [Traps]).  [Rw]: [read] and [write] on
    the console, through the VFS layer.  [Fork]: [fork] in the parent and the
    start of the child.

    The waits of this file are for other threads: a lock that is held makes the
    call stop with [Blocked], and the theorems are about calls that find it free. *)

From Stdlib Require Import ZArith Lia Bool.
From stdpp Require Import base list numbers gmap strings.
From S2P Require Import Prelude.
From S2P Require Import Array.
From S2P Require Import Coremap.
From S2P Require Import AddrSpace.
From S2P Require Import Thread.
From S2P Require Import ThreadInv.
From S2P Require Import Uio.
From S2P Require Import Lhd.
From S2P Require Import Vnode.
From S2P Require Import Sfs.
From S2P Require Import SfsRef.
From S2P Require Import Vfs.
From S2P Require Import VfsRef.
From S2P Require Import VfsTable.
From S2P Require Import Device.
From S2P Require Import Console.
From S2P Require Import VfsWorld.

Module Trap.

(** ** The trapframe ([kern/arch/mips/include/trapframe.h]) *)

Inductive tfreg : Set :=
| tf_vaddr | tf_status | tf_cause | tf_lo | tf_hi | tf_ra | tf_at | tf_v0 | tf_v1
| tf_a0 | tf_a1 | tf_a2 | tf_a3 | tf_t0 | tf_t1 | tf_t2 | tf_t3 | tf_t4 | tf_t5 | tf_t6
| tf_t7 | tf_s0 | tf_s1 | tf_s2 | tf_s3 | tf_s4 | tf_s5 | tf_s6 | tf_s7 | tf_t8 | tf_t9
| tf_k0 | tf_k1 | tf_gp | tf_sp | tf_s8 | tf_epc.

#[export] Instance tfreg_eq_dec : EqDecision tfreg.
Proof. solve_decision. Defined.

(** [struct trapframe], a value of [u_int32_t] per field. *)
Definition trapframe : Type := tfreg -> Z.
Definition set_tf (r : tfreg) (x : Z) (tf : trapframe) : trapframe :=
  fun r' => if decide (r' = r) then u32 x else tf r'.

(** [sizeof(struct trapframe)] *)
Definition sizeof_trapframe : Z := 148.

(** ** Call numbers ([kern/include/kern/callno.h]) *)

Definition SYS__exit : Z := 0.
Definition SYS_execv : Z := 1.
Definition SYS_fork : Z := 2.
Definition SYS_waitpid : Z := 3.
Definition SYS_read : Z := 5.
Definition SYS_write : Z := 6.
Definition SYS_reboot : Z := 8.
Definition SYS_getpid : Z := 11.

(** The result of a call that returns an error number, as the [int] it is; a call
    gives the error, 0 for none, and what it stored in [retval].  A call that never
    returns to its caller, as [sys__exit] after [thread_exit], is [Halt Blocked]. *)
Definition err_of {A} (r : ret A) : Z := match r with Ok _ => 0 | Err e => errno_code e end.

Class Syscalls (St : Type) := {
  st_spl : St -> Z;
  sys_reboot : St -> Z -> exec (St * Z);
  sys_write_call : St -> Z -> Z -> Z -> exec (St * (Z * Z));
  sys_read_call : St -> Z -> Z -> Z -> exec (St * (Z * Z));
  sys_fork_call : St -> trapframe -> exec (St * (Z * Z));
  sys_getpid_call : St -> exec (St * (Z * Z));
  sys_waitpid_call : St -> Z -> Z -> Z -> exec (St * (Z * Z));
  sys__exit_call : St -> Z -> exec (St * Z);
  sys_execv_call : St -> Z -> Z -> exec (St * Z)
}.

Section dispatch.
Context {St : Type} {C : Syscalls St}.

(** A call that leaves [retval] at 0. *)
Definition no_value (m : exec (St * Z)) : exec (St * (Z * Z)) := '(s, err) ← m; Done (s, (err, 0)).

(** The [switch]; arguments of type [int] are taken from the registers as such. *)
Definition call (s : St) (tf : trapframe) : exec (St * (Z * Z)) :=
  let callno := s32 (tf tf_v0) in
  if callno =? SYS_reboot then no_value (sys_reboot s (s32 (tf tf_a0)))
  else if callno =? SYS_write then sys_write_call s (s32 (tf tf_a0)) (tf tf_a1) (tf tf_a2)
  else if callno =? SYS_read then sys_read_call s (s32 (tf tf_a0)) (tf tf_a1) (tf tf_a2)
  else if callno =? SYS_fork then sys_fork_call s tf
  else if callno =? SYS_getpid then sys_getpid_call s
  else if callno =? SYS_waitpid then sys_waitpid_call s (s32 (tf tf_a0)) (tf tf_a1) (s32 (tf tf_a2))
  else if callno =? SYS__exit then no_value (sys__exit_call s (s32 (tf tf_a0)))
  else if callno =? SYS_execv then no_value (sys_execv_call s (tf tf_a0) (tf tf_a1))
  else Done (s, (errno_code ENOSYS, 0)).

(** The frame with the outcome of a call. *)
Definition set_result (tf : trapframe) (err retval : Z) : trapframe :=
  if negb (err =? 0) then set_tf tf_a3 1 (set_tf tf_v0 err tf)
  else set_tf tf_a3 0 (set_tf tf_v0 retval tf).

Definition mips_syscall (s : St) (tf : trapframe) : exec (St * trapframe) :=
  assert! st_spl s =? 0;
  '(s1, (err, retval)) ← call s tf;
  let tf1 := set_result tf err retval in
  let tf2 := set_tf tf_epc (tf1 tf_epc + 4) tf1 in
  assert! st_spl s1 =? 0;
  Done (s1, tf2).

(** The frame a program sees after a call: where it goes on, success or failure in
    [a3], the value or the error in [v0], and every other register as it was. *)
Record returns (tf : trapframe) (err retval : Z) (tf' : trapframe) : Prop := {
  re_epc : tf' tf_epc = u32 (tf tf_epc + 4);
  re_a3 : tf' tf_a3 = if err =? 0 then 0 else 1;
  re_v0 : tf' tf_v0 = u32 (if err =? 0 then retval else err);
  re_rest r : r <> tf_epc -> r <> tf_a3 -> r <> tf_v0 -> tf' r = tf r
}.

Lemma result_returns tf err retval : returns tf err retval
  (set_tf tf_epc (set_result tf err retval tf_epc + 4) (set_result tf err retval)).
Proof.
  unfold set_result. destruct (err =? 0) eqn:E; simpl; (split; [..|intros r H1 H2 H3]); unfold set_tf; rewrite ?E;
    repeat (rewrite decide_False by congruence || rewrite decide_True by done); done.
Qed.

(** The calling convention of system calls.  Whatever call is made, when the
    dispatcher returns, the program goes on at the next instruction, [a3] tells
    success from failure, [v0] holds the value or the error, every other
    register is what it was, and interrupts are on.  A number that is none of the
    eight calls fails with [ENOSYS] and changes nothing else. *)
Theorem mips_syscall_correct s tf s' tf' : mips_syscall s tf = Done (s', tf') ->
  st_spl s' = 0 /\
  exists err retval, call s tf = Done (s', (err, retval)) /\ returns tf err retval tf' /\
    (s32 (tf tf_v0) ∉ [SYS_reboot; SYS_write; SYS_read; SYS_fork; SYS_getpid; SYS_waitpid; SYS__exit; SYS_execv] ->
     s' = s /\ err = errno_code ENOSYS).
Proof.
  unfold mips_syscall. intros H. apply assert_Done in H as [_ H]. apply bind_Done in H as ([s1 [err retval]] & Ec & H).
  cbv zeta in H. apply assert_Done in H as [Hs H]. injection H as <- <-. apply Z.eqb_eq in Hs. split; [done|].
  exists err, retval. split; [done|]. split; [apply result_returns|].
  rewrite !not_elem_of_cons. intros (N1 & N2 & N3 & N4 & N5 & N6 & N7 & N8 & _). unfold call in Ec.
  repeat (rewrite (proj2 (Z.eqb_neq _ _)) in Ec by done). by injection Ec as <- <- _.
Qed.

End dispatch.

(** ** Traps *)

Definition EX_IRQ : Z := 0.
Definition EX_MOD : Z := 1.
Definition EX_TLBL : Z := 2.
Definition EX_TLBS : Z := 3.
Definition EX_IBE : Z := 6.
Definition EX_DBE : Z := 7.
Definition EX_SYS : Z := 8.
Definition NTRAPCODES : Z := 13.
Definition CCA_CODE : Z := 0x3c.
Definition CCA_CODESHIFT : Z := 2.
Definition CST_KUp : Z := 8.
Definition CST_IEp : Z := 4.
Definition CST_IRQMASK : Z := 0xff00.

(** What the handler needs of the rest: the processor's state, the handlers for
    interrupts and page faults, [curthread->t_pcb.pcb_badfaultfunc], and whether the
    trapframe is on the current thread's stack. *)
Class Traps (St : Type) := {
  tr_cpu : St -> Spl.cpu;
  tr_set_cpu : St -> Spl.cpu -> St;
  tr_interrupt : St -> Z -> exec St;
  tr_fault : St -> Vm.faulttype -> Z -> exec (St * ret unit);
  tr_badfault : St -> option Z;
  tr_on_stack : St -> bool
}.

Class TrapsOk (St : Type) {C : Syscalls St} {T : Traps St} := {
  tr_spl s : st_spl s = Spl.curspl (tr_cpu s);
  tr_cpu_set s c : tr_cpu (tr_set_cpu s c) = c
}.

Section trap.
Context {St : Type} {C : Syscalls St} {T : Traps St}.

Definition trap_code (tf : trapframe) : Z := Z.shiftr (Z.land (tf tf_cause) CCA_CODE) CCA_CODESHIFT.
Definition iskern (tf : trapframe) : bool := Z.land (tf tf_status) CST_KUp =? 0.

(** The code after [done:]. *)
Definition trap_done (savespl : Z) (s : St) (tf : trapframe) : exec (St * trapframe) :=
  let c := fst (Spl.splhigh (tr_cpu s)) in
  let s1 := tr_set_cpu s (Spl.mk_cpu savespl (Spl.IEc c)) in
  assert! tr_on_stack s1;
  Done (s1, tf).

(** The [switch]: whether the fault was dealt with. *)
Definition try_fault (s : St) (tf : trapframe) (code : Z) : exec (St * bool) :=
  let fault (t : Vm.faulttype) :=
    '(s1, r) ← tr_fault s t (tf tf_vaddr); Done (s1, match r with Ok _ => true | Err _ => false end) in
  if code =? EX_MOD then fault Vm.VM_FAULT_READONLY
  else if code =? EX_TLBL then fault Vm.VM_FAULT_READ
  else if code =? EX_TLBS then fault Vm.VM_FAULT_WRITE
  else if (code =? EX_IBE) || (code =? EX_DBE) then Halt Panic
  else Done (s, false).

(** [sys__exit] ends the thread and does not return. *)
Definition kill_curthread (s : St) (code : Z) : exec St :=
  assert! code <? NTRAPCODES;
  '(s1, _) ← sys__exit_call s (-1); Done s1.

(** [curspl = SPL_HIGH], and [splx(savespl)] after it. *)
Definition trap_enter (s : St) : St := tr_set_cpu s (Spl.mk_cpu Spl.SPL_HIGH (Spl.IEc (tr_cpu s))).
Definition trap_lower (s : St) (savespl : Z) : St := tr_set_cpu s (fst (Spl.splx (tr_cpu s) savespl)).

Definition mips_trap (s : St) (tf : trapframe) : exec (St * trapframe) :=
  let savespl := Spl.curspl (tr_cpu s) in
  let s1 := trap_enter s in
  let code := trap_code tf in
  assert! code <? NTRAPCODES;
  assert! tr_on_stack s1;
  if code =? EX_IRQ then s2 ← tr_interrupt s1 (tf tf_cause); trap_done savespl s2 tf
  else
    let s2 := trap_lower s1 savespl in
    if code =? EX_SYS then
      assert! Spl.curspl (tr_cpu s2) =? 0;
      '(s3, tf1) ← mips_syscall s2 tf;
      trap_done savespl s3 tf1
    else
      '(s3, handled) ← try_fault s2 tf code;
      if (handled : bool) then trap_done savespl s3 tf
      else if negb (iskern tf) then s4 ← kill_curthread s3 code; trap_done savespl s4 tf
      else
        match tr_badfault s3 with
        | Some f => trap_done savespl s3 (set_tf tf_epc f tf)
        | None => Halt Panic
        end.

(** Entering user mode, with a frame or for a new program. *)
Definition mips_usermode (s : St) (tf : trapframe) : exec (St * trapframe) :=
  trap_done 0 s tf.
Definition md_usermode (s : St) (argc argv stack entry : Z) : exec (St * trapframe) :=
  let tf := set_tf tf_status (Z.lor (Z.lor CST_IRQMASK CST_IEp) CST_KUp) (fun _ => 0) in
  mips_usermode s (set_tf tf_sp stack (set_tf tf_a1 argv (set_tf tf_a0 argc (set_tf tf_epc entry tf)))).

Context {TOk : TrapsOk St}.

Lemma trap_done_spl savespl s tf s' tf' : trap_done savespl s tf = Done (s', tf') ->
  tf' = tf /\ tr_cpu s' = Spl.mk_cpu savespl false.
Proof.
  unfold trap_done. intros H. apply assert_Done in H as [_ H]. injection H as <- <-. split; [done|]. by rewrite tr_cpu_set.
Qed.

(** C29. Every trap returns to where it came from, or to the error handler the kernel
    asked for.  When [mips_trap] returns, the interrupt level is what it was before
    the trap and interrupts are still off, for the return from the exception to turn
    them on.  After a system call the frame is as the calling convention says; after
    any other trap from user mode it is untouched, so that the program is resumed
    where it was stopped; in the kernel a fault that could not be resolved resumes
    at [pcb_badfaultfunc], and nowhere else. *)
Theorem mips_trap_correct s tf s' tf' : mips_trap s tf = Done (s', tf') ->
  Spl.curspl (tr_cpu s') = Spl.curspl (tr_cpu s) /\ Spl.IEc (tr_cpu s') = false /\
  (trap_code tf = EX_SYS -> exists err retval, returns tf err retval tf') /\
  (trap_code tf <> EX_SYS -> tf' = tf \/
     iskern tf = true /\ exists s1 f, tr_badfault s1 = Some f /\ tf' = set_tf tf_epc f tf).
Proof.
  unfold mips_trap. intros H. apply assert_Done in H as [_ H]. apply assert_Done in H as [_ H].
  destruct (Z.eqb_spec (trap_code tf) EX_IRQ) as [Ei|Ei].
  { apply bind_Done in H as (s2 & _ & H). apply trap_done_spl in H as [-> ->]. split; [done|]. split; [done|].
    split; [rewrite Ei; done|by left]. }
  destruct (Z.eqb_spec (trap_code tf) EX_SYS) as [Es|Es].
  { apply assert_Done in H as [_ H]. apply bind_Done in H as ([s3 tf1] & Hm & H). apply trap_done_spl in H as [-> ->].
    split; [done|]. split; [done|]. split; [|done]. intros _. unfold mips_syscall in Hm. apply assert_Done in Hm as [_ Hm].
    apply bind_Done in Hm as ([s1 [err retval]] & _ & Hm). cbv zeta in Hm. apply assert_Done in Hm as [_ Hm]. injection Hm as _ <-.
    eexists _, _. apply result_returns. }
  apply bind_Done in H as ([s3 handled] & _ & H). destruct handled.
  { apply trap_done_spl in H as [-> ->]. split; [done|]. split; [done|]. split; [done|by left]. }
  destruct (iskern tf) eqn:Ek; simpl in H.
  - destruct (tr_badfault s3) as [f|] eqn:Ef; [|done]. apply trap_done_spl in H as [-> ->]. split; [done|]. split; [done|].
    split; [done|]. intros _. right. split; [done|]. by exists s3, f.
  - apply bind_Done in H as (s4 & _ & H). apply trap_done_spl in H as [-> ->]. split; [done|]. split; [done|].
    split; [done|by left].
Qed.

End trap.
End Trap.

(** ** [read] and [write] *)

Module Rw.
Import Trap Copy Uio Sfs SfsRef Vfs VfsRef VfsTable World.
#[local] Existing Instances Lhd.lhd_dev Lhd.lhd_dev_calm Device.dev_vn Device.dev_vn_ok Device.dev_devices
  Device.dev_devices_ok Pair.pair_vn Pair.pair_devices Pair.pair_vn_ok Pair.pair_devices_ok World.dev_block World.dev_device.

(** The VFS state, the vnodes and the memory; [cons_lock] is NULL or a lock, which may
    be held. *)
Record rws : Type := mk_rws { r_vfs : vfs; r_world : world; r_mach : mach; cons_lock : option bool }.

Definition STDIN_FILENO : Z := 0.
Definition STDOUT_FILENO : Z := 1.
(** ["con:"] *)
Definition CON_PATH : list Z := CON_NAME ++ [COLON].

(** The memory as the kernel accesses it: below [USERTOP] it is the program's, through
    the same TLB; and the program's memory after the kernel has stored into it. *)
Definition kview (m : mach) : mach :=
  mk_mach (fun a => if a <? USERTOP then uget m a else kmem m a) (umem m) (pcb_badfaultfunc m).
Definition stored (m m1 : mach) : mach :=
  mk_mach (fun a => if a <? USERTOP then kmem m a else kmem m1 a)
    (fun a => if a <? USERTOP then match umem m a with Some _ => Some (kmem m1 a) | None => None end else umem m a)
    (pcb_badfaultfunc m1).

(** No access to the [n] bytes at [a] faults. *)
Definition accessible (m : mach) (a n : Z) : bool :=
  forallb (fun x => negb (x <? USERTOP) || match umem m x with Some _ => true | None => false end) (seqZ a n).

Section rw.
Variables (mem : Z -> bool) (cas : option Z).

Definition lock_acquire (s : rws) : exec rws :=
  match cons_lock s with
  | None => Halt Assertion
  | Some true => Halt Blocked
  | Some false => Done (mk_rws (r_vfs s) (r_world s) (r_mach s) (Some true))
  end.

(** [console = kstrdup("con:"); vfs_open(console, flags, &console_vnode)]: a NULL
    [console] is followed, and a [console_vnode] that was not set is used. *)
Definition open_con (s : rws) (flags : Z) : exec (rws * Z) :=
  if negb (mem 5) then Halt Undefined
  else
    '((v1, w1), r) ← vfs_open mem (r_vfs s) (r_world s) CON_PATH flags;
    match r with
    | Err _ => Halt Undefined
    | Ok vn => Done (mk_rws v1 w1 (r_mach s) (cons_lock s), vn)
    end.

(** What both calls make of the result of the operation: only 1, which is [EINVAL],
    is an error. *)
Definition count (result : ret unit) (size resid : Z) : ret Z :=
  match result with Err EINVAL => Err EFAULT | _ => Ok (s32 (size - resid)) end.

(** The bytes are loaded one by one while they are printed; one that faults stops
    the kernel, since no [pcb_badfaultfunc] is set. *)
Definition sys_write (s : rws) (fd buf size : Z) : exec (rws * ret Z) :=
  if negb (fd =? STDOUT_FILENO) then Done (s, Err EBADF)
  else
    s1 ← lock_acquire s;
    '(s2, vn) ← open_con s1 O_WRONLY;
    if negb (accessible (r_mach s2) buf size) then Halt Panic
    else
      '((w, m, u), result) ← vop_write cas (r_world s2) (kview (r_mach s2)) (mk_kuio buf size 0 UIO_WRITE) vn;
      Done (mk_rws (r_vfs s2) w (stored (r_mach s2) m) (Some false), count result size (uio_resid u)).

(** Only the bytes that were read are stored. *)
Definition sys_read (s : rws) (fd buf size : Z) : exec (rws * ret Z) :=
  if negb (fd =? STDIN_FILENO) then Done (s, Err EBADF)
  else
    s1 ← lock_acquire s;
    '(s2, vn) ← open_con s1 O_RDONLY;
    '((w, m, u), result) ← vop_read cas (r_world s2) (kview (r_mach s2)) (mk_kuio buf size 0 UIO_READ) vn;
    if negb (accessible (r_mach s2) buf (size - uio_resid u)) then Halt Panic
    else Done (mk_rws (r_vfs s2) w (stored (r_mach s2) m) (Some false), count result size (uio_resid u)).

(** ** The console behind the VFS layer *)

(** [con:] is in the device table, among whatever else is, with vnode [v] and the
    state [c]; [n] and [k] are the counts of the vnode. *)
Record con_at (s : vfs) (w : world) (c : Console.con) (v p n k : Z) : Prop := {
  ca_table : exists l i dev, devs_are s l /\ unique w l /\
    l !! i = Some (mk_kd CON_NAME None (Some dev) (Pair.addrR v) None);
  ca_lock : knowndevs_lock s = false;
  ca_vnode : Device.dvnodes (snd w) !! v = Some (Device.mk_dn n k (Some p));
  ca_device : Device.devices (snd w) !! p = Some (ConDev c)
}.

Lemma pick_R {A} v (l r : Z -> A) : Pair.pick (Pair.addrR v) l r = r v.
Proof.
  unfold Pair.pick, Pair.addrR. rewrite Z.even_add, Z.even_mul. simpl. by rewrite Z.mul_comm, Z.div_add_l, Z.add_0_r.
Qed.

(** A change of the device vnodes or of a device leaves the names alone. *)
Lemma unique_devs (f : sfs_fs Lhd.lhd) (d d' : Device.devs dev) l : unique (f, d) l -> unique (f, d') l.
Proof. apply unique_world. intros fs. simpl. unfold Pair.pick. by case_match. Qed.

Definition put_con (w : world) (c : Console.con) (v p n k : Z) : world :=
  (fst w, Device.put_dev (Device.put_dn (snd w) v (Device.mk_dn n k (Some p))) p (ConDev c)).

Lemma con_at_put s w c v p n k c' n' k' : con_at s w c v p n k -> con_at s (put_con w c' v p n' k') c' v p n' k'.
Proof.
  intros [(l & i & dev & Hl & Hu & Hi) Hk Hv Hp]. split; simpl; [|done|by rewrite lookup_insert_eq..].
  exists l, i, dev. split; [done|]. split; [|done]. destruct w as [f d]. by eapply unique_devs.
Qed.

Lemma lookup_con s w c v p n k : con_at s w c v p n k -> INT_MIN <= n < INT_MAX ->
  vfs_lookup mem s w CON_PATH = Done ((s, (fst w, Device.put_dn (snd w) v (Device.mk_dn (n + 1) k (Some p)))), Ok (Pair.addrR v)).
Proof.
  intros [(l & i & dev & Hl & Hu & Hi) Hlk Hv Hp] Hn. unfold vfs_lookup, CON_PATH.
  rewrite getdevice_device; [|done|by vm_compute; repeat constructor]. unfold start_from.
  rewrite (getroot_finds mem s w l CON_NAME i _ Hl Hu Hlk Hi); [|done|by left]. unfold answer.
  cbn [kd_fs kd_rawname kd_vnode]. unfold vop_incref, Pair.pair_vn. rewrite pick_R.
  cbn [fst snd Device.dev_vn vop_incref]. unfold Device.vnode_incref, Device.get_dn. rewrite Hv. simpl.
  by rewrite int_Done by lia.
Qed.

Lemma open_con_ok s c v p n k flags : con_at (r_vfs s) (r_world s) c v p n k -> flags = O_RDONLY \/ flags = O_WRONLY ->
  mem 5 = true -> INT_MIN <= n < INT_MAX -> INT_MIN <= k < INT_MAX ->
  open_con s flags = Done (mk_rws (r_vfs s) (put_con (r_world s) c v p (n + 1) (k + 1)) (r_mach s) (cons_lock s), Pair.addrR v).
Proof.
  intros Hc Hf Hm Hn Hk. unfold open_con. rewrite Hm. cbn [negb].
  assert (vfs_open mem (r_vfs s) (r_world s) CON_PATH flags =
    Done ((r_vfs s, put_con (r_world s) c v p (n + 1) (k + 1)), Ok (Pair.addrR v))) as ->; [|done].
  assert (open_vnode mem (r_vfs s) (r_world s) CON_PATH flags = vfs_lookup mem (r_vfs s) (r_world s) CON_PATH) as Eo
    by (by destruct Hf as [->| ->]).
  unfold vfs_open. rewrite Eo, (lookup_con _ _ c v p n k Hc Hn). destruct Hc as [_ _ Hv Hp]. destruct (r_world s) as [f d].
  cbn [snd] in Hv, Hp.
  assert (forall fl, fl = O_RDONLY \/ fl = O_WRONLY -> vop_open (f, Device.put_dn d v (Device.mk_dn (n + 1) k (Some p))) (Pair.addrR v) fl =
    Done (put_con (f, d) c v p (n + 1) k, Ok tt)) as Hopen.
  { intros fl Hfl. unfold vop_open, Pair.pair_vn. rewrite pick_R. cbn [fst snd Device.dev_vn vop_open].
    unfold Device.dev_open, Device.dev_call, Device.get_dev, Device.get_dn. simpl. rewrite lookup_insert_eq. simpl. rewrite Hp.
    by destruct Hfl as [->| ->]. }
  assert (vop_incopen (put_con (f, d) c v p (n + 1) k) (Pair.addrR v) = Done (put_con (f, d) c v p (n + 1) (k + 1))) as Hinc.
  { unfold vop_incopen, Pair.pair_vn. rewrite pick_R. cbn [fst snd Device.dev_vn vop_incopen].
    unfold Device.vnode_incopen, Device.get_dn. simpl. rewrite lookup_insert_eq. simpl. rewrite int_Done by lia. simpl.
    unfold put_con, Device.put_dn, Device.put_dev. simpl. by rewrite insert_insert_eq. }
  assert (Pair.addrR v =? 0 = false) as Ev by (apply Z.eqb_neq; unfold Pair.addrR; lia).
  destruct Hf as [->| ->]; cbn [on_ok fst snd]; rewrite Ev; cbn [negb assert]; rewrite Hopen by auto; run; rewrite Hinc; by run.
Qed.

(** The operations of the vnode reach the console. *)
Lemma vop_write_con s w c v p n k m u : con_at s w c v p n k -> rw u = UIO_WRITE ->
  vop_write cas w m u (Pair.addrR v) =
  '((c1, m1, u1), r) ← Console.con_io cas c m u; Done ((put_con w c1 v p n k, m1, u1), r).
Proof.
  intros [_ _ Hv Hp] Hu. unfold vop_write, Pair.pair_vn. rewrite pick_R. cbn [fst snd Device.dev_vn vop_write].
  unfold Device.dev_write, Device.dev_io, Device.get_dev, Device.get_dn. rewrite Hu, Hv. simpl. rewrite Hp. simpl.
  destruct (Console.con_io cas c m u) as [[[[c1 m1] u1] r]|]; [|done]. simpl. unfold put_con, Device.put_dn. simpl.
  rewrite insert_id by done. by destruct w as [f []].
Qed.
Lemma vop_read_con s w c v p n k m u : con_at s w c v p n k -> rw u = UIO_READ ->
  vop_read cas w m u (Pair.addrR v) =
  '((c1, m1, u1), r) ← Console.con_io cas c m u; Done ((put_con w c1 v p n k, m1, u1), r).
Proof.
  intros [_ _ Hv Hp] Hu. unfold vop_read, Pair.pair_vn. rewrite pick_R. cbn [fst snd Device.dev_vn vop_read].
  unfold Device.dev_read, Device.dev_io, Device.get_dev, Device.get_dn. rewrite Hu, Hv. simpl. rewrite Hp. simpl.
  destruct (Console.con_io cas c m u) as [[[[c1 m1] u1] r]|]; [|done]. simpl. unfold put_con, Device.put_dn. simpl.
  rewrite insert_id by done. by destruct w as [f []].
Qed.

Lemma accessible_mapped m a n : mapped m a n -> accessible m a n = true.
Proof.
  intros H. unfold accessible. apply forallb_forall. intros x Hx. apply list_elem_of_In, elem_of_seqZ in Hx.
  specialize (H x ltac:(lia)). destruct (umem m x); [by rewrite orb_true_r|done].
Qed.

(** A buffer of a program. *)
Record user_buf (m : mach) (buf size : Z) : Prop := {
  ub_range : 0 <= buf /\ 0 <= size <= INT_MAX /\ buf + size <= USERTOP;
  ub_mapped : mapped m buf size;
  ub_nofault : pcb_badfaultfunc m = false
}.

Lemma user_buf_ready m buf size r : user_buf m buf size -> ready cas (kview m) (mk_kuio buf size 0 r) size.
Proof.
  intros [(H1 & H2 & H3) _ Hf]. unfold USERTOP, INT_MAX in *. split; simpl; unfold INT_MIN, INT_MAX; try done; lia.
Qed.

Lemma kview_bytes m buf size : user_buf m buf size -> bytes_at (kmem (kview m)) buf size = bytes_at (uget m) buf size.
Proof. intros [(H1 & H2 & H3) _ _]. apply bytes_at_ext. intros x Hx. simpl. by rewrite (proj2 (Z.ltb_lt _ _)) by lia. Qed.

(** Nothing was stored. *)
Lemma stored_same m : (forall a, umem (stored m (kview m)) a = umem m a) /\ forall a, kmem (stored m (kview m)) a = kmem m a.
Proof.
  split; intros a; simpl; case_bool; try done. unfold uget. by destruct (umem m a).
Qed.

Lemma sys_write_ok s c v p n k buf size : con_at (r_vfs s) (r_world s) c v p n k -> Console.quiet c ->
  Console.con_userlock_write c = false -> cons_lock s = Some false -> mem 5 = true ->
  INT_MIN <= n < INT_MAX -> INT_MIN <= k < INT_MAX -> user_buf (r_mach s) buf size ->
  exists s' c', sys_write s STDOUT_FILENO buf size = Done (s', Ok size) /\
    con_at (r_vfs s') (r_world s') c' v p (n + 1) (k + 1) /\ Console.quiet c' /\
    Console.printed c (Console.cook (Console.schar <$> bytes_at (uget (r_mach s)) buf size)) c' /\
    (forall a, umem (r_mach s') a = umem (r_mach s) a) /\ (forall a, kmem (r_mach s') a = kmem (r_mach s) a) /\
    cons_lock s' = Some false.
Proof.
  intros Hc Hq Hl Hlk Hm Hn Hk Hb. unfold sys_write, lock_acquire. rewrite Hlk. run. rewrite Z.eqb_refl. run.
  rewrite (open_con_ok _ c v p n k) by auto. run. cbn [r_vfs r_world r_mach].
  rewrite accessible_mapped by apply Hb. run.
  rewrite (vop_write_con (r_vfs s) _ c v p (n + 1) (k + 1)) by (done || by eapply con_at_put).
  pose proof (user_buf_ready _ _ _ UIO_WRITE Hb) as Hr.
  destruct (Console.con_write_ok cas c (kview (r_mach s)) (mk_kuio buf size 0 UIO_WRITE) size) as (c' & -> & Hq' & Hp'); try done.
  run. eexists _, c'. rewrite (advance_fields _ _ _ _ Hr). cbn [uio_resid mk_kuio].
  split; [do 2 f_equal; unfold count; f_equal; rewrite Z.sub_diag, Z.sub_0_r; apply s32_small; destruct Hb as [(? & ? & ?) _ _]; unfold INT_MAX in *; lia|].
  cbn [r_vfs r_world r_mach cons_lock]. split; [|split; [done|split]].
  - eapply con_at_put. by eapply con_at_put.
  - unfold get_region in Hp'. cbn [uio_segflg mk_kuio iov_base] in Hp'. by rewrite kview_bytes in Hp'.
  - split; [apply stored_same|]. split; [apply stored_same|done].
Qed.

(** The program's memory after a read of [l]. *)
Lemma stored_fill m m1 buf l : moved (kview m) (mk_kuio buf (Z.of_nat (length l)) 0 UIO_READ) l m1 ->
  0 <= buf -> buf + Z.of_nat (length l) <= USERTOP -> mapped m buf (Z.of_nat (length l)) ->
  (forall a, umem (stored m m1) a = fill (umem m) buf (Some <$> l) a) /\ (forall a, kmem (stored m m1) a = kmem m a).
Proof.
  intros [_ [_ Hk]] H0 H1 Hm. cbn [iov_base mk_kuio] in Hk. split; intros a; cbn [stored umem kmem]; rewrite ?Hk.
  - destruct (decide (buf <= a < buf + Z.of_nat (length l))) as [Ha|Ha].
    + destruct (lookup_lt_is_Some_2 l (Z.to_nat (a - buf))) as [y Hy]; [lia|].
      rewrite (fill_in (umem m) buf (Some <$> l) a (Some y)) by (lia || by rewrite list_lookup_fmap, Hy).
      rewrite (fill_in _ buf l a y) by (lia || done). rewrite (proj2 (Z.ltb_lt _ _)) by lia.
      specialize (Hm a Ha). by destruct (umem m a).
    + rewrite !fill_out by (rewrite ?length_fmap; lia). simpl. case_bool; [|done]. unfold uget. by destruct (umem m a).
  - case_bool. rewrite fill_out by lia. simpl. by rewrite (proj2 (Z.ltb_ge _ _)) by lia.
Qed.

(** C28. [read] from standard input.  With the console in the device table, the locks
    free and no input at hand, when what is typed next makes a line for a buffer of
    the program, the call returns the length of the line, cut at the size of the
    buffer; the buffer holds the line from its start on and no other memory
    changes; the characters after the line are left for the next call. *)
Theorem sys_read_correct s c v p n k buf size x r : con_at (r_vfs s) (r_world s) c v p n k -> Console.awaiting c ->
  Console.con_userlock_read c = false -> cons_lock s = Some false -> mem 5 = true ->
  INT_MIN <= n < INT_MAX -> INT_MIN <= k < INT_MAX -> user_buf (r_mach s) buf size ->
  Console.line (Z.to_nat size) (Console.typed c) = Some (x, r) ->
  exists s' c', sys_read s STDIN_FILENO buf size = Done (s', Ok (Z.of_nat (length x))) /\
    con_at (r_vfs s') (r_world s') c' v p (n + 1) (k + 1) /\ Console.awaiting c' /\ Console.received c r c' /\
    (forall a, umem (r_mach s') a = fill (umem (r_mach s)) buf (Some <$> (Console.byte_of <$> x)) a) /\
    (forall a, kmem (r_mach s') a = kmem (r_mach s) a) /\ cons_lock s' = Some false.
Proof.
  intros Hc Hq Hl Hlk Hm Hn Hk Hb Hline. unfold sys_read, lock_acquire. rewrite Hlk. run. rewrite Z.eqb_refl. run.
  rewrite (open_con_ok _ c v p n k) by auto. run. cbn [r_vfs r_world r_mach].
  rewrite (vop_read_con (r_vfs s) _ c v p (n + 1) (k + 1)) by (done || by eapply con_at_put).
  pose proof (user_buf_ready _ _ _ UIO_READ Hb) as Hr. pose proof Hb as [(B1 & B2 & B3) Hmap _].
  apply Console.line_length in Hline as Hlen.
  assert (mapped (r_mach s) buf (Z.of_nat (length (Console.byte_of <$> x)))) as Hmx
    by (intros a Ha; rewrite length_fmap in Ha; apply Hmap; lia).
  destruct (Console.con_read_ok cas c (kview (r_mach s)) (mk_kuio buf size 0 UIO_READ) size x r) as (c' & m' & -> & Hmv & Hq' & Hr'); try done.
  run. rewrite (advance_fields cas (kview (r_mach s))) by (eapply ready_less; [done|lia]). cbn [uio_resid mk_kuio].
  replace (size - (size - Z.of_nat (length x))) with (Z.of_nat (length x)) by lia.
  rewrite accessible_mapped by (by rewrite length_fmap in Hmx). run. eexists _, c'.
  split; [do 2 f_equal; unfold count; f_equal; rewrite s32_small; unfold INT_MAX in *; lia|]. cbn [r_vfs r_world r_mach cons_lock].
  split; [eapply con_at_put; by eapply con_at_put|]. split; [done|]. split; [done|].
  destruct (stored_fill (r_mach s) m' buf (Console.byte_of <$> x)) as [H1 H2]; [exact Hmv|lia|rewrite length_fmap; lia|done|].
  split; [done|]. split; [done|done].
Qed.

End rw.

(** ** From the start of the system *)

(** The device table after [vfs_bootstrap] and the attachment of a console [c]. *)
Definition boot_table : vfs :=
  mk_vfs (Array.mk_array 2 2 (Some [Some (mk_kd NULL_NAME None (Some 1) 3 None); Some (mk_kd CON_NAME None (Some 2) 5 None)]))
    false None false None.
Definition boot_world (f : sfs_fs Lhd.lhd) (c : Console.con) : world :=
  (f, Device.mk_devs {[1 := NullDev; 2 := ConDev c]} {[1 := Device.mk_dn 1 0 (Some 1); 2 := Device.mk_dn 1 0 (Some 2)]} 0).

Lemma boot_is f c : exists s w, vfs_bootstrap (fun _ => true) None (f, Device.mk_devs ∅ ∅ 0) = Done (s, w) /\
  attach_console_to_vfs (fun _ => true) s w c = Done ((boot_table, boot_world f c), Ok tt).
Proof. eexists _, _. split; [vm_compute; reflexivity|]. vm_compute. reflexivity. Qed.

Lemma boot_con_at f c : con_at boot_table (boot_world f c) c 2 2 1 0.
Proof.
  split; [|done|done|done]. exists [mk_kd NULL_NAME None (Some 1) 3 None; mk_kd CON_NAME None (Some 2) 5 None], 1%nat, 2.
  split; [|split; [|done]].
  - split; [|done..]. split; [simpl; lia|]. split; [simpl; lia|]. by split.
  - intros [|[|i]] [|[|j]] kd kd' n H1 H2 N1 N2; simplify_eq/=; try done; unfold names, volname in *; simpl in *;
      exfalso; naive_solver.
Qed.

(** ["hi\n"] in a program's memory at 4096. *)
Definition ex_page (a : Z) : option Z :=
  if (4096 <=? a) && (a <? 8192) then Some (nth (Z.to_nat (a - 4096)) [104; 105; 10] 0) else None.
Definition ex_rws : rws :=
  mk_rws boot_table (boot_world ex_sfs0 Console.ex_con) (mk_mach (fun _ => 0) ex_page false) (Some false).

Lemma ex_user_buf : user_buf (r_mach ex_rws) 4096 3.
Proof.
  split; [unfold USERTOP, INT_MAX; lia| |done]. intros x Hx. simpl. unfold ex_page. repeat case_bool; done.
Qed.

(** ["hi"] and the return make a line of three characters. *)
Lemma sys_read_correct_witness :
  exists s' c', sys_read (fun _ => true) None ex_rws STDIN_FILENO 4096 3 = Done (s', Ok 3) /\
    con_at (r_vfs s') (r_world s') c' 2 2 2 1 /\ Console.awaiting c' /\ Console.received Console.ex_con [120] c' /\
    (forall a, umem (r_mach s') a = fill ex_page 4096 (Some <$> (Console.byte_of <$> [104; 105; 10])) a) /\
    (forall a, kmem (r_mach s') a = 0) /\ cons_lock s' = Some false.
Proof.
  apply (sys_read_correct (fun _ => true) None ex_rws Console.ex_con 2 2 1 0 4096 3 [104; 105; 10] [120]).
  - apply boot_con_at.
  - split; [exact Console.ex_quiet|split; reflexivity].
  - reflexivity.
  - reflexivity.
  - reflexivity.
  - unfold INT_MIN, INT_MAX. lia.
  - unfold INT_MIN, INT_MAX. lia.
  - exact ex_user_buf.
  - reflexivity.
Defined.

(** A pointer into the kernel is as good as any other: [read] stores there. *)
Example read_into_kernel :
  match sys_read (fun _ => true) None ex_rws STDIN_FILENO 0x80001000 3 with
  | Done (s', r) => r = Ok 3 /\ kmem (r_mach s') 0x80001000 = 104
  | Halt _ => False
  end.
Proof. vm_compute. split; reflexivity. Qed.

End Rw.

(** ** [fork] *)

Module Fork.
Import Trap Vm Thread AddrSpace.

(** The thread system, the coremap and physical memory; the address spaces and the
    copies of trapframes on the heap, by address; and for each new thread the
    arguments of its entry function, [None] for an address space that was not set.
    [fork_lock] is NULL or a lock, which may be held. *)
Record fks : Type := mk_fks {
  f_k : kernel;
  f_cm : Coremap.cm_state;
  f_pm : Z -> Z;
  f_as : gmap Z addrspace;
  f_tf : gmap Z trapframe;
  f_entry : gmap Z (Z * option Z);
  fork_lock : option bool
}.

Definition set_k (s : fks) (k : kernel) : fks := mk_fks k (f_cm s) (f_pm s) (f_as s) (f_tf s) (f_entry s) (fork_lock s).

(** A fresh address of the heap. *)
Definition new_addr {A} (m : gmap Z A) : Z := fresh ({[0]} ∪ dom m).

(** [over]: see [Thread.thread_create].  The result of [as_copy] is ignored. *)
Definition sys_fork (mem : Z -> bool) (over : Z) (s : fks) (ptf : trapframe) : exec (fks * ret Z) :=
  match fork_lock s with
  | None => Halt Assertion
  | Some true => Halt Blocked
  | Some false =>
      if negb (mem sizeof_trapframe) then Done (s, Err ENOMEM)
      else
        let ctf := new_addr (f_tf s) in
        c ← cur (f_k s);
        th ← deref (threads (f_k s)) c;
        old ← match t_vmspace th with Some a => deref (f_as s) a | None => Halt Undefined end;
        '((cm, pm), r) ← as_copy mem (f_cm s) (f_pm s) old;
        let '(spaces, child_as) :=
          match r with
          | Ok new => let a := new_addr (f_as s) in (<[a := new]> (f_as s), Some a)
          | Err _ => (f_as s, None)
          end in
        let s1 := mk_fks (f_k s) cm pm spaces (<[ctf := ptf]> (f_tf s)) (f_entry s) (Some false) in
        '(k, r) ← thread_fork mem (f_k s) (t_name th) over;
        match r with
        | Err _ => Done (set_k s1 k, Err ENOMEM)
        | Ok t =>
            child ← deref (threads k) t;
            Done (mk_fks k cm pm spaces (f_tf s1) (<[t := (ctf, child_as)]> (f_entry s)) (Some false), Ok (t_pid child))
        end
  end.

(** The child's first steps; it goes to user mode with the frame. *)
Definition md_forkentry (s : fks) (ptf : Z) (c_as : option Z) : exec (fks * trapframe) :=
  tf ← deref (f_tf s) ptf;
  let tf1 := set_tf tf_a3 0 (set_tf tf_v0 0 tf) in
  let tf2 := set_tf tf_epc (tf1 tf_epc + 4) tf1 in
  match c_as with
  | None => Halt Undefined
  | Some a =>
      c ← cur (f_k s);
      k1 ← upd_thread (f_k s) c (fun th => thread_set_vm_cwd (Some a) (Thread.t_cwd th) th);
      tlb' ← as_activate (tlb k1);
      Done (set_k s (set_tlb k1 tlb'), tf2)
  end.

(** ** What [fork] does *)

Lemma new_addr_None {A} (m : gmap Z A) : m !! new_addr m = None.
Proof. apply not_elem_of_dom. pose proof (is_fresh ({[0]} ∪ dom m)). unfold new_addr. set_solver. Qed.

(** The new thread has a process number that was free. *)
Definition new_thread (k : kernel) (t pid : Z) (k' : kernel) : Prop :=
  threads k !! t = None /\ p_table k !! Z.to_nat pid = Some None /\ 1 <= pid < MAXTHREADS /\
  exists th, threads k' = <[t := th]> (threads k) /\ t_pid th = pid.

Lemma thread_create_loop_new mem name over n : forall k i k' t, 1 <= i -> i + Z.of_nat n <= MAXTHREADS ->
  thread_create_loop n mem k name over i = Done (k', Some t) -> exists pid, new_thread k t pid k'.
Proof.
  induction n as [|n IH]; intros k i k' t Hi Hn E; simpl in E; [done|].
  apply bind_Done in E as (slot & Hs & E). apply rd_inv in Hs as [_ Hs].
  destruct slot; [apply (IH k (i + 1) k' t); [lia|lia|done]|].
  do 3 (destruct (negb (mem _)); [done|]).
  set (x := fresh _) in E. assert (threads k !! x = None) as Hx by apply (new_addr_None (threads k)).
  apply bind_Done in E as (ppid & _ & E). apply bind_Done in E as ([k1 sm] & Es & E).
  apply bind_Done in E as (tab & _ & E). injection E as <- <-.
  exists i. split; [done|]. split; [done|]. split; [lia|]. exists (mk_thread 0 None name None None None None i). split; [|done].
  unfold sem_create in Es. apply assert_Done in Es as [_ Es].
  destruct (negb (mem 8)); [by injection Es as <- _|]. destruct (negb (mem (over + 1))); by injection Es as <- _.
Qed.

Lemma thread_fork_new mem k name over k' t : thread_fork mem k name over = Done (k', Ok t) -> exists pid, new_thread k t pid k'.
Proof.
  intros E. unfold thread_fork in E. apply bind_Done in E as ([k1 [n|]] & E1 & E); [|done].
  apply thread_create_loop_new in E1 as (pid & Hn & Hp & Hr & th & Eth & Hpid); [|lia|unfold MAXTHREADS; lia].
  destruct (negb (mem STACK_SIZE)); [done|].
  apply bind_Done in E as (c & _ & E). apply bind_Done in E as (thc & _ & E).
  apply bind_Done in E as (k2 & E2 & E). apply bind_Done in E as (k3 & E3 & E).
  assert (threads k2 = threads k1) as Et2.
  { destruct (Thread.t_cwd thc) as [w|]; [|by injection E2 as <-]. unfold Thread.vop_incref in E2.
    apply bind_Done in E2 as (m & _ & E2). apply bind_Done in E2 as (m' & _ & E2). by injection E2 as <-. }
  unfold upd_thread, deref in E3. apply bind_Done in E3 as (thn & Hthn & E3). injection E3 as <-.
  rewrite Et2, Eth, lookup_insert_eq in Hthn. injection Hthn as <-.
  unfold k_splhigh, Spl.splhigh in E. cbn [Spl.splx fst snd] in E. apply bind_Done in E as (nt & _ & E).
  assert (forall kk s r, is_ok r = false -> post (fork_fail kk s n r) (fun '(_, r) => is_ok r = false)) as Hff.
  { intros kk s r Hr'. unfold fork_fail. apply post_any. intros x. apply post_any. intros y. apply post_Done. by destruct r. }
  apply bind_Done in E as ([sl r1] & _ & E). destruct (is_ok r1) eqn:R1; simpl in E; [|by apply Hff in E].
  apply bind_Done in E as ([zo r2] & _ & E). destruct (is_ok r2) eqn:R2; simpl in E; [|by apply Hff in E].
  apply bind_Done in E as ([k7 r3] & E7 & E). destruct (is_ok r3) eqn:R3; simpl in E; [|by apply Hff in E].
  apply bind_Done in E as ([k8 r4] & E8 & E). destruct (is_ok r4) eqn:R4; simpl in E; [|by apply Hff in E].
  injection E as <- <-. exists pid. split; [done|]. split; [done|]. split; [done|].
  unfold make_runnable in E8. apply assert_Done in E8 as [_ E8]. apply bind_Done in E8 as ([q8 r8] & _ & E8). injection E8 as <- _.
  unfold scheduler_preallocate in E7. apply assert_Done in E7 as [_ E7]. apply bind_Done in E7 as ([q7 r7] & _ & E7). injection E7 as <- _.
  simpl. rewrite Et2, Eth, insert_insert_eq. by eexists.
Qed.

(** The frame with which a process returns from a call, as [mips_syscall] leaves it. *)
Definition returned (tf : trapframe) (retval : Z) : trapframe :=
  set_tf tf_epc (set_result tf 0 retval tf_epc + 4) (set_result tf 0 retval).

(** Both address spaces show the same contents, and the second is in memory that was
    in no allocated run. *)
Definition copied (cm : Coremap.cm_state) (pm pm' : Z -> Z) (old new : addrspace) : Prop :=
  forall va, 0 <= va < 2 ^ 32 ->
    match as_translate old va, as_translate new va with
    | Some pa, Some pa' => pm' pa' = pm pa /\ forall b n, Coremap.phys_run cm b n -> ~ in_run b n pa'
    | None, None => True
    | _, _ => False
    end.

(** Where a child starts: it returns from the same call, with 0. *)
Lemma md_forkentry_frame s ctf child t tf s' tf' : f_tf s !! ctf = Some tf -> curthread (f_k s) = Some t ->
  md_forkentry s ctf child = Done (s', tf') ->
  (forall r, r <> tf_v0 -> tf' r = returned tf 0 r) /\ tf' tf_v0 = 0 /\
  exists th, threads (f_k s') !! t = Some th /\ t_vmspace th = child.
Proof.
  intros Htf Hc E. unfold md_forkentry, deref in E. rewrite Htf in E. simpl in E. destruct child as [a|]; [|done].
  unfold cur in E. rewrite Hc in E. simpl in E. apply bind_Done in E as (k1 & Ek & E). apply bind_Done in E as (tl & _ & E).
  injection E as <- <-. unfold upd_thread in Ek. apply bind_Done in Ek as (th & _ & Ek). injection Ek as <-.
  split; [|split; [done|]].
  - intros r Hr. unfold returned, set_result. done.
  - simpl. rewrite lookup_insert_eq. eauto.
Qed.

(** C11. [fork] makes one process into two that differ in what [fork] returned.
    When a call, with no other [fork] during it, succeeds, there is a new thread whose
    process number was in no use and is what the parent is given; it will start with a
    copy of the parent's trapframe, and an address space that shows the parent's
    contents at every address, in physical memory that was free, while the parent's
    memory keeps its contents.  Only when there is no memory for the record of the
    address space, or the pages are not free for one of its runs, the child has no
    address space, which [sys_fork] does not notice.  When the child starts, its registers are those with which the parent
    returns from the call, except [v0]: the child's number, not 0, in the parent and
    0 in the child. *)
Theorem fork_correct mem over s tf s' pid c th a old : Coremap.cm_inv (f_cm s) ->
  curthread (f_k s) = Some c -> threads (f_k s) !! c = Some th -> t_vmspace th = Some a ->
  f_as s !! a = Some old -> as_ok (f_cm s) old -> sys_fork mem over s tf = Done (s', Ok pid) ->
  exists t ctf child, new_thread (f_k s) t pid (f_k s') /\ f_entry s' !! t = Some (ctf, child) /\ f_tf s' !! ctf = Some tf /\
    f_as s' !! a = Some old /\ (forall b n x, Coremap.phys_run (f_cm s) b n -> in_run b n x -> f_pm s' x = f_pm s x) /\
    match child with
    | Some a' => exists new, f_as s !! a' = None /\ f_as s' !! a' = Some new /\ as_ok (f_cm s') new /\
        copied (f_cm s) (f_pm s) (f_pm s') old new
    | None => mem sizeof_addrspace = false \/ no_pages (f_cm s') old
    end /\
    (forall s2 s3 tfc, curthread (f_k s2) = Some t -> f_tf s2 !! ctf = Some tf -> md_forkentry s2 ctf child = Done (s3, tfc) ->
       (forall r, r <> tf_v0 -> tfc r = returned tf pid r) /\ tfc tf_v0 = 0 /\ returned tf pid tf_v0 = pid /\ pid <> 0 /\
       exists th', threads (f_k s3) !! t = Some th' /\ t_vmspace th' = child).
Proof.
  intros Hcm Hc Hth Hvm Has Hok E. unfold sys_fork in E. destruct (fork_lock s) as [[|]|]; [done| |done].
  destruct (negb (mem sizeof_trapframe)); [done|]. unfold cur, deref in E. rewrite Hc in E. simpl in E.
  rewrite Hth in E. simpl in E. rewrite Hvm, Has in E. simpl in E.
  destruct (as_copy_spec mem (f_cm s) (f_pm s) old Hcm Hok) as (cm & pm & r & Ecp & _ & Hkeep & Hnew). rewrite Ecp in E. simpl in E.
  destruct r as [new|e]; (apply bind_Done in E as ([k rf] & Ef & E); destruct rf as [t|]; [|done];
    apply bind_Done in E as (ch & Hch & E); injection E as <- <-;
    apply thread_fork_new in Ef as (pid & Hn); pose proof Hn as (_ & _ & Hr & th' & Eth & Hpid);
    rewrite Eth, lookup_insert_eq in Hch; injection Hch as ->; rewrite <- Hpid in Hn, Hr).
  - pose proof (new_addr_None (f_as s)) as Ha'. exists t, (new_addr (f_tf s)), (Some (new_addr (f_as s))). simpl.
    split; [done|]. rewrite !lookup_insert_eq. split; [done|]. split; [done|].
    split; [rewrite lookup_insert_ne; [done|congruence]|]. split; [intros b n x Hb; by apply (proj2 (Hkeep b n Hb))|].
    split; [exists new; by destruct Hnew as (? & _ & ?)|].
    intros s2 s3 tfc Hs2 Htf E3. destruct (md_forkentry_frame _ _ _ _ _ _ _ Htf Hs2 E3) as (H1 & H2 & H3).
    split; [intros r Hr'; rewrite H1 by done; unfold returned, set_result, set_tf; simpl; by repeat case_decide|].
    split; [done|]. split; [|split; [lia|done]]. unfold returned, set_result, set_tf. simpl. apply u32_small. unfold MAXTHREADS in Hr. lia.
  - exists t, (new_addr (f_tf s)), None. simpl. split; [done|]. rewrite !lookup_insert_eq. split; [done|]. split; [done|].
    split; [done|]. split; [intros b n x Hb; by apply (proj2 (Hkeep b n Hb))|]. split; [apply Hnew|].
    intros s2 s3 tfc Hs2 Htf E3. unfold md_forkentry, deref in E3. by rewrite Htf in E3.
Qed.

(** ** An example: the first process of a booted system *)

Definition ex_cmf : Coremap.cm_state :=
  match as_prepare_load ex_cm60 ex_as0 with Done ((cm, _), _) => cm | Halt _ => ex_cm60 end.
Definition ex_kernel : kernel :=
  k_splx (set_threads ex_boot (alter (thread_set_vm_cwd (Some 1) None) 1 (threads ex_boot))) 0.
Definition ex_frame : trapframe := fun r => if decide (r = tf_v0) then SYS_fork else if decide (r = tf_epc) then 0x400100 else 7.
Definition ex_fks : fks := mk_fks ex_kernel ex_cmf (fun x => x mod 256) {[1 := ex_as]} ∅ ∅ (Some false).
Definition ex_thread : thread := default (mk_thread 0 None "" None None None None 0) (threads ex_kernel !! 1).

Lemma ex_fks_ok : Coremap.cm_inv ex_cmf /\ as_ok ex_cmf ex_as.
Proof. destruct ex_loaded as (cm & E & H). unfold ex_cmf. by rewrite E. Qed.

Definition fork_pid (m : exec (fks * ret Z)) : Z := match m with Done (_, Ok pid) => pid | _ => -1 end.
Lemma fork_pid_inv m p : fork_pid m = p -> p <> -1 -> exists s', m = Done (s', Ok p).
Proof. destruct m as [[s' [q|]]|]; simpl; intros; [|congruence..]. exists s'. congruence. Qed.

Lemma fork_correct_witness : exists s' t ctf a' new pa',
  sys_fork (fun _ => true) 1 ex_fks ex_frame = Done (s', Ok 2) /\ new_thread ex_kernel t 2 (f_k s') /\
  f_entry s' !! t = Some (ctf, Some a') /\ f_tf s' !! ctf = Some ex_frame /\ f_as s' !! a' = Some new /\
  as_translate ex_as 0x401234 = Some 0x21234 /\ as_translate new 0x401234 = Some pa' /\ f_pm s' pa' = 0x34.
Proof.
  destruct (fork_pid_inv (sys_fork (fun _ => true) 1 ex_fks ex_frame) 2) as [s' E]; [vm_compute; reflexivity|done|].
  destruct (fork_correct (fun _ => true) 1 ex_fks ex_frame s' 2 1 ex_thread 1 ex_as)
    as (t & ctf & child & H1 & H2 & H3 & _ & _ & H4 & _).
  - apply ex_fks_ok.
  - vm_compute. reflexivity.
  - vm_compute. reflexivity.
  - vm_compute. reflexivity.
  - reflexivity.
  - apply ex_fks_ok.
  - exact E.
  - assert (forallb (fun '(_, (_, c)) => match c with Some _ => true | None => false end)
      (map_to_list (match sys_fork (fun _ => true) 1 ex_fks ex_frame with Done (q, _) => f_entry q | Halt _ => ∅ end)) = true)
      as Hall by (vm_compute; reflexivity).
    rewrite E in Hall. rewrite forallb_forall in Hall.
    specialize (Hall (t, (ctf, child))). rewrite <- list_elem_of_In, elem_of_map_to_list in Hall. specialize (Hall H2).
    destruct child as [a'|]; [|discriminate Hall]. destruct H4 as (new & _ & H4 & _ & H5).
    specialize (H5 0x401234 ltac:(lia)).
    assert (as_translate ex_as 0x401234 = Some 0x21234) as Et by (vm_compute; reflexivity). rewrite Et in H5.
    destruct (as_translate new 0x401234) as [pa'|] eqn:En; [|destruct H5]. destruct H5 as [Hv _].
    exists s', t, ctf, a', new, pa'. split; [exact E|]. split; [exact H1|]. split; [exact H2|]. split; [exact H3|].
    split; [exact H4|]. split; [exact Et|]. split; [exact En|]. rewrite Hv. reflexivity.
Defined.

End Fork.

(** ** The kernel's calls *)

Module Kern.
Import Trap Copy Uio Sfs Vfs VfsTable World Rw Fork.

Record kst : Type := mk_kst { k_rw : rws; k_fk : fks }.

Section calls.
Variables (mem : Z -> bool) (over : Z) (cas : option Z).
(** The calls that are treated elsewhere: [reboot], and those of [Proc] and [Exec]. *)
Variables (reboot : kst -> Z -> exec (kst * Z)) (waitpid : kst -> Z -> Z -> Z -> exec (kst * (Z * Z)))
  (exit : kst -> Z -> exec (kst * Z)) (execv : kst -> Z -> Z -> exec (kst * Z)).

(** [if (lock == NULL) lock = lock_create(name)], the name taking [n] bytes *)
Definition ensure_lock (l : option bool) (n : Z) : option bool :=
  match l with Some b => Some b | None => if mem 8 && mem n then Some false else None end.

Definition with_cons_lock (s : kst) : rws :=
  mk_rws (r_vfs (k_rw s)) (r_world (k_rw s)) (r_mach (k_rw s)) (ensure_lock (cons_lock (k_rw s)) 13).
Definition with_fork_lock (s : kst) : fks :=
  mk_fks (f_k (k_fk s)) (f_cm (k_fk s)) (f_pm (k_fk s)) (f_as (k_fk s)) (f_tf (k_fk s)) (f_entry (k_fk s))
    (ensure_lock (fork_lock (k_fk s)) 10).

(** [*retval] is 0 unless the call has set it. *)
Definition value (r : ret Z) : Z * Z := match r with Ok n => (0, n) | Err e => (errno_code e, 0) end.

Definition sys_getpid (s : kst) : exec (kst * (Z * Z)) :=
  c ← Thread.cur (f_k (k_fk s));
  th ← Thread.deref (Thread.threads (f_k (k_fk s))) c;
  Done (s, (0, Thread.t_pid th)).

(** Interrupts reach the devices through the bus; [copyfail] is the address of the
    function of [copyinout.c]. *)
Variables (interrupt : kst -> Z -> exec kst) (on_stack : kst -> bool) (copyfail : Z).

Definition cur_as (f : fks) : option AddrSpace.addrspace :=
  c ← Thread.curthread (f_k f); th ← Thread.threads (f_k f) !! c; a ← Thread.t_vmspace th; f_as f !! a.

#[export] Instance kernel_traps : Traps kst := {|
  tr_cpu s := Thread.cpu (f_k (k_fk s));
  tr_set_cpu s c := mk_kst (k_rw s) (set_k (k_fk s) (Thread.set_cpu (f_k (k_fk s)) c));
  tr_interrupt := interrupt;
  tr_fault s t va :=
    '(v, r) ← Vm.vm_fault (Vm.mk_vm (Thread.tlb (f_k (k_fk s))) (Thread.cpu (f_k (k_fk s)))) (cur_as (k_fk s)) t va;
    Done (mk_kst (k_rw s) (set_k (k_fk s) (Thread.set_cpu (Thread.set_tlb (f_k (k_fk s)) (Vm.tlb v)) (Vm.cpu v))), r);
  tr_badfault s := if pcb_badfaultfunc (r_mach (k_rw s)) then Some copyfail else None;
  tr_on_stack := on_stack
|}.

#[export] Instance kernel_calls : Syscalls kst := {|
  st_spl s := Spl.curspl (Thread.cpu (f_k (k_fk s)));
  sys_reboot := reboot;
  sys_write_call s fd buf size := '(r, x) ← sys_write mem cas (with_cons_lock s) fd buf size; Done (mk_kst r (k_fk s), value x);
  sys_read_call s fd buf size := '(r, x) ← sys_read mem cas (with_cons_lock s) fd buf size; Done (mk_kst r (k_fk s), value x);
  sys_fork_call s tf := '(f, x) ← sys_fork mem over (with_fork_lock s) tf; Done (mk_kst (k_rw s) f, value x);
  sys_getpid_call := sys_getpid;
  sys_waitpid_call := waitpid;
  sys__exit_call := exit;
  sys_execv_call := execv
|}.

#[export] Instance kernel_traps_ok : TrapsOk kst.
Proof. by split. Qed.

(** C10. [write] on standard output, from the trap through the system call, the VFS
    layer and the device vnode to the serial port.  With the console in the device table,
    among whatever other devices, and the locks free, a program that asks to
    write a buffer of its own goes on after the trap with the size of the buffer in
    [v0], no error and its other registers as they were; the port is given the bytes of
    the buffer in order, each newline as carriage return and line feed; no memory changes and
    the lock is free again, so that the next call finds the same situation.  The
    vnode of the console has one more reference and one more open afterwards: the
    call opens it and never closes it. *)
Theorem write_syscall s tf c v p n k : con_at (r_vfs (k_rw s)) (r_world (k_rw s)) c v p n k -> Console.quiet c ->
  Console.con_userlock_write c = false -> ensure_lock (cons_lock (k_rw s)) 13 = Some false -> mem 5 = true ->
  INT_MIN <= n < INT_MAX -> INT_MIN <= k < INT_MAX -> Spl.curspl (Thread.cpu (f_k (k_fk s))) = 0 ->
  tf tf_v0 = SYS_write -> tf tf_a0 = STDOUT_FILENO -> user_buf (r_mach (k_rw s)) (tf tf_a1) (tf tf_a2) ->
  exists s' tf' c', mips_syscall s tf = Done (s', tf') /\ returns tf 0 (tf tf_a2) tf' /\
    con_at (r_vfs (k_rw s')) (r_world (k_rw s')) c' v p (n + 1) (k + 1) /\ Console.quiet c' /\
    Console.printed c (Console.cook (Console.schar <$> bytes_at (uget (r_mach (k_rw s))) (tf tf_a1) (tf tf_a2))) c' /\
    (forall a, umem (r_mach (k_rw s')) a = umem (r_mach (k_rw s)) a) /\
    (forall a, kmem (r_mach (k_rw s')) a = kmem (r_mach (k_rw s)) a) /\ cons_lock (k_rw s') = Some false.
Proof.
  intros Hc Hq Hl Hlk Hm Hn Hk Hspl Hv Ha Hb.
  destruct (sys_write_ok mem cas (with_cons_lock s) c v p n k (tf tf_a1) (tf tf_a2)) as (r' & c' & E & H); try done.
  eexists (mk_kst r' (k_fk s)), _, c'. split; [|split; [apply result_returns|exact H]].
  unfold mips_syscall, call. simpl st_spl. rewrite Hspl, Hv, Ha. change (s32 STDOUT_FILENO) with STDOUT_FILENO. simpl.
  rewrite E. simpl. by rewrite Hspl.
Qed.

End calls.

(** ** Examples *)

Definition none1 (s : kst) (_ : Z) : exec (kst * Z) := Done (s, errno_code ENOSYS).
(** [_exit] does not return. *)
Definition gone (s : kst) (_ : Z) : exec (kst * Z) := Halt Blocked.
Definition none2 (s : kst) (_ _ : Z) : exec (kst * Z) := Done (s, errno_code ENOSYS).
Definition none3 (s : kst) (_ _ _ : Z) : exec (kst * (Z * Z)) := Done (s, (errno_code ENOSYS, 0)).
Definition ex_calls : Syscalls kst := kernel_calls (fun _ => true) 1 None none1 none3 gone none2.
Definition ex_kst : kst := mk_kst ex_rws ex_fks.
Definition ex_write : trapframe := fun r =>
  match r with tf_v0 => SYS_write | tf_a0 => STDOUT_FILENO | tf_a1 => 4096 | tf_a2 => 3 | tf_epc => 0x400100 | _ => 7 end.

Lemma write_syscall_witness :
  exists s' tf' c', mips_syscall (C := ex_calls) ex_kst ex_write = Done (s', tf') /\ returns ex_write 0 3 tf' /\
    con_at (r_vfs (k_rw s')) (r_world (k_rw s')) c' 2 2 2 1 /\ Console.quiet c' /\
    Console.printed Console.ex_con [104; 105; 13; 10] c' /\
    (forall a, umem (r_mach (k_rw s')) a = ex_page a) /\ (forall a, kmem (r_mach (k_rw s')) a = 0) /\
    cons_lock (k_rw s') = Some false.
Proof.
  apply (write_syscall (fun _ => true) 1 None none1 none3 none1 none2 ex_kst ex_write Console.ex_con 2 2 1 0).
  - apply boot_con_at.
  - exact Console.ex_quiet.
  - reflexivity.
  - reflexivity.
  - reflexivity.
  - unfold INT_MIN, INT_MAX. lia.
  - unfold INT_MIN, INT_MAX. lia.
  - vm_compute. reflexivity.
  - reflexivity.
  - reflexivity.
  - exact ex_user_buf.
Defined.

(** [getpid] in the first process. *)
Definition ex_getpid : trapframe := fun r => match r with tf_v0 => SYS_getpid | tf_epc => 0x400100 | _ => 7 end.

Lemma mips_syscall_correct_witness : exists s' tf', mips_syscall (C := ex_calls) ex_kst ex_getpid = Done (s', tf') /\
  returns ex_getpid 0 1 tf'.
Proof.
  assert (sys_getpid ex_kst = Done (ex_kst, (0, 1))) as Ec by (unfold sys_getpid; simpl; vm_compute; reflexivity).
  assert (exists tf', mips_syscall (C := ex_calls) ex_kst ex_getpid = Done (ex_kst, tf')) as [tf' E].
  { unfold mips_syscall, call. simpl. rewrite Ec. simpl. eexists. reflexivity. }
  exists ex_kst, tf'. split; [exact E|].
  destruct (mips_syscall_correct (C := ex_calls) ex_kst ex_getpid ex_kst tf' E) as (_ & err & retval & E2 & H & _).
  unfold call in E2. simpl in E2. rewrite Ec in E2. injection E2 as <- <-. exact H.
Defined.

(** A page fault at an address of the program. *)
Definition ex_fault : trapframe := fun r => match r with tf_cause => 8 | tf_status => 8 | tf_vaddr => 0x401234 | _ => 7 end.
Definition ex_kst_tlb : kst := mk_kst ex_rws (set_k ex_fks (Thread.set_tlb ex_kernel ex_tlb)).
Definition ex_traps : Traps kst := kernel_traps (fun s _ => Done s) (fun _ => true) 0x80002000.
Definition ex_traps_ok : TrapsOk (C := ex_calls) (T := ex_traps) kst :=
  kernel_traps_ok (fun _ => true) 1 None none1 none3 gone none2 (fun s _ => Done s) (fun _ => true) 0x80002000.

Lemma mips_trap_correct_witness : exists s', mips_trap (C := ex_calls) (T := ex_traps) ex_kst_tlb ex_fault = Done (s', ex_fault) /\
  Spl.curspl (Thread.cpu (f_k (k_fk s'))) = 0.
Proof.
  assert (exists s', mips_trap (C := ex_calls) (T := ex_traps) ex_kst_tlb ex_fault = Done (s', ex_fault)) as [s' E]
    by (eexists; vm_compute; reflexivity).
  exists s'. split; [exact E|].
  destruct (mips_trap_correct (C := ex_calls) (T := ex_traps) (TOk := ex_traps_ok) ex_kst_tlb ex_fault s' ex_fault E) as (H & _).
  etransitivity; [exact H|vm_compute; reflexivity].
Defined.

End Kern.
