(* ===== verification/Mksfs.v ===== *)
(** * Making a filesystem ([sbin/mksfs/mksfs.c], [sbin/mksfs/disk.c])

    [mksfs] writes an empty filesystem onto a disk; [sfs_domount] of the kernel reads
    it.  The program is the one that runs on OS/161 itself: the processor is
    big-endian, a structure is written as it lies in memory.

    The disk is the file of its bytes.  What the system calls [write] do is a
    parameter: a script says for each call how many bytes it took, or that it was
    interrupted, or that it failed.  [errx] and [err] end the program: the result is
    then [None]. *)

From Stdlib Require Import ZArith Lia Bool.
From stdpp Require Import base list numbers gmap.
From S2P Require Import Prelude.
From S2P Require Import Array.
From S2P Require Import Bitmap.
From S2P Require Import Uio.
From S2P Require Import Lhd.
From S2P Require Import Sfs.
From S2P Require Import SfsFile.
From S2P Require Import SfsIo.
From S2P Require Import SfsDir.
From S2P Require Import Vfs.
Import Copy Uio Sfs SfsFile SfsIo SfsDir Vfs.

Module Mksfs.

(** ** The disk *)

Inductive io : Set := Wrote (k : nat) | Again | Failed.

#[global] Instance io_eq_dec : EqDecision io.
Proof. solve_decision. Defined.

Record disk : Type := mk_disk { bytes : Z -> Z; script : list io }.

(** [m], and [k] unless the program has ended. *)
Definition andthen {A B} (m : exec (disk * option A)) (k : disk -> A -> exec (disk * option B)) : exec (disk * option B) :=
  '(d, o) ← m; match o with None => Done (d, None) | Some a => k d a end.

(** The loop of [diskwrite]; a call takes no more than it is given. *)
Fixpoint write_loop (sc : list io) (f : Z -> Z) (data : list Z) (pos tot : Z) : exec (disk * option unit) :=
  if tot <? BLOCK then
    match sc with
    | [] => Halt Blocked
    | Wrote k :: sc' =>
        let len := Z.min (Z.of_nat k) (BLOCK - tot) in
        if len =? 0 then Done (mk_disk f sc', None)
        else write_loop sc' (fill f (pos + tot) (sub data tot len)) data pos (tot + len)
    | Again :: sc' => write_loop sc' f data pos tot
    | Failed :: sc' => Done (mk_disk f sc', None)
    end
  else Done (mk_disk f sc, Some tt).

(** [lseek] refuses a negative offset. *)
Definition diskwrite (d : disk) (data : list Z) (block : Z) : exec (disk * option unit) :=
  let off := s32 (block * BLOCK) in
  if off <? 0 then Done (d, None) else write_loop (script d) (bytes d) data off 0.

(** ** The filesystem *)

Definition MAXBITBLOCKS : Z := 32.

Definition writesuper (d : disk) (volname : list Z) (nblocks : Z) : exec (disk * option unit) :=
  if strlen volname >=? SFS_VOLNAME_SIZE then Done (d, None)
  else
    let sp := mk_super SFS_MAGIC nblocks (volname ++ replicate (Z.to_nat (SFS_VOLNAME_SIZE - strlen volname)) 0)
                (replicate 118 0) in
    diskwrite d (enc_super sp) SFS_SB_LOCATION.

Definition root_inode : sfs_inode := mk_inode 0 SFS_TYPE_DIR 1 (replicate 15 0) 0 (replicate 110 0).
Definition writerootdir (d : disk) : exec (disk * option unit) := diskwrite d (enc_inode root_inode) SFS_ROOT_LOCATION.

(** [bitbuf] holds bytes. *)
Definition doallocbit (bitbuf : list Z) (bit : Z) : exec (list Z) :=
  let byte := bit / 8 in
  let mask := Z.land (Z.shiftl 1 (bit mod 8)) 255 in
  x ← rd bitbuf byte;
  assert! Z.land x mask =? 0;
  wr bitbuf byte (Z.lor x mask).

Definition fill_bitmap (bitbuf : list Z) (fsblocks : Z) : exec (list Z) :=
  let nbits := SFS_BITMAPSIZE fsblocks in
  let nblocks := SFS_BITBLOCKS fsblocks in
  b1 ← doallocbit bitbuf SFS_SB_LOCATION;
  b2 ← doallocbit b1 SFS_ROOT_LOCATION;
  b3 ← for_range 0 nblocks (fun i b => doallocbit b (SFS_MAP_LOCATION + i)) b2;
  for_range fsblocks nbits (fun i b => doallocbit b i) b3.

Fixpoint write_map (n : nat) (i : Z) (d : disk) (bitbuf : list Z) : exec (disk * option unit) :=
  match n with
  | O => Done (d, Some tt)
  | S n' => andthen (diskwrite d (sub bitbuf (i * BLOCK) BLOCK) (SFS_MAP_LOCATION + i)) (fun d1 _ => write_map n' (i + 1) d1 bitbuf)
  end.

Definition writebitmap (d : disk) (fsblocks : Z) : exec (disk * option unit) :=
  let nblocks := SFS_BITBLOCKS fsblocks in
  if nblocks >? MAXBITBLOCKS then Done (d, None)
  else
    bitbuf ← fill_bitmap (replicate (Z.to_nat (MAXBITBLOCKS * BLOCK)) 0) fsblocks;
    write_map (Z.to_nat nblocks) 0 d bitbuf.

(** The volume name, or [None] for an illegal one. *)
Definition clean_name (volname : list Z) : option (list Z) :=
  match (match strchr volname COLON with
         | None => Some volname
         | Some s => if negb (strlen s =? 1) then None else Some (take (length volname - length s) volname)
         end) with
  | None => None
  | Some v => match strchr v SLASH with Some _ => None | None => Some v end
  end.

(** [main]: [opened] is the size [fstat] gives for the disk, [None] when it cannot be
    opened; [closed] says whether [close] succeeds. *)
Definition mksfs (opened : option Z) (closed : bool) (d : disk) (volname : list Z) : exec (disk * option unit) :=
  match clean_name volname, opened with
  | Some volname, Some st_size =>
      let size := u32 (Z.quot st_size BLOCK) in
      andthen (writesuper d volname size) (fun d1 _ =>
      andthen (writerootdir d1) (fun d2 _ =>
      andthen (writebitmap d2 size) (fun d3 _ =>
      Done (d3, if closed then Some tt else None))))
  | _, _ => Done (d, None)
  end.

(** ** Writing the disk *)

(** Calls that neither fail nor give up, and how many of them take something. *)
Definition patient (sc : list io) : Prop := Forall (fun x => x <> Failed /\ x <> Wrote 0) sc.
Definition takes (sc : list io) : Z := Z.of_nat (length (filter (fun x => x <> Again) sc)).

Lemma sub_split b off n1 n2 : 0 <= off -> 0 <= n1 -> 0 <= n2 -> sub b off (n1 + n2) = sub b off n1 ++ sub b (off + n1) n2.
Proof.
  intros. unfold sub. rewrite !Z2Nat.inj_add by lia. rewrite <- drop_drop. symmetry. apply take_take_drop.
Qed.

Lemma write_loop_ok sc f data pos tot : patient sc -> BLOCK - tot <= takes sc -> 0 <= tot <= BLOCK -> length data = Z.to_nat BLOCK ->
  exists d', write_loop sc f data pos tot = Done (d', Some tt) /\ patient (script d') /\ takes sc - (BLOCK - tot) <= takes (script d') /\
    forall x, bytes d' x = fill f (pos + tot) (sub data tot (BLOCK - tot)) x.
Proof.
  intros Hp. revert f tot. induction sc as [|c sc IH]; intros f tot Ht Htot Hl; cbn [write_loop].
  - unfold takes in Ht. simpl in Ht. case_bool. eexists. split; [done|]. split_and!; [done|simpl; lia|].
    intros x. replace (BLOCK - tot) with 0 by lia. symmetry. apply fill_nil.
  - case_bool.
    2:{ eexists. split; [done|]. split_and!; [done|simpl; lia|].
        intros x. replace (BLOCK - tot) with 0 by lia. symmetry. apply fill_nil. }
    apply list.Forall_cons in Hp as [[Hc1 Hc2] Hp]. unfold takes in *. destruct c as [k| |]; [|by apply IH|done].
    assert (k <> 0%nat) by congruence. rewrite filter_cons_True in Ht by done. rewrite filter_cons_True by done. simpl in Ht |- *.
    set (len := Z.min (Z.of_nat k) (BLOCK - tot)). assert (0 < len <= BLOCK - tot) by lia. case_bool.
    destruct (IH Hp (fill f (pos + tot) (sub data tot len)) (tot + len)) as (d' & -> & K1 & K2 & K3); [lia..|done|].
    exists d'. split_and!; [done|done|lia|]. replace (BLOCK - tot) with (len + (BLOCK - (tot + len))) by lia.
    rewrite sub_split by lia. eapply fill_app; [done|]. intros x. rewrite K3, length_sub by lia. f_equal. lia.
Qed.

(** [d'] is [d] with [data] written at block [b], by calls that took no more than [n]. *)
Record stored (d d' : disk) (b : Z) (data : list Z) (n : Z) : Prop := {
  st_patient : patient (script d');
  st_takes : takes (script d) - n <= takes (script d');
  st_bytes x : bytes d' x = fill (bytes d) (b * BLOCK) data x
}.

Lemma diskwrite_ok d data b : patient (script d) -> BLOCK <= takes (script d) -> length data = Z.to_nat BLOCK -> 0 <= b < 2 ^ 22 ->
  exists d', diskwrite d data b = Done (d', Some tt) /\ stored d d' b data BLOCK.
Proof.
  intros Hp Ht Hl Hb. unfold diskwrite. unfold BLOCK in *. rewrite s32_small by lia. case_bool.
  destruct (write_loop_ok (script d) (bytes d) data (b * 512) 0) as (d' & -> & H1 & H2 & H3); [done|unfold BLOCK; lia..|done|].
  exists d'. split; [done|]. split; [done|unfold BLOCK in *; lia|]. intros x. rewrite H3. unfold BLOCK. rewrite Z.add_0_r, Z.sub_0_r.
  by rewrite Lhd.sub_all.
Qed.

Lemma write_map_ok n i d buf : patient (script d) -> BLOCK * Z.of_nat n <= takes (script d) -> 0 <= i -> i + Z.of_nat n <= MAXBITBLOCKS ->
  (i + Z.of_nat n) * BLOCK <= Z.of_nat (length buf) ->
  exists d', write_map n i d buf = Done (d', Some tt) /\ stored d d' (SFS_MAP_LOCATION + i) (sub buf (i * BLOCK) (Z.of_nat n * BLOCK)) (BLOCK * Z.of_nat n).
Proof.
  revert i d. induction n as [|n IH]; intros i d Hp Ht Hi Hm Hl; cbn [write_map].
  - exists d. split; [done|]. split; [done|lia|]. intros x. symmetry. apply fill_nil.
  - unfold MAXBITBLOCKS, SFS_MAP_LOCATION, BLOCK in *.
    destruct (diskwrite_ok d (sub buf (i * 512) 512) (2 + i)) as (d1 & E & [P1 T1 B1]); [done|unfold BLOCK; lia| |lia|].
    { rewrite length_sub; unfold BLOCK; lia. }
    unfold BLOCK in *. unfold andthen. rewrite E. run.
    destruct (IH (i + 1) d1) as (d' & -> & [P2 T2 B2]); [done|lia..|]. exists d'. split; [done|]. split; [done|lia|].
    replace (Z.of_nat (S n) * 512) with (512 + Z.of_nat n * 512) by lia. rewrite sub_split by lia.
    eapply fill_app; [done|]. intros x. rewrite B2, length_sub by lia. f_equal; [unfold BLOCK; lia|f_equal; lia].
Qed.

(** ** The free map *)

Definition MAXBITS : Z := MAXBITBLOCKS * SFS_BLOCKBITS.
Definition as_map (buf : list Z) : Bitmap.bitmap := Bitmap.mk_bitmap MAXBITS buf.

(** The sizes of a filesystem that fits [bitbuf]. *)
Lemma map_sizes n : 0 < n <= MAXBITS ->
  SFS_BITMAPSIZE n = SFS_BITBLOCKS n * SFS_BLOCKBITS /\ n <= SFS_BITMAPSIZE n < n + SFS_BLOCKBITS /\ 0 < SFS_BITBLOCKS n <= MAXBITBLOCKS.
Proof.
  unfold SFS_BITBLOCKS, SFS_BITMAPSIZE, MAXBITS, MAXBITBLOCKS, SFS_BLOCKBITS, SFS_BLOCKSIZE. change (512 * 8) with 4096. intros Hn.
  rewrite (u32_small (n + 4096)), (u32_small (n + 4096 - 1)) by lia. rewrite u32_small by zlia. zlia.
Qed.

Lemma doallocbit_ok buf i : Bitmap.bitmap_wf (as_map buf) -> 0 <= i < MAXBITS -> Bitmap.bit (as_map buf) i = false ->
  exists buf', doallocbit buf i = Done buf' /\ Bitmap.bitmap_wf (as_map buf') /\ Bitmap.only_bit_set (as_map buf) (as_map buf') i.
Proof.
  intros Hwf Hi Hb. pose proof Hwf as (_ & Hl & _). pose proof (Z.mod_pos_bound i 8 ltac:(lia)) as Hm.
  destruct (Bitmap.wf_word (as_map buf) (i / 8)) as (w & Hw & Er & Hwr); [done|change (Bitmap.words (as_map buf)) with 16384; unfold MAXBITS, MAXBITBLOCKS, SFS_BLOCKBITS, SFS_BLOCKSIZE in Hi; zlia|].
  unfold doallocbit. simpl in Er, Hw. rewrite Er. run. change (Z.land (Z.shiftl 1 (i mod 8)) 255) with (Bitmap.bitmask (i mod 8)).
  rewrite Bitmap.land_mask by done. rewrite (Bitmap.bit_word (as_map buf) i w Hw) in Hb. rewrite Hb. run.
  apply lookup_lt_Some in Hw as Hlt. rewrite wr_Done by zlia. eexists. split; [done|].
  apply (Bitmap.set_bit_spec (as_map buf) i w); done.
Qed.

(** [buf] marks exactly the bits of [p]. *)
Definition marks (buf : list Z) (p : Z -> bool) : Prop :=
  Bitmap.bitmap_wf (as_map buf) /\ forall k, 0 <= k < MAXBITS -> Bitmap.bit (as_map buf) k = p k.

Lemma marks_one buf p i q : marks buf p -> 0 <= i < MAXBITS -> p i = false -> (forall k, 0 <= k < MAXBITS -> q k = (k =? i) || p k) ->
  exists buf', doallocbit buf i = Done buf' /\ marks buf' q.
Proof.
  intros [Hwf Hp] Hi Hf Hq. destruct (doallocbit_ok buf i) as (buf' & -> & Hwf' & _ & Ho); [done..|by rewrite Hp|].
  exists buf'. split; [done|]. split; [done|]. intros k Hk. by rewrite Hq, Ho, Hp by lia.
Qed.

Lemma marks_range buf p off i0 hi q : marks buf p -> i0 <= hi -> 0 <= off + i0 -> off + hi <= MAXBITS ->
  (forall k, off + i0 <= k < off + hi -> p k = false) ->
  (forall k, 0 <= k < MAXBITS -> q k = (off + i0 <=? k) && (k <? off + hi) || p k) ->
  exists buf', for_range i0 hi (fun i b => doallocbit b (off + i)) buf = Done buf' /\ marks buf' q.
Proof.
  intros Hm Hle H0 Hhi Hp Hq.
  destruct (for_range_ind (fun j b => marks b (fun k => (off + i0 <=? k) && (k <? off + j) || p k))
    (fun i b => doallocbit b (off + i)) i0 hi buf) as (buf' & E & [Hw Hb]); [done| | |].
  - destruct Hm as [Hw Hb]. split; [done|]. intros k Hk. rewrite Hb by done.
    by replace ((off + i0 <=? k) && (k <? off + i0)) with false by (repeat case_bool; done || lia).
  - intros j b Hj Hb. eapply marks_one; [done|lia| |].
    + cbn beta. rewrite Hp by lia. repeat case_bool; done || lia.
    + intros k Hk. cbn beta. repeat case_bool; done || lia.
  - exists buf'. split; [done|]. split; [done|]. intros k Hk. by rewrite Hq, Hb.
Qed.

(** The blocks in use on a fresh filesystem of [n] blocks, and the bits past its end. *)
Definition reserved_bits (n k : Z) : bool := (k <? SFS_MAP_LOCATION + SFS_BITBLOCKS n) || ((n <=? k) && (k <? SFS_BITMAPSIZE n)).

Lemma fill_bitmap_ok n : 3 <= n <= MAXBITS ->
  exists buf, fill_bitmap (replicate (Z.to_nat (MAXBITBLOCKS * BLOCK)) 0) n = Done buf /\ marks buf (reserved_bits n).
Proof.
  intros Hn. destruct (map_sizes n ltac:(lia)) as (Hs & Hb1 & Hb2). unfold fill_bitmap.
  assert (SFS_MAP_LOCATION + SFS_BITBLOCKS n <= n) as Hfit by (unfold SFS_MAP_LOCATION, SFS_BLOCKBITS, SFS_BLOCKSIZE in *; lia).
  assert (marks (replicate (Z.to_nat (MAXBITBLOCKS * BLOCK)) 0) (fun _ => false)) as H0.
  { split; [|intros k Hk].
    - split; [done|]. split; [by unfold as_map; cbn [Bitmap.v]; rewrite length_replicate|]. split; [apply Forall_replicate; lia|].
      intros i. change (Bitmap.words _) with 16384. change (Bitmap.nbits _) with 131072. lia.
    - unfold Bitmap.bit, as_map. cbn [Bitmap.v]. unfold MAXBITS, MAXBITBLOCKS, SFS_BLOCKBITS, SFS_BLOCKSIZE, BLOCK in *.
      rewrite lookup_replicate_2 by zlia. apply Z.bits_0. }
  unfold SFS_SB_LOCATION, SFS_ROOT_LOCATION, SFS_MAP_LOCATION in *.
  assert (MAXBITS = 131072) as HM by done.
  destruct (marks_one _ _ 0 (fun k => k <? 1) H0) as (b1 & -> & H1); [lia|done|intros k Hk; repeat case_bool; done || lia|]. run.
  destruct (marks_one _ _ 1 (fun k => k <? 2) H1) as (b2 & -> & H2); [lia|done|intros k Hk; repeat case_bool; done || lia|]. run.
  destruct (marks_range _ _ 2 0 (SFS_BITBLOCKS n) (fun k => k <? 2 + SFS_BITBLOCKS n) H2) as (b3 & -> & H3);
    [lia..|intros; cbn beta; case_bool; done|intros k Hk; cbn beta; repeat case_bool; done || lia|]. run.
  destruct (marks_range _ _ 0 n (SFS_BITMAPSIZE n) (reserved_bits n) H3) as (b4 & E & H4);
    [lia|lia|unfold MAXBITBLOCKS, SFS_BLOCKBITS, SFS_BLOCKSIZE in *; lia|intros; cbn beta; case_bool; done||lia
    |intros k Hk; unfold reserved_bits, SFS_MAP_LOCATION; rewrite orb_comm; done|].
  exists b4. split; [exact E|done].
Qed.

(** ** The structures on the disk *)

Lemma of_be32_shift a b i : 0 <= i -> of_be32 (a ++ b) (Z.of_nat (length a) + i) = of_be32 b i.
Proof. intros. unfold of_be32. rewrite !byte_at_app_r by lia. repeat f_equal; lia. Qed.

Lemma of_be16_shift a b i : 0 <= i -> of_be16 (a ++ b) (Z.of_nat (length a) + i) = of_be16 b i.
Proof. intros. unfold of_be16. rewrite !byte_at_app_r by lia. repeat f_equal; lia. Qed.

Lemma of_be32_prefix b c i : 0 <= i -> i + 4 <= Z.of_nat (length b) -> of_be32 (b ++ c) i = of_be32 b i.
Proof. intros. unfold of_be32. by rewrite !byte_at_app_l by lia. Qed.

Lemma of_be16_be16 w c : 0 <= w < 2 ^ 16 -> of_be16 (be16 w ++ c) 0 = w.
Proof. intros Hw. unfold of_be16, be16, byte_at. simpl. zlia. Qed.

Lemma words_at_mid a l c off n : Forall is_word l -> Z.of_nat (length l) = n -> off = Z.of_nat (length a) ->
  words_at (a ++ put_words l ++ c) off n = l.
Proof.
  intros Hw Hn ->. rewrite <- (words_put_words l n) at 2 by done. unfold words_at. apply list_fmap_ext.
  intros i x Hx. apply lookup_seqZ in Hx as [-> Hi]. rewrite of_be32_shift by lia. rewrite of_be32_prefix; [f_equal; lia|lia|].
  rewrite length_put_words. lia.
Qed.

Record super_wf (s : sfs_super) : Prop := {
  sw_magic : is_word (sp_magic s);
  sw_nblocks : is_word (sp_nblocks s);
  sw_volname : Z.of_nat (length (sp_volname s)) = SFS_VOLNAME_SIZE;
  sw_reserved : Z.of_nat (length (reserved s)) = 118 /\ Forall is_word (reserved s)
}.

Record inode_wf (i : sfs_inode) : Prop := {
  iw_size : is_word (sfi_size i);
  iw_type : 0 <= sfi_type i < 2 ^ 16;
  iw_linkcount : 0 <= sfi_linkcount i < 2 ^ 16;
  iw_direct : Z.of_nat (length (sfi_direct i)) = SFS_NDIRECT /\ Forall is_word (sfi_direct i);
  iw_indirect : is_word (sfi_indirect i);
  iw_waste : Z.of_nat (length (sfi_waste i)) = 110 /\ Forall is_word (sfi_waste i)
}.

Lemma dec_enc_super s : super_wf s -> length (enc_super s) = Z.to_nat BLOCK /\ dec_super (enc_super s) = s.
Proof.
  intros [Hm Hn Hv [Hr Hw]]. destruct s as [m n v r]. simpl in *. unfold SFS_VOLNAME_SIZE in *. unfold enc_super; cbn [sp_magic sp_nblocks sp_volname reserved].
  split; [rewrite !length_app, length_put_words; change (length (be32 m)) with 4%nat; change (length (be32 n)) with 4%nat; unfold BLOCK; lia|].
  unfold dec_super. f_equal.
  - by apply of_be32_be32.
  - change 4 with (Z.of_nat (length (be32 m)) + 0) at 1. rewrite of_be32_shift by done. by apply of_be32_be32.
  - unfold sub. change (drop (Z.to_nat 8) _) with (v ++ put_words r). apply take_app_length'. unfold SFS_VOLNAME_SIZE. lia.
  - rewrite <- (app_nil_r (put_words r)), !app_assoc. rewrite <- (app_assoc _ _ []). apply words_at_mid; [done..|].
    rewrite !length_app. change (length (be32 m)) with 4%nat. change (length (be32 n)) with 4%nat. lia.
Qed.

Lemma dec_enc_inode i : inode_wf i -> length (enc_inode i) = Z.to_nat BLOCK /\ dec_inode (enc_inode i) = i.
Proof.
  intros [Hs Ht Hl [Hd Hdw] Hi [Hw Hww]]. destruct i as [s t l d x w].
  cbn [sfi_size sfi_type sfi_linkcount sfi_direct sfi_indirect sfi_waste] in *. unfold SFS_NDIRECT in *.
  unfold enc_inode; cbn [sfi_size sfi_type sfi_linkcount sfi_direct sfi_indirect sfi_waste].
  remember (be32 s ++ be16 t ++ be16 l) as a eqn:Ea.
  assert (be32 s ++ be16 t ++ be16 l ++ put_words d ++ be32 x ++ put_words w = a ++ put_words d ++ be32 x ++ put_words w) as ->
    by (rewrite Ea; by rewrite <- !app_assoc).
  assert (length a = 8%nat) as Ha by (by rewrite Ea).
  split; [rewrite !length_app, !length_put_words, Ha; change (length (be32 x)) with 4%nat; unfold BLOCK; lia|].
  unfold dec_inode. f_equal.
  - rewrite Ea. rewrite <- app_assoc. by apply of_be32_be32.
  - rewrite Ea. rewrite <- !app_assoc. change 4 with (Z.of_nat (length (be32 s)) + 0). rewrite of_be16_shift by done. by apply of_be16_be16.
  - rewrite Ea. rewrite <- !app_assoc. rewrite (app_assoc (be32 s)). change 6 with (Z.of_nat (length (be32 s ++ be16 t)) + 0).
    rewrite of_be16_shift by done. by apply of_be16_be16.
  - apply words_at_mid; [done..|by rewrite Ha].
  - rewrite app_assoc. replace 68 with (Z.of_nat (length (a ++ put_words d)) + 0) by (rewrite length_app, length_put_words; lia).
    rewrite of_be32_shift by done. by apply of_be32_be32.
  - rewrite !app_assoc, <- (app_nil_r (put_words w)). rewrite app_assoc, <- (app_assoc _ _ []). apply words_at_mid; [done..|].
    rewrite !length_app, length_put_words, Ha. change (length (be32 x)) with 4%nat. lia.
Qed.

(** ** The image *)

Definition fresh_super (volname : list Z) (n : Z) : sfs_super :=
  mk_super SFS_MAGIC n (volname ++ replicate (Z.to_nat (SFS_VOLNAME_SIZE - strlen volname)) 0) (replicate 118 0).

(** What [mksfs] leaves on a disk of [n] blocks. *)
Record image (g : Z -> Z) (volname : list Z) (n : Z) : Prop := {
  im_super : bytes_at g 0 BLOCK = enc_super (fresh_super volname n);
  im_root : bytes_at g BLOCK BLOCK = enc_inode root_inode;
  im_map : exists buf, marks buf (reserved_bits n) /\ bytes_at g (SFS_MAP_LOCATION * BLOCK) (SFS_BITBLOCKS n * BLOCK) = sub buf 0 (SFS_BITBLOCKS n * BLOCK)
}.

Lemma Forall_zero_words k : Forall is_word (replicate k 0).
Proof. apply Forall_replicate. unfold is_word. lia. Qed.

Lemma fresh_super_wf volname n : strlen volname < SFS_VOLNAME_SIZE -> is_word n -> super_wf (fresh_super volname n).
Proof.
  unfold strlen, SFS_VOLNAME_SIZE. intros Hv Hn. split; cbn; [done|done| |].
  - rewrite length_app, length_replicate. unfold strlen, SFS_VOLNAME_SIZE. lia.
  - split; [done|apply (Forall_zero_words 118)].
Qed.

Lemma root_inode_wf : inode_wf root_inode.
Proof. split; try done; (split; [done|]); [apply (Forall_zero_words 15)|apply (Forall_zero_words 110)]. Qed.

Lemma strchr_app vol r c : c ∉ vol -> strchr (vol ++ r) c = strchr r c.
Proof.
  induction vol as [|x vol IH]; intros Hc; [done|]. apply not_elem_of_cons in Hc as [Hx Hc]. simpl. case_bool; first [by apply IH|congruence].
Qed.

Lemma clean_name_spec vol name : (name = vol \/ name = vol ++ [COLON]) -> COLON ∉ vol -> SLASH ∉ vol -> clean_name name = Some vol.
Proof.
  intros Hname Hc Hs. pose proof (strchr_app vol [] SLASH Hs) as Es. rewrite app_nil_r in Es. unfold clean_name. destruct Hname as [->| ->].
  - pose proof (strchr_app vol [] COLON Hc) as Ec. rewrite app_nil_r in Ec. rewrite Ec. cbn. by rewrite Es.
  - rewrite strchr_app by done. cbn. rewrite length_app. cbn. rewrite Nat.add_sub, take_app_length. change (strlen [COLON] =? 1) with true. cbn. by rewrite Es.
Qed.

Lemma mksfs_image d n name vol : patient (script d) -> BLOCK * (SFS_MAP_LOCATION + SFS_BITBLOCKS n) <= takes (script d) ->
  clean_name name = Some vol -> strlen vol < SFS_VOLNAME_SIZE -> 3 <= n <= MAXBITS ->
  exists d', mksfs (Some (n * BLOCK)) true d name = Done (d', Some tt) /\ image (bytes d') vol n /\
    forall x, (SFS_MAP_LOCATION + SFS_BITBLOCKS n) * BLOCK <= x -> bytes d' x = bytes d x.
Proof.
  intros Hp Ht Hname Hv Hn. destruct (map_sizes n ltac:(lia)) as (Hs & Hb1 & Hb2).
  assert (MAXBITS = 131072) as HM by done. unfold SFS_MAP_LOCATION, MAXBITBLOCKS in *.
  destruct (dec_enc_super (fresh_super vol n)) as [Hl1 _]; [apply fresh_super_wf; [done|unfold is_word; lia]|].
  destruct (dec_enc_inode root_inode root_inode_wf) as [Hl2 _].
  destruct (fill_bitmap_ok n Hn) as (buf & Ef & Hm). pose proof Hm as [(_ & Hlen & _) _].
  change (Bitmap.words (as_map buf)) with 16384 in Hlen. cbn in Hlen.
  unfold mksfs. rewrite Hname. rewrite Z.quot_mul by done. rewrite u32_small by lia.
  unfold writesuper. rewrite Z.geb_leb. case_bool. fold (fresh_super vol n).
  destruct (diskwrite_ok d (enc_super (fresh_super vol n)) SFS_SB_LOCATION) as (d1 & E1 & [P1 T1 B1]); [done|unfold BLOCK in *; lia|done|done|].
  unfold andthen at 1. rewrite E1. run. unfold writerootdir.
  destruct (diskwrite_ok d1 (enc_inode root_inode) SFS_ROOT_LOCATION) as (d2 & E2 & [P2 T2 B2]); [done|unfold BLOCK in *; lia|done|done|].
  unfold andthen at 1. rewrite E2. run. unfold writebitmap. rewrite Z.gtb_ltb. case_bool; [unfold MAXBITBLOCKS in *; lia|].
  rewrite Ef. unfold andthen. run.
  destruct (write_map_ok (Z.to_nat (SFS_BITBLOCKS n)) 0 d2 buf) as (d3 & -> & [P3 T3 B3]); [done|unfold BLOCK, MAXBITBLOCKS in *; lia..|]. run.
  rewrite Z2Nat.id in B3 by lia. unfold SFS_MAP_LOCATION, SFS_SB_LOCATION, SFS_ROOT_LOCATION, BLOCK in *.
  assert (length (sub buf (0 * 512) (SFS_BITBLOCKS n * 512)) = Z.to_nat (SFS_BITBLOCKS n * 512)) as Hl3 by (rewrite length_sub; lia).
  exists d3. split; [done|]. split.
  - split; unfold SFS_MAP_LOCATION, BLOCK.
    + rewrite <- (bytes_at_fill (bytes d) 0 (enc_super (fresh_super vol n)) 512) by lia. apply bytes_at_ext. intros x Hx.
      rewrite B3, fill_out by lia. rewrite B2, fill_out by lia. apply B1.
    + rewrite <- (bytes_at_fill (bytes d1) 512 (enc_inode root_inode) 512) by lia. apply bytes_at_ext. intros x Hx.
      rewrite B3, fill_out by lia. apply B2.
    + exists buf. split; [done|]. rewrite <- (bytes_at_fill (bytes d2) 1024 (sub buf 0 (SFS_BITBLOCKS n * 512)) (SFS_BITBLOCKS n * 512))
        by (change (0 * 512) with 0 in Hl3; lia).
      apply bytes_at_ext. intros x _. apply B3.
  - intros x Hx. rewrite B3, fill_out by lia. rewrite B2, fill_out by lia. rewrite B1, fill_out by lia. done.
Qed.

(** ** Mounting the image *)

Section mount.
Context {D : Type} {B : BlockDev D} {BOk : BlockDevOk D}.

(** The device holds the bytes [g]. *)
Definition holds (d : D) (g : Z -> Z) : Prop := forall b, 0 <= b < d_blocks d -> block d b = bytes_at g (b * BLOCK) BLOCK.

Lemma same_dev_holds d d' g : same_dev d d' -> holds d g -> holds d' g.
Proof. intros (_ & _ & E & Hb) H b Hr. rewrite Hb. apply H. lia. Qed.

Lemma mapio_read_ok n f j g : dev_inv (sfs_device f) -> reliable (sfs_device f) -> holds (sfs_device f) g ->
  0 <= j -> SFS_MAP_LOCATION + j + Z.of_nat n <= d_blocks (sfs_device f) ->
  Z.of_nat (length (Bitmap.v (sfs_freemap f))) = (j + Z.of_nat n) * BLOCK ->
  exists d', mapio_read n f j = Done (set_freemap (set_device f d') (Bitmap.mk_bitmap (Bitmap.nbits (sfs_freemap f))
      (take (Z.to_nat (j * BLOCK)) (Bitmap.v (sfs_freemap f)) ++ bytes_at g ((SFS_MAP_LOCATION + j) * BLOCK) (Z.of_nat n * BLOCK)))
      (sfs_freemapdirty f), Ok tt) /\ same_dev (sfs_device f) d'.
Proof.
  revert f j. induction n as [|n IH]; intros f j Hd Hrel Hh Hj Hb Hl; cbn [mapio_read].
  - exists (sfs_device f). split; [|by repeat split]. destruct f as [? ? ? ? [nb v] ? ? ?]. unfold set_freemap, set_device. cbn in *.
    change (bytes_at g _ (0 * BLOCK)) with (@nil Z). by rewrite app_nil_r, take_ge by lia.
  - unfold SFS_MAP_LOCATION, BLOCK, SFS_BLOCKSIZE in *. unfold sfs_rblock.
    destruct (dev_rblock_ok (sfs_device f) (2 + j)) as (d1 & -> & Hsd); [done..|lia|]. run.
    pose proof Hsd as (Hd1 & Hr1 & Hn1 & _). pose proof (block_length _ (2 + j) Hd) as Hlen. unfold BLOCK in Hlen.
    set (data := block (sfs_device f) (2 + j)) in *.
    edestruct (IH (set_freemap (set_device f d1) (Bitmap.mk_bitmap (Bitmap.nbits (sfs_freemap f)) (splice (Bitmap.v (sfs_freemap f)) (j * 512) data))
      (sfs_freemapdirty f)) (j + 1)) as (d' & E & Hs2); cbn; [done|done|by eapply same_dev_holds|lia|lia|rewrite length_splice; lia|].
    exists d'. split; [|destruct Hsd as (? & ? & ? & Hb1), Hs2 as (? & ? & ? & Hb2); repeat split; [done|done|simpl in *; lia|intros x; by rewrite Hb2, Hb1]].
    etransitivity; [exact E|]. unfold set_freemap, set_device. cbn. do 4 f_equal.
    replace (Z.of_nat (S n) * 512) with (512 + Z.of_nat n * 512) by lia. rewrite bytes_at_app by lia.
    replace ((2 + (j + 1)) * 512) with ((2 + j) * 512 + 512) by lia. rewrite app_assoc. f_equal.
    unfold data. rewrite Hh by lia. unfold splice. rewrite app_assoc. apply take_app_length'.
    rewrite length_app, length_take, length_bytes_at. lia.
Qed.

Lemma cstr_padded v k : Forall (fun c => c <> 0) v -> cstr (v ++ replicate (S k) 0) = v.
Proof. induction 1 as [|c v Hc _ IH]; [done|]. cbn [app cstr]. destruct (Z.eqb_spec c 0); [done|by rewrite IH]. Qed.

(** The last byte of a padded name is zero already. *)
Lemma wr_volname v n : strlen v < SFS_VOLNAME_SIZE ->
  wr (sp_volname (fresh_super v n)) (SFS_VOLNAME_SIZE - 1) 0 = Done (sp_volname (fresh_super v n)).
Proof.
  unfold strlen, SFS_VOLNAME_SIZE. intros Hv. cbn [fresh_super sp_volname]. unfold strlen, SFS_VOLNAME_SIZE.
  rewrite wr_Done by (rewrite length_app, length_replicate; lia). f_equal. apply list_insert_id.
  rewrite lookup_app_r by lia. apply lookup_replicate_2. lia.
Qed.

(** The bits of the map that the mount has read. *)
Lemma bit_sub buf nb n i : marks buf (reserved_bits nb) -> 0 <= n <= MAXBITBLOCKS -> 0 <= i < n * SFS_BLOCKBITS ->
  Bitmap.bit (Bitmap.mk_bitmap (n * SFS_BLOCKBITS) (sub buf 0 (n * BLOCK))) i = reserved_bits nb i.
Proof.
  unfold MAXBITBLOCKS, SFS_BLOCKBITS, SFS_BLOCKSIZE, BLOCK. intros [_ Hb] Hn Hi.
  rewrite <- Hb by (unfold MAXBITS, MAXBITBLOCKS, SFS_BLOCKBITS, SFS_BLOCKSIZE; lia).
  unfold Bitmap.bit, sub. cbn [Bitmap.v as_map]. rewrite drop_0, lookup_take_lt by zlia. done.
Qed.

Lemma sub_map_wf buf p n : marks buf p -> 0 <= n <= MAXBITBLOCKS ->
  Bitmap.bitmap_wf (Bitmap.mk_bitmap (n * SFS_BLOCKBITS) (sub buf 0 (n * BLOCK))).
Proof.
  unfold MAXBITBLOCKS. intros [(_ & Hl & Hf & _) _] Hn. change (Bitmap.words (as_map buf)) with 16384 in Hl. cbn in Hl.
  unfold SFS_BLOCKBITS, SFS_BLOCKSIZE, BLOCK.
  assert (Bitmap.words (Bitmap.mk_bitmap (n * (512 * 8)) (sub buf 0 (n * 512))) = n * 512) as Ew
    by (unfold Bitmap.words; cbn [Bitmap.nbits]; rewrite Bitmap.words_eq by lia; zlia).
  split; [cbn [Bitmap.nbits]; lia|]. rewrite Ew. cbn [Bitmap.nbits Bitmap.v]. split; [rewrite length_sub; lia|].
  split; [by apply Forall_take, Forall_drop|]. intros i Hi. lia.
Qed.

Lemma root_slot (f : sfs_fs D) fb : slot_block f root_inode fb = 0.
Proof.
  unfold slot_block. case_bool; [|done]. cbn [root_inode sfi_direct].
  destruct (_ !! Z.to_nat fb) as [x|] eqn:E; [|done]. by apply lookup_replicate in E as [-> _].
Qed.

Lemma root_empty (f : sfs_fs D) : dir_wf f root_inode /\ forall name ino, ~ has f root_inode name ino.
Proof.
  assert (forall k name, ~ named f root_inode k name) as Hno by (intros k name [Hk _]; change (slots root_inode) with 0 in Hk; lia).
  split; [|intros name ino (k & Hk & _); by eapply Hno].
  split; [split; [|done]|done|done|by intros ?? name ?%Hno].
  split; [done| | |]; intros.
  - destruct H as [Hx [Hi|(fb & _ & Hs)]]; [done|]. by rewrite root_slot in Hs.
  - by rewrite root_slot in *.
  - by rewrite root_slot in *.
Qed.

(** What a mount of the image finds. *)
Record fresh_fs (f : sfs_fs D) (vol : list Z) (n : Z) : Prop := {
  fr_inv : fs_inv f;
  fr_name : sfs_getvolname f = vol;
  fr_size : nblocks f = n;
  fr_used b : 0 <= b < n -> used f b = (b <? SFS_MAP_LOCATION + SFS_BITBLOCKS n);
  fr_root : dec_inode (dblock f SFS_ROOT_LOCATION) = root_inode;
  fr_dir : dir_wf f root_inode;
  fr_empty name ino : ~ has f root_inode name ino
}.

Lemma mount_image dv g vol n : dev_inv dv -> reliable dv -> d_blocksize dv = SFS_BLOCKSIZE -> d_blocks dv = n -> holds dv g ->
  image g vol n -> Forall (fun c => c <> 0) vol -> strlen vol < SFS_VOLNAME_SIZE -> 3 <= n <= MAXBITS ->
  exists dv' f, sfs_domount (fun _ => true) dv = Done (dv', Ok f) /\ fresh_fs f vol n.
Proof.
  intros Hd Hrel Hbs Hn Hh [Is Ir (buf & Hm & Im)] Hnz Hv Hrange.
  destruct (map_sizes n ltac:(lia)) as (Hsz & Hb1 & Hb2). assert (MAXBITS = 131072) as HM by done.
  destruct (dec_enc_super (fresh_super vol n)) as [_ Es]; [apply fresh_super_wf; [done|unfold is_word; lia]|].
  destruct (dec_enc_inode root_inode root_inode_wf) as [_ Ei].
  unfold sfs_domount. rewrite Hbs. cbn [negb Z.eqb SFS_BLOCKSIZE Pos.eqb Array.array_create].
  destruct (dev_rblock_ok dv SFS_SB_LOCATION) as (d1 & -> & Hsd); [done..|unfold SFS_SB_LOCATION; lia|]. run.
  pose proof Hsd as (Hd1 & Hr1 & Hn1 & Hbl).
  rewrite Hh by (unfold SFS_SB_LOCATION; lia). change (SFS_SB_LOCATION * BLOCK) with 0. rewrite Is, Es.
  change (sp_magic (fresh_super vol n) =? SFS_MAGIC) with true. cbn [negb]. rewrite wr_volname by done. run.
  change (mk_super _ _ _ _) with (fresh_super vol n). change (sp_nblocks (fresh_super vol n)) with n.
  destruct (Bitmap.bitmap_create_spec (fun _ => true) (SFS_BITMAPSIZE n)) as ([fm|] & -> & Hfm);
    [unfold MAXBITS, MAXBITBLOCKS, SFS_BLOCKBITS, SFS_BLOCKSIZE in *; lia| |destruct Hfm; done]. run.
  destruct Hfm as (Hnb & Hfwf & _). pose proof Hfwf as (_ & Hfl & _). unfold Bitmap.words in Hfl. rewrite Hnb in Hfl.
  rewrite Bitmap.words_eq in Hfl by (unfold MAXBITS, MAXBITBLOCKS, SFS_BLOCKBITS, SFS_BLOCKSIZE in *; lia).
  unfold sfs_mapio. cbn [super]. change (sp_nblocks (fresh_super vol n)) with n.
  edestruct (mapio_read_ok (Z.to_nat (SFS_BITBLOCKS n)) (mk_fs (fresh_super vol n) false d1 (Array.mk_array 0 0 None) fm false ∅ 0) 0 g)
    as (d2 & -> & Hd2 & Hr2 & Hn2 & Hbl2); cbn [sfs_device sfs_freemap]; [done|done|by eapply same_dev_holds|done| | |].
  { unfold SFS_MAP_LOCATION, MAXBITS, MAXBITBLOCKS, SFS_BLOCKBITS, SFS_BLOCKSIZE in *. lia. }
  { rewrite Hfl, Hsz. unfold SFS_BLOCKBITS, SFS_BLOCKSIZE, BLOCK. zlia. }
  run. eexists _, _. split; [done|]. unfold set_freemap, set_device. cbn [super sfs_superdirty sfs_device sfs_vnodes sfs_freemap sfs_freemapdirty vnodes warnings] in *.
  rewrite Z2Nat.id, Z.add_0_r, Im, Hnb, Hsz by lia. cbn [take app].
  assert (forall b, 0 <= b < SFS_BITMAPSIZE n -> Bitmap.bit (Bitmap.mk_bitmap (SFS_BITBLOCKS n * SFS_BLOCKBITS) (sub buf 0 (SFS_BITBLOCKS n * BLOCK))) b
    = reserved_bits n b) as Hbit by (intros b Hb; apply bit_sub; [done|lia|lia]).
  split; unfold used, dblock, nblocks; cbn [super sfs_device sfs_freemap].
  - split; unfold used, nblocks; cbn [super sfs_device sfs_freemap Bitmap.nbits]; [done|done|by eapply sub_map_wf; [|lia]|change (sp_nblocks _) with n; lia..| |].
    + change (sp_nblocks _) with n. intros b Hb. rewrite Hbit by lia. unfold reserved_bits. repeat case_bool; done || lia.
    + rewrite Hbit by lia. unfold reserved_bits, SFS_MAP_LOCATION. repeat case_bool; done || lia.
  - unfold sfs_getvolname. cbn [super fresh_super sp_volname]. unfold strlen, SFS_VOLNAME_SIZE in *.
    replace (Z.to_nat (32 - Z.of_nat (length vol))) with (S (Z.to_nat (31 - Z.of_nat (length vol)))) by lia. by apply cstr_padded.
  - done.
  - intros b Hb. rewrite Hbit by lia. unfold reserved_bits. repeat case_bool; done || lia.
  - rewrite Hbl2, Hbl, Hh by (unfold SFS_ROOT_LOCATION; lia). change (SFS_ROOT_LOCATION * BLOCK) with BLOCK. by rewrite Ir, Ei.
  - apply root_empty.
  - apply root_empty.
Qed.

(** C6. The filesystem that [mksfs] writes is the one the kernel mounts.  On a disk of
    3 to 131072 blocks, with a volume name of less than 32 characters that may end in a
    colon, and write calls that each take any part of a block or are interrupted any
    number of times, the program succeeds and leaves the blocks behind its own alone.
    A kernel whose device holds these bytes mounts them without an error.  Then the
    invariant of the filesystem holds, the volume has the given name, exactly the
    superblock, the root and the free map are in use, and the root is an empty
    directory. *)
Theorem mksfs_mounts d n name vol : (name = vol \/ name = vol ++ [COLON]) ->
  Forall (fun c => c <> 0) vol -> COLON ∉ vol -> SLASH ∉ vol -> strlen vol < SFS_VOLNAME_SIZE ->
  3 <= n <= MAXBITS -> patient (script d) -> BLOCK * (SFS_MAP_LOCATION + SFS_BITBLOCKS n) <= takes (script d) ->
  exists d', mksfs (Some (n * BLOCK)) true d name = Done (d', Some tt) /\
    (forall x, (SFS_MAP_LOCATION + SFS_BITBLOCKS n) * BLOCK <= x -> bytes d' x = bytes d x) /\
    forall dv : D, dev_inv dv -> reliable dv -> d_blocksize dv = SFS_BLOCKSIZE -> d_blocks dv = n -> holds dv (bytes d') ->
      exists dv' f, sfs_domount (fun _ => true) dv = Done (dv', Ok f) /\ fresh_fs f vol n.
Proof.
  intros Hname Hnz Hc Hs Hl Hn Hp Ht.
  destruct (mksfs_image d n name vol) as (d' & E & Him & Hout); [done|done|by apply clean_name_spec|done|done|].
  exists d'. split; [done|]. split; [done|]. intros dv Hd Hr Hbs Hbl Hh. by apply (mount_image dv (bytes d')).
Qed.

End mount.

(** The superblock and an inode that are written to the disk are read back as they
    were, and each fills its block. *)
Theorem sfs_disk_roundtrip s i : super_wf s -> inode_wf i ->
  (length (enc_super s) = Z.to_nat BLOCK /\ dec_super (enc_super s) = s) /\
  length (enc_inode i) = Z.to_nat BLOCK /\ dec_inode (enc_inode i) = i.
Proof. intros Hs Hi. split; [by apply dec_enc_super|by apply dec_enc_inode]. Qed.

(** ** Witnesses *)

(** The disk at the end. *)
Definition made (d : disk) (m : exec (disk * option unit)) : disk := match m with Done (d', _) => d' | Halt _ => d end.

(** A disk of 40 blocks, written a byte at a time, with interruptions. *)
Definition ex_script : list io := replicate 10 Again ++ replicate 1536 (Wrote 1).
Definition ex_empty : disk := mk_disk (fun _ => 85) ex_script.
Definition ex_made : disk := made ex_empty (mksfs (Some 20480) true ex_empty [118; 58]).

(** The disk drive of 40 sectors that holds [g]. *)
Definition drive (g : Z -> Z) : Lhd.lhd :=
  Lhd.mk_lhd 40 (fun b => bytes_at g (b * BLOCK) BLOCK) (fun _ => Lhd.LHD_OK) (fun a _ => a) 0 (replicate 512 0) (Ok tt) 1 0.

#[local] Existing Instances Lhd.lhd_dev Lhd.lhd_dev_ok.

Lemma drive_ok g : dev_inv (drive g) /\ reliable (drive g) /\ holds (drive g) g.
Proof. split; [split; cbn; done || (intros; apply length_bytes_at)|done]. Qed.

Lemma mksfs_mounts_witness : exists dv' f, sfs_domount (fun _ => true) (drive (bytes ex_made)) = Done (dv', Ok f) /\ fresh_fs f [118] 40.
Proof.
  destruct (mksfs_mounts (D := Lhd.lhd) ex_empty 40 [118; 58] [118]) as (d' & E & _ & Hm).
  - by right.
  - by repeat constructor.
  - by intros H%list_elem_of_singleton.
  - by intros H%list_elem_of_singleton.
  - done.
  - done.
  - apply Forall_app. split; by apply Forall_replicate.
  - vm_compute. done.
  - assert (ex_made = d') as Ed by (unfold ex_made; change 20480 with (40 * BLOCK); rewrite E; reflexivity).
    rewrite Ed. destruct (drive_ok (bytes d')) as (H1 & H2 & H3). by apply Hm.
Defined.

Lemma sfs_disk_roundtrip_witness : dec_inode (enc_inode root_inode) = root_inode.
Proof.
  apply (sfs_disk_roundtrip (fresh_super [118] 40) root_inode); [apply fresh_super_wf; done|apply root_inode_wf].
Defined.

End Mksfs.
