(* ===== verification/Malloc.v ===== *)
(** * The allocator of the C library ([lib/libc/malloc.c])

    [malloc] and [free] for user programs: a first-fit allocator whose heap is a row of
    blocks, each with a header of two words that holds the distances to the headers
    before and after it.

    The memory of the program is kept by words, at addresses that are multiples of 4.
    An access outside of it is [Undefined].  [errx] ends the program; here that is
    [Panic].  [sbrk] is a system call: what it does is the class [Sbrk], what its manual
    page promises is [SbrkOk]. *)

From Stdlib Require Import ZArith Lia Bool Sorted.
From stdpp Require Import base list numbers.
From S2P Require Import Prelude.

(** The state behind the system call, the break, and [sbrk]; [None] is [(void * )-1]. *)
Class Sbrk (Sys : Type) := {
  brk : Sys -> Z;
  sbrk : Sys -> Z -> Sys * option Z
}.

Class SbrkOk (Sys : Type) {SB : Sbrk Sys} := {
  brk_range o : 0 < brk o <= 2 ^ 31;
  sbrk_now o : sbrk o 0 = (o, Some (brk o));
  sbrk_more o n : 0 <= n -> brk (fst (sbrk o n)) =
    match snd (sbrk o n) with Some _ => brk o + n | None => brk o end;
  sbrk_old o n x : 0 <= n -> snd (sbrk o n) = Some x -> x = brk o
}.

Module Malloc.

Definition MBLOCKSIZE : Z := 8.
Definition MMAGIC : Z := 2.
Definition DEADBEEF : Z := 0xdeadbeef.

(** ** The header

    The first word has [mh_prevblock] in its upper 29 bits, then [mh_pad] and
    [mh_magic1]; the second [mh_nextblock], [mh_inuse] and [mh_magic2]. *)

Definition block (w : Z) : Z := w / 8.
Definition flag (w : Z) : Z := w / 4 mod 2.
Definition magic (w : Z) : Z := w mod 4.
Definition set_block (w x : Z) : Z := x mod 2 ^ 29 * 8 + w mod 8.
Definition set_flag (w x : Z) : Z := w / 8 * 8 + x mod 2 * 4 + w mod 4.
Definition set_magic (w x : Z) : Z := w / 4 * 4 + x mod 4.

(** [M_NEXTOFF] and [M_PREVOFF], [M_SIZE], [M_MKFIELD] *)
Definition M_OFF (w : Z) : Z := u32 (Z.shiftl (block w) 3).
Definition M_SIZE (w : Z) : Z := u32 (M_OFF w - MBLOCKSIZE).
Definition M_MKFIELD (off : Z) : Z := Z.shiftr off 3.
Definition M_DATA (mh : Z) : Z := u32 (mh + MBLOCKSIZE).

Section malloc.
Context {Sys : Type} {SB : Sbrk Sys}.

Record uheap : Type := mk_uheap { heapbase : Z; heaptop : Z; words : Z -> Z; os : Sys }.

Definition ld (h : uheap) (a : Z) : exec Z :=
  if (0 <? a) && (a + 4 <=? brk (os h)) && (a mod 4 =? 0) then Done (words h a) else Halt Undefined.

Definition wset (w : Z -> Z) (a v x : Z) : Z := if x =? a then v else w x.

Definition st (h : uheap) (a v : Z) : exec uheap :=
  if (0 <? a) && (a + 4 <=? brk (os h)) && (a mod 4 =? 0) then
    Done (mk_uheap (heapbase h) (heaptop h) (wset (words h) a v) (os h))
  else Halt Undefined.

(** An assignment to a field of the word at [a]. *)
Definition upd (h : uheap) (a : Z) (g : Z -> Z) : exec uheap := w ← ld h a; st h a (g w).

Definition M_OK (h : uheap) (mh : Z) : exec bool :=
  w1 ← ld h mh; w2 ← ld h (mh + 4); Done ((magic w1 =? MMAGIC) && (magic w2 =? MMAGIC)).

Definition M_NEXT (h : uheap) (mh : Z) : exec Z := w ← ld h (mh + 4); Done (u32 (mh + M_OFF w)).
Definition M_PREV (h : uheap) (mh : Z) : exec Z := w ← ld h mh; Done (u32 (mh - M_OFF w)).

(** ** [malloc] *)

Definition malloc_init (h : uheap) : exec uheap :=
  if negb (heapbase h =? 0) || negb (heaptop h =? 0) then Halt Panic
  else
    let '(o1, x) := sbrk (os h) 0 in
    match x with
    | None => Halt Panic
    | Some x =>
        if x =? 0 then Halt Panic
        else if negb (x mod MBLOCKSIZE =? 0) then
          let adjust := MBLOCKSIZE - x mod MBLOCKSIZE in
          let '(o2, y) := sbrk o1 adjust in
          match y with
          | None => Halt Panic
          | Some y => if negb (y =? x) then Halt Panic else Done (mk_uheap (u32 (x + adjust)) (u32 (x + adjust)) (words h) o2)
          end
        else Done (mk_uheap x x (words h) o1)
    end.

(** The argument of [sbrk] is signed. *)
Definition malloc_sbrk (h : uheap) (size : Z) : exec (uheap * option Z) :=
  let '(o1, x) := sbrk (os h) (s32 size) in
  match x with
  | None => Done (mk_uheap (heapbase h) (heaptop h) (words h) o1, None)
  | Some x =>
      if negb (x =? heaptop h) then Halt Panic
      else Done (mk_uheap (heapbase h) (u32 (heaptop h + size)) (words h) o1, Some x)
  end.

(** The new header between [mh] and [mhnext]. *)
Definition new_header (h : uheap) (mhnew prev next : Z) : exec uheap :=
  h ← upd h mhnew (fun w => set_block w prev);
  h ← upd h mhnew (fun w => set_flag w 0);
  h ← upd h mhnew (fun w => set_magic w MMAGIC);
  h ← upd h (mhnew + 4) (fun w => set_block w next);
  h ← upd h (mhnew + 4) (fun w => set_flag w 0);
  upd h (mhnew + 4) (fun w => set_magic w MMAGIC).

Definition malloc_split (h : uheap) (mh size : Z) : exec uheap :=
  if negb (size mod MBLOCKSIZE =? 0) then Halt Panic
  else
    w ← ld h (mh + 4);
    if u32 (M_SIZE w - size) <? 2 * MBLOCKSIZE then Done h
    else
      mhnext ← M_NEXT h mh;
      let oldsize := M_SIZE w in
      h ← upd h (mh + 4) (fun w => set_block w (M_MKFIELD (u32 (size + MBLOCKSIZE))));
      mhnew ← M_NEXT h mh;
      if mhnew =? mhnext then Halt Panic
      else
        h ← new_header h mhnew (M_MKFIELD (u32 (size + MBLOCKSIZE))) (M_MKFIELD (u32 (oldsize - size)));
        if negb (mhnext =? heaptop h) then
          wn ← ld h (mhnew + 4); upd h mhnext (fun w => set_block w (block wn))
        else Done h.

(** The search: the data of the block it takes, or where it ended and [rightprevblock]. *)
Inductive search_result : Set := Hit (p : Z) | Miss (i rightprevblock : Z).

Definition take_block (h : uheap) (mh size : Z) : exec (uheap * search_result) :=
  h ← malloc_split h mh size;
  h ← upd h (mh + 4) (fun w => set_flag w 1);
  Done (h, Hit (M_DATA mh)).

Fixpoint search (fuel : nat) (h : uheap) (i rightprevblock size : Z) : exec (uheap * search_result) :=
  match fuel with
  | O => Halt Fuel
  | S fuel' =>
      if i <? heaptop h then
        ok ← M_OK h i;
        if negb ok then Halt Panic
        else
          w1 ← ld h i;
          w2 ← ld h (i + 4);
          if negb (block w1 =? rightprevblock) then Halt Panic
          else if negb (flag w2 =? 0) then search fuel' h (u32 (i + M_OFF w2)) (block w2) size
          else if M_SIZE w2 <? size then search fuel' h (u32 (i + M_OFF w2)) (block w2) size
          else take_block h i size
      else Done (h, Miss i rightprevblock)
  end.

(** [size] rounded up to blocks *)
Definition round_size (size : Z) : Z := Z.ldiff (u32 (size + (MBLOCKSIZE - 1))) (MBLOCKSIZE - 1).

(** A new block at the top. *)
Definition expand (h : uheap) (rightprevblock size : Z) : exec (uheap * Z) :=
  '(h, x) ← malloc_sbrk h (u32 (size + MBLOCKSIZE));
  match x with
  | None => Done (h, 0)
  | Some mh =>
      h ← upd h mh (fun w => set_block w rightprevblock);
      h ← upd h mh (fun w => set_magic w MMAGIC);
      h ← upd h (mh + 4) (fun w => set_magic w MMAGIC);
      h ← upd h mh (fun w => set_flag w 0);
      h ← upd h (mh + 4) (fun w => set_flag w 1);
      h ← upd h (mh + 4) (fun w => set_block w (M_MKFIELD (u32 (size + MBLOCKSIZE))));
      Done (h, M_DATA mh)
  end.

Definition corrupt (h : uheap) : bool := (heapbase h =? 0) || (heaptop h =? 0) || (heapbase h >? heaptop h).

(** No block is smaller than a header, which bounds the search. *)
Definition search_fuel (h : uheap) : nat := S (Z.to_nat ((heaptop h - heapbase h) / MBLOCKSIZE)).

(** The result 0 is NULL. *)
Definition malloc (h : uheap) (size : Z) : exec (uheap * Z) :=
  h ← (if heapbase h =? 0 then malloc_init h else Done h);
  if corrupt h then Halt Panic
  else
    let size := round_size size in
    '(h, r) ← search (search_fuel h) h (heapbase h) 0 size;
    match r with
    | Hit p => Done (h, p)
    | Miss i rightprevblock =>
        if negb (i =? heaptop h) then Halt Panic else expand h rightprevblock size
    end.

(** ** [free] *)

Fixpoint deadbeef_loop (n : nat) (h : uheap) (x : Z) : exec uheap :=
  match n with O => Done h | S n' => h ← st h x DEADBEEF; deadbeef_loop n' h (x + 4) end.

Definition malloc_deadbeef (h : uheap) (ptr size : Z) : exec uheap := deadbeef_loop (Z.to_nat (size / 4)) h ptr.

Definition malloc_trymerge (h : uheap) (mh mhnext : Z) : exec uheap :=
  a ← ld h (mh + 4);
  b ← ld h mhnext;
  if negb (block a =? block b) then Halt Panic
  else
    c ← ld h (mhnext + 4);
    if negb (flag a =? 0) || negb (flag c =? 0) then Done h
    else
      mhnextnext ← M_NEXT h mhnext;
      h ← upd h (mh + 4) (fun w => set_block w (M_MKFIELD (u32 (MBLOCKSIZE + M_SIZE a + MBLOCKSIZE + M_SIZE c))));
      h ← (if negb (mhnextnext =? heaptop h) then
             a' ← ld h (mh + 4); upd h mhnextnext (fun w => set_block w (block a'))
           else Done h);
      malloc_deadbeef h mhnext MBLOCKSIZE.

(** The block is marked free and wiped. *)
Definition wipe (h : uheap) (mh : Z) : exec uheap :=
  h ← upd h (mh + 4) (fun w => set_flag w 0);
  w ← ld h (mh + 4);
  malloc_deadbeef h (M_DATA mh) (M_SIZE w).

(** It is merged with the block above, but not at the top. *)
Definition merge_above (h : uheap) (mh : Z) : exec uheap :=
  mhnext ← M_NEXT h mh;
  if negb (mhnext =? heaptop h) then malloc_trymerge h mh mhnext else Done h.

Definition free (h : uheap) (x : Z) : exec uheap :=
  if x =? 0 then Done h
  else if corrupt h then Halt Panic
  else if (x <? heapbase h) || (x >=? heaptop h) then Halt Panic
  else
    let mh := u32 (x - MBLOCKSIZE) in
    ok ← M_OK h mh;
    if negb ok then Halt Panic
    else
      w ← ld h (mh + 4);
      if flag w =? 0 then Halt Panic
      else
        h ← wipe h mh;
        h ← merge_above h mh;
        if negb (mh =? heapbase h) then
          mhprev ← M_PREV h mh; malloc_trymerge h mhprev mh
        else Done h.

End malloc.

Arguments uheap Sys : clear implicits.

(** ** Headers *)

(** The word of a header with the offset [n] and the flag [f]. *)
Definition hw (n : Z) (f : bool) : Z := n + Z.b2z f * 4 + 2.

Definition offset_ok (n : Z) : Prop := n mod 8 = 0 /\ 0 <= n < 2 ^ 32.

Ltac hw_arith := intros; unfold MMAGIC, offset_ok, hw, block, flag, magic, set_block, set_flag, set_magic, M_MKFIELD in *; cbn [Z.b2z] in *;
  rewrite ?Z.shiftr_div_pow2 by lia; change (2 ^ 3) with 8; change (2 ^ 29) with 536870912; change (2 ^ 32) with 4294967296 in *; zlia.

Lemma hw_magic n f : offset_ok n -> magic (hw n f) = MMAGIC.
Proof. destruct f; hw_arith. Qed.

Lemma hw_block n f : offset_ok n -> block (hw n f) = M_MKFIELD n.
Proof. destruct f; hw_arith. Qed.

Lemma hw_flag n f : offset_ok n -> flag (hw n f) = Z.b2z f.
Proof. destruct f; hw_arith. Qed.

Lemma hw_set_flag n f f' : offset_ok n -> set_flag (hw n f) (Z.b2z f') = hw n f'.
Proof. destruct f, f'; hw_arith. Qed.

Lemma hw_set_block n f m : offset_ok n -> offset_ok m -> set_block (hw n f) (M_MKFIELD m) = hw m f.
Proof. destruct f; hw_arith. Qed.

Lemma hw_off n f : offset_ok n -> M_OFF (hw n f) = n.
Proof.
  intros Hn. unfold M_OFF. rewrite hw_block by done. unfold M_MKFIELD. rewrite Z.shiftl_mul_pow2, Z.shiftr_div_pow2 by lia.
  destruct Hn as [Hm Hr]. rewrite u32_small by (change (2 ^ 3) with 8; zlia). change (2 ^ 3) with 8. zlia.
Qed.

Lemma hw_size n f : offset_ok n -> 8 <= n -> M_SIZE (hw n f) = n - 8.
Proof. intros Hn H8. unfold M_SIZE, MBLOCKSIZE. rewrite hw_off by done. destruct Hn. apply u32_small. lia. Qed.

Lemma fresh_word1 w n : offset_ok n -> set_magic (set_flag (set_block w (M_MKFIELD n)) 0) MMAGIC = hw n false.
Proof. hw_arith. Qed.

Lemma fresh_word2 w n : offset_ok n -> set_flag (set_magic (set_block w (M_MKFIELD n)) MMAGIC) 0 = hw n false.
Proof. hw_arith. Qed.

Lemma fresh_word3 w n : offset_ok n -> set_block (set_flag (set_magic w MMAGIC) 1) (M_MKFIELD n) = hw n true.
Proof. hw_arith. Qed.

(** ** The heap as a row of blocks *)

(** A block of [bsz] bytes with its header. *)
Record blk : Type := mk_blk { bsz : Z; bused : bool }.

Fixpoint total (bl : list blk) : Z := match bl with [] => 0 | b :: bl' => bsz b + total bl' end.
Fixpoint lastsz (prev : Z) (bl : list blk) : Z := match bl with [] => prev | b :: bl' => lastsz (bsz b) bl' end.

Definition blk_ok (b : blk) : Prop := offset_ok (bsz b) /\ 8 <= bsz b.

Definition header (w : Z -> Z) (a prev : Z) (b : blk) : Prop := w a = hw prev false /\ w (a + 4) = hw (bsz b) (bused b).

(** The memory [w] holds the headers of [bl] from [a] on; before them is a block of
    [prev] bytes. *)
Fixpoint chain (w : Z -> Z) (a prev : Z) (bl : list blk) : Prop :=
  match bl with
  | [] => True
  | b :: bl' => blk_ok b /\ header w a prev b /\ chain w (a + bsz b) (bsz b) bl'
  end.

(** The blocks in use: their data and size. *)
Fixpoint live (a : Z) (bl : list blk) : list (Z * Z) :=
  match bl with
  | [] => []
  | b :: bl' => (if bused b then [(a + 8, bsz b - 8)] else []) ++ live (a + bsz b) bl'
  end.

Definition in_live (a : Z) (bl : list blk) (x : Z) : Prop := Exists (fun '(q, n) => q <= x < q + n) (live a bl).

(** No two free blocks lie side by side. *)
Fixpoint merged (bl : list blk) : Prop :=
  match bl with
  | [] => True
  | b :: bl' => match bl' with c :: _ => bused b || bused c = true | [] => True end /\ merged bl'
  end.

Lemma total_app l1 l2 : total (l1 ++ l2) = total l1 + total l2.
Proof. induction l1 as [|b l1 IH]; cbn [total app]; [|rewrite IH]; lia. Qed.

Lemma chain_app w a prev l1 l2 : chain w a prev (l1 ++ l2) <-> chain w a prev l1 /\ chain w (a + total l1) (lastsz prev l1) l2.
Proof.
  revert a prev. induction l1 as [|b l1 IH]; intros a prev; cbn [chain total lastsz app].
  - rewrite Z.add_0_r. tauto.
  - rewrite IH, Z.add_assoc. tauto.
Qed.

Lemma live_app a l1 l2 : live a (l1 ++ l2) = live a l1 ++ live (a + total l1) l2.
Proof.
  revert a. induction l1 as [|b l1 IH]; intros a; cbn [live total app]; [by rewrite Z.add_0_r|].
  by rewrite IH, Z.add_assoc, app_assoc.
Qed.

Lemma in_live_app a l1 l2 x : in_live a (l1 ++ l2) x <-> in_live a l1 x \/ in_live (a + total l1) l2 x.
Proof. unfold in_live. by rewrite live_app, Exists_app. Qed.

Lemma in_live_cons a b bl x : in_live a (b :: bl) x <-> (bused b = true /\ a + 8 <= x < a + bsz b) \/ in_live (a + bsz b) bl x.
Proof.
  unfold in_live. cbn [live]. rewrite Exists_app. destruct (bused b).
  - rewrite Exists_cons, Exists_nil. intuition lia.
  - rewrite Exists_nil. intuition done.
Qed.

Lemma chain_total w a prev bl : chain w a prev bl -> 8 * Z.of_nat (length bl) <= total bl /\ total bl mod 8 = 0.
Proof.
  revert a prev. induction bl as [|b bl IH]; intros a prev; cbn [chain total length]; [done|].
  intros ([[Hm _] H8] & _ & Hc). destruct (IH _ _ Hc). split; [lia|]. rewrite Z.add_mod, Hm by lia. rewrite H0. done.
Qed.

Lemma live_range w a prev bl x : chain w a prev bl -> in_live a bl x -> a + 8 <= x < a + total bl.
Proof.
  revert a prev. induction bl as [|b bl IH]; intros a prev; cbn [chain total].
  - intros _ Hx. by apply Exists_nil in Hx.
  - intros ([_ H8] & _ & Hc) [[_ Hx]|Hx]%in_live_cons; [|specialize (IH _ _ Hc Hx); lia].
    destruct (chain_total _ _ _ _ Hc). lia.
Qed.

(** Only the headers matter. *)
Lemma blocks_ext w w' a prev bl : chain w a prev bl -> (forall x, a <= x < a + total bl -> w' x = w x) -> chain w' a prev bl.
Proof.
  revert a prev. induction bl as [|b bl IH]; intros a prev; cbn [chain total]; [done|].
  intros ([Ho H8] & [Hh1 Hh2] & Hc) Hw. destruct (chain_total _ _ _ _ Hc). split; [done|]. split.
  - split; rewrite Hw by lia; done.
  - apply IH; [done|]. intros x Hx. apply Hw. lia.
Qed.

Lemma lastsz_ok w a prev bl : chain w a prev bl -> offset_ok prev -> offset_ok (lastsz prev bl).
Proof.
  revert a prev. induction bl as [|b bl IH]; intros a prev; cbn [chain lastsz]; [done|].
  intros ([Ho H8] & _ & Hc) _. by eapply IH.
Qed.

(** ** The specification: first fit on the row of blocks *)

(** [size] bytes of a free block. *)
Definition cut (size : Z) (b : blk) : list blk :=
  if bsz b - 8 - size <? 16 then [mk_blk (bsz b) true] else [mk_blk (size + 8) true; mk_blk (bsz b - 8 - size) false].

(** The first free block that is large enough, with what lies before and after it. *)
Fixpoint fit (size : Z) (bl : list blk) : option (list blk * blk * list blk) :=
  match bl with
  | [] => None
  | b :: bl' =>
      if negb (bused b) && (size <=? bsz b - 8) then Some ([], b, bl')
      else match fit size bl' with Some (l1, c, l2) => Some (b :: l1, c, l2) | None => None end
  end.

Definition alloc_blocks (size : Z) (bl : list blk) : list blk :=
  match fit size bl with
  | Some (l1, b, l2) => l1 ++ cut size b ++ l2
  | None => bl ++ [mk_blk (size + 8) true]
  end.

Lemma fit_spec size bl l1 b l2 : fit size bl = Some (l1, b, l2) -> bl = l1 ++ b :: l2 /\ bused b = false /\ size <= bsz b - 8.
Proof.
  revert l1. induction bl as [|c bl IH]; intros l1; cbn [fit]; [done|].
  destruct (bused c) eqn:Eu; cbn [negb andb]; [|case_bool].
  - destruct (fit size bl) as [[[k1 d] k2]|]; [|done]. intros [= <- -> ->]. by destruct (IH k1) as (-> & ? & ?).
  - intros [= <- <- <-]. done.
  - destruct (fit size bl) as [[[k1 d] k2]|]; [|done]. intros [= <- -> ->]. by destruct (IH k1) as (-> & ? & ?).
Qed.

(** What meets at a border. *)
Definition border (b : option blk) (c : option blk) : Prop :=
  match b, c with Some b, Some c => bused b || bused c = true | _, _ => True end.

Lemma merged_cons b bl : merged (b :: bl) <-> border (Some b) (list.head bl) /\ merged bl.
Proof. cbn [merged]. by destruct bl. Qed.

Lemma merged_app l1 l2 : merged (l1 ++ l2) <-> merged l1 /\ merged l2 /\ border (list.last l1) (list.head l2).
Proof.
  induction l1 as [|b l1 IH]; [cbn; tauto|]. rewrite <- app_comm_cons, !merged_cons, IH. destruct l1 as [|c l1].
  - cbn. tauto.
  - rewrite list.last_cons_cons. cbn [app list.head]. tauto.
Qed.

Lemma merged_cut l1 b l2 size : merged (l1 ++ b :: l2) -> bused b = false -> merged (l1 ++ cut size b ++ l2).
Proof.
  intros (H1 & [H2 H3]%merged_cons & H4)%merged_app Hf. cbn [list.head] in H4.
  assert (border (Some (mk_blk 0 true)) (list.head l2)) as Hb by (by destruct (list.head l2)).
  apply merged_app. split; [done|]. split; [|unfold cut; case_bool; cbn; destruct (list.last l1); cbn; rewrite ?orb_true_r; done].
  unfold cut. case_bool; cbn [app].
  - apply merged_cons. split; [by destruct (list.head l2)|done].
  - apply merged_cons. split; [done|]. apply merged_cons. split; [|done]. unfold border in *. destruct (list.head l2); [|done]. by rewrite Hf in H2.
Qed.

(** A free block is joined with a free block behind it. *)
Definition join (b : blk) (l : list blk) : list blk :=
  match l with
  | c :: s => if bused b || bused c then b :: l else mk_blk (bsz b + bsz c) false :: s
  | [] => [b]
  end.

(** The blocks when [b], which lies between [l1] and [l2], is given back. *)
Fixpoint release (l1 : list blk) (b : blk) (l2 : list blk) : list blk :=
  match l1 with
  | [] => join (mk_blk (bsz b) false) l2
  | d :: l1' => match l1' with [] => join d (join (mk_blk (bsz b) false) l2) | _ => d :: release l1' b l2 end
  end.

Lemma release_snoc l d b l2 : release (l ++ [d]) b l2 = l ++ join d (join (mk_blk (bsz b) false) l2).
Proof. induction l as [|c l IH]; [done|]. cbn [app]. rewrite <- IH. cbn [release]. by destruct l. Qed.

Lemma join_total b l : total (join b l) = bsz b + total l.
Proof. destruct l as [|c l]; [done|]. cbn [join]. destruct (bused b || bused c); cbn [total bsz]; lia. Qed.

Lemma join_live a b l : live a (join b l) = live a (b :: l).
Proof.
  destruct l as [|c l]; [done|]. cbn [join]. destruct (bused b) eqn:Eb, (bused c) eqn:Ec; cbn [orb live bused bsz]; rewrite ?Eb, ?Ec; cbn [app]; try done.
  by rewrite Z.add_assoc.
Qed.

Lemma join_merged b l : merged l -> match l with c :: s => border (Some (mk_blk 0 (bused b || bused c))) (list.head s) | [] => True end -> merged (join b l).
Proof.
  destruct l as [|c l]; [done|]. intros [H1 H2]%merged_cons Hb. cbn [join]. destruct (bused b || bused c) eqn:E.
  - apply merged_cons. split; [done|]. by apply merged_cons.
  - apply merged_cons. split; [|done]. by destruct (list.head l).
Qed.

Lemma release_live a l1 b l2 : live a (release l1 b l2) = live a l1 ++ live (a + total l1 + bsz b) l2.
Proof.
  destruct l1 as [|d l _] using rev_ind; cbn [release].
  - rewrite join_live. cbn [live bused bsz total]. by rewrite Z.add_0_r.
  - rewrite release_snoc, live_app, join_live. cbn [live]. rewrite join_live, live_app, total_app. cbn [live bused bsz total app].
    rewrite app_nil_r, <- !app_assoc. do 3 f_equal. lia.
Qed.

Lemma join_cons b l : exists b' l', join b l = b' :: l' /\ bused b' = bused b.
Proof.
  destruct l as [|c l]; [by eexists _, _|]. cbn [join]. destruct (bused b) eqn:E; [by eexists _, _|].
  destruct (bused c); cbn [orb]; by eexists _, _.
Qed.

Lemma release_merged l1 b l2 : merged (l1 ++ b :: l2) -> merged (release l1 b l2).
Proof.
  intros (H1 & [H2 H3]%merged_cons & H4)%merged_app.
  assert (merged (join (mk_blk (bsz b) false) l2)) as Hj.
  { apply join_merged; [done|]. destruct l2 as [|c s]; [done|]. apply merged_cons in H3 as [H3 _]. by destruct (list.head s). }
  destruct l1 as [|d l _] using rev_ind; [done|]. rewrite release_snoc.
  destruct (join_cons (mk_blk (bsz b) false) l2) as (b' & s & Ej & Hb'). rewrite Ej in *. cbn [bused] in Hb'.
  apply merged_app in H1 as (H1 & _ & H5). apply merged_app. split_and!; [done| |].
  - apply join_merged; [done|]. apply merged_cons in Hj as [Hj _]. destruct (list.head s); [|done]. cbn in *. rewrite Hb' in *. cbn in Hj. by rewrite Hj, orb_true_r.
  - destruct (join_cons d (b' :: s)) as (d' & s' & -> & Hd'). cbn in *. destruct (list.last l); [|done]. cbn in *. by rewrite Hd'.
Qed.

(** Blocks in use lie apart, in order of their addresses. *)
Definition apart (l : list (Z * Z)) : Prop := StronglySorted (fun x y => x.1 + x.2 + 8 <= y.1) l.

Lemma live_above w a prev bl : chain w a prev bl -> Forall (fun y => a + 8 <= y.1) (live a bl).
Proof.
  revert a prev. induction bl as [|b bl IH]; intros a prev; cbn [chain live]; [constructor|]. intros ([_ H8] & _ & Hc). apply Forall_app. split.
  - destruct (bused b); repeat constructor. done.
  - eapply list.Forall_impl; [by eapply IH|]. intros y Hy. cbn beta in Hy. lia.
Qed.

Lemma live_apart w a prev bl : chain w a prev bl -> apart (live a bl).
Proof.
  revert a prev. induction bl as [|b bl IH]; intros a prev; cbn [chain live]; [constructor|]. intros ([_ H8] & _ & Hc).
  destruct (bused b); cbn [app]; [|by eapply IH]. constructor; [by eapply IH|].
  eapply list.Forall_impl; [by eapply live_above|]. intros y Hy. cbn [fst snd] in *. lia.
Qed.

Section laws.
Context {Sys : Type} {SB : Sbrk Sys} {SBOk : SbrkOk Sys}.
Implicit Types (h : uheap Sys).

Definition put h (a v : Z) : uheap Sys := mk_uheap (heapbase h) (heaptop h) (wset (words h) a v) (os h).

(** A word of the heap. *)
Definition mapped h (a : Z) : Prop := 0 < a /\ a mod 4 = 0 /\ a + 4 <= brk (os h).

Lemma ld_ok h a : mapped h a -> ld h a = Done (words h a).
Proof. intros (H0 & Hm & Hb). unfold ld. rewrite Hm. repeat case_bool. done. Qed.

Lemma st_ok h a v : mapped h a -> st h a v = Done (put h a v).
Proof. intros (H0 & Hm & Hb). unfold st. rewrite Hm. repeat case_bool. done. Qed.

Lemma upd_ok h a g : mapped h a -> upd h a g = Done (put h a (g (words h a))).
Proof. intros H. unfold upd. rewrite ld_ok by done. run. by apply st_ok. Qed.

Lemma wset_eq w a v : wset w a v a = v.
Proof. unfold wset. by rewrite Z.eqb_refl. Qed.

Lemma wset_ne w a v x : x <> a -> wset w a v x = w x.
Proof. intros. unfold wset. by case_bool. Qed.

(** The heap apart from its words. *)
Record same h h' : Prop := {
  sm_base : heapbase h' = heapbase h;
  sm_top : heaptop h' = heaptop h;
  sm_os : os h' = os h
}.

Ltac wsimpl := cbn [put words heapbase heaptop os]; repeat (rewrite wset_eq || rewrite wset_ne by lia).

Lemma new_header_ok h m prev next : mapped h m -> mapped h (m + 4) -> offset_ok prev -> offset_ok next ->
  exists h', new_header h m (M_MKFIELD prev) (M_MKFIELD next) = Done h' /\ same h h' /\
    words h' m = hw prev false /\ words h' (m + 4) = hw next false /\ forall x, x <> m -> x <> m + 4 -> words h' x = words h x.
Proof.
  intros Hm1 Hm2 Hp Hn. unfold new_header. rewrite !upd_ok by done. run. rewrite !upd_ok by done. run. rewrite !upd_ok by done. run.
  rewrite !upd_ok by done. run. rewrite !upd_ok by done. run. rewrite upd_ok by done.
  eexists. split; [done|]. split; [done|]. split_and!.
  - wsimpl. by apply fresh_word1.
  - wsimpl. by apply fresh_word1.
  - intros x H1 H2. by wsimpl.
Qed.

(** The block behind is told the new size of the one before it. *)
Lemma relink_ok h n old new s : chain (words h) n old s -> n + total s = heaptop h -> heaptop h = brk (os h) -> 0 < n -> n mod 8 = 0 ->
  offset_ok old -> offset_ok new ->
  exists h', (if negb (n =? heaptop h) then upd h n (fun w => set_block w (M_MKFIELD new)) else Done h) = Done h' /\ same h h' /\
    chain (words h') n new s /\ forall x, x <> n -> words h' x = words h x.
Proof.
  intros Hc Ht Htop Hn Hal Ho Hnew. destruct s as [|b s].
  - cbn [total] in Ht. rewrite Z.add_0_r in Ht. rewrite Ht, Z.eqb_refl. by exists h.
  - cbn [chain total] in *. destruct Hc as (Hb & [Hh1 Hh2] & Hc). destruct (chain_total _ _ _ _ Hc) as [Hl _]. destruct Hb as [Hbo Hb8].
    case_bool. rewrite upd_ok by (unfold mapped; zlia). eexists. split; [done|]. split; [done|]. split.
    + split; [done|]. split; [split|].
      * wsimpl. rewrite Hh1. by apply hw_set_block.
      * by wsimpl.
      * eapply blocks_ext; [done|]. intros x Hx. by wsimpl.
    + intros x Hx. by wsimpl.
Qed.

(** The row of blocks from [a] up to the top of the heap. *)
Definition tail_ok h (a prev : Z) (bl : list blk) : Prop :=
  chain (words h) a prev bl /\ a + total bl = heaptop h /\ heaptop h = brk (os h) /\ 0 < a /\ a mod 8 = 0 /\ offset_ok prev.

(** Nothing below [a] and no data of a block in use has changed. *)
Definition keeps h h' (a : Z) (bl : list blk) : Prop := forall x, x < a \/ in_live a bl x -> words h' x = words h x.

Lemma take_small h a prev b s size : tail_ok h a prev (b :: s) -> bused b = false -> size mod 8 = 0 -> 0 <= size <= bsz b - 8 ->
  bsz b - 8 - size < 16 ->
  exists h', take_block h a size = Done (h', Hit (a + 8)) /\ same h h' /\ tail_ok h' a prev (mk_blk (bsz b) true :: s) /\ keeps h h' a (b :: s).
Proof.
  intros (Hc & Ht & Htop & Ha & Hal & Hp) Hfree Hs Hfit Hsmall. pose proof (brk_range (os h)) as Hbrk. cbn [chain total] in *.
  destruct Hc as ([Hbo Hb8] & [Hh1 Hh2] & Hc). destruct (chain_total _ _ _ _ Hc) as [Hl _]. rewrite Hfree in Hh2.
  unfold take_block, malloc_split, MBLOCKSIZE. rewrite Hs, Z.eqb_refl. run. rewrite ld_ok by (unfold mapped; zlia). run.
  rewrite Hh2, hw_size by done. rewrite u32_small by lia. case_bool. run. rewrite upd_ok by (unfold mapped; zlia). run. rewrite Hh2.
  change 1 with (Z.b2z true). rewrite hw_set_flag by done.
  eexists. split; [unfold M_DATA, MBLOCKSIZE; rewrite u32_small by lia; done|]. split; [done|]. split.
  - split; [|done]. cbn [chain bsz bused]. split; [done|]. split; [split; by wsimpl|]. eapply blocks_ext; [done|]. intros x Hx. by wsimpl.
  - intros x [Hx|[[Hu _]|Hx]%in_live_cons]; [by wsimpl|congruence|]. eapply live_range in Hx; [|done]. by wsimpl.
Qed.

Lemma M_NEXT_ok h a n f : mapped h (a + 4) -> words h (a + 4) = hw n f -> offset_ok n -> 0 <= a + n < 2 ^ 32 -> M_NEXT h a = Done (a + n).
Proof. intros Hm Hw Hn Hr. unfold M_NEXT. rewrite ld_ok by done. run. by rewrite Hw, hw_off, u32_small. Qed.

Lemma same_mapped h h' a : same h h' -> mapped h a -> mapped h' a.
Proof. intros [_ _ E] (H0 & H1 & H2). unfold mapped. by rewrite E. Qed.

Lemma take_split h a prev b s size : tail_ok h a prev (b :: s) -> bused b = false -> size mod 8 = 0 -> 0 <= size ->
  16 <= bsz b - 8 - size ->
  exists h', take_block h a size = Done (h', Hit (a + 8)) /\ same h h' /\
    tail_ok h' a prev (mk_blk (size + 8) true :: mk_blk (bsz b - 8 - size) false :: s) /\ keeps h h' a (b :: s).
Proof.
  intros (Hc & Ht & Htop & Ha & Hal & Hp) Hfree Hs Hs0 Hbig. pose proof (brk_range (os h)) as Hbrk. cbn [chain total] in *.
  destruct Hc as ([Hbo Hb8] & [Hh1 Hh2] & Hc). destruct (chain_total _ _ _ _ Hc) as [Hl _]. rewrite Hfree in Hh2.
  assert (bsz b mod 8 = 0) as Hbm by (by destruct Hbo).
  assert (offset_ok (size + 8)) as Ho1 by (unfold offset_ok; zlia). assert (offset_ok (bsz b - 8 - size)) as Ho2 by (unfold offset_ok; zlia).
  unfold take_block, malloc_split, MBLOCKSIZE. rewrite Hs, Z.eqb_refl. run. rewrite ld_ok by (unfold mapped; zlia). run.
  rewrite Hh2, hw_size by done. rewrite (u32_small (bsz b - 8 - size)), (u32_small (size + 8)) by lia. case_bool. run.
  rewrite (M_NEXT_ok h a (bsz b) false) by (done || lia || unfold mapped; zlia). run. rewrite upd_ok by (unfold mapped; zlia). run.
  rewrite Hh2, hw_set_block by done. set (h1 := put h (a + 4) (hw (size + 8) false)).
  assert (words h1 (a + 4) = hw (size + 8) false) as Hw1 by (unfold h1; by wsimpl).
  rewrite (M_NEXT_ok h1 a (size + 8) false) by (done || lia || unfold mapped; cbn; zlia). run. case_bool. run.
  destruct (new_header_ok h1 (a + (size + 8)) (size + 8) (bsz b - 8 - size)) as (h2 & -> & [B2 T2 O2] & Hn1 & Hn2 & Hn3);
    [unfold mapped; cbn; zlia|unfold mapped; cbn; zlia|done..|]. run. cbn [h1 put heapbase heaptop os words] in B2, T2, O2.
  rewrite ld_ok by (unfold mapped; rewrite O2; zlia). run. rewrite Hn2, hw_block by done.
  destruct (relink_ok h2 (a + bsz b) (bsz b) (bsz b - 8 - size) s) as (h3 & -> & [B3 T3 O3] & Hc3 & Hn4);
    [|rewrite T2; lia|by rewrite T2, O2|lia|zlia|done|done|].
  { eapply blocks_ext; [done|]. intros x Hx. rewrite Hn3 by lia. unfold h1. by wsimpl. }
  run. rewrite upd_ok by (unfold mapped; rewrite O3, O2; zlia). run.
  assert (words h3 (a + 4) = hw (size + 8) false) as -> by (rewrite Hn4, Hn3 by lia; done).
  change 1 with (Z.b2z true). rewrite hw_set_flag by done.
  eexists. split; [unfold M_DATA, MBLOCKSIZE; rewrite u32_small by lia; done|].
  split; [split; cbn [put heapbase heaptop os]; congruence|]. split.
  - split; [|cbn [put heapbase heaptop os total bsz]; rewrite T3, T2, O3, O2; split_and!; done || lia].
    cbn [chain bsz bused]. split; [split; [done|cbn; lia]|]. split.
    { split; [|by wsimpl]. wsimpl. rewrite Hn4, Hn3 by lia. unfold h1. by wsimpl. }
    split; [split; [done|cbn; lia]|]. split; [split; wsimpl; rewrite Hn4 by lia; done|].
    replace (a + (size + 8) + (bsz b - 8 - size)) with (a + bsz b) by lia. eapply blocks_ext; [done|]. intros x Hx. by wsimpl.
  - intros x Hx. assert (x < a \/ a + bsz b + 8 <= x).
    { destruct Hx as [Hx|[[Hu _]|Hx]%in_live_cons]; [lia|congruence|]. eapply live_range in Hx; [|done]. lia. }
    wsimpl. rewrite Hn4, Hn3 by lia. unfold h1. by wsimpl.
Qed.

Lemma take_ok h a prev b s size : tail_ok h a prev (b :: s) -> bused b = false -> size mod 8 = 0 -> 0 <= size <= bsz b - 8 ->
  exists h', take_block h a size = Done (h', Hit (a + 8)) /\ same h h' /\ tail_ok h' a prev (cut size b ++ s) /\ keeps h h' a (b :: s).
Proof.
  intros Ht Hf Hs Hfit. unfold cut. case_bool; [by apply take_small|apply take_split; done || lia].
Qed.

Lemma search_ok fuel h i prev bl size : tail_ok h i prev bl -> (length bl < fuel)%nat ->
  search fuel h i (M_MKFIELD prev) size =
  match fit size bl with
  | None => Done (h, Miss (heaptop h) (M_MKFIELD (lastsz prev bl)))
  | Some (l1, _, _) => take_block h (i + total l1) size
  end.
Proof.
  revert i prev bl. induction fuel as [|fuel IH]; intros i prev bl Ht Hf; [lia|]. pose proof (brk_range (os h)) as Hbrk.
  pose proof Ht as (Hc & Hsum & Htop & Ha & Hal & Hp). cbn [search]. destruct bl as [|b bl]; cbn [chain total fit length lastsz] in *.
  - case_bool. by replace (heaptop h) with i by lia.
  - destruct Hc as ([Hbo Hb8] & [Hh1 Hh2] & Hc). destruct (chain_total _ _ _ _ Hc) as [Hl _].
    replace (i <? heaptop h) with true by lia.
    assert (bsz b mod 8 = 0) as Hbm by (by destruct Hbo).
    unfold M_OK. rewrite !ld_ok by (unfold mapped; zlia). run. rewrite Hh1, Hh2, !hw_magic by done. rewrite Z.eqb_refl. run. rewrite !hw_block by done. rewrite Z.eqb_refl. run.
    rewrite hw_flag, hw_off, hw_size, u32_small by (done || lia). rewrite (IH _ _ bl); [|split; [done|]; split_and!; [lia|done|lia|zlia|done]|lia].
    assert (forall m, match fit size bl with Some (l1, _, _) => take_block h (i + bsz b + total l1) size | None => m end =
      match match fit size bl with Some (l1, c, l2) => Some (b :: l1, c, l2) | None => None end with
      | Some (l1, _, _) => take_block h (i + total l1) size | None => m end) as Hgo
      by (intros m; destruct (fit size bl) as [[[l1 c] l2]|]; cbn [total]; rewrite ?Z.add_assoc; done).
    destruct (bused b); cbn [Z.b2z negb andb Z.eqb]; [apply Hgo|].
    repeat case_bool; [by rewrite Z.add_0_r|apply Hgo].
Qed.

Lemma round_size_eq size : 0 <= size < 2 ^ 32 - 7 -> round_size size = (size + 7) / 8 * 8.
Proof.
  intros Hs. unfold round_size, MBLOCKSIZE. change (8 - 1) with 7. rewrite u32_small by lia.
  change 7 with (Z.ones 3) at 2. rewrite Z.ldiff_ones_r by lia. rewrite Z.shiftl_mul_pow2, Z.shiftr_div_pow2 by lia. done.
Qed.

Lemma tail_snoc h h' a prev bl b : tail_ok h a prev bl -> heaptop h' = heaptop h + bsz b -> heaptop h' = brk (os h') -> blk_ok b ->
  header (words h') (heaptop h) (lastsz prev bl) b -> (forall x, x < heaptop h -> words h' x = words h x) ->
  tail_ok h' a prev (bl ++ [b]) /\ keeps h h' a bl.
Proof.
  intros (Hc & Ht & Htop & Ha & Hal & Hp) Ht' Hb' Hb Hh Hw. split.
  - split; [|rewrite total_app; cbn [total]; split_and!; done || lia]. apply chain_app. split.
    + eapply blocks_ext; [done|]. intros x Hx. apply Hw. lia.
    + rewrite Ht. done.
  - intros x [Hx|Hx]; apply Hw; [destruct (chain_total _ _ _ _ Hc); lia|]. eapply live_range in Hx; [|done]. lia.
Qed.

Lemma expand_ok h a prev bl size : tail_ok h a prev bl -> size mod 8 = 0 -> 0 <= size < 2 ^ 31 - 8 ->
  exists h' p, expand h (M_MKFIELD (lastsz prev bl)) size = Done (h', p) /\ heapbase h' = heapbase h /\
    ((p = 0 /\ snd (sbrk (os h) (size + 8)) = None /\ tail_ok h' a prev bl /\ words h' = words h) \/
     (p = heaptop h + 8 /\ tail_ok h' a prev (bl ++ [mk_blk (size + 8) true]) /\ keeps h h' a bl)).
Proof.
  intros Ht Hs Hr. pose proof Ht as (Hc & Hsum & Htop & Ha & Hal & Hp). pose proof (lastsz_ok _ _ _ _ Hc Hp) as Hlast.
  destruct (chain_total _ _ _ _ Hc) as [Hl Hm]. assert (heaptop h mod 8 = 0) as Hta by zlia.
  assert (offset_ok (size + 8)) as Ho by (unfold offset_ok; zlia).
  unfold expand, malloc_sbrk, MBLOCKSIZE. rewrite u32_small by lia. rewrite s32_small by lia.
  pose proof (sbrk_more (os h) (size + 8) ltac:(lia)) as Hmore. pose proof (sbrk_old (os h) (size + 8)) as Hold.
  destruct (sbrk (os h) (size + 8)) as [o1 [x|]]; cbn [fst snd] in Hmore, Hold.
  2:{ run. eexists _, _. split; [done|]. split; [done|]. left. split_and!; [done|done| |done]. split; [done|]. cbn. split_and!; done || lia. }
  rewrite (Hold x) by (done || lia). rewrite <- Htop, Z.eqb_refl. run. pose proof (brk_range o1) as Hbrk.
  rewrite u32_small by lia. set (h1 := mk_uheap (heapbase h) (heaptop h + (size + 8)) (words h) o1).
  assert (mapped h1 (heaptop h)) as M1 by (unfold mapped; cbn; zlia). assert (mapped h1 (heaptop h + 4)) as M2 by (unfold mapped; cbn; zlia).
  do 6 (rewrite upd_ok by done; run). eexists _, _. split; [done|]. split; [done|]. right.
  split; [unfold M_DATA, MBLOCKSIZE; rewrite u32_small by lia; done|].
  apply (tail_snoc h); [done|done|cbn; lia|split; [done|cbn; lia]|split|].
  - wsimpl. by apply fresh_word2.
  - wsimpl. by apply fresh_word3.
  - intros x0 Hx0. by wsimpl.
Qed.

(** ** The heap *)

(** [bl] are the blocks of the heap; before the first call there is none. *)
Definition heap_rep h (bl : list blk) : Prop :=
  (tail_ok h (heapbase h) 0 bl /\ merged bl) \/
  (heapbase h = 0 /\ heaptop h = 0 /\ bl = [] /\ brk (os h) mod 8 = 0).

Lemma offset_0 : offset_ok 0.
Proof. done. Qed.

Lemma init_ok h bl : heap_rep h bl ->
  exists h0, (if heapbase h =? 0 then malloc_init h else Done h) = Done h0 /\ tail_ok h0 (heapbase h0) 0 bl /\ merged bl /\
    corrupt h0 = false /\ words h0 = words h /\ os h0 = os h /\ (heapbase h <> 0 -> h0 = h).
Proof.
  intros [[Ht Hm]|(Hb & Ht & -> & Ha)].
  - pose proof Ht as (Hc & Hsum & Htop & Ha & _). destruct (chain_total _ _ _ _ Hc). case_bool. exists h. split_and!; try done.
    unfold corrupt. repeat case_bool; done.
  - rewrite Hb. unfold malloc_init. rewrite Hb, Ht, sbrk_now. cbn [Z.eqb negb orb]. pose proof (brk_range (os h)). case_bool.
    unfold MBLOCKSIZE. rewrite Ha, Z.eqb_refl. run. eexists. split; [done|]. split_and!; try done.
    + split; [done|]. cbn. split_and!; [lia|done|lia|done|done|lia..].
    + unfold corrupt. cbn. repeat case_bool; done.
Qed.

(** Changes from [a] on leave what lies before. *)
Lemma tail_app h h' a prev l1 l2 l2' k : tail_ok h a prev (l1 ++ l2) -> heaptop h' = heaptop h -> os h' = os h ->
  tail_ok h' (a + total l1) (lastsz prev l1) l2' -> keeps h h' (a + total l1) k ->
  tail_ok h' a prev (l1 ++ l2') /\ keeps h h' a (l1 ++ k).
Proof.
  intros (Hc & Hsum & Htop & Ha & Hal & Hp) Et Eo (Hc' & Hsum' & _) Hk. apply chain_app in Hc as [Hc1 Hc2]. split.
  - split; [apply chain_app; split; [|done]|rewrite total_app, Et, Eo; split_and!; done || lia].
    eapply blocks_ext; [done|]. intros x Hx. apply Hk. lia.
  - intros x [Hx|[Hx|Hx]%in_live_app]; apply Hk; [left|left|by right].
    + destruct (chain_total _ _ _ _ Hc1). lia.
    + eapply live_range in Hx; [|done]. lia.
Qed.

Lemma tail_suffix h a prev l1 l2 : tail_ok h a prev (l1 ++ l2) -> tail_ok h (a + total l1) (lastsz prev l1) l2.
Proof.
  intros (Hc & Hsum & Htop & Ha & Hal & Hp). rewrite total_app in Hsum. apply chain_app in Hc as [Hc1 Hc2].
  destruct (chain_total _ _ _ _ Hc1) as [Hl Hm]. split; [done|]. split_and!; [lia|done|lia|zlia|by eapply lastsz_ok].
Qed.

Lemma live_cut a b size : bused b = false -> exists n, live a (cut size b) = [(a + 8, n)] /\ (n = size \/ n = bsz b - 8) /\ total (cut size b) = bsz b.
Proof.
  intros Hf. unfold cut. case_bool; cbn [live bused bsz app total]; eexists; (split; [done|]); lia.
Qed.

(** The block at [p] of [n] bytes is new, the others are the ones that were in use. *)
Definition gained (p n : Z) (l l' : list (Z * Z)) : Prop := exists l1 l2, l = l1 ++ l2 /\ l' = l1 ++ (p, n) :: l2.

Lemma search_fuel_enough h a bl : tail_ok h a 0 bl -> a = heapbase h -> (length bl < search_fuel h)%nat.
Proof.
  intros (Hc & Hsum & _) ->. destruct (chain_total _ _ _ _ Hc) as [Hl Hm]. unfold search_fuel, MBLOCKSIZE.
  replace (heaptop h - heapbase h) with (total bl) by lia. zlia.
Qed.

(** C7. [malloc] implements first fit.  On any heap of its own, or before the first call
    with the break at a multiple of 8, and for any size up to 2^31 - 16 bytes it returns.
    Then either the result is NULL: no free block was large enough, [sbrk] refuses the
    block and its header, and the heap is as it was.  Or the
    blocks are those of the specification: the first free block that is large enough
    is cut, or a block is added at the top.  The result is then a multiple of 8, its
    block has at least the bytes asked for and lies apart from the others, no block in
    use has moved or lost a byte, and no two free blocks lie side by side. *)
Theorem malloc_refines h bl size : heap_rep h bl -> 0 <= size <= 2 ^ 31 - 16 ->
  exists h' p, malloc h size = Done (h', p) /\
    (p = 0 /\ fit (round_size size) bl = None /\ snd (sbrk (os h) (round_size size + 8)) = None /\ heap_rep h' bl /\ words h' = words h \/
     p <> 0 /\ p mod 8 = 0 /\ heap_rep h' (alloc_blocks (round_size size) bl) /\ keeps h h' (heapbase h') bl /\
     apart (live (heapbase h') (alloc_blocks (round_size size) bl)) /\
     exists n, size <= n /\ gained p n (live (heapbase h') bl) (live (heapbase h') (alloc_blocks (round_size size) bl))).
Proof.
  intros Hrep Hs. destruct (init_ok h bl Hrep) as (h0 & E0 & Ht & Hm & Hco & Hw & Ho & _). unfold malloc. rewrite E0. run. rewrite Hco.
  pose proof (round_size_eq size ltac:(lia)) as Hr. set (sz := round_size size) in *.
  assert (sz mod 8 = 0 /\ size <= sz < 2 ^ 31 - 8) as [Hsz Hsr] by zlia.
  change 0 with (M_MKFIELD 0) at 2. rewrite (search_ok _ h0 (heapbase h0) 0 bl) by (done || by eapply search_fuel_enough).
  unfold alloc_blocks. unfold keeps. rewrite <- Hw. destruct (fit sz bl) as [[[l1 b] l2]|] eqn:Ef.
  - apply fit_spec in Ef as (-> & Hf & Hfit). pose proof (tail_suffix _ _ _ _ _ Ht) as Ht2.
    destruct (take_ok h0 (heapbase h0 + total l1) (lastsz 0 l1) b l2 sz) as (h' & -> & [B1 T1 O1] & Ht' & Hk); [done|done|done|lia|]. run.
    destruct (tail_app _ _ _ _ _ _ _ _ Ht T1 O1 Ht' Hk) as [Ht'' Hk'']. pose proof Ht2 as (_ & _ & _ & Hpos & Hal & _).
    eexists _, _. split; [done|]. right. rewrite B1. split_and!; [lia|zlia| |done|by eapply live_apart, Ht''|].
    + left. rewrite B1. split; [done|]. by eapply merged_cut.
    + destruct (live_cut (heapbase h0 + total l1) b sz Hf) as (n & El & Hn & Etot). exists n. split; [lia|].
      exists (live (heapbase h0) l1), (live (heapbase h0 + total l1 + bsz b) l2). rewrite !live_app, El, Etot. cbn [live]. rewrite Hf. done.
  - run. rewrite Z.eqb_refl. run. destruct (expand_ok h0 (heapbase h0) 0 bl sz) as (h' & p & -> & B1 & [(-> & Hno & Ht' & Ew)|(-> & Ht' & Hk)]); [done|done|lia|..].
    + eexists _, _. split; [done|]. left. rewrite Ho in Hno. split_and!; [done|done|done| |congruence]. left. by rewrite B1.
    + pose proof Ht as (Hc & Hsum & _ & Hpos & Hal & _). destruct (chain_total _ _ _ _ Hc) as [Hl Hmod].
      eexists _, _. split; [done|]. right. rewrite B1. split_and!; [lia|zlia| |done|by eapply live_apart, Ht'|].
      * left. rewrite B1. split; [done|]. apply merged_app. split_and!; [done|done|]. destruct (list.last bl); cbn; [by rewrite orb_true_r|done].
      * exists sz. split; [lia|]. exists (live (heapbase h0) bl), []. rewrite app_nil_r, live_app. split; [done|].
        cbn [live bused bsz app]. repeat f_equal; lia.
Qed.

(** ** [free] *)

Lemma deadbeef_ok n h x : (forall k, 0 <= k < Z.of_nat n -> mapped h (x + 4 * k)) ->
  exists h', deadbeef_loop n h x = Done h' /\ same h h' /\ (forall y, y < x \/ x + 4 * Z.of_nat n <= y -> words h' y = words h y) /\
    ((0 < n)%nat -> words h' x = DEADBEEF).
Proof.
  revert h x. induction n as [|n IH]; intros h x Hm; cbn [deadbeef_loop]; [exists h; split_and!; done || lia|].
  rewrite st_ok by (specialize (Hm 0); rewrite Z.mul_0_r, Z.add_0_r in Hm; apply Hm; lia). run.
  destruct (IH (put h x DEADBEEF) (x + 4)) as (h' & -> & [B T O] & Hw & _).
  { intros k Hk. specialize (Hm (k + 1)). unfold mapped in *. cbn [put os]. replace (x + 4 + 4 * k) with (x + 4 * (k + 1)) by lia. apply Hm. lia. }
  exists h'. split; [done|]. split; [by split|]. split; [intros y Hy|intros _]; rewrite Hw by lia; by wsimpl.
Qed.

Lemma trymerge_ok h a prev b c s : tail_ok h a prev (b :: c :: s) ->
  exists h', malloc_trymerge h a (a + bsz b) = Done h' /\ same h h' /\ tail_ok h' a prev (join b (c :: s)) /\ keeps h h' a (b :: c :: s) /\
    (bused b = false -> bused c = false -> words h' (a + bsz b) = DEADBEEF).
Proof.
  intros Ht. pose proof Ht as (Hc & Hsum & Htop & Ha & Hal & Hp). pose proof (brk_range (os h)) as Hbrk. cbn [chain total] in *.
  destruct Hc as ([Hbo Hb8] & [Hh1 Hh2] & [Hco Hc8] & [Hh3 Hh4] & Hc). destruct (chain_total _ _ _ _ Hc) as [Hl _].
  assert (bsz b mod 8 = 0 /\ bsz c mod 8 = 0) as [Hbm Hcm] by (by destruct Hbo, Hco).
  unfold malloc_trymerge. rewrite !ld_ok by (unfold mapped; zlia). run. rewrite Hh2, Hh3, !hw_block by done. rewrite Z.eqb_refl. run.
  rewrite Hh4, !hw_flag by done. cbn [join].
  destruct (bused b || bused c) eqn:Eu.
  { exists h. destruct (bused b), (bused c); try done. }
  apply orb_false_iff in Eu as [Eb Ec]. rewrite Eb, Ec in *. cbn [Z.b2z Z.eqb negb orb].
  rewrite (M_NEXT_ok h (a + bsz b) (bsz c) false) by (done || lia || unfold mapped; zlia). run.
  rewrite upd_ok by (unfold mapped; zlia). run. unfold MBLOCKSIZE. rewrite !hw_size by done.
  replace (8 + (bsz b - 8) + 8 + (bsz c - 8)) with (bsz b + bsz c) by lia. rewrite u32_small by lia.
  assert (offset_ok (bsz b + bsz c)) as Ho by (unfold offset_ok; zlia). rewrite Hh2, hw_set_block by done.
  set (h1 := put h (a + 4) (hw (bsz b + bsz c) false)). rewrite (ld_ok h1) by (unfold mapped; cbn; zlia). run.
  assert (words h1 (a + 4) = hw (bsz b + bsz c) false) as Hw1 by (unfold h1; by wsimpl). rewrite Hw1, hw_block by done.
  destruct (relink_ok h1 (a + bsz b + bsz c) (bsz c) (bsz b + bsz c) s) as (h2 & -> & [B2 T2 O2] & Hc2 & Hn2); [|cbn; lia|cbn; lia|lia|zlia|done|done|].
  { eapply blocks_ext; [done|]. intros x Hx. unfold h1. by wsimpl. }
  run. unfold malloc_deadbeef. change (Z.to_nat (8 / 4)) with 2%nat.
  destruct (deadbeef_ok 2 h2 (a + bsz b)) as (h3 & -> & [B3 T3 O3] & Hw3 & Hd3).
  { intros k Hk. unfold mapped. rewrite O2. cbn. zlia. }
  cbn [h1 put heapbase heaptop os] in *. exists h3. split; [done|]. split; [split; congruence|]. split_and!; [| |intros _ _; by apply Hd3; lia].
  - split; [|cbn [total bsz]; rewrite T3, T2, O3, O2; split_and!; done || lia]. cbn [chain bsz bused]. split; [split; [done|cbn; lia]|]. split.
    + split; rewrite Hw3, Hn2 by lia; [unfold h1; by wsimpl|done].
    + replace (a + (bsz b + bsz c)) with (a + bsz b + bsz c) by lia. eapply blocks_ext; [done|]. intros x Hx. apply Hw3. lia.
  - intros x Hx. assert (x < a \/ a + bsz b + bsz c + 8 <= x).
    { destruct Hx as [Hx|[[Hu _]|[[Hu _]|Hx]%in_live_cons]%in_live_cons]; [lia|congruence|congruence|]. eapply live_range in Hx; [|done]. lia. }
    rewrite Hw3, Hn2 by lia. unfold h1. by wsimpl.
Qed.

Lemma wipe_ok h a prev b l2 : tail_ok h a prev (b :: l2) -> bused b = true ->
  exists h', wipe h a = Done h' /\
    same h h' /\ tail_ok h' a prev (mk_blk (bsz b) false :: l2) /\ keeps h h' a (mk_blk (bsz b) false :: l2).
Proof.
  intros (Hc & Hsum & Htop & Ha & Hal & Hp) Hu. pose proof (brk_range (os h)) as Hbrk. cbn [chain total] in *.
  destruct Hc as ([Hbo Hb8] & [Hh1 Hh2] & Hc). destruct (chain_total _ _ _ _ Hc) as [Hl _]. assert (bsz b mod 8 = 0) as Hbm by (by destruct Hbo).
  unfold wipe. rewrite upd_ok by (unfold mapped; zlia). run. rewrite ld_ok by (unfold mapped; cbn; zlia). run. wsimpl.
  rewrite Hh2. change 0 with (Z.b2z false). rewrite hw_set_flag, hw_size by done. unfold malloc_deadbeef, M_DATA, MBLOCKSIZE. rewrite u32_small by lia.
  set (h1 := put h (a + 4) (hw (bsz b) false)).
  destruct (deadbeef_ok (Z.to_nat ((bsz b - 8) / 4)) h1 (a + 8)) as (h' & -> & [B T O] & Hw & _).
  { intros k Hk. unfold mapped. cbn. zlia. }
  assert (forall y, y < a + 8 \/ a + bsz b <= y -> words h' y = words h1 y) as Hw' by (intros y Hy; apply Hw; zlia).
  cbn [h1 put heapbase heaptop os] in *. exists h'. split; [done|]. split; [by split|]. split.
  - split; [|cbn [total bsz]; rewrite T, O; split_and!; done || lia]. cbn [chain bsz bused]. split; [done|]. split.
    + split; rewrite Hw' by lia; unfold h1; by wsimpl.
    + eapply blocks_ext; [done|]. intros x Hx. rewrite Hw' by lia. unfold h1. by wsimpl.
  - intros x Hx. assert (x < a \/ a + bsz b + 8 <= x).
    { destruct Hx as [Hx|[[Hx _]|Hx]%in_live_cons]; [lia|done|]. eapply live_range in Hx; [|done]. cbn [bsz] in Hx. lia. }
    rewrite Hw' by lia. unfold h1. by wsimpl.
Qed.

Lemma keeps_data_trans h1 h2 h3 a bl1 bl2 : keeps h1 h2 a bl1 -> keeps h2 h3 a bl2 -> live a bl2 = live a bl1 -> keeps h1 h3 a bl1.
Proof. intros K1 K2 E x Hx. rewrite K2, K1; [done|done|]. unfold in_live. by rewrite E. Qed.

Lemma keeps_live h h' a l l' : live a l' = live a l -> keeps h h' a l -> keeps h h' a l'.
Proof. intros E K x Hx. apply K. unfold in_live. by rewrite <- E. Qed.

(** Joining with the block above, unless there is none. *)
Lemma above_ok h a prev b l2 : tail_ok h a prev (b :: l2) ->
  exists h', merge_above h a = Done h' /\
    same h h' /\ tail_ok h' a prev (join b l2) /\ keeps h h' a (b :: l2).
Proof.
  intros Ht. pose proof Ht as (Hc & Hsum & Htop & Ha & Hal & Hp). pose proof (brk_range (os h)) as Hbrk. cbn [chain total] in *.
  destruct Hc as ([Hbo Hb8] & [Hh1 Hh2] & Hc). destruct (chain_total _ _ _ _ Hc) as [Hl _]. assert (bsz b mod 8 = 0) as Hbm by (by destruct Hbo).
  unfold merge_above. rewrite (M_NEXT_ok h a (bsz b) (bused b)) by (done || lia || unfold mapped; zlia). run. destruct l2 as [|c s].
  - cbn [total] in Hsum. rewrite Z.add_0_r in Hsum. rewrite Hsum, Z.eqb_refl. by exists h.
  - cbn [total length] in *. destruct Hc as ([_ Hc8] & _ & Hc). destruct (chain_total _ _ _ _ Hc) as [Hl' _]. case_bool.
    destruct (trymerge_ok h a prev b c s Ht) as (h' & -> & S' & Ht' & Hk & _). by exists h'.
Qed.

Lemma same_heap_trans h1 h2 h3 : same h1 h2 -> same h2 h3 -> same h1 h3.
Proof. intros [] []. split; congruence. Qed.

(** The header at [a] does not pass for one of a block in use. *)
Definition dead h (a : Z) : Prop := words h a = DEADBEEF \/ flag (words h (a + 4)) = 0.

Lemma header_dead h a prev b s : tail_ok h a prev (b :: s) -> bused b = false -> dead h a.
Proof. intros (([Ho _] & [_ Hh] & _) & _) Hf. right. rewrite Hh, hw_flag, Hf by done. done. Qed.

(** Merging with the block below, unless there is none. *)
Lemma below_ok h l1 b l2 : tail_ok h (heapbase h) 0 (l1 ++ b :: l2) -> bused b = false ->
  let a := heapbase h + total l1 in
  exists h', (if negb (a =? heapbase h) then p ← M_PREV h a; malloc_trymerge h p a else Done h) = Done h' /\ same h h' /\
    tail_ok h' (heapbase h) 0 (match list.last l1 with Some d => take (length l1 - 1) l1 ++ join d (b :: l2) | None => b :: l2 end) /\
    keeps h h' (heapbase h) (l1 ++ b :: l2) /\ dead h' a.
Proof.
  intros Ht Hf a. pose proof (brk_range (os h)) as Hbrk. destruct l1 as [|d l _] using rev_ind.
  - subst a. cbn [total]. rewrite Z.add_0_r, Z.eqb_refl. exists h. split_and!; try done. by eapply header_dead.
  - rewrite list.last_snoc, length_app. cbn [length]. rewrite Nat.add_sub, take_app_length. subst a.
    rewrite total_app. cbn [total]. rewrite Z.add_0_r, Z.add_assoc. rewrite <- app_assoc in Ht |- *. cbn [app] in *.
    pose proof (tail_suffix _ _ _ _ _ Ht) as Ht2. pose proof Ht2 as (Hc & Hsum & Htop & Ha & Hal & Hp).
    pose proof Ht as (Hc0 & _ & _ & Hpos & _). apply chain_app in Hc0 as [Hc0 _]. destruct (chain_total _ _ _ _ Hc0) as [Hl0 _].
    cbn [chain total] in Hc, Hsum. destruct Hc as ([Hdo Hd8] & _ & [Hbo Hb8] & [Hh1 _] & Hc). destruct (chain_total _ _ _ _ Hc) as [Hl _].
    assert (bsz d mod 8 = 0) as Hdm by (by destruct Hdo). case_bool. unfold M_PREV. rewrite ld_ok by (unfold mapped; zlia). run.
    rewrite Hh1, hw_off by done. rewrite u32_small by lia. replace (heapbase h + total l + bsz d - bsz d) with (heapbase h + total l) by lia.
    destruct (trymerge_ok h _ _ _ _ _ Ht2) as (h' & -> & S' & Ht' & Hk & Hd). pose proof S' as [B T O]. exists h'.
    destruct (tail_app _ _ _ _ _ _ _ _ Ht T O Ht' Hk) as [Ht'' Hk'']. split_and!; try done.
    destruct (bused d) eqn:Ed; [|left; by apply Hd]. cbn [join] in Ht'. rewrite Ed in Ht'. cbn [orb] in Ht'.
    eapply (header_dead _ _ (bsz d) b l2); [|done]. apply (tail_suffix h' _ _ [d]) in Ht'. cbn [total lastsz] in Ht'. by rewrite Z.add_0_r in Ht'.
Qed.

Lemma free_spec h l1 b l2 : tail_ok h (heapbase h) 0 (l1 ++ b :: l2) -> bused b = true ->
  let a := heapbase h + total l1 in a + 8 < heaptop h ->
  exists h', free h (a + 8) = Done h' /\ same h h' /\ tail_ok h' (heapbase h) 0 (release l1 b l2) /\
    keeps h h' (heapbase h) (release l1 b l2) /\ dead h' a.
Proof.
  intros Ht Hu a Hlt. pose proof (brk_range (os h)) as Hbrk. pose proof (tail_suffix _ _ _ _ _ Ht) as Ht2. fold a in Ht2.
  pose proof Ht2 as (Hc & Hsum & Htop & Ha & Hal & Hp). pose proof Ht as (Hc0 & _ & _ & Hpos & _). apply chain_app in Hc0 as [Hc0 _].
  destruct (chain_total _ _ _ _ Hc0) as [Hl0 _]. cbn [chain total] in Hc, Hsum. destruct Hc as ([Hbo Hb8] & [Hh1 Hh2] & Hc).
  destruct (chain_total _ _ _ _ Hc) as [Hl _]. assert (bsz b mod 8 = 0) as Hbm by (by destruct Hbo). assert (heapbase h <= a) by lia.
  unfold free, corrupt, MBLOCKSIZE. repeat case_bool. replace (a + 8 - 8) with a by lia. rewrite u32_small by lia.
  unfold M_OK. rewrite !ld_ok by (unfold mapped; zlia). run. rewrite Hh1, Hh2, !hw_magic by done. rewrite Z.eqb_refl. run.
  rewrite hw_flag, Hu by done. cbn [Z.b2z Z.eqb].
  destruct (wipe_ok h a _ b l2 Ht2 Hu) as (h1 & -> & S1 & Ht3 & K1). run.
  destruct (above_ok h1 a _ _ l2 Ht3) as (h2 & -> & S2 & Ht4 & K2). run.
  pose proof (same_heap_trans _ _ _ S1 S2) as [B12 T12 O12].
  assert (keeps h h2 a (mk_blk (bsz b) false :: l2)) as K12 by (eapply keeps_data_trans; [done|done|done]).
  destruct (tail_app _ _ _ _ _ _ _ _ Ht T12 O12 Ht4 K12) as [Ht5 K5].
  destruct (join_cons (mk_blk (bsz b) false) l2) as (b' & s & Ej & Hb'). rewrite Ej in Ht5. rewrite <- B12 in Ht5.
  destruct (below_ok h2 l1 b' s Ht5 Hb') as (h3 & E3 & S3 & Ht6 & K6 & Hd). rewrite B12 in *. fold a in E3, Hd. rewrite E3.
  exists h3. split; [done|]. split; [eapply same_heap_trans; [by eapply same_heap_trans|done]|].
  assert (keeps h h3 (heapbase h) (release l1 b l2)) as K.
  { eapply keeps_live; [|eapply (keeps_data_trans _ _ _ _ _ _ K5 K6)]; rewrite !live_app.
    - rewrite release_live. cbn [live bused bsz app]. done.
    - rewrite <- Ej, join_live. done. }
  assert (match list.last l1 with Some d => take (length l1 - 1) l1 ++ join d (b' :: s) | None => b' :: s end = release l1 b l2) as Er.
  { clear K. destruct l1 as [|d l _] using rev_ind; [by rewrite <- Ej|]. rewrite list.last_snoc, length_app. cbn [length].
    rewrite Nat.add_sub, take_app_length, release_snoc. by rewrite <- Ej. }
  rewrite Er in Ht6. split_and!; done.
Qed.

(** C14. [free] takes back a block.  For the address of a block in use, unless that is the
    top of the heap, it returns; the blocks are then those of the specification: the
    block is free and joined with its free neighbours.  Exactly this block is no longer
    in use, the others have kept their place and their bytes, and no two free blocks
    lie side by side. *)
Theorem free_refines h l1 b l2 : heap_rep h (l1 ++ b :: l2) -> bused b = true ->
  let p := heapbase h + total l1 + 8 in p < heaptop h ->
  exists h', free h p = Done h' /\ heap_rep h' (release l1 b l2) /\ heapbase h' = heapbase h /\
    keeps h h' (heapbase h) (release l1 b l2) /\
    gained p (bsz b - 8) (live (heapbase h) (release l1 b l2)) (live (heapbase h) (l1 ++ b :: l2)).
Proof.
  intros [[Ht Hm]|(_ & _ & E & _)] Hu p Hp; [|by destruct l1].
  destruct (free_spec h l1 b l2 Ht Hu Hp) as (h' & E & [B T O] & Ht' & K & _).
  exists h'. split_and!; [done| |done|done|].
  - left. rewrite B. split; [done|]. by apply release_merged.
  - eexists _, _. split; [apply release_live|]. rewrite live_app. cbn [live]. by rewrite Hu.
Qed.

(** A block that is given back twice is noticed: whatever [free] has merged the block
    with, a second call with the same address ends the program. *)
Theorem double_free_detected h l1 b l2 : heap_rep h (l1 ++ b :: l2) -> bused b = true ->
  let p := heapbase h + total l1 + 8 in p < heaptop h ->
  exists h', free h p = Done h' /\ free h' p = Halt Panic.
Proof.
  intros [[Ht Hm]|(_ & _ & E & _)] Hu p Hp; [|by destruct l1].
  destruct (free_spec h l1 b l2 Ht Hu Hp) as (h' & E & [B T O] & _ & _ & Hd). exists h'. split; [done|].
  pose proof (tail_suffix _ _ _ _ _ Ht) as (Hc & Hsum & Htop & Ha & Hal & _). pose proof (brk_range (os h)).
  pose proof Ht as (Hc0 & _ & _ & Hpos & _). apply chain_app in Hc0 as [Hc0 _]. destruct (chain_total _ _ _ _ Hc0) as [Hl0 _].
  unfold free. fold p in Hd, Hsum. destruct (corrupt h'); [by case_bool|]. unfold MBLOCKSIZE. subst p. repeat case_bool; try done.
  replace (heapbase h + total l1 + 8 - 8) with (heapbase h + total l1) by lia. rewrite u32_small by lia.
  unfold M_OK. rewrite !ld_ok by (unfold mapped; rewrite O; zlia). run. destruct Hd as [Hd|Hd].
  - rewrite Hd. by destruct (magic _ =? MMAGIC) eqn:?.
  - rewrite Hd. by destruct (_ && _).
Qed.

End laws.
(** ** Witnesses *)

(** A break that may grow to the end of the user's memory. *)
Definition plain_brk (o : Z) : Z := Z.max 4096 (Z.min o (2 ^ 31)).

#[local] Instance plain_sbrk : Sbrk Z := {|
  brk := plain_brk;
  sbrk := fun o n => if n =? 0 then (o, Some (plain_brk o))
                     else if plain_brk o + n <=? 2 ^ 31 then (plain_brk o + n, Some (plain_brk o)) else (o, None)
|}.

#[local] Instance plain_sbrk_ok : SbrkOk Z.
Proof.
  split; cbn; unfold plain_brk.
  - intros o. lia.
  - done.
  - intros o n Hn. repeat case_bool; cbn [fst snd]; lia.
  - intros o n x Hn. repeat case_bool; cbn [fst snd]; congruence.
Qed.

(** The heap before the first call, and after three. *)
Definition ex_start : uheap Z := mk_uheap 0 0 (fun _ => 85) 4096.
Definition ex_heap3 : uheap Z :=
  match ('(h1, _) ← malloc ex_start 10; '(h2, p) ← malloc h1 100; '(h3, _) ← malloc h2 0; h4 ← free h3 p; malloc h4 20) with
  | Done (h, _) => h
  | Halt _ => ex_start
  end.
Definition ex_blocks : list blk := [mk_blk 24 true; mk_blk 32 true; mk_blk 80 false; mk_blk 8 true].

Lemma ex_heap3_rep : heap_rep ex_heap3 ex_blocks.
Proof.
  left. vm_compute. repeat split; try done; discriminate.
Qed.

Lemma malloc_refines_witness : heap_rep ex_heap3 ex_blocks /\ (exists h', malloc ex_heap3 70 = Done (h', 4160)) /\
  exists h', malloc ex_heap3 (2 ^ 31 - 16) = Done (h', 0) /\ snd (sbrk (os ex_heap3) (2 ^ 31 - 8)) = None.
Proof.
  split; [apply ex_heap3_rep|]. destruct (malloc_refines ex_heap3 ex_blocks 70) as (h' & p & E & _); [apply ex_heap3_rep|lia|].
  assert (match malloc ex_heap3 70 with Done (_, q) => q | Halt _ => 0 end = 4160) as Hp by (vm_compute; reflexivity).
  rewrite E in Hp. subst p. split; [exists h'; exact E|].
  destruct (malloc_refines ex_heap3 ex_blocks (2 ^ 31 - 16)) as (h2 & q & E2 & Hq); [apply ex_heap3_rep|lia|].
  assert (match malloc ex_heap3 (2 ^ 31 - 16) with Done (_, q) => q | Halt _ => 1 end = 0) as Hz by (vm_compute; reflexivity).
  rewrite E2 in Hz. subst q. exists h2. split; [exact E2|]. destruct Hq as [(_ & _ & Hno & _)|(Hq & _)]; [exact Hno|].
  exfalso. apply Hq. reflexivity.
Defined.

Lemma ex_address : heapbase ex_heap3 + total [mk_blk 24 true] + 8 = 4128 /\ 4128 < heaptop ex_heap3.
Proof. split; vm_compute; reflexivity. Qed.

Lemma free_refines_witness : exists h', free ex_heap3 4128 = Done h' /\ heap_rep h' [mk_blk 24 true; mk_blk 112 false; mk_blk 8 true].
Proof.
  destruct ex_address as [Ep Hp].
  pose proof (free_refines ex_heap3 [mk_blk 24 true] (mk_blk 32 true) [mk_blk 80 false; mk_blk 8 true] ex_heap3_rep eq_refl) as H.
  cbv zeta in H. rewrite Ep in H. destruct (H Hp) as (h' & E & Hr & _). exists h'. split; [exact E|exact Hr].
Defined.

Lemma double_free_detected_witness : exists h', free ex_heap3 4128 = Done h' /\ free h' 4128 = Halt Panic.
Proof.
  destruct ex_address as [Ep Hp].
  pose proof (double_free_detected ex_heap3 [mk_blk 24 true] (mk_blk 32 true) [mk_blk 80 false; mk_blk 8 true] ex_heap3_rep eq_refl) as H.
  cbv zeta in H. rewrite Ep in H. exact (H Hp).
Defined.

(** An empty block at the top of the heap: its address is the top, and [free] takes that
    for a mistake of the program. *)
Example free_malloc_zero : ('(h, p) ← malloc ex_start 0; free h p) = Halt Panic.
Proof. vm_compute. reflexivity. Qed.

(** A size within 7 of 2^32 is rounded to 0. *)
Example malloc_huge : match malloc ex_start (2 ^ 32 - 1) with Done (h, p) => (p, heaptop h) | Halt _ => (0, 0) end = (4104, 4104).
Proof. vm_compute. reflexivity. Qed.

End Malloc.
