(* ===== verification/Printf.v ===== *)
(** * Formatted output ([lib/libc/__printf.c], [lib/libc/snprintf.c], [lib/libc/atoi.c])

    The guts of [printf], which the kernel and the C library share: a state machine that
    reads the format one character at a time and hands text to a function of its
    client.  The client is the class [Sink].  [snprintf] is one: it writes to a buffer.

    Characters are bytes, a string is the list of its characters without the
    terminator.  [int], [long] and pointers have 32 bits; 64-bit integers are not
    compiled in.  The variable arguments are a list; taking one of another type than
    was passed is [Undefined], and so is an overflow of a signed integer. *)

From Stdlib Require Import ZArith Lia Bool.
From stdpp Require Import base list numbers.
From S2P Require Import Prelude.
From S2P Require Import Sfs.
From S2P Require Import Vfs.

(** [sendfunc], on the state behind [clientdata]. *)
Class Sink (C : Type) := { send : C -> list Z -> exec C }.

(** A sink that takes everything: [put] is what it does, however the text is cut. *)
Class SinkOk (C : Type) {SK : Sink C} := {
  sink_wf : C -> Prop;
  put : C -> list Z -> C;
  send_ok c l : sink_wf c -> send c l = Done (put c l);
  put_wf c l : sink_wf c -> sink_wf (put c l);
  put_nil c : put c [] = c;
  put_app c l1 l2 : put c (l1 ++ l2) = put (put c l1) l2
}.

Module Printf.

(** "0123456789abcdef", "#-ql0123456789", "doupx" and single characters *)
Definition DIGITS : list Z := [48; 49; 50; 51; 52; 53; 54; 55; 56; 57; 97; 98; 99; 100; 101; 102].
Definition MODIFIERS : list Z := [35; 45; 113; 108; 48; 49; 50; 51; 52; 53; 54; 55; 56; 57].
Definition INTEGERS : list Z := [100; 111; 117; 112; 120].
Definition NULLTEXT : list Z := [40; 110; 117; 108; 108; 41].
Definition SPACE : Z := 32.
Definition HASH : Z := 35.
Definition PERCENT : Z := 37.
Definition MINUS : Z := 45.
Definition PLUS : Z := 43.
Definition ZERO : Z := 48.
Definition NINE : Z := 57.

Definition occurs (s : list Z) (ch : Z) : bool := match Vfs.strchr s ch with Some _ => true | None => false end.

(** [(sizeof(long) * CHAR_BIT) / 3 + 2] *)
Definition NUMBER_BUF_SIZE : Z := 32 / 3 + 2.

Inductive arg : Type := AWord (w : Z) | AStr (s : option (list Z)).
Inductive intsize : Set := INTSZ | LONGSZ.

Definition va_word (ap : list arg) : exec (Z * list arg) :=
  match ap with AWord w :: ap' => Done (w, ap') | _ => Halt Undefined end.

Section printf.
Context {C : Type} {SK : Sink C}.

Record PF : Type := mk_pf {
  clientdata : C;
  ap : list arg;
  charcount : Z;
  in_pct : bool;
  size : intsize;
  num : Z;
  sign : bool;
  spacing : Z;
  rightspc : bool;
  fillchar : Z;
  base : Z;
  baseprefix : bool;
  altformat : bool
}.

Definition pf_print (pf : PF) (txt : list Z) : exec PF :=
  c ← send (clientdata pf) txt;
  Done (mk_pf c (ap pf) (s32 (charcount pf + Z.of_nat (length txt))) (in_pct pf) (size pf) (num pf) (sign pf) (spacing pf)
    (rightspc pf) (fillchar pf) (base pf) (baseprefix pf) (altformat pf)).

Definition pf_endfield (pf : PF) : PF :=
  mk_pf (clientdata pf) (ap pf) (charcount pf) false INTSZ 0 false 0 false SPACE 0 false false.

(** Assignments to the fields that describe the format, to [ap] and [num] with [sign],
    and to the base. *)
Definition set_format (pf : PF) (pct : bool) (sz : intsize) (spc : Z) (right : bool) (fc : Z) (alt : bool) : PF :=
  mk_pf (clientdata pf) (ap pf) (charcount pf) pct sz (num pf) (sign pf) spc right fc (base pf) (baseprefix pf) alt.
Definition set_num (pf : PF) (args : list arg) (n : Z) (s : bool) : PF :=
  mk_pf (clientdata pf) args (charcount pf) (in_pct pf) (size pf) n s (spacing pf) (rightspc pf) (fillchar pf) (base pf)
    (baseprefix pf) (altformat pf).
Definition set_base (pf : PF) (b : Z) (prefix : bool) : PF :=
  mk_pf (clientdata pf) (ap pf) (charcount pf) (in_pct pf) (size pf) (num pf) (sign pf) (spacing pf) (rightspc pf) (fillchar pf)
    b prefix (altformat pf).

Definition pf_modifier (pf : PF) (ch : Z) : exec PF :=
  if ch =? HASH then Done (set_format pf (in_pct pf) (size pf) (spacing pf) (rightspc pf) (fillchar pf) true)
  else if ch =? MINUS then Done (set_format pf (in_pct pf) (size pf) (spacing pf) true (fillchar pf) (altformat pf))
  else if (ch =? 108) || (ch =? 113) then
    Done (set_format pf (in_pct pf) LONGSZ (spacing pf) (rightspc pf) (fillchar pf) (altformat pf))
  else if ch =? ZERO then
    if spacing pf >? 0 then
      s ← int (spacing pf * 10);
      Done (set_format pf (in_pct pf) (size pf) s (rightspc pf) (fillchar pf) (altformat pf))
    else Done (set_format pf (in_pct pf) (size pf) (spacing pf) (rightspc pf) ZERO (altformat pf))
  else
    assert! (ch >? ZERO) && (ch <=? NINE);
    t ← int (spacing pf * 10);
    s ← int (t + (ch - ZERO));
    Done (set_format pf (in_pct pf) (size pf) s (rightspc pf) (fillchar pf) (altformat pf)).

(** ['p'] is 112, ['d'] 100; [int] and [long] are the same. *)
Definition pf_getnum (pf : PF) (ch : Z) : exec PF :=
  '(w, ap') ← va_word (ap pf);
  if ch =? 112 then Done (set_num pf ap' w (sign pf))
  else if ch =? 100 then
    let signednum := s32 w in
    if signednum <? 0 then n ← int (- signednum); Done (set_num pf ap' n true)
    else Done (set_num pf ap' signednum (sign pf))
  else Done (set_num pf ap' w (sign pf)).

Definition pf_setbase (pf : PF) (ch : Z) : PF :=
  let b := if (ch =? 100) || (ch =? 117) then 10 else if (ch =? 120) || (ch =? 112) then 16 else if ch =? 111 then 8 else base pf in
  set_base pf b (if altformat pf || (ch =? 112) then true else baseprefix pf).

Fixpoint fill_loop (n : nat) (pf : PF) (f : Z) : exec PF :=
  match n with O => Done pf | S n' => pf ← pf_print pf [f]; fill_loop n' pf f end.

Definition pf_fill (pf : PF) (spc : Z) : exec PF := fill_loop (Z.to_nat spc) pf (fillchar pf).

Definition pf_printstuff (pf : PF) (prefix prefix2 stuff : list Z) : exec PF :=
  let len := Z.of_nat (length prefix + length prefix2 + length stuff) in
  let spc := if spacing pf >? len then spacing pf - len else 0 in
  pf ← (if (spc >? 0) && negb (rightspc pf) && negb (fillchar pf =? ZERO) then pf_fill pf spc else Done pf);
  pf ← pf_print pf prefix;
  pf ← pf_print pf prefix2;
  pf ← (if (spc >? 0) && negb (rightspc pf) && (fillchar pf =? ZERO) then pf_fill pf spc else Done pf);
  pf ← pf_print pf stuff;
  if (spc >? 0) && rightspc pf then pf_fill pf spc else Done pf.

(** The digits, from the right. *)
Fixpoint num_loop (fuel : nat) (buf : list Z) (x xnum b : Z) : exec (list Z * Z) :=
  match fuel with
  | O => Halt Fuel
  | S fuel' =>
      if b =? 0 then Halt Undefined
      else
        d ← rd DIGITS (xnum mod b);
        buf ← wr buf x d;
        let xnum := xnum / b in
        if xnum >? 0 then num_loop fuel' buf (x - 1) xnum b else Done (buf, x - 1)
  end.

(** What is in [buf] before does not matter. *)
Definition pf_printnum (pf : PF) : exec PF :=
  let buf := replicate (Z.to_nat NUMBER_BUF_SIZE) 255 in
  buf ← wr buf (NUMBER_BUF_SIZE - 1) 0;
  '(buf, x) ← num_loop 32 buf (NUMBER_BUF_SIZE - 2) (num pf) (base pf);
  let bprefix := if baseprefix pf && (base pf =? 16) then [ZERO; 120] else if baseprefix pf && (base pf =? 8) then [ZERO] else [] in
  let sprefix := if sign pf then [MINUS] else [] in
  pf_printstuff pf sprefix bprefix (Sfs.cstr (drop (Z.to_nat (x + 1)) buf)).

(** ['s'] is 115, ['c'] 99. *)
Definition pf_send (pf : PF) (ch : Z) : exec PF :=
  assert! negb (ch =? 0);
  if negb (in_pct pf) && negb (ch =? PERCENT) then pf_print pf [ch]
  else if negb (in_pct pf) then Done (set_format pf true (size pf) (spacing pf) (rightspc pf) (fillchar pf) (altformat pf))
  else if occurs MODIFIERS ch then pf_modifier pf ch
  else if occurs INTEGERS ch then
    pf ← pf_getnum pf ch;
    pf ← pf_printnum (pf_setbase pf ch);
    Done (pf_endfield pf)
  else if ch =? 115 then
    match ap pf with
    | AStr str :: ap' =>
        pf ← pf_printstuff (set_num pf ap' (num pf) (sign pf)) [] [] (match str with None => NULLTEXT | Some s => s end);
        Done (pf_endfield pf)
    | _ => Halt Undefined
    end
  else
    '(x0, ap') ← (if ch =? 99 then '(w, ap') ← va_word (ap pf); Done (w mod 256, ap') else Done (ch, ap pf));
    pf ← pf_printstuff (set_num pf ap' (num pf) (sign pf)) [] [] (Sfs.cstr [x0]);
    Done (pf_endfield pf).

Fixpoint send_all (pf : PF) (format : list Z) : exec PF :=
  match format with [] => Done pf | ch :: format' => pf ← pf_send pf ch; send_all pf format' end.

(** The client's state at the end and the number of characters. *)
Definition vprintf (c : C) (format : list Z) (args : list arg) : exec (C * Z) :=
  pf ← send_all (mk_pf c args 0 false INTSZ 0 false 0 false SPACE 0 false false) format;
  Done (clientdata pf, charcount pf).

End printf.

(** ** [snprintf] *)

Record SNP : Type := mk_snp { buf : list Z; buflen : Z; bufpos : Z }.

Fixpoint snprintf_send (snp : SNP) (data : list Z) : exec SNP :=
  match data with
  | [] => Done snp
  | c :: data' =>
      snp ← (if bufpos snp <? buflen snp then b ← wr (buf snp) (bufpos snp) c; Done (mk_snp b (buflen snp) (bufpos snp + 1)) else Done snp);
      snprintf_send snp data'
  end.

#[export] Instance snp_sink : Sink SNP := {| send := snprintf_send |}.

(** [b] is the memory at the buffer. *)
Definition vsnprintf (b : list Z) (len : Z) (fmt : list Z) (args : list arg) : exec (list Z * Z) :=
  '(snp, chars) ← vprintf (mk_snp b (if len =? 0 then 0 else len - 1) 0) fmt args;
  if len >? 0 then b ← wr (buf snp) (bufpos snp) 0; Done (b, chars) else Done (buf snp, chars).

(** ** [atoi] *)

Fixpoint skip_blanks (s : list Z) : list Z :=
  match s with c :: s' => if (c =? SPACE) || (c =? 9) then skip_blanks s' else s | [] => [] end.

Fixpoint atoi_loop (s : list Z) (val : Z) : Z :=
  match s with
  | [] => val
  | c :: s' =>
      match Vfs.strchr (take 10 DIGITS) c with
      | None => val
      | Some w => atoi_loop s' (u32 (val * 10 + (10 - Z.of_nat (length w))))
      end
  end.

Definition atoi (s : list Z) : Z :=
  match skip_blanks s with
  | c :: s' =>
      if c =? MINUS then s32 (- atoi_loop s' 0)
      else if c =? PLUS then s32 (atoi_loop s' 0)
      else s32 (atoi_loop (c :: s') 0)
  | [] => s32 (atoi_loop [] 0)
  end.

(** ** Text *)

(** The numeral of [n], most significant digit first. *)
Fixpoint digs (fuel : nat) (b n : Z) (acc : list Z) : list Z :=
  match fuel with
  | O => acc
  | S fuel' =>
      let acc := default 0 (DIGITS !! Z.to_nat (n mod b)) :: acc in
      if n / b >? 0 then digs fuel' b (n / b) acc else acc
  end.

Definition numeral (b n : Z) : list Z := digs 11 b n [].

(** A field of width [w]: the prefixes and the text with padding. *)
Definition pad (w : Z) (right : bool) (fc : Z) (p1 p2 txt : list Z) : list Z :=
  let fill := replicate (Z.to_nat (w - Z.of_nat (length p1 + length p2 + length txt))) fc in
  if right then p1 ++ p2 ++ txt ++ fill
  else if fc =? ZERO then p1 ++ p2 ++ fill ++ txt
  else fill ++ p1 ++ p2 ++ txt.

Lemma digs_app k b n acc : digs k b n acc = digs k b n [] ++ acc.
Proof.
  revert n acc. induction k as [|k IH]; intros n acc; [done|]. cbn [digs]. case_bool. case_bool; [|done].
  rewrite IH, (IH _ [_]). by rewrite <- app_assoc.
Qed.

Lemma digit_at b n : 8 <= b <= 16 -> exists d, DIGITS !! Z.to_nat (n mod b) = Some d /\ d <> 0.
Proof.
  intros Hb. pose proof (Z.mod_pos_bound n b ltac:(lia)) as Hm.
  destruct (lookup_lt_is_Some_2 DIGITS (Z.to_nat (n mod b))) as [d Hd]; [cbn; lia|]. exists d. split; [done|].
  assert (Forall (fun d => d <> 0) DIGITS) as H by (by repeat constructor). by eapply Forall_lookup_1 in H.
Qed.

Lemma digs_nonzero k b n acc : 8 <= b <= 16 -> Forall (fun d => d <> 0) acc -> Forall (fun d => d <> 0) (digs k b n acc).
Proof.
  intros Hb. revert n acc. induction k as [|k IH]; intros n acc Ha; [done|]. cbn [digs].
  destruct (digit_at b n Hb) as (d & -> & Hd). cbn [default]. case_bool. case_bool; [apply IH|]; by constructor.
Qed.

Lemma cstr_terminated v r : Forall (fun d => d <> 0) v -> Sfs.cstr (v ++ 0 :: r) = v.
Proof. induction 1 as [|c v Hc _ IH]; [done|]. cbn [app Sfs.cstr]. destruct (Z.eqb_spec c 0); [done|by rewrite IH]. Qed.

(** The loop writes the numeral to the left of [x]; it takes a place for each digit. *)
Lemma num_loop_ok k fuel bf x n b : 8 <= b <= 16 -> 0 <= n < b ^ Z.of_nat (S k) -> (k < fuel)%nat ->
  Z.of_nat k <= x < Z.of_nat (length bf) ->
  exists bf' x', num_loop fuel bf x n b = Done (bf', x') /\ drop (Z.to_nat (x' + 1)) bf' = digs (S k) b n (drop (Z.to_nat (x + 1)) bf).
Proof.
  intros Hb. revert fuel bf x n. induction k as [|k IH]; intros fuel bf x n Hn Hf Hx; (destruct fuel as [|fuel]; [lia|]);
    cbn [num_loop digs]; case_bool; destruct (digit_at b n Hb) as (d & Hd & _); rewrite Hd; cbn [default];
    pose proof (Z.mod_pos_bound n b ltac:(lia)); rewrite (rd_Done DIGITS (n mod b) d) by (done || lia); run;
    rewrite wr_Done by lia; run;
    (assert (drop (Z.to_nat x) (<[Z.to_nat x := d]> bf) = d :: drop (Z.to_nat (x + 1)) bf) as Ed
      by (rewrite (drop_S _ d) by (apply list_lookup_insert_eq; lia); f_equal; rewrite list.drop_insert_lt by lia; f_equal; lia)).
  - change (Z.of_nat 1) with 1 in Hn. rewrite Z.pow_1_r in Hn. rewrite Z.div_small by lia. cbn [Z.gtb Z.compare].
    eexists _, _. split; [done|]. by replace (x - 1 + 1) with x by lia.
  - rewrite Z.gtb_ltb. destruct (Z.ltb_spec 0 (n / b)) as [Hp|Hp].
    + destruct (IH fuel (<[Z.to_nat x := d]> bf) (x - 1) (n / b)) as (bf' & x' & -> & E); [|lia|rewrite length_insert; lia|].
      { split; [lia|]. apply Z.div_lt_upper_bound; [lia|]. rewrite Nat2Z.inj_succ, Z.pow_succ_r in Hn by lia. lia. }
      eexists _, _. split; [done|]. rewrite E. replace (x - 1 + 1) with x by lia. by rewrite Ed.
    + eexists _, _. split; [done|]. replace (x - 1 + 1) with x by lia. by rewrite Ed.
Qed.

(** ** Decimal numerals *)

Definition decimal (c : Z) : Prop := ZERO <= c <= NINE.

(** Reading on from the value [a]. *)
Definition dec_value (a : Z) (l : list Z) : Z := fold_left (fun a c => a * 10 + (c - ZERO)) l a.

Lemma decimal_at n : exists c, DIGITS !! Z.to_nat (n mod 10) = Some c /\ c = ZERO + n mod 10 /\ decimal c.
Proof.
  pose proof (Z.mod_pos_bound n 10 ltac:(lia)) as Hm. unfold decimal, ZERO, NINE.
  assert (n mod 10 = 0 \/ n mod 10 = 1 \/ n mod 10 = 2 \/ n mod 10 = 3 \/ n mod 10 = 4 \/ n mod 10 = 5 \/ n mod 10 = 6 \/
    n mod 10 = 7 \/ n mod 10 = 8 \/ n mod 10 = 9) as H by lia.
  destruct_or! H; rewrite H; eexists; (split; [done|lia]).
Qed.

Lemma digs_decimal k n acc : 0 <= n < 10 ^ Z.of_nat (S k) -> Forall decimal acc ->
  Forall decimal (digs (S k) 10 n acc) /\ dec_value 0 (digs (S k) 10 n acc) = dec_value n acc /\
  (0 < n -> match digs (S k) 10 n acc with c :: _ => c <> ZERO | [] => False end).
Proof.
  revert n acc. induction k as [|k IH]; intros n acc Hn Ha; destruct (decimal_at n) as (c & Hc & Ec & Hd).
  - change (10 ^ Z.of_nat 1) with 10 in Hn. cbn [digs]. rewrite Hc. cbn [from_option id]. rewrite Z.div_small by lia. cbn [Z.gtb Z.compare].
    rewrite Z.mod_small in Ec by lia. split; [by constructor|]. split; [|intros; lia]. cbn [dec_value fold_left]. unfold dec_value. f_equal. lia.
  - rewrite Nat2Z.inj_succ, Z.pow_succ_r in Hn by lia. change (digs (S (S k)) 10 n acc) with
      (let acc := default 0 (DIGITS !! Z.to_nat (n mod 10)) :: acc in if n / 10 >? 0 then digs (S k) 10 (n / 10) acc else acc).
    rewrite Hc. cbn [from_option id]. cbv zeta. rewrite Z.gtb_ltb. destruct (Z.ltb_spec 0 (n / 10)) as [Hp|Hp].
    + destruct (IH (n / 10) (c :: acc)) as (H1 & H2 & H3); [split; [lia|]; apply Z.div_lt_upper_bound; lia|by constructor|].
      split; [done|]. split; [|intros _; by apply H3]. rewrite H2. cbn [dec_value fold_left]. unfold dec_value. f_equal. zlia.
    + split; [by constructor|]. cbn [dec_value fold_left]. unfold dec_value. split; [f_equal; zlia|zlia].
Qed.

Lemma numeral_decimal n : 0 <= n < 2 ^ 32 ->
  Forall decimal (numeral 10 n) /\ dec_value 0 (numeral 10 n) = n /\
  (0 < n -> match numeral 10 n with c :: _ => c <> ZERO | [] => False end).
Proof. intros Hn. apply (digs_decimal 10 n []); [change (10 ^ Z.of_nat 11) with 100000000000; lia|constructor]. Qed.

Lemma dec_value_ge l a : Forall decimal l -> 0 <= a -> a <= dec_value a l.
Proof.
  intros Hl. revert a. induction Hl as [|c l Hc _ IH]; intros a Ha; [done|]. unfold decimal, ZERO, NINE in Hc. cbn [dec_value fold_left].
  specialize (IH (a * 10 + (c - ZERO))). unfold dec_value, ZERO in *. lia.
Qed.

Lemma atoi_loop_ok l v : Forall decimal l -> 0 <= v -> dec_value v l < 2 ^ 32 -> atoi_loop l v = dec_value v l.
Proof.
  intros Hl. revert v. induction Hl as [|c l Hc Hl IH]; intros v Hv Hlt; [done|]. cbn [atoi_loop dec_value fold_left] in *.
  change (dec_value (v * 10 + (c - ZERO)) l < 2 ^ 32) in Hlt. unfold decimal, ZERO, NINE in *.
  pose proof (dec_value_ge l (v * 10 + (c - 48)) Hl ltac:(lia)).
  assert (c = 48 \/ c = 49 \/ c = 50 \/ c = 51 \/ c = 52 \/ c = 53 \/ c = 54 \/ c = 55 \/ c = 56 \/ c = 57) as Hcase by lia.
  assert (exists w, Vfs.strchr (take 10 DIGITS) c = Some w /\ 10 - Z.of_nat (length w) = c - 48) as (w & -> & ->)
    by (destruct_or! Hcase; subst c; eexists; (split; [reflexivity|cbn; lia])).
  rewrite u32_small by lia. apply IH; [lia|done].
Qed.

(** ** Formats *)

Definition sign_text (neg : bool) : list Z := if neg then [MINUS] else [].
Definition base_text (b : Z) (prefix : bool) : list Z :=
  if prefix && (b =? 16) then [ZERO; 120] else if prefix && (b =? 8) then [ZERO] else [].

(** The conversions of the manual page ([man/libc/printf.html]) that the code has; the
    page also has [X], which the code does not know. *)
Inductive conv : Type := Dec | Unsigned | Hex | Octal | Pointer | Str | Chr | Pct.

Record field : Type := mk_field { f_alt : bool; f_left : bool; f_long : bool; f_zero : bool; f_width : Z; f_conv : conv }.

Inductive item : Type := Lit (c : Z) | Fld (f : field).

Definition conv_char (cv : conv) : Z :=
  match cv with Dec => 100 | Unsigned => 117 | Hex => 120 | Octal => 111 | Pointer => 112 | Str => 115 | Chr => 99 | Pct => PERCENT end.

(** A field is aligned to the left or padded with zeros, not both. *)
Definition item_ok (it : item) : Prop :=
  match it with
  | Lit c => c <> 0 /\ c <> PERCENT
  | Fld f => 0 <= f_width f <= INT_MAX /\ f_left f && f_zero f = false
  end.

Definition opt (b : bool) (c : Z) : list Z := if b then [c] else [].

Definition format_field (f : field) : list Z :=
  PERCENT :: opt (f_alt f) HASH ++ opt (f_left f) MINUS ++ opt (f_long f) 108 ++ opt (f_zero f) ZERO ++
  (if f_width f =? 0 then [] else numeral 10 (f_width f)) ++ [conv_char (f_conv f)].

Definition format_item (it : item) : list Z := match it with Lit c => [c] | Fld f => format_field f end.

(** The text of a field and the arguments that remain.  The least [int] has no text
    with [%d]: its absolute value is no [int]. *)
Definition render_field (f : field) (args : list arg) : option (list Z * list arg) :=
  let text := pad (f_width f) (f_left f) (if f_zero f then ZERO else SPACE) in
  match f_conv f, args with
  | Dec, AWord w :: args' =>
      if s32 w =? INT_MIN then None else Some (text (sign_text (s32 w <? 0)) [] (numeral 10 (Z.abs (s32 w))), args')
  | Unsigned, AWord w :: args' => Some (text [] [] (numeral 10 w), args')
  | Hex, AWord w :: args' => Some (text [] (base_text 16 (f_alt f)) (numeral 16 w), args')
  | Octal, AWord w :: args' => Some (text [] (base_text 8 (f_alt f)) (numeral 8 w), args')
  | Pointer, AWord w :: args' => Some (text [] (base_text 16 true) (numeral 16 w), args')
  | Str, AStr s :: args' => Some (text [] [] (default NULLTEXT s), args')
  | Chr, AWord w :: args' => Some (text [] [] (Sfs.cstr [w mod 256]), args')
  | Pct, _ => Some (text [] [] [PERCENT], args)
  | _, _ => None
  end.

Fixpoint render (its : list item) (args : list arg) : option (list Z) :=
  match its with
  | [] => Some []
  | Lit c :: its' => t ← render its' args; Some (c :: t)
  | Fld f :: its' => '(t1, args') ← render_field f args; t ← render its' args'; Some (t1 ++ t)
  end.

Definition arg_ok (a : arg) : Prop := match a with AWord w => 0 <= w < 2 ^ 32 | AStr _ => True end.

Section text.
Context {C : Type} {SK : Sink C} {SKOk : SinkOk C}.
Implicit Types (pf : PF (C := C)).

Definition pf_wf pf : Prop := sink_wf (clientdata pf) /\ INT_MIN <= charcount pf <= INT_MAX.

Definition emit pf (txt : list Z) : PF (C := C) :=
  mk_pf (put (clientdata pf) txt) (ap pf) (s32 (charcount pf + Z.of_nat (length txt))) (in_pct pf) (size pf) (num pf) (sign pf) (spacing pf)
    (rightspc pf) (fillchar pf) (base pf) (baseprefix pf) (altformat pf).

Lemma s32_id z : INT_MIN <= z <= INT_MAX -> s32 z = z.
Proof. unfold INT_MIN, INT_MAX, s32, u32. intros. case_bool; zlia. Qed.

Lemma s32_range z : INT_MIN <= s32 z <= INT_MAX.
Proof. unfold INT_MIN, INT_MAX, s32, u32. case_bool; zlia. Qed.

Lemma s32_add a b : s32 (s32 a + b) = s32 (a + b).
Proof. unfold s32, u32. repeat case_bool; zlia. Qed.

Lemma emit_wf pf txt : pf_wf pf -> pf_wf (emit pf txt).
Proof. intros [H1 H2]. split; [by apply put_wf|apply s32_range]. Qed.

Lemma emit_emit pf t1 t2 : emit (emit pf t1) t2 = emit pf (t1 ++ t2).
Proof. unfold emit. cbn. rewrite put_app, s32_add, length_app. do 2 f_equal. lia. Qed.

Lemma emit_nil pf : pf_wf pf -> emit pf [] = pf.
Proof. intros [_ H]. unfold emit. cbn [length]. rewrite put_nil, Z.add_0_r, s32_id by done. by destruct pf. Qed.

Lemma print_ok pf txt : pf_wf pf -> pf_print pf txt = Done (emit pf txt).
Proof. intros [H _]. unfold pf_print. by rewrite send_ok. Qed.

Lemma fill_ok n pf f : pf_wf pf -> fill_loop n pf f = Done (emit pf (replicate n f)).
Proof.
  revert pf. induction n as [|n IH]; intros pf H; cbn [fill_loop]; [by rewrite emit_nil|].
  rewrite print_ok by done. run. rewrite IH by (by apply emit_wf). by rewrite emit_emit.
Qed.

Lemma opt_fill pf spc (b : bool) : pf_wf pf -> 0 <= spc ->
  (if (spc >? 0) && b then pf_fill pf spc else Done pf) = Done (emit pf (if b then replicate (Z.to_nat spc) (fillchar pf) else [])).
Proof.
  intros H Hs. unfold pf_fill. destruct b; rewrite ?andb_true_r, ?andb_false_r; [|by rewrite emit_nil].
  case_bool. case_bool; [by apply fill_ok|]. replace spc with 0 by lia. by rewrite emit_nil.
Qed.

Lemma printstuff_ok pf p1 p2 txt : pf_wf pf ->
  pf_printstuff pf p1 p2 txt = Done (emit pf (pad (spacing pf) (rightspc pf) (fillchar pf) p1 p2 txt)).
Proof.
  intros H. unfold pf_printstuff, pad. set (len := Z.of_nat (length p1 + length p2 + length txt)).
  set (spc := if spacing pf >? len then spacing pf - len else 0).
  assert (Z.to_nat (spacing pf - len) = Z.to_nat spc) as -> by (unfold spc; case_bool; case_bool; lia).
  assert (0 <= spc) as H0 by (unfold spc; case_bool; case_bool; lia). clearbody spc.
  rewrite <- andb_assoc, opt_fill by done. run. do 2 (rewrite print_ok by (repeat apply emit_wf; done); run).
  rewrite <- andb_assoc, opt_fill by (repeat apply emit_wf; done). run. rewrite print_ok by (repeat apply emit_wf; done). run.
  rewrite opt_fill by (repeat apply emit_wf; done). rewrite !emit_emit. cbn [emit rightspc fillchar]. do 2 f_equal.
  destruct (rightspc pf), (fillchar pf =? ZERO); cbn [negb andb]; rewrite ?app_nil_r, <- ?app_assoc; done.
Qed.

Lemma printnum_ok pf : pf_wf pf -> 8 <= base pf <= 16 -> 0 <= num pf < 2 ^ 32 ->
  pf_printnum pf = Done (emit pf (pad (spacing pf) (rightspc pf) (fillchar pf) (sign_text (sign pf)) (base_text (base pf) (baseprefix pf))
    (numeral (base pf) (num pf)))).
Proof.
  intros H Hb Hn. unfold pf_printnum. change NUMBER_BUF_SIZE with 12. rewrite wr_Done by (rewrite length_replicate; lia). run.
  destruct (num_loop_ok 10 32 (<[Z.to_nat (12 - 1) := 0]> (replicate (Z.to_nat 12) 255)) (12 - 2) (num pf) (base pf)) as (bf & x & -> & E);
    [done| |lia|rewrite length_insert, length_replicate; lia|].
  { pose proof (Z.pow_le_mono_l 8 (base pf) (Z.of_nat 11)). change (8 ^ Z.of_nat 11) with (2 ^ 33) in *. lia. }
  run. rewrite E. change (drop _ _) with [0]. rewrite digs_app, cstr_terminated by (by apply digs_nonzero).
  rewrite printstuff_ok by done. done.
Qed.

(** The machine between two fields, and inside one. *)
Definition idle (c : C) (args : list arg) (n : Z) : PF (C := C) := mk_pf c args n false INTSZ 0 false 0 false SPACE 0 false false.
Definition inside (c : C) (args : list arg) (n : Z) (sz : intsize) (w : Z) (left : bool) (fc : Z) (alt : bool) : PF (C := C) :=
  mk_pf c args n true sz 0 false w left fc 0 false alt.

Lemma send_all_app pf l1 l2 : send_all pf (l1 ++ l2) = (pf1 ← send_all pf l1; send_all pf1 l2).
Proof.
  revert pf. induction l1 as [|ch l1 IH]; intros pf; [done|]. cbn [app send_all].
  destruct (pf_send pf ch) as [pf1|]; run; [apply IH|done].
Qed.

Lemma flag_step c args n sz w left fc alt (b : bool) (ch : Z) pf' l :
  (pf_send (inside c args n sz w left fc alt) ch = Done pf') ->
  send_all (inside c args n sz w left fc alt) (opt b ch ++ l) = send_all (if b then pf' else inside c args n sz w left fc alt) l.
Proof. intros E. destruct b; [|done]. cbn [opt app send_all]. by rewrite E. Qed.

Lemma digit_step c args n sz w left fc alt ch : decimal ch -> 0 <= w -> (0 < w \/ ch <> ZERO) -> w * 10 + (ch - ZERO) <= INT_MAX ->
  pf_send (inside c args n sz w left fc alt) ch = Done (inside c args n sz (w * 10 + (ch - ZERO)) left fc alt).
Proof.
  unfold decimal, ZERO, NINE, INT_MAX. intros Hd Hw Hz Hmax.
  assert (occurs MODIFIERS ch = true) as Ho.
  { assert (ch = 48 \/ ch = 49 \/ ch = 50 \/ ch = 51 \/ ch = 52 \/ ch = 53 \/ ch = 54 \/ ch = 55 \/ ch = 56 \/ ch = 57) as H by lia.
    destruct_or! H; by subst ch. }
  unfold pf_send, assert. case_bool. cbn [in_pct inside negb andb]. rewrite Ho. unfold pf_modifier, HASH, MINUS, ZERO, NINE.
  cbn [spacing inside]. replace (ch =? 35) with false by lia. replace (ch =? 45) with false by lia.
  replace (ch =? 108) with false by lia. replace (ch =? 113) with false by lia. cbn [orb].
  rewrite !(int_Done (w * 10)) by (unfold INT_MIN, INT_MAX; lia). run. destruct (Z.eqb_spec ch 48) as [->|Hne].
  - replace (w >? 0) with true by lia. run. by replace (w * 10 + (48 - 48)) with (w * 10) by lia.
  - replace (ch >? 48) with true by lia. replace (ch <=? 57) with true by lia. run. by rewrite int_Done by (unfold INT_MIN, INT_MAX; lia).
Qed.

Lemma digits_ok c args n sz left fc alt l w : Forall decimal l -> 0 <= w ->
  (0 < w \/ match l with ch :: _ => ch <> ZERO | [] => True end) -> dec_value w l <= INT_MAX ->
  send_all (inside c args n sz w left fc alt) l = Done (inside c args n sz (dec_value w l) left fc alt).
Proof.
  intros Hl. revert w. induction Hl as [|ch l Hc Hl IH]; intros w Hw Hz Hmax; [done|]. cbn [send_all dec_value fold_left] in *.
  change (dec_value (w * 10 + (ch - ZERO)) l <= INT_MAX) in Hmax. unfold decimal in Hc.
  pose proof (dec_value_ge l (w * 10 + (ch - ZERO)) Hl ltac:(lia)). rewrite digit_step by (done || lia). run. apply IH; [lia|left; lia|done].
Qed.

(** An integer field is printed and ends. *)
Lemma integer_step pf ch ap' nm sg : pf_wf pf -> pf_getnum pf ch = Done (set_num pf ap' nm sg) -> 8 <= base (pf_setbase pf ch) <= 16 ->
  0 <= nm < 2 ^ 32 -> ch <> 0 -> in_pct pf = true -> occurs MODIFIERS ch = false -> occurs INTEGERS ch = true ->
  let t := pad (spacing pf) (rightspc pf) (fillchar pf) (sign_text sg) (base_text (base (pf_setbase pf ch)) (baseprefix (pf_setbase pf ch)))
    (numeral (base (pf_setbase pf ch)) nm) in
  pf_send pf ch = Done (idle (put (clientdata pf) t) ap' (s32 (charcount pf + Z.of_nat (length t)))).
Proof.
  intros Hw Eg Hb Hn H0 Hp Hm Hi t. unfold pf_send, assert. case_bool. rewrite Hp. cbn [negb andb]. rewrite Hm, Hi, Eg. run.
  rewrite printnum_ok; [done|exact Hw|exact Hb|done].
Qed.

Lemma text_step pf p1 : pf_wf pf ->
  (pf ← pf_printstuff pf [] [] p1; Done (pf_endfield pf)) =
  let t := pad (spacing pf) (rightspc pf) (fillchar pf) [] [] p1 in
  Done (idle (put (clientdata pf) t) (ap pf) (s32 (charcount pf + Z.of_nat (length t)))).
Proof. intros Hw. by rewrite printstuff_ok. Qed.

Lemma conv_step c args n f t args' : pf_wf (idle c args n) -> Forall arg_ok args -> item_ok (Fld f) -> render_field f args = Some (t, args') ->
  pf_send (inside c args n (if f_long f then LONGSZ else INTSZ) (f_width f) (f_left f) (if f_zero f then ZERO else SPACE) (f_alt f))
    (conv_char (f_conv f)) = Done (idle (put c t) args' (s32 (n + Z.of_nat (length t)))).
Proof.
  intros Hw Ha _. unfold render_field. set (pf := inside _ _ _ _ _ _ _ _). assert (pf_wf pf) as Hw' by exact Hw.
  destruct (f_conv f); [destruct args as [|[w|s] args0]; try done; apply list.Forall_cons in Ha as [Ha _]; cbn [arg_ok] in Ha; intros E0..|].
  1: destruct (Z.eqb_spec (s32 w) INT_MIN) as [|Hmin]; [done|]. 1-7: injection E0 as <- <-.
  - change (conv_char Dec) with 100. destruct (Z.ltb_spec w (2 ^ 31)) as [Hp|Hp].
    + assert (s32 w = w) as E by (apply s32_small; lia). rewrite !E. replace (w <? 0) with false by lia. rewrite Z.abs_eq by lia.
      rewrite (integer_step pf 100 args0 w false); try done; cbn; [by destruct (f_alt f)|].
      unfold pf_getnum. cbn. rewrite E. by replace (w <? 0) with false by lia.
    + assert (s32 w = w - 2 ^ 32) as E by (unfold s32, u32; rewrite Z.mod_small by lia; case_bool; done).
      rewrite E in Hmin. unfold INT_MIN in Hmin.
      rewrite !E. replace (w - 2 ^ 32 <? 0) with true by lia. rewrite Z.abs_neq by lia.
      rewrite (integer_step pf 100 args0 (- (w - 2 ^ 32)) true); try done; cbn; [by destruct (f_alt f)|..|lia].
      unfold pf_getnum. cbn. rewrite E. replace (w - 2 ^ 32 <? 0) with true by lia. by rewrite int_Done by (unfold INT_MIN, INT_MAX; lia).
  - change (conv_char Unsigned) with 117. rewrite (integer_step pf 117 args0 w false); try done; cbn; by destruct (f_alt f).
  - change (conv_char Hex) with 120. rewrite (integer_step pf 120 args0 w false); try done; cbn; by destruct (f_alt f).
  - change (conv_char Octal) with 111. rewrite (integer_step pf 111 args0 w false); try done; cbn; by destruct (f_alt f).
  - change (conv_char Pointer) with 112. rewrite (integer_step pf 112 args0 w false); try done; cbn; by destruct (f_alt f).
  - exact (text_step (set_num pf args0 0 false) (default NULLTEXT s) Hw').
  - exact (text_step (set_num pf args0 0 false) (Sfs.cstr [w mod 256]) Hw').
  - intros [= <- <-]. exact (text_step (set_num pf args 0 false) [PERCENT] Hw').
Qed.

Lemma field_ok c args n f t args' : pf_wf (idle c args n) -> Forall arg_ok args -> item_ok (Fld f) -> render_field f args = Some (t, args') ->
  send_all (idle c args n) (format_field f) = Done (idle (put c t) args' (s32 (n + Z.of_nat (length t)))).
Proof.
  intros Hw Ha Hok Hr. unfold format_field. cbn [send_all]. change (pf_send (idle c args n) PERCENT) with (Done (inside c args n INTSZ 0 false SPACE false)). run.
  erewrite flag_step by reflexivity.
  transitivity (send_all (inside c args n INTSZ 0 false SPACE (f_alt f)) (opt (f_left f) MINUS ++ opt (f_long f) 108 ++ opt (f_zero f) ZERO ++
    (if f_width f =? 0 then [] else numeral 10 (f_width f)) ++ [conv_char (f_conv f)])); [by destruct (f_alt f)|].
  erewrite flag_step by reflexivity.
  transitivity (send_all (inside c args n INTSZ 0 (f_left f) SPACE (f_alt f)) (opt (f_long f) 108 ++ opt (f_zero f) ZERO ++
    (if f_width f =? 0 then [] else numeral 10 (f_width f)) ++ [conv_char (f_conv f)])); [by destruct (f_left f)|].
  erewrite flag_step by reflexivity.
  transitivity (send_all (inside c args n (if f_long f then LONGSZ else INTSZ) 0 (f_left f) SPACE (f_alt f)) (opt (f_zero f) ZERO ++
    (if f_width f =? 0 then [] else numeral 10 (f_width f)) ++ [conv_char (f_conv f)])); [by destruct (f_long f)|].
  erewrite flag_step by reflexivity.
  transitivity (send_all (inside c args n (if f_long f then LONGSZ else INTSZ) 0 (f_left f) (if f_zero f then ZERO else SPACE) (f_alt f))
    ((if f_width f =? 0 then [] else numeral 10 (f_width f)) ++ [conv_char (f_conv f)])); [by destruct (f_zero f)|].
  assert (forall sz fc, send_all (inside c args n sz 0 (f_left f) fc (f_alt f)) (if f_width f =? 0 then [] else numeral 10 (f_width f)) =
    Done (inside c args n sz (f_width f) (f_left f) fc (f_alt f))) as Hd.
  { intros sz fc. destruct Hok as [Hwd _]. unfold INT_MAX in Hwd. destruct (Z.eqb_spec (f_width f) 0) as [->|Hne]; [done|].
    destruct (numeral_decimal (f_width f)) as (H1 & H2 & H3); [lia|]. rewrite digits_ok; [by rewrite H2|done|done| |rewrite H2; unfold INT_MAX; lia].
    right. specialize (H3 ltac:(lia)). by destruct (numeral 10 (f_width f)). }
  rewrite send_all_app, Hd. run. cbn [send_all]. by rewrite (conv_step c args n f t args').
Qed.

Lemma render_args f args t args' : render_field f args = Some (t, args') -> Forall arg_ok args -> Forall arg_ok args'.
Proof.
  unfold render_field. intros E Ha. destruct (f_conv f), args as [|[w|s] args0]; try done;
    try (destruct (s32 w =? INT_MIN); [done|]); injection E as <- <-; try done; by apply list.Forall_cons in Ha as [_ Ha].
Qed.

Lemma render_ok its c args n t : pf_wf (idle c args n) -> Forall arg_ok args -> Forall item_ok its -> render its args = Some t ->
  exists args', send_all (idle c args n) (its ≫= format_item) = Done (idle (put c t) args' (s32 (n + Z.of_nat (length t)))).
Proof.
  revert c args n t. induction its as [|it its IH]; intros c args n t Hw Ha Hi Hr.
  - injection Hr as <-. exists args. cbn. rewrite put_nil, Z.add_0_r, s32_id; [done|apply Hw].
  - apply list.Forall_cons in Hi as [Hok Hi]. rewrite bind_cons. cbn [render] in Hr.
    assert (exists t1 t2 args', t = t1 ++ t2 /\ render its args' = Some t2 /\ Forall arg_ok args' /\
      send_all (idle c args n) (format_item it) = Done (idle (put c t1) args' (s32 (n + Z.of_nat (length t1))))) as (t1 & t2 & args' & -> & Hr2 & Ha' & E).
    { destruct it as [ch|f].
      - destruct (render its args) as [t2|] eqn:E2; [|done]. injection Hr as <-. exists [ch], t2, args. split_and!; [done..|].
        destruct Hok as [H0 H1]. cbn [format_item send_all]. unfold pf_send. replace (ch =? 0) with false by lia. replace (ch =? PERCENT) with false by lia.
        cbn [in_pct idle negb andb assert]. by rewrite print_ok.
      - destruct (render_field f args) as [[t1 args']|] eqn:E1; [|done]. cbn in Hr. destruct (render its args') as [t2|] eqn:E2; [|done].
        injection Hr as <-. exists t1, t2, args'. split_and!; [done|done|by eapply render_args|by apply field_ok]. }
    destruct (IH (put c t1) args' (s32 (n + Z.of_nat (length t1))) t2) as (a2 & E2); [|done..|].
    { destruct Hw as [Hw _]. split; [by apply put_wf|apply s32_range]. }
    exists a2. rewrite send_all_app, E. run. rewrite E2. rewrite put_app, s32_add, length_app. do 3 f_equal. lia.
Qed.

(** The arguments fit the conversions of a format, inside a field of width [w] or not.
    Not allowed are [%X] (88), a conversion of the manual page that the code does not
    know, and the least [int] with [%d], whose negation overflows.  Other unknown
    conversions take no argument. *)
Fixpoint typed (pct : bool) (w : Z) (format : list Z) (args : list arg) : bool :=
  match format with
  | [] => true
  | ch :: format' =>
      negb (ch =? 0) &&
      if negb pct then typed (ch =? PERCENT) w format' args
      else if occurs MODIFIERS ch then
        let w' := if (ZERO <=? ch) && (ch <=? NINE) then w * 10 + (ch - ZERO) else w in
        (w' <=? INT_MAX) && typed true w' format' args
      else if occurs INTEGERS ch || (ch =? 99) then
        match args with
        | AWord x :: args' => (0 <=? x) && (x <? 2 ^ 32) && negb ((ch =? 100) && (x =? 2 ^ 31)) && typed false 0 format' args'
        | _ => false
        end
      else if ch =? 115 then match args with AStr _ :: args' => typed false 0 format' args' | _ => false end
      else negb (ch =? 88) && typed false 0 format' args
  end.

(** What the machine knows of a well-typed rest. *)
Record ready (pct : bool) (w : Z) (args : list arg) pf : Prop := {
  rd_wf : pf_wf pf;
  rd_pct : in_pct pf = pct;
  rd_width : spacing pf = w;
  rd_args : ap pf = args
}.

Lemma occurs_in l ch : occurs l ch = true -> ch ∈ l.
Proof.
  unfold occurs. induction l as [|x l IH]; cbn; [done|]. destruct (Z.eqb_spec x ch) as [->|]; [intros _; constructor|].
  intros H. constructor. by apply IH.
Qed.

Lemma modifier_typed w args pf ch : ready true w args pf -> 0 <= w -> occurs MODIFIERS ch = true ->
  let w' := if (ZERO <=? ch) && (ch <=? NINE) then w * 10 + (ch - ZERO) else w in w' <= INT_MAX ->
  exists pf', pf_modifier pf ch = Done pf' /\ ready true w' args pf' /\ 0 <= w'.
Proof.
  intros [Hw Hp Hs Ha] H0 Ho w' Hm. assert (forall sz spc r fc alt, ready true spc args (set_format pf true sz spc r fc alt)) as Hset by (by split).
  apply occurs_in in Ho. unfold MODIFIERS in Ho. rewrite !elem_of_cons, elem_of_nil in Ho. unfold pf_modifier. rewrite Hp, Hs.
  unfold HASH, MINUS, ZERO, NINE in *.
  destruct_or! Ho; try done; subst ch; subst w'; cbn in Hm |- *; unfold INT_MAX in Hm;
    rewrite ?(int_Done (w * 10)) by (unfold INT_MIN, INT_MAX; lia); run; rewrite ?int_Done by (unfold INT_MIN, INT_MAX; lia); run;
    try (eexists; split; [done|]; split; [apply Hset|lia]).
  rewrite Z.gtb_ltb. destruct (Z.ltb_spec 0 w); run; eexists; (split; [done|]); (split; [|lia]).
  - replace (w * 10 + (48 - 48)) with (w * 10) by lia. apply Hset.
  - replace (w * 10 + (48 - 48)) with w by lia. apply Hset.
Qed.

Lemma idle_ready c args n t : sink_wf c -> ready false 0 args (idle (put c t) args (s32 (n + Z.of_nat (length t)))).
Proof. intros Hc. split; [split; [by apply put_wf|apply s32_range]|done..]. Qed.

Lemma integer_typed w args x pf ch : ready true w (AWord x :: args) pf -> 0 <= x < 2 ^ 32 -> (ch = 100 -> x <> 2 ^ 31) -> ch <> 0 ->
  occurs MODIFIERS ch = false -> occurs INTEGERS ch = true -> exists pf', pf_send pf ch = Done pf' /\ ready false 0 args pf'.
Proof.
  intros [Hw Hp Hs Ha] Hx Hne H0 Hm Hi. pose proof (occurs_in _ _ Hi) as Hin. unfold INTEGERS in Hin. rewrite !elem_of_cons, elem_of_nil in Hin.
  assert (8 <= base (pf_setbase pf ch) <= 16) as Hb by (destruct_or! Hin; try done; subst ch; cbn; lia).
  assert (exists nm sg, pf_getnum pf ch = Done (set_num pf args nm sg) /\ 0 <= nm < 2 ^ 32) as (nm & sg & Eg & Hn).
  { unfold pf_getnum. rewrite Ha. cbn [va_word]. run. pose proof (s32_range x) as Hr. unfold INT_MIN, INT_MAX in Hr.
    destruct (ch =? 112); [by eexists _, _|]. destruct (Z.eqb_spec ch 100) as [E100|]; [|by eexists _, _].
    specialize (Hne E100). assert (s32 x <> - 2 ^ 31) by (unfold s32, u32; rewrite Z.mod_small by lia; case_bool; lia).
    destruct (Z.ltb_spec (s32 x) 0); [|eexists _, _; split; [done|lia]].
    rewrite int_Done by (unfold INT_MIN, INT_MAX; lia). run. eexists _, _. split; [done|lia]. }
  eexists. split; [by apply (integer_step pf ch args nm sg)|]. apply idle_ready, Hw.
Qed.

Lemma printf_progress format pct w args pf : ready pct w args pf -> 0 <= w -> typed pct w format args = true ->
  exists pf', send_all pf format = Done pf'.
Proof.
  revert pct w args pf. induction format as [|ch format IH]; intros pct w args pf Hr Hw Ht; [by exists pf|]. cbn [typed send_all] in *.
  apply andb_true_iff in Ht as [H0 Ht]. apply negb_true_iff, Z.eqb_neq in H0.
  assert (exists pct' w' args' pf', pf_send pf ch = Done pf' /\ ready pct' w' args' pf' /\ 0 <= w' /\ typed pct' w' format args' = true)
    as (pct' & w' & args' & pf' & -> & Hr' & Hw' & Ht'); [|by eapply IH].
  pose proof Hr as [Hwf Hp Hs Ha]. destruct pct; cbn [negb] in Ht.
  2:{ unfold pf_send. replace (ch =? 0) with false by lia. rewrite Hp. cbn [negb andb assert]. destruct (ch =? PERCENT); cbn [negb].
      - eexists true, w, args, _. split; [done|]. split; [by split|done].
      - rewrite print_ok by done. eexists false, w, args, _. split; [done|]. split; [split; [by apply emit_wf|done..]|done]. }
  destruct (occurs MODIFIERS ch) eqn:Em.
  { apply andb_true_iff in Ht as [Hm Ht]. apply Z.leb_le in Hm. destruct (modifier_typed w args pf ch Hr Hw Em Hm) as (pf' & E & Hr' & Hw').
    unfold pf_send. replace (ch =? 0) with false by lia. rewrite Hp, Em. cbn [negb andb assert]. rewrite E. by eexists _, _, _, _. }
  destruct (occurs INTEGERS ch) eqn:Ei.
  { cbn [orb] in Ht. destruct args as [|[x|] args]; [done| |done]. apply andb_true_iff in Ht as [[[Hx1%Z.leb_le Hx2%Z.ltb_lt]%andb_true_iff Hx3]%andb_true_iff Ht].
    destruct (integer_typed w args x pf ch Hr) as (pf' & -> & Hr'); [lia| |done..|].
    { intros -> ->. done. } by eexists _, _, _, _. }
  unfold pf_send. replace (ch =? 0) with false by lia. rewrite Hp, Em, Ei. cbn [negb andb assert orb] in *.
  destruct (Z.eqb_spec ch 99) as [->|H99]; cbn [orb] in Ht.
  { destruct args as [|[x|] args]; [done| |done]. apply andb_true_iff in Ht as [_ Ht]. rewrite Ha. cbn [Z.eqb Pos.eqb va_word]. run.
    rewrite text_step by exact Hwf. eexists _, _, _, _. split; [done|]. split; [apply idle_ready, Hwf|done]. }
  destruct (Z.eqb_spec ch 115) as [->|H115].
  { destruct args as [|[x|str] args]; [done|done|]. rewrite Ha. rewrite text_step by exact Hwf. eexists _, _, _, _. split; [done|].
    split; [apply idle_ready, Hwf|done]. }
  apply andb_true_iff in Ht as [_ Ht]. run. rewrite text_step by exact Hwf. eexists _, _, _, _. split; [done|]. cbn [ap set_num]. rewrite Ha. split; [apply idle_ready, Hwf|done].
Qed.

(** C39. A [printf] whose arguments fit its format does not go wrong.  The format may be
    any string without [%X], with flags and widths in any order and unknown
    conversions, which take no argument; if the arguments have the types of the
    conversions, no field is wider than an [int] can say, and [%d] is not used for the
    least [int], then the call returns, for every function that takes the output. *)
Theorem printf_type_safe (c : C) format args : sink_wf c -> typed false 0 format args = true ->
  exists c' n, vprintf c format args = Done (c', n).
Proof.
  intros Hc Ht. unfold vprintf. change (mk_pf _ _ _ _ _ _ _ _ _ _ _ _ _) with (idle c args 0).
  destruct (printf_progress format false 0 args (idle c args 0)) as (pf & ->); [|done..|by eexists _, _].
  split; [split; [done|cbn; unfold INT_MIN, INT_MAX; lia]|done..].
Qed.

End text.

(** ** The buffer of [snprintf] *)

Fixpoint snp_put (snp : SNP) (data : list Z) : SNP :=
  match data with
  | [] => snp
  | c :: data' =>
      snp_put (if bufpos snp <? buflen snp then mk_snp (<[Z.to_nat (bufpos snp) := c]> (buf snp)) (buflen snp) (bufpos snp + 1) else snp) data'
  end.

Definition snp_wf (snp : SNP) : Prop := 0 <= bufpos snp <= buflen snp /\ buflen snp <= Z.of_nat (length (buf snp)).

Lemma snp_step snp c : snp_wf snp ->
  snp_wf (if bufpos snp <? buflen snp then mk_snp (<[Z.to_nat (bufpos snp) := c]> (buf snp)) (buflen snp) (bufpos snp + 1) else snp).
Proof. unfold snp_wf. intros H. case_bool; cbn; rewrite ?length_insert; lia. Qed.

Lemma snp_send_ok data snp : snp_wf snp -> snprintf_send snp data = Done (snp_put snp data) /\ snp_wf (snp_put snp data).
Proof.
  revert snp. induction data as [|c data IH]; intros snp H; [done|]. pose proof (snp_step snp c H) as H'. cbn [snprintf_send snp_put].
  unfold snp_wf in H. destruct (Z.ltb_spec (bufpos snp) (buflen snp)).
  - rewrite wr_Done by lia. run. by apply IH.
  - run. by apply IH.
Qed.

#[export] Instance snp_sink_ok : SinkOk SNP.
Proof.
  refine {| sink_wf := snp_wf; put := snp_put |}.
  - intros c l H. by apply snp_send_ok.
  - intros c l H. by apply snp_send_ok.
  - done.
  - intros c l1. revert c. induction l1 as [|x l1 IH]; intros c l2; [done|]. cbn [app snp_put]. apply IH.
Defined.

(** What the buffer holds: as much of the text as fits. *)
Lemma snp_put_eq l b L p : 0 <= p <= L -> L <= Z.of_nat (length b) ->
  let k := Nat.min (Z.to_nat (L - p)) (length l) in
  snp_put (mk_snp b L p) l = mk_snp (take (Z.to_nat p) b ++ take k l ++ drop (Z.to_nat p + k) b) L (p + Z.of_nat k).
Proof.
  revert b p. induction l as [|c l IH]; intros b p Hp HL; cbn [snp_put length].
  - rewrite Nat.min_0_r. cbn. by rewrite Nat.add_0_r, take_drop, Z.add_0_r.
  - cbn [bufpos buflen buf]. destruct (Z.ltb_spec p L) as [Hlt|Hge].
    + rewrite IH by (rewrite ?length_insert; lia). replace (Z.to_nat (L - p)) with (S (Z.to_nat (L - (p + 1)))) by lia. cbn [Nat.min].
      set (k := Nat.min (Z.to_nat (L - (p + 1))) (length l)). cbn [take app]. f_equal; [|lia].
      replace (Z.to_nat (p + 1)) with (S (Z.to_nat p)) by lia.
      rewrite (take_S_r _ _ c) by (apply list_lookup_insert_eq; lia). rewrite list.take_insert_ge by lia. rewrite list.drop_insert_lt by lia.
      rewrite <- app_assoc. cbn [app]. do 4 f_equal. lia.
    + replace (Z.to_nat (L - p)) with 0%nat by lia. rewrite IH by lia. replace (Z.to_nat (L - p)) with 0%nat by lia. done.
Qed.

Lemma snprintf_ok its args t b len : Forall item_ok its -> Forall arg_ok args -> render its args = Some t ->
  0 <= len <= Z.of_nat (length b) -> Z.of_nat (length t) <= INT_MAX ->
  let k := Nat.min (Z.to_nat (len - 1)) (length t) in
  vsnprintf b len (its ≫= format_item) args =
  Done (if len =? 0 then b else take k t ++ 0 :: drop (S k) b, Z.of_nat (length t)).
Proof.
  intros Hi Ha Hr Hl Ht k. unfold vsnprintf, vprintf. set (snp := mk_snp b (if len =? 0 then 0 else len - 1) 0).
  assert (snp_wf snp) as Hs by (unfold snp_wf, snp; cbn; case_bool; lia).
  destruct (render_ok its snp args 0 t) as (args' & E); [split; [done|cbn; unfold INT_MIN, INT_MAX; lia]|done..|].
  change (mk_pf _ _ _ _ _ _ _ _ _ _ _ _ _) with (idle snp args 0). rewrite E. run. cbn [clientdata charcount idle]. rewrite Z.add_0_l, s32_id by (unfold INT_MIN; lia).
  change (put snp t) with (snp_put snp t). unfold snp. rewrite Z.gtb_ltb. destruct (Z.eqb_spec len 0) as [->|Hne].
  - rewrite snp_put_eq by lia. cbn. done.
  - replace (0 <? len) with true by lia. rewrite snp_put_eq by lia. cbn [buf bufpos Z.to_nat take app]. rewrite Z.sub_0_r, Z.add_0_l.
    fold k. change (take (Z.to_nat 0) b) with (@nil Z). change (Z.to_nat 0 + k)%nat with k. cbn [app]. assert (k < length b)%nat by lia.
    rewrite wr_Done by (rewrite length_app, length_take, length_drop; lia). run. do 2 f_equal. rewrite Nat2Z.id.
    assert (length (take k t) = k) as Hk by (rewrite length_take; lia). rewrite insert_app_r_alt by lia. rewrite Hk, Nat.sub_diag.
    destruct (lookup_lt_is_Some_2 b k) as [y Hy]; [done|]. by rewrite (drop_S _ _ _ Hy).
Qed.

(** C23. [snprintf] formats as the format says and stays inside its buffer.  For every
    format that is built from plain characters and fields with flags (not left
    alignment and zero padding together), a width and one of the conversions [d], [u],
    [x], [o], [p], [s], [c] and [%], and arguments of the right types (the least [int]
    not with [%d]), the call returns the length of the whole text; the buffer holds as much of the text as fits before the last
    byte and then a terminator, and nothing behind that has changed. *)
Theorem snprintf_correct its args t b len : Forall item_ok its -> Forall arg_ok args -> render its args = Some t ->
  0 <= len <= Z.of_nat (length b) -> Z.of_nat (length t) <= INT_MAX ->
  let k := Nat.min (Z.to_nat (len - 1)) (length t) in
  vsnprintf b len (its ≫= format_item) args =
  Done (if len =? 0 then b else take k t ++ 0 :: drop (S k) b, Z.of_nat (length t)).
Proof. apply snprintf_ok. Qed.

Lemma digs_length k j b n acc : 0 < b -> 0 <= n < b ^ Z.of_nat (S j) -> (length (digs k b n acc) <= S j + length acc)%nat.
Proof.
  intros Hb. revert j n acc. induction k as [|k IH]; intros j n acc Hn; cbn [digs]; [lia|]. rewrite Z.gtb_ltb.
  destruct (Z.ltb_spec 0 (n / b)) as [Hp|Hp]; [|cbn; lia]. destruct j as [|j].
  - change (Z.of_nat 1) with 1 in Hn. rewrite Z.pow_1_r in Hn. rewrite Z.div_small in Hp by lia. lia.
  - rewrite Nat2Z.inj_succ, Z.pow_succ_r in Hn by lia. etransitivity; [apply (IH j); split; [lia|]; apply Z.div_lt_upper_bound; lia|]. cbn. lia.
Qed.

(** The text of [%d]. *)
Definition decimal_text (n : Z) : list Z := sign_text (n <? 0) ++ numeral 10 (Z.abs n).

Lemma decimal_text_ok n : INT_MIN < n <= INT_MAX -> (length (decimal_text n) <= 11)%nat /\ Forall (fun c => c <> 0) (decimal_text n) /\ atoi (decimal_text n) = n.
Proof.
  unfold INT_MIN, INT_MAX. intros Hn. unfold decimal_text. remember (Z.abs n) as a eqn:Ea. assert (0 <= a < 2 ^ 31) as Ha by lia.
  pose proof (digs_length 11 9 10 a [] ltac:(lia) ltac:(change (10 ^ Z.of_nat 10) with 10000000000; lia)) as Hl. cbn [length] in Hl.
  destruct (numeral_decimal a ltac:(lia)) as (Hd & Hv & _).
  pose proof (digs_nonzero 11 10 a [] ltac:(lia) ltac:(constructor)) as Hnz. fold (numeral 10 a) in *.
  assert (atoi_loop (numeral 10 a) 0 = a) as Hat by (rewrite atoi_loop_ok by (done || lia); done).
  destruct (Z.ltb_spec n 0) as [Hneg|Hpos]; cbn [sign_text app length].
  - split; [lia|]. split; [by constructor|]. cbn [atoi skip_blanks]. unfold atoi. cbn [skip_blanks MINUS SPACE Z.eqb Pos.eqb orb].
    rewrite Hat. replace (- a) with n by lia. apply s32_id. unfold INT_MIN, INT_MAX. lia.
  - split; [lia|]. split; [done|]. unfold atoi. destruct (numeral 10 a) as [|c l] eqn:E.
    + cbn [dec_value fold_left] in Hv. cbn [skip_blanks atoi_loop]. by replace n with 0 by lia.
    + apply list.Forall_cons in Hd as [Hc _]. unfold decimal, ZERO, NINE in Hc. cbn [skip_blanks]. unfold SPACE, MINUS, PLUS. repeat case_bool.
      rewrite Hat. replace a with n by lia. apply s32_id. unfold INT_MIN, INT_MAX. lia.
Qed.

(** C40. A number that [snprintf] prints with [%d] is read back by [atoi]: for every [int]
    but the least one, and every buffer of at least 12 bytes. *)
Theorem printf_atoi_roundtrip n b len : INT_MIN < n <= INT_MAX -> 12 <= len <= Z.of_nat (length b) ->
  exists b' k, vsnprintf b len [PERCENT; 100] [AWord (u32 n)] = Done (b', k) /\ atoi (Sfs.cstr b') = n.
Proof.
  intros Hn Hl. destruct (decimal_text_ok n Hn) as (Hlen & Hnz & Hat). unfold INT_MIN, INT_MAX in Hn.
  assert (s32 (u32 n) = n) as Es by (unfold s32, u32; rewrite Z.mod_mod by lia; case_bool; zlia).
  pose proof (snprintf_ok [Fld (mk_field false false false false 0 Dec)] [AWord (u32 n)] (decimal_text n) b len) as H. cbv zeta in H.
  eexists _, _. split; [apply H|].
  - constructor; [|done]. split; [cbn; unfold INT_MAX; lia|done].
  - constructor; [|done]. unfold arg_ok, u32. zlia.
  - cbn [render render_field f_conv f_width f_left f_zero]. rewrite Es. replace (n =? INT_MIN) with false by (unfold INT_MIN; lia). unfold pad, decimal_text. cbn [ZERO SPACE Z.eqb Pos.eqb].
    replace (Z.to_nat _) with 0%nat by lia. cbn. by rewrite app_nil_r.
  - lia.
  - unfold INT_MAX. lia.
  - replace (len =? 0) with false by lia. rewrite Nat.min_r by lia. rewrite firstn_all. by rewrite cstr_terminated.
Qed.

(** ** Witnesses *)

(** "x=%#6x,%s" *)
Definition ex_items : list item := [Lit 120; Lit 61; Fld (mk_field true false false false 6 Hex); Lit 44; Fld (mk_field false false false false 0 Str)].
Definition ex_args : list arg := [AWord 255; AStr (Some [97; 98])].

Lemma snprintf_correct_witness : vsnprintf (replicate 16 7) 10 (ex_items ≫= format_item) ex_args =
  Done ([120; 61; 32; 32; 48; 120; 102; 102; 44; 0] ++ replicate 6 7, 11).
Proof.
  refine (snprintf_correct ex_items ex_args [120; 61; 32; 32; 48; 120; 102; 102; 44; 97; 98] (replicate 16 7) 10 _ _ _ _ _).
  - unfold ex_items. repeat apply Forall_cons_2; try apply Forall_nil_2; cbn; unfold INT_MAX, PERCENT; lia.
  - unfold ex_args. repeat apply Forall_cons_2; try apply Forall_nil_2; cbn; lia.
  - vm_compute. reflexivity.
  - rewrite length_replicate. lia.
  - cbn. unfold INT_MAX. lia.
Defined.

Lemma printf_atoi_roundtrip_witness : exists b' k, vsnprintf (replicate 12 7) 12 [PERCENT; 100] [AWord (u32 (-2147483647))] = Done (b', k) /\
  atoi (Sfs.cstr b') = -2147483647.
Proof. apply printf_atoi_roundtrip; [unfold INT_MIN, INT_MAX; lia|rewrite length_replicate; lia]. Defined.

(** "%-l4d%k%%" *)
Lemma printf_type_safe_witness : exists c' n, vprintf (mk_snp (replicate 20 7) 19 0) [37; 45; 108; 52; 100; 37; 107; 37; 37] [AWord 5] = Done (c', n).
Proof.
  apply printf_type_safe; [|vm_compute; reflexivity]. unfold sink_wf; cbn. unfold snp_wf. cbn. lia.
Defined.

(** "%X" prints X and takes no argument: the number is left for "%s". *)
Example upper_hex_unknown : vsnprintf (replicate 8 7) 8 [PERCENT; 88; PERCENT; 115] [AWord 255; AStr (Some [97])] = Halt Undefined.
Proof. vm_compute. reflexivity. Qed.

(** "%-05d" pads the number 3 with zeros on the right. *)
Example minus_zero_pads_right : match vsnprintf (replicate 8 7) 8 [PERCENT; 45; 48; 53; 100] [AWord 3] with Done (b, _) => Sfs.cstr b | Halt _ => [] end = [51; 48; 48; 48; 48].
Proof. vm_compute. reflexivity. Qed.

End Printf.
