(* ===== verification/Mem.v ===== *)
(** * Blocks of memory ([lib/libc/memcpy.c], [memmove.c], [memset.c], [bzero.c], [memcmp.c])

    The routines that both the kernel and the C library use.  They work a word at a time
    when everything is aligned, which must not be visible.  The memory is a function
    from addresses to bytes; a word is read before it is written.  Regions do not reach
    around the top of the address space. *)

From Stdlib Require Import ZArith Lia Bool.
From stdpp Require Import base list numbers.
From S2P Require Import Prelude.
From S2P Require Import Uio.
Import Uio.

Module Mem.

(** [sizeof(long)] *)
Definition WORD : Z := 4.

(** [d[i] = s[i]] for the first [n] cells of [w] bytes, upwards and downwards. *)
Fixpoint copy_up (w : Z) (n : nat) (f : Z -> Z) (d s : Z) : Z -> Z :=
  match n with
  | O => f
  | S n' => let f := copy_up w n' f d s in fill f (d + Z.of_nat n' * w) (bytes_at f (s + Z.of_nat n' * w) w)
  end.

Fixpoint copy_down (w : Z) (n : nat) (f : Z -> Z) (d s : Z) : Z -> Z :=
  match n with
  | O => f
  | S n' => copy_down w n' (fill f (d + Z.of_nat n' * w) (bytes_at f (s + Z.of_nat n' * w) w)) d s
  end.

Definition aligned (a b len : Z) : bool := (a mod WORD =? 0) && (b mod WORD =? 0) && (len mod WORD =? 0).

Definition memcpy (f : Z -> Z) (dst src len : Z) : Z -> Z :=
  if aligned dst src len then copy_up WORD (Z.to_nat (len / WORD)) f dst src else copy_up 1 (Z.to_nat len) f dst src.

Definition memmove (f : Z -> Z) (dst src len : Z) : Z -> Z :=
  if dst <? src then memcpy f dst src len
  else if aligned dst src len then copy_down WORD (Z.to_nat (len / WORD)) f dst src
  else copy_down 1 (Z.to_nat len) f dst src.

(** [p[i] = v] for the first [n] cells of [w] bytes; [v] is the byte of each cell. *)
Fixpoint set_up (w : Z) (n : nat) (f : Z -> Z) (p v : Z) : Z -> Z :=
  match n with O => f | S n' => fill (set_up w n' f p v) (p + Z.of_nat n' * w) (replicate (Z.to_nat w) v) end.

Definition bzero (f : Z -> Z) (p len : Z) : Z -> Z :=
  if (p mod WORD =? 0) && (len mod WORD =? 0) then set_up WORD (Z.to_nat (len / WORD)) f p 0 else set_up 1 (Z.to_nat len) f p 0.

Definition memset (f : Z -> Z) (p ch len : Z) : Z -> Z := set_up 1 (Z.to_nat len) f p (ch mod 256).

Fixpoint memcmp_loop (n : nat) (f : Z -> Z) (a b : Z) : Z :=
  match n with O => 0 | S n' => if negb (f a =? f b) then f a - f b else memcmp_loop n' f (a + 1) (b + 1) end.
Definition memcmp (f : Z -> Z) (a b len : Z) : Z := memcmp_loop (Z.to_nat len) f a b.

(** ** The reference: all at once *)

Definition moved (f : Z -> Z) (dst src len : Z) : Z -> Z := fill f dst (bytes_at f src len).

Lemma fill_inside {A} (f g : Z -> A) a l x : a <= x < a + Z.of_nat (length l) -> fill f a l x = fill g a l x.
Proof. intros Hx. destruct (lookup_lt_is_Some_2 l (Z.to_nat (x - a))) as [y Hy]; [lia|]. by rewrite !(fill_in _ a l x y) by (done || lia). Qed.

(** Regions apart from each other can be written in any order. *)
Lemma fill_swap {A} (f : Z -> A) a l1 b l2 x : a + Z.of_nat (length l1) <= b ->
  fill (fill f b l2) a l1 x = fill (fill f a l1) b l2 x.
Proof.
  intros Hab. destruct (decide (a <= x < a + Z.of_nat (length l1))) as [H|H].
  - rewrite (fill_out _ b l2) by lia. by apply fill_inside.
  - rewrite (fill_out _ a l1) by lia. destruct (decide (b <= x < b + Z.of_nat (length l2))); [by apply fill_inside|].
    by rewrite !fill_out by lia.
Qed.

Lemma bytes_at_nil {A} (f : Z -> A) a : bytes_at f a 0 = [].
Proof. done. Qed.

Lemma copy_up_ok w n f d s : 0 <= w -> (d <= s \/ s + Z.of_nat n * w <= d) -> forall x, copy_up w n f d s x = moved f d s (Z.of_nat n * w) x.
Proof.
  intros Hw Hds. induction n as [|n IH]; intros x; cbn [copy_up].
  - unfold moved. by rewrite bytes_at_nil, fill_nil.
  - replace (Z.of_nat (S n) * w) with (Z.of_nat n * w + w) by lia. unfold moved. rewrite bytes_at_app by lia.
    specialize (IH ltac:(lia)). set (g := copy_up w n f d s) in *. revert x. apply (fill_app f g); [exact IH|]. intros x. rewrite length_bytes_at, Z2Nat.id by lia.
    f_equal. apply bytes_at_ext. intros y Hy. rewrite IH. unfold moved. apply fill_out. rewrite length_bytes_at. lia.
Qed.

Lemma copy_down_ok w n f d s : 0 <= w -> s <= d -> forall x, copy_down w n f d s x = moved f d s (Z.of_nat n * w) x.
Proof.
  intros Hw Hds. revert f. induction n as [|n IH]; intros f x; cbn [copy_down].
  - unfold moved. by rewrite bytes_at_nil, fill_nil.
  - rewrite IH. replace (Z.of_nat (S n) * w) with (Z.of_nat n * w + w) by lia. unfold moved. rewrite bytes_at_app by lia.
    rewrite (bytes_at_ext (fill f _ _) f s) by (intros y Hy; apply fill_out; lia).
    set (l1 := bytes_at f s (Z.of_nat n * w)). set (l2 := bytes_at f (s + Z.of_nat n * w) w).
    assert (Z.of_nat (length l1) = Z.of_nat n * w) as Hl by (unfold l1; rewrite length_bytes_at; lia).
    rewrite fill_swap by lia. rewrite <- Hl.
    apply (fill_app f (fill f d l1) (fill (fill f d l1) (d + Z.of_nat (length l1)) l2) d l1 l2); done.
Qed.

Lemma aligned_len a b len : 0 <= len -> aligned a b len = true -> Z.of_nat (Z.to_nat (len / WORD)) * WORD = len.
Proof. unfold aligned, WORD. intros Hl H. apply andb_true_iff in H as [_ H]. apply Z.eqb_eq in H. zlia. Qed.

Lemma memcpy_ok f dst src len x : 0 <= len -> (dst <= src \/ src + len <= dst) -> memcpy f dst src len x = moved f dst src len x.
Proof.
  intros Hl Hd. unfold memcpy. destruct (aligned dst src len) eqn:Ea.
  - pose proof (aligned_len _ _ _ Hl Ea) as E. rewrite copy_up_ok by (rewrite ?E; done || unfold WORD; lia). by rewrite E.
  - rewrite copy_up_ok by lia. by rewrite Z2Nat.id, Z.mul_1_r by lia.
Qed.

Lemma set_up_ok w n f p v : 0 <= w -> forall x, set_up w n f p v x = fill f p (replicate (n * Z.to_nat w) v) x.
Proof.
  intros Hw. induction n as [|n IH]; intros x; cbn [set_up]; [symmetry; apply fill_nil|].
  replace (S n * Z.to_nat w)%nat with (n * Z.to_nat w + Z.to_nat w)%nat by lia. rewrite replicate_add. revert x.
  eapply fill_app; [exact IH|]. intros x. rewrite length_replicate. f_equal. lia.
Qed.

Lemma memcmp_ok n f a b : memcmp_loop n f a b = 0 <-> forall i, 0 <= i < Z.of_nat n -> f (a + i) = f (b + i).
Proof.
  revert a b. induction n as [|n IH]; intros a b; cbn [memcmp_loop]; [split; [lia|done]|].
  destruct (Z.eqb_spec (f a) (f b)) as [E|E]; cbn [negb].
  - rewrite IH. split; intros H i Hi.
    + destruct (decide (i = 0)) as [->|]; [by rewrite !Z.add_0_r|]. specialize (H (i - 1) ltac:(lia)).
      by replace (a + i) with (a + 1 + (i - 1)) by lia; replace (b + i) with (b + 1 + (i - 1)) by lia.
    + rewrite <- !Z.add_assoc. apply H. lia.
  - split; [lia|]. intros H. specialize (H 0 ltac:(lia)). by rewrite !Z.add_0_r in H.
Qed.

(** The other routines are what they look like by bytes: [memcpy] for a destination
    that does not lie inside the source above its start, [bzero] and [memset] for
    every region; and [memcmp] returns 0 exactly for equal regions. *)
Theorem mem_equiv f dst src len ch : 0 <= len -> (dst <= src \/ src + len <= dst) ->
  (forall x, memcpy f dst src len x = moved f dst src len x) /\
  (forall x, bzero f dst len x = fill f dst (replicate (Z.to_nat len) 0) x) /\
  (forall x, memset f dst ch len x = fill f dst (replicate (Z.to_nat len) (ch mod 256)) x) /\
  (memcmp f dst src len = 0 <-> forall i, 0 <= i < len -> f (dst + i) = f (src + i)).
Proof.
  intros Hl Hd. split_and!; [intros x..|].
  - by apply memcpy_ok.
  - unfold bzero. destruct (_ && _) eqn:E; rewrite set_up_ok by (unfold WORD; lia); do 2 f_equal; [|change (Z.to_nat 1) with 1%nat; lia].
    apply andb_true_iff in E as [_ E]. apply Z.eqb_eq in E. unfold WORD in *. change (Z.to_nat 4) with 4%nat. zlia.
  - unfold memset. rewrite set_up_ok by lia. do 2 f_equal. change (Z.to_nat 1) with 1%nat. lia.
  - unfold memcmp. by rewrite memcmp_ok, Z2Nat.id by lia.
Qed.

(** C38. [memmove] copies as if all at once.  Whatever way the two regions overlap, and
    whether it goes by words or by bytes, upwards or downwards, the destination then
    holds what the source held before, and no other byte has changed. *)
Theorem memmove_equiv f dst src len : 0 <= len -> forall x, memmove f dst src len x = moved f dst src len x.
Proof.
  intros Hl x. unfold memmove. destruct (Z.ltb_spec dst src); [apply memcpy_ok; lia|].
  destruct (aligned dst src len) eqn:Ea; rewrite copy_down_ok by (done || unfold WORD; lia).
  - by rewrite (aligned_len _ _ _ Hl Ea).
  - by rewrite Z2Nat.id, Z.mul_1_r by lia.
Qed.

(** ** Witnesses *)

Lemma memmove_equiv_witness : bytes_at (memmove (fun x => x) 102 100 7) 100 10 = [100; 101; 100; 101; 102; 103; 104; 105; 106; 109].
Proof.
  rewrite (bytes_at_ext _ (moved (fun x => x) 102 100 7)) by (intros x _; apply memmove_equiv; lia). vm_compute. reflexivity.
Defined.

Lemma mem_equiv_witness : forall x, memcpy (fun x => x) 200 100 8 x = moved (fun x => x) 200 100 8 x.
Proof. apply (mem_equiv (fun x => x) 200 100 8 0); lia. Defined.

End Mem.
