(* ===== verification/Emu.v ===== *)
(** * The emulator filesystem ([kern/dev/lamebus/emu.c])

    The card gives access to the files of the machine that System/161 runs on.
    The driver writes a request into its registers and the transfer buffer, waits
    for the interrupt and finds the answer there; one lock serialises the
    requests.  Above the driver a filesystem without a block device keeps a
    vnode for every handle the card has given out.  The card is a parameter:
    what it makes of its registers and the buffer when an operation code is
    written.  The filesystem keeps the laws of the vnode interface for any
    card; its own reference to the root vnode is not counted. *)

From Stdlib Require Import ZArith Lia Bool.
From stdpp Require Import base list numbers gmap.
From S2P Require Import Prelude.
From S2P Require Import Array.
From S2P Require Import Uio.
From S2P Require Import Vnode.
From S2P Require Import Sfs.
From S2P Require Import Device.
From S2P Require Import Vfs.
From S2P Require Import VfsWorld.
From S2P Require Import Printf.
Import Copy Uio.

(** ** The card *)

(** The registers [REG_HANDLE], [REG_OFFSET], [REG_IOLEN], [REG_OPER] and
    [REG_RESULT]. *)
Record eregs : Type := mk_regs { r_handle : Z; r_offset : Z; r_iolen : Z; r_oper : Z; r_result : Z }.

(** The card performs the operation in [REG_OPER] and sets [REG_RESULT]; then it
    interrupts. *)
Class EmuCard (K : Type) := { emu_run : K -> eregs -> list Z -> K * eregs * list Z }.

Module Emu.

Definition EMU_MAXIO : Z := 16384.
Definition EMU_ROOTHANDLE : Z := 0.

(** The operation codes. *)
Definition EMU_OP_OPEN : Z := 1.
Definition EMU_OP_CREATE : Z := 2.
Definition EMU_OP_EXCLCREATE : Z := 3.
Definition EMU_OP_CLOSE : Z := 4.
Definition EMU_OP_READ : Z := 5.
Definition EMU_OP_READDIR : Z := 6.
Definition EMU_OP_WRITE : Z := 7.
Definition EMU_OP_GETSIZE : Z := 8.
Definition EMU_OP_TRUNC : Z := 9.

(** Convert the card's result codes; those that mean a mistake of the driver panic. *)
Definition translate_err (code : Z) : exec (ret unit) :=
  match code with
  | 1 => Done (Ok tt)
  | 2 | 3 | 5 => Halt Panic
  | 4 => Done (Err ENOENT)
  | 6 => Done (Err EEXIST)
  | 7 => Done (Err EISDIR)
  | 8 => Done (Err EIO)
  | 9 => Done (Err ENFILE)
  | 10 => Done (Err ENOSPC)
  | 11 => Done (Err ENOTDIR)
  | 12 => Done (Err EIO)
  | 13 => Done (Err EUNIMP)
  | _ => Done (Err EAGAIN)
  end.

(** [strrchr]: the index of the last [c]. *)
Fixpoint strrchr (s : list Z) (c : Z) : option nat :=
  match s with
  | [] => None
  | x :: s' => match strrchr s' c with Some i => Some (S i) | None => if x =? c then Some O else None end
  end.

(** [struct vnode] in [struct emufs_vnode]; [ev_dir] tells [emufs_dirops] from [emufs_fileops]. *)
Record emufs_vnode : Type := mk_ev { ev_refcount : Z; ev_opencount : Z; ev_dir : bool; ev_handle : Z }.

Section emu.
Context {K : Type} {C : EmuCard K}.

(** ** The driver *)

(** [struct emu_softc] and the card; [e_lock] says whether the current thread holds
    the lock, which nobody else does; [e_sem] is the count of the semaphore. *)
Record emu_softc : Type := mk_softc {
  e_card : K;
  e_regs : eregs;
  e_iobuf : list Z;
  e_lock : bool;
  e_sem : Z;
  e_result : Z
}.
Implicit Types sc : emu_softc.

Definition set_regs sc r : emu_softc := mk_softc (e_card sc) r (e_iobuf sc) (e_lock sc) (e_sem sc) (e_result sc).
Definition set_iobuf sc b : emu_softc := mk_softc (e_card sc) (e_regs sc) b (e_lock sc) (e_sem sc) (e_result sc).
Definition set_lock sc b : emu_softc := mk_softc (e_card sc) (e_regs sc) (e_iobuf sc) b (e_sem sc) (e_result sc).

(** [emu_wreg] on the registers the driver writes before an operation. *)
Definition wreg_handle sc v : emu_softc :=
  let r := e_regs sc in set_regs sc (mk_regs (u32 v) (r_offset r) (r_iolen r) (r_oper r) (r_result r)).
Definition wreg_offset sc v : emu_softc :=
  let r := e_regs sc in set_regs sc (mk_regs (r_handle r) (u32 v) (r_iolen r) (r_oper r) (r_result r)).
Definition wreg_iolen sc v : emu_softc :=
  let r := e_regs sc in set_regs sc (mk_regs (r_handle r) (r_offset r) (u32 v) (r_oper r) (r_result r)).

(** [emu_rreg] *)
Definition rreg (f : eregs -> Z) sc : Z := u32 (f (e_regs sc)).

(** The handler takes the result out of its register and posts the semaphore. *)
Definition emu_irq sc : emu_softc :=
  let r := e_regs sc in
  mk_softc (e_card sc) (mk_regs (r_handle r) (r_offset r) (r_iolen r) (r_oper r) 0) (e_iobuf sc) (e_lock sc)
    (e_sem sc + 1) (rreg r_result sc).

(** [emu_wreg(sc, REG_OPER, op)]: the card runs and interrupts. *)
Definition start_op sc (op : Z) : emu_softc :=
  let r := e_regs sc in
  let '(k, r1, b1) := emu_run (e_card sc) (mk_regs (r_handle r) (r_offset r) (r_iolen r) (u32 op) (r_result r)) (e_iobuf sc) in
  emu_irq (mk_softc k r1 b1 (e_lock sc) (e_sem sc) (e_result sc)).

Definition emu_waitdone sc : exec (emu_softc * ret unit) :=
  (* P(sc->e_sem) *)
  if e_sem sc >? 0 then
    r ← translate_err (e_result sc);
    Done (mk_softc (e_card sc) (e_regs sc) (e_iobuf sc) (e_lock sc) (e_sem sc - 1) (e_result sc), r)
  else Halt Blocked.

(** [lock_acquire(sc->e_lock)] and [lock_release(sc->e_lock)] *)
Definition acquire sc : exec emu_softc := assert! negb (e_lock sc); Done (set_lock sc true).
Definition release sc : exec emu_softc := assert! e_lock sc; Done (set_lock sc false).

(** [strcpy(sc->e_iobuf, name)] *)
Definition strcpy_iobuf sc (name : list Z) : exec emu_softc :=
  if Z.of_nat (length name) + 1 <=? Z.of_nat (length (e_iobuf sc)) then
    Done (set_iobuf sc (splice (e_iobuf sc) 0 (name ++ [0])))
  else Halt Undefined.

(** The results are [*newhandle] and [*newisdir]. *)
Definition emu_open sc (handle : Z) (name : list Z) (create excl : bool) : exec (emu_softc * ret (Z * bool)) :=
  if Z.of_nat (length name) + 1 >? EMU_MAXIO then Done (sc, Err ENAMETOOLONG)
  else
    let op := if create && excl then EMU_OP_EXCLCREATE else if create then EMU_OP_CREATE else EMU_OP_OPEN in
    sc1 ← acquire sc;
    sc2 ← strcpy_iobuf sc1 name;
    let sc3 := wreg_handle (wreg_iolen sc2 (Z.of_nat (length name))) handle in
    '(sc4, r) ← emu_waitdone (start_op sc3 op);
    sc5 ← release sc4;
    Done (sc5, match r with Ok _ => Ok (rreg r_handle sc4, rreg r_iolen sc4 >? 0) | Err e => Err e end).

(** The loop of [emu_close]; [n] is how often it may still retry. *)
Fixpoint close_loop (n : nat) sc (handle : Z) : exec (emu_softc * ret unit) :=
  '(sc1, r) ← emu_waitdone (start_op (wreg_handle sc handle) EMU_OP_CLOSE);
  match r, n with
  | Err EIO, S n' => close_loop n' sc1 handle
  | _, _ => Done (sc1, r)
  end.

Definition emu_close sc (handle : Z) : exec (emu_softc * ret unit) :=
  let mine := e_lock sc in
  sc1 ← (if mine then Done sc else acquire sc);
  '(sc2, r) ← close_loop 10 sc1 handle;
  sc3 ← (if mine then Done sc2 else release sc2);
  Done (sc3, r).

(** [uio->uio_offset = pos] *)
Definition set_offset (u : uio) (pos : Z) : uio :=
  mk_uio (iov_base u) (iov_len u) pos (uio_resid u) (uio_segflg u) (rw u) (uio_space u).

Definition emu_doread (cas : option Z) sc (m : mach) (u : uio) (handle len op : Z)
  : exec ((emu_softc * mach * uio) * ret unit) :=
  assert! bool_decide (rw u = UIO_READ);
  sc1 ← acquire sc;
  let sc2 := wreg_offset (wreg_iolen (wreg_handle sc1 handle) len) (uio_offset u) in
  '(sc3, r) ← emu_waitdone (start_op sc2 op);
  match r with
  | Err e => sc4 ← release sc3; Done ((sc4, m, u), Err e)
  | Ok _ =>
      '((m1, b1, u1), r1) ← uiomove cas m (e_iobuf sc3) 0 (rreg r_iolen sc3) u;
      let u2 := set_offset u1 (s32 (rreg r_offset sc3)) in
      sc4 ← release (set_iobuf sc3 b1);
      Done ((sc4, m1, u2), r1)
  end.

Definition emu_read cas sc m u handle len := emu_doread cas sc m u handle len EMU_OP_READ.
Definition emu_readdir cas sc m u handle len := emu_doread cas sc m u handle len EMU_OP_READDIR.

Definition emu_write (cas : option Z) sc (m : mach) (u : uio) (handle len : Z)
  : exec ((emu_softc * mach * uio) * ret unit) :=
  assert! bool_decide (rw u = UIO_WRITE);
  sc1 ← acquire sc;
  let sc2 := wreg_offset (wreg_iolen (wreg_handle sc1 handle) len) (uio_offset u) in
  '((m1, b1, u1), r) ← uiomove cas m (e_iobuf sc2) 0 len u;
  let sc3 := set_iobuf sc2 b1 in
  match r with
  | Err e => sc4 ← release sc3; Done ((sc4, m1, u1), Err e)
  | Ok _ =>
      '(sc4, r1) ← emu_waitdone (start_op sc3 EMU_OP_WRITE);
      sc5 ← release sc4;
      Done ((sc5, m1, u1), r1)
  end.

Definition emu_getsize sc (handle : Z) : exec (emu_softc * ret Z) :=
  sc1 ← acquire sc;
  '(sc2, r) ← emu_waitdone (start_op (wreg_handle sc1 handle) EMU_OP_GETSIZE);
  sc3 ← release sc2;
  Done (sc3, match r with Ok _ => Ok (s32 (rreg r_iolen sc2)) | Err e => Err e end).

Definition emu_trunc sc (handle len : Z) : exec (emu_softc * ret unit) :=
  sc1 ← acquire sc;
  '(sc2, r) ← emu_waitdone (start_op (wreg_iolen (wreg_handle sc1 handle) len) EMU_OP_TRUNC);
  sc3 ← release sc2;
  Done (sc3, r).

(** ** The filesystem *)

(** [struct emufs_fs], the vnodes at their addresses, and the number of warnings
    printed about vnodes. *)
Record emufs_fs : Type := mk_ef {
  ef_emu : emu_softc;
  ef_root : option Z;
  ef_vnodes : Array.array (P := Z);
  evnodes : gmap Z emufs_vnode;
  ewarnings : Z
}.
Implicit Types ef : emufs_fs.

Definition set_emu ef x : emufs_fs := mk_ef x (ef_root ef) (ef_vnodes ef) (evnodes ef) (ewarnings ef).
Definition set_table ef x : emufs_fs := mk_ef (ef_emu ef) (ef_root ef) x (evnodes ef) (ewarnings ef).
Definition set_evnodes ef x : emufs_fs := mk_ef (ef_emu ef) (ef_root ef) (ef_vnodes ef) x (ewarnings ef).
Definition ewarn ef : emufs_fs := mk_ef (ef_emu ef) (ef_root ef) (ef_vnodes ef) (evnodes ef) (ewarnings ef + 1).

Definition get_ev ef (p : Z) : exec emufs_vnode :=
  match evnodes ef !! p with Some ev => Done ev | None => Halt Undefined end.
Definition put_ev ef (p : Z) (ev : emufs_vnode) : emufs_fs := set_evnodes ef (<[p := ev]> (evnodes ef)).
Definition set_refs (ev : emufs_vnode) n : emufs_vnode := mk_ev n (ev_opencount ev) (ev_dir ev) (ev_handle ev).
Definition set_opens (ev : emufs_vnode) n : emufs_vnode := mk_ev (ev_refcount ev) n (ev_dir ev) (ev_handle ev).

(** A call of the driver; [lock_acquire] and [lock_release] from the filesystem. *)
Definition on_emu {A} ef (m : exec (emu_softc * ret A)) : exec (emufs_fs * ret A) :=
  '(sc, r) ← m; Done (set_emu ef sc, r).
Definition ef_acquire ef : exec emufs_fs := sc ← acquire (ef_emu ef); Done (set_emu ef sc).
Definition ef_release ef : exec emufs_fs := sc ← release (ef_emu ef); Done (set_emu ef sc).

(** [VOP_INCREF] *)
Definition emu_incref ef (p : Z) : exec emufs_fs :=
  ev ← get_ev ef p;
  n ← int (ev_refcount ev + 1);
  Done (put_ev ef p (set_refs ev n)).

(** The search for a handle in the vnode table. *)
Fixpoint find_handle (n : nat) ef (handle i : Z) : exec (option Z) :=
  match n with
  | O => Done None
  | S n' =>
      c ← Array.array_getguy (ef_vnodes ef) i;
      match c with
      | None => Halt Undefined
      | Some p => ev ← get_ev ef p; if ev_handle ev =? handle then Done (Some p) else find_handle n' ef handle (i + 1)
      end
  end.

(** [sizeof(struct emufs_vnode)] and [sizeof(struct emufs_fs)] *)
Definition sizeof_emufs_vnode : Z := 32.
Definition sizeof_emufs_fs : Z := 32.

(** The address [kmalloc] finds for a new vnode. *)
Definition new_ev ef : Z := fresh ({[0]} ∪ option_to_set (ef_root ef) ∪ dom (evnodes ef) : gset Z).

Definition emufs_loadvnode (mem : Z -> bool) ef (handle : Z) (isdir : bool) : exec (emufs_fs * ret Z) :=
  ef1 ← ef_acquire ef;
  hit ← find_handle (Z.to_nat (Array.array_getnum (ef_vnodes ef1))) ef1 handle 0;
  match hit with
  | Some p => ef2 ← emu_incref ef1 p; ef3 ← ef_release ef2; Done (ef3, Ok p)
  | None =>
      if negb (mem sizeof_emufs_vnode) then ef2 ← ef_release ef1; Done (ef2, Err ENOMEM)
      else if negb (mem 8 && mem 16) then ef2 ← ef_release ef1; Done (ef2, Err ENOMEM)
      else
        let p := new_ev ef1 in
        '(tab, r) ← Array.array_add mem (ef_vnodes ef1) p;
        ef2 ← ef_release (set_table ef1 tab);
        match r with
        | Err e => Done (ef2, Err e)
        | Ok _ => Done (put_ev ef2 p (mk_ev 1 0 isdir handle), Ok p)
        end
  end.

Definition emufs_open (openflags : Z) : ret unit :=
  if negb (Z.land openflags Device.O_APPEND =? 0) then Err EUNIMP else Ok tt.
Definition emufs_opendir (openflags : Z) : ret unit :=
  if negb (Z.land openflags Sfs.O_ACCMODE =? 0) then Err EISDIR
  else if negb (Z.land openflags Device.O_APPEND =? 0) then Err EISDIR else Ok tt.
Definition emufs_close : ret unit := Ok tt.

(** The search for a vnode in the table. *)
Fixpoint find_vnode (n : nat) ef (p i : Z) : exec (option Z) :=
  match n with
  | O => Done None
  | S n' => c ← Array.array_getguy (ef_vnodes ef) i; if bool_decide (c = Some p) then Done (Some i) else find_vnode n' ef p (i + 1)
  end.

Definition emufs_reclaim ef (p : Z) : exec (emufs_fs * ret unit) :=
  ev ← get_ev ef p;
  ef1 ← ef_acquire ef;
  if negb (ev_refcount ev =? 1) then ef2 ← ef_release ef1; Done (ef2, Err EBUSY)
  else
    '(ef2, r) ← on_emu ef1 (emu_close (ef_emu ef1) (ev_handle ev));
    match r with
    | Err e => ef3 ← ef_release ef2; Done (ef3, Err e)
    | Ok _ =>
        ix ← find_vnode (Z.to_nat (Array.array_getnum (ef_vnodes ef2))) ef2 p 0;
        match (ix : option Z) with
        | None => Halt Panic
        | Some ix =>
            tab ← Array.array_remove (ef_vnodes ef2) ix;
            ef3 ← ef_release (set_table ef2 tab);
            (* VOP_KILL *)
            assert! ev_refcount ev =? 1;
            assert! ev_opencount ev =? 0;
            Done (set_evnodes ef3 (delete p (evnodes ef3)), Ok tt)
        end
    end.

(** [VOP_DECREF]; an error of [VOP_RECLAIM] is only reported on the console. *)
Definition emu_decref ef (p : Z) : exec emufs_fs :=
  ev ← get_ev ef p;
  assert! ev_refcount ev >? 0;
  if ev_refcount ev >? 1 then Done (put_ev ef p (set_refs ev (ev_refcount ev - 1)))
  else
    '(ef1, r) ← emufs_reclaim ef p;
    Done match r with Ok _ | Err EBUSY => ef1 | Err _ => ewarn ef1 end.

(** [VOP_INCOPEN] and [VOP_DECOPEN] *)
Definition emu_incopen ef (p : Z) : exec emufs_fs :=
  ev ← get_ev ef p;
  n ← int (ev_opencount ev + 1);
  Done (put_ev ef p (set_opens ev n)).
Definition emu_decopen ef (p : Z) : exec emufs_fs :=
  ev ← get_ev ef p;
  assert! ev_opencount ev >? 0;
  let opencount := ev_opencount ev - 1 in
  let ef1 := put_ev ef p (set_opens ev opencount) in
  if opencount >? 0 then Done ef1 else Done match emufs_close with Ok _ => ef1 | Err _ => ewarn ef1 end.

(** ** Operations on files *)

(** [amt = uio->uio_resid; if (amt > EMU_MAXIO) amt = EMU_MAXIO;] *)
Definition amount (u : uio) : Z := if uio_resid u >? EMU_MAXIO then EMU_MAXIO else uio_resid u.

(** The loops of [emufs_read] and [emufs_write]: a round that moves nothing ends them. *)
Fixpoint read_loop (fuel : nat) (cas : option Z) (handle : Z) sc (m : mach) (u : uio)
  : exec ((emu_softc * mach * uio) * ret unit) :=
  if uio_resid u >? 0 then
    match fuel with
    | O => Halt Fuel
    | S f =>
        '((sc1, m1, u1), r) ← emu_read cas sc m u handle (amount u);
        match r with
        | Err e => Done ((sc1, m1, u1), Err e)
        | Ok _ =>
            if uio_resid u1 =? uio_resid u then Done ((sc1, m1, u1), Ok tt)
            else read_loop f cas handle sc1 m1 u1
        end
    end
  else Done ((sc, m, u), Ok tt).

Fixpoint write_loop (fuel : nat) (cas : option Z) (handle : Z) sc (m : mach) (u : uio)
  : exec ((emu_softc * mach * uio) * ret unit) :=
  if uio_resid u >? 0 then
    match fuel with
    | O => Halt Fuel
    | S f =>
        '((sc1, m1, u1), r) ← emu_write cas sc m u handle (amount u);
        match r with
        | Err e => Done ((sc1, m1, u1), Err e)
        | Ok _ =>
            if uio_resid u1 =? uio_resid u then Done ((sc1, m1, u1), Ok tt)
            else write_loop f cas handle sc1 m1 u1
        end
    end
  else Done ((sc, m, u), Ok tt).

(** Every round but the last moves at least one byte. *)
Definition rounds (u : uio) : nat := Z.to_nat (uio_resid u).

(** On the vnode at [p]: its handle is passed on, the driver's state stored back. *)
Definition io_ev ef (m : mach) (u : uio) (p : Z)
    (call : Z -> emu_softc -> mach -> uio -> exec ((emu_softc * mach * uio) * ret unit))
  : exec ((emufs_fs * mach * uio) * ret unit) :=
  ev ← get_ev ef p;
  '((sc, m1, u1), r) ← call (ev_handle ev) (ef_emu ef) m u;
  Done ((set_emu ef sc, m1, u1), r).

Definition emufs_read (cas : option Z) ef (m : mach) (u : uio) (p : Z) : exec ((emufs_fs * mach * uio) * ret unit) :=
  io_ev ef m u p (fun handle sc m u => assert! bool_decide (rw u = UIO_READ); read_loop (rounds u) cas handle sc m u).
Definition emufs_write (cas : option Z) ef (m : mach) (u : uio) (p : Z) : exec ((emufs_fs * mach * uio) * ret unit) :=
  io_ev ef m u p (fun handle sc m u => assert! bool_decide (rw u = UIO_WRITE); write_loop (rounds u) cas handle sc m u).
Definition emufs_getdirentry (cas : option Z) ef (m : mach) (u : uio) (p : Z)
  : exec ((emufs_fs * mach * uio) * ret unit) :=
  io_ev ef m u p (fun handle sc m u => assert! bool_decide (rw u = UIO_READ); emu_readdir cas sc m u handle (amount u)).

Definition emufs_ioctl : ret unit := Err EINVAL.
Definition emufs_file_gettype : ret Z := Ok Sfs.S_IFREG.
Definition emufs_dir_gettype : ret Z := Ok Sfs.S_IFDIR.
Definition emufs_tryseek (pos : Z) : ret unit := if pos <? 0 then Err EINVAL else Ok tt.
Definition emufs_fsync : ret unit := Ok tt.

(** [VOP_GETTYPE] *)
Definition emu_gettype ef (p : Z) : exec (ret Z) :=
  ev ← get_ev ef p; Done (if ev_dir ev then emufs_dir_gettype else emufs_file_gettype).

(** The fields [st_mode], [st_nlink], [st_size] and [st_blocks] of [struct stat]; the others are 0. *)
Definition emufs_stat ef (p : Z) : exec (emufs_fs * ret (Z * Z * Z * Z)) :=
  ev ← get_ev ef p;
  t ← emu_gettype ef p;
  match t with
  | Err e => Done (ef, Err e)
  | Ok mode => try! ef1, size <- on_emu ef (emu_getsize (ef_emu ef) (ev_handle ev)); Done (ef1, Ok (mode, 1, size, 0))
  end.

Definition emufs_truncate ef (p len : Z) : exec (emufs_fs * ret unit) :=
  ev ← get_ev ef p; on_emu ef (emu_trunc (ef_emu ef) (ev_handle ev) len).

(** What [emufs_creat] and [emufs_lookup] do after opening: a vnode for the handle. *)
Definition open_vnode (mem : Z -> bool) ef (p : Z) (name : list Z) (create excl : bool) : exec (emufs_fs * ret Z) :=
  ev ← get_ev ef p;
  try! ef1, h <- on_emu ef (emu_open (ef_emu ef) (ev_handle ev) name create excl);
  '(ef2, r) ← emufs_loadvnode mem ef1 (fst h) (snd h);
  match r with
  | Ok q => Done (ef2, Ok q)
  | Err e => '(ef3, _) ← on_emu ef2 (emu_close (ef_emu ef2) (fst h)); Done (ef3, Err e)
  end.

Definition emufs_creat (mem : Z -> bool) ef (dir : Z) (name : list Z) (excl : bool) : exec (emufs_fs * ret Z) :=
  open_vnode mem ef dir name true excl.
Definition emufs_lookup (mem : Z -> bool) ef (dir : Z) (pathname : list Z) : exec (emufs_fs * ret Z) :=
  open_vnode mem ef dir pathname false false.

(** The last component goes to the caller's buffer of [len] bytes. *)
Definition emufs_lookparent (mem : Z -> bool) ef (dir : Z) (pathname : list Z) (len : Z) : exec (emufs_fs * ret (Z * list Z)) :=
  match strrchr pathname Vfs.SLASH with
  | None =>
      if Z.of_nat (length pathname) + 1 >? len then Done (ef, Err ENAMETOOLONG)
      else ef1 ← emu_incref ef dir; Done (ef1, Ok (dir, pathname))
  | Some i =>
      let s := drop (S i) pathname in
      if Z.of_nat (length s) + 1 >? len then Done (ef, Err ENAMETOOLONG)
      else try! ef1, q <- emufs_lookup mem ef dir (take i pathname); Done (ef1, Ok (q, s))
  end.

(** The root directory has the empty name; the [uio] is not touched. *)
Definition emufs_namefile ef (p : Z) : ret unit := if bool_decide (ef_root ef = Some p) then Ok tt else Err EUNIMP.

Definition emufs_notdir {A} : ret A := Err ENOTDIR.
Definition emufs_isdir {A} : ret A := Err EISDIR.
Definition emufs_unimp {A} : ret A := Err EUNIMP.

(** A call through the tables [emufs_fileops] and [emufs_dirops]. *)
Definition by_ops {A} ef (p : Z) (file dir : exec A) : exec A := ev ← get_ev ef p; if ev_dir ev then dir else file.

Definition emufs_sync : ret unit := Ok tt.
Definition emufs_getvolname : option (list Z) := None.
Definition emufs_unmount : ret unit := Err EBUSY.
Definition emufs_getroot ef : exec (emufs_fs * Z) :=
  match ef_root ef with
  | None => Halt Assertion
  | Some p => ef1 ← emu_incref ef p; Done (ef1, p)
  end.

(** ** Behind the vnode interface *)

(** The address of [ef_fs]. *)
Definition EMU_FS : Z := 0.
Definition on_ef {A} (fs : Z) (m : exec A) : exec A := if fs =? EMU_FS then m else Halt Undefined.

(** References that callers hold. *)
Definition erefs ef (p : Z) : Z :=
  match evnodes ef !! p with
  | Some ev => ev_refcount ev - (if bool_decide (ef_root ef = Some p) then 1 else 0)
  | None => 0
  end.

#[export] Instance emu_vn : Vnodes emufs_fs := {|
  vn_count := erefs;
  vn_warnings := ewarnings;
  vn_fs ef p := match evnodes ef !! p with Some _ => Some EMU_FS | None => None end;
  vn_ok _ := True;
  vop_incref := emu_incref;
  vop_decref := emu_decref;
  vop_incopen := emu_incopen;
  vop_decopen := emu_decopen;
  vop_open ef p fl := by_ops ef p (Done (ef, emufs_open fl)) (Done (ef, emufs_opendir fl));
  vop_read cas ef m u p := by_ops ef p (emufs_read cas ef m u p) (Done ((ef, m, u), emufs_isdir));
  vop_write cas ef m u p := by_ops ef p (emufs_write cas ef m u p) (Done ((ef, m, u), emufs_isdir));
  vop_readlink _ ef m u p := by_ops ef p (Done ((ef, m, u), emufs_notdir)) (Done ((ef, m, u), emufs_isdir));
  vop_namefile _ ef m u p := by_ops ef p (Done ((ef, m, u), emufs_notdir)) (Done ((ef, m, u), emufs_namefile ef p));
  vop_gettype := emu_gettype;
  vop_truncate ef p len := by_ops ef p (emufs_truncate ef p len) (Done (ef, emufs_isdir));
  vop_creat mem ef p n ex := by_ops ef p (Done (ef, emufs_notdir)) (emufs_creat mem ef p n ex);
  vop_symlink ef p _ _ := by_ops ef p (Done (ef, emufs_notdir)) (Done (ef, emufs_unimp));
  vop_mkdir ef p _ := by_ops ef p (Done (ef, emufs_notdir)) (Done (ef, emufs_unimp));
  vop_link ef p _ _ := by_ops ef p (Done (ef, emufs_notdir)) (Done (ef, emufs_unimp));
  vop_remove _ ef p _ := by_ops ef p (Done (ef, emufs_notdir)) (Done (ef, emufs_unimp));
  vop_rmdir ef p _ := by_ops ef p (Done (ef, emufs_notdir)) (Done (ef, emufs_unimp));
  vop_rename _ ef p _ _ _ := by_ops ef p (Done (ef, emufs_notdir)) (Done (ef, emufs_unimp));
  vop_lookup mem ef p path := by_ops ef p (Done (ef, emufs_notdir)) (emufs_lookup mem ef p path);
  vop_lookparent mem ef p path n := by_ops ef p (Done (ef, emufs_notdir)) (emufs_lookparent mem ef p path n);
  fs_sync ef fs := on_ef fs (Done (ef, emufs_sync));
  fs_getvolname _ _ := emufs_getvolname;
  fs_getroot _ ef fs := on_ef fs (emufs_getroot ef);
  fs_unmount ef fs := on_ef fs (Done (ef, emufs_unmount))
|}.

(** ** The laws of the vnode interface *)

Record ekeeps ef ef' : Prop := {
  ek_vnodes : evnodes ef' = evnodes ef;
  ek_root : ef_root ef' = ef_root ef;
  ek_warnings : ewarnings ef' = ewarnings ef
}.
Lemma ekeeps_refl ef : ekeeps ef ef.
Proof. done. Qed.
Lemma ekeeps_trans ef1 ef2 ef3 : ekeeps ef1 ef2 -> ekeeps ef2 ef3 -> ekeeps ef1 ef3.
Proof. intros [] []. split; congruence. Qed.
Lemma ekeeps_refs ef ef' x : ekeeps ef ef' -> erefs ef' x = erefs ef x.
Proof. intros []. unfold erefs. by rewrite ek_vnodes0, ek_root0. Qed.
Lemma ekeeps_bal ef ef' : ekeeps ef ef' -> bal ef none ef'.
Proof.
  intros H. pose proof (ek_warnings _ _ H). split; simpl; unfold none; intros; rewrite ?(ekeeps_refs _ _ _ H); done || lia.
Qed.

(** Nothing below the vnode table touches it. *)
Lemma on_emu_keeps {A} ef (m : exec (emu_softc * ret A)) : post (on_emu ef m) (fun '(ef', _) => ekeeps ef ef').
Proof. unfold on_emu. apply post_any. intros [sc r]. by apply post_Done. Qed.
Lemma ef_acquire_keeps ef : post (ef_acquire ef) (ekeeps ef).
Proof. unfold ef_acquire. apply post_any. intros sc. by apply post_Done. Qed.
Lemma ef_release_keeps ef : post (ef_release ef) (ekeeps ef).
Proof. unfold ef_release. apply post_any. intros sc. by apply post_Done. Qed.
Lemma io_ev_keeps ef m u p call : post (io_ev ef m u p call) (fun '((ef', _, _), _) => ekeeps ef ef').
Proof. unfold io_ev. apply post_any. intros ev. apply post_any. intros [[[sc m1] u1] r]. by apply post_Done. Qed.

Lemma on_emu_bal {A} ef (m : exec (emu_softc * ret A)) : post (on_emu ef m) (fun '(ef', _) => bal ef none ef').
Proof. eapply post_mono; [apply on_emu_keeps|]. intros [ef' r]. apply ekeeps_bal. Qed.
Lemma io_ev_bal ef m u p call : post (io_ev ef m u p call) (fun '((ef', _, _), _) => bal ef none ef').
Proof. eapply post_mono; [apply io_ev_keeps|]. intros [[[ef' m'] u'] r]. apply ekeeps_bal. Qed.
Lemma ef_acquire_bal ef : post (ef_acquire ef) (bal ef none).
Proof. eapply post_mono; [apply ef_acquire_keeps|]. apply ekeeps_bal. Qed.
Lemma ef_release_bal ef : post (ef_release ef) (bal ef none).
Proof. eapply post_mono; [apply ef_release_keeps|]. apply ekeeps_bal. Qed.
#[local] Hint Resolve on_emu_bal io_ev_bal ef_acquire_bal ef_release_bal : post.

Lemma get_ev_post ef p Q : (forall ev, evnodes ef !! p = Some ev -> Q ev) -> post (get_ev ef p) Q.
Proof. intros H ev. unfold get_ev. case_match eqn:E; [|done]. intros [= <-]. by apply H. Qed.

Lemma by_ops_post {A} ef p (file dir : exec A) Q : post file Q -> post dir Q -> post (by_ops ef p file dir) Q.
Proof. intros H1 H2. unfold by_ops. apply post_any. intros ev. by destruct (ev_dir ev). Qed.
Lemma on_ef_post {A} fs (m : exec A) Q : post m Q -> post (on_ef fs m) Q.
Proof. intros H. unfold on_ef. by case_match. Qed.

Lemma erefs_put ef p ev x : erefs (put_ev ef p ev) x =
  if decide (x = p) then ev_refcount ev - (if bool_decide (ef_root ef = Some p) then 1 else 0) else erefs ef x.
Proof. unfold erefs, put_ev. simpl. case_decide; [subst; by rewrite lookup_insert_eq|by rewrite lookup_insert_ne]. Qed.

(** Storing a vnode whose reference count has changed by [n]. *)
Lemma put_ev_bal ef p ev ev1 n d : evnodes ef !! p = Some ev -> ev_refcount ev1 = ev_refcount ev + n ->
  (forall x, d x = n * one p x) -> bal ef d (put_ev ef p ev1).
Proof.
  intros E Hn Hd. assert (forall x, erefs (put_ev ef p ev1) x = erefs ef x + d x) as H.
  { intros x. rewrite erefs_put, Hd. unfold one. case_decide; [subst; unfold erefs; rewrite E|]; lia. }
  split; simpl; [lia|intros x; rewrite H; lia|intros x _ _; apply H|done].
Qed.

Lemma emu_incref_bal ef p : post (emu_incref ef p) (bal ef (one p)).
Proof.
  unfold emu_incref. apply post_bind, get_ev_post. intros ev E. apply post_bind. intros n [-> _]%int_inv.
  apply post_Done, (put_ev_bal _ _ _ _ 1 _ E); [done|]. intros x. lia.
Qed.
Lemma emu_incopen_bal ef p : post (emu_incopen ef p) (bal ef none).
Proof.
  unfold emu_incopen. apply post_bind, get_ev_post. intros ev E. apply post_any. intros n.
  apply post_Done, (put_ev_bal _ _ _ _ 0 _ E); [simpl; lia|done].
Qed.
Lemma emu_decopen_bal ef p : post (emu_decopen ef p) (bal ef none).
Proof.
  unfold emu_decopen. apply post_bind, get_ev_post. intros ev E. apply post_assert. intros _. cbv zeta.
  cut (bal ef none (put_ev ef p (set_opens ev (ev_opencount ev - 1)))); [intros H; case_match; by apply post_Done|].
  apply (put_ev_bal _ _ _ _ 0 _ E); [simpl; lia|done].
Qed.
#[local] Hint Resolve emu_incref_bal emu_incopen_bal emu_decopen_bal : post.

(** The card's codes never become [EBUSY]. *)
Lemma translate_calm code : post (translate_err code) (fun r => r <> Err EBUSY).
Proof. unfold translate_err. repeat case_match; by apply post_Done || apply post_Halt. Qed.
Lemma waitdone_calm sc : post (emu_waitdone sc) (fun '(_, r) => r <> Err EBUSY).
Proof.
  unfold emu_waitdone. case_match; [|apply post_Halt]. apply post_bind. eapply post_mono; [apply translate_calm|].
  intros r Hr. by apply post_Done.
Qed.
Lemma close_calm n sc h : post (close_loop n sc h) (fun '(_, r) => r <> Err EBUSY).
Proof.
  revert sc. induction n as [|n IH]; intros sc; simpl; apply post_bind; (eapply post_mono; [apply waitdone_calm|]);
    intros [sc1 r] Hr; repeat case_match; try (by apply post_Done); apply IH.
Qed.
Lemma emu_close_calm sc h : post (emu_close sc h) (fun '(_, r) => r <> Err EBUSY).
Proof.
  unfold emu_close. apply post_any. intros sc1. apply post_bind. eapply post_mono; [apply close_calm|].
  intros [sc2 r] Hr. apply post_any. intros sc3. by apply post_Done.
Qed.

(** Reclaiming frees a vnode with one reference, or changes no count. *)
Lemma ereclaim_post ef p ev : evnodes ef !! p = Some ev -> ev_refcount ev = 1 ->
  post (emufs_reclaim ef p) (fun '(ef', r) => r <> Err EBUSY /\
    match r with
    | Ok _ => evnodes ef' = delete p (evnodes ef) /\ ef_root ef' = ef_root ef /\ ewarnings ef' = ewarnings ef
    | Err _ => ekeeps ef ef'
    end).
Proof.
  intros E Hr. unfold emufs_reclaim, get_ev. rewrite E. run. apply post_bind. eapply post_mono; [apply ef_acquire_keeps|].
  intros ef1 H1. rewrite Hr. change (1 =? 1) with true. run.
  apply post_bind. intros [ef2 r] E2. pose proof (on_emu_keeps _ _ _ E2) as H2. cbn beta iota in H2.
  apply (ekeeps_trans ef) in H2; [|done]. unfold on_emu in E2. apply bind_Done in E2 as ([sc r'] & E2 & [= _ ->]).
  apply emu_close_calm in E2. cbn beta iota in E2. destruct r as [u|e].
  - apply post_any. intros [ix|]; [|apply post_Halt]. apply post_any. intros tab. apply post_bind.
    eapply post_mono; [apply ef_release_keeps|]. intros ef3 [H3 R3 W3]. simpl in *.
    apply post_assert. intros _. apply post_Done. split; [done|]. destruct H2. simpl. rewrite H3. split_and!; congruence.
  - apply post_bind. eapply post_mono; [apply ef_release_keeps|]. intros ef3 H3. apply post_Done.
    split; [done|]. by apply (ekeeps_trans _ ef2).
Qed.

Lemma emu_decref_bal ef p : 0 < erefs ef p -> post (emu_decref ef p) (bal ef (fun x => - one p x)).
Proof.
  intros Hc. unfold emu_decref. apply post_bind, get_ev_post. intros ev E. apply post_assert. rewrite !Z.gtb_ltb.
  intros H0%Z.ltb_lt. destruct (Z.ltb_spec 1 (ev_refcount ev)).
  { apply post_Done, (put_ev_bal _ _ _ _ (-1) _ E); [simpl; lia|]. intros x. lia. }
  assert (ev_refcount ev = 1) as H1 by lia.
  assert (bool_decide (ef_root ef = Some p) = false) as Hroot.
  { unfold erefs in Hc. rewrite E in Hc. destruct (bool_decide _); [lia|done]. }
  apply post_bind. eapply post_mono; [by apply (ereclaim_post ef p ev)|]. intros [ef1 r] [Hb Hr]. apply post_Done.
  assert (erefs ef p = 1) as Hp by (unfold erefs; rewrite E, Hroot; lia). destruct r as [u|e].
  - destruct Hr as (Hv & Hro & Hw). assert (forall x, erefs ef1 x = erefs ef x + - one p x) as Hx.
    { intros x. unfold one. destruct (decide (x = p)) as [->|Hd]; [rewrite Hp|]; unfold erefs; rewrite Hv, Hro.
      - by rewrite lookup_delete_eq.
      - rewrite lookup_delete_ne by done. lia. }
    split; simpl; [lia|intros x; rewrite Hx; lia|intros x _ _; apply Hx|done].
  - replace (match e with EBUSY => ef1 | _ => ewarn ef1 end) with (ewarn ef1) by (by destruct e).
    pose proof (ek_warnings _ _ Hr). split; simpl; [lia|intros x|intros; lia|done].
    change (erefs (ewarn ef1) x) with (erefs ef1 x). rewrite (ekeeps_refs _ _ _ Hr). unfold one. destruct (decide (x = p)) as [->|]; lia.
Qed.

(** A new vnode starts with the reference that is handed out. *)
Lemma new_ev_bal ef ev : ev_refcount ev = 1 -> bal ef (one (new_ev ef)) (put_ev ef (new_ev ef) ev).
Proof.
  intros Hr. assert (new_ev ef ∉ ({[0]} ∪ option_to_set (ef_root ef) ∪ dom (evnodes ef) : gset Z)) as Hf by (unfold new_ev; apply (is_fresh (_ : gset Z))).
  set (p := new_ev ef) in *. assert (evnodes ef !! p = None) as Hp by (apply not_elem_of_dom; set_solver).
  assert (ef_root ef <> Some p) as Hroot. { intros E. apply Hf. rewrite E. simpl. set_solver. }
  assert (forall x, erefs (put_ev ef p ev) x = erefs ef x + one p x) as H.
  { intros x. rewrite erefs_put, bool_decide_eq_false_2, Hr by done. unfold one. case_decide; [|lia].
    subst x. unfold erefs. rewrite Hp. lia. }
  split; simpl; [lia|intros x; rewrite H; lia|intros x _ _; apply H|done].
Qed.

Lemma new_ev_keeps ef ef' : ekeeps ef ef' -> new_ev ef' = new_ev ef.
Proof. intros []. unfold new_ev. by rewrite ek_vnodes0, ek_root0. Qed.

Lemma emufs_loadvnode_bal mem ef h d : post (emufs_loadvnode mem ef h d) (fun '(ef', r) => bal ef (gives id r) ef').
Proof.
  unfold emufs_loadvnode. apply post_bind. eapply post_mono; [apply ef_acquire_bal|]. intros ef1 H1. apply post_any. intros [p|].
  { vc. bal_chain. }
  do 2 (case_match; [vc; bal_chain|]). cbv zeta. apply post_any. intros [tab r]. apply post_bind.
  eapply post_mono; [apply ef_release_keeps|]. intros ef2 H2.
  assert (ekeeps ef1 ef2) as Hk by (apply (ekeeps_trans _ (set_table ef1 tab)); done).
  pose proof (ekeeps_bal _ _ Hk) as H3. destruct r as [u|e]; apply post_Done; [|bal_chain].
  rewrite <- (new_ev_keeps _ _ Hk). pose proof (new_ev_bal ef2 (mk_ev 1 0 d h) eq_refl) as H4. simpl. bal_chain.
Qed.
#[local] Hint Resolve emu_decref_bal emufs_loadvnode_bal : post.

Lemma emu_open_vnode_bal mem ef p n c x : post (open_vnode mem ef p n c x) (fun '(ef', r) => bal ef (gives id r) ef').
Proof.
  unfold open_vnode. apply post_any. intros ev. apply post_on_ok. eapply post_mono; [apply on_emu_bal|].
  intros [ef1 [h|e]] H1; [apply ok_post_Ok|by apply ok_post_Err]. apply post_bind.
  eapply post_mono; [apply emufs_loadvnode_bal|]. intros [ef2 [q|e]] H2; [apply post_Done; simpl in *; bal_chain|].
  apply post_bind. eapply post_mono; [apply on_emu_bal|]. intros [ef3 r] H3. apply post_Done. simpl in *. bal_chain.
Qed.
Lemma emu_lookparent_bal mem ef p n len : post (emufs_lookparent mem ef p n len) (fun '(ef', r) => bal ef (gives fst r) ef').
Proof.
  unfold emufs_lookparent. destruct (strrchr n Vfs.SLASH) as [i|]; (case_match; [apply post_Done, bal_none|]).
  - apply post_on_ok. eapply post_mono; [apply emu_open_vnode_bal|].
    intros [ef1 [q|e]] Hb; [apply ok_post_Ok, post_Done|apply ok_post_Err]; exact Hb.
  - apply post_bind. eapply post_mono; [apply emu_incref_bal|]. intros ef1 Hb. by apply post_Done.
Qed.
Lemma emufs_getroot_bal ef : post (emufs_getroot ef) (fun '(ef', v) => bal ef (one v) ef').
Proof.
  unfold emufs_getroot. case_match; [|apply post_Halt]. apply post_bind. eapply post_mono; [apply emu_incref_bal|].
  intros ef1 H1. by apply post_Done.
Qed.
Lemma emufs_truncate_bal ef p len : post (emufs_truncate ef p len) (fun '(ef', _) => bal ef none ef').
Proof. unfold emufs_truncate. apply post_any. intros ev. apply on_emu_bal. Qed.
#[local] Hint Resolve emu_open_vnode_bal emu_lookparent_bal emufs_getroot_bal emufs_truncate_bal : post.

#[export] Instance emu_vn_ok : VnodesOk emufs_fs.
Proof.
  split; simpl; intros; try apply by_ops_post; try apply on_ef_post; try (apply post_Done, bal_none); eauto 2 with post nocore.
  all: first [apply io_ev_bal|apply emu_open_vnode_bal].
Qed.

End emu.
Arguments emu_softc : clear implicits.
Arguments emufs_fs : clear implicits.
(** ** Configuration *)

Section config.
Context {K : Type} {C : EmuCard K} {W2 : Type} {V2 : Vnodes W2} {D2 : Devices W2}.

#[local] Existing Instances Pair.pair_vn Pair.pair_devices.

(** No filesystem yet. *)
Definition no_emufs (sc : emu_softc K) (a : Array.array (P := Z)) : emufs_fs K := mk_ef sc None a ∅ 0.

Definition set_root (ef : emufs_fs K) (p : Z) : emufs_fs K :=
  mk_ef (ef_emu ef) (Some p) (ef_vnodes ef) (evnodes ef) (ewarnings ef).

(** The filesystem is not on a block device: it only goes into the VFS layer's list of names. *)
Definition emufs_addtovfs (mem : Z -> bool) (s : Vfs.vfs) (sc : emu_softc K) (w : W2) (devname : list Z)
  : exec ((Vfs.vfs * (emufs_fs K * W2)) * ret unit) :=
  let nothing := no_emufs sc (Array.mk_array 0 0 None) in
  if negb (mem sizeof_emufs_fs) then Done ((s, (nothing, w)), Err ENOMEM)
  else
    match Array.array_create mem with
    | None => Done ((s, (nothing, w)), Err ENOMEM)
    | Some a =>
        '(ef1, r) ← emufs_loadvnode mem (no_emufs sc a) EMU_ROOTHANDLE true;
        match r with
        | Err e => Done ((s, (ef1, w)), Err e)
        | Ok p =>
            '((s1, (ef2, w1)), r1) ← Vfs.vfs_addfs mem s (set_root ef1 p, w) devname (Pair.addrL EMU_FS);
            match r1 with
            | Ok _ => Done ((s1, (ef2, w1)), Ok tt)
            | Err e => ef3 ← emu_decref ef2 p; Done ((s1, (ef3, w1)), Err e)
            end
        end
    end.

(** [snprintf(name, sizeof(name), "emu%d", emuno)] *)
Definition emu_name (emuno : Z) : exec (list Z) :=
  '(b, _) ← Printf.vsnprintf (replicate 32 0) 32 [101; 109; 117; 37; 100] [Printf.AWord (u32 emuno)];
  Done (Sfs.cstr b).

(** A lock and a semaphore take 8 bytes each and a copy of the name.  [bus_map_area] gives the card's buffer. *)
Definition config_emu (mem : Z -> bool) (s : Vfs.vfs) (k : K) (regs : eregs) (iobuf : list Z) (w : W2) (emuno : Z)
  : exec ((Vfs.vfs * (emufs_fs K * W2)) * ret unit) :=
  let sc := mk_softc k regs iobuf false 0 0 in
  let nothing := no_emufs sc (Array.mk_array 0 0 None) in
  if negb (mem 8 && mem 11) then Done ((s, (nothing, w)), Err ENOMEM)
  else if negb (mem 8 && mem 10) then Done ((s, (nothing, w)), Err ENOMEM)
  else name ← emu_name emuno; emufs_addtovfs mem s sc w name.

End config.
End Emu.
