(* ===== verification/EmuInv.v ===== *)
(** * The invariant of the emulator filesystem

    Between operations the driver's lock is free and no interrupt is pending, the
    vnode table lists every loaded vnode once, and no two vnodes stand for the
    same handle of the card.  Whatever the card answers, no operation leaves
    this, none waits for an interrupt that will not come, and none fails an
    assertion of the code if its caller keeps to the rules of the interface. *)

From Stdlib Require Import ZArith Lia Bool.
From stdpp Require Import base list numbers gmap.
From S2P Require Import Prelude.
From S2P Require Import Array.
From S2P Require Import Uio.
From S2P Require Import Vnode.
From S2P Require Import Device.
From S2P Require Import Vfs.
From S2P Require Import Emu.
Import Copy Uio Emu.

Module EmuInv.

(** ** Executions that neither block nor fail an assertion *)

Definition safe {A} (m : exec A) (Q : A -> Prop) : Prop :=
  match m with Done a => Q a | Halt f => f = Panic \/ f = Undefined end.

Lemma safe_bind {A B} (m : exec A) (f : A -> exec B) Q : safe m (fun a => safe (f a) Q) -> safe (m ≫= f) Q.
Proof. by destruct m. Qed.
Lemma safe_mono {A} (m : exec A) (Q Q' : A -> Prop) : safe m Q -> (forall a, Q a -> Q' a) -> safe m Q'.
Proof. destruct m; simpl; auto. Qed.
Lemma safe_on_ok {T A B} (m : exec (T * ret A)) (k : T -> A -> exec (T * ret B)) Q :
  safe m (fun '(s, r) => match r with Ok a => safe (k s a) Q | Err e => Q (s, Err e) end) -> safe (on_ok m k) Q.
Proof. by destruct m as [[s [a|e]]|]. Qed.
Lemma safe_int z Q : Q z -> safe (int z) Q.
Proof. intros H. unfold int. case_match; [done|by right]. Qed.
Lemma safe_post {A} (m : exec A) Q Q' : safe m Q -> post m Q' -> safe m (fun a => Q a /\ Q' a).
Proof. destruct m; simpl; [|done]. intros H H'. split; [done|by apply H']. Qed.

(** ** Transfers *)

(** A region of one piece, in the address space the caller claims. *)
Record region (cas : option Z) (u : uio) : Prop := {
  rg_len : iov_len u = uio_resid u;
  rg_resid : 0 <= uio_resid u < 2 ^ 32;
  rg_space : match uio_segflg u with UIO_SYSSPACE => uio_space u = None | _ => uio_space u = cas end
}.

(** What is left of [u]. *)
Record rest (cas : option Z) (u u' : uio) : Prop := {
  rs_region : region cas u';
  rs_resid : uio_resid u' <= uio_resid u;
  rs_rw : rw u' = rw u
}.

Lemma rest_refl cas u : region cas u -> rest cas u u.
Proof. by split. Qed.

Lemma advance_rest cas u n : region cas u -> 0 <= n <= uio_resid u -> rest cas u (advance u n).
Proof.
  intros [] H. unfold advance. rewrite rg_len0, (u32_small (uio_resid u - n)) by lia.
  split; [split| |]; simpl; done || lia.
Qed.

Lemma copyin_safe m a b off len : safe (copyin m a b off len) (fun _ => True).
Proof. unfold copyin, kfault. repeat case_match; simpl; auto. Qed.
Lemma copyout_safe m b off a len : safe (copyout m b off a len) (fun _ => True).
Proof. unfold copyout, kfault. repeat case_match; simpl; auto. Qed.
Lemma uio_copy_safe m b off n u : safe (uio_copy m b off n u) (fun _ => True).
Proof.
  unfold uio_copy. repeat case_match; simpl; auto using copyin_safe.
  all: apply safe_bind; eapply safe_mono; [apply copyout_safe|]; by intros [? ?].
Qed.

Lemma uiomove_safe cas m b off n u : region cas u -> 0 <= n ->
  safe (uiomove cas m b off n u) (fun '((_, _, u'), _) => rest cas u u').
Proof.
  intros Hg Hn. pose proof Hg as []. unfold uiomove.
  replace (match uio_segflg u with UIO_SYSSPACE => _ | _ => _ end) with true
    by (destruct (uio_segflg u); by rewrite bool_decide_eq_true_2).
  run. cbn [uiomove_loop]. rewrite !Z.gtb_ltb.
  destruct (Z.ltb_spec 0 n), (Z.ltb_spec 0 (uio_resid u)); simpl; try by apply rest_refl.
  set (size := if n <? iov_len u then n else iov_len u).
  assert (0 < size <= uio_resid u /\ (size = n \/ size = iov_len u)) as [Hs Hc] by (unfold size; case_bool; lia).
  destruct (Z.eqb_spec size 0); [lia|]. apply safe_bind. eapply safe_mono; [apply uio_copy_safe|].
  intros [[m1 b1] [t|e]] _; [|by apply rest_refl]. apply safe_bind, safe_int.
  pose proof (advance_rest cas u size Hg ltac:(lia)) as Hr. cbn [uiomove_loop]. rewrite ?Z.gtb_ltb.
  assert (u32 (uio_resid u - size) = uio_resid u - size) as E by (apply u32_small; lia). unfold advance in *. simpl in *.
  rewrite E in *. destruct (Z.ltb_spec 0 (n - size)), (Z.ltb_spec 0 (uio_resid u - size)); try lia; exact Hr.
Qed.

Section inv.
Context {K : Type} {C : EmuCard K}.
Implicit Types sc : emu_softc K.
Implicit Types ef : emufs_fs K.

(** ** The driver *)

(** The lock is as [l] says, and every interrupt has been waited for. *)
Definition idle (l : bool) sc : Prop := e_lock sc = l /\ e_sem sc = 0.

(** An operation waits for its own interrupt, and leaves none behind. *)
Lemma op_safe l sc op : idle l sc -> safe (emu_waitdone (start_op sc op)) (fun '(sc', _) => idle l sc').
Proof.
  intros [Hl Hs]. unfold start_op. destruct emu_run as [[k r1] b1]. unfold emu_waitdone, emu_irq. simpl. rewrite Hs. simpl.
  apply safe_bind. unfold translate_err. repeat case_match; simpl; auto; by split.
Qed.

Lemma acquire_safe sc : idle false sc -> safe (acquire sc) (idle true).
Proof. intros [Hl Hs]. unfold acquire. rewrite Hl. done. Qed.
Lemma release_safe sc : idle true sc -> safe (release sc) (idle false).
Proof. intros [Hl Hs]. unfold release. rewrite Hl. done. Qed.

(** The steps of a request, with the lock. *)
Lemma released {A} sc (k : emu_softc K -> exec A) Q : idle true sc -> (forall sc', idle false sc' -> safe (k sc') Q) ->
  safe (release sc ≫= k) Q.
Proof. intros H Hk. apply safe_bind. eapply safe_mono; [by apply release_safe|]. exact Hk. Qed.
Lemma acquired {A} sc (k : emu_softc K -> exec A) Q : idle false sc -> (forall sc', idle true sc' -> safe (k sc') Q) ->
  safe (acquire sc ≫= k) Q.
Proof. intros H Hk. apply safe_bind. eapply safe_mono; [by apply acquire_safe|]. exact Hk. Qed.
Lemma requested {A} sc op (k : emu_softc K * ret unit -> exec A) Q : idle true sc ->
  (forall sc2 r, idle true sc2 -> safe (k (sc2, r)) Q) -> safe (emu_waitdone (start_op sc op) ≫= k) Q.
Proof. intros H Hk. apply safe_bind. eapply safe_mono; [by apply op_safe|]. intros [sc2 r] H2. by apply Hk. Qed.

Lemma emu_open_safe sc h n c x : idle false sc -> safe (emu_open sc h n c x) (fun '(sc', _) => idle false sc').
Proof.
  intros H. unfold emu_open. case_match; [done|]. cbv zeta. apply acquired; [done|]. intros sc1 H1.
  apply safe_bind. unfold strcpy_iobuf. case_match; [simpl|by right].
  apply requested; [done|]. intros sc2 r Hi2. apply released; [done|]. by intros sc3 Hi3.
Qed.

Lemma close_loop_safe n sc h : idle true sc -> safe (close_loop n sc h) (fun '(sc', _) => idle true sc').
Proof.
  revert sc. induction n as [|n IH]; intros sc H; simpl; (apply requested; [done|]); intros sc2 r H2;
    repeat case_match; try done; by apply IH.
Qed.

Lemma emu_close_safe l sc h : idle l sc -> safe (emu_close sc h) (fun '(sc', _) => idle l sc').
Proof.
  intros H. unfold emu_close. destruct H as [Hl Hs]. rewrite Hl. apply safe_bind.
  apply (safe_mono _ (idle true)); [destruct l; [done|by apply acquire_safe]|]. intros sc1 H1.
  apply safe_bind. eapply safe_mono; [by apply close_loop_safe|]. intros [sc2 r] H2.
  apply safe_bind. apply (safe_mono _ (idle l)); [destruct l; [done|by apply release_safe]|]. by intros sc3 H3.
Qed.

Notation io_safe m cas u := (safe m (fun '((sc', _, u'), _) => idle false sc' /\ rest cas u u')) (only parsing).

Lemma set_offset_rest cas u u' pos : rest cas u u' -> rest cas u (set_offset u' pos).
Proof. intros [[] ? ?]. by split. Qed.

Lemma emu_doread_safe cas sc m u h len op : idle false sc -> region cas u -> rw u = UIO_READ ->
  io_safe (emu_doread cas sc m u h len op) cas u.
Proof.
  intros H Hg Hr. unfold emu_doread. rewrite bool_decide_eq_true_2 by done. run. apply acquired; [done|]. intros sc1 H1.
  apply requested; [done|]. intros sc2 [t|e] H2; [|apply released; [done|]; intros sc3 H3; split; [done|by apply rest_refl]].
  apply safe_bind. eapply safe_mono; [apply (uiomove_safe _ _ _ _ _ _ Hg); apply u32_range|].
  intros [[[m1 b1] u1] r1] Hu. apply released; [done|]. intros sc3 H3. split; [done|by apply set_offset_rest].
Qed.

Lemma emu_write_safe cas sc m u h len : idle false sc -> region cas u -> rw u = UIO_WRITE -> 0 <= len ->
  io_safe (emu_write cas sc m u h len) cas u.
Proof.
  intros H Hg Hr Hlen. unfold emu_write. rewrite bool_decide_eq_true_2 by done. run. apply acquired; [done|]. intros sc1 H1.
  apply safe_bind. eapply safe_mono; [by apply (uiomove_safe _ _ _ _ _ _ Hg)|]. intros [[[m1 b1] u1] [t|e]] Hu.
  - apply requested; [done|]. intros sc2 r H2. apply released; [done|]. by intros sc3 H3.
  - apply released; [done|]. by intros sc3 H3.
Qed.

Lemma emu_getsize_safe sc h : idle false sc -> safe (emu_getsize sc h) (fun '(sc', _) => idle false sc').
Proof.
  intros H. unfold emu_getsize. apply acquired; [done|]. intros sc1 H1. apply requested; [done|]. intros sc2 r H2.
  apply released; [done|]. by intros sc3 H3.
Qed.
Lemma emu_trunc_safe sc h len : idle false sc -> safe (emu_trunc sc h len) (fun '(sc', _) => idle false sc').
Proof.
  intros H. unfold emu_trunc. apply acquired; [done|]. intros sc1 H1. apply requested; [done|]. intros sc2 r H2.
  apply released; [done|]. by intros sc3 H3.
Qed.

Lemma rest_trans cas u1 u2 u3 : rest cas u1 u2 -> rest cas u2 u3 -> rest cas u1 u3.
Proof. intros [] []. split; [done|lia|congruence]. Qed.

(** The loops end: a round that goes on has moved something. *)
Lemma read_loop_safe n cas h sc m u : idle false sc -> region cas u -> rw u = UIO_READ -> uio_resid u <= Z.of_nat n ->
  io_safe (read_loop n cas h sc m u) cas u.
Proof.
  revert sc m u. induction n as [|n IH]; intros sc m u H Hg Hr Hn; simpl; rewrite Z.gtb_ltb;
    (destruct (Z.ltb_spec 0 (uio_resid u)); [|split; [done|by apply rest_refl]]); [lia|].
  apply safe_bind. eapply safe_mono; [by apply emu_doread_safe|]. intros [[[sc1 m1] u1] [t|e]] [H1 Hu]; [|done].
  destruct (Z.eqb_spec (uio_resid u1) (uio_resid u)); [done|]. pose proof Hu as [Hg1 Hle Hrw].
  eapply safe_mono; [apply IH; [done|done|congruence|lia]|]. intros [[[sc2 m2] u2] r2] [H2 Hu2].
  split; [done|by apply (rest_trans _ _ u1)].
Qed.
Lemma amount_nonneg u : 0 <= uio_resid u -> 0 <= amount u.
Proof. unfold amount, EMU_MAXIO. case_match; lia. Qed.
Lemma write_loop_safe n cas h sc m u : idle false sc -> region cas u -> rw u = UIO_WRITE -> uio_resid u <= Z.of_nat n ->
  io_safe (write_loop n cas h sc m u) cas u.
Proof.
  revert sc m u. induction n as [|n IH]; intros sc m u H Hg Hr Hn; simpl; rewrite Z.gtb_ltb;
    (destruct (Z.ltb_spec 0 (uio_resid u)); [|split; [done|by apply rest_refl]]); [lia|].
  apply safe_bind. eapply safe_mono; [apply emu_write_safe; [done..|apply amount_nonneg; lia]|].
  intros [[[sc1 m1] u1] [t|e]] [H1 Hu]; [|done].
  destruct (Z.eqb_spec (uio_resid u1) (uio_resid u)); [done|]. pose proof Hu as [Hg1 Hle Hrw].
  eapply safe_mono; [apply IH; [done|done|congruence|lia]|]. intros [[[sc2 m2] u2] r2] [H2 Hu2].
  split; [done|by apply (rest_trans _ _ u1)].
Qed.

(** ** The vnode table *)

Record ef_wf (l : bool) ef : Prop := {
  wf_idle : idle l (ef_emu ef);
  wf_array : Array.array_wf (ef_vnodes ef);
  wf_table : exists ps, Array.contents (ef_vnodes ef) = Some <$> ps /\ NoDup ps /\ forall p, p ∈ ps <-> is_Some (evnodes ef !! p);
  wf_handles p q ev ev' : evnodes ef !! p = Some ev -> evnodes ef !! q = Some ev' -> ev_handle ev = ev_handle ev' -> p = q;
  wf_refs p ev : evnodes ef !! p = Some ev -> 0 < ev_refcount ev;
  wf_root : exists p ev, ef_root ef = Some p /\ evnodes ef !! p = Some ev /\ ev_dir ev = true
}.

Lemma wf_set_emu l l' ef sc : ef_wf l ef -> idle l' sc -> ef_wf l' (set_emu ef sc).
Proof. intros [] H. by split. Qed.
Lemma wf_ewarn l ef : ef_wf l ef -> ef_wf l (ewarn ef).
Proof. intros []. by split. Qed.

(** Storing a vnode with other counts. *)
Lemma wf_put l ef p ev ev1 : ef_wf l ef -> evnodes ef !! p = Some ev -> ev_handle ev1 = ev_handle ev -> ev_dir ev1 = ev_dir ev ->
  0 < ev_refcount ev1 -> ef_wf l (put_ev ef p ev1).
Proof.
  intros [] E Hh Hd Hr. split; simpl; [done|done| | | |].
  - destruct wf_table0 as (ps & Hc & Hnd & Hps). exists ps. split_and!; [done|done|]. intros q. rewrite Hps.
    rewrite lookup_insert. case_decide; [subst; by rewrite E|done].
  - intros q1 q2 e1 e2. rewrite !lookup_insert. do 2 case_decide; subst; intros E1 E2; simplify_eq; try done; intros; eapply wf_handles0; eauto; congruence.
  - intros q e. rewrite lookup_insert. case_decide; [by intros [= <-]|apply wf_refs0].
  - destruct wf_root0 as (r & er & Er & El & Hdr). exists r. rewrite lookup_insert. case_decide; [|by exists er].
    subst. exists ev1. split; [done|]. split; [done|]. congruence.
Qed.

Lemma table_lookup l ef i c : ef_wf l ef -> Array.contents (ef_vnodes ef) !! i = Some c ->
  exists p ev, c = Some p /\ evnodes ef !! p = Some ev.
Proof.
  intros [] E. destruct wf_table0 as (ps & Hc & Hnd & Hps). rewrite Hc, list_lookup_fmap in E.
  destruct (ps !! i) as [p|] eqn:Ep; [|done]. injection E as <-. apply list_elem_of_lookup_2, Hps in Ep as [ev Ev]. eauto.
Qed.

(** The searches stay in the table and find what is there. *)
Lemma find_handle_safe l ef h n i : ef_wf l ef -> 0 <= i -> Z.of_nat n + i = Array.num (ef_vnodes ef) ->
  (forall j p ev, (j < Z.to_nat i)%nat -> Array.contents (ef_vnodes ef) !! j = Some (Some p) -> evnodes ef !! p = Some ev -> ev_handle ev <> h) ->
  exists o, find_handle n ef h i = Done o /\
    match o with
    | Some p => exists ev, evnodes ef !! p = Some ev /\ ev_handle ev = h
    | None => forall p ev, evnodes ef !! p = Some ev -> ev_handle ev <> h
    end.
Proof.
  intros Hwf. revert i. induction n as [|n IH]; intros i Hi Hn Hb; simpl.
  - eexists. split; [done|]. intros p ev E. destruct (wf_table _ _ Hwf) as (ps & Hc & _ & Hps).
    assert (p ∈ ps) as [j Hj]%list_elem_of_lookup by (apply Hps; eauto).
    pose proof (Array.contents_length _ (wf_array _ _ Hwf)) as Hlen. rewrite Hc, length_fmap in Hlen.
    apply (Hb j p ev); [apply lookup_lt_Some in Hj; lia| |done]. by rewrite Hc, list_lookup_fmap, Hj.
  - destruct (Array.array_getguy_spec (ef_vnodes ef) i (wf_array _ _ Hwf) ltac:(lia)) as (c & -> & Hc). simpl.
    destruct (table_lookup _ _ _ _ Hwf Hc) as (p & ev & -> & E). unfold get_ev. rewrite E. simpl.
    destruct (Z.eqb_spec (ev_handle ev) h); [exists (Some p); split; [done|by exists ev]|]. apply IH; [lia|lia|]. intros j q e Hj Hq Eq.
    destruct (decide (j = Z.to_nat i)) as [->|]; [congruence|]. apply (Hb j q e); [lia|done|done].
Qed.

Lemma find_vnode_safe l ef p n i : ef_wf l ef -> 0 <= i -> Z.of_nat n + i = Array.num (ef_vnodes ef) ->
  (exists j, (Z.to_nat i <= j)%nat /\ Array.contents (ef_vnodes ef) !! j = Some (Some p)) ->
  exists ix, find_vnode n ef p i = Done (Some ix) /\ 0 <= ix < Array.num (ef_vnodes ef) /\
    Array.contents (ef_vnodes ef) !! Z.to_nat ix = Some (Some p).
Proof.
  intros Hwf. pose proof (Array.contents_length _ (wf_array _ _ Hwf)) as Hlen.
  revert i. induction n as [|n IH]; intros i Hi Hn (j & Hj & E); simpl.
  - apply lookup_lt_Some in E. lia.
  - destruct (Array.array_getguy_spec (ef_vnodes ef) i (wf_array _ _ Hwf) ltac:(lia)) as (c & -> & Hc). simpl.
    case_bool_decide as Hd; [subst; exists i; split; [done|]; split; [lia|done]|]. apply IH; [lia|lia|].
    exists j. split; [|done]. destruct (decide (j = Z.to_nat i)) as [->|]; [congruence|lia].
Qed.

(** A new vnode at the end of the table. *)
Lemma wf_insert l ef tab p d h : ef_wf l ef -> evnodes ef !! p = None ->
  (forall q ev, evnodes ef !! q = Some ev -> ev_handle ev <> h) ->
  Array.array_wf tab -> Array.contents tab = Array.contents (ef_vnodes ef) ++ [Some p] ->
  ef_wf l (put_ev (set_table ef tab) p (mk_ev 1 0 d h)).
Proof.
  intros [] Hp Hh Ha Hc. split; simpl; [done|done| | | |].
  - destruct wf_table0 as (ps & Hps & Hnd & Hin). exists (ps ++ [p]). rewrite Hc, Hps, fmap_app. split; [done|].
    assert (p ∉ ps) as Hnew by (rewrite Hin, Hp; by intros [? ?]). split.
    + apply NoDup_app. split; [done|]. split; [|apply NoDup_singleton]. by intros x Hx ->%list_elem_of_singleton.
    + intros q. rewrite elem_of_app, list_elem_of_singleton, Hin, lookup_insert. case_decide; [subst|naive_solver].
      split; [by eauto|by right].
  - intros q1 q2 e1 e2. rewrite !lookup_insert. do 2 case_decide; subst; intros E1 E2; simplify_eq; simpl; try done; [| |by apply wf_handles0].
    + intros Eh. by destruct (Hh _ _ E2).
    + intros Eh. by destruct (Hh _ _ E1).
  - intros q e. rewrite lookup_insert. case_decide; [by intros [= <-]|apply wf_refs0].
  - destruct wf_root0 as (r & er & Er & El & Hdr). exists r, er. rewrite lookup_insert_ne by congruence. done.
Qed.

(** A vnode taken out of the table. *)
Lemma wf_remove l ef tab i p : ef_wf l ef -> ef_root ef <> Some p -> Array.contents (ef_vnodes ef) !! i = Some (Some p) ->
  Array.array_wf tab -> Array.contents tab = delete i (Array.contents (ef_vnodes ef)) ->
  ef_wf l (set_evnodes (set_table ef tab) (delete p (evnodes ef))).
Proof.
  intros [] Hroot Hi Ha Hc. split; simpl; [done|done| | | |].
  - destruct wf_table0 as (ps & Hps & Hnd & Hin). rewrite Hps in Hc, Hi. rewrite list_lookup_fmap in Hi.
    destruct (ps !! i) as [q|] eqn:Eq; [|done]. injection Hi as ->. exists (delete i ps).
    rewrite Hc, delete_take_drop, delete_take_drop, fmap_app, fmap_take, fmap_drop. split; [done|].
    rewrite <- (take_drop_middle ps i p Eq) in Hnd. apply NoDup_app in Hnd as (Hn1 & Hn12 & [Hp2 Hn2]%NoDup_cons).
    split; [apply NoDup_app; split; [done|]; split; [|done]; intros x Hx Hx'; apply (Hn12 x Hx); by right|].
    intros x. rewrite elem_of_app. destruct (decide (x = p)) as [->|Hne].
    + rewrite lookup_delete_eq. split; [|by intros [? ?]]. intros [H1|H2]; [|done]. destruct (Hn12 p H1). by left.
    + assert (x ∈ ps <-> x ∈ take i ps \/ x = p \/ x ∈ drop (S i) ps) as Hx.
      { rewrite <- (take_drop_middle ps i p Eq) at 1. by rewrite elem_of_app, elem_of_cons. }
      rewrite lookup_delete_ne, <- Hin by done. naive_solver.
  - intros q1 q2 e1 e2 [_ E1]%lookup_delete_Some [_ E2]%lookup_delete_Some. by apply wf_handles0.
  - intros q e [_ E]%lookup_delete_Some. by apply (wf_refs0 q).
  - destruct wf_root0 as (r & er & Er & El & Hdr). exists r, er. rewrite lookup_delete_ne by congruence. done.
Qed.

(** ** The operations *)

(** [lock_acquire] and [lock_release] change only the driver's state. *)
Lemma ef_acquired {A} ef (k : emufs_fs K -> exec A) Q : ef_wf false ef ->
  (forall sc, ef_wf true (set_emu ef sc) -> safe (k (set_emu ef sc)) Q) -> safe (ef_acquire ef ≫= k) Q.
Proof.
  intros H Hk. unfold ef_acquire. apply safe_bind, acquired; [apply (wf_idle _ _ H)|]. intros sc Hsc.
  by apply Hk, (wf_set_emu false).
Qed.
Lemma ef_released {A} ef (k : emufs_fs K -> exec A) Q : ef_wf true ef ->
  (forall sc, ef_wf false (set_emu ef sc) -> safe (k (set_emu ef sc)) Q) -> safe (ef_release ef ≫= k) Q.
Proof.
  intros H Hk. unfold ef_release. apply safe_bind, released; [apply (wf_idle _ _ H)|]. intros sc Hsc.
  by apply Hk, (wf_set_emu true).
Qed.

Lemma on_emu_safe {A} l ef (m : exec (emu_softc K * ret A)) : ef_wf l ef -> safe m (fun '(sc, _) => idle l sc) ->
  safe (on_emu ef m) (fun '(ef', _) => exists sc, ef' = set_emu ef sc /\ ef_wf l ef').
Proof.
  intros H Hm. unfold on_emu. apply safe_bind. eapply safe_mono; [exact Hm|]. intros [sc r] Hsc.
  exists sc. split; [done|by apply (wf_set_emu l)].
Qed.

Notation keeps_wf m := (safe m (fun '(ef', _) => ef_wf false ef')) (only parsing).

Lemma emu_incref_safe l ef p ev : ef_wf l ef -> evnodes ef !! p = Some ev -> safe (emu_incref ef p) (ef_wf l).
Proof.
  intros H E. unfold emu_incref, get_ev. rewrite E. simpl. apply safe_bind, safe_int. simpl.
  apply (wf_put _ _ _ ev); [done..|]. simpl. pose proof (wf_refs _ _ H _ _ E). lia.
Qed.

Lemma new_ev_fresh ef : evnodes ef !! new_ev ef = None.
Proof.
  assert (new_ev ef ∉ ({[0]} ∪ option_to_set (ef_root ef) ∪ dom (evnodes ef) : gset Z)) as Hf
    by (unfold new_ev; apply (is_fresh (_ : gset Z))).
  apply not_elem_of_dom. set_solver.
Qed.

Lemma loadvnode_safe mem ef h d : ef_wf false ef -> Array.num (ef_vnodes ef) < Array.array_limit ->
  keeps_wf (emufs_loadvnode mem ef h d).
Proof.
  intros H Hlim. unfold emufs_loadvnode. apply ef_acquired; [done|]. intros sc H1. set (ef1 := set_emu ef sc) in *.
  pose proof (wf_array _ _ H1) as Ha.
  destruct (find_handle_safe true ef1 h (Z.to_nat (Array.array_getnum (ef_vnodes ef1))) 0) as (o & -> & Ho); [done|done| |lia|].
  { unfold Array.array_getnum. pose proof Ha as ([? ?] & _). lia. }
  run. destruct o as [p|].
  - destruct Ho as (ev & E & _). apply safe_bind. eapply safe_mono; [by apply (emu_incref_safe _ _ _ _ H1 E)|].
    intros ef2 H2. apply ef_released; [done|]. by intros sc2 H3.
  - do 2 (case_match; [apply ef_released; [done|]; by intros|]). cbv zeta.
    destruct (Array.array_add_spec mem (ef_vnodes ef1) (new_ev ef1) Ha Hlim) as (tab & r & -> & Ht & Hr). run.
    pose proof (new_ev_fresh ef1) as Hnew. destruct r as [u|e].
    + pose proof (wf_insert _ _ _ _ d h H1 Hnew Ho Ht Hr) as Hw. unfold ef_release.
      apply safe_bind, released; [apply (wf_idle _ _ H1)|]. intros sc2 Hi. exact (wf_set_emu _ _ _ _ Hw Hi).
    + destruct Hr as (_ & -> & _). apply ef_released; [by destruct H1|]. by intros sc2 Hw.
Qed.

Lemma reclaim_safe ef p ev : ef_wf false ef -> evnodes ef !! p = Some ev -> ef_root ef <> Some p -> ev_opencount ev = 0 ->
  keeps_wf (emufs_reclaim ef p).
Proof.
  intros H E Hroot Hop. unfold emufs_reclaim, get_ev. rewrite E. run. apply ef_acquired; [done|]. intros sc H1.
  destruct (ev_refcount ev =? 1); run; [|apply ef_released; [done|]; by intros sc2 H2]. apply safe_bind.
  eapply safe_mono; [apply (on_emu_safe true _ _ H1), emu_close_safe, (wf_idle _ _ H1)|].
  intros [ef2 r] (sc2 & -> & H2). destruct r as [u|e]; [|apply ef_released; [done|]; by intros sc3 H3].
  destruct (wf_table _ _ H2) as (ps & Hps & _ & Hin).
  assert (exists j, Array.contents (ef_vnodes ef) !! j = Some (Some p)) as [j Hj].
  { assert (p ∈ ps) as [j Hj]%list_elem_of_lookup by (apply Hin; by exists ev). exists j.
    simpl in Hps. by rewrite Hps, list_lookup_fmap, Hj. }
  destruct (find_vnode_safe true _ p (Z.to_nat (Array.array_getnum (ef_vnodes (set_emu (set_emu ef sc) sc2)))) 0 H2) as (ix & Ef & Hix & Hc); [done| | |].
  { unfold Array.array_getnum. pose proof (wf_array _ _ H2) as ([? ?] & _). simpl in *. lia. }
  { exists j. split; [lia|done]. }
  rewrite Ef. run.
  destruct (Array.array_remove_spec _ ix (wf_array _ _ H2) Hix) as (tab & -> & Ht & _ & Hdel). run.
  pose proof (wf_remove _ _ _ _ _ H2 Hroot Hc Ht Hdel) as H3. unfold ef_release.
  apply safe_bind, released; [apply (wf_idle _ _ H3)|]. intros sc3 Hi. rewrite Hop. simpl.
  exact (wf_set_emu _ _ _ _ H3 Hi).
Qed.

Lemma decref_safe ef p ev : ef_wf false ef -> evnodes ef !! p = Some ev -> 0 < erefs ef p ->
  (ev_refcount ev = 1 -> ev_opencount ev = 0) -> safe (emu_decref ef p) (ef_wf false).
Proof.
  intros H E Hc Hop. unfold emu_decref, get_ev. rewrite E. run. pose proof (wf_refs _ _ H _ _ E).
  rewrite !Z.gtb_ltb. destruct (Z.ltb_spec 0 (ev_refcount ev)); [|lia]. run. destruct (Z.ltb_spec 1 (ev_refcount ev)).
  { simpl. apply (wf_put _ _ _ ev); [done..|simpl; lia]. }
  unfold erefs in Hc. rewrite E in Hc. case_bool_decide as Hroot; [lia|].
  apply safe_bind. eapply safe_mono; [apply (reclaim_safe ef p ev H E Hroot); lia|].
  intros [ef' r] Hw. repeat case_match; simpl; by try apply wf_ewarn.
Qed.

Lemma open_vnode_safe mem ef p ev n c x : ef_wf false ef -> evnodes ef !! p = Some ev ->
  Array.num (ef_vnodes ef) < Array.array_limit -> keeps_wf (open_vnode mem ef p n c x).
Proof.
  intros H E Hlim. unfold open_vnode, get_ev. rewrite E. run. apply safe_on_ok.
  eapply safe_mono; [apply (on_emu_safe false _ _ H), emu_open_safe, (wf_idle _ _ H)|].
  intros [ef1 [h|e]] (sc & -> & H1); [|done]. apply safe_bind. eapply safe_mono; [by apply loadvnode_safe|].
  intros [ef2 [q|e]] H2; [done|]. apply safe_bind.
  eapply safe_mono; [apply (on_emu_safe false _ _ H2), emu_close_safe, (wf_idle _ _ H2)|]. by intros [ef3 r] (sc3 & -> & H3).
Qed.

Lemma lookparent_safe mem ef p ev n len : ef_wf false ef -> evnodes ef !! p = Some ev ->
  Array.num (ef_vnodes ef) < Array.array_limit -> keeps_wf (emufs_lookparent mem ef p n len).
Proof.
  intros H E Hlim. unfold emufs_lookparent. destruct (strrchr n Vfs.SLASH) as [i|]; (case_match; [done|]).
  - apply safe_on_ok. eapply safe_mono; [by apply (open_vnode_safe _ _ _ ev)|]. by intros [ef1 [q|e]] H1.
  - apply safe_bind. eapply safe_mono; [by apply (emu_incref_safe _ _ _ _ H E)|]. by intros ef1 H1.
Qed.

Lemma io_ev_safe cas ef m u p ev call : ef_wf false ef -> evnodes ef !! p = Some ev ->
  io_safe (call (ev_handle ev) (ef_emu ef) m u) cas u ->
  safe (io_ev ef m u p call) (fun '((ef', _, _), _) => ef_wf false ef').
Proof.
  intros H E Hc. unfold io_ev, get_ev. rewrite E. run. apply safe_bind. eapply safe_mono; [exact Hc|].
  intros [[[sc m1] u1] r] [Hsc _]. by apply (wf_set_emu false).
Qed.

Lemma by_ops_safe {A} ef p ev (file dir : exec A) Q : evnodes ef !! p = Some ev -> safe file Q -> safe dir Q -> safe (by_ops ef p file dir) Q.
Proof. intros E H1 H2. unfold by_ops, get_ev. rewrite E. run. by destruct (ev_dir ev). Qed.

(** ** Histories *)

(** What a caller can ask of a vnode, and of the filesystem. *)
Inductive eop : Type :=
| EIncref (p : Z) | EDecref (p : Z) | EIncopen (p : Z) | EDecopen (p : Z)
| ERead (cas : option Z) (m : mach) (u : uio) (p : Z)
| EWrite (cas : option Z) (m : mach) (u : uio) (p : Z)
| EGetdirentry (cas : option Z) (m : mach) (u : uio) (p : Z)
| EStat (p : Z)
| ETruncate (p len : Z)
| ECreat (mem : Z -> bool) (p : Z) (name : list Z) (excl : bool)
| ELookup (mem : Z -> bool) (p : Z) (path : list Z)
| ELookparent (mem : Z -> bool) (p : Z) (path : list Z) (len : Z)
| EGetroot (mem : Z -> bool).

(** The state after the operation. *)
Definition emu_do ef (o : eop) : exec (emufs_fs K) :=
  match o with
  | EIncref p => vop_incref ef p
  | EDecref p => vop_decref ef p
  | EIncopen p => vop_incopen ef p
  | EDecopen p => vop_decopen ef p
  | ERead cas m u p => '((ef', _, _), _) ← vop_read cas ef m u p; Done ef'
  | EWrite cas m u p => '((ef', _, _), _) ← vop_write cas ef m u p; Done ef'
  | EGetdirentry cas m u p => '((ef', _, _), _) ← by_ops ef p (Done ((ef, m, u), emufs_notdir)) (emufs_getdirentry cas ef m u p); Done ef'
  | EStat p => '(ef', _) ← emufs_stat ef p; Done ef'
  | ETruncate p len => '(ef', _) ← vop_truncate ef p len; Done ef'
  | ECreat mem p n x => '(ef', _) ← vop_creat mem ef p n x; Done ef'
  | ELookup mem p n => '(ef', _) ← vop_lookup mem ef p n; Done ef'
  | ELookparent mem p n len => '(ef', _) ← vop_lookparent mem ef p n len; Done ef'
  | EGetroot mem => '(ef', _) ← fs_getroot mem ef EMU_FS; Done ef'
  end.

Definition op_vnode (o : eop) : option Z :=
  match o with
  | EIncref p | EDecref p | EIncopen p | EDecopen p | ERead _ _ _ p | EWrite _ _ _ p | EGetdirentry _ _ _ p
  | EStat p | ETruncate p _ | ECreat _ p _ _ | ELookup _ p _ | ELookparent _ p _ _ => Some p
  | EGetroot _ => None
  end.

(** The rules of the interface: the vnode is loaded, a reference that is given back
    was held and the last one is not given back by somebody who has the file open,
    transfers have the right direction; and there is room in the table. *)
Definition allowed ef (o : eop) : Prop :=
  Array.num (ef_vnodes ef) < Array.array_limit /\
  (forall p, op_vnode o = Some p -> exists ev, evnodes ef !! p = Some ev /\
    match o with
    | EDecref _ => 0 < erefs ef p /\ (ev_refcount ev = 1 -> ev_opencount ev = 0)
    | EDecopen _ => 0 < ev_opencount ev
    | _ => True
    end) /\
  match o with
  | ERead cas m u _ | EGetdirentry cas m u _ => region cas u /\ rw u = UIO_READ
  | EWrite cas m u _ => region cas u /\ rw u = UIO_WRITE
  | _ => True
  end.

Inductive erun : emufs_fs K -> emufs_fs K -> Prop :=
| erun_nil ef : erun ef ef
| erun_cons ef ef' ef'' o : allowed ef o -> emu_do ef o = Done ef' -> erun ef' ef'' -> erun ef ef''.

Lemma drop_safe {A B} (m : exec (A * B)) Q : safe m (fun '(a, _) => Q a) -> safe ('(a, _) ← m; Done a) Q.
Proof. by destruct m as [[a b]|]. Qed.
Lemma drop3_safe {A B D E} (m : exec ((A * B * D) * E)) Q :
  safe m (fun '((a, _, _), _) => Q a) -> safe ('((a, _, _), _) ← m; Done a) Q.
Proof. by destruct m as [[[[a b] c] d]|]. Qed.

Lemma emu_do_safe ef o : ef_wf false ef -> allowed ef o -> safe (emu_do ef o) (ef_wf false).
Proof.
  intros H (Hlim & Hv & Ho). pose proof (wf_idle _ _ H) as Hi.
  destruct o as [p|p|p|p|cas m u p|cas m u p|cas m u p|p|p len|mem p n x|mem p n|mem p n len|mem]; simpl in *;
    try (destruct (Hv p eq_refl) as (ev & E & He)); try apply drop3_safe; try apply drop_safe;
    try (apply (by_ops_safe _ _ ev); [done| |]); try done.
  - by apply (emu_incref_safe _ _ _ ev).
  - destruct He. by apply (decref_safe _ _ ev).
  - unfold emu_incopen, get_ev. rewrite E. run. apply safe_bind, safe_int. simpl.
    apply (wf_put _ _ _ ev); [done..|apply (wf_refs _ _ H _ _ E)].
  - unfold emu_decopen, get_ev. rewrite E. run. rewrite !Z.gtb_ltb. destruct (Z.ltb_spec 0 (ev_opencount ev)); [|lia]. run.
    repeat case_match; simpl; try apply wf_ewarn; apply (wf_put _ _ _ ev); try done; apply (wf_refs _ _ H _ _ E).
  - destruct Ho as [Hg Hr]. apply (io_ev_safe cas _ _ _ _ ev); [done..|]. rewrite bool_decide_eq_true_2 by done. run.
    apply read_loop_safe; try done. unfold rounds. pose proof (rg_resid _ _ Hg). lia.
  - destruct Ho as [Hg Hr]. apply (io_ev_safe cas _ _ _ _ ev); [done..|]. rewrite bool_decide_eq_true_2 by done. run.
    apply write_loop_safe; try done. unfold rounds. pose proof (rg_resid _ _ Hg). lia.
  - destruct Ho as [Hg Hr]. apply (io_ev_safe cas _ _ _ _ ev); [done..|]. rewrite bool_decide_eq_true_2 by done. run.
    by apply emu_doread_safe.
  - unfold emufs_stat, emu_gettype, get_ev. rewrite E. run. case_match; [|done]. apply safe_on_ok.
    eapply safe_mono; [by apply (on_emu_safe false _ _ H), emu_getsize_safe|]. by intros [ef1 [z|e]] (sc & -> & H1).
  - unfold emufs_truncate, get_ev. rewrite E. run.
    eapply safe_mono; [by apply (on_emu_safe false _ _ H), emu_trunc_safe|]. by intros [ef1 r] (sc & -> & H1).
  - by apply (open_vnode_safe _ _ _ ev).
  - by apply (open_vnode_safe _ _ _ ev).
  - by apply (lookparent_safe _ _ _ ev).
  - unfold on_ef, emufs_getroot. simpl. destruct (wf_root _ _ H) as (r & er & -> & E & _). apply safe_bind.
    eapply safe_mono; [by apply (emu_incref_safe false _ _ er)|]. by intros ef1 H1.
Qed.

Lemma erun_wf ef ef' : erun ef ef' -> ef_wf false ef -> ef_wf false ef'.
Proof.
  intros Hr. induction Hr as [|ef ef1 ef2 o Ha E _ IH]; [done|]. intros H. apply IH.
  pose proof (emu_do_safe _ _ H Ha) as Hs. by rewrite E in Hs.
Qed.

(** C9. The emulator filesystem in any history of operations, whatever the card
    answers: between operations the driver's lock is free, no interrupt is left
    over, the vnode table lists each loaded vnode once and no two vnodes share a
    handle of the card; and the next operation comes to an end, without waiting
    for an interrupt that does not come, taking the lock twice or failing any
    other assertion: only a [panic] over an answer of the card or a fault, or an
    answer that overruns the transfer buffer or a counter, can stop it. *)
Theorem emufs_invariant ef ef' : ef_wf false ef -> erun ef ef' ->
  ef_wf false ef' /\ forall o, allowed ef' o -> safe (emu_do ef' o) (ef_wf false).
Proof.
  intros H Hr. pose proof (erun_wf _ _ Hr H) as H'. split; [done|]. intros o. by apply emu_do_safe.
Qed.

End inv.
End EmuInv.
