(* ===== verification/EmuIo.v ===== *)
(** * Files on the emulator filesystem

    [EmuCardOk] says what the driver relies on from a card that works: a handle
    stands for a file, [READ] puts bytes of the file at [REG_OFFSET] into the
    buffer, as many as it likes but at least one before the end of the file, and
    [WRITE] puts the bytes of the buffer into the file.  Then [emufs_read] and
    [emufs_write] are reading and writing the file, and a configured card is
    reached through the VFS layer under its name. *)

From Stdlib Require Import ZArith Lia Bool.
From stdpp Require Import base list numbers gmap.
From S2P Require Import Prelude.
From S2P Require Import Array.
From S2P Require Import Uio.
From S2P Require Import Lhd.
From S2P Require Import Vnode.
From S2P Require Import Sfs.
From S2P Require Import Device.
From S2P Require Import Vfs.
From S2P Require Import VfsTable.
From S2P Require Import VfsWorld.
From S2P Require Import Printf.
From S2P Require Import Emu.
From S2P Require Import EmuInv.
Import Copy Uio Emu EmuInv.

(** ** Files *)

(** [data] with [l] written at [off]; a gap is filled with zeros. *)
Definition overwrite (data : list Z) (off : Z) (l : list Z) : list Z :=
  take (Z.to_nat off) (data ++ replicate (Z.to_nat off - length data) 0) ++ l ++ drop (Z.to_nat off + length l) data.

Lemma overwrite_app data off l1 l2 : 0 <= off ->
  overwrite (overwrite data off l1) (off + Z.of_nat (length l1)) l2 = overwrite data off (l1 ++ l2).
Proof.
  intros H0. unfold overwrite. set (pre := take (Z.to_nat off) (data ++ replicate (Z.to_nat off - length data) 0)).
  assert (length pre = Z.to_nat off) as Hp by (unfold pre; rewrite length_take, length_app, length_replicate; lia).
  replace (Z.to_nat (off + Z.of_nat (length l1))) with (length pre + length l1)%nat by lia.
  set (tl := drop (Z.to_nat off + length l1) data).
  assert (take (length pre + length l1) ((pre ++ l1 ++ tl) ++ replicate (length pre + length l1 - length (pre ++ l1 ++ tl)) 0) = pre ++ l1) as ->.
  { rewrite (app_assoc pre l1 tl), <- (app_assoc (pre ++ l1) tl).
    apply take_app_length'. by rewrite length_app. }
  rewrite <- !app_assoc. do 3 f_equal. rewrite length_app.
  rewrite drop_app_ge by lia. rewrite drop_app_ge by lia. unfold tl. rewrite drop_drop. f_equal. lia.
Qed.

Lemma sub_overwrite data off l : 0 <= off -> sub (overwrite data off l) off (Z.of_nat (length l)) = l.
Proof.
  intros H0. unfold sub, overwrite. set (pre := take (Z.to_nat off) (data ++ replicate (Z.to_nat off - length data) 0)).
  assert (length pre = Z.to_nat off) as Hp by (unfold pre; rewrite length_take, length_app, length_replicate; lia).
  rewrite <- Hp, drop_app_length, Nat2Z.id. apply take_app_length.
Qed.

Lemma length_overwrite data off l : 0 <= off ->
  Z.of_nat (length (overwrite data off l)) = Z.max (off + Z.of_nat (length l)) (Z.of_nat (length data)).
Proof.
  intros H0. unfold overwrite. rewrite !length_app, length_take, length_app, length_replicate, length_drop. lia.
Qed.

(** ** A card that works *)

Class EmuCardOk (K : Type) {C : EmuCard K} := {
  card_ok : K -> Prop;
  card_file : K -> Z -> option (list Z);
  card_read k r b data : card_ok k -> r_oper r = EMU_OP_READ -> card_file k (r_handle r) = Some data ->
    Z.of_nat (length b) = EMU_MAXIO -> 0 <= r_iolen r <= EMU_MAXIO -> 0 <= r_offset r < 2 ^ 31 ->
    exists k' b' n, emu_run k r b = (k', mk_regs (r_handle r) (r_offset r + n) n (r_oper r) 1, b') /\
      card_ok k' /\ (forall h, card_file k' h = card_file k h) /\ Z.of_nat (length b') = EMU_MAXIO /\
      0 <= n <= r_iolen r /\ r_offset r + n <= Z.max (r_offset r) (Z.of_nat (length data)) /\
      (n = 0 -> 0 < r_iolen r -> Z.of_nat (length data) <= r_offset r) /\
      sub b' 0 n = sub data (r_offset r) n;
  card_write k r b data : card_ok k -> r_oper r = EMU_OP_WRITE -> card_file k (r_handle r) = Some data ->
    Z.of_nat (length b) = EMU_MAXIO -> 0 <= r_iolen r <= EMU_MAXIO -> 0 <= r_offset r < 2 ^ 31 ->
    exists k' r' b', emu_run k r b = (k', r', b') /\ r_result r' = 1 /\
      card_ok k' /\ Z.of_nat (length b') = EMU_MAXIO /\
      forall h, card_file k' h = if decide (h = r_handle r) then Some (overwrite data (r_offset r) (sub b 0 (r_iolen r)))
                                 else card_file k h
}.

Module EmuIo.
Section io.
Context {K : Type} {C : EmuCard K} {OK : EmuCardOk K}.
Implicit Types sc : emu_softc K.
Implicit Types ef : emufs_fs K.

(** The driver at rest on such a card. *)
Record sound sc : Prop := {
  so_idle : idle false sc;
  so_card : card_ok (e_card sc);
  so_iobuf : Z.of_nat (length (e_iobuf sc)) = EMU_MAXIO
}.

Definition file_at sc (h : Z) : option (list Z) := card_file (e_card sc) h.

(** ** One request *)

#[local] Arguments uiomove : simpl never.

Lemma set_offset_advance u n : set_offset (advance u n) (uio_offset u + n) = advance u n.
Proof. done. Qed.

Lemma emu_read_ok cas sc m u h len data : sound sc -> 0 <= h < 2 ^ 32 -> file_at sc h = Some data ->
  rw u = UIO_READ -> 0 <= len <= EMU_MAXIO -> 0 <= uio_offset u -> ready cas m u len ->
  exists sc' m' n, emu_read cas sc m u h len = Done ((sc', m', advance u n), Ok tt) /\
    sound sc' /\ (forall x, file_at sc' x = file_at sc x) /\ 0 <= n <= len /\
    uio_offset u + n <= Z.max (uio_offset u) (Z.of_nat (length data)) /\
    (n = 0 -> 0 < len -> Z.of_nat (length data) <= uio_offset u) /\ moved m u (sub data (uio_offset u) n) m'.
Proof.
  intros [[Hl Hs] Hk Hb] Hh Hf Hr Hlen Ho Hrd. pose proof (rd_offset _ _ _ _ Hrd) as Hoff. unfold EMU_MAXIO, INT_MAX in *.
  unfold emu_read, emu_doread. rewrite bool_decide_eq_true_2 by done. unfold acquire. rewrite Hl. run.
  unfold start_op. cbn [wreg_offset wreg_iolen wreg_handle set_regs set_lock e_regs e_card e_iobuf e_lock e_sem e_result r_handle r_offset r_iolen r_oper r_result].
  rewrite !u32_small by (unfold EMU_OP_READ; lia).
  destruct (card_read (e_card sc) (mk_regs h (uio_offset u) len EMU_OP_READ (r_result (e_regs sc))) (e_iobuf sc) data Hk eq_refl Hf Hb
    Hlen ltac:(simpl; lia)) as (k' & b' & n & -> & Hk' & Hfs & Hb' & Hn & Hend & Heof & Hd). simpl in Hn, Hend, Heof, Hd.
  unfold emu_waitdone, emu_irq. simpl. rewrite Hs. simpl.
  assert (ready cas m u n) as Hrn by (apply (ready_less _ _ _ len); [done|lia]).
  destruct (uiomove_ok cas m b' 0 n u Hrn) as (m' & Em & Hm); [lia|unfold EMU_MAXIO in *; lia|].
  unfold rreg. simpl. rewrite (u32_small n), (u32_small (uio_offset u + n)) by lia. rewrite Em, Hr. simpl. rewrite Hr in Hm.
  rewrite s32_small, set_offset_advance by (unfold INT_MAX in *; lia). rewrite Hd in Hm.
  eexists _, m', n. split; [done|]. split; [by split|]. split; [exact Hfs|]. split; [lia|]. done.
Qed.

(** ** Reading *)

Lemma sub_plus data off n1 n2 : 0 <= off -> 0 <= n1 -> 0 <= n2 ->
  sub data off (n1 + n2) = sub data off n1 ++ sub data (off + n1) n2.
Proof. intros. unfold sub. rewrite !Z2Nat.inj_add, <- drop_drop by lia. by rewrite take_take_drop. Qed.

(** How many bytes there are to read. *)
Definition available (data : list Z) (u : uio) : Z := Z.max 0 (Z.min (uio_resid u) (Z.of_nat (length data) - uio_offset u)).

Lemma amount_range u : 0 < uio_resid u -> 0 < amount u <= EMU_MAXIO /\ amount u <= uio_resid u.
Proof. unfold amount, EMU_MAXIO. rewrite Z.gtb_ltb. case_bool; lia. Qed.

Lemma read_loop_ok fuel cas h sc m u data : sound sc -> 0 <= h < 2 ^ 32 -> file_at sc h = Some data ->
  rw u = UIO_READ -> 0 <= uio_offset u -> ready cas m u (uio_resid u) -> uio_resid u <= Z.of_nat fuel ->
  exists sc' m', read_loop fuel cas h sc m u = Done ((sc', m', advance u (available data u)), Ok tt) /\
    sound sc' /\ (forall x, file_at sc' x = file_at sc x) /\ moved m u (sub data (uio_offset u) (available data u)) m'.
Proof.
  revert sc m u. induction fuel as [|fuel IH]; intros sc m u Hs Hh Hf Hr Ho Hrd Hfu; pose proof Hrd as [_ _ _ Hlen _ Hoff _];
    simpl; rewrite Z.gtb_ltb; destruct (Z.ltb_spec 0 (uio_resid u)); try lia.
  1,3: exists sc, m; replace (available data u) with 0 by (unfold available; lia); rewrite (advance_0 _ _ _ _ Hrd);
    split_and!; try done; apply moved_nil.
  pose proof (amount_range u ltac:(lia)) as [Ha1 Ha2].
  destruct (emu_read_ok cas sc m u h (amount u) data) as (sc1 & m1 & n & -> & Hs1 & Hf1 & Hn & Hend & Heof & Hm); try done; try lia.
  { apply (ready_less _ _ _ (uio_resid u)); [done|lia]. }
  run. pose proof (ready_less _ _ _ _ n Hrd ltac:(lia)) as Hrn. pose proof (advance_fields _ _ _ _ Hrn) as Eadv.
  rewrite Eadv. cbn [uio_resid]. rewrite <- Eadv. destruct (Z.eqb_spec (uio_resid u - n) (uio_resid u)).
  { exists sc1, m1. assert (n = 0) as -> by lia. replace (available data u) with 0 by (unfold available; lia). done. }
  assert (ready cas m1 (advance u n) (uio_resid u - n)) as Hrd1.
  { apply (ready_rest _ m _ _ _ _ (sub data (uio_offset u) n)); [|lia..|done]. by replace (n + (uio_resid u - n)) with (uio_resid u) by lia. }
  assert (uio_resid (advance u n) = uio_resid u - n) as Er by (by rewrite Eadv).
  destruct (IH sc1 m1 (advance u n)) as (sc2 & m2 & E2 & Hs2 & Hf2 & Hm2); try done; rewrite ?Er; try lia; try done.
  { by rewrite Hf1. } { simpl. lia. }
  assert (available data u = n + available data (advance u n)) as Eav by (unfold available; rewrite Er; simpl; lia).
  exists sc2, m2. rewrite E2, Eav. rewrite (advance_add cas m) by
    (try apply (ready_less _ _ _ (uio_resid u)); unfold available; rewrite ?Er; simpl; try done; lia).
  split; [done|]. split; [done|]. split; [intros x; by rewrite Hf2|]. rewrite sub_plus by (unfold available; lia).
  apply (moved_app _ _ _ m1 (advance u n)); [done|done|done|]. rewrite Eadv. simpl. rewrite length_sub by lia. lia.
Qed.

(** Reading a file of the emulator filesystem: on a card that works, however few
    bytes it delivers at a time, [emufs_read] fills the caller's region with the bytes
    of the file from the offset on, up to the end of the region or of the file; it
    advances offset and residue by that number of bytes and leaves all files as they were. *)
Theorem emufs_read_correct cas ef m u p ev data : sound (ef_emu ef) -> evnodes ef !! p = Some ev -> 0 <= ev_handle ev < 2 ^ 32 ->
  file_at (ef_emu ef) (ev_handle ev) = Some data -> rw u = UIO_READ -> 0 <= uio_offset u -> ready cas m u (uio_resid u) ->
  exists ef' m', emufs_read cas ef m u p = Done ((ef', m', advance u (available data u)), Ok tt) /\
    sound (ef_emu ef') /\ evnodes ef' = evnodes ef /\ (forall x, file_at (ef_emu ef') x = file_at (ef_emu ef) x) /\
    moved m u (sub data (uio_offset u) (available data u)) m'.
Proof.
  intros Hs E Hh Hf Hr Ho Hrd. unfold emufs_read, io_ev, get_ev. rewrite E. run. rewrite bool_decide_eq_true_2 by done. run.
  destruct (read_loop_ok (rounds u) cas (ev_handle ev) (ef_emu ef) m u data) as (sc & m' & -> & Hs' & Hf' & Hm); try done.
  { unfold rounds. destruct Hrd. lia. }
  by exists (set_emu ef sc), m'.
Qed.

(** ** Writing *)

Lemma sub_splice b l : (length l <= length b)%nat -> sub (splice b 0 l) 0 (Z.of_nat (length l)) = l.
Proof. intros H. unfold sub, splice. simpl. rewrite Nat2Z.id. apply take_app_length. Qed.

(** The files after [l] was written to [h] at [off]. *)
Definition written sc (h off : Z) (l : list Z) sc' : Prop :=
  forall x, file_at sc' x = if decide (x = h) then (fun data => overwrite data off l) <$> file_at sc h else file_at sc x.

Lemma written_app sc h off l1 sc1 l2 sc2 : 0 <= off -> written sc h off l1 sc1 ->
  written sc1 h (off + Z.of_nat (length l1)) l2 sc2 -> written sc h off (l1 ++ l2) sc2.
Proof.
  intros Ho H1 H2 x. rewrite H2. destruct (decide (x = h)) as [->|]; rewrite H1; [|by rewrite decide_False].
  rewrite decide_True by done. destruct (file_at sc h); [|done]. simpl. f_equal. by apply overwrite_app.
Qed.

Lemma emu_write_ok cas sc m u h len data : sound sc -> 0 <= h < 2 ^ 32 -> file_at sc h = Some data ->
  rw u = UIO_WRITE -> 0 <= len <= EMU_MAXIO -> 0 <= uio_offset u -> ready cas m u len ->
  exists sc', emu_write cas sc m u h len = Done ((sc', m, advance u len), Ok tt) /\
    sound sc' /\ written sc h (uio_offset u) (get_region m u len) sc'.
Proof.
  intros [[Hl Hs] Hk Hb] Hh Hf Hr Hlen Ho Hrd. pose proof (rd_offset _ _ _ _ Hrd) as Hoff. unfold EMU_MAXIO, INT_MAX in *.
  unfold emu_write. rewrite bool_decide_eq_true_2 by done. unfold acquire. rewrite Hl. run. cbn [e_iobuf wreg_offset wreg_iolen wreg_handle set_regs set_lock].
  destruct (uiomove_ok cas m (e_iobuf sc) 0 len u Hrd) as (m' & Em & Hm); [lia..|]. rewrite Hr in Em, Hm. rewrite Em. subst m'. run.
  set (b := splice (e_iobuf sc) 0 (get_region m u len)).
  assert (length (get_region m u len) = Z.to_nat len) as Hg by apply length_get_region.
  assert (Z.of_nat (length b) = 16384) as Hbl by (unfold b; rewrite length_splice; lia).
  unfold start_op. cbn [wreg_offset wreg_iolen wreg_handle set_regs set_lock set_iobuf e_regs e_card e_iobuf e_lock e_sem e_result r_handle r_offset r_iolen r_oper r_result].
  rewrite !u32_small by (unfold EMU_OP_WRITE; lia).
  destruct (card_write (e_card sc) (mk_regs h (uio_offset u) len EMU_OP_WRITE (r_result (e_regs sc))) b data Hk eq_refl Hf Hbl
    Hlen ltac:(simpl; lia)) as (k' & r' & b' & -> & Hres & Hk' & Hb' & Hfs).
  unfold emu_waitdone, emu_irq, rreg. cbn [e_sem e_result e_regs]. rewrite Hs, Hres. simpl.
  eexists. split; [done|]. split; [by split|]. intros x. unfold file_at. simpl. rewrite Hfs. simpl. fold (file_at sc h). rewrite Hf. simpl.
  replace (sub b 0 len) with (get_region m u len); [done|].
  pose proof (sub_splice (e_iobuf sc) (get_region m u len) ltac:(lia)) as Hss.
  by replace (Z.of_nat (length (get_region m u len))) with len in Hss by lia.
Qed.

Lemma emu_write_loop_ok fuel cas h sc m u data : sound sc -> 0 <= h < 2 ^ 32 -> file_at sc h = Some data ->
  rw u = UIO_WRITE -> 0 <= uio_offset u -> ready cas m u (uio_resid u) -> uio_resid u <= Z.of_nat fuel -> 0 < uio_resid u ->
  exists sc', write_loop fuel cas h sc m u = Done ((sc', m, advance u (uio_resid u)), Ok tt) /\
    sound sc' /\ written sc h (uio_offset u) (get_region m u (uio_resid u)) sc'.
Proof.
  revert sc u data. induction fuel as [|fuel IH]; intros sc u data Hs Hh Hf Hr Ho Hrd Hfu Hpos; pose proof Hrd as [_ _ _ Hlen _ Hoff _];
    [lia|]. simpl. rewrite Z.gtb_ltb. destruct (Z.ltb_spec 0 (uio_resid u)); [|lia].
  pose proof (amount_range u ltac:(lia)) as [Ha1 Ha2]. set (n := amount u) in *.
  pose proof (ready_less _ _ _ _ n Hrd ltac:(lia)) as Hrn. pose proof (advance_fields _ _ _ _ Hrn) as Eadv.
  destruct (emu_write_ok cas sc m u h n data) as (sc1 & -> & Hs1 & Hf1); try done; try lia. run.
  assert (uio_resid (advance u n) = uio_resid u - n) as Er by (by rewrite Eadv). rewrite Er.
  destruct (Z.eqb_spec (uio_resid u - n) (uio_resid u)); [lia|].
  destruct (Z.eq_dec n (uio_resid u)) as [En|].
  { exists sc1. rewrite <- En. split; [|done]. destruct fuel; simpl; rewrite Z.gtb_ltb, u32_small by lia;
      (destruct (Z.ltb_spec 0 (uio_resid u - n)); [lia|done]). }
  assert (ready cas m (advance u n) (uio_resid u - n)) as Hrd1.
  { apply (ready_rest _ m _ _ _ _ []); [|lia..|apply moved_nil]. by replace (n + (uio_resid u - n)) with (uio_resid u) by lia. }
  destruct (IH sc1 (advance u n) (overwrite data (uio_offset u) (get_region m u n))) as (sc2 & E2 & Hs2 & Hf2);
    try done; rewrite ?Er; try lia; try done.
  { rewrite Hf1, decide_True, Hf by done. done. } { simpl. lia. }
  rewrite Er in E2, Hf2. exists sc2. rewrite E2, (advance_add cas m) by (try lia; by replace (n + (uio_resid u - n)) with (uio_resid u) by lia).
  replace (n + (uio_resid u - n)) with (uio_resid u) by lia. split; [done|]. split; [done|].
  replace (uio_resid u) with (n + (uio_resid u - n)) by lia. rewrite (get_region_app cas) by (try lia; by replace (n + (uio_resid u - n)) with (uio_resid u) by lia).
  apply (written_app _ _ _ _ sc1); [done|done|]. rewrite length_get_region. replace (uio_offset u + Z.of_nat (Z.to_nat n)) with (uio_offset (advance u n)) by (simpl; lia).
  done.
Qed.

(** C20. Writing and reading back: on a card that works, [emufs_write] puts the bytes of
    the caller's region into the file at the offset, extending the file if need be,
    and touches no other file; reading the same range afterwards, in whatever pieces
    the card delivers it, gives back exactly those bytes. *)
Theorem emufs_write_read cas ef m u p ev data : sound (ef_emu ef) -> evnodes ef !! p = Some ev -> 0 <= ev_handle ev < 2 ^ 32 ->
  file_at (ef_emu ef) (ev_handle ev) = Some data -> rw u = UIO_WRITE -> 0 <= uio_offset u -> 0 < uio_resid u ->
  ready cas m u (uio_resid u) ->
  exists ef', emufs_write cas ef m u p = Done ((ef', m, rest_of u (uio_resid u)), Ok tt) /\ sound (ef_emu ef') /\
    evnodes ef' = evnodes ef /\ written (ef_emu ef) (ev_handle ev) (uio_offset u) (get_region m u (uio_resid u)) (ef_emu ef') /\
    forall m2 u2, rw u2 = UIO_READ -> uio_offset u2 = uio_offset u -> uio_resid u2 = uio_resid u -> ready cas m2 u2 (uio_resid u) ->
      exists ef2 m3, emufs_read cas ef' m2 u2 p = Done ((ef2, m3, rest_of u2 (uio_resid u)), Ok tt) /\
        moved m2 u2 (get_region m u (uio_resid u)) m3.
Proof.
  intros Hs E Hh Hf Hr Ho Hpos Hrd. unfold rest_of. rewrite <- (advance_fields _ _ _ _ Hrd).
  destruct (emu_write_loop_ok (rounds u) cas (ev_handle ev) (ef_emu ef) m u data) as (sc & Ew & Hs' & Hw); try done.
  { unfold rounds. lia. }
  exists (set_emu ef sc). split.
  { unfold emufs_write, io_ev, get_ev. rewrite E. run. rewrite bool_decide_eq_true_2 by done. run. by rewrite Ew. }
  split; [done|]. split; [done|]. split; [done|]. intros m2 u2 Hr2 Ho2 Hn2 Hrd2.
  set (l := get_region m u (uio_resid u)) in *. assert (Z.of_nat (length l) = uio_resid u) as Hl by (unfold l; rewrite length_get_region; lia).
  assert (available (overwrite data (uio_offset u) l) u2 = uio_resid u) as Ea.
  { unfold available. rewrite length_overwrite by done. lia. }
  destruct (read_loop_ok (rounds u2) cas (ev_handle ev) sc m2 u2 (overwrite data (uio_offset u) l)) as (sc2 & m3 & Er & _ & _ & Hm);
    rewrite ?Hn2, ?Ho2; try done.
  { rewrite Hw, decide_True, Hf by done. done. } { unfold rounds. lia. }
  exists (set_emu ef sc2), m3. rewrite Ea in Er, Hm. rewrite Ho2, <- Hl, sub_overwrite in Hm by done. split; [|done].
  pose proof (advance_fields _ _ _ _ Hrd2) as Ea2. unfold rest_of. rewrite Ea2, Hn2, Ho2 in Er.
  unfold emufs_read, io_ev, get_ev. simpl. rewrite E. run. rewrite bool_decide_eq_true_2 by done. run. by rewrite Er.
Qed.

End io.
End EmuIo.

(** ** From configuration to the first directory *)

Module EmuBoot.
Section boot.
Context {K : Type} {C : EmuCard K} {D : Type} {B : BlockDev D} {DD : Device D}.
Notation W := (emufs_fs K * Device.devs D)%type.
Implicit Types (s : Vfs.vfs) (w : Device.devs D).
#[local] Existing Instances Device.dev_vn Device.dev_vn_ok Device.dev_devices Device.dev_devices_ok Pair.pair_vn Pair.pair_vn_ok
  Pair.pair_devices Pair.pair_devices_ok.
Import Vfs VfsTable.

Definition all_mem : Z -> bool := fun _ => true.

Lemma array_add_enough {P} (a : Array.array (P := P)) p : post (Array.array_add all_mem a p) (fun '(_, r) => r = Ok tt).
Proof.
  assert (forall n, post (Array.array_preallocate all_mem a n) (fun '(_, r) => r = Ok tt)) as Hp.
  { intros n. unfold Array.array_preallocate, all_mem. vc. done. }
  assert (forall n, post (Array.array_setsize all_mem a n) (fun '(_, r) => r = Ok tt)) as Hz.
  { intros n. unfold Array.array_setsize. apply post_assert. intros _. case_match; [|vc; done].
    apply post_on_ok. eapply post_mono; [apply Hp|]. intros [a1 r] ->. apply ok_post_Ok. by apply post_Done. }
  unfold Array.array_add. apply post_any. intros n. apply post_on_ok. eapply post_mono; [apply Hz|]. intros [a1 r] ->.
  apply ok_post_Ok. vc. done.
Qed.

(** The card's filesystem has no volume name, so names do not depend on it. *)
Lemma names_emufs (ef ef' : emufs_fs K) w kd n : names (W := W) (ef, w) kd n <-> names (W := W) (ef', w) kd n.
Proof. unfold names, volname. by destruct (kd_fs kd). Qed.

(** Registering a filesystem under a free name. *)
Lemma addfs_done s (ef : emufs_fs K) w l name : devs_are s l -> knowndevs_lock s = false ->
  Z.of_nat (length l) < Array.array_limit -> (forall kd, kd ∈ l -> ~ names (W := W) (ef, w) kd name) ->
  exists s' w', vfs_addfs all_mem s (ef, w) name (Pair.addrL EMU_FS) = Done ((s', (ef, w')), Ok tt).
Proof.
  intros Hs Hlk Hlim Hn. unfold vfs_addfs, vfs_doadd, all_mem. cbn [negb]. cbn [dev_create_vnode Pair.pair_devices Device.dev_devices].
  unfold Device.create_vnode. cbn [snd fst negb andb]. run. cbn [option_map].
  set (w1 := Device.put_dn w _ _). unfold acquire_devs. rewrite Hlk. run. unfold doadd_insert.
  destruct (badnames_ok (set_knowndevs_lock s true) (ef, w1) l (Some name) None None) as (b & Eb & Hb); [by apply locked_are|done|].
  change (fs_getvolname (ef, w1) (Pair.addrL EMU_FS)) with (@None (list Z)). cbn [kd_name kd_rawname]. rewrite Eb. run.
  destruct b.
  { exfalso. destruct Hb as [(kd & Hin & n & Hk & Hg) _]; [done|]. apply (Hn kd Hin).
    assert (n = name) as -> by (unfold given in Hg; naive_solver). unfold names, volname in *. destruct (kd_fs kd); exact Hk. }
  destruct Hs as [Hwf Hc Hnum]. run.
  destruct (Array.array_add_spec (fun _ => true) (knowndevs (set_knowndevs_lock s true))
    (mk_kd name None None (Pair.addrR (fresh ({[0]} ∪ dom (Device.dvnodes w)))) (Some (Pair.addrL EMU_FS))) Hwf) as (a' & r & E & _ & _).
  { simpl. lia. }
  pose proof (array_add_enough _ _ _ E) as Hr. cbn beta iota in Hr. subst r. rewrite E. run. by eexists _, _.
Qed.

(** The filesystem as [config_emu] makes it, with its root vnode. *)
Definition fresh_emufs (k : K) (regs : eregs) (iobuf : list Z) (tab : Array.array (P := Z)) : emufs_fs K :=
  mk_ef (mk_softc k regs iobuf false 0 0) (Some 1) tab {[1 := mk_ev 1 0 true EMU_ROOTHANDLE]} 0.

Lemma load_root (k : K) regs iobuf : exists tab,
  emufs_loadvnode all_mem (no_emufs (mk_softc k regs iobuf false 0 0) (Array.mk_array 0 0 None)) EMU_ROOTHANDLE true =
    Done (mk_ef (mk_softc k regs iobuf false 0 0) None tab {[1 := mk_ev 1 0 true EMU_ROOTHANDLE]} 0, Ok 1) /\
  Array.array_wf tab /\ Array.contents tab = [Some 1].
Proof.
  eexists. split; [vm_compute; reflexivity|]. split; [|done]. unfold Array.array_wf. simpl. split_and!; done || lia.
Qed.

Lemma fresh_emufs_wf (k : K) regs iobuf tab : Array.array_wf tab -> Array.contents tab = [Some 1] ->
  ef_wf false (fresh_emufs k regs iobuf tab).
Proof.
  intros Ht Hc. split; simpl; [done|done| | | |].
  - exists [1]. split; [done|]. split; [apply NoDup_singleton|]. intros p. rewrite list_elem_of_singleton.
    split; [intros ->; rewrite lookup_singleton_eq; by eauto|]. by intros [ev [-> _]%lookup_singleton_Some].
  - by intros p q ev ev' [<- _]%lookup_singleton_Some [<- _]%lookup_singleton_Some.
  - by intros p ev [_ <-]%lookup_singleton_Some.
  - exists 1. eexists. split; [done|]. by rewrite lookup_singleton_eq.
Qed.

Lemma fresh_emufs_refs (k : K) regs iobuf tab p : erefs (fresh_emufs k regs iobuf tab) p = 0.
Proof.
  unfold erefs. simpl. destruct (decide (p = 1)) as [->|]; [by rewrite lookup_singleton_eq|by rewrite lookup_singleton_ne].
Qed.

(** C21. Configuring the card ([config_emu]), for any card, with enough memory and the
    name ["emu<n>"] not in use: the call succeeds, the filesystem starts with its
    invariant and no reference but its own to the root, and from then on the VFS layer
    finds the name: [vfs_getroot] hands out one reference to the root directory. *)
Theorem emu_boot s (k : K) regs iobuf w l n name : devs_are s l -> (forall ef, unique (W := W) (ef, w) l) -> knowndevs_lock s = false ->
  Z.of_nat (length l) < Array.array_limit -> emu_name n = Done name ->
  (forall ef kd, kd ∈ l -> ~ names (W := W) (ef, w) kd name) ->
  exists s' ef w', config_emu all_mem s k regs iobuf w n = Done ((s', (ef, w')), Ok tt) /\
    ef_wf false ef /\ (forall p, erefs ef p = 0) /\ knowndevs_lock s' = false /\
    exists (x : W) v, vfs_getroot all_mem s' (ef, w') name = Done ((s', x), Ok v) /\
      vop_gettype x v = Done (Ok Sfs.S_IFDIR) /\ vn_count x v = 1.
Proof.
  intros Hs Hu Hlk Hlim En Hn. destruct (load_root k regs iobuf) as (tab & El & Ht & Hc).
  set (ef := fresh_emufs k regs iobuf tab). destruct (addfs_done s ef w l name Hs Hlk Hlim (Hn ef)) as (s' & w' & Ea).
  pose proof (vfs_doadd_unique all_mem s (ef, w) l name false None (Some (Pair.addrL EMU_FS)) Hs (Hu ef) Hlk Hlim _ Ea)
    as (Hlk' & l' & Hs' & Hu' & v & -> & _).
  exists s', ef, w'. split.
  { unfold config_emu, all_mem. simpl. rewrite En. run. unfold emufs_addtovfs. cbn [negb Array.array_create].
    fold all_mem. rewrite El. run. change (set_root _ 1) with ef. by rewrite Ea. }
  split; [by apply fresh_emufs_wf|]. split; [apply fresh_emufs_refs|]. split; [done|].
  set (kd := new_kd name false None v (Some (Pair.addrL EMU_FS))) in *.
  rewrite (getroot_finds all_mem s' (ef, w') _ name (length l) kd Hs' Hu' Hlk'); [|by apply list_lookup_middle|by intros [H|H]|by left].
  unfold answer, kd. cbn [kd_fs new_kd kd_name]. rewrite bool_decide_eq_true_2 by done. run.
  eexists _, (Pair.addrL 1). split; [vm_compute; reflexivity|]. split; vm_compute; reflexivity.
Qed.

End boot.
End EmuBoot.

(** ** An example card *)

Module EmuExample.
Import EmuIo EmuBoot.

(** One file, behind every handle but that of the root; a read delivers at most two bytes. *)
Definition short (data : list Z) (r : eregs) : Z :=
  Z.max 0 (Z.min (r_iolen r) (Z.min 2 (Z.of_nat (length data) - r_offset r))).

#[export] Instance one_file : EmuCard (list Z) := {|
  emu_run data r b :=
    if r_oper r =? EMU_OP_READ then
      (data, mk_regs (r_handle r) (r_offset r + short data r) (short data r) (r_oper r) 1,
       splice b 0 (sub data (r_offset r) (short data r)))
    else if r_oper r =? EMU_OP_WRITE then
      (overwrite data (r_offset r) (sub b 0 (r_iolen r)), mk_regs (r_handle r) (r_offset r) (r_iolen r) (r_oper r) 1, b)
    else (data, mk_regs 7 (r_offset r) 0 (r_oper r) 1, b)
|}.

#[export] Instance one_file_ok : EmuCardOk (list Z).
Proof.
  refine {| card_ok _ := True; card_file data h := if decide (h = 7) then Some data else None |}.
  - intros k r b data _ Eo Ef Hb Hn Ho. simpl. rewrite Eo. case_decide; [|done]. injection Ef as ->.
    set (n := short data r). assert (0 <= n <= r_iolen r) as Hn' by (unfold n, short; lia).
    assert (r_offset r + n <= Z.max (r_offset r) (Z.of_nat (length data))) as He by (unfold n, short; lia).
    assert (length (sub data (r_offset r) n) = Z.to_nat n) as Hl.
    { destruct (Z.eq_dec n 0) as [->|]; [done|]. apply length_sub; lia. }
    eexists _, _, n. split; [done|]. split_and!; try done; try lia.
    + rewrite length_splice; lia.
    + unfold n, short. lia.
    + rewrite <- (sub_splice b (sub data (r_offset r) n)) at 2 by lia. f_equal. lia.
  - intros k r b data _ Eo Ef Hb Hn Ho. simpl. rewrite Eo. case_decide as Hh; [|done]. injection Ef as ->.
    eexists _, _, _. split; [done|]. split_and!; try done. intros h. rewrite Hh. by case_decide.
Defined.

Definition ex_regs : eregs := mk_regs 0 0 0 0 0.
Definition ex_buf : list Z := replicate (Z.to_nat EMU_MAXIO) 0.
Definition ex_tab (l : list Z) : Array.array (P := Z) :=
  Array.mk_array (Z.of_nat (length l)) (Z.of_nat (length l)) (Some (Some <$> l)).
Definition ex_emufs : emufs_fs (list Z) := fresh_emufs [104; 105; 33] ex_regs ex_buf (ex_tab [1]).
(** With the file open. *)
Definition ex_open : emufs_fs (list Z) :=
  mk_ef (ef_emu ex_emufs) (Some 1) (ex_tab [1; 2]) {[1 := mk_ev 1 0 true 0; 2 := mk_ev 1 0 false 7]} 0.
Definition ex_mach : mach := mk_mach (fun a => a mod 256) (fun _ => None) false.

Lemma ex_emufs_wf : ef_wf false ex_emufs.
Proof. apply fresh_emufs_wf; [|done]. unfold Array.array_wf. simpl. split_and!; done || lia. Qed.

Lemma emu_ex_ready m : pcb_badfaultfunc m = false -> forall r, ready None m (mk_kuio 1000 5 2 r) 5.
Proof. intros Hm r. by split; simpl; unfold INT_MIN, INT_MAX; try lia. Qed.

(** After opening ["a"]. *)
Definition ex_after : emufs_fs (list Z) :=
  match emu_do ex_emufs (ELookup all_mem 1 [97]) with Done ef => ef | Halt _ => ex_emufs end.

Lemma ex_lookup : erun ex_emufs ex_after.
Proof.
  apply (erun_cons _ ex_after _ (ELookup all_mem 1 [97])); [|vm_compute; reflexivity|apply erun_nil].
  split; [done|]. split; [|done]. intros p [= <-]. eexists. by split.
Qed.

Lemma emufs_invariant_witness : ef_wf false ex_after /\
  (forall o, allowed ex_after o -> safe (emu_do ex_after o) (ef_wf false)) /\ ev_handle <$> evnodes ex_after !! 2 = Some 7.
Proof.
  destruct (emufs_invariant ex_emufs ex_after ex_emufs_wf ex_lookup) as [H1 H2].
  split; [exact H1|]. split; [exact H2|vm_compute; reflexivity].
Defined.

Lemma emufs_write_read_witness : exists ef',
  emufs_write None ex_open ex_mach (mk_kuio 1000 5 2 UIO_WRITE) 2 =
    Done ((ef', ex_mach, mk_uio 1005 0 7 0 UIO_SYSSPACE UIO_WRITE None), Ok tt) /\
  file_at (ef_emu ef') 7 = Some [104; 105; 232; 233; 234; 235; 236] /\
  exists ef2 m3, emufs_read None ef' ex_mach (mk_kuio 1000 5 2 UIO_READ) 2 =
    Done ((ef2, m3, mk_uio 1005 0 7 0 UIO_SYSSPACE UIO_READ None), Ok tt).
Proof.
  destruct (emufs_write_read None ex_open ex_mach (mk_kuio 1000 5 2 UIO_WRITE) 2 (mk_ev 1 0 false 7) [104; 105; 33])
    as (ef' & Ew & _ & _ & Hf & Hr); [by split|done|done|done|done|done|done|by apply emu_ex_ready|].
  exists ef'. split; [exact Ew|]. split; [rewrite Hf; vm_compute; reflexivity|].
  destruct (Hr ex_mach (mk_kuio 1000 5 2 UIO_READ)) as (ef2 & m3 & Er & _); [done|done|done|by apply emu_ex_ready|].
  by exists ef2, m3.
Defined.

#[local] Existing Instances World.dev_block World.dev_device Device.dev_vn Device.dev_devices Pair.pair_vn Pair.pair_devices.

Definition ex_none : Device.devs World.dev := Device.mk_devs ∅ ∅ 0.
Definition ex_vfs : Vfs.vfs := Vfs.mk_vfs (Array.mk_array 0 0 None) false None false None.

Lemma emu_boot_witness : exists s' ef w', config_emu all_mem ex_vfs [104; 105; 33] ex_regs ex_buf ex_none 0 = Done ((s', (ef, w')), Ok tt) /\
  exists x v, Vfs.vfs_getroot all_mem s' (ef, w') [101; 109; 117; 48] = Done ((s', x), Ok v).
Proof.
  destruct (emu_boot ex_vfs [104; 105; 33] ex_regs ex_buf ex_none [] 0 [101; 109; 117; 48]) as (s' & ef & w' & E & _ & _ & _ & x & v & Ev & _).
  - split; [|done|done]. unfold Array.array_wf. simpl. split_and!; done || lia.
  - by intros ef i j kd kd' n.
  - done.
  - done.
  - vm_compute. reflexivity.
  - by intros ef kd ?%elem_of_nil.
  - exists s', ef, w'. split; [exact E|]. by exists x, v.
Defined.

(** The whole way: configure the card, open the file through the VFS layer by its name
    and read it. *)
Example emu_read_file :
  match config_emu all_mem ex_vfs [104; 105; 33] ex_regs ex_buf ex_none 0 with
  | Done ((s, w), Ok _) =>
      match Vfs.vfs_open all_mem s w [101; 109; 117; 48; 58; 97] 0 with
      | Done ((_, w1), Ok v) =>
          match vop_read None w1 ex_mach (mk_kuio 1000 5 0 UIO_READ) v with
          | Done ((_, m, u), Ok _) => Some (bytes_at (kmem m) 1000 3, uio_resid u)
          | _ => None
          end
      | _ => None
      end
  | _ => None
  end = Some ([104; 105; 33], 2).
Proof. vm_compute. reflexivity. Qed.

End EmuExample.
