(* ===== verification/Menu.v ===== *)
(** * The kernel menu ([kern/main/menu.c], [kern/lib/kgets.c])

    The menu reads a line from the console, cuts it into commands at semicolons
    and the commands into words at blanks, and calls the function the first word
    names.  The line is a buffer; [strtok_r] ([lib/libc]) cuts it in place, by
    writing zeros into it, twice over: the commands are cut while the loop over
    the line still has its place in it.  A pointer into the buffer is an index.

    What a command does beyond the menu is a parameter, the class [Commands];
    a command may write into its words (the path functions of the VFS layer do)
    and [CommandsOk] says that it writes nowhere else. *)

From Stdlib Require Import ZArith Lia Bool Ascii String.
From S2P Require Import Prelude.
From S2P Require Import Sfs.
From S2P Require Import Vfs.
From S2P Require Import Printf.
From stdpp Require Import base list numbers.

Local Open Scope Z_scope.

Module Menu.

(** The characters of a literal. *)
Definition lit (s : string) : list Z := (fun a => Z.of_nat (nat_of_ascii a)) <$> list_ascii_of_string s.
#[local] Arguments lit s%_string.

(** ** Strings *)

(** The string at [p], up to its terminator. *)
Definition str_at (buf : list Z) (p : Z) : list Z := Sfs.cstr (drop (Z.to_nat p) buf).

Fixpoint strchr (s : list Z) (ch : Z) : option nat :=
  match s with
  | [] => if ch =? 0 then Some 0%nat else None
  | c :: s' => if c =? ch then Some 0%nat else S <$> strchr s' ch
  end.

(** [char] is signed. *)
Definition schar (c : Z) : Z := if c <? 128 then c else c - 256.

Fixpoint strcmp (a b : list Z) : Z :=
  let order x y := if x >? y then 1 else if x =? y then 0 else -1 in
  match a, b with
  | [], [] => 0
  | [], y :: _ => order 0 (schar y)
  | x :: _, [] => order (schar x) 0
  | x :: a', y :: b' => if schar x =? schar y then strcmp a' b' else order (schar x) (schar y)
  end.

Definition is_sep (seps : list Z) (c : Z) : bool := match strchr seps c with Some _ => true | None => false end.

(** [while (c && strchr(seps, c)) p++] for the character [c] at [p], and with the test
    negated in a word. *)
Fixpoint skip (fuel : nat) (buf seps : list Z) (word : bool) (p : Z) : exec Z :=
  match fuel with
  | O => Halt Fuel
  | S f =>
      c ← rd buf p;
      if negb (c =? 0) && xorb word (is_sep seps c) then skip f buf seps word (p + 1) else Done p
  end.

(** The buffer, the context and the word. *)
Definition strtok_r (buf : list Z) (string : option Z) (seps : list Z) (context : option Z)
  : exec (list Z * option Z * option Z) :=
  let context := match string with Some p => Some p | None => context end in
  match context with
  | None => Done (buf, None, None)
  | Some head =>
      head ← skip (S (length buf)) buf seps false head;
      c ← rd buf head;
      if c =? 0 then Done (buf, None, None)
      else
        tail ← skip (S (length buf)) buf seps true head;
        t ← rd buf tail;
        if t =? 0 then Done (buf, None, Some head)
        else
          buf1 ← wr buf tail 0;
          Done (buf1, Some (tail + 1), Some head)
  end.

(** ** The command table *)

Inductive command : Set :=
| cmd_mainmenu | cmd_opsmenu | cmd_testmenu | cmd_shell | cmd_prog | cmd_dbflags | cmd_mount | cmd_unmount
| cmd_bootfs | printfile | cmd_chdir | cmd_pwd | cmd_sync | cmd_panic | cmd_quit | cmd_setdbflags
| catmousesem | catmouselock | createcars | cmd_kheapstats | arraytest | bitmaptest | queuetest | malloctest
| mallocstress | nettest | threadtest | threadtest2 | threadtest3 | semtest | locktest | cvtest
| fstest | readstress | writestress | writestress2 | createstress.

(** The options of the kernel configuration. *)
Record options : Set := mk_options { OPT_SYNCHPROBS : bool; OPT_SFS : bool; OPT_NET : bool }.

Definition cmdtable (o : options) : list (list Z * command) :=
  [ (lit "?", cmd_mainmenu); (lit "h", cmd_mainmenu); (lit "help", cmd_mainmenu); (lit "?o", cmd_opsmenu);
    (lit "?t", cmd_testmenu); (lit "s", cmd_shell); (lit "p", cmd_prog); (lit "dbflags", cmd_dbflags);
    (lit "mount", cmd_mount); (lit "unmount", cmd_unmount); (lit "bootfs", cmd_bootfs); (lit "pf", printfile);
    (lit "cd", cmd_chdir); (lit "pwd", cmd_pwd); (lit "sync", cmd_sync); (lit "panic", cmd_panic);
    (lit "q", cmd_quit); (lit "exit", cmd_quit); (lit "halt", cmd_quit); (lit "df", cmd_setdbflags) ] ++
  (if OPT_SYNCHPROBS o then [ (lit "1a", catmousesem); (lit "1b", catmouselock); (lit "1c", createcars) ] else []) ++
  [ (lit "kh", cmd_kheapstats); (lit "at", arraytest); (lit "bt", bitmaptest); (lit "qt", queuetest);
    (lit "km1", malloctest); (lit "km2", mallocstress) ] ++
  (if OPT_NET o then [ (lit "net", nettest) ] else []) ++
  [ (lit "tt1", threadtest); (lit "tt2", threadtest2); (lit "tt3", threadtest3); (lit "sy1", semtest);
    (lit "sy2", locktest); (lit "sy3", cvtest); (lit "fs1", fstest); (lit "fs2", readstress);
    (lit "fs3", writestress); (lit "fs4", writestress2); (lit "fs5", createstress) ].

(** What the commands call.  [run] is a function of another file, or one that only prints,
    with the buffer and the words; the others are called by the functions of the menu
    with a name. *)
Class Commands (K : Type) := {
  run : command -> K -> list Z -> list Z -> exec (K * list Z * ret unit);
  sfs_mount : K -> list Z -> exec (K * ret unit);
  vfs_unmount : K -> list Z -> exec (K * ret unit);
  vfs_setbootfs : K -> list Z -> exec (K * ret unit);
  run_program : K -> list (list Z) -> exec (K * ret unit)
}.

Section menu.
Context {K : Type} `{!Commands K}.
Variable opts : options.

Record menu_st : Type := mk_menu { dbflags : Z; kernel : K }.
Definition set_kernel (st : menu_st) (k : K) : menu_st := mk_menu (dbflags st) k.

Notation result := (exec (menu_st * list Z * ret unit)).

(** ** The functions of the commands *)

Definition getinterval (s1 ns1 s2 ns2 : Z) : Z * Z :=
  let '(s2, ns2) := if ns2 <? ns1 then (s2 - 1, u32 (ns2 + 1000000000)) else (s2, ns2) in
  (s2 - s1, u32 (ns2 - ns1)).

Definition bitmanip (st : menu_st) (flagnum on off : Z) : menu_st :=
  let bit := Z.land (Z.shiftr (dbflags st) (flagnum - 1)) 1 in
  let flagconst := u32 (Z.shiftl 1 (flagnum - 1)) in
  if on =? 0 then
    if bit =? 0 then mk_menu (u32 (dbflags st + flagconst)) (kernel st) else st
  else if off =? 0 then
    if bit =? 1 then mk_menu (u32 (dbflags st - flagconst)) (kernel st) else st
  else st.

Definition do_setdbflags (st : menu_st) (buf args : list Z) : result :=
  if negb (Z.of_nat (length args) =? 3) then Done (st, buf, Err EINVAL)
  else
    a1 ← rd args 1;
    a2 ← rd args 2;
    let flagnum := Printf.atoi (str_at buf a1) in
    let mode_on := strcmp (str_at buf a2) (lit "on") in
    let mode_off := strcmp (str_at buf a2) (lit "off") in
    if (flagnum >? 12) || (flagnum <? 1) then Done (st, buf, Err EINVAL)
    else if negb (mode_on =? 0) && negb (mode_off =? 0) then Done (st, buf, Err EINVAL)
    else Done (bitmanip st flagnum mode_on mode_off, buf, Ok tt).

Definition COLON : Z := 58.

(** [if (device[strlen(device)-1]==':') device[strlen(device)-1] = 0;] *)
Definition strip_colon (buf : list Z) (device : Z) : exec (list Z) :=
  let last := device + Z.of_nat (length (str_at buf device)) - 1 in
  c ← rd buf last;
  if c =? COLON then wr buf last 0 else Done buf.

(** The [device] of [mount], [unmount] and [bootfs], passed on to [f]. *)
Definition with_device (f : K -> list Z -> exec (K * ret unit)) (st : menu_st) (buf : list Z) (device : Z) : result :=
  buf1 ← strip_colon buf device;
  '(k, r) ← f (kernel st) (str_at buf1 device);
  Done (set_kernel st k, buf1, r).

Definition do_mount (st : menu_st) (buf args : list Z) : result :=
  if negb (Z.of_nat (length args) =? 3) then Done (st, buf, Err EINVAL)
  else
    fstype ← rd args 1;
    device ← rd args 2;
    buf1 ← strip_colon buf device;
    if OPT_SFS opts && (strcmp (lit "sfs") (str_at buf1 fstype) =? 0) then
      '(k, r) ← sfs_mount (kernel st) (str_at buf1 device);
      Done (set_kernel st k, buf1, r)
    else Done (st, buf1, Err EINVAL).

Definition do_device (f : K -> list Z -> exec (K * ret unit)) (st : menu_st) (buf args : list Z) : result :=
  if negb (Z.of_nat (length args) =? 2) then Done (st, buf, Err EINVAL)
  else device ← rd args 1; with_device f st buf device.

(** [common_prog]: the thread is started and waited for in [run_program]. *)
Definition common_prog (st : menu_st) (buf : list Z) (words : list (list Z)) : result :=
  '(k, r) ← run_program (kernel st) words;
  Done (set_kernel st k, buf, r).

Definition _PATH_SHELL : list Z := lit "/bin/sh".

Definition call (c : command) (st : menu_st) (buf args : list Z) : result :=
  match c with
  | cmd_mainmenu | cmd_opsmenu | cmd_testmenu | cmd_dbflags | cmd_kheapstats => Done (st, buf, Ok tt)
  | cmd_setdbflags => do_setdbflags st buf args
  | cmd_mount => do_mount st buf args
  | cmd_unmount => do_device vfs_unmount st buf args
  | cmd_bootfs => do_device vfs_setbootfs st buf args
  | cmd_prog =>
      if Z.of_nat (length args) <? 2 then Done (st, buf, Err EINVAL)
      else common_prog st buf (str_at buf <$> drop 1 args)
  | cmd_shell =>
      if negb (Z.of_nat (length args) =? 1) then Done (st, buf, Err EINVAL)
      else common_prog st buf [_PATH_SHELL]
  | cmd_panic => Halt Panic
  | _ =>
      '(k, buf1, r) ← run c (kernel st) buf args;
      Done (set_kernel st k, buf1, r)
  end.

(** ** Dispatching *)

Definition MAXMENUARGS : Z := 16.
Definition BLANKS : list Z := [32; 9].
Definition SEMICOLON : list Z := [59].

(** The loop that collects the words. *)
Fixpoint args_loop (fuel : nat) (buf : list Z) (context word : option Z) (args : list Z) : exec (list Z * ret (list Z)) :=
  match word with
  | None => Done (buf, Ok args)
  | Some w =>
      match fuel with
      | O => Halt Fuel
      | S f =>
          if Z.of_nat (length args) >=? MAXMENUARGS then Done (buf, Err E2BIG)
          else
            '(buf1, context1, word1) ← strtok_r buf None BLANKS context;
            args_loop f buf1 context1 word1 (args ++ [w])
      end
  end.

(** The first entry of the table with this name. *)
Fixpoint lookup_cmd (table : list (list Z * command)) (name : list Z) : option command :=
  match table with
  | [] => None
  | (n, c) :: table' => if negb (length n =? 0)%nat && (strcmp name n =? 0) then Some c else lookup_cmd table' name
  end.

Definition cmd_dispatch (st : menu_st) (buf : list Z) (cmd : Z) : result :=
  '(buf1, context, word) ← strtok_r buf (Some cmd) BLANKS None;
  '(buf2, r) ← args_loop (S (length buf)) buf1 context word [];
  match r with
  | Err e => Done (st, buf2, Err e)
  | Ok args =>
      match args with
      | [] => Done (st, buf2, Ok tt)
      | a0 :: _ =>
          match lookup_cmd (cmdtable opts) (str_at buf2 a0) with
          | Some c => call c st buf2 args
          | None => Done (st, buf2, Err EINVAL)
          end
      end
  end.

(** The loop over the commands of a line. *)
Fixpoint execute_loop (fuel : nat) (isargs : bool) (st : menu_st) (buf : list Z) (context command : option Z)
  : exec (menu_st * list Z) :=
  match command with
  | None => Done (st, buf)
  | Some cmd =>
      match fuel with
      | O => Halt Fuel
      | S f =>
          '(st1, buf1, r) ← cmd_dispatch st buf cmd;
          match r with
          | Err _ => if isargs then Halt Panic
                     else '(buf2, context1, command1) ← strtok_r buf1 None SEMICOLON context;
                          execute_loop f isargs st1 buf2 context1 command1
          | Ok _ => '(buf2, context1, command1) ← strtok_r buf1 None SEMICOLON context;
                    execute_loop f isargs st1 buf2 context1 command1
          end
      end
  end.

Definition menu_execute (isargs : bool) (st : menu_st) (buf : list Z) (line : Z) : exec (menu_st * list Z) :=
  '(buf1, context, command) ← strtok_r buf (Some line) SEMICOLON None;
  execute_loop (S (length buf)) isargs st buf1 context command.

End menu.

(** ** Reading a line *)

(** ^W: the blanks before the cursor, then the word before them. *)
Fixpoint rubout (buf : list Z) (space : bool) (pos : nat) : exec nat :=
  match pos with
  | O => Done O
  | S p => c ← rd buf (Z.of_nat p); if Bool.eqb (c =? 32) space then rubout buf space p else Done pos
  end.

(** One character of [kgets]: [inl] goes on, [inr] ends the line at a position. *)
Definition kgets_char (maxlen : Z) (buf : list Z) (pos : nat) (ch : Z) : exec ((list Z * nat) + (list Z * nat)) :=
  if (ch =? 10) || (ch =? 13) then Done (inr (buf, pos))
  else if (32 <=? ch) && (ch <? 127) && (Z.of_nat pos <? u32 (maxlen - 1)) then
    buf1 ← wr buf (Z.of_nat pos) ch; Done (inl (buf1, S pos))
  else if ((ch =? 8) || (ch =? 127)) && (0 <? pos)%nat then Done (inl (buf, (pos - 1)%nat))
  else if ch =? 3 then Done (inr (buf, 0%nat))
  else if ch =? 18 then buf1 ← wr buf (Z.of_nat pos) 0; Done (inl (buf1, pos))
  else if ch =? 21 then Done (inl (buf, 0%nat))
  else if ch =? 23 then
    pos1 ← rubout buf true pos; pos2 ← rubout buf false pos1; Done (inl (buf, pos2))
  else Done (inl (buf, pos)).

(** [kgets] reads from the characters typed; at the end of them it waits.  The rest of
    the input is returned. *)
Fixpoint kgets (maxlen : Z) (buf : list Z) (pos : nat) (input : list Z) : exec (list Z * list Z) :=
  match input with
  | [] => Halt Blocked
  | ch :: input' =>
      r ← kgets_char maxlen buf pos ch;
      match r with
      | inl (buf1, pos1) => kgets maxlen buf1 pos1 input'
      | inr (buf1, pos1) => buf2 ← wr buf1 (Z.of_nat pos1) 0; Done (buf2, input')
      end
  end.

(** One round of the loop of [menu]. *)
Definition menu_round {K} `{!Commands K} (opts : options) (st : menu_st (K := K)) (buf input : list Z)
  : exec (menu_st (K := K) * list Z * list Z) :=
  '(buf1, input1) ← kgets 64 buf 0 input;
  '(st1, buf2) ← menu_execute opts false st buf1 0;
  Done (st1, buf2, input1).

(** ** Tokens *)

Definition flush (cur : list Z) : list (list Z) := match cur with [] => [] | _ => [cur] end.

(** The pieces of a string between separators, without the empty ones. *)
Fixpoint tokens_from (seps cur s : list Z) : list (list Z) :=
  match s with
  | [] => flush cur
  | c :: s' => if is_sep seps c then flush cur ++ tokens_from seps [] s' else tokens_from seps (cur ++ [c]) s'
  end.
Definition tokens (seps s : list Z) : list (list Z) := tokens_from seps [] s.

Notation sep seps := (fun c => is_sep seps c = true).
Notation nonsep seps := (fun c => is_sep seps c = false).

Lemma tokens_lead seps lead s : Forall (sep seps) lead -> tokens seps (lead ++ s) = tokens seps s.
Proof. induction 1 as [|c lead Hc _ IH]; [done|]. unfold tokens in *. simpl. by rewrite Hc. Qed.

Lemma tokens_word seps cur w s : Forall (nonsep seps) w -> tokens_from seps cur (w ++ s) = tokens_from seps (cur ++ w) s.
Proof.
  intros Hw. revert cur. induction Hw as [|c w Hc _ IH]; intros cur; [by rewrite app_nil_r|].
  simpl. by rewrite Hc, IH, <- app_assoc.
Qed.

Lemma flush_word w : w <> [] -> flush w = [w].
Proof. by destruct w. Qed.

(** The first token of a string and what comes after it. *)
Inductive first_token (seps s : list Z) : Prop :=
| no_token : Forall (sep seps) s -> tokens seps s = [] -> first_token seps s
| last_token lead w : s = lead ++ w -> Forall (sep seps) lead -> w <> [] -> Forall (nonsep seps) w ->
    tokens seps s = [w] -> first_token seps s
| next_token lead w c s' : s = lead ++ w ++ c :: s' -> Forall (sep seps) lead -> w <> [] -> Forall (nonsep seps) w ->
    is_sep seps c = true -> tokens seps s = w :: tokens seps s' -> first_token seps s.

(** The longest prefix of characters that are separators, or that are not. *)
Lemma span_sep seps b s : exists l r, s = l ++ r /\ Forall (fun c => is_sep seps c = b) l /\
  match r with [] => True | c :: _ => is_sep seps c = negb b end.
Proof.
  induction s as [|c s (l & r & -> & Hl & Hr)]; [by exists [], []|].
  destruct (bool_decide (is_sep seps c = b)) eqn:E.
  - apply bool_decide_eq_true in E. exists (c :: l), r. split; [done|]. split; [by constructor|done].
  - apply bool_decide_eq_false in E. exists [], (c :: l ++ r). split; [done|]. split; [done|]. destruct (is_sep seps c), b; done.
Qed.

Lemma token_cases seps s : first_token seps s.
Proof.
  destruct (span_sep seps true s) as (lead & r & -> & Hlead & Hr). destruct r as [|c0 r].
  { apply no_token; rewrite ?app_nil_r; [done|]. rewrite <- (app_nil_r lead). by rewrite tokens_lead. }
  destruct (span_sep seps false (c0 :: r)) as (w & r' & E & Hw & Hr').
  assert (w <> []) as Hne. { intros ->. simpl in E. subst r'. simpl in Hr, Hr'. congruence. }
  rewrite E. destruct r' as [|c s'].
  - apply (last_token _ _ lead w); rewrite ?app_nil_r; try done.
    rewrite tokens_lead by done. unfold tokens. rewrite <- (app_nil_r w), tokens_word by done. simpl. rewrite app_nil_r. by apply flush_word.
  - apply (next_token _ _ lead w c s'); try done.
    rewrite tokens_lead by done. unfold tokens at 1. rewrite tokens_word by done. simpl in *. rewrite Hr'. simpl. by rewrite flush_word.
Qed.

(** ** [strtok_r] finds the tokens *)

Notation len l := (Z.of_nat (length l)).

Lemma rd_mid {A} (buf pre : list A) x post i : buf = pre ++ x :: post -> i = len pre -> rd buf i = Done x.
Proof. intros -> ->. apply rd_Done; [lia|]. rewrite Nat2Z.id. by rewrite lookup_app_r, Nat.sub_diag by lia. Qed.

Lemma wr_mid {A} (buf pre : list A) x y post i : buf = pre ++ x :: post -> i = len pre -> wr buf i y = Done (pre ++ y :: post).
Proof.
  intros -> ->. rewrite wr_Done by (rewrite length_app; simpl; lia). rewrite Nat2Z.id. f_equal.
  rewrite insert_app_r_alt, Nat.sub_diag by lia. done.
Qed.

Lemma skip_ok seps word l : forall fuel buf pre x post p, buf = pre ++ l ++ x :: post -> p = len pre ->
  Forall (fun c => c <> 0 /\ is_sep seps c = negb word) l -> x = 0 \/ is_sep seps x = word -> (length l < fuel)%nat ->
  skip fuel buf seps word p = Done (p + len l).
Proof.
  induction l as [|c l IH]; intros fuel buf pre x post p -> -> Hl Hx Hf; destruct fuel as [|fuel]; simpl in Hf; try lia.
  - simpl. rewrite (rd_mid _ pre x post) by done. simpl. rewrite Z.add_0_r. destruct Hx as [->| ->]; [done|]. rewrite xorb_nilpotent, andb_false_r. done.
  - apply Forall_cons_1 in Hl as [[Hc Hs] Hl]. cbn [skip app]. rewrite (rd_mid _ pre c (l ++ x :: post)) by done. simpl.
    rewrite (proj2 (Z.eqb_neq c 0)), Hs by done. replace (xorb word (negb word)) with true by (by destruct word). simpl.
    rewrite (IH fuel _ (pre ++ [c]) x post); [f_equal; lia|by rewrite <- app_assoc|rewrite length_app; simpl; lia|done|done|lia].
Qed.

Notation chars := (Forall (fun c => c <> 0)).

Lemma chars_sep seps l b : chars l -> Forall (fun c => is_sep seps c = b) l -> Forall (fun c => c <> 0 /\ is_sep seps c = b) l.
Proof. intros H1 H2. by apply Forall_and. Qed.

Lemma strtok_start buf p seps c : strtok_r buf (Some p) seps c = strtok_r buf None seps (Some p).
Proof. done. Qed.

Lemma strtok_none seps pre s post : chars s -> Forall (sep seps) s ->
  strtok_r (pre ++ s ++ 0 :: post) None seps (Some (len pre)) = Done (pre ++ s ++ 0 :: post, None, None).
Proof.
  intros Hs Hsep. unfold strtok_r.
  rewrite (skip_ok seps false s _ _ pre 0 post); [|done|done|by apply chars_sep|by left|rewrite !length_app; lia]. simpl.
  rewrite (rd_mid _ (pre ++ s) 0 post); [done|by rewrite <- app_assoc|rewrite length_app; lia].
Qed.

Lemma strtok_word seps pre lead w x rest : chars lead -> Forall (sep seps) lead -> chars w -> w <> [] -> Forall (nonsep seps) w ->
  x = 0 \/ is_sep seps x = true ->
  strtok_r (pre ++ lead ++ w ++ x :: rest) None seps (Some (len pre)) =
    if x =? 0 then Done (pre ++ lead ++ w ++ x :: rest, None, Some (len pre + len lead))
    else Done (pre ++ lead ++ w ++ 0 :: rest, Some (len pre + len lead + len w + 1), Some (len pre + len lead)).
Proof.
  intros Hl Hls Hw Hne Hws Hx. remember (pre ++ lead ++ w ++ x :: rest) as buf eqn:Eb. unfold strtok_r.
  assert (length lead < length buf /\ length w < length buf)%nat as [F1 F2].
  { subst buf. rewrite !length_app. simpl. lia. }
  destruct w as [|c w]; [done|]. pose proof (Forall_cons_1 _ _ _ Hws) as [Hcs _]. pose proof (Forall_cons_1 _ _ _ Hw) as [Hc _].
  rewrite (skip_ok seps false lead _ _ pre c (w ++ x :: rest)); [|done|done|by apply chars_sep|by right|lia].
  cbn [mbind exec_bind]. rewrite (rd_mid _ (pre ++ lead) c (w ++ x :: rest)); [|subst buf; by rewrite <- app_assoc|rewrite length_app; lia].
  cbn [mbind exec_bind]. rewrite (proj2 (Z.eqb_neq c 0)) by done.
  rewrite (skip_ok seps true (c :: w) _ _ (pre ++ lead) x rest);
    [|subst buf; by rewrite <- app_assoc|rewrite length_app; lia|by apply chars_sep|done|lia].
  cbn [mbind exec_bind]. rewrite (rd_mid _ (pre ++ lead ++ c :: w) x rest);
    [|subst buf; by rewrite <- !app_assoc|rewrite !length_app; simpl; lia].
  cbn [mbind exec_bind]. destruct (Z.eqb_spec x 0); [done|].
  rewrite (wr_mid _ (pre ++ lead ++ c :: w) x 0 rest); [|subst buf; by rewrite <- !app_assoc|rewrite !length_app; simpl; lia].
  cbn [mbind exec_bind]. by rewrite <- !app_assoc.
Qed.

(** ** Words in a buffer *)

(** The string [w] starts at [a] and is terminated. *)
Definition word_at (buf : list Z) (a : Z) (w : list Z) : Prop :=
  exists pre post, buf = pre ++ w ++ 0 :: post /\ a = len pre /\ chars w /\ w <> [].

(** Words one after the other, from [lo] on and up to [hi]. *)
Fixpoint words_at (buf : list Z) (lo : Z) (args : list Z) (ws : list (list Z)) (hi : Z) : Prop :=
  match args, ws with
  | [], [] => lo <= hi
  | a :: args', w :: ws' => lo <= a /\ word_at buf a w /\ words_at buf (a + len w + 1) args' ws' hi
  | _, _ => False
  end.

Lemma word_at_app buf a w post : word_at buf a w -> word_at (buf ++ post) a w.
Proof. intros (l & r & -> & H). exists l, (r ++ post). by rewrite <- !app_assoc. Qed.

Lemma words_at_app buf lo args ws hi post : words_at buf lo args ws hi -> words_at (buf ++ post) lo args ws hi.
Proof.
  revert lo ws. induction args as [|a args IH]; intros lo [|w ws]; simpl; try done.
  intros (H1 & H2 & H3). split; [done|]. split; [by apply word_at_app|by apply IH].
Qed.

Lemma words_at_snoc buf lo args ws hi a w hi' : words_at buf lo args ws hi -> hi <= a -> word_at buf a w -> a + len w + 1 <= hi' ->
  words_at buf lo (args ++ [a]) (ws ++ [w]) hi'.
Proof.
  revert lo ws. induction args as [|b args IH]; intros lo [|v ws]; simpl; try done.
  - intros H1 H2 H3 H4. split; [lia|]. split; [done|lia].
  - intros (H1 & H2 & H3) H4 H5 H6. split; [done|]. split; [done|]. by apply IH.
Qed.

Lemma words_at_length buf lo args ws hi : words_at buf lo args ws hi -> length args = length ws.
Proof. revert lo ws. induction args as [|a args IH]; intros lo [|w ws]; simpl; try done. intros (_ & _ & H). f_equal. by eapply IH. Qed.

Lemma words_at_hi buf lo args ws hi hi' : words_at buf lo args ws hi -> hi <= hi' -> words_at buf lo args ws hi'.
Proof. revert lo ws. induction args as [|a args IH]; intros lo [|w ws]; simpl; try done; [lia|]. intros (? & ? & ?) ?. eauto. Qed.

Lemma cstr_word w post : chars w -> Sfs.cstr (w ++ 0 :: post) = w.
Proof. induction 1 as [|c w Hc _ IH]; [done|]. simpl. rewrite (proj2 (Z.eqb_neq c 0)) by done. by rewrite IH. Qed.

Lemma str_at_word buf a w : word_at buf a w -> str_at buf a = w.
Proof. intros (pre & post & -> & -> & Hw & _). unfold str_at. rewrite Nat2Z.id, drop_app_length. by apply cstr_word. Qed.

Lemma words_str buf lo args ws hi : words_at buf lo args ws hi -> str_at buf <$> args = ws.
Proof.
  revert lo ws. induction args as [|a args IH]; intros lo [|w ws]; simpl; try done.
  intros (_ & H & Ht). rewrite (str_at_word _ _ _ H). f_equal. by eapply IH.
Qed.

Lemma args_none fuel buf c args : args_loop fuel buf c None args = Done (buf, Ok args).
Proof. by destruct fuel. Qed.

(** The loop of [cmd_dispatch] finds the words of the rest [s] of the command, which
    starts at the context; it overwrites blanks by terminators. *)
Lemma args_loop_ok fuel : forall s pre post lo args ws hi, chars s -> words_at pre lo args ws hi -> hi <= len pre ->
  (length ws <= 16)%nat -> (length s < fuel)%nat ->
  exists s1 r, ('(b, c, w) ← strtok_r (pre ++ s ++ 0 :: post) None BLANKS (Some (len pre)); args_loop fuel b c w args)
      = Done (pre ++ s1 ++ 0 :: post, r) /\ length s1 = length s /\
    if (length ws + length (tokens BLANKS s) <=? 16)%nat
    then exists args', r = Ok args' /\ words_at (pre ++ s1 ++ [0]) lo args' (ws ++ tokens BLANKS s) (len pre + len s + 1)
    else r = Err E2BIG.
Proof.
  induction fuel as [|f IH]; intros s pre post lo args ws hi Hs Hw Hhi Hle Hf; [lia|].
  pose proof (words_at_length _ _ _ _ _ Hw) as Hlen. destruct (token_cases BLANKS s) as [Hall Ht|lead w -> Hl Hne Hnw Ht|lead w x s' -> Hl Hne Hnw Hx Ht].
  - rewrite strtok_none by done. cbn [mbind exec_bind]. rewrite args_none. exists s, (Ok args). split; [done|]. split; [done|].
    rewrite Ht, app_nil_r. simpl. rewrite (proj2 (Nat.leb_le _ _)) by lia. exists args. split; [done|].
    apply words_at_app. eapply words_at_hi; [done|lia].
  - apply Forall_app in Hs as [Hsl Hsw]. rewrite <- !app_assoc, strtok_word by (done || by left). cbn [Z.eqb mbind exec_bind args_loop].
    rewrite Ht, Hlen. simpl. unfold MAXMENUARGS. destruct (Nat.leb_spec (length ws + 1) 16).
    + destruct (Z.geb_spec (len ws) 16); [lia|]. cbn [strtok_r mbind exec_bind]. rewrite args_none.
      exists (lead ++ w), (Ok (args ++ [len pre + len lead])). rewrite <- !app_assoc. split; [done|]. split; [done|]. eexists. split; [done|].
      apply (words_at_snoc _ _ _ _ hi); [by apply words_at_app|lia| |rewrite length_app; lia].
      exists (pre ++ lead), []. rewrite length_app, <- !app_assoc. split; [done|]. split; [lia|done].
    + destruct (Z.geb_spec (len ws) 16); [|lia]. exists (lead ++ w), (Err E2BIG). by rewrite <- !app_assoc.
  - apply Forall_app in Hs as [Hsl Hs]. apply Forall_app in Hs as [Hsw Hs]. apply Forall_cons_1 in Hs as [Hx0 Hs'].
    rewrite <- !app_assoc. cbn [app]. rewrite strtok_word by (done || by right). rewrite (proj2 (Z.eqb_neq x 0)) by done.
    cbn [mbind exec_bind args_loop]. rewrite Ht, Hlen. simpl. unfold MAXMENUARGS.
    destruct (Z.geb_spec (len ws) 16).
    { rewrite (proj2 (Nat.leb_gt _ _)) by lia. exists (lead ++ w ++ 0 :: s'), (Err E2BIG). rewrite <- !app_assoc. split; [done|].
      split; [|done]. rewrite !length_app. done. }
    set (pre' := pre ++ lead ++ w ++ [0]).
    assert (len pre' = len pre + len lead + len w + 1) as Hp. { unfold pre'. rewrite !length_app. simpl. lia. }
    destruct (IH s' pre' post lo (args ++ [len pre + len lead]) (ws ++ [w]) (len pre')) as (s1 & r & E & El & Hr);
      [done| |lia|rewrite length_app; simpl; lia|rewrite !length_app in Hf; simpl in Hf; lia|].
    { apply (words_at_snoc _ _ _ _ hi); [by apply words_at_app|lia| |lia].
      exists (pre ++ lead), []. unfold pre'. rewrite length_app, <- !app_assoc. split; [done|]. split; [lia|done]. }
    unfold pre' in E at 1 3. rewrite Hp, <- !app_assoc in E. cbn [app] in E. rewrite E.
    exists (lead ++ w ++ 0 :: s1), r. rewrite <- !app_assoc. split; [done|]. split; [rewrite !length_app; simpl; lia|].
    rewrite length_app in Hr. simpl in Hr. replace (length ws + S (length (tokens BLANKS s')))%nat with (length ws + 1 + length (tokens BLANKS s'))%nat by lia.
    destruct (Nat.leb_spec (length ws + 1 + length (tokens BLANKS s')) 16); [|done]. destruct Hr as (args' & -> & Hr). exists args'. split; [done|].
    unfold pre' in Hr at 1. rewrite <- !app_assoc in Hr. cbn [app] in Hr. rewrite Hp in Hr. cbn [app].
    eapply words_at_hi; [done|]. rewrite !length_app. simpl. lia.
Qed.

(** ** What a command may do to the buffer *)

(** It writes into its words. *)
Definition confined (buf buf' args : list Z) (ws : list (list Z)) : Prop :=
  length buf' = length buf /\
  forall i : nat, (forall n a w, args !! n = Some a -> ws !! n = Some w -> ~ (a <= Z.of_nat i < a + len w)) -> buf' !! i = buf !! i.

Lemma confined_refl buf args ws : confined buf buf args ws.
Proof. done. Qed.

Lemma words_at_in buf lo args ws hi n a w : words_at buf lo args ws hi -> args !! n = Some a -> ws !! n = Some w ->
  lo <= a /\ word_at buf a w /\ a + len w + 1 <= hi.
Proof.
  revert lo ws n. induction args as [|b args IH]; intros lo [|v ws] n; simpl; try done. intros (H1 & H2 & H3) Ha Hw.
  destruct n as [|n]; simpl in *.
  - simplify_eq. split; [done|]. split; [done|]. clear IH H2. revert H3. generalize (a + len w + 1). revert ws.
    induction args as [|b args IH]; intros [|v ws] z; simpl; try done. intros (L1 & _ & L2). apply IH in L2. lia.
  - destruct (IH _ _ n H3 Ha Hw) as (? & ? & ?). split; [lia|done].
Qed.

Lemma confined_seg buf buf' pre s post args ws : buf = pre ++ s ++ 0 :: post -> confined buf buf' args ws ->
  words_at buf (len pre) args ws (len pre + len s + 1) -> exists s', buf' = pre ++ s' ++ 0 :: post /\ length s' = length s.
Proof.
  intros -> [Hl Hc] Hw. exists (take (length s) (drop (length pre) buf')).
  assert (length (take (length s) (drop (length pre) buf')) = length s) as Ls.
  { rewrite length_take, length_drop, Hl, !length_app. simpl. lia. }
  split; [|done]. apply list_eq. intros i. destruct (decide (length pre <= i < length pre + length s)%nat) as [Hin|Hout].
  - rewrite lookup_app_r by lia. rewrite lookup_app_l by lia. rewrite lookup_take_lt, lookup_drop by lia. f_equal. lia.
  - rewrite Hc.
    + destruct (decide (i < length pre)%nat); [by rewrite !lookup_app_l by lia|].
      rewrite !(lookup_app_r pre) by lia. rewrite !lookup_app_r by lia. by rewrite Ls.
    + intros n a w Ha Hn Hi. destruct (words_at_in _ _ _ _ _ _ _ _ Hw Ha Hn) as (? & _ & ?). lia.
Qed.

Lemma cstr_lookup w : forall buf p, chars w -> (forall k x, w !! k = Some x -> buf !! (p + k)%nat = Some x) ->
  buf !! (p + length w)%nat = Some 0 -> Sfs.cstr (drop p buf) = w.
Proof.
  induction w as [|c w IH]; intros buf p Hw Hk H0; simpl in *.
  - rewrite Nat.add_0_r in H0. by rewrite (drop_S buf 0 p).
  - apply Forall_cons_1 in Hw as [Hc Hw]. rewrite (drop_S buf c p) by (rewrite <- (Nat.add_0_r p); by apply (Hk 0%nat)).
    simpl. rewrite (proj2 (Z.eqb_neq c 0)) by done. f_equal. apply IH; [done| |by rewrite <- H0; f_equal; lia].
    intros k x Hx. rewrite <- (Hk (S k) x Hx). f_equal. lia.
Qed.

(** A word that was not written to is still there. *)
Lemma str_at_keep buf buf' a w : word_at buf a w -> (forall i : nat, a <= Z.of_nat i <= a + len w -> buf' !! i = buf !! i) -> str_at buf' a = w.
Proof.
  intros (pre & post & -> & -> & Hw & _) Hk. unfold str_at. rewrite Nat2Z.id. apply cstr_lookup; [done|..].
  - intros k x Hx. pose proof (lookup_lt_Some _ _ _ Hx). rewrite Hk by lia. rewrite lookup_app_r by lia.
    rewrite lookup_app_l by lia. rewrite <- Hx. f_equal. lia.
  - rewrite Hk by lia. rewrite !lookup_app_r by lia. by replace (length pre + length w - length pre - length w)%nat with 0%nat by lia.
Qed.

(** The name without the colon at its end. *)
Definition chop (w : list Z) : list Z :=
  match reverse w with c :: r => if c =? COLON then reverse r else w | [] => w end.

Lemma strip_colon_ok buf a w : word_at buf a w -> exists buf', strip_colon buf a = Done buf' /\ str_at buf' a = chop w /\
  length buf' = length buf /\ forall i : nat, Z.of_nat i <> a + len w - 1 -> buf' !! i = buf !! i.
Proof.
  intros Hw. unfold strip_colon. rewrite (str_at_word _ _ _ Hw). pose proof Hw as (pre & post & Eb & -> & Hc & Hne).
  destruct (exists_last Hne) as (w0 & c & ->). apply Forall_app in Hc as [Hc0 _].
  assert (buf = (pre ++ w0) ++ c :: 0 :: post) as Eb' by (rewrite Eb, <- !app_assoc; done).
  rewrite (rd_mid buf (pre ++ w0) c (0 :: post)); [|done|rewrite !length_app; simpl; lia]. cbn [mbind exec_bind].
  unfold chop. rewrite reverse_snoc. destruct (Z.eqb_spec c COLON) as [->|Hne'].
  - rewrite (wr_mid buf (pre ++ w0) COLON 0 (0 :: post)); [|done|rewrite !length_app; simpl; lia].
    eexists. split; [done|]. rewrite reverse_involutive. split; [|split].
    + unfold str_at. rewrite Nat2Z.id, <- app_assoc, drop_app_length. by apply cstr_word.
    + rewrite Eb', !length_app. done.
    + intros i Hi. rewrite Eb'. destruct (decide (i < length (pre ++ w0))%nat); [by rewrite !(lookup_app_l (pre ++ w0)) by done|].
      rewrite !(lookup_app_r (pre ++ w0)) by lia. rewrite length_app in *. cbn [length] in *. destruct (i - (length pre + length w0))%nat eqn:E; [lia|done].
  - exists buf. split; [done|]. split; [by apply str_at_word|done].
Qed.

(** ** Comparing names *)

Notation text := (Forall (fun c => 0 < c < 256)).

Lemma text_chars s : text s -> chars s.
Proof. induction 1; constructor; [lia|done]. Qed.

Lemma schar_inj x y : 0 <= x < 256 -> 0 <= y < 256 -> schar x = schar y -> x = y.
Proof. unfold schar. intros Hx Hy. destruct (Z.ltb_spec x 128), (Z.ltb_spec y 128); lia. Qed.

Lemma strcmp_zero a b : text a -> text b -> (strcmp a b =? 0) = bool_decide (a = b).
Proof.
  intros Ha. revert b. induction Ha as [|x a Hx Ha IH]; intros [|y b] Hb; cbn [strcmp].
  - done.
  - apply Forall_cons_1 in Hb as [Hy _]. rewrite bool_decide_eq_false_2 by done.
    assert (0 <> schar y) by (intros E; apply (schar_inj 0 y) in E; lia). destruct (Z.gtb_spec 0 (schar y)); [done|].
    by rewrite (proj2 (Z.eqb_neq 0 (schar y))).
  - rewrite bool_decide_eq_false_2 by done. assert (schar x <> 0) by (intros E; apply (schar_inj x 0) in E; lia).
    destruct (Z.gtb_spec (schar x) 0); [done|]. by rewrite (proj2 (Z.eqb_neq (schar x) 0)).
  - apply Forall_cons_1 in Hb as [Hy Hb]. destruct (Z.eqb_spec (schar x) (schar y)) as [E|Hne].
    + apply schar_inj in E as ->; [|lia|lia]. rewrite IH by done. apply bool_decide_ext. naive_solver.
    + rewrite bool_decide_eq_false_2 by (intros [= -> ->]; done). destruct (_ >? _); [done|]. done.
Qed.

Lemma flush_text cur : text cur -> Forall text (flush cur).
Proof. intros H. destruct cur; simpl; [by apply Forall_nil|]. apply Forall_cons_2; [done|by apply Forall_nil]. Qed.

Lemma tokens_text seps s : text s -> Forall text (tokens seps s).
Proof.
  unfold tokens. intros Hs. assert (text []) as Hc by (by apply Forall_nil). revert Hc. generalize (@nil Z).
  induction Hs as [|c s Hc Hs IH]; intros cur Hcur; simpl; [by apply flush_text|].
  destruct (is_sep seps c); [|apply IH, Forall_app; split; [done|by apply Forall_singleton]].
  apply Forall_app. split; [by apply flush_text|]. apply IH. by apply Forall_nil.
Qed.

(** ** The debug flags *)

Lemma bit_pow n : 1 <= n <= 12 -> 0 < 2 ^ (n - 1) < 2 ^ 12.
Proof. intros H. split; [apply Z.pow_pos_nonneg; lia|]. apply Z.pow_lt_mono_r; lia. Qed.

Lemma setbit_bound d n : 0 <= d < 2 ^ 32 -> 0 <= n < 32 -> 0 <= Z.setbit d n < 2 ^ 32.
Proof.
  intros Hd Hn. rewrite Z.setbit_spec'. assert (0 <= Z.lor d (2 ^ n)) as H0 by (apply Z.lor_nonneg; lia). split; [done|].
  destruct (Z.eq_dec (Z.lor d (2 ^ n)) 0) as [->|Hne]; [done|]. apply Z.log2_lt_pow2; [lia|]. rewrite Z.log2_lor by lia.
  apply Z.max_lub_lt; [|by rewrite Z.log2_pow2; lia]. destruct (Z.eq_dec d 0) as [->|]; [done|]. apply Z.log2_lt_pow2; lia.
Qed.

Lemma bit_land d n : 0 <= n -> Z.land (Z.shiftr d n) 1 = Z.b2z (Z.testbit d n).
Proof.
  intros Hn. change 1 with (Z.ones 1). rewrite Z.land_ones by lia. change (2 ^ 1) with 2.
  rewrite <- Z.bit0_mod, Z.shiftr_spec by lia. done.
Qed.

(** [df n on] sets a bit and [df n off] clears it. *)
Lemma bitmanip_ok {K} (st : menu_st (K := K)) n on off : 0 <= dbflags st < 2 ^ 32 -> 1 <= n <= 12 -> (on =? 0) || (off =? 0) = true ->
  bitmanip st n on off =
    mk_menu (if on =? 0 then Z.setbit (dbflags st) (n - 1) else Z.clearbit (dbflags st) (n - 1)) (kernel st).
Proof.
  intros Hd Hn Hm. pose proof (bit_pow n Hn) as Hp. pose proof (setbit_bound (dbflags st) (n - 1) Hd ltac:(lia)) as Hs.
  destruct st as [d k]. unfold bitmanip. simpl in *.
  rewrite bit_land, Z.shiftl_1_l, (u32_small (2 ^ (n - 1))) by lia.
  destruct (on =? 0); [|simpl in Hm; rewrite Hm]; destruct (Z.testbit d (n - 1)) eqn:Eb; simpl.
  - f_equal. apply Z.bits_inj. intros i. rewrite Z.setbit_eqb by lia. destruct (Z.eqb_spec (n - 1) i) as [<-|]; [by rewrite Eb|done].
  - f_equal. rewrite Z.setbit_spec' in *. rewrite <- Z.add_nocarry_lor in *; [by rewrite u32_small|..].
    all: apply Z.bits_inj; intros i; rewrite Z.land_spec, Z.pow2_bits_eqb, Z.bits_0 by lia;
      destruct (Z.eqb_spec (n - 1) i) as [<-|]; [by rewrite Eb|by rewrite andb_false_r].
  - f_equal. rewrite Z.clearbit_spec', <- Z.sub_nocarry_ldiff.
    + rewrite u32_small; [done|]. split; [|lia]. rewrite Z.sub_nocarry_ldiff; [apply Z.ldiff_nonneg; lia|].
      apply Z.bits_inj; intros i. rewrite Z.ldiff_spec, Z.pow2_bits_eqb, Z.bits_0 by lia. destruct (Z.eqb_spec (n - 1) i) as [<-|]; [by rewrite Eb|done].
    + apply Z.bits_inj; intros i. rewrite Z.ldiff_spec, Z.pow2_bits_eqb, Z.bits_0 by lia. destruct (Z.eqb_spec (n - 1) i) as [<-|]; [by rewrite Eb|done].
  - f_equal. apply Z.bits_inj. intros i. rewrite Z.clearbit_eqb by lia. destruct (Z.eqb_spec (n - 1) i) as [<-|]; [by rewrite Eb|by rewrite andb_true_r].
Qed.

(** ** Times *)

Lemma getinterval_ok s1 ns1 s2 ns2 : 0 <= ns1 < 10 ^ 9 -> 0 <= ns2 < 10 ^ 9 ->
  let '(s, ns) := getinterval s1 ns1 s2 ns2 in
  0 <= ns < 10 ^ 9 /\ s * 10 ^ 9 + ns = (s2 * 10 ^ 9 + ns2) - (s1 * 10 ^ 9 + ns1).
Proof.
  intros H1 H2. unfold getinterval. destruct (Z.ltb_spec ns2 ns1); [rewrite (u32_small (ns2 + 1000000000)) by lia|]; rewrite u32_small; lia.
Qed.

(** ** The line editor *)

(** What is left of the text after ^W, from its end. *)
Fixpoint drop_while (p : Z -> bool) (l : list Z) : list Z :=
  match l with c :: l' => if p c then drop_while p l' else l | [] => [] end.
Definition rub (t : list Z) : list Z :=
  reverse (drop_while (fun c => negb (c =? 32)) (drop_while (fun c => c =? 32) (reverse t))).

(** What a character does to the text: [inr] is the end of the line. *)
Definition press (maxlen : Z) (t : list Z) (ch : Z) : list Z + list Z :=
  if (ch =? 10) || (ch =? 13) then inr t
  else if (32 <=? ch) && (ch <? 127) && (Z.of_nat (length t) + 1 <? maxlen) then inl (t ++ [ch])
  else if ((ch =? 8) || (ch =? 127)) && negb (length t =? 0)%nat then inl (take (length t - 1) t)
  else if ch =? 3 then inr []
  else if ch =? 21 then inl []
  else if ch =? 23 then inl (rub t)
  else inl t.

(** The line and the characters after it. *)
Fixpoint typed (maxlen : Z) (t input : list Z) : option (list Z * list Z) :=
  match input with
  | [] => None
  | ch :: input' => match press maxlen t ch with inl t' => typed maxlen t' input' | inr t' => Some (t', input') end
  end.

Notation printable := (Forall (fun c => 32 <= c < 127)).

Lemma rubout_ok space t rest : exists t1, rubout (t ++ rest) space (length t) = Done (length t1) /\
  t1 = reverse (drop_while (fun c => Bool.eqb (c =? 32) space) (reverse t)) /\ exists t2, t = t1 ++ t2.
Proof.
  revert rest. induction t as [|c t IH] using rev_ind; intros rest; [exists []; split; [done|]; split; [done|by exists []]|].
  rewrite length_app, Nat.add_comm. cbn [length Nat.add rubout]. rewrite (rd_mid _ t c rest) by (by rewrite <- ?app_assoc).
  cbn [mbind exec_bind]. rewrite reverse_snoc. cbn [drop_while]. destruct (Bool.eqb (c =? 32) space).
  - destruct (IH (c :: rest)) as (t1 & E & Et & t2 & ->). exists t1. rewrite <- app_assoc. cbn [app]. rewrite <- app_assoc in *. rewrite E.
    split; [done|]. split; [done|]. exists (t2 ++ [c]). by rewrite app_assoc.
  - exists (t ++ [c]). rewrite length_app. simpl. split; [f_equal; lia|]. split; [|by exists []; rewrite app_nil_r].
    by rewrite reverse_cons, reverse_involutive.
Qed.

Lemma drop_while_ext p q l : (forall c, p c = q c) -> drop_while p l = drop_while q l.
Proof. intros H. induction l as [|c l IH]; [done|]. simpl. rewrite H. by destruct (q c). Qed.

(** ^W: both loops. *)
Lemma rub_ok t rest : exists t2, t = rub t ++ t2 /\
  (pos1 ← rubout (t ++ rest) true (length t); rubout (t ++ rest) false pos1) = Done (length (rub t)).
Proof.
  destruct (rubout_ok true t rest) as (t1 & E1 & Et1 & x1 & Ex1). rewrite E1. cbn [mbind exec_bind]. clear E1.
  destruct (rubout_ok false t1 (x1 ++ rest)) as (t2 & E2 & Et2 & x2 & Ex2).
  rewrite Ex1, <- app_assoc, E2. assert (rub (t1 ++ x1) = t2) as ->.
  { unfold rub. rewrite <- Ex1, Et2, Et1, reverse_involutive. f_equal.
    rewrite (drop_while_ext (fun c => c =? 32) (fun c => Bool.eqb (c =? 32) true)) by (intros c; by destruct (c =? 32)).
    apply drop_while_ext. intros c. by destruct (c =? 32). }
  exists (x2 ++ x1). split; [|done]. rewrite app_assoc. by rewrite <- Ex2.
Qed.

Lemma printable_text t : printable t -> text t.
Proof. induction 1; constructor; [lia|done]. Qed.

(** The buffer of [kgets] holds the text, with room for the terminator. *)
Definition holds_line (maxlen : Z) (t buf : list Z) : Prop :=
  (exists rest, buf = t ++ rest) /\ len buf = maxlen /\ len t < maxlen /\ printable t.

Lemma holds_prefix maxlen t t1 t2 buf : holds_line maxlen t buf -> t = t1 ++ t2 -> holds_line maxlen t1 buf.
Proof.
  intros ((rest & ->) & Hl & Ht & Hp) ->. apply Forall_app in Hp as [Hp _]. split; [exists (t2 ++ rest); by rewrite app_assoc|].
  split; [done|]. split; [rewrite length_app in Ht; lia|done].
Qed.

Lemma kgets_char_ok maxlen t buf ch : maxlen < 2 ^ 32 -> holds_line maxlen t buf ->
  match press maxlen t ch with
  | inl t' => exists buf', kgets_char maxlen buf (length t) ch = Done (inl (buf', length t')) /\ holds_line maxlen t' buf'
  | inr t' => kgets_char maxlen buf (length t) ch = Done (inr (buf, length t')) /\ holds_line maxlen t' buf
  end.
Proof.
  intros Hm Hb. pose proof Hb as ((rest & Eb) & Hl & Ht & Hp). unfold press, kgets_char.
  destruct ((ch =? 10) || (ch =? 13)); [done|].
  assert (exists x rest', rest = x :: rest') as (x & rest' & ->).
  { destruct rest as [|x rest']; [|by eauto]. rewrite app_nil_r in Eb. subst. lia. }
  rewrite (u32_small (maxlen - 1)) by lia. replace (len t <? maxlen - 1) with (len t + 1 <? maxlen) by lia.
  destruct ((32 <=? ch) && (ch <? 127) && (len t + 1 <? maxlen)) eqn:E.
  { rewrite (wr_mid buf t x ch rest') by done. eexists. split; [rewrite length_app; cbn [mbind exec_bind length]; by rewrite Nat.add_comm|].
    rewrite !andb_true_iff in E. subst buf. rewrite length_app in Hl. split; [exists rest'; by rewrite <- app_assoc|].
    rewrite !length_app. cbn [length] in *. split; [lia|]. split; [lia|]. apply Forall_app. split; [done|]. apply Forall_singleton. lia. }
  replace (0 <? length t)%nat with (negb (length t =? 0)%nat) by (by destruct t).
  destruct (((ch =? 8) || (ch =? 127)) && negb (length t =? 0)%nat).
  { exists buf. split; [by rewrite length_take, Nat.min_l by lia|]. apply (holds_prefix _ t _ (drop (length t - 1) t)); [done|]. by rewrite take_drop. }
  destruct (ch =? 3) eqn:E3; [split; [done|]; by apply (holds_prefix _ t [] t)|].
  destruct (Z.eqb_spec ch 18) as [->|_].
  { cbn [Z.eqb]. rewrite (wr_mid buf t x 0 rest') by done. eexists. split; [done|]. subst buf. rewrite !length_app in *.
    split; [by eexists|]. rewrite length_app. done. }
  destruct (ch =? 21); [exists buf; split; [done|]; by apply (holds_prefix _ t [] t)|].
  destruct (ch =? 23); [|by exists buf].
  destruct (rub_ok t (x :: rest')) as (t2 & Et & Er). exists buf. split; [|by apply (holds_prefix _ t _ t2)].
  rewrite <- Eb in Er. apply bind_Done in Er as (pos1 & -> & E2). cbn [mbind exec_bind]. by rewrite E2.
Qed.

(** [kgets] puts the line that was typed into the buffer, terminated; without the end of
    a line it waits. *)
Lemma kgets_ok maxlen input : forall t buf, maxlen < 2 ^ 32 -> holds_line maxlen t buf ->
  match typed maxlen t input with
  | Some (t', input') => exists rest, kgets maxlen buf (length t) input = Done (t' ++ 0 :: rest, input') /\
      len (t' ++ 0 :: rest) = maxlen /\ printable t'
  | None => kgets maxlen buf (length t) input = Halt Blocked
  end.
Proof.
  induction input as [|ch input IH]; intros t buf Hm Hb; [done|]. cbn [typed kgets]. pose proof (kgets_char_ok maxlen t buf ch Hm Hb) as Hc.
  destruct (press maxlen t ch) as [t'|t'].
  - destruct Hc as (buf' & -> & Hb'). cbn [mbind exec_bind]. by apply IH.
  - destruct Hc as [-> ((rest & ->) & Hl & Ht & Hp)]. cbn [mbind exec_bind].
    destruct rest as [|x rest]; [rewrite app_nil_r in Hl; lia|]. rewrite (wr_mid _ t' x 0 rest) by done. exists rest. split; [done|].
    split; [|done]. rewrite length_app in *. done.
Qed.

(** ** What a line means *)

(** A command of another file does what its words say, and writes only into them. *)
Class CommandsOk (K : Type) `{!Commands K} := {
  act : command -> K -> list (list Z) -> exec (K * ret unit);
  run_act : forall c k buf lo args ws hi, words_at buf lo args ws hi ->
    match run c k buf args with
    | Done (k', buf', r) => act c k ws = Done (k', r) /\ confined buf buf' args ws
    | Halt f => act c k ws = Halt f
    end
}.

Section meaning.
Context {K : Type} `{!Commands K, !CommandsOk K}.
Variable opts : options.
Notation st_t := (menu_st (K := K)).

Definition lift (st : st_t) (m : exec (K * ret unit)) : exec (st_t * ret unit) := '(k, r) ← m; Done (set_kernel st k, r).

(** The effect of a command with its words. *)
Definition meaning (c : command) (st : st_t) (ws : list (list Z)) : exec (st_t * ret unit) :=
  match c, ws with
  | (cmd_mainmenu | cmd_opsmenu | cmd_testmenu | cmd_dbflags | cmd_kheapstats), _ => Done (st, Ok tt)
  | cmd_setdbflags, [_; nr; mode] =>
      let n := Printf.atoi nr in
      if (1 <=? n) && (n <=? 12) && (bool_decide (mode = lit "on") || bool_decide (mode = lit "off")) then
        Done (mk_menu (if bool_decide (mode = lit "on") then Z.setbit (dbflags st) (n - 1) else Z.clearbit (dbflags st) (n - 1)) (kernel st), Ok tt)
      else Done (st, Err EINVAL)
  | cmd_mount, [_; fstype; device] =>
      if OPT_SFS opts && bool_decide (fstype = lit "sfs") then lift st (sfs_mount (kernel st) (chop device)) else Done (st, Err EINVAL)
  | cmd_unmount, [_; device] => lift st (vfs_unmount (kernel st) (chop device))
  | cmd_bootfs, [_; device] => lift st (vfs_setbootfs (kernel st) (chop device))
  | cmd_prog, _ :: ((_ :: _) as program) => lift st (run_program (kernel st) program)
  | cmd_shell, [_] => lift st (run_program (kernel st) [_PATH_SHELL])
  | (cmd_setdbflags | cmd_mount | cmd_unmount | cmd_bootfs | cmd_prog | cmd_shell), _ => Done (st, Err EINVAL)
  | cmd_panic, _ => Halt Panic
  | _, _ => lift st (act c (kernel st) ws)
  end.

(** The command of the first word; at most sixteen words. *)
Definition obey (st : st_t) (ws : list (list Z)) : exec (st_t * ret unit) :=
  if (16 <? length ws)%nat then Done (st, Err E2BIG)
  else match ws with
       | [] => Done (st, Ok tt)
       | name :: _ =>
           match find (fun e => bool_decide (e.1 = name)) (cmdtable opts) with
           | Some (_, c) => meaning c st ws
           | None => Done (st, Err EINVAL)
           end
       end.

(** The commands one after the other; at boot a failure is the end. *)
Fixpoint obey_all (isargs : bool) (st : st_t) (cmds : list (list (list Z))) : exec st_t :=
  match cmds with
  | [] => Done st
  | ws :: cmds' =>
      '(st1, r) ← obey st ws;
      match r with
      | Err _ => if isargs then Halt Panic else obey_all isargs st1 cmds'
      | Ok _ => obey_all isargs st1 cmds'
      end
  end.

(** What the words of the line say. *)
Definition commands (line : list Z) : list (list (list Z)) := tokens BLANKS <$> tokens SEMICOLON line.

(** ** The menu does it *)

Definition agrees (buf args : list Z) (ws : list (list Z)) (m : exec (st_t * list Z * ret unit)) (m' : exec (st_t * ret unit)) : Prop :=
  match m with
  | Done (st', buf', r) => m' = Done (st', r) /\ confined buf buf' args ws
  | Halt f => m' = Halt f
  end.

Lemma lift_agrees buf buf' args ws st m : confined buf buf' args ws ->
  agrees buf args ws ('(k, r) ← m; Done (set_kernel st k, buf', r)) (lift st m).
Proof. intros H. unfold lift. by destruct m as [[k r]|f]. Qed.

Lemma err_agrees buf args ws st e : agrees buf args ws (Done (st, buf, Err e)) (Done (st, Err e)).
Proof. by split. Qed.

(** What changes in the last byte of a word stays in it. *)
Lemma last_confined buf buf' lo args ws hi n a w : words_at buf lo args ws hi -> args !! n = Some a -> ws !! n = Some w ->
  length buf' = length buf -> (forall i : nat, Z.of_nat i <> a + len w - 1 -> buf' !! i = buf !! i) -> confined buf buf' args ws.
Proof.
  intros Hw Ha Hn Hl Hk. split; [done|]. intros i Hi. apply Hk. intros E. apply (Hi n a w Ha Hn).
  destruct (words_at_in _ _ _ _ _ _ _ _ Hw Ha Hn) as (_ & (_ & _ & _ & _ & _ & Hne) & _). destruct w; [done|]. simpl in *. lia.
Qed.

Lemma device_agrees f st buf lo args ws hi : words_at buf lo args ws hi ->
  agrees buf args ws (do_device f st buf args) match ws with [_; d] => lift st (f (kernel st) (chop d)) | _ => Done (st, Err EINVAL) end.
Proof.
  intros Hw. pose proof (words_at_length _ _ _ _ _ Hw) as Hl. unfold do_device. rewrite Hl.
  destruct ws as [|w0 [|w1 [|w2 ws]]]; [apply err_agrees|apply err_agrees| |].
  2:{ destruct (Z.eqb_spec (len (w0 :: w1 :: w2 :: ws)) 2) as [E|]; [simpl in E; lia|apply err_agrees]. }
  destruct args as [|a0 [|a1 [|]]]; try done. cbn [length Z.eqb negb]. change (rd [a0; a1] 1) with (Done a1). cbn [mbind exec_bind].
  destruct (words_at_in _ _ _ _ _ 1%nat a1 w1 Hw) as (_ & Hw1 & _); [done|done|]. unfold with_device.
  destruct (strip_colon_ok buf a1 w1 Hw1) as (buf' & -> & Es & El & Hk). cbn [mbind exec_bind]. rewrite Es. apply lift_agrees.
  by apply (last_confined buf buf' lo [a0; a1] [w0; w1] hi 1 a1 w1).
Qed.

Lemma lit_on : text (lit "on") /\ text (lit "off") /\ text (lit "sfs").
Proof. vm_compute. repeat constructor. Qed.

Lemma setdbflags_agrees st buf lo args ws hi : words_at buf lo args ws hi -> Forall text ws -> 0 <= dbflags st < 2 ^ 32 ->
  agrees buf args ws (do_setdbflags st buf args) (meaning cmd_setdbflags st ws).
Proof.
  intros Hw Ht Hd. pose proof (words_at_length _ _ _ _ _ Hw) as Hl. unfold do_setdbflags. rewrite Hl.
  destruct ws as [|w0 [|w1 [|w2 [|w3 ws]]]]; try apply err_agrees.
  2:{ destruct (Z.eqb_spec (len (w0 :: w1 :: w2 :: w3 :: ws)) 3) as [E|]; [simpl in E; lia|apply err_agrees]. }
  destruct args as [|a0 [|a1 [|a2 [|]]]]; try done. cbn [length Z.eqb negb].
  change (rd [a0; a1; a2] 1) with (Done a1). change (rd [a0; a1; a2] 2) with (Done a2). cbn [mbind exec_bind].
  destruct (words_at_in _ _ _ _ _ 1%nat a1 w1 Hw) as (_ & Hw1 & _); [done|done|].
  destruct (words_at_in _ _ _ _ _ 2%nat a2 w2 Hw) as (_ & Hw2 & _); [done|done|].
  rewrite (str_at_word _ _ _ Hw1), (str_at_word _ _ _ Hw2). destruct lit_on as (Hon & Hoff & _).
  assert (text w2) as Ht2. { do 2 apply Forall_cons_1 in Ht as [_ Ht]. by apply Forall_cons_1 in Ht as [? _]. }
  cbn [meaning]. rewrite !strcmp_zero by done. set (n := Printf.atoi w1).
  destruct (Z.gtb_spec n 12); [rewrite (proj2 (Z.leb_gt n 12)), andb_false_r by lia; apply err_agrees|].
  destruct (Z.ltb_spec n 1); [rewrite (proj2 (Z.leb_gt 1 n)) by lia; apply err_agrees|].
  rewrite (proj2 (Z.leb_le 1 n)), (proj2 (Z.leb_le n 12)) by lia. cbn [orb andb].
  destruct (bool_decide (w2 = lit "on") || bool_decide (w2 = lit "off")) eqn:E.
  - rewrite <- negb_orb, E. cbn [negb]. rewrite bitmanip_ok, strcmp_zero; [by split|done..|lia|]. by rewrite !strcmp_zero.
  - rewrite <- negb_orb, E. apply err_agrees.
Qed.

Lemma mount_agrees st buf lo args ws hi : words_at buf lo args ws hi -> Forall text ws ->
  agrees buf args ws (do_mount opts st buf args) (meaning cmd_mount st ws).
Proof.
  intros Hw Ht. pose proof (words_at_length _ _ _ _ _ Hw) as Hl. unfold do_mount. rewrite Hl.
  destruct ws as [|w0 [|w1 [|w2 [|w3 ws]]]]; try apply err_agrees.
  2:{ destruct (Z.eqb_spec (len (w0 :: w1 :: w2 :: w3 :: ws)) 3) as [E|]; [simpl in E; lia|apply err_agrees]. }
  destruct args as [|a0 [|a1 [|a2 [|]]]]; try done. cbn [length Z.eqb negb].
  change (rd [a0; a1; a2] 1) with (Done a1). change (rd [a0; a1; a2] 2) with (Done a2). cbn [mbind exec_bind].
  pose proof Hw as (_ & _ & _ & Hw1 & H12 & Hw2 & _).
  destruct (strip_colon_ok buf a2 w2 Hw2) as (buf' & -> & Es & El & Hk). cbn [mbind exec_bind].
  assert (confined buf buf' [a0; a1; a2] [w0; w1; w2]) as Hc by (by apply (last_confined buf buf' lo _ _ hi 2 a2 w2)).
  assert (w2 <> []) as Hne by (by destruct Hw2 as (_ & _ & _ & _ & _ & ?)).
  rewrite (str_at_keep buf buf' a1 w1 Hw1), Es.
  - assert (text w1) as Ht1. { apply Forall_cons_1 in Ht as [_ Ht]. by apply Forall_cons_1 in Ht as [? _]. }
    rewrite strcmp_zero by (done || apply lit_on). cbn [meaning]. rewrite (bool_decide_ext (lit "sfs" = w1) (w1 = lit "sfs")) by done.
    destruct (OPT_SFS opts && _); [by apply lift_agrees|]. by split.
  - intros i Hi. apply Hk. destruct w2; [done|]. simpl. lia.
Qed.

Lemma call_agrees c st buf lo args ws hi : words_at buf lo args ws hi -> Forall text ws -> 0 <= dbflags st < 2 ^ 32 ->
  agrees buf args ws (call opts c st buf args) (meaning c st ws).
Proof.
  intros Hw Ht Hd. pose proof (words_at_length _ _ _ _ _ Hw) as Hl.
  assert (agrees buf args ws ('(k, buf1, r) ← run c (kernel st) buf args; Done (set_kernel st k, buf1, r)) (lift st (act c (kernel st) ws))) as Hrun.
  { pose proof (run_act c (kernel st) buf lo args ws hi Hw) as H. unfold lift. destruct (run c (kernel st) buf args) as [[[k b] r]|f].
    - destruct H as [-> ?]. by split.
    - by rewrite H. }
  destruct c; try (exact Hrun); try (by split).
  - unfold call. rewrite Hl. destruct ws as [|w0 [|w1 ws]]; [by apply err_agrees|by apply lift_agrees|].
    destruct (Z.eqb_spec (len (w0 :: w1 :: ws)) 1) as [E|]; [simpl in E; lia|apply err_agrees].
  - unfold call. rewrite Hl. destruct ws as [|w0 [|w1 ws]]; [by apply err_agrees|by apply err_agrees|].
    destruct (Z.ltb_spec (len (w0 :: w1 :: ws)) 2) as [E|_]; [simpl in E; lia|].
    pose proof (words_str _ _ _ _ _ Hw) as Es. destruct args as [|a0 args]; [done|]. rewrite fmap_cons in Es. injection Es as _ Es.
    unfold common_prog. change (drop 1 (a0 :: args)) with args. rewrite Es. by apply lift_agrees.
  - by eapply mount_agrees.
  - by eapply device_agrees.
  - by eapply device_agrees.
  - by eapply setdbflags_agrees.
Qed.

Lemma lookup_find table name : text name -> Forall (fun e => e.1 <> [] /\ text e.1) table ->
  lookup_cmd table name = snd <$> find (fun e => bool_decide (e.1 = name)) table.
Proof.
  intros Hn. induction table as [|[n c] table IH]; intros Ht; [done|]. apply Forall_cons_1 in Ht as [[Hne Htn] Ht]. simpl in *.
  rewrite strcmp_zero by done. rewrite (bool_decide_ext (name = n) (n = name)) by done.
  destruct n as [|z n]; [done|]. cbn [length Nat.eqb negb andb]. destruct (bool_decide _); [done|]. by apply IH.
Qed.

Lemma cmdtable_names : Forall (fun e => e.1 <> [] /\ text e.1) (cmdtable opts).
Proof. destruct opts as [[] [] []]; vm_compute; repeat constructor; discriminate. Qed.

Lemma dispatch_ok st pre s post : text s -> 0 <= dbflags st < 2 ^ 32 ->
  match cmd_dispatch opts st (pre ++ s ++ 0 :: post) (len pre) with
  | Done (st', buf', r) => obey st (tokens BLANKS s) = Done (st', r) /\ exists s', buf' = pre ++ s' ++ 0 :: post /\ length s' = length s
  | Halt f => obey st (tokens BLANKS s) = Halt f
  end.
Proof.
  intros Hs Hd. pose proof (text_chars s Hs) as Hc. set (buf := pre ++ s ++ 0 :: post).
  destruct (args_loop_ok (S (length buf)) s pre post (len pre) [] [] (len pre)) as (s1 & r & E & El & Hr);
    [done|simpl; lia|lia|simpl; lia|unfold buf; rewrite !length_app; lia|].
  unfold cmd_dispatch. rewrite strtok_start. fold buf in E. destruct (strtok_r buf None BLANKS (Some (len pre))) as [[[b c] w]|f]; [|done].
  cbn [mbind exec_bind] in E |- *. rewrite E. cbn [mbind exec_bind]. pose proof (tokens_text BLANKS s Hs) as Htt.
  simpl in Hr. unfold obey. destruct (Nat.leb_spec (length (tokens BLANKS s)) 16) as [Hle|Hgt].
  2:{ subst r. rewrite (proj2 (Nat.ltb_lt _ _)) by done. split; [done|]. by exists s1. }
  rewrite (proj2 (Nat.ltb_ge _ _)) by done. destruct Hr as (args & -> & Hw).
  assert (pre ++ s1 ++ 0 :: post = (pre ++ s1 ++ [0]) ++ post) as Eb by (by rewrite <- !app_assoc).
  apply (words_at_app _ _ _ _ _ post) in Hw. rewrite <- Eb in Hw. pose proof (words_at_length _ _ _ _ _ Hw) as Hl.
  destruct (tokens BLANKS s) as [|w0 ws]; destruct args as [|a0 args]; try done. { split; [done|]. by exists s1. }
  pose proof Hw as (_ & Hw0 & _). rewrite (str_at_word _ _ _ Hw0).
  rewrite lookup_find; [|by apply Forall_cons_1 in Htt as [? _]|apply cmdtable_names].
  destruct (find _ _) as [[n c']|]; simpl; [|split; [done|]; by exists s1].
  pose proof (call_agrees c' st _ _ _ _ _ Hw Htt Hd) as Hcall. unfold agrees in Hcall.
  destruct (call _ _ _ _ _) as [[[st' buf'] r']|f]; [|done]. destruct Hcall as [-> Hconf]. split; [done|].
  destruct (confined_seg _ buf' pre s1 post _ _ eq_refl Hconf) as (s2 & -> & El2); [by rewrite El|]. exists s2. split; [done|]. congruence.
Qed.

Lemma clearbit_bound d n : 0 <= d < 2 ^ 32 -> 0 <= n -> 0 <= Z.clearbit d n < 2 ^ 32.
Proof.
  intros Hd Hn. rewrite Z.clearbit_spec'. split; [apply Z.ldiff_nonneg; lia|].
  destruct (Z.eq_dec (Z.ldiff d (2 ^ n)) 0) as [->|Hne]; [done|].
  assert (0 <= Z.ldiff d (2 ^ n)) by (apply Z.ldiff_nonneg; lia). destruct (Z.eq_dec d 0) as [->|Hd0]; [by rewrite Z.ldiff_0_l in Hne|].
  apply Z.log2_lt_pow2; [lia|]. apply (Z.le_lt_trans _ (Z.log2 d)); [|apply Z.log2_lt_pow2; lia].
  apply Z.log2_le_mono. apply Z.ldiff_le; [lia|]. rewrite Z.ldiff_ldiff_l, Z.lor_comm, <- Z.ldiff_ldiff_l, Z.ldiff_diag. apply Z.ldiff_0_l.
Qed.

Lemma meaning_bound c st ws st' r : 0 <= dbflags st < 2 ^ 32 -> meaning c st ws = Done (st', r) -> 0 <= dbflags st' < 2 ^ 32.
Proof.
  assert (forall m, 0 <= dbflags st < 2 ^ 32 -> lift st m = Done (st', r) -> 0 <= dbflags st' < 2 ^ 32) as Hlift.
  { intros m Hd. unfold lift. destruct m as [[k r']|f]; simpl; intros [=]. by subst. }
  intros Hd. destruct c; simpl; try (by apply Hlift); try (intros [=]; by subst);
    repeat case_match; try (by apply Hlift); try (intros [=]; by subst); try (by intros [=]); intros [= <- <-]; simpl.
  - apply setbit_bound; [done|]. repeat match goal with H : _ && _ = true |- _ => apply andb_true_iff in H as [? ?] end. lia.
  - apply clearbit_bound; [done|]. repeat match goal with H : _ && _ = true |- _ => apply andb_true_iff in H as [? ?] end. lia.
Qed.

Lemma obey_bound st ws st' r : 0 <= dbflags st < 2 ^ 32 -> obey st ws = Done (st', r) -> 0 <= dbflags st' < 2 ^ 32.
Proof.
  intros Hd. unfold obey. repeat case_match; try (intros [=]; by subst). by apply meaning_bound.
Qed.

Lemma execute_none fuel isargs st buf c : execute_loop opts fuel isargs st buf c None = Done (st, buf).
Proof. by destruct fuel. Qed.

Notation state m := ('(st', _) ← m; Done st').

(** One command of the loop, and the rest. *)
Lemma execute_step isargs fuel st pre s post ctx k : text s -> 0 <= dbflags st < 2 ^ 32 ->
  (forall st1 s1, 0 <= dbflags st1 < 2 ^ 32 -> length s1 = length s ->
     state ('(b, c, w) ← strtok_r (pre ++ s1 ++ 0 :: post) None SEMICOLON ctx; execute_loop opts fuel isargs st1 b c w) = k st1) ->
  state (execute_loop opts (S fuel) isargs st (pre ++ s ++ 0 :: post) ctx (Some (len pre))) =
    ('(st1, r) ← obey st (tokens BLANKS s); match r with Err _ => if isargs then Halt Panic else k st1 | Ok _ => k st1 end).
Proof.
  intros Hs Hd Hk. cbn [execute_loop]. pose proof (dispatch_ok st pre s post Hs Hd) as H.
  destruct (cmd_dispatch opts st _ (len pre)) as [[[st1 buf1] r]|f]; [|by rewrite H]. destruct H as [E (s1 & -> & El)].
  pose proof (obey_bound _ _ _ _ Hd E) as Hd1. rewrite E. cbn [mbind exec_bind]. specialize (Hk st1 s1 Hd1 El).
  destruct r as [u|e]; [exact Hk|]. destruct isargs; [done|exact Hk].
Qed.

Lemma execute_ok isargs fuel : forall s pre post st, text s -> 0 <= dbflags st < 2 ^ 32 -> (length s < fuel)%nat ->
  state ('(b, c, w) ← strtok_r (pre ++ s ++ 0 :: post) None SEMICOLON (Some (len pre)); execute_loop opts fuel isargs st b c w)
    = obey_all isargs st (commands s).
Proof.
  induction fuel as [|f IH]; intros s pre post st Hs Hd Hf; [lia|]. pose proof (text_chars s Hs) as Hc. unfold commands.
  destruct (token_cases SEMICOLON s) as [Hall Ht|lead w -> Hl Hne Hnw Ht|lead w x s' -> Hl Hne Hnw Hx Ht]; rewrite Ht.
  - rewrite strtok_none by done. cbn [mbind exec_bind]. by rewrite execute_none.
  - apply Forall_app in Hs as [_ Hw]. apply Forall_app in Hc as [Hcl Hcw].
    rewrite <- !app_assoc, strtok_word by (done || by left). cbn [Z.eqb mbind exec_bind]. rewrite app_assoc.
    replace (len pre + len lead) with (len (pre ++ lead)) by (rewrite length_app; lia).
    apply (execute_step isargs f st (pre ++ lead) w post None Done); [done|done|]. intros st1 s1 _ _.
    cbn [strtok_r mbind exec_bind]. by rewrite execute_none.
  - apply Forall_app in Hs as [_ Hs]. apply Forall_app in Hs as [Hw Hs]. apply Forall_cons_1 in Hs as [Hx0 Hs'].
    apply Forall_app in Hc as [Hcl Hcw]. apply Forall_app in Hcw as [Hcw _].
    rewrite <- !app_assoc. cbn [app]. rewrite strtok_word by (done || by right). rewrite (proj2 (Z.eqb_neq x 0)) by lia.
    cbn [mbind exec_bind]. rewrite app_assoc.
    replace (len pre + len lead) with (len (pre ++ lead)) by (rewrite length_app; lia).
    apply (execute_step isargs f st (pre ++ lead) w (s' ++ 0 :: post) _ (fun st1 => obey_all isargs st1 (commands s'))); [done|done|].
    intros st1 s1 Hd1 El. rewrite <- (IH s' ((pre ++ lead) ++ s1 ++ [0]) post st1); [|done|done|rewrite !length_app in Hf; simpl in Hf; lia].
    replace (len ((pre ++ lead) ++ s1 ++ [0])) with (len (pre ++ lead) + len w + 1) by (rewrite !length_app; simpl; lia).
    by rewrite <- !app_assoc.
Qed.

Lemma menu_execute_ok isargs st line rest : text line -> 0 <= dbflags st < 2 ^ 32 ->
  state (menu_execute opts isargs st (line ++ 0 :: rest) 0) = obey_all isargs st (commands line).
Proof.
  intros Hl Hd. pose proof (execute_ok isargs (S (length (line ++ 0 :: rest))) line [] rest st Hl Hd) as H.
  rewrite <- H by (rewrite length_app; lia). done.
Qed.

(** C32. The menu obeys the line: [menu_execute] has the effect of the commands between
    the semicolons, in order, each with the words between the blanks.  A command is
    looked up under its first word and called with its words; an unknown name, a wrong
    number of words or more than sixteen are errors that change nothing; at boot an
    error is a panic, at the prompt the next command follows.  That [strtok_r] cuts the
    commands in the buffer while the loop over the line is still in it, and that
    commands overwrite their words, does not matter. *)
Theorem menu_execute_correct isargs st line rest : text line -> 0 <= dbflags st < 2 ^ 32 ->
  ('(st', _) ← menu_execute opts isargs st (line ++ 0 :: rest) 0; Done st') = obey_all isargs st (commands line).
Proof. apply menu_execute_ok. Qed.

(** C33. One round of the prompt: [kgets] collects the line as it was edited (backspace,
    ^U, ^W, ^C, and no more than 63 printable characters), never writing outside of its
    buffer, and the commands of that line are obeyed; as long as the line has no end,
    the menu waits. *)
Theorem menu_round_correct st buf input : length buf = 64%nat -> 0 <= dbflags st < 2 ^ 32 ->
  match typed 64 [] input with
  | Some (line, rest) => ('(st', _, input') ← menu_round opts st buf input; Done (st', input')) =
      (st' ← obey_all false st (commands line); Done (st', rest))
  | None => menu_round opts st buf input = Halt Blocked
  end.
Proof.
  intros Hl Hd. pose proof (kgets_ok 64 input [] buf ltac:(done)) as H. cbn [length] in H.
  assert (holds_line 64 [] buf) as Hb. { split; [by exists buf|]. split; [by rewrite Hl|done]. }
  specialize (H Hb). unfold menu_round. destruct (typed 64 [] input) as [[line rest]|]; [|by rewrite H].
  destruct H as (r & -> & _ & Hp). cbn [mbind exec_bind].
  rewrite <- (menu_execute_ok false st line r (printable_text line Hp) Hd). by destruct (menu_execute opts false st (line ++ 0 :: r) 0) as [[st' b]|f].
Qed.

End meaning.

(** ** A machine *)

(** A kernel in which commands only leave a record of how they were called. *)
Module Example1.

Definition log := list (list (list Z)).

#[export] Instance logging : Commands log := {|
  run := fun c k buf args => Done (k ++ [str_at buf <$> args], buf, Ok tt);
  sfs_mount := fun k d => Done (k ++ [[lit "sfs_mount"; d]], Ok tt);
  vfs_unmount := fun k d => Done (k ++ [[lit "vfs_unmount"; d]], Ok tt);
  vfs_setbootfs := fun k d => Done (k ++ [[lit "vfs_setbootfs"; d]], Ok tt);
  run_program := fun k ws => Done (k ++ [ws], Ok tt)
|}.

#[export] Instance logging_ok : CommandsOk log.
Proof.
  refine {| act := fun c k ws => Done (k ++ [ws], Ok tt) |}.
  intros c k buf lo args ws hi Hw. simpl. by rewrite (words_str _ _ _ _ _ Hw).
Defined.

Definition asst3 : options := mk_options false true false.
Definition booted : menu_st (K := log) := mk_menu 0 [].

(** The line of the comment above [menu]. *)
Definition boot_line : list Z := lit "mount sfs lhd0:; bootfs lhd0; s".

Lemma menu_execute_correct_witness :
  ('(st', _) ← menu_execute asst3 true booted (boot_line ++ [0]) 0; Done st') =
    Done (mk_menu 0 [[lit "sfs_mount"; lit "lhd0"]; [lit "vfs_setbootfs"; lit "lhd0"]; [lit "/bin/sh"]]).
Proof.
  rewrite (menu_execute_correct asst3 true booted boot_line []).
  - vm_compute. reflexivity.
  - vm_compute. repeat constructor.
  - simpl. lia.
Defined.

(** [df 5 om], backspace, [n], return. *)
Definition keys : list Z := lit "df 5 om" ++ [8] ++ lit "n" ++ [10] ++ lit "q".

Lemma menu_round_correct_witness :
  ('(st', _, input') ← menu_round asst3 booted (replicate 64 0) keys; Done (st', input')) = Done (mk_menu 16 [], lit "q").
Proof.
  pose proof (menu_round_correct asst3 booted (replicate 64 0) keys eq_refl ltac:(simpl; lia)) as H.
  change (typed 64 [] keys) with (Some (lit "df 5 on", lit "q")) in H. rewrite H. vm_compute. reflexivity.
Defined.

End Example1.

End Menu.
